(* ===== verification/_CoqProject ===== *)
-Q . S2P
Prelude.v
OrdMap.v
Memory.v
MemoryInv.v
MemoryOps.v
MemorySpec.v
AllocatorClass.v
MemoryInstance.v
MemoryService.v
MemoryServiceSpec.v
MemoryServiceThms.v
Scheduler.v
SchedulerSpec.v
SchedulerInv.v
SchedulerCredit.v
SchedulerCalls.v
SchedulerThms.v
SchedulerRuns.v
SchedPolicies.v
SchedulerProps.v
SchedulerContract.v
FormatHandler.v
FormatCopy.v
FormatSpec.v
FormatGroups.v
FormatTranspose.v
FormatTensors.v
FormatThms.v
IpcPacket.v
IpcCodec.v
IpcServer.v
IpcClient.v
IpcSpec.v
IpcThms.v
IpcEndpoint.v
IpcEndpointInv.v
IpcEndpointThms.v
InferenceJob.v
JobInv.v
JobRuns.v
JobProgress.v
JobStart.v
JobOutputs.v
JobThms.v
StopGate.v
BufferPool.v
JobFlow.v
Batch.v
DevicePool.v
DeviceTask.v
DeviceTaskInv.v
DeviceTaskRuns.v
DeviceTaskDrain.v
DeviceTaskRecovery.v
TaskData.v
Engine.v
EngineBuffers.v
EngineTyping.v
EngineRun.v
EngineOutputs.v
JobSlots.v
CpuWorker.v
MonitorShm.v
MonitorShmThms.v
ModelParser.v
ModelParserThms.v
ModelParserV7.v
ModelParserV6.v
DeviceTables.v
TaskMemory.v
TaskMemoryThms.v
StdDevice.v
IoSlice.v
DxrtService.v
DxrtServiceInv.v
DxrtServiceBounds.v
DxrtServiceSched.v
DxrtServiceFree.v
DxrtServiceThms.v
ServiceRecovery.v
