(* ===== verification/Prelude.v ===== *)
(** * DXRT: verification library

    DXRT is the C++ runtime of the DEEPX NPUs.  An application loads a compiled model into
    an inference engine and starts jobs on it; a job runs the graph of tasks of the model,
    NPU tasks on devices and CPU tasks on ONNX Runtime.  Several processes share the devices
    through a service process, which owns the device memory, schedules the requests and
    answers over a local socket; without the service a process drives the devices itself.
    This library models that core, [src/lib], as executable definitions and proves what
    makes it correct.  Paths below are relative to [src/].

    ** The parts, their files and the code

    - Device memory: [OrdMap] is [std::map] on integer keys; [Memory] is [class Memory] of
      [lib/memory.cpp], every public operation a function from the state of the object to
      its result and next state.  [MemoryInv], [MemoryOps] and [MemorySpec] prove it against
      its abstract state, the list of the blocks in use.  [AllocatorClass] is the interface
      the owners of memory use it through, [MemoryInstance] the proof that it meets it.
    - Ownership: [MemoryService] ([lib/dxrt_service/memory_service.cpp]) records which
      process and task each block belongs to, over any allocator that meets the interface;
      [MemoryServiceSpec] and [MemoryServiceThms] have its contract.
    - Scheduling: [Scheduler] ([lib/dxrt_service/schedule_service.cpp]) is the table of
      requests and the mutually recursive dispatch loop, over the interface [Policy];
      [SchedPolicies] has the three policies.  [SchedulerSpec] to [SchedulerContract] prove the
      loop terminates, the invariant, the accounting, work conservation and order.
    - Service: [DeviceTables] ([bound_manager.cpp], [process_with_device_info.cpp],
      [process_task_info_store.hpp], [memfd_service.cpp]) and [DxrtService]
      ([dxrt_service_v2.cpp]), whose handlers act on the scheduler, on one memory service per
      device and on the tables; its theorems are in [DxrtServiceThms].
    - Recovery: [ServiceRecovery] is a device failure in the service, the threads of each device
      ([lib/device_pool/device_dispatcher.cpp]), the handler of DMA requests and the threads of
      the transfers interleaved; undisturbed its handler is the one of [DxrtService].
    - IPC: [IpcPacket] and [IpcCodec] (packets as bytes), [IpcServer] (connections and
      dispatch to handlers), [IpcClient] (requests and responses), [IpcThms]; [IpcEndpoint]
      (calls, the receive loop and closing, interleaved), [IpcEndpointThms].  The code is
      [lib/dynamic_ipc/].
    - Tensor formats: [FormatHandler] ([lib/npu_format_handler.cpp], on a heap of blocks) and
      [FormatTensors] (the tensors of a request), with [FormatCopy] to [FormatThms].
    - Tasks: [TaskData] ([lib/task_data.cpp], [ppu_binary_parser.cpp]) is the layout of an NPU
      task; [TaskMemory] the registration of its regions; [IoSlice] the addresses of
      a request's data in its slice, in shared memory and for the driver.
    - The standalone device: [StdDevice] ([lib/device_pool/std_device_task_layer.cpp]) registers a
      task in the memory of [TaskMemory], serves its requests and releases it.
    - Devices in the client: [DevicePool] chooses a device; [DeviceTask] is the path of a
      request through one ([lib/device_pool/acc_device_task_layer.cpp] and its queues,
      slices and recovery); [StopGate] the gate its threads pass.
    - Jobs: [InferenceJob] ([lib/inference_job.cpp]) runs the task graph, completions in any
      order; [BufferPool] the host buffers of a task; [JobFlow] what the jobs of an engine
      wait for; [Batch] the batches of [InferenceEngine::Run].
      [JobSlots] is the ring of job objects an engine has, and waiting for a job; [CpuWorker]
      ([lib/cpu_handle_worker.cpp], [worker.cpp]) the threads that run CPU tasks.
    - Model files: [ModelParser] ([lib/parsers/v8_model_parser.cpp], [parser_common_util.cpp])
      reads a file of version 8, the JSON parser a parameter, and gives the models of tasks that
      [Engine] is built from; [ModelParserThms].  [ModelParserV7] ([v7_model_parser.cpp]) is
      version 7, with the inference of heads and tails, [ModelParserV6] ([v6_model_parser.cpp])
      version 6, which is converted to texts of version 7 first.
    - Engine: [Engine] and [EngineRun] ([lib/inference_engine.cpp]) load a parsed model, up to
      the graph and the output offsets a job runs on, and start jobs.
    - Monitor: [MonitorShm] ([lib/device_shm/]) is the sequence lock between the process that
      publishes the state of the devices, any thread of which may write, and its readers.

    They meet as the code does: [DxrtService] is built from [Scheduler], [MemoryService]
    (through the allocator interface at [Memory]), [DeviceTables] and the answers of
    [IpcPacket]; [DeviceTask] from [StopGate]; [IoSlice] from [TaskData] and the shared memory
    of [DeviceTables]; [Engine] builds its tasks with [TaskData], and [EngineRun] and
    [EngineOutputs] run [InferenceJob] on the engine that was loaded.

    ** What the theorems show

    - Refinement and equivalence: files of versions 7 and 8 against each other, the conversion
      of a version 6 file against loading it directly, the
      allocator against a list of blocks, calls over the wire against the handler, the
      conversions of a transposed layout against each other, the estimate of the memory of
      the buffers against the layout of the task.
    - Invariants of every reachable state: the tiling of device memory (its accounting needs
      that no address is freed twice), the table and queues of the scheduler, slices, load and gate of a device, ownership of host buffers.
    - Bounds: slices are disjoint and contain the data of a request, encoded tensors stay
      inside their region, the outputs of a model tile the buffer of the user.
    - Type: a model the engine's check accepts is well typed, and conversely; the tensors of
      a file that loads are well typed.
    - Safety in every interleaving: a process touches its own blocks only (as long as no model
      block is asked for with size 0, which the code lets alias another), a response reaches
      the call it answers, results of a batch are complete, a wait returns the outputs of its
      own run, a monitor reads one instant if the writer's calls do not overlap, a recovery in the service keeps to its protocol and
      finds the devices at rest, responses keep their order.
    - Termination and liveness: the dispatch loop, the receive side, the jobs of a graph
      (those on a graph with several heads that are started with all their inputs), the
      devices, the monitor's readers and a recovery come to an end; the workers of a CPU task
      complete every request.
    - Round trips: packets; and error behaviour, where the program does not do what it means
      to: the deadlocks of a recovery and of models with two NPU tasks, the lost
      notification of a batch, dangling inputs, second heads that never start, a monitor that
      reads torn data after a takeover or from two writing threads, products that wrap, PPU binaries
      that go to another task, a wait that returns another run's outputs, a worker that a failed
      run ends, a transfer that starts during a recovery, memory a release leaves behind.

    ** Conventions

    Integers are [Z], wrapped to their width ([u32], [u64], [i32], ...) where the code's type
    wraps.  Undefined behaviour, a failed [DXRT_ASSERT] and an exception that leaves a function
    are [None] or a constructor of the result.  Loops that are not structural take fuel computed from
    the state, and a theorem says it suffices; the dispatch loop is proved total.  A
    section under a mutex is one step, memory is sequentially consistent, and a thread that
    blocks is one whose step is not enabled; a component with threads is a function from
    actions to optional next states, its runs are lists of actions, and theorems quantify over
    them.  Log messages, dumps and profiling are left out; the builds without [USE_VNPU],
    [USE_IPP], [USE_NEON] and [USE_PROFILER] are modelled.

    What is not under [src/], or is a library it includes, is a parameter with what the code relies
    on as hypotheses: the kernel driver, sockets, memfd, ONNX Runtime, the JSON parser, the
    user's callbacks.

    ** Not modelled

    The request objects, the profiler and the event store, configuration, driver adapters and
    ioctl, the start of the devices, the virtual device layer, sessions of ONNX Runtime,
    firmware and version checks, vector-intrinsic kernels, sockets and pipes under the
    endpoints, the C and C++ interfaces, command line tools, bindings and vendored code: input
    and output, glue, or alternatives of a part that is modelled.

    ** Conventions of the library

    This file has the notation, tactics, machine integers and lemmas the components share.
    Definitions and theorems of a component are in files of its own; where a component is a
    parameter of another, the client is proved against a class ([AllocOps], [AllocLaws],
    [Policy], [PolicyLaws], [Transport]) which an instance discharges. *)

From Stdlib Require Import ZArith Lia.
From stdpp Require Export prelude list gmap sorting.

Declare Scope dxrt_scope.
Delimit Scope dxrt_scope with dxrt.
#[global] Open Scope Z_scope.

(** ** Hint databases and tactics *)

Create HintDb dxrt.
Create Rewrite HintDb dxrt_rw.

(** Case analysis on the boolean tests of the code, turned into facts. *)
Ltac bool_facts :=
  repeat match goal with
  | H : (_ && _)%bool = true |- _ => apply andb_true_iff in H; destruct H
  | H : (_ || _)%bool = false |- _ => apply orb_false_iff in H; destruct H
  | H : negb _ = true |- _ => apply negb_true_iff in H
  | H : negb _ = false |- _ => apply negb_false_iff in H
  | H : (_ =? _) = true |- _ => apply Z.eqb_eq in H
  | H : (_ =? _) = false |- _ => apply Z.eqb_neq in H
  | H : (_ <? _) = true |- _ => apply Z.ltb_lt in H
  | H : (_ <? _) = false |- _ => apply Z.ltb_ge in H
  | H : (_ <=? _) = true |- _ => apply Z.leb_le in H
  | H : (_ <=? _) = false |- _ => apply Z.leb_gt in H
  end.

(** Split every [if] and [match] of the goal and keep the equations. *)
Ltac split_goal :=
  repeat match goal with
  | |- context [if ?b then _ else _] => destruct b eqn:?
  | |- context [match ?x with _ => _ end] => destruct x eqn:?
  end.

Ltac split_hyp H :=
  repeat match type of H with
  | context [if ?b then _ else _] => destruct b eqn:?
  | context [match ?x with _ => _ end] => destruct x eqn:?
  end.

(** ** Machine integers

    An unsigned integer of width [w] is a [Z] in [0, 2^w); the arithmetic of
    the code is the arithmetic of [Z] followed by [uwrap].  A signed integer is
    a [Z] in [-2^(w-1), 2^(w-1)); conversions to it are [swrap]. *)

Definition uwrap (w z : Z) : Z := z mod 2 ^ w.
Definition swrap (w z : Z) : Z := (z + 2 ^ (w - 1)) mod 2 ^ w - 2 ^ (w - 1).

Abbreviation u8 := (uwrap 8).
Abbreviation u16 := (uwrap 16).
Abbreviation u32 := (uwrap 32).
Abbreviation u64 := (uwrap 64).
Abbreviation i32 := (swrap 32).
Abbreviation i64 := (swrap 64).

Definition UINT32_MAX : Z := 2 ^ 32 - 1.
Definition UINT64_MAX : Z := 2 ^ 64 - 1.
Definition INT32_MAX : Z := 2 ^ 31 - 1.
Definition INT32_MIN : Z := - 2 ^ 31.

Definition in_u32 (z : Z) : Prop := 0 <= z < 2 ^ 32.
Definition in_u64 (z : Z) : Prop := 0 <= z < 2 ^ 64.
Definition in_i32 (z : Z) : Prop := - 2 ^ 31 <= z < 2 ^ 31.

Definition i32_ok (z : Z) : bool := (INT32_MIN <=? z) && (z <=? INT32_MAX).

Lemma uwrap_range w z : 0 < w -> 0 <= uwrap w z < 2 ^ w.
Proof. intros. apply Z.mod_pos_bound. lia. Qed.

Lemma uwrap_small w z : 0 <= z < 2 ^ w -> uwrap w z = z.
Proof. intros. by apply Z.mod_small. Qed.

Lemma swrap_small w z : 0 < w -> - 2 ^ (w - 1) <= z < 2 ^ (w - 1) -> swrap w z = z.
Proof.
  intros Hw Hz. unfold swrap.
  assert (2 ^ w = 2 * 2 ^ (w - 1)) as E by (rewrite <- Z.pow_succ_r by lia; f_equal; lia).
  rewrite Z.mod_small by lia. lia.
Qed.

Lemma swrap_range w z : 0 < w -> - 2 ^ (w - 1) <= swrap w z < 2 ^ (w - 1).
Proof.
  intros Hw. unfold swrap.
  assert (2 ^ w = 2 * 2 ^ (w - 1)) as E by (rewrite <- Z.pow_succ_r by lia; f_equal; lia).
  pose proof (Z.mod_pos_bound (z + 2 ^ (w - 1)) (2 ^ w)). lia.
Qed.

Lemma uwrap_swrap w z : 0 < w -> uwrap w (swrap w z) = uwrap w z.
Proof.
  intros Hw. unfold uwrap, swrap.
  rewrite Zminus_mod_idemp_l. f_equal. lia.
Qed.

Lemma swrap_uwrap w z : 0 < w -> swrap w (uwrap w z) = swrap w z.
Proof. intros Hw. unfold uwrap, swrap. by rewrite Zplus_mod_idemp_l. Qed.

Lemma uwrap_uwrap w z : uwrap w (uwrap w z) = uwrap w z.
Proof. apply Zmod_mod. Qed.

#[export] Hint Rewrite uwrap_uwrap : dxrt_rw.

(** Rounding up to a power of two with the usual mask. *)
Lemma land_lnot_ones a k : 0 <= k -> Z.land a (Z.lnot (2 ^ k - 1)) = a / 2 ^ k * 2 ^ k.
Proof.
  intros Hk. rewrite <- Z.ldiff_land.
  replace (2 ^ k - 1) with (Z.ones k) by (rewrite Z.ones_equiv; lia).
  rewrite Z.ldiff_ones_r by lia. rewrite Z.shiftr_div_pow2, Z.shiftl_mul_pow2 by lia.
  reflexivity.
Qed.

(** ** Lists *)

Definition sum_Z (l : list Z) : Z := foldr Z.add 0 l.

Lemma sum_Z_app l1 l2 : sum_Z (l1 ++ l2) = sum_Z l1 + sum_Z l2.
Proof. induction l1 as [|x l1 IH]; simpl; [done|]. rewrite IH. lia. Qed.

Lemma sum_Z_nonneg l : Forall (fun x => 0 <= x) l -> 0 <= sum_Z l.
Proof. induction 1; simpl; lia. Qed.

#[export] Hint Rewrite sum_Z_app : dxrt_rw.

(** ** Ordered sets and maps of the C++ library

    [std::set<int>] is a [gset Z] and [std::map<int, V>] a [gmap Z V]; a loop
    over one visits the keys in ascending order. *)

Definition asc (s : gset Z) : list Z := merge_sort Z.le (elements s).
Definition keys {V} (m : gmap Z V) : list Z := asc (dom m).

Lemma asc_perm s : asc s ≡ₚ elements s.
Proof. apply merge_sort_Permutation. Qed.

Lemma elem_of_asc s x : x ∈ asc s <-> x ∈ s.
Proof. by rewrite asc_perm, elem_of_elements. Qed.

Lemma NoDup_asc s : NoDup (asc s).
Proof. rewrite asc_perm. apply NoDup_elements. Qed.

Lemma list_to_set_asc s : list_to_set (asc s) = s.
Proof. apply set_eq. intros x. by rewrite elem_of_list_to_set, elem_of_asc. Qed.

Lemma elem_of_keys {V} (m : gmap Z V) k : k ∈ keys m <-> is_Some (m !! k).
Proof. unfold keys. by rewrite elem_of_asc, elem_of_dom. Qed.

Lemma NoDup_keys {V} (m : gmap Z V) : NoDup (keys m).
Proof. apply NoDup_asc. Qed.

(** ** Guards *)

Lemma guard_Some (P : Prop) `{Decision P} {A} (x : option A) y :
  (guard P;; x) = Some y -> P /\ x = Some y.
Proof. by case_guard. Qed.

(** ** Counting the elements a test accepts *)

Definition countb {A} (f : A -> bool) (l : list A) : Z := Z.of_nat (length (filter (fun x => f x = true) l)).

Lemma countb_cons {A} (f : A -> bool) x l : countb f (x :: l) = Z.b2z (f x) + countb f l.
Proof. unfold countb. rewrite filter_cons. destruct (f x); simpl; [|done]. lia. Qed.

Lemma countb_nonneg {A} (f : A -> bool) l : 0 <= countb f l.
Proof. unfold countb. lia. Qed.

Lemma countb_app {A} (f : A -> bool) l l' : countb f (l ++ l') = countb f l + countb f l'.
Proof. unfold countb. rewrite filter_app, length_app. lia. Qed.

Lemma countb_insert {A} (f : A -> bool) l j x y :
  l !! j = Some x -> countb f (<[j := y]> l) = countb f l - Z.b2z (f x) + Z.b2z (f y).
Proof.
  revert j. induction l as [|z l IH]; intros [|j] E; simpl in *; try done.
  - injection E as ->. rewrite !countb_cons. lia.
  - rewrite !countb_cons, (IH _ E). lia.
Qed.

Lemma countb_pos {A} (f : A -> bool) l x : x ∈ l -> f x = true -> 0 < countb f l.
Proof.
  intros Hx Hf. unfold countb. assert (x ∈ filter (fun x => f x = true) l) as Hin by (by apply list_elem_of_filter).
  destruct (filter _ l); [by apply not_elem_of_nil in Hin|simpl; lia].
Qed.

Lemma countb_zero {A} (f : A -> bool) l : (forall x, x ∈ l -> f x = false) -> countb f l = 0.
Proof.
  induction l as [|x l IH]; intros Hf; [done|]. rewrite countb_cons, (Hf x) by left.
  rewrite IH; [done|]. intros y Hy. apply Hf. by right.
Qed.

Lemma countb_replicate {A} (f : A -> bool) n x : countb f (replicate n x) = Z.of_nat n * Z.b2z (f x).
Proof. induction n as [|n IH]; [done|]. simpl. rewrite countb_cons, IH. destruct (f x); simpl; lia. Qed.
