(* ===== verification/OrdMap.v ===== *)
(** * Ordered maps with integer keys

    [std::map<K, V>] with an integer key, as the sorted list of its entries in
    iteration order.  An iterator is the key of the entry it designates:
    [om_next] and [om_prev] are [std::next] and [std::prev] on it, [om_begin]
    is [begin()].  The lemmas are stated on a map split at a key,
    [l1 ++ (k, v) :: l2] with [om_split k l1 l2], which is how the clients
    reason about the neighbours of an iterator. *)

From S2P Require Import Prelude.
From Stdlib Require Import ZArith Lia.

Abbreviation omap V := (list (Z * V)).

Section operations.
Context {V : Type}.
Implicit Types (m : omap V) (k : Z) (v : V).

Fixpoint om_find k m : option V :=
  match m with
  | [] => None
  | (k', v) :: r => if k =? k' then Some v else om_find k r
  end.

(** [m[k] = v] *)
Fixpoint om_insert k v m : omap V :=
  match m with
  | [] => [(k, v)]
  | (k', v') :: r =>
      if k <? k' then (k, v) :: (k', v') :: r
      else if k =? k' then (k, v) :: r
      else (k', v') :: om_insert k v r
  end.

(** [m.erase(k)] *)
Fixpoint om_erase k m : omap V :=
  match m with
  | [] => []
  | (k', v') :: r => if k =? k' then r else (k', v') :: om_erase k r
  end.

Definition om_begin m : option (Z * V) := head m.

Fixpoint om_next k m : option (Z * V) :=
  match m with
  | [] => None
  | (k', v') :: r => if k <? k' then Some (k', v') else om_next k r
  end.

Fixpoint om_prev k m : option (Z * V) :=
  match m with
  | [] => None
  | (k', v') :: r =>
      if k' <? k then
        match om_prev k r with
        | Some e => Some e
        | None => Some (k', v')
        end
      else None
  end.

Definition om_sorted m : Prop := StronglySorted Z.lt m.*1.

Definition om_split k (l1 l2 : omap V) : Prop :=
  Forall (fun e => e.1 < k) l1 /\ Forall (fun e => k < e.1) l2.
End operations.

Section laws.
Context {V : Type}.
Implicit Types (m l : omap V) (k : Z) (v : V).

Lemma om_sorted_cons k v m :
  om_sorted ((k, v) :: m) <-> Forall (fun e => k < e.1) m /\ om_sorted m.
Proof.
  unfold om_sorted. rewrite fmap_cons. simpl. split.
  - intros H. apply StronglySorted_inv in H as [H1 H2].
    split; [|exact H1]. by apply (Forall_fmap (fst : Z * V -> Z)) in H2.
  - intros [H1 H2]. constructor; [exact H2|]. by apply (Forall_fmap (fst : Z * V -> Z)).
Qed.

Lemma om_sorted_app k v l1 l2 :
  om_sorted (l1 ++ (k, v) :: l2) <->
  om_sorted l1 /\ om_sorted l2 /\ om_split k l1 l2.
Proof.
  unfold om_split. induction l1 as [|[k1 v1] l1 IH]; simpl.
  - rewrite om_sorted_cons. split.
    + intros [? ?]. repeat split; auto. constructor.
    + intros (_ & ? & _ & ?). done.
  - rewrite !om_sorted_cons, IH, Forall_app, !Forall_cons. simpl. split.
    + intros ((Ha & Hk & Hb) & Hc & Hd & He & Hf). repeat split; auto.
    + intros ((Ha & Hc) & Hd & (He & Hf) & Hg). repeat split; auto.
      eapply Forall_impl; [exact Hg|]. simpl. intros. lia.
Qed.

Lemma om_sorted_split k v l1 l2 : om_sorted (l1 ++ (k, v) :: l2) -> om_split k l1 l2.
Proof. rewrite om_sorted_app. tauto. Qed.

Lemma om_find_split k v l1 l2 :
  om_split k l1 l2 -> om_find k (l1 ++ (k, v) :: l2) = Some v.
Proof.
  intros [H1 _]. induction H1 as [|[k' v'] l1 H _ IH]; simpl in *.
  - by rewrite Z.eqb_refl.
  - destruct (Z.eqb_spec k k'); [lia|done].
Qed.

Lemma om_find_inv k v m :
  om_find k m = Some v -> exists l1 l2, m = l1 ++ (k, v) :: l2.
Proof.
  induction m as [|[k' v'] m IH]; simpl; [done|].
  destruct (Z.eqb_spec k k') as [->|].
  - intros [= ->]. by exists [], m.
  - intros (l1 & l2 & ->)%IH. by exists ((k', v') :: l1), l2.
Qed.

Lemma om_find_None k v m : om_find k m = None -> (k, v) ∉ m.
Proof.
  induction m as [|[k' v'] m IH]; simpl; intros H Hin; [by apply elem_of_nil in Hin|].
  destruct (Z.eqb_spec k k'); [done|].
  apply elem_of_cons in Hin as [[= -> ->]|Hin]; [done|by apply IH].
Qed.

Lemma elem_of_om_insert k v m x :
  x = (k, v) \/ (x ∈ m /\ x.1 <> k) -> x ∈ om_insert k v m.
Proof.
  induction m as [|[k' v'] m IH]; simpl.
  - intros [->|[Hx _]]; [by apply list_elem_of_here|by apply elem_of_nil in Hx].
  - rewrite elem_of_cons. destruct (k <? k'); [|destruct (Z.eqb_spec k k') as [->|]];
      rewrite !elem_of_cons; [tauto| |tauto].
    intros [?|[[->|?] Hne]]; [tauto|done|tauto].
Qed.

Lemma om_erase_insert k v m :
  om_find k m = None -> om_erase k (om_insert k v m) = m.
Proof.
  induction m as [|[k' v'] m IH]; simpl; [by rewrite Z.eqb_refl|].
  destruct (Z.eqb_spec k k') as [->|]; [done|]. intros Hn.
  destruct (k <? k'); simpl.
  - by rewrite Z.eqb_refl.
  - rewrite (proj2 (Z.eqb_neq k k')) by done. by rewrite IH.
Qed.

Lemma om_find_inv_sorted k v m :
  om_sorted m -> om_find k m = Some v ->
  exists l1 l2, m = l1 ++ (k, v) :: l2 /\ om_split k l1 l2.
Proof.
  intros Hs (l1 & l2 & ->)%om_find_inv. exists l1, l2.
  split; [done|]. by eapply om_sorted_split.
Qed.

Lemma om_insert_split k v v' l1 l2 :
  om_split k l1 l2 -> om_insert k v' (l1 ++ (k, v) :: l2) = l1 ++ (k, v') :: l2.
Proof.
  intros [H1 _]. induction H1 as [|[k' w] l1 H _ IH]; simpl in *.
  - by rewrite Z.ltb_irrefl, Z.eqb_refl.
  - destruct (Z.ltb_spec k k'); [lia|]. destruct (Z.eqb_spec k k'); [lia|]. by rewrite IH.
Qed.

Lemma om_insert_fresh k v l1 l2 :
  om_split k l1 l2 -> om_insert k v (l1 ++ l2) = l1 ++ (k, v) :: l2.
Proof.
  intros [H1 H2]. induction H1 as [|[k' w] l1 H _ IH]; simpl in *.
  - destruct l2 as [|[k2 v2] l2]; [done|]. simpl.
    apply Forall_cons in H2 as [H2 _]. simpl in H2. by rewrite (proj2 (Z.ltb_lt k k2)).
  - destruct (Z.ltb_spec k k'); [lia|]. destruct (Z.eqb_spec k k'); [lia|]. by rewrite IH.
Qed.

Lemma om_insert_after k v k' v' l1 l2 :
  om_split k l1 l2 -> k < k' -> Forall (fun e => k' < e.1) l2 ->
  om_insert k' v' (l1 ++ (k, v) :: l2) = l1 ++ (k, v) :: (k', v') :: l2.
Proof.
  intros [H1 H2] Hk H. rewrite (cons_middle (k, v)), app_assoc.
  rewrite om_insert_fresh; [by rewrite <- app_assoc|]. split; [|done].
  apply Forall_app. split; [|by constructor].
  eapply Forall_impl; [exact H1|]. simpl. intros. lia.
Qed.

Lemma om_erase_split k v l1 l2 :
  om_split k l1 l2 -> om_erase k (l1 ++ (k, v) :: l2) = l1 ++ l2.
Proof.
  intros [H1 _]. induction H1 as [|[k' w] l1 H _ IH]; simpl in *.
  - by rewrite Z.eqb_refl.
  - destruct (Z.eqb_spec k k'); [lia|]. by rewrite IH.
Qed.

Lemma om_next_split k v l1 l2 :
  om_split k l1 l2 -> om_next k (l1 ++ (k, v) :: l2) = head l2.
Proof.
  intros [H1 H2]. induction H1 as [|[k' w] l1 H _ IH]; simpl in *.
  - rewrite Z.ltb_irrefl. destruct l2 as [|[k2 v2] l2]; [done|]. simpl.
    apply Forall_cons in H2 as [H2 _]. simpl in H2. by rewrite (proj2 (Z.ltb_lt k k2)).
  - destruct (Z.ltb_spec k k'); [lia|done].
Qed.

Lemma om_prev_split k v l1 l2 :
  om_split k l1 l2 -> om_prev k (l1 ++ (k, v) :: l2) = last l1.
Proof.
  intros [H1 H2]. induction H1 as [|[k' w] l1 H _ IH]; simpl in *.
  - by rewrite Z.ltb_irrefl.
  - rewrite (proj2 (Z.ltb_lt k' k)) by done. rewrite IH.
    destruct l1 as [|e l1]; [done|]. simpl.
    destruct (last_is_Some (e :: l1)) as [_ Hl].
    destruct (Hl ltac:(done)) as [x Hx]. simpl in Hx. by rewrite Hx.
Qed.
End laws.

#[export] Hint Resolve om_sorted_split : dxrt.
