(* ===== verification/Memory.v ===== *)
(** * Device memory allocator: definitions

    [lib/memory.cpp], class [Memory]: the best-fit allocator of one device's
    memory.  The pool is an ordered map from offset to [MemoryNode]; every
    public operation is a function from the state of the object to its result
    and its next state.  Offsets and sizes are 64-bit unsigned.  [std::mutex]
    protects every operation, so operations are atomic steps here. *)

From Stdlib Require Import ZArith Lia Floats.SpecFloat.
From S2P Require Import Prelude OrdMap.

Module Memory.

(** [MemoryConfig] *)
Definition MEMORY_ALIGNMENT : Z := 4096.
Definition LARGE_ALLOCATION_THRESHOLD : Z := 100 * 1024 * 1024.

(** Doubles are IEEE 754 binary64 numbers; [static_cast<double>(u64)] rounds
    to nearest even. *)
Definition double_of_u64 (z : Z) : spec_float := binary_normalize 53 1024 z 0 false.
Definition double_div : spec_float -> spec_float -> spec_float := SFdiv 53 1024.
Definition MEDIUM_FRAGMENTATION_THRESHOLD : spec_float :=
  double_div (double_of_u64 1) (double_of_u64 2).
Definition LOW_FRAGMENTATION_THRESHOLD : spec_float :=
  double_div (double_of_u64 3) (double_of_u64 10).
Definition double_zero : spec_float := S754_zero false.

(** [status]: 0 available, 1 busy, 2 permanent *)
Record MemoryNode := mkNode { addr : Z; size : Z; status : Z }.

Record MemoryFragmentationInfo := mkFrag {
  total_free_size : Z;
  largest_free_block : Z;
  smallest_free_block : Z;
  free_block_count : Z;
  fragmentation_ratio : spec_float
}.

Abbreviation pool_t := (omap MemoryNode).

Record memory := mkMemory {
  pool : pool_t;
  start : Z;
  cur : Z;
  end_ : Z;
  size_ : Z;
  data : Z;
  dataEnd : Z;
  used : Z
}.

Definition set_pool (m : memory) (p : pool_t) : memory :=
  mkMemory p (start m) (cur m) (end_ m) (size_ m) (data m) (dataEnd m) (used m).

Definition set_pool_used (m : memory) (p : pool_t) (u : Z) : memory :=
  mkMemory p (start m) (cur m) (end_ m) (size_ m) (data m) (dataEnd m) u.

(** The constructor [Memory(dxrt_device_info_t &info, void *data_)]. *)
Definition new_memory (mem_addr mem_size data_ : Z) : memory :=
  mkMemory (om_insert 0 (mkNode 0 mem_size 0) [])
    mem_addr mem_addr (u64 (mem_addr + mem_size)) mem_size
    data_ (u64 (data_ + mem_size)) 0.

Definition AlignSize (sz : Z) : Z :=
  Z.land (u64 (u64 (sz + MEMORY_ALIGNMENT) - 1)) (u64 (Z.lnot (MEMORY_ALIGNMENT - 1))).

Definition is_free (n : MemoryNode) : bool := status n =? 0.

(** One iteration of the best-fit scan over the pool. *)
Definition best_fit_step (required : Z)
    (acc : option (Z * MemoryNode) * Z) (e : Z * MemoryNode)
    : option (Z * MemoryNode) * Z :=
  if is_free e.2 && (required <=? size e.2) && (size e.2 <? acc.2)
  then (Some e, size e.2) else acc.

Definition FindBestFit (required : Z) (p : pool_t) : option (Z * MemoryNode) :=
  (foldl (best_fit_step required) (None, UINT64_MAX) p).1.

Definition frag_step (i : MemoryFragmentationInfo) (e : Z * MemoryNode)
    : MemoryFragmentationInfo :=
  if is_free e.2 then
    mkFrag (u64 (total_free_size i + size e.2))
      (if largest_free_block i <? size e.2 then size e.2 else largest_free_block i)
      (if size e.2 <? smallest_free_block i then size e.2 else smallest_free_block i)
      (free_block_count i + 1)
      (fragmentation_ratio i)
  else i.

Definition GetFragmentationInfoNoLock (p : pool_t) : MemoryFragmentationInfo :=
  let info := foldl frag_step (mkFrag 0 0 UINT64_MAX 0 double_zero) p in
  if free_block_count info =? 0 then
    mkFrag (total_free_size info) (largest_free_block info) 0 (free_block_count info)
      double_zero
  else if 0 <? total_free_size info then
    mkFrag (total_free_size info) (largest_free_block info) (smallest_free_block info)
      (free_block_count info)
      (double_div (double_of_u64 (u64 (total_free_size info - largest_free_block info)))
                  (double_of_u64 (total_free_size info)))
  else
    mkFrag (total_free_size info) (largest_free_block info) (smallest_free_block info)
      (free_block_count info) double_zero.

Definition CanAllocateContiguous (required : Z) (m : memory) : bool :=
  existsb (fun e : Z * MemoryNode => is_free e.2 && (required <=? size e.2)) (pool m).

Definition GetLargestFreeBlock (p : pool_t) : Z :=
  foldl (fun largest (e : Z * MemoryNode) =>
           if is_free e.2 && (largest <? size e.2) then size e.2 else largest) 0 p.

(** The scan of [MergeAllAdjacentFreeBlocks]: the first entry that is free and
    whose successor is free and physically adjacent. *)
Fixpoint find_adjacent (p : pool_t) : option (Z * Z * Z) :=
  match p with
  | (k, n) :: r =>
      match r with
      | (k2, n2) :: _ =>
          if is_free n && is_free n2 && (u64 (k + size n) =? k2)
          then Some (k, k2, u64 (size n + size n2))
          else find_adjacent r
      | [] => None
      end
  | [] => None
  end.

(** The [while (merged)] loop; [None] when the fuel runs out. *)
Fixpoint merge_all_loop (fuel : nat) (p : pool_t) : option pool_t :=
  match fuel with
  | O => None
  | S f =>
      match find_adjacent p with
      | None => Some p
      | Some (a, nk, new_size) =>
          merge_all_loop f
            (om_insert a (mkNode a new_size 0) (om_erase nk (om_erase a p)))
      end
  end.

Definition MergeAllAdjacentFreeBlocks (p : pool_t) : option pool_t :=
  merge_all_loop (S (length p)) p.

Definition TryDefragmentation (required_size : Z) (p : pool_t) : option (bool * pool_t) :=
  p' ← MergeAllAdjacentFreeBlocks p;
  mret (required_size <=? GetLargestFreeBlock p', p').

Definition CompactMemory (m : memory) : option memory :=
  p' ← MergeAllAdjacentFreeBlocks (pool m);
  mret (set_pool m p').

(** The tail of [Allocate] once a block is chosen. *)
Definition allocate_at (required : Z) (m : memory) (n : MemoryNode) : Z * memory :=
  let a := addr n in
  let p1 :=
    if required <? size n then
      om_insert (u64 (a + required))
        (mkNode (u64 (a + required)) (u64 (size n - required)) 0) (pool m)
    else pool m in
  (i64 a, set_pool_used m (om_insert a (mkNode a required 1) p1) (u64 (used m + required))).

Definition Allocate (required0 : Z) (m : memory) : option (Z * memory) :=
  let required1 := if required0 =? 0 then 64 else required0 in
  let required := AlignSize required1 in
  match FindBestFit required (pool m) with
  | Some e => mret (allocate_at required m e.2)
  | None =>
      if (LARGE_ALLOCATION_THRESHOLD <=? required)
         && SFltb MEDIUM_FRAGMENTATION_THRESHOLD
              (fragmentation_ratio (GetFragmentationInfoNoLock (pool m)))
      then
        '(ok, p') ← TryDefragmentation required (pool m);
        let m' := set_pool m p' in
        match (if ok : bool then FindBestFit required p' else None) with
        | Some e => mret (allocate_at required m' e.2)
        | None => mret (-1, m')
        end
      else mret (-1, m)
  end.

(** The tail of [BackwardAllocate]: the block is carved from the high end. *)
Definition backward_at (required : Z) (m : memory) (n : MemoryNode) : Z * memory :=
  let a := addr n in
  let '(a', p1) :=
    if required <? size n then
      let remain := u64 (size n - required) in
      (u64 (a + remain), om_insert a (mkNode a remain 0) (pool m))
    else (a, pool m) in
  (i64 a', set_pool_used m (om_insert a' (mkNode a' required 1) p1) (u64 (used m + required))).

Definition BackwardAllocate (required0 : Z) (m : memory) : option (Z * memory) :=
  let required := AlignSize required0 in
  let acc := foldl (best_fit_step required) (None, UINT64_MAX) (reverse (pool m)) in
  match acc.1 with
  | Some e => mret (backward_at required m e.2)
  | None =>
      if (LARGE_ALLOCATION_THRESHOLD <=? required)
         && SFltb MEDIUM_FRAGMENTATION_THRESHOLD
              (fragmentation_ratio (GetFragmentationInfoNoLock (pool m)))
      then
        '(ok, p') ← TryDefragmentation required (pool m);
        let m' := set_pool m p' in
        match (if ok : bool
               then (foldl (best_fit_step required) acc (reverse p')).1 else None) with
        | Some e => mret (backward_at required m' e.2)
        | None => mret (-1, m')
        end
      else mret (-1, m)
  end.

(** [MergeAdjacentNodes(it)], the iterator given by its key; [None] when the
    fuel runs out or the iterator is not in the pool. *)
Fixpoint MergeAdjacentNodes (fuel : nat) (k : Z) (p : pool_t) : option pool_t :=
  match fuel with
  | O => None
  | S f =>
      match om_find k p with
      | None => None
      | Some n =>
          let merge_next :=
            match om_next k p with
            | Some (nk, nn) =>
                if is_free nn then
                  MergeAdjacentNodes f k
                    (om_insert k (mkNode k (u64 (size n + size nn)) 0)
                       (om_erase nk (om_erase k p)))
                else Some p
            | None => Some p
            end in
          match om_prev k p with
          | Some (pk, pn) =>
              if is_free pn then
                MergeAdjacentNodes f pk
                  (om_insert pk (mkNode pk (u64 (size pn + size n)) 0)
                     (om_erase k (om_erase pk p)))
              else merge_next
          | None => merge_next
          end
      end
  end.

Definition Deallocate (a : Z) (m : memory) : option memory :=
  match om_find a (pool m) with
  | None => Some m
  | Some n =>
      let p := om_insert a (mkNode (addr n) (size n) 0) (pool m) in
      p' ← MergeAdjacentNodes (S (length p)) a p;
      mret (set_pool_used m p' (u64 (used m - size n)))
  end.

Definition ResetBuffer (m : memory) : memory :=
  mkMemory (pool m) (start m) (start m) (end_ m) (size_ m) (data m) (dataEnd m) (used m).

Definition free_size (m : memory) : Z := u64 (size_ m - used m).
Definition used_size (m : memory) : Z := used m.

(** [dxrt_meminfo_t] and [dxrt_request_t] *)
Record meminfo := mkMeminfo { mi_data : Z; mi_base : Z; mi_offset : Z; mi_size : Z }.
Record request := mkRequest { rq_input : meminfo; rq_output : meminfo }.

Definition Allocate_meminfo (mi : meminfo) (m : memory) : option (meminfo * memory) :=
  if mi_data mi =? 0 then
    '(r, m') ← Allocate (mi_size mi) m;
    let offset := u32 r in
    mret (mkMeminfo (u64 (data m + offset)) (start m) offset (mi_size mi), m')
  else if (mi_data mi <? data m) || (dataEnd m <? mi_data mi) then
    '(r, m') ← Allocate (mi_size mi) m;
    mret (mkMeminfo (mi_data mi) (if mi_base mi =? 0 then start m else mi_base mi)
            (u32 r) (mi_size mi), m')
  else
    mret (mkMeminfo (mi_data mi) (start m) (u32 (u64 (mi_data mi - data m))) (mi_size mi), m).

Definition Allocate_request (rq : request) (m : memory) : option (request * memory) :=
  '(i, m1) ← Allocate_meminfo (rq_input rq) m;
  '(o, m2) ← Allocate_meminfo (rq_output rq) m1;
  mret (mkRequest i o, m2).

Definition Deallocate_meminfo (mi : meminfo) (m : memory) : option memory :=
  if mi_base mi =? start m then Deallocate (mi_offset mi) m else Some m.

Definition Deallocate_request (rq : request) (m : memory) : option memory :=
  m1 ← Deallocate_meminfo (rq_input rq) m;
  Deallocate_meminfo (rq_output rq) m1.

End Memory.
