(* ===== verification/MemoryInv.v ===== *)
(** * Device memory allocator: the pool invariant and its lemmas

    A pool is well formed when its blocks tile the device memory, no two free
    blocks are adjacent and [used] is the total size of the blocks that are not
    free.  The lemmas describe the effect of each primitive of [Memory.v] on a
    pool split at the block it changes; [canonical] says that a well-formed
    pool is determined by its busy blocks, which is the abstraction the
    specification of the allocator is stated with. *)

From Stdlib Require Import ZArith Lia.
From S2P Require Import Prelude OrdMap Memory.
Import Memory.

Abbreviation entry := (Z * MemoryNode)%type.

(** The blocks of [p] cover [a, e) without gap or overlap. *)
Fixpoint tiles (a e : Z) (p : pool_t) : Prop :=
  match p with
  | [] => a = e
  | (k, n) :: r =>
      k = a /\ addr n = a /\ 0 < size n /\ 0 <= status n /\ tiles (a + size n) e r
  end.

Definition free_entry (e : entry) : Prop := status e.2 = 0.
#[export] Instance free_entry_dec e : Decision (free_entry e) := _.

Definition head_free (p : pool_t) : Prop := from_option free_entry False (head p).
Definition last_free (p : pool_t) : Prop := from_option free_entry False (last p).

(** No two neighbours are both free. *)
Fixpoint coalesced (p : pool_t) : Prop :=
  match p with
  | [] => True
  | e :: r => ~ (free_entry e /\ head_free r) /\ coalesced r
  end.

(** The abstract state: the blocks in use, in address order. *)
Definition busy (p : pool_t) : pool_t := filter (fun e => ~ free_entry e) p.
Definition total (p : pool_t) : Z := sum_Z (map (fun e : entry => size e.2) p).

Definition aligned (p : pool_t) : Prop :=
  Forall (fun e : entry => (MEMORY_ALIGNMENT | size e.2)) p.

Record wf (m : memory) : Prop := {
  wf_size : 0 < size_ m < 2 ^ 63;
  wf_tiles : tiles 0 (size_ m) (pool m);
  wf_coalesced : coalesced (pool m);
  wf_used : used m = total (busy (pool m));
  wf_aligned : aligned (pool m)
}.

Lemma is_free_spec n k : is_free n = true <-> free_entry (k, n).
Proof. unfold is_free, free_entry. simpl. apply Z.eqb_eq. Qed.

Lemma is_free_false n k : is_free n = false <-> ~ free_entry (k, n).
Proof. rewrite <- is_free_spec. destruct (is_free n); split; intros; congruence. Qed.

(** ** Tilings *)

Lemma tiles_le a e p : tiles a e p -> a <= e.
Proof.
  revert a. induction p as [|[k n] p IH]; simpl; intros a; [lia|].
  intros (_ & _ & ? & _ & ?%IH). lia.
Qed.

Lemma tiles_app a e p q :
  tiles a e (p ++ q) <-> exists b, tiles a b p /\ tiles b e q.
Proof.
  revert a. induction p as [|[k n] p IH]; simpl; intros a.
  - split; [by exists a|]. by intros (b & -> & ?).
  - rewrite IH. split.
    + intros (? & ? & ? & ? & b & ? & ?). exists b. tauto.
    + intros (b & (? & ? & ? & ? & ?) & ?). eauto 10.
Qed.

Lemma tiles_split a e l1 k n l2 :
  tiles a e (l1 ++ (k, n) :: l2) <->
  tiles a k l1 /\ addr n = k /\ 0 < size n /\ 0 <= status n /\ tiles (k + size n) e l2.
Proof.
  rewrite tiles_app. split.
  - intros (b & H1 & Hk & Ha & Hs & Ht & H2). subst k. tauto.
  - intros (H1 & Ha & Hs & Ht & H2). exists k. simpl. tauto.
Qed.

Lemma tiles_bounds a e p :
  tiles a e p -> Forall (fun x : entry => a <= x.1 /\ x.1 + size x.2 <= e /\ 0 < size x.2 /\ addr x.2 = x.1) p.
Proof.
  revert a. induction p as [|[k n] p IH]; simpl; intros a; [constructor|].
  intros (-> & ? & ? & _ & Ht). constructor.
  - simpl. apply tiles_le in Ht. lia.
  - apply IH in Ht. eapply Forall_impl; [exact Ht|]. simpl. intros. lia.
Qed.

Lemma tiles_om_split a e l1 k n l2 :
  tiles a e (l1 ++ (k, n) :: l2) -> om_split k l1 l2.
Proof.
  rewrite tiles_split. intros (H1 & Ha & Hs & _ & H2). split.
  - apply tiles_bounds in H1. eapply Forall_impl; [exact H1|]. simpl. intros. lia.
  - apply tiles_bounds in H2. eapply Forall_impl; [exact H2|]. simpl. intros. lia.
Qed.

Lemma tiles_sorted a e p : tiles a e p -> om_sorted p.
Proof.
  revert a. induction p as [|[k n] p IH]; intros a; [intros; constructor|].
  intros Ht. apply om_sorted_cons. split.
  - by apply (tiles_om_split a e [] k n p).
  - simpl in Ht. destruct Ht as (_ & _ & _ & _ & Ht). by eapply IH.
Qed.

Lemma tiles_find a e p k n :
  tiles a e p -> om_find k p = Some n ->
  exists l1 l2, p = l1 ++ (k, n) :: l2 /\ om_split k l1 l2.
Proof. intros Ht Hf. apply om_find_inv_sorted; [by eapply tiles_sorted|done]. Qed.

(** ** Busy blocks *)

Lemma busy_app p q : busy (p ++ q) = busy p ++ busy q.
Proof. apply filter_app. Qed.

Lemma busy_cons_free e p : free_entry e -> busy (e :: p) = busy p.
Proof. intros. unfold busy. rewrite filter_cons_False; [done|]. tauto. Qed.

Lemma busy_cons_busy e p : ~ free_entry e -> busy (e :: p) = e :: busy p.
Proof. intros. unfold busy. by rewrite filter_cons_True. Qed.

Lemma total_app p q : total (p ++ q) = total p + total q.
Proof. unfold total. by rewrite map_app, sum_Z_app. Qed.

Lemma total_cons e p : total (e :: p) = size e.2 + total p.
Proof. done. Qed.

Lemma tiles_total a e p : tiles a e p -> total p = e - a.
Proof.
  revert a. induction p as [|[k n] p IH]; simpl; intros a.
  - intros ->. unfold total. simpl. lia.
  - intros (_ & _ & _ & _ & ?%IH). rewrite total_cons. simpl. lia.
Qed.

Lemma busy_total_le a e p : tiles a e p -> 0 <= total (busy p) <= e - a.
Proof.
  revert a. induction p as [|[k n] p IH]; simpl; intros a.
  - intros ->. unfold total. simpl. lia.
  - intros (_ & _ & ? & _ & Ht%IH). destruct (decide (free_entry (k, n))).
    + rewrite busy_cons_free by done. lia.
    + rewrite busy_cons_busy, total_cons by done. simpl. lia.
Qed.

Lemma busy_bounds a e p :
  tiles a e p -> Forall (fun x : entry => a <= x.1) (busy p).
Proof.
  intros Ht%tiles_bounds. apply Forall_forall. intros x Hx.
  apply list_elem_of_filter in Hx as [_ Hx]. rewrite Forall_forall in Ht.
  by apply Ht in Hx as [? _].
Qed.

(** ** Coalescing *)

Lemma coalesced_app p q :
  coalesced (p ++ q) <-> coalesced p /\ coalesced q /\ ~ (last_free p /\ head_free q).
Proof.
  induction p as [|e p IH]; simpl.
  - unfold last_free. simpl. tauto.
  - rewrite IH. unfold last_free. destruct p as [|e' p]; simpl in *; [|tauto].
    unfold head_free, last_free. simpl. tauto.
Qed.

Lemma coalesced_replace_busy l1 e q l2 :
  coalesced (l1 ++ e :: l2) -> coalesced q ->
  (head_free q -> free_entry e) -> (last_free q -> free_entry e) -> q <> [] ->
  coalesced (l1 ++ q ++ l2).
Proof.
  rewrite !coalesced_app. simpl. unfold head_free at 1 2, last_free at 2. simpl.
  intros (H1 & (H2 & H3) & H4) Hq Hh Hl Hne.
  assert (head_free (q ++ l2) -> head_free q) as Hhd by (destruct q; done).
  repeat split; tauto.
Qed.

(** ** A coalesced tiling is determined by its busy blocks. *)

Lemma free_block_end a e k n r :
  tiles a e ((k, n) :: r) -> coalesced ((k, n) :: r) -> free_entry (k, n) ->
  from_option fst e (head (busy r)) = a + size n.
Proof.
  simpl. intros (-> & _ & _ & _ & Ht) [Hc _] Hf. destruct r as [|[k2 n2] r].
  - simpl in *. lia.
  - destruct (decide (free_entry (k2, n2))) as [|Hb]; [exfalso; apply Hc; by split|].
    rewrite busy_cons_busy by done. simpl in *. tauto.
Qed.

(** A free block and a busy block at the same address cannot start two pools
    with the same busy blocks. *)
Lemma busy_mixed a e k x y r s :
  tiles a e ((k, x) :: r) -> free_entry (k, x) -> ~ free_entry (k, y) ->
  busy ((k, x) :: r) <> busy ((k, y) :: s).
Proof.
  simpl. intros (-> & _ & Hx & _ & Tr) Hfx Hby.
  rewrite busy_cons_free, (busy_cons_busy _ s) by done. intros E.
  apply busy_bounds in Tr. rewrite E in Tr.
  apply Forall_cons in Tr as [B _]. simpl in B. lia.
Qed.

Lemma canonical a e p q :
  tiles a e p -> tiles a e q -> coalesced p -> coalesced q -> busy p = busy q -> p = q.
Proof.
  revert a q. induction p as [|[k n] p IH]; intros a [|[k' n'] q] Hp Hq Cp Cq Hb.
  - done.
  - simpl in *. destruct Hq as (_ & _ & ? & _ & ?%tiles_le). lia.
  - simpl in *. destruct Hp as (_ & _ & ? & _ & ?%tiles_le). lia.
  - assert (k = a) as -> by (by destruct Hp). assert (k' = a) as -> by (by destruct Hq).
    destruct (decide (free_entry (a, n))) as [F|F], (decide (free_entry (a, n'))) as [F'|F'].
    + assert (size n = size n') as Es.
      { pose proof (free_block_end _ _ _ _ _ Hp Cp F) as Ep.
        pose proof (free_block_end _ _ _ _ _ Hq Cq F') as Eq.
        rewrite (busy_cons_free (a, n)), (busy_cons_free (a, n')) in Hb by done. rewrite Hb in Ep. lia. }
      rewrite (busy_cons_free (a, n)), (busy_cons_free (a, n')) in Hb by done.
      destruct Hp as (_ & Ha & _ & _ & Tp), Hq as (_ & Ha' & _ & _ & Tq).
      assert (n = n') as <-.
      { destruct n, n'. unfold free_entry in *. simpl in *. congruence. }
      f_equal. eapply IH; [exact Tp|exact Tq|apply Cp|apply Cq|done].
    + exfalso. exact (busy_mixed a e a n n' p q Hp F F' Hb).
    + exfalso. exact (busy_mixed a e a n' n q p Hq F' F (eq_sym Hb)).
    + rewrite (busy_cons_busy (a, n)), (busy_cons_busy (a, n')) in Hb by done. injection Hb as -> Hb. f_equal.
      destruct Hp as (_ & _ & _ & _ & Tp), Hq as (_ & _ & _ & _ & Tq).
      eapply IH; [exact Tp|exact Tq|apply Cp|apply Cq|done].
Qed.
