(* ===== verification/MemoryOps.v ===== *)
(** * Device memory allocator: lemmas on the operations

    Each loop of [Memory.v] is characterised on a tiled pool: the two merge
    routines terminate and leave a coalesced tiling with the same busy blocks,
    the best-fit scan returns a free block of minimal sufficient size, and the
    two carving routines add exactly one busy block. *)

From Stdlib Require Import ZArith Lia.
From S2P Require Import Prelude OrdMap Memory MemoryInv.
Import Memory.

(** What a merge routine establishes: a coalesced tiling of [a, e) whose busy
    blocks are [b]. *)
Definition settled (a e : Z) (b p : pool_t) : Prop :=
  tiles a e p /\ coalesced p /\ busy p = b /\ aligned p.

Lemma aligned_app p q : aligned (p ++ q) <-> aligned p /\ aligned q.
Proof. apply Forall_app. Qed.

Lemma aligned_cons e p : aligned (e :: p) <-> (MEMORY_ALIGNMENT | size e.2) /\ aligned p.
Proof. unfold aligned. by rewrite Forall_cons. Qed.

(** Two neighbouring free blocks replaced by one. *)
Lemma tiles_join a e l1 k n k2 n2 l2 :
  0 <= a -> e < 2 ^ 64 ->
  tiles a e (l1 ++ (k, n) :: (k2, n2) :: l2) ->
  u64 (size n + size n2) = size n + size n2 /\
  tiles a e (l1 ++ (k, mkNode k (u64 (size n + size n2)) 0) :: l2).
Proof.
  intros Ha He Ht. apply tiles_split in Ht as (H1 & Hk & Hs & _ & H2).
  simpl in H2. destruct H2 as (-> & Hk2 & Hs2 & _ & H2).
  pose proof (tiles_le _ _ _ H1). pose proof (tiles_le _ _ _ H2).
  assert (u64 (size n + size n2) = size n + size n2) as E by (apply uwrap_small; lia).
  split; [done|]. apply tiles_split. simpl. rewrite E.
  replace (k + (size n + size n2)) with (k + size n + size n2) by lia.
  repeat split; (done || lia).
Qed.

Lemma aligned_join l1 k n k2 n2 l2 s :
  s = size n + size n2 ->
  aligned (l1 ++ (k, n) :: (k2, n2) :: l2) ->
  aligned (l1 ++ (k, mkNode k s 0) :: l2).
Proof.
  intros ->. rewrite !aligned_app, !aligned_cons. simpl.
  intros (? & ? & ? & ?). repeat split; try done. by apply Z.divide_add_r.
Qed.

(** The pool update both merge routines perform: erase two neighbours, insert
    the merged block under the first key. *)
Lemma om_join_split a e l1 k n k2 n2 l2 s :
  tiles a e (l1 ++ (k, n) :: (k2, n2) :: l2) ->
  om_insert k (mkNode k s 0)
    (om_erase k2 (om_erase k (l1 ++ (k, n) :: (k2, n2) :: l2)))
  = l1 ++ (k, mkNode k s 0) :: l2
  /\ om_insert k (mkNode k s 0)
    (om_erase k (om_erase k2 (l1 ++ (k, n) :: (k2, n2) :: l2)))
  = l1 ++ (k, mkNode k s 0) :: l2.
Proof.
  intros Ht. pose proof (tiles_om_split _ _ _ _ _ _ Ht) as [S1 S1'].
  assert (tiles a e ((l1 ++ [(k, n)]) ++ (k2, n2) :: l2)) as Ht2 by (by rewrite <- app_assoc).
  pose proof (tiles_om_split _ _ _ _ _ _ Ht2) as [S2 S2'].
  apply Forall_app in S2 as [S2a S2b]. apply Forall_cons in S1' as [S3 S3'].
  split.
  - rewrite om_erase_split by (split; [done|by constructor]).
    rewrite om_erase_split by done. by apply om_insert_fresh.
  - replace (l1 ++ (k, n) :: (k2, n2) :: l2) with ((l1 ++ [(k, n)]) ++ (k2, n2) :: l2)
      by (by rewrite <- app_assoc).
    rewrite om_erase_split by (split; [by apply Forall_app|done]).
    rewrite <- app_assoc. simpl. rewrite om_erase_split by done. by apply om_insert_fresh.
Qed.

Lemma coalesced_app_free l1 e l2 :
  free_entry e -> coalesced l1 -> coalesced l2 ->
  ~ last_free l1 -> ~ head_free l2 -> coalesced (l1 ++ e :: l2).
Proof.
  intros. apply coalesced_app. simpl. unfold head_free at 2. simpl. tauto.
Qed.

Lemma coalesced_app_l p q : coalesced (p ++ q) -> coalesced p.
Proof. rewrite coalesced_app. tauto. Qed.

Lemma coalesced_app_r p q : coalesced (p ++ q) -> coalesced q.
Proof. rewrite coalesced_app. tauto. Qed.

Lemma last_snoc_free l e : last_free (l ++ [e]) <-> free_entry e.
Proof. unfold last_free. by rewrite last_snoc. Qed.

#[export] Hint Resolve coalesced_app_l coalesced_app_r : dxrt.

(** [MergeAdjacentNodes] on a freed block terminates with one unit of fuel per
    remaining block and settles the pool. *)
Lemma MergeAdjacentNodes_spec fuel a e l1 k n l2 :
  (length l1 + length l2 < fuel)%nat -> 0 <= a -> e < 2 ^ 64 ->
  tiles a e (l1 ++ (k, n) :: l2) -> free_entry (k, n) ->
  coalesced l1 -> coalesced l2 -> aligned (l1 ++ (k, n) :: l2) ->
  exists p', MergeAdjacentNodes fuel k (l1 ++ (k, n) :: l2) = Some p' /\
             settled a e (busy l1 ++ busy l2) p'.
Proof.
  revert l1 k n l2. induction fuel as [|f IH]; intros l1 k n l2 Hlen Ha He Ht Hf C1 C2 Hal; [lia|].
  pose proof (tiles_om_split _ _ _ _ _ _ Ht) as Hsp.
  assert (~ last_free l1 -> exists p',
    match om_next k (l1 ++ (k, n) :: l2) with
    | Some (nk, nn) =>
        if is_free nn then
          MergeAdjacentNodes f k
            (om_insert k (mkNode k (u64 (size n + size nn)) 0)
               (om_erase nk (om_erase k (l1 ++ (k, n) :: l2))))
        else Some (l1 ++ (k, n) :: l2)
    | None => Some (l1 ++ (k, n) :: l2)
    end = Some p' /\ settled a e (busy l1 ++ busy l2) p') as Hnext.
  { intros Hl. rewrite om_next_split by done.
    destruct l2 as [|[nk nn] l2]; simpl.
    - exists (l1 ++ [(k, n)]). split; [done|]. split; [done|]. split.
      + apply coalesced_app_free; try done. by intros [].
      + split; [|done]. rewrite busy_app, busy_cons_free by done. done.
    - destruct (is_free nn) eqn:Fn.
      + apply (is_free_spec nn nk) in Fn.
        destruct (tiles_join _ _ _ _ _ _ _ _ Ha He Ht) as [Es Ht'].
        destruct (om_join_split _ _ _ _ _ _ _ _ (u64 (size n + size nn)) Ht) as [-> _].
        destruct (IH l1 k (mkNode k (u64 (size n + size nn)) 0) l2) as (p' & Hp & HS);
          try done; [simpl in Hlen; lia|apply C2|by eapply aligned_join|].
        exists p'. split; [done|]. by rewrite (busy_cons_free (nk, nn)).
      + apply (is_free_false nn nk) in Fn.
        exists (l1 ++ (k, n) :: (nk, nn) :: l2). split; [done|]. split; [done|]. split.
        * by apply coalesced_app_free.
        * split; [|done]. by rewrite busy_app, (busy_cons_free (k, n)). }
  simpl. rewrite om_find_split, om_prev_split by done.
  destruct l1 as [|[pk pn] l1 _] using rev_ind; simpl.
  { apply Hnext. by intros []. }
  rewrite last_snoc. destruct (is_free pn) eqn:Fp.
  - apply (is_free_spec pn pk) in Fp. rewrite <- app_assoc in Ht, Hal |- *. simpl in *.
    destruct (tiles_join _ _ _ _ _ _ _ _ Ha He Ht) as [Es Ht'].
    destruct (om_join_split _ _ _ _ _ _ _ _ (u64 (size pn + size n)) Ht) as [-> _].
    destruct (IH l1 pk (mkNode pk (u64 (size pn + size n)) 0) l2) as (p' & Hp & HS);
      try done; [rewrite length_app in Hlen; simpl in Hlen; lia|by eapply coalesced_app_l
                |by eapply aligned_join|].
    exists p'. split; [done|]. by rewrite busy_app, (busy_cons_free (pk, pn)), app_nil_r.
  - apply (is_free_false pn pk) in Fp. apply Hnext. by rewrite last_snoc_free.
Qed.

(** ** [MergeAllAdjacentFreeBlocks] *)

Lemma find_adjacent_Some p a nk s :
  find_adjacent p = Some (a, nk, s) ->
  exists l1 n n2 l2, p = l1 ++ (a, n) :: (nk, n2) :: l2 /\
    free_entry (a, n) /\ free_entry (nk, n2) /\ s = u64 (size n + size n2).
Proof.
  induction p as [|[k n] p IH]; [done|]. simpl.
  destruct p as [|[k2 n2] p]; [done|].
  destruct (is_free n && is_free n2 && (u64 (k + size n) =? k2)) eqn:E.
  - intros [= <- <- <-]. bool_facts. exists [], n, n2, p.
    split; [done|]. rewrite <- !is_free_spec. done.
  - intros (l1 & n1' & n2' & l2 & Hp & H)%IH. rewrite Hp.
    by exists ((k, n) :: l1), n1', n2', l2.
Qed.

Lemma find_adjacent_None a e p :
  0 <= a -> e < 2 ^ 64 -> tiles a e p -> find_adjacent p = None <-> coalesced p.
Proof.
  intros Ha He. revert a Ha. induction p as [|[k n] p IH]; intros a Ha Ht; [done|].
  pose proof Ht as (-> & Hk & Hs & _ & Ht'). specialize (IH (a + size n) ltac:(lia) Ht').
  destruct p as [|[k2 n2] p]; [simpl; tauto|].
  cbn [find_adjacent coalesced]. cbn [coalesced find_adjacent] in IH. cbn in Ht'.
  destruct Ht' as (-> & _ & Hs2 & _ & Ht'%tiles_le).
  rewrite uwrap_small, Z.eqb_refl, andb_true_r by lia.
  destruct (is_free n && is_free n2) eqn:E.
  - apply andb_true_iff in E as [E1%(is_free_spec n a) E2%(is_free_spec n2 (a + size n))].
    split; [done|]. intros [[] _]. by split.
  - rewrite IH. split; [|tauto]. intros H. split; [|done]. intros [F1 F2].
    apply is_free_spec in F1, F2. by rewrite F1, F2 in E.
Qed.

Lemma merge_all_loop_spec fuel a e p :
  (length p < fuel)%nat -> 0 <= a -> e < 2 ^ 64 -> tiles a e p -> aligned p ->
  exists p', merge_all_loop fuel p = Some p' /\ settled a e (busy p) p'.
Proof.
  revert p. induction fuel as [|f IH]; intros p Hlen Ha He Ht Hal; [lia|].
  simpl. destruct (find_adjacent p) as [[[a0 nk] s]|] eqn:E.
  - apply find_adjacent_Some in E as (l1 & n & n2 & l2 & -> & F1 & F2 & ->).
    destruct (tiles_join _ _ _ _ _ _ _ _ Ha He Ht) as [Es Ht'].
    destruct (om_join_split _ _ _ _ _ _ _ _ (u64 (size n + size n2)) Ht) as [-> _].
    destruct (IH (l1 ++ (a0, mkNode a0 (u64 (size n + size n2)) 0) :: l2)) as (p' & -> & HS);
      try done; [rewrite length_app in Hlen |- *; simpl in *; lia|by eapply aligned_join|].
    exists p'. split; [done|]. rewrite busy_app in HS |- *.
    by rewrite (busy_cons_free (a0, n)), (busy_cons_free (nk, n2)).
  - apply (find_adjacent_None _ _ _ Ha He Ht) in E. by exists p.
Qed.

Lemma merge_all_coalesced a e p :
  0 <= a -> e < 2 ^ 64 -> tiles a e p -> coalesced p ->
  MergeAllAdjacentFreeBlocks p = Some p.
Proof.
  intros Ha He Ht Hc. unfold MergeAllAdjacentFreeBlocks. simpl.
  by rewrite (proj2 (find_adjacent_None _ _ _ Ha He Ht) Hc).
Qed.

(** ** The best-fit scan *)

Definition fits (required : Z) (e : entry) : Prop := free_entry e /\ required <= size e.2.

(** [e] is a free block of [p] that fits, of minimal size. *)
Definition best_fit (required : Z) (p : pool_t) (e : entry) : Prop :=
  e ∈ p /\ fits required e /\ forall e', e' ∈ p -> fits required e' -> size e.2 <= size e'.2.

Lemma best_fit_step_cases required acc x :
  (best_fit_step required acc x = acc /\ (fits required x -> acc.2 <= size x.2)) \/
  (best_fit_step required acc x = (Some x, size x.2) /\ fits required x /\ size x.2 < acc.2).
Proof.
  destruct x as [k n]. unfold best_fit_step, fits. rewrite <- (is_free_spec n k). simpl.
  destruct (is_free n), (Z.leb_spec required (size n)), (Z.ltb_spec (size n) acc.2);
    simpl; intuition (lia || congruence).
Qed.

Lemma best_fit_fold required p acc :
  let r := foldl (best_fit_step required) acc p in
  (r = acc /\ forall e, e ∈ p -> fits required e -> acc.2 <= size e.2) \/
  (exists e, r = (Some e, size e.2) /\ best_fit required p e /\ size e.2 < acc.2).
Proof.
  revert acc. induction p as [|x p IH]; intros acc; simpl.
  - left. split; [done|]. intros e He. by apply elem_of_nil in He.
  - assert (forall e (P : entry -> Prop), P x -> (e ∈ p -> P e) -> e ∈ x :: p -> P e) as Hcons.
    { intros e P Px Pe [->|He]%elem_of_cons; [exact Px|by apply Pe]. }
    destruct (best_fit_step_cases required acc x) as [[-> Hx]|(-> & Fx & Hlt)].
    + destruct (IH acc) as [[-> Hmin]|(e & -> & (Hin & Hf & Hmin) & Hlt)].
      * left. split; [done|]. intros e He. pattern e. by apply Hcons; [|auto|].
      * right. exists e. split; [done|]. split; [|done]. split; [set_solver|]. split; [done|].
        intros e' He'. pattern e'. apply Hcons; [|auto|done].
        intros Fx. specialize (Hx Fx). lia.
    + right. destruct (IH (Some x, size x.2)) as [[-> Hmin]|(e & -> & (Hin & Hf & Hmin) & Hlt')].
      * exists x. split; [done|]. split; [|done]. split; [set_solver|]. split; [done|].
        intros e' He'. pattern e'. by apply Hcons; [|apply Hmin|].
      * simpl in Hlt'. exists e. split; [done|]. split; [|lia]. split; [set_solver|].
        split; [done|]. intros e' He'. pattern e'. apply Hcons; [|auto|done]. intros _. lia.
Qed.

(** Scanning in either direction picks a best fit, if any block fits. *)
Lemma best_fit_scan required a e p q :
  0 <= a -> e < 2 ^ 63 -> tiles a e p -> (forall x, x ∈ q <-> x ∈ p) ->
  match (foldl (best_fit_step required) (None, UINT64_MAX) q).1 with
  | Some x => best_fit required p x
  | None => forall x, x ∈ p -> ~ fits required x
  end.
Proof.
  intros Ha He Ht Hq.
  destruct (best_fit_fold required q (None, UINT64_MAX))
    as [[-> Hmin]|(x & -> & (Hin & Hf & Hmin) & _)]; simpl.
  - intros x Hx Hf. apply Hq in Hx as Hx'. specialize (Hmin x Hx' Hf). simpl in Hmin.
    apply tiles_bounds in Ht. rewrite Forall_forall in Ht. specialize (Ht x Hx).
    unfold UINT64_MAX in Hmin. lia.
  - split; [by apply Hq|]. split; [done|]. intros e' He'. apply Hmin. by apply Hq.
Qed.

Lemma FindBestFit_spec required a e p :
  0 <= a -> e < 2 ^ 63 -> tiles a e p ->
  match FindBestFit required p with
  | Some x => best_fit required p x
  | None => forall x, x ∈ p -> ~ fits required x
  end.
Proof. intros. by eapply best_fit_scan. Qed.

Lemma largest_fold p b r :
  (forall x, x ∈ p -> ~ fits r x) -> b < r ->
  foldl (fun largest (e : entry) =>
           if is_free e.2 && (largest <? size e.2) then size e.2 else largest) b p < r.
Proof.
  revert b. induction p as [|x p IH]; simpl; intros b H Hb; [done|].
  apply IH; [set_solver|]. destruct x as [k n]. simpl.
  destruct (is_free n) eqn:F; simpl; [|done]. destruct (b <? size n); [|done].
  apply (is_free_spec n k) in F. specialize (H (k, n) ltac:(set_solver)).
  unfold fits in H. simpl in H. destruct (Z_lt_le_dec (size n) r); [done|]. exfalso. auto.
Qed.

(** ** Carving the chosen block *)

Section carve.
Context (m : memory) (W : wf m) (l1 l2 : pool_t) (k : Z) (n : MemoryNode) (r : Z).
Context (Hp : pool m = l1 ++ (k, n) :: l2) (Hf : free_entry (k, n)).
Context (Hr : 0 < r <= size n) (Hal : (MEMORY_ALIGNMENT | r)).

Let Hsz := wf_size m W.

Lemma carve_tiles :
  tiles 0 k l1 /\ addr n = k /\ 0 < size n /\ 0 <= status n /\ tiles (k + size n) (size_ m) l2.
Proof. apply tiles_split. rewrite <- Hp. apply W. Qed.

Lemma carve_bounds : 0 <= k /\ k + size n <= size_ m.
Proof.
  destruct carve_tiles as (H1 & _ & _ & _ & H2).
  apply tiles_le in H1. apply tiles_le in H2. lia.
Qed.

Lemma carve_split : om_split k l1 l2.
Proof. eapply tiles_om_split. rewrite <- Hp. apply W. Qed.

Lemma carve_neighbours : ~ last_free l1 /\ ~ head_free l2 /\ coalesced l1 /\ coalesced l2.
Proof.
  pose proof (wf_coalesced m W) as C. rewrite Hp, coalesced_app in C.
  destruct C as (C1 & [C2 C2'] & C3). unfold head_free in C3. simpl in C3. tauto.
Qed.

Lemma carve_aligned : aligned l1 /\ (MEMORY_ALIGNMENT | size n) /\ aligned l2.
Proof.
  pose proof (wf_aligned m W) as A. rewrite Hp in A.
  rewrite aligned_app, aligned_cons in A. done.
Qed.

Lemma carve_used : u64 (used m + r) = total (busy l1 ++ busy l2) + r.
Proof.
  destruct carve_tiles as (H1 & _ & _ & _ & H2). pose proof carve_bounds.
  pose proof (busy_total_le _ _ _ H1). pose proof (busy_total_le _ _ _ H2).
  rewrite (wf_used m W), Hp, busy_app, busy_cons_free, !total_app by done.
  apply uwrap_small. lia.
Qed.

(** The busy block [(k', r)] inserted anywhere inside the free block. *)
Lemma carve_busy k' q :
  k <= k' -> k' + r <= k + size n -> busy q = [(k', mkNode k' r 1)] ->
  om_insert k' (mkNode k' r 1) (busy (pool m)) = busy (l1 ++ q ++ l2).
Proof.
  intros Hk Hk' Hq. rewrite Hp, !busy_app, busy_cons_free, Hq by done.
  apply om_insert_fresh. destruct carve_tiles as (H1 & _ & _ & _ & H2). split.
  - apply Forall_forall. intros x [_ Hx]%list_elem_of_filter.
    apply tiles_bounds in H1. rewrite Forall_forall in H1. specialize (H1 x Hx). lia.
  - apply busy_bounds in H2. eapply Forall_impl; [exact H2|]. simpl. lia.
Qed.

Lemma carve_result k' q m' :
  k <= k' -> k' + r <= k + size n -> busy q = [(k', mkNode k' r 1)] ->
  tiles k (k + size n) q -> coalesced q -> aligned q ->
  m' = set_pool_used m (l1 ++ q ++ l2) (u64 (used m + r)) ->
  wf m' /\ used m' = used m + r /\ size_ m' = size_ m /\ start m' = start m /\
  busy (pool m') = om_insert k' (mkNode k' r 1) (busy (pool m)).
Proof.
  intros Hk Hk' Hb Ht Hc Ha ->. destruct carve_tiles as (H1 & _ & _ & _ & H2).
  destruct carve_neighbours as (N1 & N2 & C1 & C2). destruct carve_aligned as (A1 & _ & A2).
  assert (total (busy (l1 ++ q ++ l2)) = total (busy l1 ++ busy l2) + r) as Etot.
  { rewrite !busy_app, Hb, !total_app, total_cons. unfold total. simpl. lia. }
  split; [constructor; simpl|repeat split; simpl].
  - done.
  - apply tiles_app. exists k. split; [done|]. apply tiles_app. eauto.
  - rewrite !coalesced_app. tauto.
  - by rewrite carve_used, Etot.
  - by rewrite !aligned_app.
  - rewrite carve_used, (wf_used m W), Hp, !busy_app, (busy_cons_free (k, n)), !total_app
      by done. lia.
  - by rewrite (carve_busy k' q).
Qed.

Lemma rest_aligned : (MEMORY_ALIGNMENT | size n - r).
Proof. destruct carve_aligned as (_ & ? & _). by apply Z.divide_sub_r. Qed.

Lemma allocate_at_spec m' a :
  allocate_at r m n = (a, m') ->
  a = k /\ wf m' /\ used m' = used m + r /\ size_ m' = size_ m /\ start m' = start m /\
  busy (pool m') = om_insert a (mkNode a r 1) (busy (pool m)).
Proof.
  destruct carve_tiles as (H1 & Hk & Hs & _ & H2). pose proof carve_bounds as Hb.
  pose proof carve_split as Hsp. unfold allocate_at. rewrite Hk, Hp.
  rewrite (swrap_small 64 k) by lia. intros [= <- <-]. split; [done|].
  destruct (r <? size n) eqn:E; bool_facts.
  - rewrite !uwrap_small by lia. rewrite (om_insert_after k n) by
      (done || lia || (apply tiles_bounds in H2; eapply Forall_impl; [exact H2|]; simpl; lia)).
    rewrite om_insert_split by (split; [apply Hsp|constructor; [simpl; lia|apply Hsp]]).
    rewrite <- Hp. apply (carve_result k [(k, mkNode k r 1); (k + r, mkNode (k + r) (size n - r) 0)]);
      try done; simpl; try lia; [unfold head_free, free_entry; simpl; intuition lia|].
    repeat (apply aligned_cons; split); try done; [apply rest_aligned|constructor].
  - rewrite om_insert_split by done.
    rewrite <- Hp. apply (carve_result k [(k, mkNode k r 1)]); try done; simpl; try lia;
      [unfold head_free; simpl; intuition lia|].
    apply aligned_cons; split; [done|constructor].
Qed.

Lemma backward_at_spec m' a :
  backward_at r m n = (a, m') ->
  a = k + size n - r /\ wf m' /\ used m' = used m + r /\ size_ m' = size_ m /\
  start m' = start m /\
  busy (pool m') = om_insert a (mkNode a r 1) (busy (pool m)).
Proof.
  destruct carve_tiles as (H1 & Hk & Hs & _ & H2). pose proof carve_bounds as Hb.
  pose proof carve_split as Hsp. unfold backward_at. rewrite Hk, Hp.
  destruct (r <? size n) eqn:E; bool_facts; cbv zeta.
  - rewrite (uwrap_small 64 (size n - r)), uwrap_small, swrap_small by lia.
    intros [= <- <-]. split; [lia|].
    rewrite om_insert_split, om_insert_after by
      (done || lia || (apply tiles_bounds in H2; eapply Forall_impl; [exact H2|]; simpl; lia)).
    rewrite <- Hp. apply (carve_result (k + (size n - r)) [(k, mkNode k (size n - r) 0);
      (k + (size n - r), mkNode (k + (size n - r)) r 1)]);
      try done; simpl; try lia; [unfold head_free, free_entry; simpl; intuition lia|].
    repeat (apply aligned_cons; split); try done; [apply rest_aligned|constructor].
  - rewrite swrap_small by lia. intros [= <- <-]. split; [lia|].
    rewrite om_insert_split by done.
    rewrite <- Hp. apply (carve_result k [(k, mkNode k r 1)]); try done; simpl; try lia;
      [unfold head_free; simpl; intuition lia|].
    apply aligned_cons; split; [done|constructor].
Qed.
End carve.
