(* ===== verification/MemorySpec.v ===== *)
(** * Device memory allocator: specification and properties

    The abstract state of the allocator is the list of blocks in use,
    [busy (pool m)]; the theorems say that [Allocate] and [BackwardAllocate]
    insert one disjoint aligned block into it, or change nothing and return -1,
    that [Deallocate] removes exactly one, and that every run of calls with the
    sizes of [sized] ends in a state that tiles the device memory, and keeps the
    invariant [wf] as long as no block is freed a second time.  What the calls
    left out do is stated by [BackwardAllocate_zero_corrupts] and
    [Deallocate_free_block_miscounts]. *)

From Stdlib Require Import ZArith Lia.
From S2P Require Import Prelude OrdMap Memory MemoryInv MemoryOps.
Import Memory.

(** ** Alignment *)

Lemma AlignSize_eq s :
  0 <= s -> AlignSize s = u64 (s + 4095) / 4096 * 4096.
Proof.
  intros Hs. unfold AlignSize, MEMORY_ALIGNMENT.
  assert (u64 (u64 (s + 4096) - 1) = u64 (s + 4095)) as ->.
  { unfold uwrap. rewrite Zminus_mod_idemp_l. f_equal. lia. }
  assert (u64 (Z.lnot (4096 - 1)) = Z.land (Z.lnot (2 ^ 12 - 1)) (Z.ones 64)) as ->
    by (rewrite Z.land_ones by lia; reflexivity).
  rewrite (Z.land_comm (Z.lnot _)), Z.land_assoc, Z.land_ones by lia.
  unfold uwrap. rewrite Zmod_mod. apply (land_lnot_ones _ 12). lia.
Qed.

Lemma AlignSize_bounds s :
  0 <= s <= 2 ^ 64 - 4096 -> s <= AlignSize s < s + 4096 /\ (4096 | AlignSize s).
Proof.
  intros Hs. rewrite AlignSize_eq by lia. rewrite uwrap_small by lia.
  split; [|apply Z.divide_factor_r].
  pose proof (Z.div_mod (s + 4095) 4096). pose proof (Z.mod_pos_bound (s + 4095) 4096). lia.
Qed.

(** The size requested from the pool: [Allocate] replaces 0 by 64. *)
Definition request_size (required : Z) : Z :=
  AlignSize (if required =? 0 then 64 else required).

Lemma request_size_bounds s :
  0 <= s <= 2 ^ 64 - 4096 ->
  s <= request_size s /\ 0 < request_size s /\ (MEMORY_ALIGNMENT | request_size s).
Proof.
  intros Hs. unfold request_size, MEMORY_ALIGNMENT.
  destruct (Z.eqb_spec s 0) as [->|].
  - vm_compute. repeat split; try discriminate. by exists 1.
  - destruct (AlignSize_bounds s) as [? ?]; [lia|]. repeat split; [lia..|done].
Qed.

(** ** Abstract effect of an allocation *)

(** [m'] is [m] with the block [a, a + r) added to the blocks in use. *)
Definition adds_block (m m' : memory) (a r : Z) : Prop :=
  wf m' /\ used m' = used m + r /\ size_ m' = size_ m /\ start m' = start m /\
  busy (pool m') = om_insert a (mkNode a r 1) (busy (pool m)).

(** The block an allocation starts from, as a split of the pool. *)
Lemma best_fit_inv m r k n :
  wf m -> best_fit r (pool m) (k, n) ->
  exists l1 l2, pool m = l1 ++ (k, n) :: l2 /\ free_entry (k, n) /\ r <= size n.
Proof.
  intros W (Hin & [Hf Hr] & _). apply list_elem_of_split in Hin as (l1 & l2 & E). eauto.
Qed.

(** On a well-formed pool defragmentation finds nothing to merge. *)
Lemma TryDefragmentation_wf m r :
  wf m -> 0 < r -> (forall x, x ∈ pool m -> ~ fits r x) ->
  TryDefragmentation r (pool m) = Some (false, pool m).
Proof.
  intros W Hr Hn. unfold TryDefragmentation.
  rewrite (merge_all_coalesced 0 (size_ m)); [|pose proof (wf_size m W); lia|
    pose proof (wf_size m W); lia|apply W|apply W]. simpl.
  unfold GetLargestFreeBlock. pose proof (largest_fold _ 0 _ Hn Hr).
  by rewrite (proj2 (Z.leb_gt _ _)).
Qed.

Lemma set_pool_self m : set_pool m (pool m) = m.
Proof. by destruct m. Qed.

Section allocation.
Context (m : memory) (W : wf m).

Lemma Allocate_cases required :
  0 <= required <= 2 ^ 64 - 4096 ->
  let r := request_size required in
  (exists k n m', best_fit r (pool m) (k, n) /\ Allocate required m = Some (k, m') /\
                  0 <= k /\ k + r <= size_ m /\ adds_block m m' k r) \/
  ((forall x, x ∈ pool m -> ~ fits r x) /\ Allocate required m = Some (-1, m)).
Proof.
  intros Hreq. destruct (request_size_bounds required Hreq) as (H1 & H2 & H3).
  unfold Allocate. fold (request_size required).
  pose proof (FindBestFit_spec (request_size required) 0 (size_ m) (pool m)) as HB.
  pose proof (wf_size m W) as Hs. specialize (HB ltac:(lia) ltac:(lia) (wf_tiles m W)).
  destruct (FindBestFit _ _) as [[k n]|].
  - left. destruct (best_fit_inv _ _ _ _ W HB) as (l1 & l2 & Hp & Hf & Hr).
    destruct (allocate_at (request_size required) m n) as [a m'] eqn:E.
    destruct (allocate_at_spec m W l1 l2 k n _ Hp Hf (conj H2 Hr) H3 m' a E) as (-> & Had).
    exists k, n, m'. split; [done|]. simpl. rewrite E. split; [done|].
    destruct (carve_bounds m W l1 l2 k n Hp). split; [done|]. split; [lia|exact Had].
  - right. split; [done|]. destruct (_ && _); [|done].
    rewrite (TryDefragmentation_wf m) by done. simpl. by rewrite set_pool_self.
Qed.

Lemma BackwardAllocate_cases required :
  0 < required <= 2 ^ 64 - 4096 ->
  let r := AlignSize required in
  (exists k n a m', best_fit r (pool m) (k, n) /\ a = k + size n - r /\
      BackwardAllocate required m = Some (a, m') /\
      0 <= a /\ a + r <= size_ m /\ adds_block m m' a r) \/
  ((forall x, x ∈ pool m -> ~ fits r x) /\ BackwardAllocate required m = Some (-1, m)).
Proof.
  intros Hreq. destruct (AlignSize_bounds required) as (H1 & H3); [lia|].
  pose proof (wf_size m W) as Hs. assert (0 < AlignSize required) as H2 by lia.
  pose proof (best_fit_scan (AlignSize required) 0 (size_ m) (pool m) (reverse (pool m)))
    as HB.
  specialize (HB ltac:(lia) ltac:(lia) (wf_tiles m W) ltac:(intros; apply elem_of_reverse)).
  unfold BackwardAllocate. cbv zeta.
  destruct (foldl _ _ _) as [[[k n]|] bs] eqn:Efold; simpl in HB |- *.
  - left. destruct (best_fit_inv _ _ _ _ W HB) as (l1 & l2 & Hp & Hf & Hr).
    destruct (backward_at (AlignSize required) m n) as [a m'] eqn:E.
    destruct (backward_at_spec m W l1 l2 k n _ Hp Hf (conj H2 Hr) H3 m' a E) as (-> & Had).
    exists k, n, (k + size n - AlignSize required), m'. split; [done|]. split; [done|].
    split; [done|]. destruct (carve_bounds m W l1 l2 k n Hp). split; [lia|].
    split; [lia|exact Had].
  - right. split; [done|]. destruct (_ && _); [|done].
    rewrite (TryDefragmentation_wf m) by done. simpl. by rewrite set_pool_self.
Qed.
End allocation.

(** ** Deallocation *)

Lemma elem_of_busy e p : e ∈ busy p <-> e ∈ p /\ ~ free_entry e.
Proof. unfold busy. rewrite list_elem_of_filter. tauto. Qed.

Lemma busy_split k l1 n l2 :
  om_split k l1 l2 -> ~ free_entry (k, n) ->
  om_erase k (busy (l1 ++ (k, n) :: l2)) = busy l1 ++ busy l2.
Proof.
  intros [S1 S2] Hb. rewrite busy_app, busy_cons_busy by done. apply om_erase_split.
  split; apply Forall_forall; intros x [_ Hx]%list_elem_of_filter;
    rewrite Forall_forall in S1, S2; auto.
Qed.

Lemma Deallocate_busy m a n :
  wf m -> (a, n) ∈ busy (pool m) ->
  exists m', Deallocate a m = Some m' /\ wf m' /\ used m' = used m - size n /\
    size_ m' = size_ m /\ start m' = start m /\
    busy (pool m') = om_erase a (busy (pool m)).
Proof.
  intros W [Hin Hb]%elem_of_busy. apply list_elem_of_split in Hin as (l1 & l2 & Hp).
  pose proof (wf_tiles m W) as Ht. pose proof (wf_size m W) as Hs. rewrite Hp in Ht.
  pose proof (tiles_om_split _ _ _ _ _ _ Ht) as Hsp.
  pose proof Ht as (T1 & Ha & Hsz & _ & T2)%tiles_split.
  pose proof (wf_coalesced m W) as C. rewrite Hp, coalesced_app in C.
  destruct C as (C1 & [_ C2] & _). pose proof (wf_aligned m W) as A. rewrite Hp in A.
  pose proof (tiles_le _ _ _ T1). pose proof (tiles_le _ _ _ T2).
  pose proof (busy_total_le _ _ _ T1). pose proof (busy_total_le _ _ _ T2).
  pose proof (wf_used m W) as U.
  rewrite Hp, busy_app, busy_cons_busy, total_app, total_cons in U by done. simpl in U.
  unfold Deallocate. rewrite Hp, om_find_split, om_insert_split by done.
  destruct (MergeAdjacentNodes_spec (S (length (l1 ++ (a, mkNode (addr n) (size n) 0) :: l2)))
              0 (size_ m) l1 a (mkNode (addr n) (size n) 0) l2) as (p' & -> & Ht' & C' & B' & A').
  - rewrite length_app. simpl. lia.
  - lia.
  - lia.
  - apply tiles_split. simpl. repeat split; (done || lia).
  - done.
  - done.
  - done.
  - rewrite aligned_app, aligned_cons in A |- *. done.
  - eexists. split; [done|]. simpl. rewrite uwrap_small by lia.
    rewrite <- Hp, Hp, busy_split by done.
    repeat split; simpl; try done; rewrite ?B', ?total_app; lia.
Qed.

(** ** Runs of calls *)

(** A call on the allocator with its argument, and its effect on the state;
    [None] when a loop of the call does not end within its fuel. *)
Inductive mem_call : Type :=
| CAllocate (required : Z)
| CBackwardAllocate (required : Z)
| CDeallocate (a : Z)
| CCompactMemory
| CResetBuffer.

Definition mem_exec (c : mem_call) (m : memory) : option memory :=
  match c with
  | CAllocate r => snd <$> Allocate r m
  | CBackwardAllocate r => snd <$> BackwardAllocate r m
  | CDeallocate a => Deallocate a m
  | CCompactMemory => CompactMemory m
  | CResetBuffer => Some (ResetBuffer m)
  end.

Fixpoint mem_run (cs : list mem_call) (m : memory) : option memory :=
  match cs with
  | [] => Some m
  | c :: r => m' ← mem_exec c m; mem_run r m'
  end.

(** The sizes the alignment keeps: [AlignSize] wraps to 0 above 2^64 - 4096, and
    only [Allocate] replaces a size of 0. *)
Definition sized (c : mem_call) : Prop :=
  match c with
  | CAllocate r => 0 <= r <= 2 ^ 64 - 4096
  | CBackwardAllocate r => 0 < r <= 2 ^ 64 - 4096
  | _ => True
  end.

(** The call is not a [Deallocate] of the offset of a free block. *)
Definition not_free_again (c : mem_call) (m : memory) : Prop :=
  match c with
  | CDeallocate a =>
      match om_find a (pool m) with Some n => is_free n = false | None => True end
  | _ => True
  end.

(** No call of the run frees a block a second time. *)
Fixpoint frees_once (cs : list mem_call) (m : memory) : Prop :=
  match cs with
  | [] => True
  | c :: r =>
      not_free_again c m /\
      match mem_exec c m with Some m' => frees_once r m' | None => True end
  end.

(** The usage counter is written by the operations and read by none: a state
    whose counter is replaced takes the same steps. *)
Definition set_used (u : Z) (m : memory) : memory := set_pool_used m (pool m) u.

(** [wf] but for the counter. *)
Definition shaped (m : memory) : Prop := wf (set_used (total (busy (pool m))) m).

Lemma set_used_self m : set_used (used m) m = m.
Proof. by destruct m. Qed.

Lemma mem_exec_set_used c u m m' :
  mem_exec c (set_used u m) = Some m' ->
  exists v, mem_exec c m = Some (set_used v m').
Proof.
  destruct c as [r|r|a| |]; simpl.
  - unfold Allocate. simpl. destruct (FindBestFit _ _) as [e|]; simpl.
    + intros [= <-]. by eexists.
    + destruct (_ && _); [|intros [= <-]; exists (used m); by destruct m].
      destruct (TryDefragmentation _ _) as [[[] p']|]; simpl; [| |done].
      * destruct (FindBestFit _ _); intros [= <-]; by eexists.
      * intros [= <-]. by eexists.
  - unfold BackwardAllocate. simpl. destruct (foldl _ _ _) as [[e|] bs]; simpl.
    + unfold backward_at. destruct (_ <? _); simpl; intros [= <-]; by eexists.
    + destruct (_ && _); [|intros [= <-]; exists (used m); by destruct m].
      destruct (TryDefragmentation _ _) as [[[] p']|]; simpl; [| |done].
      * destruct (foldl _ _ _) as [[e'|] bs']; simpl; [|intros [= <-]; by eexists].
        unfold backward_at. destruct (_ <? _); simpl; intros [= <-]; by eexists.
      * intros [= <-]. by eexists.
  - unfold Deallocate. cbn -[MergeAdjacentNodes]. destruct (om_find a (pool m)) as [n|];
      [|intros [= <-]; exists (used m); by destruct m].
    destruct (MergeAdjacentNodes _ _ _); [|done]. intros [= <-]. by eexists.
  - unfold CompactMemory. simpl. destruct (MergeAllAdjacentFreeBlocks _); simpl; [|done].
    intros [= <-]. by eexists.
  - intros [= <-]. by eexists.
Qed.

Lemma wf_new_memory mem_addr mem_size data_ :
  0 < mem_size < 2 ^ 63 -> (MEMORY_ALIGNMENT | mem_size) ->
  wf (new_memory mem_addr mem_size data_).
Proof.
  intros Hs Hal. constructor; simpl.
  - done.
  - repeat split; lia.
  - unfold head_free. simpl. tauto.
  - done.
  - apply aligned_cons. split; [done|constructor].
Qed.

Lemma CompactMemory_wf m : wf m -> CompactMemory m = Some m.
Proof.
  intros W. pose proof (wf_size m W). unfold CompactMemory.
  rewrite (merge_all_coalesced 0 (size_ m)); [|lia|lia|apply W..].
  simpl. by rewrite set_pool_self.
Qed.

(** A second free of a block changes nothing but the counter. *)
Lemma Deallocate_again m a n :
  wf m -> (a, n) ∈ pool m -> free_entry (a, n) ->
  Deallocate a m = Some (set_used (u64 (used m - size n)) m).
Proof.
  intros W Hin Hf. apply list_elem_of_split in Hin as (l1 & l2 & Hp).
  pose proof (wf_tiles m W) as Ht. pose proof (wf_size m W) as Hs. rewrite Hp in Ht.
  pose proof (tiles_om_split _ _ _ _ _ _ Ht) as Hsp.
  assert (mkNode (addr n) (size n) 0 = n) as En.
  { destruct n. unfold free_entry in Hf. simpl in *. congruence. }
  pose proof (wf_coalesced m W) as C. rewrite Hp, coalesced_app in C.
  destruct C as (C1 & [_ C2] & _). pose proof (wf_aligned m W) as A. rewrite Hp in A.
  destruct (MergeAdjacentNodes_spec (S (length (l1 ++ (a, n) :: l2)))
              0 (size_ m) l1 a n l2) as (p' & E & Ht' & C' & B' & A'); try done; try lia.
  { rewrite length_app. simpl. lia. }
  assert (p' = pool m) as ->.
  { apply (canonical 0 (size_ m)); try done; [apply W|apply W|].
    by rewrite B', Hp, busy_app, busy_cons_free. }
  unfold Deallocate. rewrite Hp at 1. rewrite om_find_split by done.
  rewrite En, Hp, om_insert_split, E by done. simpl. unfold set_used. by rewrite Hp.
Qed.

Lemma wf_shaped m : wf m -> shaped m.
Proof. intros W. unfold shaped. rewrite <- (wf_used m W), set_used_self. done. Qed.

Lemma shaped_set_used u m : shaped (set_used u m) <-> shaped m.
Proof. done. Qed.

(** One call on a well-formed state. *)
Lemma mem_exec_wf c m :
  wf m -> sized c ->
  exists m', mem_exec c m = Some m' /\ shaped m' /\ (not_free_again c m -> wf m').
Proof.
  intros W Hc. cut (exists m', mem_exec c m = Some m' /\
    (wf m' \/ (~ not_free_again c m /\ shaped m'))).
  { intros (m1 & E & [W1|[N S]]); exists m1; split_and!; auto using wf_shaped.
    intros Hn. by destruct N. }
  destruct c as [r|r|a| |]; simpl in Hc |- *.
  - destruct (Allocate_cases m W r Hc) as [(k & n & m2 & _ & -> & _ & _ & Had)|[_ ->]];
      [exists m2; split; [done|left; apply Had]|by exists m; auto].
  - destruct (BackwardAllocate_cases m W r Hc)
      as [(k & n & b & m2 & _ & _ & -> & _ & _ & Had)|[_ ->]];
      [exists m2; split; [done|left; apply Had]|by exists m; auto].
  - destruct (om_find a (pool m)) as [n|] eqn:E.
    2: { exists m. split; [unfold Deallocate; by rewrite E|by left]. }
    assert ((a, n) ∈ pool m) as Hin by (apply om_find_inv in E as (? & ? & ->); set_solver).
    destruct (decide (free_entry (a, n))) as [F|F].
    + rewrite (Deallocate_again m a n W Hin F). eexists. split; [done|]. right.
      rewrite shaped_set_used. split; [|by apply wf_shaped].
      rewrite (is_free_false n a). by intros [].
    + destruct (Deallocate_busy m a n W) as (m2 & -> & W2 & _); [by apply elem_of_busy|eauto].
  - rewrite CompactMemory_wf by done. eauto.
  - eexists. split; [done|]. left. destruct W as [? ? ? ? ?]. by constructor.
Qed.

Lemma mem_exec_shaped c m :
  shaped m -> sized c -> exists m', mem_exec c m = Some m' /\ shaped m'.
Proof.
  intros Sh Hc. destruct (mem_exec_wf c _ Sh Hc) as (m' & E & S' & _).
  destruct (mem_exec_set_used _ _ _ _ E) as [v E']. eauto.
Qed.

Lemma mem_run_shaped cs m :
  shaped m -> Forall sized cs -> exists m', mem_run cs m = Some m' /\ shaped m'.
Proof.
  intros Sh Hs. revert m Sh. induction Hs as [|c cs Hc _ IH]; intros m Sh; simpl; [eauto|].
  destruct (mem_exec_shaped c m Sh Hc) as (m1 & -> & S1). simpl. by apply IH.
Qed.

Lemma mem_run_wf cs m m' :
  wf m -> Forall sized cs -> frees_once cs m -> mem_run cs m = Some m' -> wf m'.
Proof.
  intros W Hs. revert m W. induction Hs as [|c cs Hc _ IH]; intros m W; simpl.
  - congruence.
  - intros [Hn Hr] R. destruct (mem_exec_wf c m W Hc) as (m1 & E & _ & W1).
    rewrite E in R, Hr. simpl in R. eauto.
Qed.

(** ** Properties *)

(** C1. [Allocate] implements the abstract allocator: on a well-formed state it
    takes the smallest free block that fits the aligned request, marks exactly
    the requested size of it busy at its low end and returns its offset; when no
    free block fits it returns -1 and changes nothing. *)
Theorem Allocate_refines m required :
  wf m -> 0 <= required <= 2 ^ 64 - 4096 ->
  let r := request_size required in
  (exists k n m', best_fit r (pool m) (k, n) /\ Allocate required m = Some (k, m') /\
                  adds_block m m' k r) \/
  ((forall x, x ∈ pool m -> ~ fits r x) /\ Allocate required m = Some (-1, m)).
Proof.
  intros W Hr. destruct (Allocate_cases m W required Hr)
    as [(k & n & m' & HB & E & _ & _ & Had)|?]; [|by right].
  left. by exists k, n, m'.
Qed.

(** [BackwardAllocate] of a non-zero size: the same best fit, carved from
    the high end of the block. *)
Theorem BackwardAllocate_refines m required :
  wf m -> 0 < required <= 2 ^ 64 - 4096 ->
  let r := AlignSize required in
  (exists k n m', best_fit r (pool m) (k, n) /\
      BackwardAllocate required m = Some (k + size n - r, m') /\
      adds_block m m' (k + size n - r) r) \/
  ((forall x, x ∈ pool m -> ~ fits r x) /\ BackwardAllocate required m = Some (-1, m)).
Proof.
  intros W Hr. destruct (BackwardAllocate_cases m W required Hr)
    as [(k & n & a & m' & HB & -> & E & _ & _ & Had)|?]; [|by right].
  left. by exists k, n, m'.
Qed.

Lemma tiles_disjoint a e p x y :
  tiles a e p -> x ∈ p -> y ∈ p -> x.1 <> y.1 ->
  x.1 + size x.2 <= y.1 \/ y.1 + size y.2 <= x.1.
Proof.
  intros Ht Hx Hy Hne. destruct x as [k n].
  apply list_elem_of_split in Hx as (l1 & l2 & ->).
  apply tiles_split in Ht as (H1 & _ & _ & _ & H2).
  apply tiles_bounds in H1, H2. rewrite Forall_forall in H1, H2.
  apply elem_of_app in Hy as [Hy|Hy].
  - right. specialize (H1 y Hy). simpl. lia.
  - apply elem_of_cons in Hy as [->|Hy]; [done|]. left. specialize (H2 y Hy). simpl. lia.
Qed.

Lemma adds_block_keeps m m' a r x :
  adds_block m m' a r -> om_find a (busy (pool m)) = None -> x ∈ busy (pool m) ->
  x ∈ busy (pool m').
Proof.
  intros (_ & _ & _ & _ & ->) Hn Hx. apply elem_of_om_insert. right. split; [done|].
  destruct x as [k v]. intros E. simpl in E. subst k. by apply (om_find_None _ v) in Hn.
Qed.

(** The key of a free block is not the key of a busy one. *)
Lemma busy_find_free m k n :
  wf m -> (k, n) ∈ pool m -> free_entry (k, n) -> om_find k (busy (pool m)) = None.
Proof.
  intros W Hin Hf. destruct (om_find k (busy (pool m))) as [v|] eqn:E; [|done].
  exfalso. apply om_find_inv in E as (l1 & l2 & E).
  assert ((k, v) ∈ busy (pool m)) as Hb by (rewrite E; set_solver).
  apply elem_of_busy in Hb as [Hb Hnf]. apply list_elem_of_split in Hin as (q1 & q2 & Hp).
  pose proof (wf_tiles m W) as Ht. rewrite Hp in Ht, Hb.
  pose proof (tiles_om_split _ _ _ _ _ _ Ht) as [S1 S2]. rewrite Forall_forall in S1, S2.
  apply elem_of_app in Hb as [Hb|[Hb|Hb]%elem_of_cons].
  - apply S1 in Hb. simpl in Hb. lia.
  - injection Hb as ->. done.
  - apply S2 in Hb. simpl in Hb. lia.
Qed.

Lemma tiles_aligned a e p :
  (MEMORY_ALIGNMENT | a) -> tiles a e p -> aligned p ->
  Forall (fun x : entry => (MEMORY_ALIGNMENT | x.1)) p.
Proof.
  revert a. induction p as [|[k n] p IH]; intros a Ha Ht Hal; [constructor|].
  destruct Ht as (-> & _ & _ & _ & Ht). apply aligned_cons in Hal as [Hn Hal].
  constructor; [done|]. eapply IH; [|exact Ht|done]. by apply Z.divide_add_r.
Qed.

(** C2. Memory safety: a block returned by [Allocate] is page aligned, lies
    inside the device memory, is large enough, overlaps no block in use, and
    every block in use stays in use unchanged. *)
Theorem Allocate_disjoint m required a m' :
  wf m -> 0 <= required <= 2 ^ 64 - 4096 ->
  Allocate required m = Some (a, m') -> a <> -1 ->
  (MEMORY_ALIGNMENT | a) /\ 0 <= a /\ required <= request_size required /\
  a + request_size required <= size_ m /\
  (forall k n, (k, n) ∈ busy (pool m) ->
     (k + size n <= a \/ a + request_size required <= k) /\ (k, n) ∈ busy (pool m')).
Proof.
  intros W Hr E Hne. destruct (request_size_bounds required Hr) as (R1 & R2 & R3).
  destruct (Allocate_cases m W required Hr)
    as [(k & n & m2 & HB & E2 & Hk & Hk2 & Had)|[_ E2]]; rewrite E2 in E; [|by injection E as <-].
  injection E as <- <-. destruct HB as (Hin & [Hf Hfit] & _). simpl in Hfit.
  split; [|split; [done|split; [done|split; [done|]]]].
  - pose proof (tiles_aligned 0 (size_ m) (pool m) (Z.divide_0_r _) (wf_tiles m W)
      (wf_aligned m W)) as F. rewrite Forall_forall in F. exact (F _ Hin).
  - intros k2 n2 Hb. split; [|eapply adds_block_keeps; eauto; by eapply busy_find_free].
    apply elem_of_busy in Hb as [Hb Hbf].
    assert (k2 <> k) as Hkk.
    { intros ->. pose proof (busy_find_free m k n W Hin Hf) as Hn.
      apply (om_find_None _ n2) in Hn. rewrite elem_of_busy in Hn. tauto. }
    destruct (tiles_disjoint 0 (size_ m) (pool m) (k2, n2) (k, n)) as [D|D];
      try done; [apply W|simpl in *; lia|simpl in *; lia].
Qed.

(** C3. [Deallocate] of a block in use always returns, gives back exactly that
    block and keeps every other one; the invariant (no two adjacent free
    blocks) is restored. *)
Theorem Deallocate_refines m a n :
  wf m -> (a, n) ∈ busy (pool m) ->
  exists m', Deallocate a m = Some m' /\ wf m' /\ used m' = used m - size n /\
             busy (pool m') = om_erase a (busy (pool m)).
Proof.
  intros W Hb. destruct (Deallocate_busy m a n W Hb) as (m' & E & W' & U & _ & _ & B).
  by exists m'.
Qed.

Lemma memory_eq m m' :
  pool m = pool m' -> start m = start m' -> cur m = cur m' -> end_ m = end_ m' ->
  size_ m = size_ m' -> data m = data m' -> dataEnd m = dataEnd m' -> used m = used m' ->
  m = m'.
Proof. destruct m, m'. simpl. congruence. Qed.

(** The fields no operation on blocks touches. *)
Definition same_frame (m m' : memory) : Prop :=
  start m' = start m /\ cur m' = cur m /\ end_ m' = end_ m /\ size_ m' = size_ m /\
  data m' = data m /\ dataEnd m' = dataEnd m.

Lemma Allocate_frame required m a m' :
  Allocate required m = Some (a, m') -> same_frame m m'.
Proof.
  unfold Allocate, allocate_at, same_frame. destruct (FindBestFit _ _).
  - intros [= <- <-]. done.
  - destruct (_ && _); [|by intros [= <- <-]].
    destruct (TryDefragmentation _ _) as [[[] p']|]; simpl; [|by intros [= <- <-]|done].
    destruct (FindBestFit _ _); by intros [= <- <-].
Qed.

Lemma Deallocate_frame a m m' : Deallocate a m = Some m' -> same_frame m m'.
Proof.
  unfold Deallocate, same_frame. destruct (om_find a (pool m)); [|by intros [= <-]].
  destruct (MergeAdjacentNodes _ _ _); simpl; [|done]. by intros [= <-].
Qed.

(** Round trip: freeing a block just allocated restores the allocator to
    exactly the state before the allocation, whatever splits and merges the two
    calls perform. *)
Theorem Allocate_Deallocate_roundtrip m required a m' :
  wf m -> 0 <= required <= 2 ^ 64 - 4096 ->
  Allocate required m = Some (a, m') -> a <> -1 ->
  Deallocate a m' = Some m.
Proof.
  intros W Hr E Hne. pose proof (Allocate_frame _ _ _ _ E) as (F1 & F2 & F3 & F4 & F5 & F6).
  destruct (Allocate_cases m W required Hr)
    as [(k & n & m2 & HB & E2 & _ & _ & Had)|[_ E2]]; rewrite E2 in E; [|by injection E as <-].
  injection E as <- <-. destruct Had as (W' & U & _ & _ & B).
  destruct HB as (Hin & [Hf _] & _).
  destruct (Deallocate_busy m2 k (mkNode k (request_size required) 1) W')
    as (m3 & E3 & W3 & U3 & _ & _ & B3).
  { rewrite B. apply elem_of_om_insert. by left. }
  pose proof (Deallocate_frame _ _ _ E3) as (G1 & G2 & G3 & G4 & G5 & G6).
  rewrite E3. f_equal. apply memory_eq; try congruence; [|simpl in U3; lia].
  apply (canonical 0 (size_ m)); try apply W3; try apply W.
  - rewrite <- F4, <- G4. apply W3.
  - rewrite B3, B. apply om_erase_insert. by eapply busy_find_free.
Qed.

(** C4. Every run of calls from the constructor, with any arguments but a
    [BackwardAllocate] of size 0 and requests above 2^64 - 4096 (whose aligned
    size is 0), comes to its end in a state whose blocks tile the device memory,
    page aligned and no two neighbours free; frees of offsets no block has and
    second frees of a block are among the calls.  When no block is freed a second
    time, [used_size] is moreover the exact total of the blocks in use.  The calls
    left out do harm: see [BackwardAllocate_zero_corrupts] and
    [Deallocate_free_block_miscounts]. *)
Theorem mem_reachable_wf mem_addr mem_size data_ cs :
  0 < mem_size < 2 ^ 63 -> (MEMORY_ALIGNMENT | mem_size) -> Forall sized cs ->
  exists m, mem_run cs (new_memory mem_addr mem_size data_) = Some m /\
    tiles 0 (size_ m) (pool m) /\ coalesced (pool m) /\ aligned (pool m) /\
    (frees_once cs (new_memory mem_addr mem_size data_) ->
     wf m /\ used m = total (busy (pool m))).
Proof.
  intros Hs Hal Hc. pose proof (wf_new_memory mem_addr mem_size data_ Hs Hal) as W.
  destruct (mem_run_shaped cs _ (wf_shaped _ W) Hc) as (m & E & Sh). exists m.
  split; [done|]. split_and!; [apply Sh..|]. intros Hf.
  pose proof (mem_run_wf cs _ m W Hc Hf E) as W'. split; [done|apply W'].
Qed.

(** [MergeAllAdjacentFreeBlocks] terminates on any tiled pool and leaves a
    tiling of the same range with the same blocks in use and no two adjacent
    free blocks. *)
Theorem MergeAllAdjacentFreeBlocks_spec p sz :
  sz < 2 ^ 64 -> tiles 0 sz p -> aligned p ->
  exists p', MergeAllAdjacentFreeBlocks p = Some p' /\
    tiles 0 sz p' /\ coalesced p' /\ busy p' = busy p /\ find_adjacent p' = None.
Proof.
  intros Hsz Ht Hal.
  destruct (merge_all_loop_spec (S (length p)) 0 sz p) as (p' & E & Ht' & Hc & Hb & _);
    [lia|lia|done..|].
  exists p'. split; [done|]. repeat split; try done.
  apply (find_adjacent_None 0 sz p'); (done || lia).
Qed.

(** [BackwardAllocate(0)], which has no guard for a zero size, corrupts the
    pool when the only free block is followed by a block in use: it returns that
    block's offset and overwrites its size with 0. *)
Theorem BackwardAllocate_zero_corrupts m l1 k n k2 n2 l2 :
  wf m -> pool m = l1 ++ (k, n) :: (k2, n2) :: l2 ->
  free_entry (k, n) -> (forall x, x ∈ pool m -> free_entry x -> x = (k, n)) ->
  exists m', BackwardAllocate 0 m = Some (k2, m') /\ used m' = used m /\
    om_find k2 (pool m') = Some (mkNode k2 0 1) /\ ~ wf m'.
Proof.
  intros W Hp Hf Honly. pose proof (wf_size m W) as Hs.
  assert (AlignSize 0 = 0) as EA by reflexivity.
  pose proof (best_fit_scan 0 0 (size_ m) (pool m) (reverse (pool m))
    ltac:(lia) ltac:(lia) (wf_tiles m W) ltac:(intros; apply elem_of_reverse)) as HB.
  unfold BackwardAllocate. rewrite EA. cbv zeta.
  pose proof (wf_tiles m W) as Ht. rewrite Hp in Ht.
  pose proof Ht as (T1 & Hk & Hsz & _ & T2)%tiles_split. simpl in T2.
  destruct T2 as (-> & Hk2 & Hsz2 & Hst2 & T2).
  pose proof (tiles_le _ _ _ T1). pose proof (tiles_le _ _ _ T2).
  destruct (foldl _ _ _) as [[x|] bs]; simpl in HB |- *.
  - destruct HB as (Hin & [Hfx _] & _). assert (x = (k, n)) as -> by by apply Honly.
    unfold backward_at. simpl. rewrite Hk, (proj2 (Z.ltb_lt _ _)), Z.sub_0_r by lia.
    rewrite (uwrap_small 64 (size n)), (uwrap_small 64 (k + size n)), swrap_small by lia.
    eexists. split; [done|]. pose proof (tiles_om_split _ _ _ _ _ _ Ht) as Hsp.
    assert (om_split (k + size n) (l1 ++ [(k, mkNode k (size n) 0)]) l2) as Hsp2.
    { eapply (tiles_om_split 0 (size_ m) _ _ n2). rewrite <- app_assoc. simpl.
      apply tiles_split. simpl. repeat split; try done; lia. }
    assert (om_insert (k + size n) (mkNode (k + size n) 0 1)
              (om_insert k (mkNode k (size n) 0) (pool m))
            = (l1 ++ [(k, mkNode k (size n) 0)]) ++ (k + size n, mkNode (k + size n) 0 1) :: l2)
      as E.
    { rewrite Hp, om_insert_split by done. rewrite (cons_middle (k, _)), app_assoc.
      by apply om_insert_split. }
    simpl. rewrite E. split; [|split].
    + rewrite Z.add_0_r. apply uwrap_small. rewrite (wf_used m W).
      pose proof (busy_total_le _ _ _ (wf_tiles m W)). lia.
    + by apply om_find_split.
    + intros W'. pose proof (wf_tiles _ W') as Ht'. simpl in Ht'.
      apply tiles_split in Ht' as (_ & _ & Hbad & _). simpl in Hbad. lia.
  - exfalso. apply (HB (k, n)); [rewrite Hp; set_solver|]. split; [done|]. simpl. lia.
Qed.

(** A second [Deallocate] of an offset that is already free frees nothing
    but takes its size off the usage counter again (with 64-bit wrap-around), so
    the counter no longer is the size in use. *)
Theorem Deallocate_free_block_miscounts m a n :
  wf m -> (a, n) ∈ pool m -> free_entry (a, n) ->
  exists m', Deallocate a m = Some m' /\ pool m' = pool m /\
    used m' = u64 (used m - size n) /\ used m' <> used m /\ ~ wf m'.
Proof.
  intros W Hin Hf. pose proof (Deallocate_again m a n W Hin Hf) as E.
  apply list_elem_of_split in Hin as (l1 & l2 & Hp).
  pose proof (wf_tiles m W) as Ht. pose proof (wf_size m W) as Hs. rewrite Hp in Ht.
  pose proof Ht as (T1 & Ha & Hsz & _ & T2)%tiles_split.
  assert (u64 (used m - size n) <> used m) as Hu.
  { pose proof (busy_total_le _ _ _ (wf_tiles m W)). rewrite <- (wf_used m W) in *.
    pose proof (tiles_le _ _ _ T1). pose proof (tiles_le _ _ _ T2). unfold uwrap. intros Hu.
    pose proof (Z.div_mod (used m - size n) (2 ^ 64) ltac:(lia)) as D. rewrite Hu in D. nia. }
  eexists. split; [exact E|]. split_and!; try done. intros W'. apply Hu.
  pose proof (wf_used _ W') as U. simpl in U. by rewrite U, (wf_used m W).
Qed.

(** ** Witnesses *)

(** Sixteen free pages; the same with the first page in use; and a full device
    with one free page before a block in use. *)
Definition ex_empty : memory := new_memory 0 65536 0.
Definition ex_used : memory :=
  mkMemory [(0, mkNode 0 4096 1); (4096, mkNode 4096 61440 0)] 0 0 65536 65536 0 65536 4096.
Definition ex_hole : memory :=
  mkMemory [(0, mkNode 0 4096 1); (4096, mkNode 4096 4096 0); (8192, mkNode 8192 57344 1)]
    0 0 65536 65536 0 65536 61440.

Ltac solve_wf :=
  constructor; simpl;
  [ lia | repeat split; lia | unfold head_free, free_entry; simpl; intuition lia | reflexivity
  | unfold aligned; repeat constructor; apply Z.mod_divide; (done || reflexivity) ].

Lemma ex_empty_wf : wf ex_empty.
Proof. solve_wf. Qed.

Lemma ex_used_wf : wf ex_used.
Proof. solve_wf. Qed.

Lemma ex_hole_wf : wf ex_hole.
Proof. solve_wf. Qed.

Lemma Allocate_refines_witness :
  (exists k n m', best_fit 8192 (pool ex_used) (k, n) /\ Allocate 5000 ex_used = Some (k, m') /\
                  adds_block ex_used m' k 8192) \/
  ((forall x, x ∈ pool ex_used -> ~ fits 8192 x) /\
   Allocate 5000 ex_used = Some (-1, ex_used)).
Proof. exact (Allocate_refines ex_used 5000 ex_used_wf ltac:(lia)). Defined.

Lemma BackwardAllocate_refines_witness :
  (exists k n m', best_fit 8192 (pool ex_used) (k, n) /\
      BackwardAllocate 5000 ex_used = Some (k + size n - 8192, m') /\
      adds_block ex_used m' (k + size n - 8192) 8192) \/
  ((forall x, x ∈ pool ex_used -> ~ fits 8192 x) /\
   BackwardAllocate 5000 ex_used = Some (-1, ex_used)).
Proof. exact (BackwardAllocate_refines ex_used 5000 ex_used_wf ltac:(lia)). Defined.

Definition ex_after : memory :=
  mkMemory [(0, mkNode 0 4096 1); (4096, mkNode 4096 8192 1); (12288, mkNode 12288 53248 0)]
    0 0 65536 65536 0 65536 12288.

Lemma Allocate_disjoint_witness :
  (MEMORY_ALIGNMENT | 4096) /\ 0 <= 4096 /\ 5000 <= request_size 5000 /\
  4096 + request_size 5000 <= 65536 /\
  (forall k n, (k, n) ∈ busy (pool ex_used) ->
     (k + size n <= 4096 \/ 4096 + request_size 5000 <= k) /\ (k, n) ∈ busy (pool ex_after)).
Proof.
  apply (Allocate_disjoint ex_used 5000 4096 ex_after ex_used_wf); [lia|reflexivity|lia].
Defined.

Lemma Deallocate_refines_witness :
  exists m', Deallocate 0 ex_used = Some m' /\ wf m' /\ used m' = 0 /\
             busy (pool m') = om_erase 0 (busy (pool ex_used)).
Proof.
  apply (Deallocate_refines ex_used 0 (mkNode 0 4096 1) ex_used_wf).
  apply list_elem_of_here.
Defined.

Lemma Allocate_Deallocate_roundtrip_witness : Deallocate 4096 ex_after = Some ex_used.
Proof.
  apply (Allocate_Deallocate_roundtrip ex_used 5000 4096 ex_after ex_used_wf);
    [lia|reflexivity|lia].
Defined.

(** A block allocated at each end, the first freed; then the same with the
    block freed again, which the counter shows. *)
Definition ex_calls : list mem_call :=
  [CAllocate 100; CBackwardAllocate 5000; CDeallocate 0; CCompactMemory].

Lemma mem_reachable_wf_witness :
  exists m, mem_run ex_calls ex_empty = Some m /\ wf m /\ used m = 8192 /\
    exists m2, mem_run (ex_calls ++ [CDeallocate 0]) ex_empty = Some m2 /\
      coalesced (pool m2) /\ used m2 = u64 (8192 - 57344).
Proof.
  destruct (mem_reachable_wf 0 65536 0 ex_calls) as (m & E & _ & _ & _ & Hw);
    [lia|by apply Z.mod_divide|repeat constructor; simpl; lia|].
  destruct (mem_reachable_wf 0 65536 0 (ex_calls ++ [CDeallocate 0]))
    as (m2 & E2 & _ & C2 & _); [lia|by apply Z.mod_divide|repeat constructor; simpl; lia|].
  vm_compute in E. injection E as <-. vm_compute in E2. injection E2 as <-.
  eexists. split; [vm_compute; reflexivity|]. split; [|split; [reflexivity|]].
  - apply Hw. vm_compute. tauto.
  - eexists. split; [vm_compute; reflexivity|]. split; [exact C2|reflexivity].
Defined.

Lemma MergeAllAdjacentFreeBlocks_spec_witness :
  exists p', MergeAllAdjacentFreeBlocks
      [(0, mkNode 0 4096 0); (4096, mkNode 4096 4096 0); (8192, mkNode 8192 4096 1)] = Some p' /\
    tiles 0 12288 p' /\ coalesced p' /\
    busy p' = busy [(0, mkNode 0 4096 0); (4096, mkNode 4096 4096 0); (8192, mkNode 8192 4096 1)] /\
    find_adjacent p' = None.
Proof.
  apply MergeAllAdjacentFreeBlocks_spec.
  - lia.
  - simpl. repeat split; lia.
  - unfold aligned. repeat constructor; apply Z.mod_divide; (done || reflexivity).
Defined.

Lemma BackwardAllocate_zero_corrupts_witness :
  exists m', BackwardAllocate 0 ex_hole = Some (8192, m') /\ used m' = used ex_hole /\
    om_find 8192 (pool m') = Some (mkNode 8192 0 1) /\ ~ wf m'.
Proof.
  apply (BackwardAllocate_zero_corrupts ex_hole [(0, mkNode 0 4096 1)] 4096 (mkNode 4096 4096 0)
           8192 (mkNode 8192 57344 1) []); [apply ex_hole_wf|reflexivity|reflexivity|].
  intros x Hx Hf. simpl in Hx.
  repeat (apply elem_of_cons in Hx as [->|Hx]; [try done; discriminate Hf|]).
  by apply elem_of_nil in Hx.
Defined.

Lemma Deallocate_free_block_miscounts_witness :
  exists m', Deallocate 4096 ex_used = Some m' /\ pool m' = pool ex_used /\
    used m' = u64 (used ex_used - 61440) /\ used m' <> used ex_used /\ ~ wf m'.
Proof.
  apply (Deallocate_free_block_miscounts ex_used 4096 (mkNode 4096 61440 0) ex_used_wf).
  - apply list_elem_of_further, list_elem_of_here.
  - reflexivity.
Defined.
