(* ===== verification/AllocatorClass.v ===== *)
(** * The interface of a device allocator

    What [MemoryService] relies on: the operations it calls on
    [dxrt::Memory] and the laws they obey, stated on the set of offsets in use.
    [MemoryInstance] shows that [Memory] satisfies them. *)

From Stdlib Require Import ZArith Lia Floats.SpecFloat.
From S2P Require Import Prelude.

Class AllocOps (A : Type) := {
  da_new : Z -> Z -> A;                          (** start address and size *)
  da_allocate : Z -> A -> option (Z * A);
  da_backward_allocate : Z -> A -> option (Z * A);
  da_deallocate : Z -> A -> option A;
  da_can_allocate : Z -> A -> bool;
  da_fragmentation : A -> spec_float;
  da_compact : A -> option A;
  da_free_size : A -> Z;
  da_used_size : A -> Z
}.

(** The largest size the page rounding accepts. *)
Definition max_request : Z := 2 ^ 64 - 4096.

(** What an allocation call may do to the set of offsets in use. *)
Definition alloc_effect (live live' : gset Z) (r : Z) : Prop :=
  (r = -1 /\ live' = live) \/
  (0 <= r < 2 ^ 63 /\ r ∉ live /\ live' = {[r]} ∪ live).

Class AllocLaws (A : Type) `{!AllocOps A} := {
  da_ok : A -> Prop;
  da_live : A -> gset Z;
  da_live_range m k : da_ok m -> k ∈ da_live m -> 0 <= k < 2 ^ 63;
  da_allocate_law m size :
    da_ok m -> 0 <= size <= max_request ->
    exists r m', da_allocate size m = Some (r, m') /\ da_ok m' /\
                 alloc_effect (da_live m) (da_live m') r;
  da_backward_law m size :
    da_ok m -> 0 < size <= max_request ->
    exists r m', da_backward_allocate size m = Some (r, m') /\ da_ok m' /\
                 alloc_effect (da_live m) (da_live m') r;
  da_deallocate_law m k :
    da_ok m -> k ∈ da_live m ->
    exists m', da_deallocate k m = Some m' /\ da_ok m' /\ da_live m' = da_live m ∖ {[k]};
  da_compact_law m :
    da_ok m -> exists m', da_compact m = Some m' /\ da_ok m' /\ da_live m' = da_live m;
  da_can_allocate_law m size : da_ok m -> da_can_allocate size m = true -> size <= max_request
}.

(** Freeing a list of distinct offsets in use. *)
Definition da_deallocate_all {A} `{!AllocOps A} (l : list Z) (m : A) : option A :=
  foldl (fun om k => m ← om; da_deallocate k m) (Some m) l.

Lemma foldl_bind_cons {A B} (f : A -> B -> option B) x l m :
  foldl (fun om k => m ← om; f k m) (Some m) (x :: l) =
  (m' ← f x m; foldl (fun om k => m ← om; f k m) (Some m') l).
Proof.
  simpl. destruct (f x m) as [m'|]; simpl; [done|].
  induction l as [|y l IH]; simpl; [done|exact IH].
Qed.

Lemma da_deallocate_all_law {A} `{AllocLaws A} l m :
  da_ok m -> NoDup l -> (forall k, k ∈ l -> k ∈ da_live m) ->
  exists m', da_deallocate_all l m = Some m' /\ da_ok m' /\
             da_live m' = da_live m ∖ list_to_set l.
Proof.
  intros Hok Hnd. revert m Hok. induction Hnd as [|x l Hx Hnd IH]; intros m Hok Hl.
  - exists m. split; [done|]. split; [done|]. simpl. set_solver.
  - destruct (da_deallocate_law m x Hok) as (m1 & E1 & Hok1 & L1); [apply Hl; set_solver|].
    destruct (IH m1 Hok1) as (m2 & E2 & Hok2 & L2).
    { intros k Hk. rewrite L1. specialize (Hl k). set_solver. }
    exists m2. split; [|split; [done|]].
    + unfold da_deallocate_all. rewrite foldl_bind_cons, E1. exact E2.
    + rewrite L2, L1. simpl. set_solver.
Qed.
