(* ===== verification/MemoryInstance.v ===== *)
(** * [Memory] is a device allocator *)

From Stdlib Require Import ZArith Lia.
From S2P Require Import Prelude OrdMap Memory MemoryInv MemoryOps MemorySpec AllocatorClass.
Import Memory.

#[export] Instance memory_alloc_ops : AllocOps memory := {
  da_new := fun s sz => new_memory s sz 0;
  da_allocate := Allocate;
  da_backward_allocate := BackwardAllocate;
  da_deallocate := Deallocate;
  da_can_allocate := CanAllocateContiguous;
  da_fragmentation := fun m => fragmentation_ratio (GetFragmentationInfoNoLock (pool m));
  da_compact := CompactMemory;
  da_free_size := free_size;
  da_used_size := used_size
}.

(** The offsets in use. *)
Definition live (m : memory) : gset Z := list_to_set (busy (pool m)).*1.

Lemma elem_of_live m k : k ∈ live m <-> exists n, (k, n) ∈ busy (pool m).
Proof.
  unfold live. rewrite elem_of_list_to_set, list_elem_of_fmap. split.
  - intros ([k' n] & -> & H). by exists n.
  - intros [n H]. by exists (k, n).
Qed.

Lemma live_range m k : wf m -> k ∈ live m -> 0 <= k < 2 ^ 63.
Proof.
  intros W [n Hb]%elem_of_live. apply elem_of_busy in Hb as [Hin _].
  pose proof (tiles_bounds _ _ _ (wf_tiles m W)) as F. rewrite Forall_forall in F.
  specialize (F _ Hin). pose proof (wf_size m W). simpl in F. lia.
Qed.

Lemma om_insert_keys {V} k (v : V) m x :
  x ∈ (om_insert k v m).*1 <-> x = k \/ x ∈ m.*1.
Proof.
  induction m as [|[k' v'] m IH]; simpl; [set_solver|].
  destruct (k <? k'); [set_solver|]. destruct (Z.eqb_spec k k') as [->|]; simpl; set_solver.
Qed.

Lemma adds_block_effect m m' a r :
  adds_block m m' a r -> 0 <= a < 2 ^ 63 -> om_find a (busy (pool m)) = None ->
  alloc_effect (live m) (live m') a.
Proof.
  intros (_ & _ & _ & _ & B) Ha Hn. right. split; [done|]. split.
  - intros [n Hin]%elem_of_live. by apply (om_find_None _ n) in Hn.
  - unfold live. rewrite B. apply set_eq. intros x.
    rewrite elem_of_union, elem_of_singleton, !elem_of_list_to_set. apply om_insert_keys.
Qed.

Lemma busy_sorted m : wf m -> om_sorted (busy (pool m)).
Proof.
  intros W. pose proof (tiles_sorted _ _ _ (wf_tiles m W)) as S.
  induction (pool m) as [|[k n] p IH]; [constructor|].
  apply om_sorted_cons in S as [F S]. destruct (decide (free_entry (k, n))).
  - rewrite busy_cons_free by done. auto.
  - rewrite busy_cons_busy by done. apply om_sorted_cons. split; [|auto].
    apply Forall_forall. intros x [_ Hx]%list_elem_of_filter.
    rewrite Forall_forall in F. auto.
Qed.

Lemma om_erase_keys {V} k (m : omap V) x :
  om_sorted m -> x ∈ (om_erase k m).*1 <-> x ∈ m.*1 /\ x <> k.
Proof.
  intros S. induction m as [|[k' v'] m IH]; simpl; [set_solver|].
  apply om_sorted_cons in S as [F S]. destruct (Z.eqb_spec k k') as [->|].
  - rewrite elem_of_cons. split; [|naive_solver]. intros Hx. split; [by right|].
    apply list_elem_of_fmap in Hx as (e & -> & He). rewrite Forall_forall in F.
    specialize (F e He). lia.
  - simpl. rewrite !elem_of_cons, IH by done. naive_solver.
Qed.

(** The offset of a new block is the key of no block in use. *)
Lemma carved_fresh m k n a r :
  wf m -> (k, n) ∈ pool m -> free_entry (k, n) -> 0 < r -> k <= a -> a + r <= k + size n ->
  om_find a (busy (pool m)) = None.
Proof.
  intros W Hin Hf Hr Hk Hk'. destruct (om_find a (busy (pool m))) as [v|] eqn:E; [|done].
  exfalso. apply om_find_inv in E as (l1 & l2 & E).
  assert ((a, v) ∈ busy (pool m)) as Hb by (rewrite E; set_solver).
  apply elem_of_busy in Hb as [Hb Hnf].
  assert (a <> k) as Hne.
  { intros ->. pose proof (busy_find_free m k n W Hin Hf) as Hn.
    apply (om_find_None _ v) in Hn. rewrite elem_of_busy in Hn. tauto. }
  pose proof (tiles_bounds _ _ _ (wf_tiles m W)) as F. rewrite Forall_forall in F.
  pose proof (F _ Hb) as Fb. simpl in Fb.
  destruct (tiles_disjoint 0 (size_ m) (pool m) (a, v) (k, n)) as [D|D];
    try done; [apply W|simpl in D; lia|simpl in D; lia].
Qed.

(** No free block is larger than the device. *)
Lemma CanAllocateContiguous_fits m size :
  wf m -> CanAllocateContiguous size m = true -> size <= max_request.
Proof.
  intros W. unfold CanAllocateContiguous, max_request.
  rewrite existsb_exists. intros ([k n] & Hin%list_elem_of_In & [_ Hs]%andb_true_iff).
  pose proof (tiles_bounds _ _ _ (wf_tiles m W)) as F. rewrite Forall_forall in F.
  apply F in Hin. pose proof (wf_size m W). apply Z.leb_le in Hs. simpl in *. lia.
Qed.

#[export] Instance memory_alloc_laws : AllocLaws memory.
Proof.
  refine {| da_ok := wf; da_live := live |}.
  - apply live_range.
  - intros m size W Hs. destruct (Allocate_cases m W size Hs)
      as [(k & n & m' & (Hin & [Hf Hfit] & _) & E & Hk & Hk2 & Had)|[_ E]].
    + exists k, m'. split; [done|]. split; [apply Had|].
      pose proof (wf_size m W). destruct (request_size_bounds size Hs) as (_ & Hpos & _).
      apply (adds_block_effect m m' k (request_size size)); [done|lia|].
      by eapply busy_find_free.
    + exists (-1), m. split; [done|]. split; [done|]. by left.
  - intros m size W Hs. destruct (BackwardAllocate_cases m W size Hs)
      as [(k & n & a & m' & (Hin & [Hf Hfit] & _) & Ea & E & Hk & Hk2 & Had)|[_ E]].
    + exists a, m'. split; [done|]. split; [apply Had|].
      pose proof (wf_size m W). unfold max_request in Hs.
      destruct (AlignSize_bounds size) as (Hb & _); [lia|].
      simpl in Hfit. apply (adds_block_effect m m' a (AlignSize size)); [done|lia|].
      apply (carved_fresh m k n a (AlignSize size)); auto; lia.
    + exists (-1), m. split; [done|]. split; [done|]. by left.
  - intros m k W [n Hb]%elem_of_live.
    destruct (Deallocate_busy m k n W Hb) as (m' & E & W' & _ & _ & _ & B).
    exists m'. split; [done|]. split; [done|]. unfold live. rewrite B. apply set_eq. intros x.
    rewrite elem_of_difference, elem_of_singleton, !elem_of_list_to_set.
    apply om_erase_keys. by apply busy_sorted.
  - intros m W. exists m. split; [by apply CompactMemory_wf|]. done.
  - intros m size W. apply CanAllocateContiguous_fits, W.
Defined.
