(* ===== verification/MemoryService.v ===== *)
(** * Ownership of device memory: definitions

    [lib/dxrt_service/memory_service.cpp], class [MemoryService]: one object
    per device, which records the process, and the task of the process, every
    block of the device belongs to.  Two tables are kept, blocks allocated for
    a process ([_legacyAllocInfo]) and blocks allocated for a task of a process
    ([_taskAllocInfo]).  The allocator underneath is the interface
    [AllocOps].  Addresses are 64-bit unsigned; a failed allocation
    returns [static_cast<uint64_t>(-1)]. *)

From Stdlib Require Import ZArith Lia Floats.SpecFloat.
From S2P Require Import Prelude Memory AllocatorClass.

Module MemoryService.

(** [std::map<int, std::set<uint64_t>>]: the blocks of each task. *)
Abbreviation task_map := (gmap Z (gset Z)).

(** [static_cast<uint64_t>(-1)] *)
Definition NO_ADDRESS : Z := u64 (-1).

Section Service.
Context {A : Type} `{!AllocOps A}.

Record service := mkService {
  mem : A;
  legacy : gmap Z (gset Z);
  tasks : gmap Z task_map;
  deviceId : Z
}.

Definition set_mem (s : service) (m : A) : service :=
  mkService m (legacy s) (tasks s) (deviceId s).

(** The constructor [MemoryService(start, size)] and the device id set after it. *)
Definition new_service (start size id : Z) : service :=
  mkService (da_new start size) ∅ ∅ id.

(** [_legacyAllocInfo[pid].insert(addr)] *)
Definition track_legacy (pid a : Z) (s : service) : service :=
  mkService (mem s) (<[pid := {[a]} ∪ default ∅ (legacy s !! pid)]> (legacy s))
    (tasks s) (deviceId s).

(** [_taskAllocInfo[pid][taskId].insert(addr)] *)
Definition track_task (pid t a : Z) (s : service) : service :=
  let tm := default ∅ (tasks s !! pid) in
  mkService (mem s) (legacy s)
    (<[pid := <[t := {[a]} ∪ default ∅ (tm !! t)]> tm]> (tasks s)) (deviceId s).

(** The pre-check shared by the four allocation entry points. *)
Definition too_fragmented (size : Z) (s : service) : bool :=
  (Memory.LARGE_ALLOCATION_THRESHOLD <? size) && negb (da_can_allocate size (mem s)).

(** The four entry points differ in the allocator call and in the table. *)
Definition allocate_with (alloc : Z -> A -> option (Z * A)) (track : Z -> service -> service)
    (size : Z) (s : service) : option (Z * service) :=
  if too_fragmented size s then mret (NO_ADDRESS, s)
  else
    '(r, m') ← alloc size (mem s);
    let addr := u64 r in
    mret (addr, if addr =? NO_ADDRESS then set_mem s m' else track addr (set_mem s m')).

Definition Allocate (size pid : Z) : service -> option (Z * service) :=
  allocate_with da_allocate (track_legacy pid) size.

Definition BackwardAllocate (size pid : Z) : service -> option (Z * service) :=
  allocate_with da_backward_allocate (track_legacy pid) size.

Definition AllocateForTask (size pid taskId : Z) : service -> option (Z * service) :=
  allocate_with da_allocate (track_task pid taskId) size.

Definition BackwardAllocateForTask (size pid taskId : Z) : service -> option (Z * service) :=
  allocate_with da_backward_allocate (track_task pid taskId) size.

(** [pidIt->second.erase(taskIt)] and the erasure of a process left without
    tasks. *)
Definition erase_task (pid t : Z) (tm : task_map) (ts : gmap Z task_map) : gmap Z task_map :=
  let tm' := delete t tm in
  if decide (tm' = ∅) then delete pid ts else <[pid := tm']> ts.

(** The first task, in the order of the map, that holds [addr]. *)
Definition task_of (addr : Z) (tm : task_map) : option (Z * gset Z) :=
  t ← list_find (fun t => addr ∈ default ∅ (tm !! t)) (keys tm);
  mret (t.2, default ∅ (tm !! t.2)).

Definition DeallocateAddress (addr pid : Z) (s : service) : option (bool * service) :=
  if decide (addr ∈ default ∅ (legacy s !! pid)) then
    m' ← da_deallocate addr (mem s);
    mret (true,
      mkService m' (<[pid := default ∅ (legacy s !! pid) ∖ {[addr]}]> (legacy s))
        (tasks s) (deviceId s))
  else
    match tasks s !! pid with
    | None => mret (false, s)
    | Some tm =>
        match task_of addr tm with
        | None => mret (false, s)
        | Some (t, set) =>
            m' ← da_deallocate addr (mem s);
            let set' := set ∖ {[addr]} in
            mret (true,
              mkService m' (legacy s)
                (if decide (set' = ∅) then erase_task pid t tm (tasks s)
                 else <[pid := <[t := set']> tm]> (tasks s)) (deviceId s))
        end
    end.

Definition Deallocate (addr pid : Z) : service -> option (bool * service) :=
  DeallocateAddress addr pid.

(** Every address of a process's tasks, in the order of the two loops. *)
Definition task_addrs (tm : task_map) : list Z :=
  mbind (fun t => asc (default ∅ (tm !! t))) (keys tm).

(** The task-based half of a process cleanup; also [DeallocateAllTasks]. *)
Definition DeallocateAllTasks (pid : Z) (s : service) : option service :=
  match tasks s !! pid with
  | None => mret s
  | Some tm =>
      m' ← da_deallocate_all (task_addrs tm) (mem s);
      mret (mkService m' (legacy s) (delete pid (tasks s)) (deviceId s))
  end.

(** The pid-based half of a process cleanup. *)
Definition deallocate_legacy (pid : Z) (s : service) : option service :=
  match legacy s !! pid with
  | None => mret s
  | Some set =>
      m' ← da_deallocate_all (asc set) (mem s);
      mret (mkService m' (delete pid (legacy s)) (tasks s) (deviceId s))
  end.

Definition DeallocateAll (pid : Z) (s : service) : option service :=
  s1 ← DeallocateAllTasks pid s;
  deallocate_legacy pid s1.

Definition DeallocateAllForProcess (pid : Z) (s : service) : option (bool * service) :=
  s1 ← DeallocateAllTasks pid s;
  s2 ← deallocate_legacy pid s1;
  mret (bool_decide (is_Some (tasks s !! pid)) || bool_decide (is_Some (legacy s !! pid)), s2).

Definition DeallocateTask (pid taskId : Z) (s : service) : option (bool * service) :=
  match tasks s !! pid with
  | None => mret (false, s)
  | Some tm =>
      match tm !! taskId with
      | None => mret (false, s)
      | Some set =>
          if decide (set = ∅) then
            mret (true, mkService (mem s) (legacy s) (erase_task pid taskId tm (tasks s))
                          (deviceId s))
          else
            let addrs := List.filter (fun a => negb (a =? NO_ADDRESS)) (asc set) in
            m' ← da_deallocate_all addrs (mem s);
            mret (true, mkService m' (legacy s) (erase_task pid taskId tm (tasks s)) (deviceId s))
      end
  end.

(** The result, and whether a missing task or process was logged as an error. *)
Definition IsTaskValid (pid taskId : Z) (s : service) : bool * bool :=
  match tasks s !! pid with
  | None => (false, true)
  | Some tm => (true, bool_decide (tm !! taskId = None))
  end.

Definition OptimizeMemory (s : service) : option service :=
  if SFltb Memory.LOW_FRAGMENTATION_THRESHOLD (da_fragmentation (mem s)) then
    m' ← da_compact (mem s);
    mret (set_mem s m')
  else mret s.

Definition free_size (s : service) : Z := da_free_size (mem s).
Definition used_size (s : service) : Z := da_used_size (mem s).

(** [_instances], one service per device. *)
Abbreviation instances := (list service).

(** What [ServiceDevice::CheckServiceDevices] reports of a device. *)
Record device_desc := mkDevice { dev_id : Z; mem_addr : Z; mem_size : Z }.

(** [getInstance]: the list is filled on the first call; [None] is the
    assertion on the memory size, an inner [None] is [nullptr]. *)
Definition getInstance (devices : list device_desc) (id : Z) (l : instances)
    : option (option service * instances) :=
  l' ← (match l with
        | [] =>
            mapM (fun d => guard (1024 * 1024 <= mem_size d);;
                           mret (new_service (mem_addr d) (mem_size d) (dev_id d))) devices
        | _ => Some l
        end);
  mret (if (u64 (Z.of_nat (length l')) <=? u64 id) || (id <? 0) then None
        else l' !! Z.to_nat id, l').

Definition DeallocateAllDevice (pid : Z) (l : instances) : option instances :=
  mapM (DeallocateAll pid) l.

End Service.
Arguments service : clear implicits.

End MemoryService.
