(* ===== verification/MemoryServiceSpec.v ===== *)
(** * Ownership of device memory: theorems

    The abstract state of a service is the set of addresses each owner holds,
    an owner being a process alone or a process and one of its tasks.  Proved
    against the interface [AllocLaws], so for any allocator that meets it, and
    applied to [Memory] through [MemoryInstance]. *)

From Stdlib Require Import ZArith Lia.
From S2P Require Import Prelude Memory AllocatorClass MemoryService.
Import MemoryService.

Lemma NO_ADDRESS_eq : NO_ADDRESS = 2 ^ 64 - 1.
Proof. reflexivity. Qed.

Section Spec.
Context {A : Type} `{AllocLaws A}.
Implicit Types (s : service A) (p a : Z) (o : option Z).

(** The addresses held by process [p], for task [t] when [o = Some t]. *)
Definition held s p o : gset Z :=
  match o with
  | None => default ∅ (legacy s !! p)
  | Some t => default ∅ (default ∅ (tasks s !! p) !! t)
  end.

(** The blocks in use are exactly the held ones, each by one owner, and the
    task table keeps no empty entry. *)
Record svc_ok s : Prop := {
  ok_mem : da_ok (mem s);
  ok_live a : a ∈ da_live (mem s) <-> exists p o, a ∈ held s p o;
  ok_owner a p1 o1 p2 o2 : a ∈ held s p1 o1 -> a ∈ held s p2 o2 -> p1 = p2 /\ o1 = o2;
  ok_tasks p tm : tasks s !! p = Some tm -> tm <> ∅;
  ok_sets p tm t S : tasks s !! p = Some tm -> tm !! t = Some S -> S <> ∅
}.

(** The tables change only in what is held, and keep no empty entry. *)
Definition no_empty (ts : gmap Z task_map) : Prop :=
  forall p tm, ts !! p = Some tm -> tm <> ∅ /\ forall t S, tm !! t = Some S -> S <> ∅.

Lemma svc_no_empty s : svc_ok s -> no_empty (tasks s).
Proof. intros O p tm E. split; [by eapply ok_tasks|intros; by eapply ok_sets]. Qed.

Lemma held_range s p o a : svc_ok s -> a ∈ held s p o -> 0 <= a < 2 ^ 63.
Proof.
  intros O Ha. apply (da_live_range (mem s)); [apply O|]. apply (ok_live s O). eauto.
Qed.

(** Adding one fresh address to one owner. *)
Lemma svc_ok_add s s' p o a :
  svc_ok s -> no_empty (tasks s') -> da_ok (mem s') ->
  a ∉ da_live (mem s) -> da_live (mem s') = {[a]} ∪ da_live (mem s) ->
  held s' p o = {[a]} ∪ held s p o ->
  (forall p' o', (p', o') <> (p, o) -> held s' p' o' = held s p' o') ->
  svc_ok s'.
Proof.
  intros O NE Hm Hfresh Hl Hp Hq.
  assert (forall p' o' x, x ∈ held s' p' o' <->
            x ∈ held s p' o' \/ (x = a /\ p' = p /\ o' = o)) as HH.
  { intros p' o' x. destruct (decide ((p', o') = (p, o))) as [[= -> ->]|Hne].
    - rewrite Hp. set_solver.
    - rewrite Hq by done. naive_solver. }
  assert (forall p' o', a ∉ held s p' o') as Hna.
  { intros p' o' Hx. apply Hfresh, (ok_live s O). eauto. }
  split; [done| | |intros; by eapply NE|intros; by eapply NE].
  - intros x. rewrite Hl, elem_of_union, elem_of_singleton, (ok_live s O).
    setoid_rewrite HH. naive_solver.
  - intros x p1 o1 p2 o2 [H1|(-> & -> & ->)]%HH [H2|(E & -> & ->)]%HH; subst; try done.
    + by eapply ok_owner.
    + by apply Hna in H1.
    + by apply Hna in H2.
Qed.

(** Removing a set of addresses from the owners that hold them. *)
Lemma svc_ok_remove s s' (D : gset Z) :
  svc_ok s -> no_empty (tasks s') -> da_ok (mem s') ->
  da_live (mem s') = da_live (mem s) ∖ D ->
  (forall p o, held s' p o = held s p o ∖ D) -> svc_ok s'.
Proof.
  intros O NE Hm Hl Hh. split; [done| | |intros; by eapply NE|intros; by eapply NE].
  - intros x. rewrite Hl, elem_of_difference, (ok_live s O). setoid_rewrite Hh. set_solver.
  - intros x p1 o1 p2 o2. rewrite !Hh. intros [H1 _]%elem_of_difference [H2 _]%elem_of_difference.
    by eapply ok_owner.
Qed.

(** What one owner holds is nobody else's. *)
Lemma held_other s p o p' o' D :
  svc_ok s -> D ⊆ held s p o -> (p', o') <> (p, o) -> held s p' o' ∖ D = held s p' o'.
Proof.
  intros O HD Hne. apply set_eq. intros x. rewrite elem_of_difference. split; [by intros [? _]|].
  intros Hx. split; [done|]. intros Hd. apply HD in Hd.
  destruct (ok_owner s O x p' o' p o Hx Hd) as [-> ->]. done.
Qed.

(** ** Allocation *)

(** Calls that only differ in the table they record the block in. *)
Definition tracks (track : Z -> service A -> service A) p o : Prop :=
  forall a s, mem (track a s) = mem s /\
    held (track a s) p o = {[a]} ∪ held s p o /\
    (forall p' o', (p', o') <> (p, o) -> held (track a s) p' o' = held s p' o') /\
    (no_empty (tasks s) -> no_empty (tasks (track a s))).

Lemma tracks_legacy p : tracks (track_legacy p) p None.
Proof.
  intros a s. split; [done|]. split; [by simpl; rewrite lookup_insert_eq|]. split; [|done].
  intros p' [t|] Hne; simpl; [done|]. rewrite lookup_insert_ne by naive_solver. done.
Qed.

Lemma tracks_task p t : tracks (track_task p t) p (Some t).
Proof.
  intros a s. split; [done|]. split; [|split].
  - simpl. rewrite lookup_insert_eq. simpl. by rewrite lookup_insert_eq.
  - intros p' [t'|] Hne; simpl; [|done]. destruct (decide (p' = p)) as [->|].
    + rewrite lookup_insert_eq. simpl. rewrite lookup_insert_ne by naive_solver. done.
    + by rewrite lookup_insert_ne.
  - intros NE p' tm. simpl. destruct (decide (p' = p)) as [->|].
    + rewrite lookup_insert_eq. intros [= <-]. split; [apply insert_non_empty|].
      intros t' S. destruct (decide (t' = t)) as [->|].
      * rewrite lookup_insert_eq. intros [= <-]. set_solver.
      * rewrite lookup_insert_ne by done. destruct (tasks s !! p) as [tm|] eqn:E; simpl; [|done].
        by apply (proj2 (NE p tm E) t').
    + rewrite lookup_insert_ne by done. apply NE.
Qed.

(** The contract of an allocator call. *)
Definition alloc_contract (alloc : Z -> A -> option (Z * A)) size : Prop :=
  forall m, da_ok m -> exists r m', alloc size m = Some (r, m') /\ da_ok m' /\
                             alloc_effect (da_live m) (da_live m') r.

Lemma allocate_with_spec alloc track p o size s :
  alloc_contract alloc size -> tracks track p o -> svc_ok s ->
  exists r s', allocate_with alloc track size s = Some (r, s') /\ svc_ok s' /\
    ((r = NO_ADDRESS /\ forall p' o', held s' p' o' = held s p' o') \/
     (r ∉ da_live (mem s) /\ held s' p o = {[r]} ∪ held s p o /\
      forall p' o', (p', o') <> (p, o) -> held s' p' o' = held s p' o')).
Proof.
  intros HA HT O. unfold allocate_with. destruct (too_fragmented size s).
  { exists NO_ADDRESS, s. split; [done|]. split; [done|]. by left. }
  destruct (HA (mem s) (ok_mem s O)) as (r & m' & E & Hm & [[-> Hl]|(Hr & Hf & Hl)]);
    rewrite E; simpl.
  - exists NO_ADDRESS, (set_mem s m'). split; [done|]. split; [|by left].
    apply (svc_ok_remove s _ ∅); simpl; [done|by apply svc_no_empty|done| |].
    + rewrite Hl. set_solver.
    + intros p' o'. change (held (set_mem s m') p' o') with (held s p' o'). set_solver.
  - rewrite (uwrap_small 64 r) by lia. unfold NO_ADDRESS.
    destruct (Z.eqb_spec r (u64 (-1))) as [E2|_]; [vm_compute in E2; lia|].
    destruct (HT r (set_mem s m')) as (T1 & T2 & T3 & T4). simpl in T1.
    exists r, (track r (set_mem s m')). split; [done|]. split; [|right].
    + apply (svc_ok_add s _ p o r); rewrite ?T1; try done.
      apply T4. exact (svc_no_empty s O).
    + split; [done|]. split; [exact T2|exact T3].
Qed.

(** ** Deallocation *)

(** One owner gives up the addresses [D]. *)
Lemma svc_ok_release s s' p o D :
  svc_ok s -> D ⊆ held s p o -> no_empty (tasks s') -> da_ok (mem s') ->
  da_live (mem s') = da_live (mem s) ∖ D -> held s' p o = held s p o ∖ D ->
  (forall p' o', (p', o') <> (p, o) -> held s' p' o' = held s p' o') ->
  svc_ok s' /\ forall p' o', held s' p' o' = held s p' o' ∖ D.
Proof.
  intros O HD NE Hm Hl Hp Hq.
  assert (forall p' o', held s' p' o' = held s p' o' ∖ D) as HH.
  { intros p' o'. destruct (decide ((p', o') = (p, o))) as [[= -> ->]|Hne]; [done|].
    rewrite Hq by done. by rewrite (held_other s p o). }
  split; [|done]. by apply (svc_ok_remove s s' D).
Qed.

(** The task table once the addresses of one task are replaced. *)
Definition set_task p t (S : gset Z) (tm : task_map) (ts : gmap Z task_map) : gmap Z task_map :=
  if decide (S = ∅) then erase_task p t tm ts else <[p := <[t := S]> tm]> ts.

Lemma set_task_lookup_eq p t S tm ts :
  ts !! p = Some tm -> default ∅ (default ∅ (set_task p t S tm ts !! p) !! t) = S.
Proof.
  intros E. unfold set_task, erase_task. destruct (decide (S = ∅)) as [->|_].
  - destruct (decide (delete t tm = ∅)).
    + by rewrite lookup_delete_eq.
    + by rewrite lookup_insert_eq; simpl; rewrite lookup_delete_eq.
  - by rewrite lookup_insert_eq; simpl; rewrite lookup_insert_eq.
Qed.

Lemma set_task_lookup_ne p t S tm ts p' t' :
  ts !! p = Some tm -> (p', t') <> (p, t) ->
  default ∅ (default ∅ (set_task p t S tm ts !! p') !! t') =
  default ∅ (default ∅ (ts !! p') !! t') :> gset Z.
Proof.
  intros E Hne. unfold set_task, erase_task. destruct (decide (p' = p)) as [->|Hp].
  - rewrite E. simpl. assert (t <> t') as Ht by congruence.
    destruct (decide (S = ∅)) as [->|_]; [|by rewrite lookup_insert_eq; simpl; rewrite lookup_insert_ne].
    rewrite <- (lookup_delete_ne tm t t') by done.
    destruct (decide (delete t tm = ∅)) as [->|].
    + by rewrite lookup_delete_eq.
    + by rewrite lookup_insert_eq.
  - destruct (decide (S = ∅)); [destruct (decide (delete t tm = ∅))|];
      by rewrite ?lookup_delete_ne, ?lookup_insert_ne.
Qed.

Lemma set_task_no_empty p t S tm ts :
  no_empty ts -> ts !! p = Some tm -> no_empty (set_task p t S tm ts).
Proof.
  intros NE E p' tm'. unfold set_task, erase_task. destruct (decide (S = ∅)).
  - destruct (decide (delete t tm = ∅)) as [Hd|Hd].
    + intros [_ Hl]%lookup_delete_Some. by apply (NE p' tm').
    + intros [[-> <-]|[_ Hl]]%lookup_insert_Some; [|by apply (NE p' tm')].
      split; [done|]. intros t' S' [_ Hl]%lookup_delete_Some. by apply (proj2 (NE _ tm E) t').
  - intros [[-> <-]|[_ Hl]]%lookup_insert_Some; [|by apply (NE p' tm')].
    split; [apply insert_non_empty|].
    intros t' S' [[-> <-]|[_ Hl]]%lookup_insert_Some; [done|]. by apply (proj2 (NE _ tm E) t').
Qed.

(** A task gives up the addresses [D], which are returned to the allocator. *)
Lemma svc_ok_set_task s m' p t tm D :
  svc_ok s -> tasks s !! p = Some tm -> D ⊆ default ∅ (tm !! t) ->
  da_ok m' -> da_live m' = da_live (mem s) ∖ D ->
  let s' := mkService m' (legacy s) (set_task p t (default ∅ (tm !! t) ∖ D) tm (tasks s))
              (deviceId s) in
  svc_ok s' /\ forall p' o', held s' p' o' = held s p' o' ∖ D.
Proof.
  intros O E HD Hm Hl s'. apply (svc_ok_release s s' p (Some t)); try done.
  - simpl. by rewrite E.
  - apply set_task_no_empty; [by apply svc_no_empty|done].
  - unfold held, s'. simpl. rewrite set_task_lookup_eq by done. by rewrite E.
  - intros p' [t'|] Hne; [|done]. apply set_task_lookup_ne; [done|congruence].
Qed.

Lemma svc_ok_set_legacy s m' p D :
  svc_ok s -> D ⊆ held s p None -> da_ok m' -> da_live m' = da_live (mem s) ∖ D ->
  let s' := mkService m' (<[p := default ∅ (legacy s !! p) ∖ D]> (legacy s)) (tasks s)
              (deviceId s) in
  svc_ok s' /\ forall p' o', held s' p' o' = held s p' o' ∖ D.
Proof.
  intros O HD Hm Hl s'. apply (svc_ok_release s s' p None); try done.
  - exact (svc_no_empty s O).
  - simpl. by rewrite lookup_insert_eq.
  - intros p' [t'|] Hne; simpl; [done|]. rewrite lookup_insert_ne; congruence.
Qed.

Lemma task_of_Some a tm t S :
  task_of a tm = Some (t, S) -> tm !! t = Some S /\ a ∈ S.
Proof.
  unfold task_of. intros ([i t'] & Hf & [= <- <-])%bind_Some.
  apply list_find_Some in Hf as (_ & Hin & _). simpl.
  destruct (tm !! t') as [S'|]; [done|]. by apply elem_of_empty in Hin.
Qed.

Lemma task_of_None a tm : task_of a tm = None -> forall t, a ∉ default ∅ (tm !! t).
Proof.
  unfold task_of. destruct (list_find _ _) as [[i t0]|] eqn:Hf; [done|]. intros _ t Hin.
  apply list_find_None in Hf. rewrite Forall_forall in Hf. apply (Hf t); [|done].
  unfold keys. rewrite elem_of_asc, elem_of_dom.
  destruct (tm !! t); [by eexists|]. by apply elem_of_empty in Hin.
Qed.

Lemma deallocate_held s p o a :
  svc_ok s -> a ∈ held s p o ->
  exists m', da_deallocate a (mem s) = Some m' /\ da_ok m' /\
             da_live m' = da_live (mem s) ∖ {[a]}.
Proof. intros O Ha. apply da_deallocate_law; [apply O|]. apply (ok_live s O). eauto. Qed.

Lemma DeallocateAddress_cases a p s :
  svc_ok s ->
  (exists o s', a ∈ held s p o /\ DeallocateAddress a p s = Some (true, s') /\ svc_ok s' /\
     forall p' o', held s' p' o' = held s p' o' ∖ {[a]}) \/
  ((forall o, a ∉ held s p o) /\ DeallocateAddress a p s = Some (false, s)).
Proof.
  intros O. unfold DeallocateAddress. destruct (decide (a ∈ default ∅ (legacy s !! p))) as [Hl|Hl].
  - left. destruct (deallocate_held s p None a O Hl) as (m' & E & Hm & Hlive). rewrite E.
    eexists None, _. split; [done|]. split; [done|]. apply svc_ok_set_legacy; set_solver.
  - destruct (tasks s !! p) as [tm|] eqn:Et.
    2: { right. split; [|done]. intros [t|]; simpl; [|done]. rewrite Et. simpl.
         rewrite lookup_empty. set_solver. }
    destruct (task_of a tm) as [[t S]|] eqn:Ef.
    2: { right. split; [|done]. intros [t|]; simpl; [|done]. rewrite Et. by apply task_of_None. }
    apply task_of_Some in Ef as [Hts Ha]. left.
    assert (a ∈ held s p (Some t)) as Hh by (simpl; rewrite Et; simpl; by rewrite Hts).
    destruct (deallocate_held s p (Some t) a O Hh) as (m' & E & Hm & Hlive). rewrite E.
    eexists (Some t), _. split; [done|]. split; [done|].
    destruct (svc_ok_set_task s m' p t tm {[a]} O Et) as [O' HH]; rewrite ?Hts; simpl in *;
      [set_solver|done|done|]. rewrite Hts in O', HH. done.
Qed.

(** *** Freeing everything one task holds *)

Lemma filter_no_address (S : gset Z) :
  (forall x, x ∈ S -> 0 <= x < 2 ^ 63) ->
  List.filter (fun a => negb (a =? NO_ADDRESS)) (asc S) = asc S.
Proof.
  intros HS. assert (forall x, x ∈ asc S -> 0 <= x < 2 ^ 63) as HF
    by (intros x; rewrite elem_of_asc; apply HS).
  induction (asc S) as [|x l IH]; simpl; [done|].
  destruct (Z.eqb_spec x NO_ADDRESS) as [->|]; simpl.
  - specialize (HF NO_ADDRESS ltac:(left)). rewrite NO_ADDRESS_eq in HF. lia.
  - rewrite IH; [done|]. intros y Hy. apply HF. by right.
Qed.

Lemma deallocate_set s (S : gset Z) :
  svc_ok s -> (forall a, a ∈ S -> exists p o, a ∈ held s p o) ->
  exists m', da_deallocate_all (asc S) (mem s) = Some m' /\ da_ok m' /\
             da_live m' = da_live (mem s) ∖ S.
Proof.
  intros O HS. destruct (da_deallocate_all_law (asc S) (mem s)) as (m' & E & Hm & Hl).
  - apply O.
  - apply NoDup_asc.
  - intros k Hk%elem_of_asc. apply (ok_live s O), HS, Hk.
  - exists m'. rewrite list_to_set_asc in Hl. done.
Qed.

Lemma DeallocateTask_cases p t s :
  svc_ok s ->
  (held s p (Some t) <> ∅ /\ exists s', DeallocateTask p t s = Some (true, s') /\ svc_ok s' /\
     forall p' o', held s' p' o' = held s p' o' ∖ held s p (Some t)) \/
  (held s p (Some t) = ∅ /\ DeallocateTask p t s = Some (false, s)).
Proof.
  intros O. unfold DeallocateTask. simpl.
  destruct (tasks s !! p) as [tm|] eqn:Et; simpl; [|right; by rewrite lookup_empty].
  destruct (tm !! t) as [S|] eqn:Es; simpl; [|by right]. left.
  pose proof (ok_sets s O p tm t S Et Es) as HS. split; [done|].
  rewrite decide_False by done.
  assert (S = held s p (Some t)) as HE by (simpl; rewrite Et; simpl; by rewrite Es).
  rewrite filter_no_address by (rewrite HE; intros x; by apply held_range).
  destruct (deallocate_set s S O) as (m' & E & Hm & Hl); [rewrite HE; eauto|]. rewrite E.
  eexists. split; [done|].
  destruct (svc_ok_set_task s m' p t tm S O Et) as [O' HH]; rewrite ?Es; simpl in *; [done..|].
  rewrite Es in O', HH. simpl in O', HH. rewrite difference_diag_L in O', HH.
  unfold set_task in O', HH. rewrite decide_True in O', HH by done. done.
Qed.

(** *** Freeing everything one process holds *)

(** The addresses of the tasks of process [p]. *)
Definition task_set s p : gset Z := list_to_set (task_addrs (default ∅ (tasks s !! p))).

Lemma elem_of_task_addrs a tm : a ∈ task_addrs tm <-> exists t, a ∈ default ∅ (tm !! t).
Proof.
  unfold task_addrs. rewrite list_elem_of_bind. split.
  - intros (t & Ha%elem_of_asc & _). by exists t.
  - intros [t Ha]. exists t. rewrite elem_of_asc. split; [done|].
    unfold keys. rewrite elem_of_asc, elem_of_dom.
    destruct (tm !! t); [by eexists|]. by apply elem_of_empty in Ha.
Qed.

Lemma elem_of_task_set s p a : a ∈ task_set s p <-> exists t, a ∈ held s p (Some t).
Proof. unfold task_set. rewrite elem_of_list_to_set. apply elem_of_task_addrs. Qed.

Lemma NoDup_task_addrs s p : svc_ok s -> NoDup (task_addrs (default ∅ (tasks s !! p))).
Proof.
  intros O. apply NoDup_bind.
  - intros t1 t2 a _ _ H1%elem_of_asc H2%elem_of_asc.
    by destruct (ok_owner s O a p (Some t1) p (Some t2)) as [_ [= ->]].
  - intros. apply NoDup_asc.
  - apply NoDup_asc.
Qed.

Lemma DeallocateAllTasks_spec p s :
  svc_ok s ->
  exists s', DeallocateAllTasks p s = Some s' /\ svc_ok s' /\ legacy s' = legacy s /\
    da_live (mem s') = da_live (mem s) ∖ task_set s p /\
    forall p' o', held s' p' o' = if decide (p' = p /\ o' <> None) then ∅ else held s p' o'.
Proof.
  intros O. unfold DeallocateAllTasks. destruct (tasks s !! p) as [tm|] eqn:Et.
  2: { exists s. split_and!; try done.
       - unfold task_set. rewrite Et. set_solver.
       - intros p' o'. destruct (decide _) as [[-> Ho]|]; [|done].
         destruct o'; [|done]. simpl. rewrite Et. simpl. by rewrite lookup_empty. }
  destruct (da_deallocate_all_law (task_addrs tm) (mem s)) as (m' & E & Hm & Hl); [apply O| | |].
  { pose proof (NoDup_task_addrs s p O) as N. by rewrite Et in N. }
  { intros k Hk. apply (ok_live s O). apply elem_of_task_addrs in Hk as [t Ht].
    exists p, (Some t). simpl. by rewrite Et. }
  rewrite E. eexists. split; [done|].
  set (s' := mkService m' (legacy s) (delete p (tasks s)) (deviceId s)).
  assert (forall p' o', held s' p' o' = if decide (p' = p /\ o' <> None) then ∅ else held s p' o')
    as HH.
  { intros p' o'. destruct o' as [t'|]; [|by rewrite decide_False by naive_solver].
    simpl. destruct (decide _) as [[-> _]|Hne].
    - rewrite lookup_delete_eq. simpl. by rewrite lookup_empty.
    - rewrite lookup_delete_ne; naive_solver. }
  assert (list_to_set (task_addrs tm) = task_set s p) as HD by (unfold task_set; by rewrite Et).
  rewrite HD in Hl. split_and!; try done.
  apply (svc_ok_remove s s' (task_set s p)); [done| |done|done|].
  - unfold no_empty. simpl. intros p' tm' [_ Hk]%lookup_delete_Some. by apply (svc_no_empty s O p' tm').
  - intros p' o'. rewrite HH. apply set_eq. intros x.
    rewrite elem_of_difference, elem_of_task_set.
    destruct (decide (p' = p /\ o' <> None)) as [[-> Ho]|Hne].
    + destruct o' as [t|]; [|done]. set_solver.
    + split; [|tauto]. intros Hx. split; [done|]. intros [t Ht].
      destruct (ok_owner s O x p' o' p (Some t) Hx Ht) as [-> ->]. apply Hne. done.
Qed.

Lemma deallocate_legacy_spec p s :
  svc_ok s ->
  exists s', deallocate_legacy p s = Some s' /\ svc_ok s' /\ tasks s' = tasks s /\
    da_live (mem s') = da_live (mem s) ∖ held s p None /\
    forall p' o', held s' p' o' = if decide (p' = p /\ o' = None) then ∅ else held s p' o'.
Proof.
  intros O. unfold deallocate_legacy. destruct (legacy s !! p) as [S|] eqn:El.
  2: { exists s. simpl. rewrite El. split_and!; try done; [set_solver|].
       intros p' o'. destruct (decide _) as [[-> ->]|]; [|done]. simpl; by rewrite El. }
  assert (held s p None = S) as HS by (simpl; by rewrite El).
  destruct (deallocate_set s S O) as (m' & E & Hm & Hl).
  { intros a Ha. exists p, None. by rewrite HS. }
  rewrite E. eexists. split; [done|]. rewrite HS.
  set (s' := mkService m' (delete p (legacy s)) (tasks s) (deviceId s)).
  assert (forall p' o', held s' p' o' = if decide (p' = p /\ o' = None) then ∅ else held s p' o')
    as HH.
  { intros p' o'. destruct o' as [t'|]; [by rewrite decide_False by naive_solver|].
    simpl. destruct (decide _) as [[-> _]|Hne].
    - by rewrite lookup_delete_eq.
    - rewrite lookup_delete_ne; naive_solver. }
  split_and!; try done. destruct (svc_ok_release s s' p None S); try done.
  - by rewrite HS.
  - apply (svc_no_empty s O).
  - rewrite HH, decide_True by done. set_solver.
  - intros p' o' Hne. rewrite HH, decide_False; [done|]. naive_solver.
Qed.

(** Everything process [p] holds. *)
Definition process_set s p : gset Z := task_set s p ∪ held s p None.

Lemma elem_of_process_set s p a : a ∈ process_set s p <-> exists o, a ∈ held s p o.
Proof.
  unfold process_set. rewrite elem_of_union, elem_of_task_set. split.
  - intros [[t Ht]|H1]; eauto.
  - intros [[t|] Ho]; eauto.
Qed.

Lemma DeallocateAll_spec p s :
  svc_ok s ->
  exists s', DeallocateAll p s = Some s' /\ svc_ok s' /\
    da_live (mem s') = da_live (mem s) ∖ process_set s p /\
    forall p' o', held s' p' o' = if decide (p' = p) then ∅ else held s p' o'.
Proof.
  intros O. unfold DeallocateAll.
  destruct (DeallocateAllTasks_spec p s O) as (s1 & E1 & O1 & L1 & D1 & H1). rewrite E1.
  destruct (deallocate_legacy_spec p s1 O1) as (s2 & E2 & O2 & L2 & D2 & H2). simpl. rewrite E2.
  exists s2. split_and!; try done.
  - rewrite D2, D1. simpl. rewrite L1. unfold process_set. simpl. set_solver.
  - intros p' o'. rewrite H2, H1. destruct (decide (p' = p)) as [->|].
    + destruct o'; [by rewrite decide_False, decide_True by naive_solver|].
      by rewrite decide_True.
    + by rewrite !decide_False by naive_solver.
Qed.

Lemma DeallocateAllForProcess_eq p s :
  DeallocateAllForProcess p s =
  (s' ← DeallocateAll p s;
   mret (bool_decide (is_Some (tasks s !! p)) || bool_decide (is_Some (legacy s !! p)), s')).
Proof.
  unfold DeallocateAllForProcess, DeallocateAll.
  destruct (DeallocateAllTasks p s) as [s1|]; [|done]. simpl.
  by destruct (deallocate_legacy p s1).
Qed.

End Spec.
