(* ===== verification/MemoryServiceThms.v ===== *)
(** * Ownership of device memory: the contract of the service

    The properties of [MemoryService], for every allocator that meets
    [AllocLaws], and their instances at [Memory]. *)

From Stdlib Require Import ZArith Lia.
From S2P Require Import Prelude OrdMap Memory MemoryInv MemoryOps MemorySpec.
From S2P Require Import AllocatorClass MemoryInstance MemoryService MemoryServiceSpec.
Import MemoryService.

(** ** The service as a transition system *)

(** The calls a process makes, with their arguments; sizes are 64-bit unsigned. *)
Inductive svc_call : Type :=
| CAllocate (size : Z)
| CBackwardAllocate (size : Z)
| CAllocateForTask (size taskId : Z)
| CBackwardAllocateForTask (size taskId : Z)
| CDeallocate (addr : Z)
| CDeallocateTask (taskId : Z)
| CDeallocateAllTasks
| CDeallocateAll
| CDeallocateAllForProcess
| COptimizeMemory.

(** The effect of a call made by process [p]. *)
Definition svc_exec {A} `{!AllocOps A} (p : Z) (c : svc_call) (s : service A)
    : option (service A) :=
  match c with
  | CAllocate size => snd <$> Allocate size p s
  | CBackwardAllocate size => snd <$> BackwardAllocate size p s
  | CAllocateForTask size t => snd <$> AllocateForTask size p t s
  | CBackwardAllocateForTask size t => snd <$> BackwardAllocateForTask size p t s
  | CDeallocate a => snd <$> Deallocate a p s
  | CDeallocateTask t => snd <$> DeallocateTask p t s
  | CDeallocateAllTasks => DeallocateAllTasks p s
  | CDeallocateAll => DeallocateAll p s
  | CDeallocateAllForProcess => snd <$> DeallocateAllForProcess p s
  | COptimizeMemory => OptimizeMemory s
  end.

(** The calls of several processes, interleaved, each with its caller. *)
Fixpoint svc_run {A} `{!AllocOps A} (cs : list (Z * svc_call)) (s : service A)
    : option (service A) :=
  match cs with
  | [] => Some s
  | (p, c) :: r => s' ← svc_exec p c s; svc_run r s'
  end.

(** A [uint64_t] size; of the calls of a model, which allocate from the high end
    of the memory, those for an empty block are left out. *)
Definition sized (c : svc_call) : Prop :=
  match c with
  | CAllocate size | CAllocateForTask size _ => 0 <= size < 2 ^ 64
  | CBackwardAllocate size | CBackwardAllocateForTask size _ => 0 < size < 2 ^ 64
  | _ => True
  end.

Section Steps.
Context {A : Type} `{AllocLaws A}.
Implicit Types (s : service A) (p : Z) (o : option Z).

Lemma forward_contract size : 0 <= size <= max_request -> alloc_contract (A := A) da_allocate size.
Proof. intros Hs m Hm. by apply da_allocate_law. Qed.

Lemma backward_contract size :
  0 < size <= max_request -> alloc_contract (A := A) da_backward_allocate size.
Proof. intros Hs m Hm. by apply da_backward_law. Qed.

(** What a call by [p] guarantees to the others. *)
Definition keeps_others p s s' : Prop :=
  svc_ok s' /\ forall p' o, p' <> p -> held s' p' o = held s p' o.

(** A size above [max_request] does not pass the pre-check of large requests. *)
Lemma too_fragmented_large size s :
  svc_ok s -> max_request < size -> too_fragmented size s = true.
Proof.
  intros O Hs. unfold too_fragmented. apply andb_true_iff. split.
  - apply Z.ltb_lt. unfold Memory.LARGE_ALLOCATION_THRESHOLD, max_request in *. lia.
  - destruct (da_can_allocate size (mem s)) eqn:E; [|done].
    apply da_can_allocate_law in E; [lia|apply O].
Qed.

Lemma allocate_with_keeps alloc track p o size s :
  (size <= max_request -> alloc_contract alloc size) -> tracks track p o -> svc_ok s ->
  exists s', snd <$> allocate_with alloc track size s = Some s' /\ keeps_others p s s'.
Proof.
  intros HA HT O. destruct (Z.le_gt_cases size max_request) as [Hs|Hs].
  - destruct (allocate_with_spec alloc track p o size s (HA Hs) HT O)
      as (r & s2 & -> & O2 & Hc). exists s2. split; [done|]. split; [done|].
    intros p' o' Hne. destruct Hc as [[_ Hh]|(_ & _ & Hh)]; apply Hh; congruence.
  - unfold allocate_with. rewrite too_fragmented_large by (done || lia).
    exists s. split; [done|]. by split.
Qed.

Lemma remove_keeps p o s s' D :
  svc_ok s -> svc_ok s' -> D ⊆ held s p o ->
  (forall p' o', held s' p' o' = held s p' o' ∖ D) -> keeps_others p s s'.
Proof.
  intros O O' HD Hh. split; [done|]. intros p' o' Hne. rewrite Hh.
  apply (held_other s p o); [done|done|congruence].
Qed.

Lemma OptimizeMemory_keeps p s :
  svc_ok s -> exists s', OptimizeMemory s = Some s' /\ keeps_others p s s'.
Proof.
  intros O. unfold OptimizeMemory.
  destruct (SpecFloat.SFltb _ _); [|exists s; split; [done|by split]].
  destruct (da_compact_law (mem s) (ok_mem s O)) as (m' & -> & Hm & Hl).
  exists (set_mem s m'). split; [done|]. split; [|done].
  apply (svc_ok_remove s _ ∅); [done|by apply (svc_no_empty s)|done| |].
  - simpl. rewrite Hl. set_solver.
  - intros p' o'. change (held (set_mem s m') p' o') with (held s p' o'). set_solver.
Qed.

Lemma svc_exec_keeps p c s :
  svc_ok s -> sized c -> exists s', svc_exec p c s = Some s' /\ keeps_others p s s'.
Proof.
  intros O Hc. destruct c as [z|z|z t|z t|a|t| | | |]; simpl in Hc |- *.
  - apply (allocate_with_keeps _ _ p None); auto using tracks_legacy.
    intros. apply forward_contract. lia.
  - apply (allocate_with_keeps _ _ p None); auto using tracks_legacy.
    intros. apply backward_contract. lia.
  - apply (allocate_with_keeps _ _ p (Some t)); auto using tracks_task.
    intros. apply forward_contract. lia.
  - apply (allocate_with_keeps _ _ p (Some t)); auto using tracks_task.
    intros. apply backward_contract. lia.
  - unfold Deallocate. destruct (DeallocateAddress_cases a p s O)
      as [(o & s2 & Ha & -> & O2 & Hh)|[_ ->]]; [|exists s; split; [done|by split]].
    exists s2. split; [done|]. apply (remove_keeps p o s s2 {[a]}); [done|done|set_solver|done].
  - destruct (DeallocateTask_cases p t s O) as [(_ & s2 & -> & O2 & Hh)|[_ ->]];
      [|exists s; split; [done|by split]].
    exists s2. split; [done|]. by apply (remove_keeps p (Some t) s s2 (held s p (Some t))).
  - destruct (DeallocateAllTasks_spec p s O) as (s2 & -> & O2 & _ & _ & Hh).
    exists s2. split; [done|]. split; [done|].
    intros p' o Hne. by rewrite Hh, decide_False by naive_solver.
  - destruct (DeallocateAll_spec p s O) as (s2 & -> & O2 & _ & Hh).
    exists s2. split; [done|]. split; [done|]. intros. by rewrite Hh, decide_False.
  - rewrite DeallocateAllForProcess_eq.
    destruct (DeallocateAll_spec p s O) as (s2 & -> & O2 & _ & Hh).
    exists s2. split; [done|]. split; [done|]. intros. by rewrite Hh, decide_False.
  - by apply OptimizeMemory_keeps.
Qed.

Lemma empty_service_ok id (m : A) :
  da_ok m -> da_live m = ∅ -> svc_ok (mkService m ∅ ∅ id).
Proof.
  intros Hm Hl. assert (forall p o, held (mkService m ∅ ∅ id) p o = ∅) as HH.
  { intros p [t|]; simpl; rewrite lookup_empty; simpl; [by rewrite lookup_empty|done]. }
  split; [done| | |intros ?? E; simpl in E; by rewrite lookup_empty in E
         |intros ???? E; simpl in E; by rewrite lookup_empty in E].
  - intros a. simpl. rewrite Hl. split; [set_solver|]. intros (p & o & Ha).
    rewrite HH in Ha. set_solver.
  - intros a p o p2 o2. rewrite HH. set_solver.
Qed.
End Steps.

(** ** A concrete service over [Memory] *)

Definition ex_service : service Memory.memory := new_service 0 1048576 0.

Lemma ex_service_ok : svc_ok ex_service.
Proof.
  apply empty_service_ok.
  - apply wf_new_memory; [lia|]. exists 256. reflexivity.
  - reflexivity.
Qed.

(** After process 7 has allocated a block for itself, and one for its task 3. *)
Definition ex_service1 : service Memory.memory :=
  default ex_service (snd <$> Allocate 4096 7 ex_service).
Definition ex_service2 : service Memory.memory :=
  default ex_service1 (snd <$> AllocateForTask 8192 7 3 ex_service1).

Definition ex_calls : list (Z * svc_call) :=
  [(7, CAllocate 4096); (7, CAllocateForTask 8192 3)].

Lemma ex_run : svc_run ex_calls ex_service = Some ex_service2.
Proof. vm_compute. reflexivity. Qed.

Lemma ex_service2_ok : svc_ok ex_service2.
Proof.
  destruct (svc_exec_keeps 7 (CAllocate 4096) ex_service ex_service_ok) as (s1 & E1 & O1 & _);
    [simpl; lia|].
  destruct (svc_exec_keeps 7 (CAllocateForTask 8192 3) s1 O1) as (s2 & E2 & O2 & _);
    [simpl; lia|].
  vm_compute in E1. injection E1 as <-. vm_compute in E2. injection E2 as <-. exact O2.
Qed.

(** What is left out: a client that asks for an empty block of a model is given
    the address of a block another process holds, the one after the only free
    block, and with it the right to free it. *)
Example empty_block_shared :
  exists s s', svc_run [(7, CBackwardAllocate 8192)] ex_service = Some s /\
    held s 7 None = {[1040384]} /\
    BackwardAllocate 0 8 s = Some (1040384, s') /\ held s' 8 None = held s' 7 None /\
    ~ svc_ok s'.
Proof.
  eexists _, _. split; [vm_compute; reflexivity|]. split; [vm_compute; reflexivity|].
  split; [vm_compute; reflexivity|]. split; [vm_compute; reflexivity|].
  intros O. destruct (ok_owner _ O 1040384 7 None 8 None) as [E _]; [..|done];
    refine (bool_decide_eq_true_1 _ _); vm_compute; reflexivity.
Qed.

(** ** Properties *)

(** C5. Over any interleaving of calls by any processes, whatever their
    arguments but for model allocations (from the high end) of size 0: every call
    returns, every block in use of the device keeps exactly one owner, and what a
    process holds is changed by no call of another process.  The allocations left
    out break this: [empty_block_shared]. *)
Theorem service_isolation {A} `{AllocLaws A} (cs : list (Z * svc_call)) (s : service A) :
  svc_ok s -> Forall (fun c => sized c.2) cs ->
  exists s', svc_run cs s = Some s' /\ svc_ok s' /\
    forall p o, p ∉ cs.*1 -> held s' p o = held s p o.
Proof.
  intros O Hc. revert s O. induction Hc as [|[p c] cs Hc _ IH]; intros s O; [by exists s|].
  destruct (svc_exec_keeps p c s O Hc) as (s1 & E & O1 & K).
  destruct (IH s1 O1) as (s' & R & O' & Hh). exists s'. simpl. rewrite E.
  split; [done|]. split; [done|]. intros p' o Hn. rewrite not_elem_of_cons in Hn.
  rewrite Hh by tauto. apply K. tauto.
Qed.

Lemma service_isolation_witness : svc_ok ex_service2 /\ held ex_service2 8 None = ∅.
Proof.
  destruct (service_isolation ex_calls ex_service ex_service_ok) as (s' & R & O & Hh).
  - repeat constructor; simpl; lia.
  - rewrite ex_run in R. injection R as <-. split; [done|].
    rewrite Hh by set_solver. reflexivity.
Defined.

(** Each of the four allocation entry points returns; either it returns
    the failure address and what is held does not change, or it returns a block
    nobody held and gives it to the calling process, or to the named task, and to nobody else. *)
Theorem allocation_owned {A} `{AllocLaws A} (size p t : Z) (s : service A) entry o :
  svc_ok s -> 0 < size <= max_request ->
  (entry, o) ∈ [(Allocate size p, None); (BackwardAllocate size p, None);
                (AllocateForTask size p t, Some t); (BackwardAllocateForTask size p t, Some t)] ->
  exists r s', entry s = Some (r, s') /\ svc_ok s' /\
    ((r = NO_ADDRESS /\ forall p' o', held s' p' o' = held s p' o') \/
     (r ∉ da_live (mem s) /\ held s' p o = {[r]} ∪ held s p o /\
      forall p' o', (p', o') <> (p, o) -> held s' p' o' = held s p' o')).
Proof.
  intros O Hs Hin. pose proof (forward_contract (A := A) size ltac:(lia)) as F.
  pose proof (backward_contract (A := A) size Hs) as B.
  repeat (apply elem_of_cons in Hin as [[= -> ->]|Hin]); [..|by apply not_elem_of_nil in Hin];
    apply allocate_with_spec; eauto using tracks_legacy, tracks_task.
Qed.

Lemma allocation_owned_witness :
  exists r s', AllocateForTask 4096 9 1 ex_service2 = Some (r, s') /\ svc_ok s'.
Proof.
  destruct (allocation_owned 4096 9 1 ex_service2 (AllocateForTask 4096 9 1) (Some 1))
    as (r & s' & E & O & _).
  - apply ex_service2_ok.
  - unfold max_request. lia.
  - set_solver.
  - exists r, s'. exact (conj E O).
Defined.

(** [Deallocate] of an address the calling process holds returns true and
    takes exactly that address from it; of any other address, in particular one of
    another process, it returns false and changes nothing. *)
Theorem Deallocate_exact {A} `{AllocLaws A} (a p : Z) (s : service A) :
  svc_ok s ->
  if decide (a ∈ process_set s p) then
    exists s', Deallocate a p s = Some (true, s') /\ svc_ok s' /\
      (forall p' o', held s' p' o' = held s p' o' ∖ {[a]}) /\
      (forall p' o', p' <> p -> held s' p' o' = held s p' o')
  else Deallocate a p s = Some (false, s).
Proof.
  intros O. unfold Deallocate. destruct (DeallocateAddress_cases a p s O)
    as [(o & s' & Ha & E & O' & Hh)|[Hn E]].
  - rewrite decide_True by (apply elem_of_process_set; by exists o).
    exists s'. split_and!; try done. intros p' o' Hp.
    eapply (remove_keeps p o s s' {[a]}); auto. set_solver.
  - rewrite decide_False; [done|]. intros [o Ho]%elem_of_process_set. by apply (Hn o).
Qed.

Lemma Deallocate_exact_witness :
  Deallocate 4096 8 ex_service2 = Some (false, ex_service2) /\
  exists s', Deallocate 4096 7 ex_service2 = Some (true, s') /\ svc_ok s'.
Proof.
  pose proof (Deallocate_exact 4096 8 ex_service2 ex_service2_ok) as H1.
  pose proof (Deallocate_exact 4096 7 ex_service2 ex_service2_ok) as H2.
  destruct (decide (4096 ∈ process_set ex_service2 8)) as [Hin|_].
  { pose proof (bool_decide_eq_true_2 _ Hin) as Q. vm_compute in Q. discriminate. }
  destruct (decide (4096 ∈ process_set ex_service2 7)) as [_|Hn].
  2: { pose proof (bool_decide_eq_false_2 _ Hn) as Q. vm_compute in Q. discriminate. }
  destruct H2 as (s' & E & O & _). split; [exact H1|]. exists s'. exact (conj E O).
Defined.

(** The cleanup of a terminated process always returns, leaves it without
    blocks, returns exactly its blocks to the allocator, changes nothing another process
    holds, and reports true whenever there was a block. *)
Theorem process_cleanup {A} `{AllocLaws A} (p : Z) (s : service A) :
  svc_ok s ->
  exists b s', DeallocateAllForProcess p s = Some (b, s') /\ svc_ok s' /\
    da_live (mem s') = da_live (mem s) ∖ process_set s p /\
    (forall p' o', held s' p' o' = if decide (p' = p) then ∅ else held s p' o') /\
    (process_set s p <> ∅ -> b = true).
Proof.
  intros O. rewrite DeallocateAllForProcess_eq.
  destruct (DeallocateAll_spec p s O) as (s' & E & O' & Hl & Hh). rewrite E.
  eexists _, s'. split_and!; try done. intros [a [o Ha]%elem_of_process_set]%set_choose_L.
  apply orb_true_iff. rewrite !bool_decide_eq_true. destruct o as [t|]; simpl in Ha.
  - left. destruct (tasks s !! p); [done|]. simpl in Ha. rewrite lookup_empty in Ha. set_solver.
  - right. destruct (legacy s !! p); [done|]. set_solver.
Qed.

Lemma process_cleanup_witness :
  exists s', DeallocateAllForProcess 7 ex_service2 = Some (true, s') /\ live (mem s') = ∅.
Proof.
  destruct (process_cleanup 7 ex_service2 ex_service2_ok) as (b & s' & E & _ & Hl & _ & Hb).
  rewrite Hb in E; [|intros Q; apply (f_equal elements) in Q; vm_compute in Q; discriminate].
  exists s'. split; [done|]. change (da_live (mem s')) with (live (mem s')) in Hl. rewrite Hl.
  refine (bool_decide_eq_true_1 _ _). vm_compute. reflexivity.
Defined.

(** [DeallocateTask] frees exactly the blocks of one task of a process and
    returns whether there were any. *)
Theorem DeallocateTask_exact {A} `{AllocLaws A} (p t : Z) (s : service A) :
  svc_ok s ->
  exists s', DeallocateTask p t s = Some (bool_decide (held s p (Some t) <> ∅), s') /\ svc_ok s' /\
    forall p' o', held s' p' o' =
      if decide (p' = p /\ o' = Some t) then ∅ else held s p' o'.
Proof.
  intros O. destruct (DeallocateTask_cases p t s O) as [(Hne & s' & E & O' & Hh)|[He E]].
  - exists s'. rewrite bool_decide_eq_true_2 by done. split_and!; try done.
    intros p' o'. rewrite Hh. destruct (decide _) as [[-> ->]|Hd]; [set_solver|].
    apply (held_other s p (Some t)); [done|done|naive_solver].
  - exists s. rewrite bool_decide_eq_false_2 by tauto. split_and!; try done.
    intros p' o'. destruct (decide _) as [[-> ->]|]; done.
Qed.

Lemma DeallocateTask_exact_witness :
  exists s', DeallocateTask 7 3 ex_service2 = Some (true, s') /\ held s' 7 None = {[0]}.
Proof.
  destruct (DeallocateTask_exact 7 3 ex_service2 ex_service2_ok) as (s' & E & _ & Hh).
  rewrite bool_decide_eq_true_2 in E;
    [|intros Q; apply (f_equal elements) in Q; vm_compute in Q; discriminate].
  exists s'. split; [done|]. rewrite Hh, decide_False by naive_solver.
  vm_compute. reflexivity.
Defined.

(** [IsTaskValid] answers for the process and not for the task: it is true for
    every task number as soon as the process has memory for some task. *)
Theorem IsTaskValid_any_task {A} `{AllocLaws A} (p t : Z) (s : service A) :
  svc_ok s ->
  (IsTaskValid p t s).1 = true <-> exists t', held s p (Some t') <> ∅.
Proof.
  intros O. unfold IsTaskValid. destruct (tasks s !! p) as [tm|] eqn:E; simpl.
  - rewrite E. simpl. split; [|done]. intros _.
    destruct (map_choose tm (ok_tasks s O p tm E)) as (t' & S & Ht). exists t'. rewrite Ht.
    by apply (ok_sets s O p tm t').
  - rewrite E. split; [done|]. intros [t' Hne]. simpl in Hne. by rewrite lookup_empty in Hne.
Qed.

Lemma IsTaskValid_any_task_witness :
  held ex_service2 7 (Some 99) = ∅ /\ (IsTaskValid 7 99 ex_service2).1 = true.
Proof.
  split; [vm_compute; reflexivity|]. apply (IsTaskValid_any_task 7 99 _ ex_service2_ok).
  exists 3. intros Q. apply (f_equal elements) in Q. vm_compute in Q. discriminate.
Defined.
