(* ===== verification/Scheduler.v ===== *)
(** * Request scheduler of the service: definitions

    [lib/dxrt_service/schedule_service.cpp], class [SchedulerService]: the
    table of requests of every process, the load of every device and the dispatch loop
    [schedule] / [doInference].  The queueing discipline is the pure virtual
    part of the class and is the interface [Policy] here; [SchedPolicies] has
    the three implementations.

    Every public operation takes [_lock], so it is one step on the state.  The
    calls the scheduler makes (to the listener and to the device) are the
    [trace] of the state, in order; what they answer is given by an
    [environment], whose functions also take the number of calls made so far, so that
    answers may change over time.  Statements under [if(DEBUG_DXRT)] are debug
    prints and are left out. *)

From Stdlib Require Import ZArith Lia.
From S2P Require Import Prelude Memory.

Module Scheduler.

(** [dxrt_request_acc_t] *)
Record request_acc := mkReq {
  req_id : Z; task_id : Z;
  input : Memory.meminfo; output : Memory.meminfo;
  npu_id : Z; model_type : Z; model_format : Z; model_cmds : Z;
  cmd_offset : Z; weight_offset : Z; datas : list Z; dma_ch : Z; op_mode : Z;
  custom_offset : Z; proc_id : Z; prior : Z; prior_level : Z; bandwidth : Z; bound : Z;
  queue_ : Z
}.

Definition set_dma_ch (ch : Z) (r : request_acc) : request_acc :=
  mkReq (req_id r) (task_id r) (input r) (output r) (npu_id r) (model_type r)
    (model_format r) (model_cmds r) (cmd_offset r) (weight_offset r) (datas r) ch
    (op_mode r) (custom_offset r) (proc_id r) (prior r) (prior_level r) (bandwidth r)
    (bound r) (queue_ r).

(** [dxrt_response_t] *)
Record response := mkResp {
  rs_req_id : Z; inf_time : Z; argmax : Z; rs_model_type : Z; status : Z;
  ppu_filter_num : Z; rs_proc_id : Z; rs_queue : Z; rs_dma_ch : Z; ddr_wr_bw : Z;
  ddr_rd_bw : Z; wait_timestamp : Z; wait_start_time : Z; wait_end_time : Z
}.

(** [error_resp] of [doInference]: zero but for three fields. *)
Definition error_resp (proc req status : Z) : response :=
  mkResp (u32 req) 0 0 0 status 0 (u32 proc) 0 0 0 0 0 0 0.

(** [RequestEntry::State] *)
Inductive State := PENDING | RUNNING | CANCELLED.
#[export] Instance State_eq_dec : EqDecision State.
Proof. solve_decision. Defined.

Record RequestEntry := mkEntry { data : request_acc; state : State; deviceId : Z }.

(** The calls to the listener and to the devices. *)
Inductive event :=
| onInferenceComplete (r : response) (dev : Z)
| onSchedulerError (errCode dev : Z)
| onTaskDrained (pid task : Z)
| InferenceRequested (dev : Z) (r : request_acc) (retval : Z).

Record environment := {
  has_listener : bool;                               (** [_listener != nullptr] *)
  validateTask : nat -> Z -> Z -> Z -> bool;         (** pid, device, task *)
  isBlocked : nat -> Z -> bool;
  num_dma_ch : Z -> Z;                               (** [_info.num_dma_ch] of the device *)
  npu_run_req : nat -> Z -> request_acc -> Z         (** the driver call [DXRT_CMD_NPU_RUN_REQ] *)
}.

(** The virtual functions a scheduling policy overrides; [pol_pop] is [schedule]
    up to its call of [doInference].  [pol_items] is the queue of one device. *)
Class Policy (Q : Type) := {
  pushRequest : Z -> Z -> Z -> Z -> Q -> Q;          (** device, process, request, task *)
  pol_pop : Z -> Q -> option (Z * Z) * Q;
  updateTaskInferenceTime : Z -> Z -> Z -> Q -> Q;   (** process, task, time *)
  cleanTaskInferenceTime : Z -> Q -> Q;
  pol_items : Z -> Q -> list (Z * Z)
}.

(** [DX_RT_SERVICE_SCHED_THRE], [EBUSY], [EAGAIN] *)
Definition SCHED_THRE : Z := 6.
Definition EBUSY : Z := 16.
Definition EAGAIN : Z := 11.

(** An operation returns, aborts in [DXRT_ASSERT], indexes a vector out of
    range, or runs out of fuel. *)
Inductive outcome (S : Type) :=
| Ret (s : S)
| Aborted (s : S)
| OutOfRange
| OutOfFuel.
Arguments Ret {S} s. Arguments Aborted {S} s.
Arguments OutOfRange {S}. Arguments OutOfFuel {S}.

Definition obind {S T} (o : outcome S) (f : S -> outcome T) (g : S -> T) : outcome T :=
  match o with
  | Ret s => f s
  | Aborted s => Aborted (g s)
  | OutOfRange => OutOfRange
  | OutOfFuel => OutOfFuel
  end.

(** [_loadsProc]: number of requests of each process, [std::atomic<int>]. *)
Definition dec_proc_load (p : Z) (m : gmap Z Z) : gmap Z Z :=
  match m !! p with
  | Some n => if 0 <? n then <[p := n - 1]> m else m
  | None => m
  end.

(** [ServiceDevice::InferenceRequest]: an invalid DMA channel is normalised and
    the request is handed to the driver. *)
Definition normalize_dma (n : Z) (r : request_acc) : request_acc :=
  if (0 <? n) && ((dma_ch r <? 0) || (i32 n <=? dma_ch r)) then
    set_dma_ch (Z.rem (Z.rem (dma_ch r) (i32 n) + i32 n) (i32 n)) r
  else r.

Section Sched.
Context {Q : Type} `{!Policy Q}.
Context (env : environment).

Record sched := mkSched {
  loads : list Z;                                    (** [_loads], one per device *)
  loadsProc : gmap Z Z;
  reqs : gmap Z (gmap Z RequestEntry);               (** [_map] *)
  pendingErrorCallbacks : list (response * Z);
  queue : Q;
  trace : list event;
  clock : nat                                        (** calls answered by [env] *)
}.

Definition load (d : Z) (s : sched) : Z := default 0 (loads s !! Z.to_nat d).
Definition in_range (d : Z) (s : sched) : bool :=
  (0 <=? d) && (d <? Z.of_nat (length (loads s))).
Definition entry (p r : Z) (s : sched) : option RequestEntry := reqs s !! p ≫= (.!! r).

Definition set_load (d l : Z) (s : sched) : sched :=
  mkSched (<[Z.to_nat d := l]> (loads s)) (loadsProc s) (reqs s) (pendingErrorCallbacks s)
    (queue s) (trace s) (clock s).
Definition set_loadsProc (m : gmap Z Z) (s : sched) : sched :=
  mkSched (loads s) m (reqs s) (pendingErrorCallbacks s) (queue s) (trace s) (clock s).
Definition set_reqs (m : gmap Z (gmap Z RequestEntry)) (s : sched) : sched :=
  mkSched (loads s) (loadsProc s) m (pendingErrorCallbacks s) (queue s) (trace s) (clock s).
Definition set_pending (l : list (response * Z)) (s : sched) : sched :=
  mkSched (loads s) (loadsProc s) (reqs s) l (queue s) (trace s) (clock s).
Definition set_queue (q : Q) (s : sched) : sched :=
  mkSched (loads s) (loadsProc s) (reqs s) (pendingErrorCallbacks s) q (trace s) (clock s).
Definition emit (l : list event) (s : sched) : sched :=
  mkSched (loads s) (loadsProc s) (reqs s) (pendingErrorCallbacks s) (queue s) (trace s ++ l)
    (clock s).
Definition tick (s : sched) : sched :=
  mkSched (loads s) (loadsProc s) (reqs s) (pendingErrorCallbacks s) (queue s) (trace s)
    (S (clock s)).

(** [_map[p][r] = e] and [_map[p].erase(r)] *)
Definition set_entry (p r : Z) (e : RequestEntry) (s : sched) : sched :=
  set_reqs (<[p := <[r := e]> (default ∅ (reqs s !! p))]> (reqs s)) s.
Definition erase_entry (p r : Z) (s : sched) : sched :=
  match reqs s !! p with
  | Some m => set_reqs (<[p := delete r m]> (reqs s)) s
  | None => s
  end.

Definition to_listener (l : list event) (s : sched) : sched :=
  if has_listener env then emit l s else s.

(** A request that is not sent: the error response is deferred. *)
Definition reject (d p r st : Z) (s : sched) : sched :=
  let s1 := erase_entry p r (set_loadsProc (dec_proc_load p (loadsProc s)) s) in
  set_pending (pendingErrorCallbacks s1 ++ [(error_resp p r st, d)]) s1.

(** [doInference]; [again] is [schedule(deviceId)]. *)
Definition doInference (again : sched -> outcome sched) (d p r : Z) (s : sched)
    : outcome sched :=
  match reqs s !! p with
  | None => again s
  | Some m =>
      match m !! r with
      | None => again s
      | Some e =>
          let new_req := data e in
          if has_listener env && negb (validateTask env (clock s) p d (i32 (task_id new_req)))
          then again (reject d p r (-1) (tick s))
          else
            let s1 := if has_listener env then tick s else s in
            if isBlocked env (clock s1) d then again (reject d p r (-2) (tick s1))
            else
              let s2 := tick s1 in
              let s3 := set_load d (load d s2 + 1)
                          (set_entry p r (mkEntry new_req RUNNING d) s2) in
              let sent := normalize_dma (num_dma_ch env d) new_req in
              let retval := npu_run_req env (clock s3) d sent in
              let s4 := emit [InferenceRequested d sent retval] (tick s3) in
              if (retval =? - EBUSY) || (retval =? - EAGAIN) then
                let s5 := set_load d (load d s4 - 1)
                            (set_entry p r (mkEntry new_req PENDING (-1)) s4) in
                Ret (set_queue (pushRequest d p r (i32 (task_id sent)) (queue s5)) s5)
              else if retval =? 0 then Ret s4
              else Aborted (to_listener [onSchedulerError (u32 retval) d] s4)
      end
  end.

(** [schedule]: the policy picks a request and [doInference] sends it.  The two
    call each other; the fuel bounds the depth. *)
Fixpoint schedule_fuel (fuel : nat) (d : Z) (s : sched) : outcome sched :=
  match fuel with
  | O => OutOfFuel
  | S f =>
      let '(item, q) := pol_pop d (queue s) in
      let s1 := set_queue q s in
      match item with
      | None => Ret s1
      | Some (p, r) => doInference (schedule_fuel f d) d p r s1
      end
  end.

Definition schedule (d : Z) (s : sched) : outcome sched :=
  schedule_fuel (S (length (pol_items d (queue s)))) d s.

(** The deferred callbacks, taken under the lock and called after it. *)
Definition flush (s : sched) : sched :=
  to_listener (map (fun cb => onInferenceComplete cb.1 cb.2) (pendingErrorCallbacks s))
    (set_pending [] s).

Definition AddScheduler (packet : request_acc) (d : Z) (s : sched) : outcome sched :=
  if negb (in_range d s) then OutOfRange
  else
    let p := i32 (proc_id packet) in
    let r := i32 (req_id packet) in
    let s1 := set_entry p r (mkEntry packet PENDING (-1)) s in
    let s2 := set_loadsProc
                (<[p := i32 (default 0 (loadsProc s1 !! p) + 1)]> (loadsProc s1)) s1 in
    let s3 := set_queue (pushRequest d p r (i32 (task_id packet)) (queue s2)) s2 in
    obind (if load d s3 <? SCHED_THRE then schedule d s3 else Ret s3)
      (fun s4 => Ret (flush s4)) id.

(** No entry of any state is left for the task. *)
Definition task_drained (p t : Z) (s : sched) : bool :=
  match reqs s !! p with
  | None => true
  | Some m => forallb (fun kv => negb (task_id (data kv.2) =? u32 t)) (map_to_list m)
  end.

Definition FinishJobs (d : Z) (resp : response) (s : sched) : outcome sched :=
  if negb (in_range d s) then OutOfRange
  else
    let r := i32 (rs_req_id resp) in
    let p := i32 (rs_proc_id resp) in
    let s1 := if 0 <? load d s then set_load d (load d s - 1) s else s in
    match reqs s1 !! p with
    | None => schedule d s1
    | Some m =>
        let s2 := set_loadsProc (dec_proc_load p (loadsProc s1)) s1 in
        match m !! r with
        | None => schedule d s2
        | Some e =>
            let wasCancelled := bool_decide (state e = CANCELLED) in
            let t := i32 (task_id (data e)) in
            let s3 := erase_entry p r
                        (set_queue (updateTaskInferenceTime p t (inf_time resp) (queue s2)) s2) in
            let drained := has_listener env && task_drained p t s3 in
            obind (schedule d s3)
              (fun s4 =>
                 let s5 := flush s4 in
                 let s6 := if drained then to_listener [onTaskDrained p t] s5 else s5 in
                 Ret (if wasCancelled then s6
                      else to_listener [onInferenceComplete resp d] s6)) id
        end
    end.

(** Running entries selected by [sel] become cancelled, pending ones are erased. *)
Definition stop_entries (sel : RequestEntry -> bool) (m : gmap Z RequestEntry)
    : gmap Z RequestEntry :=
  omap (fun e =>
          if sel e then
            match state e with
            | RUNNING => Some (mkEntry (data e) CANCELLED (deviceId e))
            | PENDING => None
            | CANCELLED => Some e
            end
          else Some e) m.

Definition count_pending (sel : RequestEntry -> bool) (m : gmap Z RequestEntry) : nat :=
  length (List.filter (fun kv => sel kv.2 && bool_decide (state kv.2 = PENDING)) (map_to_list m)).

(** What [StopTaskInference] and [StopAllInferenceForProcess] have in common. *)
Definition stop_requests (sel : RequestEntry -> bool) (p : Z) (m : gmap Z RequestEntry)
    (s : sched) : sched :=
  set_loadsProc (Nat.iter (count_pending sel m) (dec_proc_load p) (loadsProc s))
    (set_reqs (<[p := stop_entries sel m]> (reqs s)) s).

Definition StopTaskInference (p d t : Z) (s : sched) : sched :=
  match reqs s !! p with
  | None => s
  | Some m => stop_requests (fun e => task_id (data e) =? u32 t) p m s
  end.

Definition StopAllInferenceForProcess (p d : Z) (s : sched) : sched :=
  match reqs s !! p with
  | None => s
  | Some m =>
      let s1 := stop_requests (fun _ => true) p m s in
      if decide (stop_entries (fun _ => true) m = ∅) then set_reqs (delete p (reqs s1)) s1 else s1
  end.

Definition StopScheduler (p : Z) (s : sched) : sched :=
  set_queue (cleanTaskInferenceTime p (queue s)) (set_reqs (delete p (reqs s)) s).

Definition ClearAllLoad (s : sched) : sched :=
  mkSched (map (fun _ => 0) (loads s)) ∅ (reqs s) (pendingErrorCallbacks s) (queue s) (trace s)
    (clock s).
Definition ClearProcLoad (p : Z) (s : sched) : sched := set_loadsProc (delete p (loadsProc s)) s.
Definition cleanDiedProcess (p : Z) (s : sched) : sched := set_reqs (delete p (reqs s)) s.

Definition SendError (d errCode : Z) (s : sched) : sched :=
  to_listener [onSchedulerError errCode d] s.

Definition ClearRunningRequests (p d : Z) (s : sched) : sched :=
  match reqs s !! p with
  | None => s
  | Some m =>
      set_reqs (<[p := (fun e => if bool_decide (state e = RUNNING) && (deviceId e =? d)
                                 then mkEntry (data e) CANCELLED (deviceId e) else e) <$> m]>
                  (reqs s)) s
  end.

(** *** Queries *)

Definition running_on (d : Z) (e : RequestEntry) : bool :=
  bool_decide (state e = RUNNING) && (deviceId e =? d).

Definition GetRunningRequestIds (p d : Z) (s : sched) : list Z :=
  match reqs s !! p with
  | None => []
  | Some m => List.filter (fun r => if m !! r is Some e then running_on d e else false) (keys m)
  end.

Definition GetRunningRequestCount (p d : Z) (s : sched) : Z :=
  match reqs s !! p with
  | None => 0
  | Some m => Z.of_nat (length (List.filter (fun kv => running_on d kv.2) (map_to_list m)))
  end.

Definition GetRunningTaskIds (p : Z) (s : sched) : list Z :=
  match reqs s !! p with
  | None => []
  | Some m =>
      asc (list_to_set (map (fun kv => i32 (task_id (data kv.2)))
             (List.filter (fun kv => bool_decide (state kv.2 = RUNNING)) (map_to_list m))))
  end.

Definition IsRequestRunning (p d r : Z) (s : sched) : bool :=
  match entry p r s with Some e => running_on d e | None => false end.

Definition HasPendingRequest (p r : Z) (s : sched) : bool :=
  bool_decide (is_Some (entry p r s)).

(** The calls the service makes, one step each. *)
Inductive call :=
| CAdd (packet : request_acc) (d : Z)
| CFinish (d : Z) (resp : response)
| CStopTask (p d t : Z)
| CStopAll (p d : Z)
| CStopScheduler (p : Z)
| CClearAllLoad
| CClearProcLoad (p : Z)
| CCleanDied (p : Z)
| CClearRunning (p d : Z)
| CSendError (d errCode : Z).

Definition exec (c : call) (s : sched) : outcome sched :=
  match c with
  | CAdd packet d => AddScheduler packet d s
  | CFinish d resp => FinishJobs d resp s
  | CStopTask p d t => Ret (StopTaskInference p d t s)
  | CStopAll p d => Ret (StopAllInferenceForProcess p d s)
  | CStopScheduler p => Ret (StopScheduler p s)
  | CClearAllLoad => Ret (ClearAllLoad s)
  | CClearProcLoad p => Ret (ClearProcLoad p s)
  | CCleanDied p => Ret (cleanDiedProcess p s)
  | CClearRunning p d => Ret (ClearRunningRequests p d s)
  | CSendError d errCode => Ret (SendError d errCode s)
  end.

End Sched.
Arguments sched : clear implicits.

(** The constructor: [n] devices and an empty queue. *)
Definition new_sched {Q} (n : nat) (q : Q) : sched Q :=
  mkSched (replicate n 0) ∅ ∅ [] q [] 0.

End Scheduler.
