(* ===== verification/SchedulerSpec.v ===== *)
(** * Request scheduler: the dispatch loop

    The contract [PolicyLaws] of a queueing discipline, and the mutual recursion of
    [schedule] and [doInference] as an inductive relation, [dispatch], with the
    proof that the loop terminates and follows it. *)

From Stdlib Require Import ZArith Lia.
From S2P Require Import Prelude Memory Scheduler.
Import Scheduler.

(** What the scheduler relies on: a policy is a bag of requests per device. *)
Class PolicyLaws (Q : Type) `{!Policy Q} := {
  pol_ok : nat -> Q -> Prop;                         (** for [n] devices *)
  push_ok n d p r t q : pol_ok n q -> 0 <= d < Z.of_nat n -> pol_ok n (pushRequest d p r t q);
  push_items n d p r t q :
    pol_ok n q -> 0 <= d < Z.of_nat n ->
    pol_items d (pushRequest d p r t q) ≡ₚ (p, r) :: pol_items d q;
  push_items_ne n d d' p r t q :
    pol_ok n q -> 0 <= d < Z.of_nat n -> 0 <= d' < Z.of_nat n -> d' <> d ->
    pol_items d' (pushRequest d p r t q) = pol_items d' q;
  pop_ok n d q : pol_ok n q -> 0 <= d < Z.of_nat n -> pol_ok n (pol_pop d q).2;
  pop_items n d q :
    pol_ok n q -> 0 <= d < Z.of_nat n ->
    pol_items d q ≡ₚ option_list (pol_pop d q).1 ++ pol_items d (pol_pop d q).2;
  pop_None n d q :
    pol_ok n q -> 0 <= d < Z.of_nat n -> (pol_pop d q).1 = None -> pol_items d q = [];
  pop_items_ne n d d' q :
    pol_ok n q -> 0 <= d < Z.of_nat n -> 0 <= d' < Z.of_nat n -> d' <> d ->
    pol_items d' (pol_pop d q).2 = pol_items d' q;
  update_ok n p t x q : pol_ok n q -> pol_ok n (updateTaskInferenceTime p t x q);
  update_items p t x d q : pol_items d (updateTaskInferenceTime p t x q) = pol_items d q;
  clean_ok n p q : pol_ok n q -> pol_ok n (cleanTaskInferenceTime p q);
  clean_items p d q : pol_items d (cleanTaskInferenceTime p q) = pol_items d q
}.

Section Spec.
Context {Q : Type} `{PolicyLaws Q}.
Context (env : environment).
Implicit Types (s : sched Q) (d p r : Z) (e : RequestEntry).

Definition ndev s : nat := length (loads s).
Definition dev d s : Prop := 0 <= d < Z.of_nat (ndev s).
Definition items d s : list (Z * Z) := pol_items d (queue s).

Lemma in_range_dev d s : in_range d s = true <-> dev d s.
Proof. unfold in_range, dev, ndev. rewrite andb_true_iff, Z.leb_le, Z.ltb_lt. tauto. Qed.

(** ** The field updates *)

Lemma load_set_load d l s d' :
  dev d s -> 0 <= d' -> load d' (set_load d l s) = if decide (d' = d) then l else load d' s.
Proof.
  intros [Hd1 Hd2] Hd'. unfold load. simpl. destruct (decide (d' = d)) as [->|].
  - rewrite list_lookup_insert_eq; [done|]. unfold ndev in Hd2. lia.
  - rewrite list_lookup_insert_ne; [done|lia].
Qed.

Lemma ndev_set_load d l s : ndev (set_load d l s) = ndev s.
Proof. unfold ndev. simpl. by rewrite length_insert. Qed.

Lemma entry_set_entry p r e s p' r' :
  entry p' r' (set_entry p r e s) = if decide ((p', r') = (p, r)) then Some e else entry p' r' s.
Proof.
  unfold entry. simpl. destruct (decide (p' = p)) as [->|Hp].
  - rewrite lookup_insert_eq. simpl. destruct (decide (r' = r)) as [->|Hr].
    + rewrite lookup_insert_eq. by destruct (decide _).
    + rewrite lookup_insert_ne by done. destruct (decide _); [congruence|].
      by destruct (reqs s !! p); simpl; [|rewrite lookup_empty].
  - rewrite lookup_insert_ne by done. by destruct (decide _); [congruence|].
Qed.

Lemma entry_erase_entry p r s p' r' :
  entry p' r' (erase_entry p r s) = if decide ((p', r') = (p, r)) then None else entry p' r' s.
Proof.
  unfold entry, erase_entry. destruct (reqs s !! p) as [m|] eqn:E; simpl.
  - destruct (decide (p' = p)) as [->|Hp].
    + rewrite lookup_insert_eq, E. simpl. destruct (decide (r' = r)) as [->|Hr].
      * rewrite lookup_delete_eq. by destruct (decide _).
      * rewrite lookup_delete_ne by done. by destruct (decide _); [congruence|].
    + rewrite lookup_insert_ne by done. by destruct (decide _); [congruence|].
  - destruct (decide _) as [[= -> ->]|]; [by rewrite E|done].
Qed.

Lemma erase_entry_fields p r s :
  let s' := erase_entry p r s in
  loads s' = loads s /\ loadsProc s' = loadsProc s /\ queue s' = queue s /\ trace s' = trace s /\
  pendingErrorCallbacks s' = pendingErrorCallbacks s.
Proof. unfold erase_entry. by destruct (reqs s !! p). Qed.

Lemma reject_fields d p r st s :
  let s' := reject d p r st s in
  loads s' = loads s /\ queue s' = queue s /\ trace s' = trace s /\
  pendingErrorCallbacks s' = pendingErrorCallbacks s ++ [(error_resp p r st, d)].
Proof.
  unfold reject. destruct (erase_entry_fields p r
    (set_loadsProc (dec_proc_load p (loadsProc s)) s)) as (El & _ & Eq & Et & Ep).
  simpl in *. by rewrite El, Eq, Et, Ep.
Qed.

Lemma entry_reject d p r st s p' r' :
  entry p' r' (reject d p r st s) = if decide ((p', r') = (p, r)) then None else entry p' r' s.
Proof. unfold reject. exact (entry_erase_entry p r (set_loadsProc _ s) p' r'). Qed.

(** ** One pass of the dispatch loop *)

(** The calls made before the outcome of a request is known. *)
Definition ticks (n : nat) s : sched Q := Nat.iter n tick s.

Lemma ticks_fields n s :
  let s' := ticks n s in
  loads s' = loads s /\ queue s' = queue s /\ trace s' = trace s /\ reqs s' = reqs s /\
  pendingErrorCallbacks s' = pendingErrorCallbacks s.
Proof. by induction n. Qed.

Lemma entry_ticks n s p r : entry p r (ticks n s) = entry p r s.
Proof. unfold entry. by destruct (ticks_fields n s) as (_ & _ & _ & -> & _). Qed.

(** The request is handed to the driver, which answers [ret]. *)
Definition sent d p r e ret s : sched Q :=
  emit [InferenceRequested d (normalize_dma (num_dma_ch env d) (data e)) ret]
    (tick (set_load d (load d s + 1) (set_entry p r (mkEntry (data e) RUNNING d) s))).

(** The driver was busy: the request is pending again, at the queue. *)
Definition requeued d p r e s : sched Q :=
  let s1 := set_load d (load d s - 1) (set_entry p r (mkEntry (data e) PENDING (-1)) s) in
  set_queue (pushRequest d p r (i32 (task_id (data e))) (queue s1)) s1.

Definition busy (ret : Z) : Prop := ret = - EBUSY \/ ret = - EAGAIN.

Inductive dispatch d : sched Q -> outcome (sched Q) -> Prop :=
| dp_empty s q :
    pol_pop d (queue s) = (None, q) -> dispatch d s (Ret (set_queue q s))
| dp_missing s p r q o :
    pol_pop d (queue s) = (Some (p, r), q) -> entry p r s = None ->
    dispatch d (set_queue q s) o -> dispatch d s o
| dp_reject s p r q e st n o :
    pol_pop d (queue s) = (Some (p, r), q) -> entry p r s = Some e ->
    dispatch d (reject d p r st (ticks n (set_queue q s))) o -> dispatch d s o
| dp_busy s p r q e n ret :
    pol_pop d (queue s) = (Some (p, r), q) -> entry p r s = Some e -> busy ret ->
    (exists k rq, npu_run_req env k d rq = ret) ->
    dispatch d s (Ret (requeued d p r e (sent d p r e ret (ticks n (set_queue q s)))))
| dp_sent s p r q e n :
    pol_pop d (queue s) = (Some (p, r), q) -> entry p r s = Some e ->
    dispatch d s (Ret (sent d p r e 0 (ticks n (set_queue q s))))
| dp_failed s p r q e n ret :
    pol_pop d (queue s) = (Some (p, r), q) -> entry p r s = Some e -> ret <> 0 ->
    dispatch d s
      (Aborted (to_listener env [onSchedulerError (u32 ret) d]
                  (sent d p r e ret (ticks n (set_queue q s))))).

Lemma normalize_dma_id n rq :
  task_id (normalize_dma n rq) = task_id rq /\ proc_id (normalize_dma n rq) = proc_id rq /\
  req_id (normalize_dma n rq) = req_id rq.
Proof. unfold normalize_dma. by destruct (_ && _). Qed.

Lemma entry_lookup p r s m e :
  reqs s !! p = Some m -> m !! r = Some e -> entry p r s = Some e.
Proof. unfold entry. by intros ->. Qed.

(** [doInference] on a popped request follows one of the rules. *)
Lemma doInference_dispatch again d p r q s :
  pol_pop d (queue s) = (Some (p, r), q) ->
  (forall s', queue s' = q -> loads s' = loads s -> dispatch d s' (again s')) ->
  dispatch d s (doInference env again d p r (set_queue q s)).
Proof.
  intros Hpop Hagain. unfold doInference. cbv zeta.
  change (reqs (set_queue q s)) with (reqs s).
  assert (forall st n, dispatch d (reject d p r st (ticks n (set_queue q s)))
            (again (reject d p r st (ticks n (set_queue q s))))) as HR.
  { intros st n. destruct (reject_fields d p r st (ticks n (set_queue q s))) as (El & Eq & _).
    destruct (ticks_fields n (set_queue q s)) as (El' & Eq' & _).
    apply Hagain; simpl in *; congruence. }
  destruct (reqs s !! p) as [m|] eqn:Em.
  2: { apply (dp_missing d s p r q); [done|unfold entry; by rewrite Em|by apply Hagain]. }
  destruct (m !! r) as [e|] eqn:Ee.
  2: { apply (dp_missing d s p r q); [done|unfold entry; by rewrite Em|by apply Hagain]. }
  pose proof (entry_lookup p r s m e Em Ee) as Hent.
  destruct (has_listener env && _) eqn:Ev; [by apply (dp_reject d s p r q e (-1) 1)|].
  pose (n := if has_listener env then 1%nat else 0%nat).
  assert ((if has_listener env then tick (set_queue q s) else set_queue q s)
          = ticks n (set_queue q s)) as -> by (unfold n; by destruct (has_listener env)).
  change (tick (ticks n (set_queue q s))) with (ticks (S n) (set_queue q s)).
  destruct (isBlocked _ _ _); [by apply (dp_reject d s p r q e (-2) (S n))|].
  generalize (S n) as k. clear n. intros n.
  destruct (normalize_dma_id (num_dma_ch env d) (data e)) as (Ht & _).
  match goal with |- context [npu_run_req env ?k d ?rq] => remember (npu_run_req env k d rq)
    as ret eqn:Eret end.
  destruct ((ret =? - EBUSY) || (ret =? - EAGAIN)) eqn:Eb; [|destruct (Z.eqb_spec ret 0) as [E0|E0]].
  - rewrite Ht. apply (dp_busy d s p r q e n ret); [done|done| |by eexists _, _].
    apply orb_true_iff in Eb. unfold busy. rewrite <- !Z.eqb_eq. exact Eb.
  - rewrite E0. by apply (dp_sent d s p r q e n).
  - by apply (dp_failed d s p r q e n ret).
Qed.

(** The loop terminates: every pass takes a request out of the queue. *)
Lemma schedule_fuel_dispatch fuel d s :
  pol_ok (ndev s) (queue s) -> dev d s -> (length (items d s) < fuel)%nat ->
  dispatch d s (schedule_fuel env fuel d s).
Proof.
  revert s. induction fuel as [|fuel IH]; intros s Hok Hd Hlen; [lia|]. simpl.
  pose proof (pop_items _ d (queue s) Hok Hd) as Hp.
  pose proof (pop_ok _ d (queue s) Hok Hd) as Hok'.
  destruct (pol_pop d (queue s)) as [[[p r]|] q] eqn:E; [|by constructor].
  apply doInference_dispatch; [done|]. intros s' Hq Hl. apply IH.
  - unfold ndev in *. by rewrite Hq, Hl.
  - unfold dev, ndev in *. by rewrite Hl.
  - unfold items in *. rewrite Hq. simpl in Hp. rewrite Hp in Hlen. simpl in Hlen. lia.
Qed.

Lemma schedule_dispatch d s :
  pol_ok (ndev s) (queue s) -> dev d s -> dispatch d s (schedule env d s).
Proof. intros. apply schedule_fuel_dispatch; [done|done|]. unfold items. lia. Qed.

End Spec.
