(* ===== verification/SchedulerInv.v ===== *)
(** * Request scheduler: what the dispatch loop preserves

    Facts about [dispatch], each by induction on the relation: the loads and the
    queues of the devices, the table of requests, the calls made. *)

From Stdlib Require Import ZArith Lia.
From S2P Require Import Prelude Memory Scheduler SchedulerSpec.
Import Scheduler.

(** ** Counting *)

Definition cnt {A} (f : A -> bool) (l : list A) : nat := length (List.filter f l).

Lemma cnt_app {A} (f : A -> bool) l1 l2 : cnt f (l1 ++ l2) = (cnt f l1 + cnt f l2)%nat.
Proof. unfold cnt. by rewrite List.filter_app, length_app. Qed.

Lemma cnt_cons {A} (f : A -> bool) x l : cnt f (x :: l) = ((if f x then 1 else 0) + cnt f l)%nat.
Proof. unfold cnt. simpl. by destruct (f x). Qed.

Lemma cnt_perm {A} (f : A -> bool) l1 l2 : l1 ≡ₚ l2 -> cnt f l1 = cnt f l2.
Proof. induction 1; rewrite ?cnt_cons in *; lia. Qed.

Lemma cnt_map {A B} (f : B -> bool) (g : A -> B) l : cnt f (map g l) = cnt (fun x => f (g x)) l.
Proof. unfold cnt. induction l as [|x l IH]; simpl; [done|]. destruct (f (g x)); simpl; auto. Qed.

#[export] Hint Rewrite @cnt_app @cnt_cons : dxrt_rw.

Lemma i32_i32 z : i32 (i32 z) = i32 z.
Proof. apply swrap_small; [lia|]. apply swrap_range. lia. Qed.

Lemma i32_u32 z : i32 (u32 z) = i32 z.
Proof. apply swrap_uwrap. lia. Qed.

Section Inv.
Context {Q : Type} `{PolicyLaws Q}.
Context (env : environment).
Implicit Types (s : sched Q) (d p r : Z) (e : RequestEntry) (k : Z * Z).

(** ** The queues of all devices *)

Definition devs s : list Z := Z.of_nat <$> seq 0 (ndev s).
Definition all_items s : list (Z * Z) := mbind (fun d => items d s) (devs s).

Lemma elem_of_devs d s : d ∈ devs s <-> dev d s.
Proof.
  unfold devs, dev. rewrite list_elem_of_fmap. split.
  - intros (n & -> & Hn%elem_of_seq). lia.
  - intros Hd. exists (Z.to_nat d). rewrite elem_of_seq. split; lia.
Qed.

Lemma elem_of_all_items k s : k ∈ all_items s <-> exists d, dev d s /\ k ∈ items d s.
Proof.
  unfold all_items. rewrite list_elem_of_bind. setoid_rewrite elem_of_devs. naive_solver.
Qed.

Lemma mbind_ext_in {B} (f g : Z -> list B) (ds : list Z) :
  (forall d, d ∈ ds -> f d = g d) -> mbind f ds = mbind g ds.
Proof.
  induction ds as [|x ds IH]; intros Hf; [done|]. cbn.
  rewrite Hf by set_solver. by rewrite IH by set_solver.
Qed.

(** Two families of queues that differ by [l] at one device. *)
Lemma bind_perm_at {B} (f g : Z -> list B) ds d l :
  NoDup ds -> d ∈ ds -> f d ≡ₚ l ++ g d -> (forall d', d' ∈ ds -> d' <> d -> f d' = g d') ->
  mbind f ds ≡ₚ l ++ mbind g ds.
Proof.
  induction 1 as [|x ds Hx ND IH]; intros Hin Hd Hne; [by apply elem_of_nil in Hin|].
  cbn. apply elem_of_cons in Hin as [->|Hin].
  - rewrite Hd, <- app_assoc. rewrite (mbind_ext_in f g ds); [done|]. intros y Hy.
    apply Hne; [by right|]. by intros ->.
  - rewrite IH; [|done|done|intros; apply Hne; [by right|done]].
    rewrite (Hne x) by (set_solver || by intros ->).
    rewrite !app_assoc. by rewrite (Permutation_app_comm l).
Qed.

Lemma NoDup_devs s : NoDup (devs s).
Proof. apply NoDup_fmap; [intros ?? ?; lia|apply NoDup_seq]. Qed.

Lemma all_items_perm d s s' l :
  dev d s -> ndev s' = ndev s -> items d s ≡ₚ l ++ items d s' ->
  (forall d', dev d' s -> d' <> d -> items d' s = items d' s') ->
  all_items s ≡ₚ l ++ all_items s'.
Proof.
  intros Hd Hn Hi Hne. unfold all_items, devs. rewrite Hn.
  apply (bind_perm_at (fun d => items d s) (fun d => items d s') _ d); [apply NoDup_devs| |done|].
  - by apply elem_of_devs.
  - intros d' Hd'. apply Hne. by apply elem_of_devs.
Qed.

(** ** The states the loop goes through *)

Definition pol_valid s : Prop := pol_ok (ndev s) (queue s).

Lemma pop_facts d s o q :
  pol_valid s -> dev d s -> pol_pop d (queue s) = (o, q) ->
  pol_valid (set_queue q s) /\ items d s ≡ₚ option_list o ++ items d (set_queue q s) /\
  all_items s ≡ₚ option_list o ++ all_items (set_queue q s) /\
  (forall d', dev d' s -> d' <> d -> items d' (set_queue q s) = items d' s) /\
  (o = None -> items d s = []).
Proof.
  intros Hv Hd E.
  pose proof (pop_ok _ d (queue s) Hv Hd) as P1. pose proof (pop_items _ d (queue s) Hv Hd) as P2.
  pose proof (pop_None _ d (queue s) Hv Hd) as P3.
  assert (forall d', dev d' s -> d' <> d -> items d' (set_queue q s) = items d' s) as P4.
  { intros d' Hd' Hne. pose proof (pop_items_ne _ d d' (queue s) Hv Hd Hd' Hne) as P.
    rewrite E in P. exact P. }
  rewrite E in P1, P2, P3. simpl in P1, P2, P3. split_and!; try done.
  apply (all_items_perm d); [done|done|done|]. intros d' Hd' Hne. by rewrite P4.
Qed.

(** A state with the loads and the queue of another. *)
Lemma same_loads_queue s s' :
  loads s' = loads s -> queue s' = queue s ->
  ndev s' = ndev s /\ (forall d, dev d s' <-> dev d s) /\ (pol_valid s' <-> pol_valid s) /\
  (forall d, load d s' = load d s) /\ (forall d, items d s' = items d s) /\
  all_items s' = all_items s.
Proof.
  intros El Eq. unfold ndev, dev, pol_valid, load, items, all_items, devs, items, ndev.
  rewrite El, Eq. tauto.
Qed.

Lemma reject_same d p r st n q s :
  let s' := reject d p r st (ticks n (set_queue q s)) in
  loads s' = loads (set_queue q s) /\ queue s' = queue (set_queue q s) /\ trace s' = trace s /\
  pendingErrorCallbacks s' = pendingErrorCallbacks s ++ [(error_resp p r st, d)].
Proof.
  intros s'. destruct (reject_fields d p r st (ticks n (set_queue q s))) as (E1 & E2 & E3 & E4).
  destruct (ticks_fields n (set_queue q s)) as (F1 & F2 & F3 & _ & F4). simpl in *.
  split_and!; congruence.
Qed.

(** *** The state after the driver call *)

Lemma sent_facts d p r e ret n q s :
  dev d s -> pol_valid (set_queue q s) ->
  let s' := sent env d p r e ret (ticks n (set_queue q s)) in
  ndev s' = ndev s /\ queue s' = q /\ pol_valid s' /\
  (forall d', 0 <= d' -> load d' s' = if decide (d' = d) then load d s + 1 else load d' s) /\
  all_items s' = all_items (set_queue q s) /\ (forall d', items d' s' = items d' (set_queue q s)) /\
  trace s' = trace s ++ [InferenceRequested d (normalize_dma (num_dma_ch env d) (data e)) ret] /\
  pendingErrorCallbacks s' = pendingErrorCallbacks s /\
  (forall p' r', entry p' r' s' =
     if decide ((p', r') = (p, r)) then Some (mkEntry (data e) RUNNING d) else entry p' r' s).
Proof.
  intros Hd Hv s'. destruct (ticks_fields n (set_queue q s)) as (F1 & F2 & F3 & _ & F4).
  assert (dev d (ticks n (set_queue q s))) as Hd' by (unfold dev, ndev in *; by rewrite F1).
  assert (ndev s' = ndev s) as En
    by (unfold s', sent, ndev; simpl; by rewrite length_insert, F1).
  assert (queue s' = q) as Eq by (unfold s', sent; simpl; by rewrite F2).
  split_and!; try done.
  - unfold pol_valid in *. rewrite En, Eq. exact Hv.
  - intros d' Hd0. etransitivity; [exact (load_set_load d _ (set_entry p r (mkEntry (data e)
      RUNNING d) (ticks n (set_queue q s))) d' Hd' Hd0)|].
    change (load d' (set_entry ?a ?b ?c ?x)) with (load d' x). unfold load. by rewrite F1.
  - unfold all_items, devs. rewrite En. unfold items. by rewrite Eq.
  - intros d'. unfold items. by rewrite Eq.
  - unfold s', sent. simpl. by rewrite F3.
  - intros p' r'. etransitivity; [exact (entry_set_entry p r _ (ticks n (set_queue q s)) p' r')|].
    by rewrite entry_ticks.
Qed.

Lemma requeued_facts d p r e ret n q s :
  dev d s -> pol_valid (set_queue q s) ->
  let s' := requeued d p r e (sent env d p r e ret (ticks n (set_queue q s))) in
  ndev s' = ndev s /\ pol_valid s' /\ (forall d', 0 <= d' -> load d' s' = load d' s) /\
  all_items s' ≡ₚ (p, r) :: all_items (set_queue q s) /\
  (forall d', dev d' s -> d' <> d -> items d' s' = items d' (set_queue q s)) /\
  trace s' = trace s ++ [InferenceRequested d (normalize_dma (num_dma_ch env d) (data e)) ret] /\
  pendingErrorCallbacks s' = pendingErrorCallbacks s /\
  (forall p' r', entry p' r' s' =
     if decide ((p', r') = (p, r)) then Some (mkEntry (data e) PENDING (-1)) else entry p' r' s).
Proof.
  intros Hd Hv s'.
  destruct (sent_facts d p r e ret n q s Hd Hv) as (En & Eq & Hv' & El & Ea & Ei & Et & Ep & Ee).
  set (s1 := sent env d p r e ret (ticks n (set_queue q s))) in *. clearbody s1.
  assert (ndev s' = ndev s) as En' by (rewrite <- En; exact (length_insert _ _ _)).
  assert (dev d s1) as Hd1 by (unfold dev; by rewrite En).
  assert (queue s' = pushRequest d p r (i32 (task_id (data e))) (queue s1)) as Eq' by done.
  assert (forall d', dev d' s -> d' <> d -> items d' s' = items d' (set_queue q s)) as Hne.
  { intros d' Hd' Hne. assert (dev d' s1) by (unfold dev in *; by rewrite En).
    unfold items. rewrite Eq', (push_items_ne (ndev s1)) by done. by rewrite Eq. }
  split_and!; try done.
  - unfold pol_valid. rewrite En', Eq', <- En. by apply push_ok.
  - intros d' Hd0. etransitivity; [exact (load_set_load d _ (set_entry p r (mkEntry (data e)
      PENDING (-1)) s1) d' Hd1 Hd0)|].
    change (load d' (set_entry ?a ?b ?c ?x)) with (load d' x).
    rewrite !El by (done || apply Hd). destruct (decide (d' = d)) as [->|]; [|done].
    destruct (decide (d = d)); [lia|done].
  - apply (all_items_perm d s' (set_queue q s) [(p, r)]).
    + unfold dev. by rewrite En'.
    + by rewrite En'.
    + unfold items. rewrite Eq', (push_items (ndev s1)) by done. by rewrite Eq.
    + intros d' Hd' Hne'. apply Hne; [|done]. unfold dev in *. by rewrite <- En'.
  - intros p' r'. etransitivity; [exact (entry_set_entry p r _ s1 p' r')|].
    rewrite Ee. by destruct (decide _).
Qed.

Lemma to_listener_fields l s :
  let s' := to_listener env l s in
  loads s' = loads s /\ queue s' = queue s /\ reqs s' = reqs s /\
  pendingErrorCallbacks s' = pendingErrorCallbacks s /\
  trace s' = trace s ++ (if has_listener env then l else []).
Proof. unfold to_listener. destruct (has_listener env); simpl; by rewrite ?app_nil_r. Qed.

(** ** Inductions on [dispatch] *)

(** The final state of a run that returns or aborts. *)
Definition final (o : outcome (sched Q)) s' : Prop := o = Ret s' \/ o = Aborted s'.

Lemma set_queue_side q s :
  ndev (set_queue q s) = ndev s /\ (forall d, dev d (set_queue q s) <-> dev d s) /\
  (forall d, load d (set_queue q s) = load d s) /\
  (forall p r, entry p r (set_queue q s) = entry p r s).
Proof. done. Qed.

(** Rejecting a popped request leaves the queues and the loads of the pop. *)
Lemma reject_side d p r st n q s :
  let s' := reject d p r st (ticks n (set_queue q s)) in
  ndev s' = ndev s /\ (forall d, dev d s' <-> dev d s) /\
  (pol_valid s' <-> pol_valid (set_queue q s)) /\ (forall d, load d s' = load d s) /\
  (forall d, items d s' = items d (set_queue q s)) /\ all_items s' = all_items (set_queue q s).
Proof.
  intros s'. destruct (reject_same d p r st n q s) as (El & Eq & _).
  exact (same_loads_queue (set_queue q s) s' El Eq).
Qed.

Lemma entry_reject_ticks d p r st n q s p' r' :
  entry p' r' (reject d p r st (ticks n (set_queue q s))) =
  if decide ((p', r') = (p, r)) then None else entry p' r' s.
Proof. rewrite entry_reject. by rewrite entry_ticks. Qed.

(** The loads and the queues: at most one more request runs on the device, the
    other devices are untouched. *)
Definition frame d s s' : Prop :=
  ndev s' = ndev s /\ pol_valid s' /\
  (forall d', dev d' s -> d' <> d -> load d' s' = load d' s /\ items d' s' = items d' s).

Lemma frame_trans d s1 s2 s3 : frame d s1 s2 -> frame d s2 s3 -> frame d s1 s3.
Proof.
  intros (N1 & _ & F1) (N2 & V2 & F2). split; [congruence|]. split; [done|].
  intros d' Hd Hne. destruct (F1 d' Hd Hne) as [<- <-].
  apply F2; [|done]. unfold dev in *. by rewrite N1.
Qed.

Lemma frame_pop d s o q :
  pol_valid s -> dev d s -> pol_pop d (queue s) = (o, q) -> frame d s (set_queue q s).
Proof.
  intros Hv Hd E. destruct (pop_facts d s o q Hv Hd E) as (V & _ & _ & Hne & _).
  split; [done|]. split; [done|]. intros d' Hd' Hn. by rewrite Hne.
Qed.

Lemma frame_reject d p r st n q s :
  pol_valid (set_queue q s) ->
  frame d (set_queue q s) (reject d p r st (ticks n (set_queue q s))).
Proof.
  intros V. destruct (reject_side d p r st n q s) as (N & D & V' & L & I & _).
  split; [done|]. split; [by apply V'|]. intros d' _ _. by rewrite L, I.
Qed.

Lemma dispatch_frame d s o :
  dispatch env d s o -> pol_valid s -> dev d s ->
  exists s', final o s' /\ frame d s s' /\ (load d s' = load d s \/ load d s' = load d s + 1).
Proof.
  induction 1 as [s q E|s p r q o E En D IH|s p r q e st n o E En D IH
    |s p r q e n ret E En Hb Hex|s p r q e n E En|s p r q e n ret E En Hr]; intros Hv Hd;
    pose proof (frame_pop d s _ q Hv Hd E) as F; destruct (F) as (_ & V & Hne).
  - exists (set_queue q s). split; [by left|]. split; [done|by left].
  - destruct (IH V Hd) as (s' & Hf & F' & Hl). exists s'. split; [done|].
    split; [by eapply frame_trans|done].
  - destruct (reject_side d p r st n q s) as (N & D' & V' & L & _).
    destruct (IH (proj2 V' V) (proj2 (D' d) Hd)) as (s' & Hf & F' & Hl). exists s'.
    split; [done|]. rewrite L in Hl. split; [|done].
    eapply frame_trans; [done|]. eapply frame_trans; [|done]. by apply frame_reject.
  - destruct (requeued_facts d p r e ret n q s Hd V) as (N & V' & L & _ & I & _).
    eexists. split; [by left|]. split; [|left; by rewrite L by apply Hd]. split; [done|].
    split; [done|]. intros d' Hd' Hn. rewrite L, I by (done || apply Hd'). by apply Hne.
  - destruct (sent_facts d p r e 0 n q s Hd V) as (N & _ & V' & L & _ & I & _).
    eexists. split; [by left|]. split; [|right; rewrite L by apply Hd; by destruct (decide _)].
    split; [done|]. split; [done|]. intros d' Hd' Hn. rewrite L, I by apply Hd'.
    destruct (decide _); [done|]. by apply Hne.
  - destruct (sent_facts d p r e ret n q s Hd V) as (N & _ & V' & L & _ & I & _).
    destruct (to_listener_fields [onSchedulerError (u32 ret) d]
      (sent env d p r e ret (ticks n (set_queue q s)))) as (El & Eq & _).
    destruct (same_loads_queue _ _ El Eq) as (N2 & _ & V2 & L2 & I2 & _).
    eexists. split; [by right|]. split;
      [|right; rewrite L2, L by apply Hd; by destruct (decide _)].
    split; [congruence|]. split; [by apply V2|]. intros d' Hd' Hn.
    rewrite L2, I2, L, I by apply Hd'. destruct (decide _); [done|]. by apply Hne.
Qed.

(** With a driver that is never busy, the loop sends a request or empties the queue. *)
Lemma dispatch_conserves d s o s' :
  dispatch env d s o -> pol_valid s -> dev d s ->
  (forall c rq, ~ busy (npu_run_req env c d rq)) -> o = Ret s' ->
  items d s' = [] \/
  (load d s' = load d s + 1 /\ (length (items d s') < length (items d s))%nat).
Proof.
  induction 1 as [s q E|s p r q o E En D IH|s p r q e st n o E En D IH
    |s p r q e n ret E En Hb (c & rq & Hex)|s p r q e n E En|s p r q e n ret E En Hr];
    intros Hv Hd Hnb Ho; destruct (pop_facts d s _ q Hv Hd E) as (V & Hi & _ & _ & HN);
    apply Permutation_length in Hi as Hlen; rewrite length_app in Hlen; simpl in Hlen.
  - injection Ho as <-. left. rewrite HN in Hi by done. simpl in Hi.
    by apply Permutation_nil_l in Hi.
  - destruct (IH V Hd Hnb Ho) as [?|[? ?]]; [by left|right]. split; [done|lia].
  - destruct (reject_side d p r st n q s) as (N & D' & V' & L & I & _).
    rewrite <- L. rewrite I in IH.
    destruct (IH (proj2 V' V) (proj2 (D' d) Hd) Hnb Ho) as [?|[? ?]]; [by left|right].
    split; [done|lia].
  - exfalso. apply (Hnb c rq). by rewrite Hex.
  - injection Ho as <-. right.
    destruct (sent_facts d p r e 0 n q s Hd V) as (_ & _ & _ & L & _ & I & _).
    rewrite L, I by apply Hd. destruct (decide (d = d)); [|done]. split; [done|lia].
  - done.
Qed.

End Inv.
