(* ===== verification/SchedulerCredit.v ===== *)
(** * Request scheduler: accounting of requests

    Every request put into the table is owed at most one acceptance by a device
    and at most one completion; what is owed never grows but by [AddScheduler].
    Also: which entries are queued, and that a cancelled request stays silent. *)

From Stdlib Require Import ZArith Lia.
From S2P Require Import Prelude Memory Scheduler SchedulerSpec SchedulerInv.
Import Scheduler.

(** The keys of the table are the ids of the request, as [int]. *)
Definition req_key (rq : request_acc) : Z * Z := (i32 (proc_id rq), i32 (req_id rq)).
Definition resp_key (rs : response) : Z * Z := (i32 (rs_proc_id rs), i32 (rs_req_id rs)).

Definition is_key (k x : Z * Z) : bool := bool_decide (x = k).

(** The driver accepted request [k]; the listener was given a result for [k]. *)
Definition accepts (k : Z * Z) (ev : event) : bool :=
  match ev with InferenceRequested _ rq ret => (ret =? 0) && is_key k (req_key rq) | _ => false end.
Definition completes (k : Z * Z) (ev : event) : bool :=
  match ev with onInferenceComplete rs _ => is_key k (resp_key rs) | _ => false end.
Definition defers (k : Z * Z) (cb : response * Z) : bool := is_key k (resp_key cb.1).

Section Credit.
Context {Q : Type} `{PolicyLaws Q}.
Context (env : environment).
Implicit Types (s : sched Q) (d p r : Z) (e : RequestEntry) (k : Z * Z).

Definition keyed s : Prop :=
  forall p r e, entry p r s = Some e -> req_key (data e) = (p, r).

(** Entries only disappear or change state. *)
Definition table_le s s' : Prop :=
  forall p r e', entry p r s' = Some e' -> exists e, entry p r s = Some e /\ data e' = data e.

Lemma keyed_le s s' : keyed s -> table_le s s' -> keyed s'.
Proof. intros K T p r e' E. destruct (T p r e' E) as (e & E2 & ->). by apply K. Qed.

Lemma table_le_refl s : table_le s s.
Proof. intros p r e E. by exists e. Qed.

Lemma table_le_entry s s' : (forall p r, entry p r s' = entry p r s) -> table_le s s'.
Proof. intros Hs p r e E. rewrite Hs in E. by exists e. Qed.

Lemma table_le_trans s1 s2 s3 : table_le s1 s2 -> table_le s2 s3 -> table_le s1 s3.
Proof.
  intros T1 T2 p r e E. destruct (T2 p r e E) as (e2 & E2 & ->).
  destruct (T1 p r e2 E2) as (e1 & E1 & ->). by exists e1.
Qed.

Lemma table_le_upd s s' p r e st dv :
  entry p r s = Some e ->
  (forall p' r', entry p' r' s' =
     if decide ((p', r') = (p, r)) then Some (mkEntry (data e) st dv) else entry p' r' s) ->
  table_le s s'.
Proof.
  intros E Hs p' r' e' E'. rewrite Hs in E'. destruct (decide _) as [[= -> ->]|].
  - injection E' as <-. by exists e.
  - by exists e'.
Qed.

Lemma table_le_reject d p r st n q s :
  table_le s (reject d p r st (ticks n (set_queue q s))).
Proof.
  intros p' r' e' E'. rewrite entry_reject_ticks in E'.
  destruct (decide _); [done|]. by exists e'.
Qed.

(** A relation that holds for every rule of [dispatch] holds for a run. *)
Lemma dispatch_rel d (R : sched Q -> sched Q -> Prop) :
  (forall s1 s2 s3, R s1 s2 -> R s2 s3 -> R s1 s3) ->
  (forall s o q, pol_valid s -> dev d s -> pol_pop d (queue s) = (o, q) ->
     (forall p r, o = Some (p, r) -> entry p r s = None) -> R s (set_queue q s)) ->
  (forall s p r q e st n, pol_valid s -> dev d s -> keyed s ->
     pol_pop d (queue s) = (Some (p, r), q) -> entry p r s = Some e ->
     R s (reject d p r st (ticks n (set_queue q s)))) ->
  (forall s p r q e n ret, pol_valid s -> dev d s -> keyed s ->
     pol_pop d (queue s) = (Some (p, r), q) -> entry p r s = Some e -> busy ret ->
     (exists c rq, npu_run_req env c d rq = ret) ->
     R s (requeued d p r e (sent env d p r e ret (ticks n (set_queue q s))))) ->
  (forall s p r q e n ret, pol_valid s -> dev d s -> keyed s ->
     pol_pop d (queue s) = (Some (p, r), q) -> entry p r s = Some e ->
     R s (sent env d p r e ret (ticks n (set_queue q s)))) ->
  (forall s err, R s (to_listener env [onSchedulerError err d] s)) ->
  forall s o s', dispatch env d s o -> pol_valid s -> dev d s -> keyed s -> final o s' ->
    R s s' /\ keyed s'.
Proof.
  intros Ht Hpop Hrej Hbusy Hsent Herr s o s' D. revert s'.
  induction D as [s q E|s p r q o E En D IH|s p r q e st n o E En D IH
    |s p r q e n ret E En Hb Hex|s p r q e n E En|s p r q e n ret E En Hr];
    intros s' Hv Hd K Hf; destruct (pop_facts d s _ q Hv Hd E) as (V & _).
  - destruct Hf as [[= <-]|?]; [|done]. split; [by apply (Hpop s None q)|done].
  - destruct (IH s' V Hd K Hf) as [HR HK]. split; [|done]. eapply Ht; [|exact HR].
    apply (Hpop s (Some (p, r)) q); [done..|]. by intros ?? [= <- <-].
  - destruct (reject_side d p r st n q s) as (_ & D' & V' & _).
    destruct (IH s' (proj2 V' V) (proj2 (D' d) Hd)
      (keyed_le s _ K (table_le_reject d p r st n q s)) Hf) as [HR HK].
    split; [|done]. eapply Ht; [|exact HR]. by apply (Hrej s p r q e).
  - destruct Hf as [[= <-]|?]; [|done]. split; [by eapply Hbusy|].
    eapply keyed_le; [exact K|]. eapply table_le_upd; [exact En|].
    by destruct (requeued_facts env d p r e ret n q s Hd V) as (_&_&_&_&_&_&_&He).
  - destruct Hf as [[= <-]|?]; [|done]. split; [by apply Hsent|].
    eapply keyed_le; [exact K|]. eapply table_le_upd; [exact En|].
    by destruct (sent_facts env d p r e 0 n q s Hd V) as (_&_&_&_&_&_&_&_&He).
  - destruct Hf as [?|[= <-]]; [done|]. split; [eapply Ht; [by apply Hsent|apply Herr]|].
    eapply keyed_le; [exact K|]. eapply table_le_upd; [exact En|].
    destruct (sent_facts env d p r e ret n q s Hd V) as (_&_&_&_&_&_&_&_&He).
    intros p' r'. rewrite <- He. unfold entry.
    by destruct (to_listener_fields env [onSchedulerError (u32 ret) d]
      (sent env d p r e ret (ticks n (set_queue q s)))) as (_ & _ & -> & _).
Qed.

(** ** Acceptances *)

(** How often request [k] was accepted or may still be. *)
Definition accept_credit k s : nat := cnt (accepts k) (trace s) + cnt (is_key k) (all_items s).

Lemma accepts_sent k d p r e ret :
  req_key (data e) = (p, r) ->
  (cnt (accepts k) [InferenceRequested d (normalize_dma (num_dma_ch env d) (data e)) ret]
   = if (ret =? 0)%Z && is_key k (p, r) then 1 else 0)%nat.
Proof.
  intros K. rewrite cnt_cons. simpl. rewrite <- K. unfold req_key.
  destruct (normalize_dma_id (num_dma_ch env d) (data e)) as (_ & -> & ->).
  unfold cnt. simpl. lia.
Qed.

Lemma dispatch_accepts d s o s' k :
  dispatch env d s o -> pol_valid s -> dev d s -> keyed s -> final o s' ->
  (accept_credit k s' <= accept_credit k s)%nat /\ keyed s'.
Proof.
  apply (dispatch_rel d (fun s s' => (accept_credit k s' <= accept_credit k s)%nat));
    unfold accept_credit; clear -H.
  - lia.
  - intros s o q V Hd E _. destruct (pop_facts d s o q V Hd E) as (_ & _ & Ha & _).
    rewrite (cnt_perm _ _ _ Ha), cnt_app. simpl. lia.
  - intros s p r q e st n V Hd K E En. destruct (pop_facts d s _ q V Hd E) as (_ & _ & Ha & _).
    destruct (reject_side d p r st n q s) as (_ & _ & _ & _ & _ & ->).
    destruct (reject_same d p r st n q s) as (_ & _ & -> & _).
    rewrite (cnt_perm _ _ _ Ha), cnt_app. lia.
  - intros s p r q e n ret V Hd K E En Hb _.
    destruct (pop_facts d s _ q V Hd E) as (V' & _ & Ha & _).
    destruct (requeued_facts env d p r e ret n q s Hd V') as (_ & _ & _ & Ha' & _ & -> & _).
    rewrite (cnt_perm _ _ _ Ha), (cnt_perm _ _ _ Ha'), !cnt_app, (accepts_sent k d p r)
      by (by apply K). unfold busy in Hb.
    destruct (Z.eqb_spec ret 0) as [->|_]; [by destruct Hb|]. rewrite cnt_cons. simpl.
    rewrite cnt_cons. simpl. lia.
  - intros s p r q e n ret V Hd K E En.
    destruct (pop_facts d s _ q V Hd E) as (V' & _ & Ha & _).
    destruct (sent_facts env d p r e ret n q s Hd V') as (_ & _ & _ & _ & -> & _ & -> & _).
    rewrite (cnt_perm _ _ _ Ha), !cnt_app, (accepts_sent k d p r) by (by apply K).
    simpl. rewrite cnt_cons. destruct (ret =? 0), (is_key k (p, r)); simpl; lia.
  - intros s err. destruct (to_listener_fields env [onSchedulerError err d] s)
      as (El & Eq & _ & _ & ->).
    destruct (same_loads_queue _ _ El Eq) as (_ & _ & _ & _ & _ & ->).
    rewrite cnt_app. destruct (has_listener env); simpl; unfold cnt; simpl; lia.
Qed.

(** ** Completions *)

(** How often a result for [k] was given to the listener or may still be. *)
Definition complete_credit k s : nat :=
  cnt (completes k) (trace s) + cnt (defers k) (pendingErrorCallbacks s) +
  (if entry k.1 k.2 s then 1 else 0).

Lemma error_resp_key e p r st : req_key (data e) = (p, r) -> resp_key (error_resp p r st) = (p, r).
Proof.
  intros [= <- <-]. unfold resp_key, error_resp. simpl. by rewrite !i32_u32, !i32_i32.
Qed.

Lemma completes_sent k d e ret :
  cnt (completes k) [InferenceRequested d (normalize_dma (num_dma_ch env d) (data e)) ret] = 0%nat.
Proof. done. Qed.

Lemma entry_upd_count k s s' p r e e' :
  entry p r s = Some e ->
  (forall p' r', entry p' r' s' = if decide ((p', r') = (p, r)) then Some e' else entry p' r' s) ->
  ((if entry k.1 k.2 s' then 1 else 0) = (if entry k.1 k.2 s then 1 else 0))%nat.
Proof.
  intros E Hs. rewrite Hs. destruct (decide _) as [D|]; [|done]. destruct k. simpl in *.
  injection D as -> ->. by rewrite E.
Qed.

Lemma dispatch_completes d s o s' k :
  dispatch env d s o -> pol_valid s -> dev d s -> keyed s -> final o s' ->
  (complete_credit k s' <= complete_credit k s)%nat /\ keyed s'.
Proof.
  apply (dispatch_rel d (fun s s' => (complete_credit k s' <= complete_credit k s)%nat));
    unfold complete_credit; clear -H.
  - lia.
  - intros s o q V Hd E _. simpl. change (entry ?a ?b (set_queue q s)) with (entry a b s). lia.
  - intros s p r q e st n V Hd K E En.
    destruct (reject_same d p r st n q s) as (_ & _ & -> & ->).
    rewrite cnt_app, entry_reject_ticks, cnt_cons. unfold defers at 2. simpl.
    rewrite (error_resp_key e) by (by apply K). unfold is_key. destruct k as [kp kr]; simpl.
    unfold cnt at 3. simpl. destruct (decide ((kp, kr) = (p, r))) as [[= -> ->]|Hn].
    + rewrite En, bool_decide_eq_true_2 by done. lia.
    + rewrite bool_decide_eq_false_2 by congruence. lia.
  - intros s p r q e n ret V Hd K E En Hb _.
    destruct (pop_facts d s _ q V Hd E) as (V' & _).
    destruct (requeued_facts env d p r e ret n q s Hd V') as (_ & _ & _ & _ & _ & -> & -> & He).
    rewrite (entry_upd_count k s _ p r e _ En He), cnt_app, completes_sent. lia.
  - intros s p r q e n ret V Hd K E En.
    destruct (pop_facts d s _ q V Hd E) as (V' & _).
    destruct (sent_facts env d p r e ret n q s Hd V') as (_ & _ & _ & _ & _ & _ & -> & -> & He).
    rewrite (entry_upd_count k s _ p r e _ En He), cnt_app, completes_sent. lia.
  - intros s err. unfold entry. destruct (to_listener_fields env [onSchedulerError err d] s)
      as (_ & _ & -> & -> & ->).
    rewrite cnt_app. destruct (has_listener env); simpl; unfold cnt; simpl; lia.
Qed.

(** ** Pending entries are queued *)

Definition pending_queued s : Prop :=
  forall p r e, entry p r s = Some e -> state e = PENDING -> (p, r) ∈ all_items s.

Lemma dispatch_pending d s o s' :
  dispatch env d s o -> pol_valid s -> dev d s -> keyed s -> final o s' ->
  (pending_queued s -> pending_queued s') /\ keyed s'.
Proof.
  apply (dispatch_rel d (fun s s' => pending_queued s -> pending_queued s')); clear -H.
  - tauto.
  - intros s o q V Hd E Hn PQ p r e He Hp. specialize (PQ p r e He Hp).
    destruct (pop_facts d s o q V Hd E) as (_ & _ & Ha & _). rewrite Ha in PQ.
    apply elem_of_app in PQ as [PQ|PQ]; [|done]. destruct o as [[p' r']|]; simpl in PQ.
    + apply list_elem_of_singleton in PQ. injection PQ as -> ->.
      change (entry p' r' s = Some e) in He. by rewrite (Hn p' r') in He.
    + by apply elem_of_nil in PQ.
  - intros s p0 r0 q e0 st n V Hd K E En PQ p r e He Hp. rewrite entry_reject_ticks in He.
    destruct (reject_side d p0 r0 st n q s) as (_ & _ & _ & _ & _ & ->).
    destruct (decide _) as [|Hne]; [done|]. specialize (PQ p r e He Hp).
    destruct (pop_facts d s _ q V Hd E) as (_ & _ & Ha & _). rewrite Ha in PQ. set_solver.
  - intros s p0 r0 q e0 n ret V Hd K E En Hb _ PQ p r e He Hp.
    destruct (pop_facts d s _ q V Hd E) as (V' & _ & Ha & _).
    destruct (requeued_facts env d p0 r0 e0 ret n q s Hd V') as (_ & _ & _ & Ha' & _ & _ & _ & He').
    rewrite Ha'. rewrite He' in He. destruct (decide _) as [[= -> ->]|Hne]; [by left|].
    specialize (PQ p r e He Hp). rewrite Ha in PQ. set_solver.
  - intros s p0 r0 q e0 n ret V Hd K E En PQ p r e He Hp.
    destruct (pop_facts d s _ q V Hd E) as (V' & _ & Ha & _).
    destruct (sent_facts env d p0 r0 e0 ret n q s Hd V') as (_ & _ & _ & _ & -> & _ & _ & _ & He').
    rewrite He' in He. destruct (decide _) as [[= -> ->]|Hne]; [by injection He as <-|].
    specialize (PQ p r e He Hp). rewrite Ha in PQ. set_solver.
  - intros s err PQ p r e He Hp. destruct (to_listener_fields env [onSchedulerError err d] s)
      as (El & Eq & Er & _). destruct (same_loads_queue _ _ El Eq) as (_ & _ & _ & _ & _ & ->).
    unfold entry in He. rewrite Er in He. by apply (PQ p r e).
Qed.

(** ** Silence of a cancelled request *)

(** No queue holds [k], no error for it is deferred, and it is unknown or cancelled. *)
Definition silent k s : Prop :=
  k ∉ all_items s /\ cnt (defers k) (pendingErrorCallbacks s) = 0%nat /\
  (forall e, entry k.1 k.2 s = Some e -> state e = CANCELLED).

Definition keeps_silent k s s' : Prop :=
  silent k s -> silent k s' /\ cnt (completes k) (trace s') = cnt (completes k) (trace s).

Lemma popped_not_silent k d s p r q :
  pol_valid s -> dev d s -> pol_pop d (queue s) = (Some (p, r), q) -> silent k s ->
  (p, r) <> k /\ k ∉ all_items (set_queue q s).
Proof.
  intros V Hd E (Hn & _). destruct (pop_facts d s _ q V Hd E) as (_ & _ & Ha & _).
  rewrite Ha in Hn. set_solver.
Qed.

Lemma dispatch_silent d s o s' k :
  dispatch env d s o -> pol_valid s -> dev d s -> keyed s -> final o s' ->
  keeps_silent k s s' /\ keyed s'.
Proof.
  apply (dispatch_rel d (keeps_silent k)); clear -H; unfold keeps_silent.
  - intros s1 s2 s3 H1 H2 S1. destruct (H1 S1) as [S2 <-]. by apply H2.
  - intros s o q V Hd E _ (S1 & S2 & S3). split; [|done].
    destruct (pop_facts d s o q V Hd E) as (_ & _ & Ha & _). rewrite Ha in S1.
    split; [set_solver|done].
  - intros s p r q e st n V Hd K E En S. destruct (popped_not_silent k d s p r q V Hd E S) as [Hk Hn].
    destruct S as (_ & S2 & S3). unfold silent.
    destruct (reject_side d p r st n q s) as (_ & _ & _ & _ & _ & ->).
    destruct (reject_same d p r st n q s) as (_ & _ & -> & ->). split_and!; [done| | |done].
    + rewrite cnt_app, S2, cnt_cons. unfold defers. simpl.
      rewrite (error_resp_key e) by (by apply K). unfold is_key. by rewrite bool_decide_eq_false_2.
    + intros e'. rewrite entry_reject_ticks. destruct (decide _); [done|]. apply S3.
  - intros s p r q e n ret V Hd K E En Hb _ S.
    destruct (popped_not_silent k d s p r q V Hd E S) as [Hk Hn]. destruct S as (_ & S2 & S3).
    destruct (pop_facts d s _ q V Hd E) as (V' & _).
    destruct (requeued_facts env d p r e ret n q s Hd V') as (_ & _ & _ & Ha & _ & Et & Ep & He).
    unfold silent. rewrite Ha, Et, Ep, cnt_app. split_and!; [set_solver|done| |unfold cnt; simpl; lia].
    intros e'. rewrite He. destruct (decide _) as [D|]; [|apply S3]. by destruct k.
  - intros s p r q e n ret V Hd K E En S.
    destruct (popped_not_silent k d s p r q V Hd E S) as [Hk Hn]. destruct S as (_ & S2 & S3).
    destruct (pop_facts d s _ q V Hd E) as (V' & _).
    destruct (sent_facts env d p r e ret n q s Hd V') as (_ & _ & _ & _ & Ha & _ & Et & Ep & He).
    unfold silent. rewrite Ha, Et, Ep, cnt_app. split_and!; [done|done| |unfold cnt; simpl; lia].
    intros e'. rewrite He. destruct (decide _) as [D|]; [|apply S3]. by destruct k.
  - intros s err S. unfold silent, entry. destruct (to_listener_fields env [onSchedulerError err d] s)
      as (El & Eq & -> & -> & ->). destruct (same_loads_queue _ _ El Eq) as (_ & _ & _ & _ & _ & ->).
    split; [done|]. rewrite cnt_app. destruct (has_listener env); unfold cnt; simpl; lia.
Qed.

End Credit.
