(* ===== verification/SchedulerCalls.v ===== *)
(** * Request scheduler: the calls

    [AddScheduler] and [FinishJobs] split into the update of the table, a run of
    the dispatch loop and the callbacks; the other calls, which only cancel or
    erase entries. *)

From Stdlib Require Import ZArith Lia.
From S2P Require Import Prelude Memory Scheduler SchedulerSpec SchedulerInv SchedulerCredit.
Import Scheduler.

Section Calls.
Context {Q : Type} `{PolicyLaws Q}.
Context (env : environment).
Implicit Types (s : sched Q) (d p r : Z) (e : RequestEntry) (k : Z * Z).

(** ** Calls that do not dispatch *)

(** Entries disappear or are cancelled; nothing else changes but the loads. *)
Definition shrinks s s' : Prop :=
  forall p r e', entry p r s' = Some e' -> exists e, entry p r s = Some e /\ data e' = data e /\
    (state e' = PENDING -> state e = PENDING) /\ (state e = CANCELLED -> state e' = CANCELLED).

Record quiet s s' : Prop := {
  qt_ndev : ndev s' = ndev s;
  qt_valid : pol_valid s -> pol_valid s';
  qt_items d : items d s' = items d s;
  qt_load d : load d s' = load d s \/ load d s' = 0;
  qt_trace : exists errs, trace s' = trace s ++ map (fun x => onSchedulerError x.1 x.2) errs;
  qt_pending : pendingErrorCallbacks s' = pendingErrorCallbacks s;
  qt_table : shrinks s s'
}.

Lemma quiet_reqs s m lp :
  shrinks s (set_reqs m s) -> quiet s (set_loadsProc lp (set_reqs m s)).
Proof. intros T. split; try done; [by left|]. exists []. by rewrite app_nil_r. Qed.

Lemma shrinks_refl s : shrinks s s.
Proof. intros p r e E. by exists e. Qed.

Lemma shrinks_trans s1 s2 s3 : shrinks s1 s2 -> shrinks s2 s3 -> shrinks s1 s3.
Proof.
  intros T1 T2 p r e E. destruct (T2 p r e E) as (e2 & E2 & -> & P2 & C2).
  destruct (T1 p r e2 E2) as (e1 & E1 & -> & P1 & C1). exists e1. tauto.
Qed.

Lemma shrinks_delete s p : shrinks s (set_reqs (delete p (reqs s)) s).
Proof.
  intros p' r e. unfold entry. simpl. destruct (decide (p' = p)) as [->|Hp].
  - by rewrite lookup_delete_eq.
  - rewrite lookup_delete_ne by done. intros E. by exists e.
Qed.

(** Rewriting the table of one process entry by entry. *)
Lemma shrinks_insert s p m m' :
  reqs s !! p = Some m ->
  (forall r e', m' !! r = Some e' -> exists e, m !! r = Some e /\ data e' = data e /\
     (state e' = PENDING -> state e = PENDING) /\ (state e = CANCELLED -> state e' = CANCELLED)) ->
  shrinks s (set_reqs (<[p := m']> (reqs s)) s).
Proof.
  intros E Hm p' r e'. unfold entry. simpl. destruct (decide (p' = p)) as [->|Hp].
  - rewrite lookup_insert_eq, E. simpl. apply Hm.
  - rewrite lookup_insert_ne by done. intros E'. by exists e'.
Qed.

Lemma stop_entries_shrinks sel m r e' :
  stop_entries sel m !! r = Some e' -> exists e, m !! r = Some e /\ data e' = data e /\
     (state e' = PENDING -> state e = PENDING) /\ (state e = CANCELLED -> state e' = CANCELLED).
Proof.
  unfold stop_entries. rewrite lookup_omap. intros (e & E & Hs)%bind_Some.
  exists e. split; [done|]. destruct (sel e); [destruct (state e) eqn:Es|]; simplify_eq; simpl;
    split_and!; congruence.
Qed.

Lemma stop_requests_quiet sel p m s :
  reqs s !! p = Some m -> quiet s (stop_requests sel p m s).
Proof.
  intros E. apply quiet_reqs, (shrinks_insert s p m); [done|]. apply stop_entries_shrinks.
Qed.

Lemma quiet_refl s : quiet s s.
Proof. split; try done; [by left|exists []; by rewrite app_nil_r|apply shrinks_refl]. Qed.

Lemma StopTaskInference_quiet p d t s : quiet s (StopTaskInference p d t s).
Proof.
  unfold StopTaskInference. destruct (reqs s !! p) eqn:E; [|apply quiet_refl].
  by apply stop_requests_quiet.
Qed.

Lemma StopAllInferenceForProcess_quiet p d s : quiet s (StopAllInferenceForProcess p d s).
Proof.
  unfold StopAllInferenceForProcess. destruct (reqs s !! p) as [m|] eqn:E; [|apply quiet_refl].
  pose proof (stop_requests_quiet (fun _ => true) p m s E) as T.
  destruct (decide _); [|done]. destruct T as [N V I L T P S].
  split; try done. eapply shrinks_trans; [exact S|]. apply shrinks_delete.
Qed.

Lemma ClearRunningRequests_quiet p d s : quiet s (ClearRunningRequests p d s).
Proof.
  unfold ClearRunningRequests. destruct (reqs s !! p) as [m|] eqn:E; [|apply quiet_refl].
  apply (quiet_reqs s _ (loadsProc s)), (shrinks_insert s p m); [done|].
  intros r e'. rewrite lookup_fmap. intros (e & -> & E')%fmap_Some. exists e.
  split; [done|]. subst e'.
  destruct (bool_decide_reflect (state e = RUNNING)), (deviceId e =? d); simpl;
    split_and!; congruence.
Qed.

Lemma ClearAllLoad_quiet s : quiet s (ClearAllLoad s).
Proof.
  split; try done.
  - unfold ndev. simpl. by rewrite length_map.
  - unfold pol_valid, ndev. simpl. by rewrite length_map.
  - intros d. unfold load. simpl. rewrite list_lookup_fmap.
    destruct (loads s !! Z.to_nat d); simpl; auto.
  - exists []. by rewrite app_nil_r.
  - exact (shrinks_refl s).
Qed.

Lemma StopScheduler_quiet p s : quiet s (StopScheduler p s).
Proof.
  unfold StopScheduler. split; try done.
  - intros V. by apply (clean_ok (ndev s)).
  - intros d. apply clean_items.
  - by left.
  - exists []. by rewrite app_nil_r.
  - exact (shrinks_delete s p).
Qed.

Lemma SendError_quiet d err s : quiet s (SendError env d err s).
Proof.
  unfold SendError. destruct (to_listener_fields env [onSchedulerError err d] s)
    as (El & Eq & Er & Ep & Et).
  destruct (same_loads_queue _ _ El Eq) as (N & _ & V & L & I & _). split; try done.
  - apply V.
  - intros d'. rewrite L. by left.
  - exists (if has_listener env then [(err, d)] else []). rewrite Et.
    by destruct (has_listener env).
  - intros p r e E. unfold entry in *. rewrite Er in E. by exists e.
Qed.

(** The calls that neither add nor finish a request. *)
Definition plain (c : call) : bool :=
  match c with CAdd _ _ | CFinish _ _ => false | _ => true end.

Lemma exec_plain c s : plain c = true -> exists s', exec env c s = Ret s' /\ quiet s s'.
Proof.
  destruct c; intros Hc; try discriminate Hc; eexists; (split; [reflexivity|]);
    auto using StopTaskInference_quiet, StopAllInferenceForProcess_quiet, StopScheduler_quiet,
      ClearAllLoad_quiet, ClearRunningRequests_quiet, SendError_quiet.
  - apply (quiet_reqs s (reqs s)). exact (shrinks_refl s).
  - apply (quiet_reqs s _ (loadsProc s)). apply shrinks_delete.
Qed.

(** ** [AddScheduler] *)

(** The table and the queue when the new request is in. *)
Definition add_state (packet : request_acc) d s : sched Q :=
  let p := i32 (proc_id packet) in
  let r := i32 (req_id packet) in
  let s1 := set_entry p r (mkEntry packet PENDING (-1)) s in
  let s2 := set_loadsProc (<[p := i32 (default 0 (loadsProc s1 !! p) + 1)]> (loadsProc s1)) s1 in
  set_queue (pushRequest d p r (i32 (task_id packet)) (queue s2)) s2.

(** What follows the loop. *)
Inductive after (f : sched Q -> sched Q) : outcome (sched Q) -> outcome (sched Q) -> Prop :=
| after_ret s : after f (Ret s) (Ret (f s))
| after_abort s : after f (Aborted s) (Aborted s).

Lemma after_final f o o' s' :
  after f o o' -> final o' s' -> exists s, final o s /\ (s' = f s \/ s' = s).
Proof.
  intros [s|s] [E|E]; simplify_eq; eexists.
  - split; [by left|by left].
  - split; [by right|by right].
Qed.

Lemma obind_after d s (f : sched Q -> sched Q) o :
  dispatch env d s o -> after f o (obind o (fun s4 => Ret (f s4)) id).
Proof. induction 1; try assumption; constructor. Qed.

Lemma add_state_facts packet d s :
  dev d s -> pol_valid s ->
  let s' := add_state packet d s in
  ndev s' = ndev s /\ pol_valid s' /\ (forall d', load d' s' = load d' s) /\
  all_items s' ≡ₚ req_key packet :: all_items s /\
  items d s' ≡ₚ req_key packet :: items d s /\
  (forall d', dev d' s -> d' <> d -> items d' s' = items d' s) /\
  trace s' = trace s /\ pendingErrorCallbacks s' = pendingErrorCallbacks s /\
  (forall p r, entry p r s' = if decide ((p, r) = req_key packet)
                              then Some (mkEntry packet PENDING (-1)) else entry p r s).
Proof.
  intros Hd Hv s'.
  assert (items d s' ≡ₚ req_key packet :: items d s) as Hi by (by apply (push_items (ndev s))).
  assert (forall d', dev d' s -> d' <> d -> items d' s' = items d' s) as Hne.
  { intros d' Hd' Hn. by apply (push_items_ne (ndev s)). }
  split_and!; try done.
  - by apply (push_ok (ndev s)).
  - by apply (all_items_perm d s' s [req_key packet]).
  - intros p r. exact (entry_set_entry (i32 (proc_id packet)) (i32 (req_id packet)) _ s p r).
Qed.

Lemma AddScheduler_run packet d s :
  dev d s -> pol_valid s ->
  exists o, after (flush env) o (AddScheduler env packet d s) /\
    ((load d s < SCHED_THRE /\ dispatch env d (add_state packet d s) o) \/
     (SCHED_THRE <= load d s /\ o = Ret (add_state packet d s))).
Proof.
  intros Hd Hv. unfold AddScheduler. rewrite (proj2 (in_range_dev d s) Hd).
  cbv beta iota zeta delta [negb]. fold (add_state packet d s).
  destruct (add_state_facts packet d s Hd Hv) as (N & V & L & _).
  rewrite (L d). destruct (Z.ltb_spec (load d s) SCHED_THRE) as [Hl|Hl].
  - eexists. split; [|left; split; [done|]].
    + eapply (obind_after d). apply schedule_dispatch; [done|]. unfold dev. by rewrite N.
    + apply schedule_dispatch; [done|]. unfold dev. by rewrite N.
  - eexists. split; [|right; by split]. constructor.
Qed.

(** ** [FinishJobs] *)

(** The device has one request less. *)
Definition unload d s : sched Q := if 0 <? load d s then set_load d (load d s - 1) s else s.

(** The finished request leaves the table. *)
Definition finish_state (resp : response) p r e s : sched Q :=
  let s2 := set_loadsProc (dec_proc_load p (loadsProc s)) s in
  erase_entry p r
    (set_queue (updateTaskInferenceTime p (i32 (task_id (data e))) (inf_time resp) (queue s2)) s2).

(** The callbacks of [FinishJobs] after the loop. *)
Definition finish_calls d (resp : response) e (drained : bool) s : sched Q :=
  let s5 := flush env s in
  let s6 := if drained
            then to_listener env [onTaskDrained (i32 (rs_proc_id resp)) (i32 (task_id (data e)))] s5
            else s5 in
  if bool_decide (state e = CANCELLED) then s6
  else to_listener env [onInferenceComplete resp d] s6.

Lemma unload_facts d s :
  dev d s ->
  let s' := unload d s in
  ndev s' = ndev s /\ queue s' = queue s /\ reqs s' = reqs s /\ trace s' = trace s /\
  pendingErrorCallbacks s' = pendingErrorCallbacks s /\ loadsProc s' = loadsProc s /\
  (forall d', 0 <= d' ->
     load d' s' = if decide (d' = d) then Z.max (load d s - 1) (Z.min 0 (load d s)) else load d' s).
Proof.
  intros Hd. unfold unload. destruct (Z.ltb_spec 0 (load d s)) as [Hl|Hl]; split_and!; try done.
  - apply ndev_set_load.
  - intros d' Hd'. rewrite load_set_load by done. destruct (decide _); [lia|done].
  - intros d' Hd'. destruct (decide _) as [->|]; [lia|done].
Qed.

Lemma finish_state_facts resp p r e s :
  let s' := finish_state resp p r e s in
  loads s' = loads s /\ (pol_valid s -> pol_valid s') /\ (forall d, items d s' = items d s) /\
  trace s' = trace s /\ pendingErrorCallbacks s' = pendingErrorCallbacks s /\
  (forall p' r', entry p' r' s' = if decide ((p', r') = (p, r)) then None else entry p' r' s).
Proof.
  intros s'. unfold s', finish_state.
  set (s2 := set_queue _ (set_loadsProc _ s)).
  destruct (erase_entry_fields p r s2) as (El & _ & Eq & Et & Ep).
  assert (forall d, items d s2 = items d s) as I by (intros d; apply update_items).
  split_and!; try done.
  - unfold pol_valid, ndev. rewrite El, Eq. apply update_ok.
  - intros d. unfold items in *. by rewrite Eq.
  - intros p' r'. exact (entry_erase_entry p r s2 p' r').
Qed.

Lemma FinishJobs_run d resp s :
  dev d s -> pol_valid s ->
  let p := i32 (rs_proc_id resp) in
  let r := i32 (rs_req_id resp) in
  match entry p r s with
  | None => exists lp, dispatch env d (set_loadsProc lp (unload d s)) (FinishJobs env d resp s)
  | Some e =>
      exists o drained,
        dispatch env d (finish_state resp p r e (unload d s)) o /\
        after (finish_calls d resp e drained) o (FinishJobs env d resp s)
  end.
Proof.
  intros Hd Hv p r. destruct (unload_facts d s Hd) as (N & Eq & Er & _ & _ & Elp & _).
  assert (dev d (unload d s)) as Hd' by (unfold dev; by rewrite N).
  assert (pol_valid (unload d s)) as Hv' by (unfold pol_valid; by rewrite N, Eq).
  unfold entry, FinishJobs. rewrite (proj2 (in_range_dev d s) Hd). simpl. fold p r (unload d s).
  rewrite <- Er. destruct (reqs (unload d s) !! p) as [m|] eqn:Em; simpl.
  - destruct (m !! r) as [e|] eqn:Ee.
    + destruct (finish_state_facts resp p r e (unload d s)) as (El & V & _).
      eexists _, _. assert (dispatch env d (finish_state resp p r e (unload d s))
        (schedule env d (finish_state resp p r e (unload d s)))) as D.
      { apply schedule_dispatch; [by apply V|]. unfold dev, ndev in *. by rewrite El. }
      split; [exact D|]. exact (obind_after d _ (finish_calls d resp e _) _ D).
    + eexists. by apply schedule_dispatch.
  - exists (loadsProc (unload d s)).
    assert (set_loadsProc (loadsProc (unload d s)) (unload d s) = unload d s) as ->
      by (by destruct (unload d s)).
    by apply schedule_dispatch.
Qed.

End Calls.
