(* ===== verification/SchedulerThms.v ===== *)
(** * Request scheduler: invariants of every run

    What holds in every state the scheduler reaches, for any policy that meets
    [PolicyLaws], any listener and any devices. *)

From Stdlib Require Import ZArith Lia.
From S2P Require Import Prelude Memory Scheduler SchedulerSpec SchedulerInv SchedulerCredit.
From S2P Require Import SchedulerCalls.
Import Scheduler.

Section Thms.
Context {Q : Type} `{PolicyLaws Q}.
Context (env : environment).
Implicit Types (s : sched Q) (d p r : Z) (e : RequestEntry) (k : Z * Z).

(** The device of the call exists. *)
Definition call_ok (c : call) s : Prop :=
  match c with CAdd _ d | CFinish d _ => dev d s | _ => True end.

Record sched_inv s : Prop := {
  si_valid : pol_valid s;
  si_keyed : keyed s;
  si_pending : pending_queued s;
  si_load d : dev d s -> 0 <= load d s <= SCHED_THRE
}.

(** How many times a call adds request [k]. *)
Definition adds k (c : call) : nat :=
  match c with CAdd packet _ => if is_key k (req_key packet) then 1 else 0 | _ => 0 end.

(** *** Steps that keep loads, queues and table *)

Definition same_state s s' : Prop := loads s' = loads s /\ queue s' = queue s /\ reqs s' = reqs s.

Lemma same_state_trans s1 s2 s3 : same_state s1 s2 -> same_state s2 s3 -> same_state s1 s3.
Proof. unfold same_state. intuition congruence. Qed.

Lemma same_state_inv s s' : same_state s s' -> sched_inv s -> sched_inv s' /\ ndev s' = ndev s.
Proof.
  intros (El & Eq & Er) [V K P L]. destruct (same_loads_queue s s' El Eq) as (N & D & V' & L' & _ & A).
  assert (forall p r, entry p r s' = entry p r s) as He by (intros; unfold entry; by rewrite Er).
  split; [split|done].
  - by apply V'.
  - intros p r e. rewrite He. apply K.
  - intros p r e. rewrite He, A. apply P.
  - intros d. rewrite D, L'. apply L.
Qed.

Lemma to_listener_same l s : same_state s (to_listener env l s).
Proof. by destruct (to_listener_fields env l s) as (? & ? & ? & _). Qed.

Lemma flush_same s : same_state s (flush env s).
Proof. unfold flush. exact (to_listener_same _ (set_pending [] s)). Qed.

Lemma finish_calls_same d resp e b s : same_state s (finish_calls env d resp e b s).
Proof.
  unfold finish_calls. pose proof (flush_same s) as F.
  assert (same_state s (if b then to_listener env [onTaskDrained (i32 (rs_proc_id resp))
    (i32 (task_id (data e)))] (flush env s) else flush env s)) as F2.
  { destruct b; [|done]. eapply same_state_trans; [exact F|]. apply to_listener_same. }
  destruct (bool_decide _); [done|]. eapply same_state_trans; [exact F2|]. apply to_listener_same.
Qed.

Lemma after_inv f o o' s' :
  (forall s, same_state s (f s)) -> after f o o' -> final o' s' ->
  exists s, final o s /\ same_state s s' /\ (s' = f s \/ s' = s).
Proof.
  intros Hf A F. destruct (after_final f o o' s' A F) as (s & Fs & [->| ->]); exists s; auto.
  split; [done|]. split; [done|by right].
Qed.

Lemma after_exists f o o' s : after f o o' -> final o s -> exists s', final o' s'.
Proof. intros [x|x] _; eexists; [by left|by right]. Qed.

(** *** The dispatch loop keeps the invariant *)

Lemma dispatch_inv d s o :
  dispatch env d s o -> dev d s -> pol_valid s -> keyed s -> pending_queued s ->
  (forall d', dev d' s -> 0 <= load d' s <= SCHED_THRE) -> load d s < SCHED_THRE ->
  exists s', final o s' /\ sched_inv s' /\ ndev s' = ndev s.
Proof.
  intros D Hd V K P L Hl. destruct (dispatch_frame env d s o D V Hd) as (s' & F & (N & V' & Hne) & Hl').
  destruct (dispatch_pending env d s o s' D V Hd K F) as [P' K'].
  exists s'. split; [done|]. split; [|done]. split; [done|done|by apply P'|].
  intros d' Hd'. assert (dev d' s) as Hd2 by (unfold dev in *; by rewrite <- N).
  specialize (L d' Hd2). destruct (decide (d' = d)) as [->|Hn].
  - destruct Hl' as [->| ->]; lia.
  - by destruct (Hne d' Hd2 Hn) as [-> _].
Qed.

Lemma dispatch_final_unique d s o s1 s2 :
  dispatch env d s o -> final o s1 -> final o s2 -> s1 = s2.
Proof. intros _ [->| ->] [?|?]; congruence. Qed.

Lemma add_state_inv packet d s :
  dev d s -> sched_inv s -> sched_inv (add_state packet d s) /\
  ndev (add_state packet d s) = ndev s.
Proof.
  intros Hd [V K P L]. destruct (add_state_facts packet d s Hd V)
    as (N & V' & L' & A & _ & _ & _ & _ & He).
  split; [split|done]; [done| | |].
  - intros p r e. rewrite He. destruct (decide _) as [E|]; [|apply K].
    intros [= <-]. simpl. by rewrite E.
  - intros p r e. rewrite He, A. destruct (decide _) as [E|].
    + intros _ _. rewrite E. by left.
    + intros E1 E2. right. by apply (P p r e).
  - intros d'. unfold dev. rewrite N, L'. apply L.
Qed.

Lemma AddScheduler_inv packet d s :
  dev d s -> sched_inv s ->
  exists s', final (AddScheduler env packet d s) s' /\ sched_inv s' /\ ndev s' = ndev s.
Proof.
  intros Hd I. destruct (add_state_inv packet d s Hd I) as [I2 N].
  destruct (AddScheduler_run env packet d s Hd (si_valid s I)) as (o & A & Hcase).
  assert (exists s4, final o s4 /\ sched_inv s4 /\ ndev s4 = ndev s) as (s4 & F4 & I4 & N4).
  { destruct Hcase as [[Hl D]|[_ ->]]; [|eexists; split; [by left|done]].
    assert (dev d (add_state packet d s)) as Hd2 by (unfold dev; by rewrite N).
    destruct (dispatch_inv d _ o D Hd2) as (s4 & F4 & I4 & N4); try apply I2.
    - destruct (add_state_facts packet d s Hd (si_valid s I)) as (_ & _ & L & _). by rewrite L.
    - exists s4. split; [done|]. split; [done|congruence]. }
  destruct (after_exists _ _ _ _ A F4) as (s' & F').
  destruct (after_inv _ _ _ _ flush_same A F') as (s5 & F5 & S & _).
  assert (s5 = s4) as -> by (destruct F5, F4; congruence).
  exists s'. split; [done|]. destruct (same_state_inv _ _ S I4) as [I' N'].
  split; [done|congruence].
Qed.

(** The state in which [FinishJobs] starts the loop. *)
Lemma finish_start_inv d s s1 :
  dev d s -> sched_inv s -> loads s1 = loads (unload d s) ->
  (forall d', items d' s1 = items d' s) -> pol_valid s1 ->
  (forall p r, entry p r s1 = entry p r s \/ entry p r s1 = None) ->
  dev d s1 /\ keyed s1 /\ pending_queued s1 /\ ndev s1 = ndev s /\
  (forall d', dev d' s1 -> 0 <= load d' s1 <= SCHED_THRE) /\ load d s1 < SCHED_THRE.
Proof.
  intros Hd [V K P L] El Hi V1 He. destruct (unload_facts d s Hd) as (N & _ & _ & _ & _ & _ & Lu).
  assert (ndev s1 = ndev s) as N1 by (unfold ndev in *; by rewrite El).
  assert (forall d', load d' s1 = load d' (unload d s)) as L1 by (intros; unfold load; by rewrite El).
  assert (dev d s1) as Hd1 by (unfold dev; by rewrite N1).
  assert (all_items s1 = all_items s) as A1.
  { unfold all_items, devs. rewrite N1. apply mbind_ext_in. intros d' _. apply Hi. }
  split_and!; [done| | |done| |].
  - intros p r e. destruct (He p r) as [->| ->]; [apply K|done].
  - intros p r e. rewrite A1. destruct (He p r) as [->| ->]; [apply P|done].
  - intros d' Hd'. assert (dev d' s) as Hd2 by (unfold dev in *; by rewrite <- N1).
    rewrite L1, Lu by apply Hd'. specialize (L d' Hd2). destruct (decide _) as [->|]; [lia|done].
  - rewrite L1, Lu by apply Hd. specialize (L d Hd). destruct (decide _); [|done].
    unfold SCHED_THRE in *. lia.
Qed.

Lemma finish_missing_state d lp s :
  dev d s -> pol_valid s ->
  let s1 := set_loadsProc lp (unload d s) in
  loads s1 = loads (unload d s) /\ (forall d', items d' s1 = items d' s) /\ pol_valid s1 /\
  (forall p r, entry p r s1 = entry p r s) /\ trace s1 = trace s /\
  pendingErrorCallbacks s1 = pendingErrorCallbacks s.
Proof.
  intros Hd V s1. destruct (unload_facts d s Hd) as (N & Eq & Er & Et & Ep & _).
  split_and!; try done.
  - intros d'. unfold items. change (queue s1) with (queue (unload d s)). by rewrite Eq.
  - unfold pol_valid. change (queue s1) with (queue (unload d s)).
    change (ndev s1) with (ndev (unload d s)). by rewrite N, Eq.
  - intros. unfold entry. change (reqs s1) with (reqs (unload d s)). by rewrite Er.
Qed.

Lemma finish_found_state d resp p r e s :
  dev d s -> pol_valid s ->
  let s1 := finish_state resp p r e (unload d s) in
  loads s1 = loads (unload d s) /\ (forall d', items d' s1 = items d' s) /\ pol_valid s1 /\
  (forall p' r', entry p' r' s1 = if decide ((p', r') = (p, r)) then None else entry p' r' s) /\
  trace s1 = trace s /\ pendingErrorCallbacks s1 = pendingErrorCallbacks s.
Proof.
  intros Hd V s1. destruct (unload_facts d s Hd) as (N & Eq & Er & Et & Ep & _).
  destruct (finish_state_facts resp p r e (unload d s)) as (El & V1 & I1 & T1 & P1 & E1).
  split_and!; [done| | | |by unfold s1; rewrite T1|by unfold s1; rewrite P1].
  - intros d'. unfold s1. rewrite I1. unfold items. by rewrite Eq.
  - apply V1. unfold pol_valid. by rewrite N, Eq.
  - intros p' r'. unfold s1. rewrite E1. unfold entry. by rewrite Er.
Qed.

Lemma FinishJobs_inv d resp s :
  dev d s -> sched_inv s ->
  exists s', final (FinishJobs env d resp s) s' /\ sched_inv s' /\ ndev s' = ndev s.
Proof.
  intros Hd I. pose proof (FinishJobs_run env d resp s Hd (si_valid s I)) as R. simpl in R.
  destruct (entry _ _ s) as [e|] eqn:Ee.
  - destruct R as (o & b & D & A).
    destruct (finish_found_state d resp (i32 (rs_proc_id resp)) (i32 (rs_req_id resp)) e s Hd
      (si_valid s I)) as (El & Hi & V1 & He & _).
    destruct (finish_start_inv d s _ Hd I El Hi V1) as (Hd1 & K1 & P1 & N1 & L1 & Hl).
    { intros p r. rewrite He. destruct (decide _); auto. }
    destruct (dispatch_inv d _ o D Hd1 V1 K1 P1 L1 Hl) as (s4 & F4 & I4 & N4).
    destruct (after_exists _ _ _ _ A F4) as (s' & F').
    destruct (after_inv _ _ _ _ (finish_calls_same d resp e b) A F') as (s5 & F5 & S & _).
    assert (s5 = s4) as -> by (destruct F5, F4; congruence).
    exists s'. split; [done|]. destruct (same_state_inv _ _ S I4) as [I' N'].
    split; [done|congruence].
  - destruct R as (lp & D).
    destruct (finish_missing_state d lp s Hd (si_valid s I)) as (El & Hi & V1 & He & _).
    destruct (finish_start_inv d s _ Hd I El Hi V1) as (Hd1 & K1 & P1 & N1 & L1 & Hl).
    { intros. left. apply He. }
    destruct (dispatch_inv d _ _ D Hd1 V1 K1 P1 L1 Hl) as (s' & F' & I' & N').
    exists s'. split; [done|]. split; [done|congruence].
Qed.

Lemma quiet_inv s s' : quiet s s' -> sched_inv s -> sched_inv s' /\ ndev s' = ndev s.
Proof.
  intros [N V' Hi L' _ _ T] [V K P L]. split; [split|done].
  - by apply V'.
  - intros p r e' E. destruct (T p r e' E) as (e & E2 & -> & _). by apply K.
  - intros p r e' E Hp. destruct (T p r e' E) as (e & E2 & _ & Hp' & _).
    specialize (P p r e E2 (Hp' Hp)). unfold all_items, devs in *. rewrite N.
    rewrite (mbind_ext_in (fun d => items d s') (fun d => items d s)); [done|]. intros. apply Hi.
  - intros d Hd. destruct (L' d) as [->| ->]; [|unfold SCHED_THRE; lia].
    apply L. unfold dev in *. by rewrite <- N.
Qed.

(** Every call on an existing device returns or stops at the assertion of
    [doInference], in a state that satisfies the invariant. *)
Lemma exec_inv c s :
  call_ok c s -> sched_inv s -> exists s', final (exec env c s) s' /\ sched_inv s' /\ ndev s' = ndev s.
Proof.
  intros Hc I. destruct (plain c) eqn:Hp.
  - destruct (exec_plain env c s Hp) as (s' & E & Qt). exists s'. split; [by left|].
    by apply quiet_inv.
  - destruct c; try discriminate Hp; simpl in *; first [by apply AddScheduler_inv|by apply FinishJobs_inv].
Qed.

(** ** Runs *)

(** A sequence of calls on existing devices, ending in [s'] when the last one
    returns or aborts. *)
Inductive run : list call -> sched Q -> sched Q -> Prop :=
| run_nil s : run [] s s
| run_last c s s' : call_ok c s -> final (exec env c s) s' -> run [c] s s'
| run_cons c cs s1 s2 s3 :
    call_ok c s1 -> exec env c s1 = Ret s2 -> run cs s2 s3 -> run (c :: cs) s1 s3.

Lemma exec_final_inv c s s' :
  call_ok c s -> sched_inv s -> final (exec env c s) s' -> sched_inv s'.
Proof.
  intros Hc I F. destruct (exec_inv c s Hc I) as (s2 & F2 & I2 & _).
  assert (s2 = s') as <- by (destruct F, F2; congruence). done.
Qed.

Lemma run_inv cs s s' : sched_inv s -> run cs s s' -> sched_inv s'.
Proof.
  intros I R. induction R as [|c s s' Hc F|c cs s1 s2 s3 Hc E R IH]; [done| |].
  - by eapply exec_final_inv.
  - apply IH. eapply exec_final_inv; [exact Hc|done|by left].
Qed.

Lemma new_sched_inv n (q : Q) : pol_ok n q -> sched_inv (new_sched n q).
Proof.
  intros V. assert (forall p r, entry p r (new_sched n q) = None) as He.
  { intros. unfold entry. simpl. by rewrite lookup_empty. }
  split.
  - unfold pol_valid, ndev. simpl. by rewrite length_replicate.
  - intros p r e. by rewrite He.
  - intros p r e. by rewrite He.
  - intros d Hd. unfold load. simpl. rewrite lookup_replicate_2; [simpl; unfold SCHED_THRE; lia|].
    unfold dev, ndev in Hd. simpl in Hd. rewrite length_replicate in Hd. lia.
Qed.

End Thms.
