(* ===== verification/SchedulerRuns.v ===== *)
(** * Request scheduler: accounting over runs

    The credits of [SchedulerCredit] and the silence of cancelled requests,
    carried from the dispatch loop to every call and to every run. *)

From Stdlib Require Import ZArith Lia.
From S2P Require Import Prelude Memory Scheduler SchedulerSpec SchedulerInv SchedulerCredit.
From S2P Require Import SchedulerCalls SchedulerThms.
Import Scheduler.

Section Runs.
Context {Q : Type} `{PolicyLaws Q}.
Context (env : environment).
Implicit Types (s : sched Q) (d p r : Z) (e : RequestEntry) (k : Z * Z).

(** ** The callbacks *)

Lemma flush_facts s :
  let s' := flush env s in
  pendingErrorCallbacks s' = [] /\
  trace s' = trace s ++
    (if has_listener env
     then map (fun cb => onInferenceComplete cb.1 cb.2) (pendingErrorCallbacks s) else []).
Proof.
  intros s'. unfold s', flush.
  destruct (to_listener_fields env (map (fun cb => onInferenceComplete cb.1 cb.2)
    (pendingErrorCallbacks s)) (set_pending [] s)) as (_ & _ & _ & Ep & Et).
  by rewrite Ep, Et.
Qed.

(** The callbacks of [FinishJobs] that are not deferred errors. *)
Definition own_calls d (resp : response) e (drained : bool) : list event :=
  if has_listener env then
    (if drained then [onTaskDrained (i32 (rs_proc_id resp)) (i32 (task_id (data e)))] else []) ++
    (if bool_decide (state e = CANCELLED) then [] else [onInferenceComplete resp d])
  else [].

Lemma finish_calls_facts d resp e b s :
  let s' := finish_calls env d resp e b s in
  pendingErrorCallbacks s' = [] /\ trace s' = trace (flush env s) ++ own_calls d resp e b.
Proof.
  intros s'. unfold s', finish_calls, own_calls, to_listener.
  destruct (flush_facts s) as (Ep & _).
  destruct (has_listener env), b, (bool_decide (state e = CANCELLED)); simpl; rewrite ?app_nil_r, <- ?app_assoc; done.
Qed.

Lemma cnt_flush f s :
  cnt f (trace (flush env s)) =
  (cnt f (trace s) + if has_listener env
   then cnt (fun cb => f (onInferenceComplete cb.1 cb.2)) (pendingErrorCallbacks s) else 0)%nat.
Proof.
  destruct (flush_facts s) as (_ & ->). rewrite cnt_app.
  destruct (has_listener env); [by rewrite cnt_map|done].
Qed.

(** ** A measure that only [AddScheduler] can raise *)

Section Measure.
Context (k : Z * Z) (M : sched Q -> nat) (b : response -> RequestEntry -> nat).
Context (M_dispatch : forall d s o s', dispatch env d s o -> pol_valid s -> dev d s -> keyed s ->
                        final o s' -> (M s' <= M s)%nat).
Context (M_quiet : forall s s', quiet s s' -> (M s' <= M s)%nat).
Context (M_add : forall packet d s, dev d s -> pol_valid s ->
                   (M (add_state packet d s) <= M s + adds k (CAdd packet d))%nat).
Context (M_flush : forall s, (M (flush env s) <= M s)%nat).
Context (M_missing : forall d lp s, dev d s -> pol_valid s ->
                       (M (set_loadsProc lp (unload d s)) <= M s)%nat).
Context (M_found : forall d resp e s, dev d s -> pol_valid s ->
           entry (i32 (rs_proc_id resp)) (i32 (rs_req_id resp)) s = Some e ->
           (M (finish_state resp (i32 (rs_proc_id resp)) (i32 (rs_req_id resp)) e (unload d s))
            + b resp e <= M s)%nat).
Context (M_finish : forall d resp e dr s,
           (M (finish_calls env d resp e dr s) <= M s + b resp e)%nat).

Lemma AddScheduler_measure packet d s s' :
  dev d s -> sched_inv s -> final (AddScheduler env packet d s) s' ->
  (M s' <= M s + adds k (CAdd packet d))%nat.
Proof.
  intros Hd I F. destruct (add_state_inv packet d s Hd I) as [I2 N].
  destruct (AddScheduler_run env packet d s Hd (si_valid s I)) as (o & A & Hc).
  destruct (after_inv _ _ _ _ (flush_same env) A F) as (s4 & F4 & _ & Hs').
  assert (M s4 <= M (add_state packet d s))%nat as H4.
  { destruct Hc as [[Hl D]|[_ ->]]; [|destruct F4; simplify_eq; done].
    eapply M_dispatch; [exact D|apply I2| |apply I2|done]. unfold dev. by rewrite N. }
  specialize (M_add packet d s Hd (si_valid s I)). specialize (M_flush s4).
  destruct Hs' as [->| ->]; lia.
Qed.

Lemma FinishJobs_measure d resp s s' :
  dev d s -> sched_inv s -> final (FinishJobs env d resp s) s' -> (M s' <= M s)%nat.
Proof.
  intros Hd I F. pose proof (FinishJobs_run env d resp s Hd (si_valid s I)) as R. simpl in R.
  destruct (entry _ _ s) as [e|] eqn:Ee.
  - destruct R as (o & dr & D & A).
    destruct (finish_found_state d resp (i32 (rs_proc_id resp)) (i32 (rs_req_id resp)) e s Hd
      (si_valid s I)) as (El & Hi & V1 & He & _).
    destruct (finish_start_inv d s _ Hd I El Hi V1) as (Hd1 & K1 & _).
    { intros p r. rewrite He. destruct (decide _); auto. }
    destruct (after_inv _ _ _ _ (finish_calls_same env d resp e dr) A F) as (s4 & F4 & _ & Hs').
    pose proof (M_dispatch d _ o s4 D V1 Hd1 K1 F4).
    specialize (M_found d resp e s Hd (si_valid s I) Ee). specialize (M_finish d resp e dr s4).
    destruct Hs' as [->| ->]; lia.
  - destruct R as (lp & D).
    destruct (finish_missing_state d lp s Hd (si_valid s I)) as (El & Hi & V1 & He & _).
    destruct (finish_start_inv d s _ Hd I El Hi V1) as (Hd1 & K1 & _).
    { intros. left. apply He. }
    pose proof (M_dispatch d _ _ s' D V1 Hd1 K1 F).
    specialize (M_missing d lp s Hd (si_valid s I)). lia.
Qed.

Lemma exec_measure c s s' :
  call_ok c s -> sched_inv s -> final (exec env c s) s' -> (M s' <= M s + adds k c)%nat.
Proof.
  intros Hc I F. destruct (plain c) eqn:Hp.
  - destruct (exec_plain env c s Hp) as (s2 & E & Qt).
    assert (s2 = s') as <- by (destruct F; congruence). specialize (M_quiet s s2 Qt). lia.
  - destruct c; try discriminate Hp; simpl in *.
    + by eapply AddScheduler_measure.
    + pose proof (FinishJobs_measure d resp s s' Hc I F). lia.
Qed.

Lemma run_measure cs s s' :
  sched_inv s -> run env cs s s' -> (M s' <= M s + list_sum (map (adds k) cs))%nat.
Proof.
  intros I R. induction R as [s|c s s' Hc F|c cs s1 s2 s3 Hc E R IH]; simpl; [lia| |].
  - pose proof (exec_measure c s s' Hc I F). lia.
  - assert (final (exec env c s1) s2) as F by (by left).
    pose proof (exec_measure c s1 s2 Hc I F).
    specialize (IH (exec_final_inv env c s1 s2 Hc I F)). lia.
Qed.
End Measure.

(** ** The two credits *)

Lemma quiet_all_items s s' : quiet s s' -> all_items s' = all_items s.
Proof.
  intros Qt. unfold all_items, devs. rewrite (qt_ndev s s' Qt). apply mbind_ext_in.
  intros d _. apply (qt_items s s' Qt).
Qed.

Lemma cnt_errors f (errs : list (Z * Z)) :
  (forall a c, f (onSchedulerError a c) = false) ->
  cnt f (map (fun x => onSchedulerError x.1 x.2) errs) = 0%nat.
Proof.
  intros Hf. rewrite cnt_map. induction errs as [|x l IH]; [done|].
  by rewrite cnt_cons, Hf, IH.
Qed.

Lemma all_items_same s s' :
  ndev s' = ndev s -> (forall d, items d s' = items d s) -> all_items s' = all_items s.
Proof. intros N Hi. unfold all_items, devs. rewrite N. apply mbind_ext_in. intros. apply Hi. Qed.

Lemma accept_run k cs s s' :
  sched_inv s -> run env cs s s' ->
  (accept_credit k s' <= accept_credit k s + list_sum (map (adds k) cs))%nat.
Proof.
  apply (run_measure k (accept_credit k) (fun _ _ => 0%nat)); unfold accept_credit; clear -H.
  - intros d s o s' D V Hd K F. by apply (dispatch_accepts env d s o s' k).
  - intros s s' Qt. rewrite (quiet_all_items s s' Qt). destruct (qt_trace s s' Qt) as [errs ->].
    rewrite cnt_app, cnt_errors by done. lia.
  - intros packet d s Hd V.
    destruct (add_state_facts packet d s Hd V) as (_ & _ & _ & A & _ & _ & -> & _).
    rewrite (cnt_perm _ _ _ A), cnt_cons. unfold adds. destruct (is_key _ _); lia.
  - intros s. rewrite cnt_flush. destruct (flush_same env s) as (El & Eq & _).
    destruct (same_loads_queue _ _ El Eq) as (_ & _ & _ & _ & _ & ->).
    destruct (has_listener env); [|lia]. unfold cnt at 2. simpl.
    induction (pendingErrorCallbacks s); simpl; lia.
  - intros d lp s Hd V. destruct (finish_missing_state d lp s Hd V) as (El & Hi & _ & _ & -> & _).
    rewrite (all_items_same s); [lia| |done].
    destruct (unload_facts d s Hd) as (N & _). unfold ndev in *. by rewrite El.
  - intros d resp e s Hd V _. destruct (finish_found_state d resp (i32 (rs_proc_id resp))
      (i32 (rs_req_id resp)) e s Hd V) as (El & Hi & _ & _ & -> & _).
    rewrite (all_items_same s); [lia| |done].
    destruct (unload_facts d s Hd) as (N & _). unfold ndev in *. by rewrite El.
  - intros d resp e dr s. destruct (finish_calls_same env d resp e dr s) as (El & Eq & _).
    destruct (same_loads_queue _ _ El Eq) as (_ & _ & _ & _ & _ & ->).
    destruct (finish_calls_facts d resp e dr s) as (_ & ->). rewrite cnt_app, cnt_flush.
    assert (cnt (accepts k) (own_calls d resp e dr) = 0%nat) as ->
      by (unfold own_calls; destruct (has_listener env), dr, (bool_decide (state e = CANCELLED)); done).
    assert (forall l : list (response * Z),
      cnt (fun cb => accepts k (onInferenceComplete cb.1 cb.2)) l = 0%nat) as ->
      by (intros l; unfold cnt; induction l; done).
    destruct (has_listener env); lia.
Qed.

Lemma complete_run k cs s s' :
  sched_inv s -> run env cs s s' ->
  (complete_credit k s' <= complete_credit k s + list_sum (map (adds k) cs))%nat.
Proof.
  apply (run_measure k (complete_credit k)
    (fun resp e => if is_key k (resp_key resp) then 1%nat else 0%nat));
    unfold complete_credit; clear -H.
  - intros d s o s' D V Hd K F. by apply (dispatch_completes env d s o s' k).
  - intros s s' Qt. rewrite (qt_pending s s' Qt). destruct (qt_trace s s' Qt) as [errs ->].
    rewrite cnt_app, (cnt_errors (completes k)) by done.
    destruct (entry k.1 k.2 s') as [e'|] eqn:E'; [|lia].
    destruct (qt_table s s' Qt _ _ _ E') as (e & -> & _). lia.
  - intros packet d s Hd V.
    destruct (add_state_facts packet d s Hd V) as (_ & _ & _ & _ & _ & _ & -> & -> & ->).
    unfold adds, is_key. destruct k as [kp kr]; simpl.
    destruct (decide _) as [E|E]; [rewrite bool_decide_eq_true_2 by done|]; [|lia].
    destruct (entry kp kr s); lia.
  - intros s. rewrite cnt_flush. destruct (flush_facts s) as (-> & _).
    destruct (flush_same env s) as (_ & _ & Er). unfold entry. rewrite Er.
    change (fun cb => completes k (onInferenceComplete cb.1 cb.2)) with (defers k).
    change (cnt (defers k) []) with 0%nat. destruct (has_listener env); lia.
  - intros d lp s Hd V.
    destruct (finish_missing_state d lp s Hd V) as (_ & _ & _ & -> & -> & ->). lia.
  - intros d resp e s Hd V Ee. destruct (finish_found_state d resp (i32 (rs_proc_id resp))
      (i32 (rs_req_id resp)) e s Hd V) as (_ & _ & _ & -> & -> & ->).
    unfold is_key, resp_key. destruct k as [kp kr]; simpl.
    destruct (decide _) as [[= -> ->]|Hn].
    + rewrite bool_decide_eq_true_2 by done. rewrite Ee. lia.
    + rewrite bool_decide_eq_false_2 by congruence. lia.
  - intros d resp e dr s. destruct (finish_calls_same env d resp e dr s) as (_ & _ & Er).
    unfold entry. rewrite Er. destruct (finish_calls_facts d resp e dr s) as (-> & ->).
    rewrite cnt_app, cnt_flush. change (cnt (defers k) []) with 0%nat.
    change (fun cb => completes k (onInferenceComplete cb.1 cb.2)) with (defers k).
    assert (cnt (completes k) (own_calls d resp e dr) <=
            if is_key k (resp_key resp) then 1 else 0)%nat
      by (unfold own_calls, cnt; destruct (has_listener env), dr, (bool_decide (state e = CANCELLED)); simpl;
          destruct (is_key _ _); simpl; lia).
    destruct (has_listener env); lia.
Qed.

(** ** Silence *)

Lemma entry_shrinks_silent k s s' :
  shrinks s s' -> (forall e, entry k.1 k.2 s = Some e -> state e = CANCELLED) ->
  forall e, entry k.1 k.2 s' = Some e -> state e = CANCELLED.
Proof. intros T Hs e' E'. destruct (T _ _ _ E') as (e & E & _ & _ & Hc). auto. Qed.

Lemma silent_same_state k s s' :
  same_state s s' -> silent k s -> cnt (defers k) (pendingErrorCallbacks s') = 0%nat -> silent k s'.
Proof.
  intros (El & Eq & Er) (S1 & S2 & S3) Hp. unfold silent, entry. rewrite Er.
  destruct (same_loads_queue s s' El Eq) as (_ & _ & _ & _ & _ & ->). done.
Qed.

Lemma flush_silent k s :
  silent k s -> silent k (flush env s) /\
  cnt (completes k) (trace (flush env s)) = cnt (completes k) (trace s).
Proof.
  intros S. split.
  - apply (silent_same_state k s); [apply flush_same|done|]. by rewrite (proj1 (flush_facts s)).
  - rewrite cnt_flush. destruct S as (_ & S2 & _).
    change (fun cb => completes k (onInferenceComplete cb.1 cb.2)) with (defers k). rewrite S2.
    destruct (has_listener env); lia.
Qed.

Lemma AddScheduler_silent k packet d s s' :
  dev d s -> sched_inv s -> final (AddScheduler env packet d s) s' -> req_key packet <> k ->
  keeps_silent k s s'.
Proof.
  intros Hc I F Hk (S1 & S2 & S3). destruct (add_state_inv packet d s Hc I) as [I2 N].
  destruct (add_state_facts packet d s Hc (si_valid s I)) as (_ & _ & _ & A & _ & _ & Et & Ep & He).
  assert (silent k (add_state packet d s)) as S'.
  { unfold silent. rewrite A, Ep. split; [set_solver|]. split; [done|].
    intros e. rewrite He. destruct (decide _) as [D|]; [|apply S3]. by destruct k. }
  destruct (AddScheduler_run env packet d s Hc (si_valid s I)) as (o & Af & Hcase).
  destruct (after_inv _ _ _ _ (flush_same env) Af F) as (s4 & F4 & _ & Hs').
  assert (silent k s4 /\ cnt (completes k) (trace s4) = cnt (completes k) (trace s)) as [S4 T4].
  { rewrite <- Et. destruct Hcase as [[_ D]|[_ ->]]; [|by destruct F4; simplify_eq].
    eapply (dispatch_silent env d); try apply I2; try done. }
  rewrite <- T4. destruct Hs' as [->| ->]; [by apply flush_silent|done].
Qed.

Lemma silent_start k s s1 :
  ndev s1 = ndev s -> (forall d, items d s1 = items d s) ->
  pendingErrorCallbacks s1 = pendingErrorCallbacks s ->
  (forall p r, entry p r s1 = entry p r s \/ entry p r s1 = None) -> silent k s -> silent k s1.
Proof.
  intros N Hi Hp He (S1 & S2 & S3). unfold silent. rewrite (all_items_same s) by done.
  rewrite Hp. split; [done|]. split; [done|]. intros e. destruct (He k.1 k.2) as [->| ->]; [|done].
  apply S3.
Qed.

(** The request [FinishJobs] reports is not the silent one. *)
Lemma own_calls_silent k d resp e b s :
  entry (i32 (rs_proc_id resp)) (i32 (rs_req_id resp)) s = Some e -> silent k s ->
  cnt (completes k) (own_calls d resp e b) = 0%nat.
Proof.
  intros Ee (_ & _ & S3). unfold own_calls, cnt. destruct (has_listener env); [|done].
  destruct (bool_decide_reflect (state e = CANCELLED)) as [|Hnc]; [by destruct b|].
  assert (resp_key resp <> k) as Hk by (intros E; subst k; exact (Hnc (S3 e Ee))).
  destruct b; simpl; unfold is_key; by rewrite bool_decide_eq_false_2.
Qed.

Lemma FinishJobs_silent k d resp s s' :
  dev d s -> sched_inv s -> final (FinishJobs env d resp s) s' -> keeps_silent k s s'.
Proof.
  intros Hc I F S. pose proof (FinishJobs_run env d resp s Hc (si_valid s I)) as R. simpl in R.
  destruct (entry _ _ s) as [e|] eqn:Ee.
  - destruct R as (o & dr & D & Af).
    destruct (finish_found_state d resp (i32 (rs_proc_id resp)) (i32 (rs_req_id resp)) e s Hc
      (si_valid s I)) as (El & Hi & V1 & He & Et & Ep).
    assert (forall p r, let s1 := finish_state resp (i32 (rs_proc_id resp))
      (i32 (rs_req_id resp)) e (unload d s) in entry p r s1 = entry p r s \/ entry p r s1 = None)
      as He' by (intros p r; simpl; rewrite He; destruct (decide _); auto).
    destruct (finish_start_inv d s _ Hc I El Hi V1 He') as (Hd1 & K1 & _ & N1 & _).
    destruct (after_inv _ _ _ _ (finish_calls_same env d resp e dr) Af F) as (s4 & F4 & Ss & Hs').
    destruct (dispatch_silent env d _ o s4 k D V1 Hd1 K1 F4) as [S4 _].
    destruct (S4 (silent_start k s _ N1 Hi Ep He' S)) as [S5 T5]. rewrite Et in T5.
    rewrite <- T5. destruct Hs' as [->| ->]; [|done].
    destruct (finish_calls_facts d resp e dr s4) as (Pf & Tf). split.
    + apply (silent_same_state k s4); [done|done|by rewrite Pf].
    + rewrite Tf, cnt_app, (proj2 (flush_silent k s4 S5)), (own_calls_silent k d resp e dr s) by done.
      lia.
  - destruct R as (lp & D).
    destruct (finish_missing_state d lp s Hc (si_valid s I)) as (El & Hi & V1 & He & Et & Ep).
    assert (forall p r, entry p r (set_loadsProc lp (unload d s)) = entry p r s \/
      entry p r (set_loadsProc lp (unload d s)) = None) as He' by auto.
    destruct (finish_start_inv d s _ Hc I El Hi V1 He') as (Hd1 & K1 & _ & N1 & _).
    destruct (dispatch_silent env d _ _ s' k D V1 Hd1 K1 F) as [S4 _].
    destruct (S4 (silent_start k s _ N1 Hi Ep He' S)) as [S5 T5]. by rewrite Et in T5.
Qed.

Lemma exec_silent k c s s' :
  call_ok c s -> sched_inv s -> final (exec env c s) s' -> adds k c = 0%nat -> keeps_silent k s s'.
Proof.
  intros Hc I F Ha. destruct (plain c) eqn:Hp.
  - intros (S1 & S2 & S3). destruct (exec_plain env c s Hp) as (s2 & E & Qt).
    assert (s2 = s') as <- by (destruct F; congruence). destruct (qt_trace s s2 Qt) as [errs ->].
    rewrite cnt_app, (cnt_errors (completes k)) by done. split; [|lia].
    unfold silent. rewrite (quiet_all_items s s2 Qt), (qt_pending s s2 Qt).
    split; [done|]. split; [done|]. by apply (entry_shrinks_silent k s), S3; apply (qt_table s s2 Qt).
  - destruct c; try discriminate Hp; simpl in F, Hc; [|by eapply FinishJobs_silent].
    eapply AddScheduler_silent; [done..|]. intros E. simpl in Ha. unfold is_key in Ha.
    by rewrite bool_decide_eq_true_2 in Ha.
Qed.

Lemma run_silent k cs s s' :
  sched_inv s -> run env cs s s' -> Forall (fun c => adds k c = 0%nat) cs -> keeps_silent k s s'.
Proof.
  intros I R. induction R as [s|c s s' Hc F|c cs s1 s2 s3 Hc E R IH]; intros Ha S.
  - done.
  - inversion Ha; subst. by eapply exec_silent.
  - inversion Ha; subst. assert (final (exec env c s1) s2) as F by (by left).
    destruct (exec_silent k c s1 s2 Hc I F ltac:(done) S) as [S2 <-].
    by apply (IH (exec_final_inv env c s1 s2 Hc I F)).
Qed.

End Runs.
