(* ===== verification/SchedPolicies.v ===== *)
(** * Scheduling policies: definitions

    The three subclasses of [SchedulerService] in
    [lib/dxrt_service/schedule_service.cpp], as instances of [Scheduler.Policy].
    Each keeps one queue per device. *)

From Stdlib Require Import ZArith Lia.
From S2P Require Import Prelude OrdMap Scheduler.
From S2P Require Import SchedulerSpec.
Import Scheduler.

(** ** [FIFOSchedulerService] *)

Module Fifo.

(** [_device_queues] *)
Abbreviation fifo := (list (list (Z * Z))).

Definition items (d : Z) (q : fifo) : list (Z * Z) := default [] (q !! Z.to_nat d).

Definition push (d p r t : Z) (q : fifo) : fifo := alter (.++ [(p, r)]) (Z.to_nat d) q.

(** [schedule]: front and pop. *)
Definition pop (d : Z) (q : fifo) : option (Z * Z) * fifo :=
  match items d q with
  | [] => (None, q)
  | x :: l => (Some x, <[Z.to_nat d := l]> q)
  end.

#[global] Instance fifo_policy : Policy fifo := {
  pushRequest := push;
  pol_pop := pop;
  updateTaskInferenceTime := fun _ _ _ q => q;
  cleanTaskInferenceTime := fun _ q => q;
  pol_items := items
}.

Definition new (n : nat) : fifo := replicate n [].

End Fifo.

(** ** [RoundRobinSchedulerService] *)

Module RoundRobin.

Record rr := mkRR {
  proc_maps : list (omap (list Z));                  (** [_proc_maps] *)
  next_proc : list Z                                 (** [_next_proc] *)
}.

Definition map_of (d : Z) (q : rr) : omap (list Z) := default [] (proc_maps q !! Z.to_nat d).
Definition next_of (d : Z) (q : rr) : Z := default 0 (next_proc q !! Z.to_nat d).

Definition entries (m : omap (list Z)) : list (Z * Z) := mbind (fun e => pair e.1 <$> e.2) m.
Definition items (d : Z) (q : rr) : list (Z * Z) := entries (map_of d q).

Definition push_map (p r : Z) (m : omap (list Z)) : omap (list Z) :=
  om_insert p (default [] (om_find p m) ++ [r]) m.

Definition push (d p r t : Z) (q : rr) : rr :=
  mkRR (alter (push_map p r) (Z.to_nat d) (proc_maps q)) (next_proc q).

(** [schedule] on the map and the next process of one device: the request
    taken, the map and the next process after it. *)
Definition pop_map (m : omap (list Z)) (nx : Z) : option (Z * Z) * (omap (list Z) * Z) :=
  match om_begin m with
  | None => (None, (m, nx))
  | Some first =>
      let current_proc := if nx =? 0 then first.1 else nx in
      let it := match om_find current_proc m with
                | Some l => (current_proc, l)
                | None => first
                end in
      match it.2 with
      | [] => (None, (m, current_proc))
      | req_id :: rest =>
          let m' := match rest with [] => om_erase it.1 m | _ => om_insert it.1 rest m end in
          let nxt := match om_next it.1 m with None => om_begin m' | e => e end in
          (Some (current_proc, req_id),
           (m', match nxt with None => 0 | Some e => e.1 end))
      end
  end.

Definition pop (d : Z) (q : rr) : option (Z * Z) * rr :=
  let '(o, (m', nx')) := pop_map (map_of d q) (next_of d q) in
  (o, mkRR (<[Z.to_nat d := m']> (proc_maps q)) (<[Z.to_nat d := nx']> (next_proc q))).

#[global] Instance rr_policy : Policy rr := {
  pushRequest := push;
  pol_pop := pop;
  updateTaskInferenceTime := fun _ _ _ q => q;
  cleanTaskInferenceTime := fun _ q => q;
  pol_items := items
}.

Definition new (n : nat) : rr := mkRR (replicate n []) (replicate n 0).

End RoundRobin.

(** ** [SJFSchedulerService] and its base [InferenceTimeCheckSchedulerService] *)

Module Sjf.

Record request_elem := mkElem { requestId : Z; procId : Z; time : Z }.

#[export] Instance request_elem_eq_dec : EqDecision request_elem.
Proof. solve_decision. Defined.

(** [operator<] *)
Definition elem_lt (a b : request_elem) : bool :=
  if time a =? time b then requestId b <? requestId a else time b <? time a.

(** [std::priority_queue<request_elem>]: [top] is an element no other exceeds; which of
    several such elements it is, the library leaves open. *)
Class PriorityQueue := {
  pq_top : list request_elem -> option request_elem;
  pq_top_None l : pq_top l = None -> l = [];
  pq_top_Some l e : pq_top l = Some e -> e ∈ l /\ forall x, x ∈ l -> elem_lt e x = false
}.

Section Sjf.
Context `{PriorityQueue}.

Record sjf := mkSjf {
  request_map : list (list request_elem);
  task_time_map : gmap (Z * Z) Z
}.

Definition key_of (e : request_elem) : Z * Z := (procId e, requestId e).
Definition bag (d : Z) (q : sjf) : list request_elem := default [] (request_map q !! Z.to_nat d).
Definition items (d : Z) (q : sjf) : list (Z * Z) := key_of <$> bag d q.

Definition updateTaskInferenceTime (p t x : Z) (q : sjf) : sjf :=
  if default 0 (task_time_map q !! (p, t)) =? 0
  then mkSjf (request_map q) (<[(p, t) := x]> (task_time_map q)) else q.

Definition getTaskInferenceTime (p t : Z) (q : sjf) : Z := default 0 (task_time_map q !! (p, t)).

Definition cleanTaskInferenceTime (p : Z) (q : sjf) : sjf :=
  mkSjf (request_map q) (filter (fun kv => kv.1.1 <> p) (task_time_map q)).

Definition push (d p r t : Z) (q : sjf) : sjf :=
  mkSjf (alter (.++ [mkElem r p (getTaskInferenceTime p t q)]) (Z.to_nat d) (request_map q))
    (task_time_map q).

(** One copy of [e] leaves the queue. *)
Fixpoint remove_one (e : request_elem) (l : list request_elem) : list request_elem :=
  match l with
  | [] => []
  | x :: l' => if decide (x = e) then l' else x :: remove_one e l'
  end.

Definition pop (d : Z) (q : sjf) : option (Z * Z) * sjf :=
  match pq_top (bag d q) with
  | None => (None, q)
  | Some e => (Some (key_of e),
               mkSjf (<[Z.to_nat d := remove_one e (bag d q)]> (request_map q)) (task_time_map q))
  end.

#[global] Instance sjf_policy : Policy sjf := {
  pushRequest := push;
  pol_pop := pop;
  Scheduler.updateTaskInferenceTime := updateTaskInferenceTime;
  Scheduler.cleanTaskInferenceTime := cleanTaskInferenceTime;
  pol_items := items
}.

Definition new (n : nat) : sjf := mkSjf (replicate n []) ∅.

End Sjf.
End Sjf.

(** * Scheduling policies: the contract and the order of service

    The three policies satisfy [PolicyLaws]; each serves the queued requests in
    its own order. *)


Import Scheduler.

(** ** FIFO *)

Section Fifo.
Import Fifo.

Lemma fifo_lookup n d (q : fifo) :
  length q = n -> 0 <= d < Z.of_nat n -> q !! Z.to_nat d = Some (items d q).
Proof.
  intros Hl Hd. unfold items. destruct (lookup_lt_is_Some_2 q (Z.to_nat d)) as [l ->]; [lia|done].
Qed.

Lemma fifo_pop_eq d (q : fifo) : pop d q =
  match items d q with [] => (None, q) | x :: l => (Some x, <[Z.to_nat d := l]> q) end.
Proof. done. Qed.

Lemma fifo_push_items n d p r t (q : fifo) :
  length q = n -> 0 <= d < Z.of_nat n -> items d (push d p r t q) = items d q ++ [(p, r)].
Proof.
  intros Hl Hd. pose proof (fifo_lookup n d q Hl Hd) as E. unfold items at 1, push.
  rewrite list_lookup_alter_eq, E. done.
Qed.

Lemma fifo_insert_items n d l (q : fifo) :
  length q = n -> 0 <= d < Z.of_nat n -> items d (<[Z.to_nat d := l]> q) = l.
Proof. intros Hl Hd. unfold items. rewrite list_lookup_insert_eq; [done|lia]. Qed.

#[export] Instance fifo_laws : PolicyLaws fifo.
Proof.
  refine {| pol_ok := fun n q => length q = n |}; simpl; try done.
  - intros n d p r t q Hl _. unfold push. by rewrite length_alter.
  - intros n d p r t q Hl Hd. rewrite (fifo_push_items n) by done.
    by rewrite Permutation_app_comm.
  - intros n d d' p r t q Hl Hd Hd' Hne. unfold items, push. rewrite list_lookup_alter_ne; [done|lia].
  - intros n d q Hl Hd. rewrite fifo_pop_eq. destruct (items d q); simpl; [done|].
    by rewrite length_insert.
  - intros n d q Hl Hd. rewrite fifo_pop_eq. destruct (items d q) as [|x l] eqn:E; simpl.
    + by rewrite E.
    + by rewrite (fifo_insert_items n).
  - intros n d q Hl Hd. rewrite fifo_pop_eq. by destruct (items d q).
  - intros n d d' q Hl Hd Hd' Hne. rewrite fifo_pop_eq. destruct (items d q); simpl; [done|].
    unfold items. rewrite list_lookup_insert_ne; [done|lia].
Defined.
End Fifo.

(** ** Round robin *)

Section RoundRobin.
Import RoundRobin.

(** The map is sorted, keeps no empty queue, and the next process is in it. *)
Definition rr_ok (m : omap (list Z)) (nx : Z) : Prop :=
  om_sorted m /\ Forall (fun e => e.2 <> []) m /\ (nx = 0 \/ is_Some (om_find nx m)).

Lemma om_find_None_split {V} k (m : omap V) :
  om_sorted m -> om_find k m = None -> exists l1 l2, m = l1 ++ l2 /\ om_split k l1 l2.
Proof.
  induction m as [|[k' v] m IH]; simpl; intros S F.
  - exists [], []. split; [done|]. by split; constructor.
  - apply om_sorted_cons in S as [F1 S]. destruct (Z.eqb_spec k k') as [->|Hne]; [done|].
    destruct (decide (k < k')).
    + exists [], ((k', v) :: m). split; [done|]. split; [constructor|].
      constructor; [done|]. eapply Forall_impl; [exact F1|]. simpl. lia.
    + destruct (IH S F) as (l1 & l2 & -> & H1 & H2). exists ((k', v) :: l1), l2.
      split; [done|]. split; [|done]. constructor; [simpl; lia|done].
Qed.

Lemma entries_app m1 m2 : entries (m1 ++ m2) = entries m1 ++ entries m2.
Proof. apply bind_app. Qed.

Lemma entries_cons k l m : entries ((k, l) :: m) = (pair k <$> l) ++ entries m.
Proof. done. Qed.

Lemma push_map_spec p r m nx :
  rr_ok m nx -> rr_ok (push_map p r m) nx /\ entries (push_map p r m) ≡ₚ (p, r) :: entries m.
Proof.
  intros (S & NE & Hnx). unfold push_map. destruct (om_find p m) as [l|] eqn:E; simpl.
  - destruct (om_find_inv_sorted p l m S E) as (l1 & l2 & -> & Sp).
    rewrite (om_insert_split p l) by done. split.
    + split; [by apply om_sorted_app in S; apply om_sorted_app|]. split.
      * apply Forall_app in NE as [? [? ?]%Forall_cons]. apply Forall_app. split; [done|].
        constructor; [|done]. simpl. by destruct l.
      * destruct Hnx as [->|[v Hv]]; [by left|right]. clear -Hv.
        induction l1 as [|[k w] l1 IH]; simpl in *; destruct (nx =? _); eauto.
    + rewrite !entries_app, !entries_cons, fmap_app. simpl.
      rewrite <- !app_assoc. simpl. by rewrite <- !Permutation_middle.
  - destruct (om_find_None_split p m S E) as (l1 & l2 & -> & Sp).
    rewrite om_insert_fresh by done. split.
    + split.
      { apply om_sorted_app. split_and!; [..|done]; clear -S.
        - induction l1 as [|[k w] l1 IH]; [constructor|]. simpl in S.
          apply om_sorted_cons in S as [F S]. apply om_sorted_cons. split; [|auto].
          by apply Forall_app in F as [? _].
        - induction l1 as [|[k w] l1 IH]; [done|]. simpl in S.
          apply om_sorted_cons in S as [F S]. auto. }
      split.
      * apply Forall_app in NE as [? ?]. apply Forall_app. split; [done|]. by constructor.
      * destruct Hnx as [->|[v Hv]]; [by left|right]. clear -Hv.
        induction l1 as [|[k w] l1 IH]; simpl in *; destruct (nx =? _); eauto.
    + rewrite !entries_app, entries_cons. simpl. by rewrite <- Permutation_middle.
Qed.

(** The map split at the process that is served. *)
Lemma pop_map_split m nx :
  rr_ok m nx -> m <> [] ->
  exists p r rest l1 l2, m = l1 ++ (p, r :: rest) :: l2 /\ om_split p l1 l2 /\
    (nx = 0 -> l1 = []) /\ (nx <> 0 -> p = nx) /\
    let m' := l1 ++ match rest with [] => [] | _ => [(p, rest)] end ++ l2 in
    pop_map m nx =
      (Some (p, r), (m', match (match head l2 with None => head m' | e => e end) with
                         | None => 0 | Some e => e.1 end)).
Proof.
  intros (S & NE & Hnx) Hm. unfold pop_map.
  destruct (om_begin m) as [first|] eqn:Eb; [|by destruct m].
  set (cur := if nx =? 0 then first.1 else nx).
  assert (exists l, om_find cur m = Some l) as [l El].
  { unfold cur. destruct (Z.eqb_spec nx 0) as [->|Hn]; [|by destruct Hnx as [?|[l ?]]; [|exists l]].
    destruct m as [|[k v] m]; [done|]. injection Eb as <-. simpl. rewrite Z.eqb_refl. eauto. }
  destruct (om_find_inv_sorted cur l m S El) as (l1 & l2 & Em & Sp).
  rewrite El. cbn [fst snd]. rewrite Em in NE.
  apply Forall_app in NE as [_ [Hl _]%Forall_cons]. simpl in Hl.
  destruct l as [|r rest]; [done|]. exists cur, r, rest, l1, l2.
  split; [done|]. split; [done|]. split; [|split].
  - intros ->. unfold cur in *. simpl in *. destruct l1 as [|e l1]; [done|]. exfalso.
    rewrite Em in Eb. injection Eb as ->. destruct Sp as [[Hlt _]%Forall_cons _]. lia.
  - intros Hn. unfold cur. by rewrite (proj2 (Z.eqb_neq nx 0)).
  - rewrite Em, (om_next_split cur (r :: rest)) by done. destruct rest as [|r2 rest]; simpl.
    + by rewrite om_erase_split.
    + by rewrite (om_insert_split cur (r :: r2 :: rest)).
Qed.

Lemma om_find_in_app {V} k (v : V) l1 l2 : is_Some (om_find k (l1 ++ (k, v) :: l2)).
Proof.
  induction l1 as [|[k' w] l1 IH]; simpl; [rewrite Z.eqb_refl; eauto|].
  destruct (k =? k'); eauto.
Qed.

Lemma om_sorted_drop {V} p (v : V) l1 l2 : om_sorted (l1 ++ (p, v) :: l2) -> om_sorted (l1 ++ l2).
Proof.
  induction l1 as [|[k w] l1 IH]; simpl; intros S; apply om_sorted_cons in S as [F S]; [done|].
  apply om_sorted_cons. split; [|auto]. apply Forall_app in F as [? [_ ?]%Forall_cons].
  by apply Forall_app.
Qed.

Lemma head_find {V} (m : omap V) : match head m with None => True | Some e => is_Some (om_find e.1 m) end.
Proof. destruct m as [|[k v] m]; simpl; [done|]. rewrite Z.eqb_refl. eauto. Qed.

Lemma pop_map_spec m nx :
  rr_ok m nx ->
  let '(o, (m', nx')) := pop_map m nx in
  rr_ok m' nx' /\ entries m ≡ₚ option_list o ++ entries m' /\ (o = None -> entries m = []).
Proof.
  intros Hok. destruct (decide (m = [])) as [->|Hm]; [by simpl|].
  destruct (pop_map_split m nx Hok Hm) as (p & r & rest & l1 & l2 & -> & Sp & _ & _ & ->).
  destruct Hok as (S & NE & _). split; [|split]; [| |done].
  - split.
    { destruct rest; simpl; [by eapply om_sorted_drop|].
      apply om_sorted_app. by apply om_sorted_app in S. }
    split.
    { apply Forall_app in NE as [? [_ ?]%Forall_cons]. apply Forall_app. split; [done|].
      apply Forall_app. split; [|done]. destruct rest; [constructor|]. by repeat constructor. }
    destruct l2 as [|[k2 v2] l2]; simpl.
    + match goal with |- context [head ?m] => pose proof (head_find m) as Hh; destruct (head m) end;
        [by right|by left].
    + right. rewrite (app_assoc l1). apply om_find_in_app.
  - rewrite !entries_app, entries_cons. simpl.
    destruct rest; simpl; rewrite ?app_nil_r; by rewrite <- ?Permutation_middle.
Qed.

Definition rr_valid (n : nat) (q : rr) : Prop :=
  length (proc_maps q) = n /\ length (next_proc q) = n /\
  forall d, 0 <= d < Z.of_nat n -> rr_ok (map_of d q) (next_of d q).

Lemma rr_set n d d' m nx (q : rr) :
  rr_valid n q -> 0 <= d < Z.of_nat n -> 0 <= d' ->
  let q' := mkRR (<[Z.to_nat d := m]> (proc_maps q)) (<[Z.to_nat d := nx]> (next_proc q)) in
  map_of d' q' = (if decide (d' = d) then m else map_of d' q) /\
  next_of d' q' = (if decide (d' = d) then nx else next_of d' q).
Proof.
  intros (L1 & L2 & _) Hd Hd'. unfold map_of, next_of. simpl. destruct (decide (d' = d)) as [->|].
  - rewrite !list_lookup_insert_eq by lia. done.
  - rewrite !list_lookup_insert_ne by lia. done.
Qed.

Lemma rr_push n d d' p r t (q : rr) :
  rr_valid n q -> 0 <= d < Z.of_nat n -> 0 <= d' ->
  map_of d' (push d p r t q) = (if decide (d' = d) then push_map p r (map_of d q) else map_of d' q) /\
  next_of d' (push d p r t q) = next_of d' q.
Proof.
  intros (L1 & L2 & _) Hd Hd'. split; [|done]. unfold map_of. simpl.
  destruct (decide (d' = d)) as [->|].
  - rewrite list_lookup_alter_eq.
    destruct (lookup_lt_is_Some_2 (proc_maps q) (Z.to_nat d)) as [m ->]; [lia|done].
  - rewrite list_lookup_alter_ne by lia. done.
Qed.

#[export] Instance rr_laws : PolicyLaws rr.
Proof.
  refine {| pol_ok := rr_valid |}; try done; cbn [pushRequest pol_pop pol_items rr_policy].
  - intros n d p r t q V Hd. destruct V as (L1 & L2 & O). split_and!; [|done|].
    + simpl. by rewrite length_alter.
    + intros d' Hd'. destruct (rr_push n d d' p r t q) as [-> ->]; [by split|done|lia|].
      destruct (decide _) as [->|]; [|by apply O]. apply push_map_spec. by apply O.
  - intros n d p r t q V Hd. simpl. unfold items.
    destruct (rr_push n d d p r t q V Hd) as [-> _]; [lia|]. destruct (decide (d = d)); [|done].
    eapply push_map_spec. by apply V.
  - intros n d d' p r t q V Hd Hd' Hne. simpl. unfold items.
    destruct (rr_push n d d' p r t q V Hd) as [-> _]; [lia|]. by destruct (decide (d' = d)).
  - intros n d q V Hd. simpl. unfold pop.
    pose proof (pop_map_spec (map_of d q) (next_of d q) (proj2 (proj2 V) d Hd)) as P.
    destruct (pop_map _ _) as [o [m' nx']]. simpl. destruct P as (P & _).
    split_and!; [simpl; rewrite length_insert; apply V..|]. intros d' Hd'.
    destruct (rr_set n d d' m' nx' q V Hd) as [-> ->]; [lia|].
    destruct (decide (d' = d)); [done|]. by apply V.
  - intros n d q V Hd. simpl. unfold pop, items.
    pose proof (pop_map_spec (map_of d q) (next_of d q) (proj2 (proj2 V) d Hd)) as P.
    destruct (pop_map _ _) as [o [m' nx']]. simpl. destruct P as (_ & P & _).
    destruct (rr_set n d d m' nx' q V Hd) as [-> _]; [lia|]. by destruct (decide (d = d)).
  - intros n d q V Hd. simpl. unfold pop, items.
    pose proof (pop_map_spec (map_of d q) (next_of d q) (proj2 (proj2 V) d Hd)) as P.
    destruct (pop_map _ _) as [o [m' nx']]. simpl. apply P.
  - intros n d d' q V Hd Hd' Hne. simpl. unfold pop, items.
    destruct (pop_map _ _) as [o [m' nx']]. simpl.
    destruct (rr_set n d d' m' nx' q V Hd) as [-> _]; [lia|]. by destruct (decide (d' = d)).
Defined.
End RoundRobin.

(** ** Shortest job first *)

Section Sjf.
Import Sjf.
Context `{PriorityQueue}.

Lemma remove_one_perm e l : e ∈ l -> l ≡ₚ e :: remove_one e l.
Proof.
  induction l as [|x l IH]; simpl; intros Hin; [by apply elem_of_nil in Hin|].
  destruct (decide (x = e)) as [->|Hne]; [done|].
  apply elem_of_cons in Hin as [->|Hin]; [done|]. rewrite <- Permutation_swap.
  by rewrite <- IH.
Qed.

Lemma sjf_lookup n d (q : sjf) :
  length (request_map q) = n -> 0 <= d < Z.of_nat n ->
  request_map q !! Z.to_nat d = Some (bag d q).
Proof.
  intros Hl Hd. unfold bag.
  destruct (lookup_lt_is_Some_2 (request_map q) (Z.to_nat d)) as [l ->]; [lia|done].
Qed.

#[export] Instance sjf_laws : PolicyLaws sjf.
Proof.
  refine {| pol_ok := fun n (q : sjf) => length (request_map q) = n |}; simpl; try done.
  - intros n d p r t q Hl _. simpl. by rewrite length_alter.
  - intros n d p r t q Hl Hd. unfold items, bag at 1. simpl.
    rewrite list_lookup_alter_eq, (sjf_lookup n) by done. simpl.
    rewrite fmap_app. simpl. by rewrite Permutation_app_comm.
  - intros n d d' p r t q Hl Hd Hd' Hne. unfold items, bag. simpl.
    rewrite list_lookup_alter_ne; [done|lia].
  - intros n d q Hl Hd. unfold pop. destruct (pq_top _); simpl; [|done]. by rewrite length_insert.
  - intros n d q Hl Hd. unfold pop. destruct (pq_top _) as [e|] eqn:E; simpl; [|done].
    unfold items, bag at 2. simpl. rewrite list_lookup_insert_eq by lia. simpl.
    rewrite (remove_one_perm e (bag d q)) at 1; [done|]. by apply pq_top_Some.
  - intros n d q Hl Hd. unfold pop. destruct (pq_top _) as [e|] eqn:E; simpl; [done|].
    intros _. unfold items. by rewrite (pq_top_None _ E).
  - intros n d d' q Hl Hd Hd' Hne. unfold pop. destruct (pq_top _) as [e|]; simpl; [|done].
    unfold items, bag. simpl. rewrite list_lookup_insert_ne; [done|lia].
  - intros n p t x q Hl. unfold updateTaskInferenceTime. by destruct (_ =? 0).
  - intros p t x d q. unfold updateTaskInferenceTime. by destruct (_ =? 0).
Defined.
End Sjf.
