(* ===== verification/SchedulerProps.v ===== *)
(** * Request scheduler: work conservation and arrival order

    With a driver that never answers busy: a device below its load threshold has
    no waiting request, and the FIFO policy hands requests to a device in the order
    in which they were added. *)

From Stdlib Require Import ZArith Lia.
From S2P Require Import Prelude Memory Scheduler SchedulerSpec SchedulerInv SchedulerCredit.
From S2P Require Import SchedulerCalls SchedulerThms SchedulerRuns SchedPolicies.
From S2P Require Import SchedPolicies.
Import Scheduler.

(** The driver never answers [-EBUSY] or [-EAGAIN]. *)
Definition never_busy (env : environment) : Prop :=
  forall c d rq, ~ busy (npu_run_req env c d rq).

(** ** Work conservation *)

Section Conserving.
Context {Q : Type} `{PolicyLaws Q}.
Context (env : environment).
Implicit Types (s : sched Q) (d p r : Z) (e : RequestEntry).

Definition conserving s : Prop := forall d, dev d s -> load d s < SCHED_THRE -> items d s = [].

Lemma conserving_same s s' : same_state s s' -> conserving s -> conserving s'.
Proof.
  intros (El & Eq & _) C d. destruct (same_loads_queue s s' El Eq) as (_ & D & _ & L & I & _).
  rewrite D, L, I. apply C.
Qed.

Lemma plain_loads c s s' :
  plain c = true -> c <> CClearAllLoad -> exec env c s = Ret s' -> loads s' = loads s.
Proof.
  intros Hp Hc E. destruct c; try discriminate Hp; try done; injection E as <-; simpl; try done.
  - unfold StopTaskInference. by destruct (reqs s !! p).
  - unfold StopAllInferenceForProcess. destruct (reqs s !! p); [|done]. by destruct (decide _).
  - unfold ClearRunningRequests. by destruct (reqs s !! p).
  - unfold SendError, to_listener. by destruct (has_listener env).
Qed.

(** The loop, started with at most one request waiting below the threshold. *)
Lemma dispatch_conserving d s s' :
  dispatch env d s (Ret s') -> never_busy env -> pol_valid s -> dev d s ->
  (forall d', dev d' s -> d' <> d -> load d' s < SCHED_THRE -> items d' s = []) ->
  (load d s + 1 < SCHED_THRE -> (length (items d s) <= 1)%nat) -> conserving s'.
Proof.
  intros D Hnb V Hd Ho Hl. destruct (dispatch_frame env d s _ D V Hd) as (s2 & F & (N & V' & Hne) & _).
  assert (s2 = s') as -> by (destruct F; congruence).
  intros d' Hd' Hlt. assert (dev d' s) as Hd2 by (unfold dev in *; by rewrite <- N).
  destruct (decide (d' = d)) as [->|Hn].
  - destruct (dispatch_conserves env d s _ s' D V Hd ltac:(intros; apply Hnb) eq_refl)
      as [?|[E Hlen]]; [done|]. rewrite E in Hlt. specialize (Hl Hlt).
    apply length_zero_iff_nil. lia.
  - destruct (Hne d' Hd2 Hn) as [EL EI]. rewrite EI. rewrite EL in Hlt. by apply Ho.
Qed.

Lemma after_Ret f o s' : after f o (Ret s') -> exists s, o = Ret s /\ s' = f s.
Proof. inversion 1. eauto. Qed.

Lemma AddScheduler_conserving packet d s s' :
  dev d s -> sched_inv s -> never_busy env -> conserving s ->
  AddScheduler env packet d s = Ret s' -> conserving s'.
Proof.
  intros Hd I Hnb C E. destruct (AddScheduler_run env packet d s Hd (si_valid s I)) as (o & A & Hc).
  rewrite E in A. apply after_Ret in A as (s4 & -> & ->).
  apply (conserving_same s4); [apply flush_same|].
  destruct (add_state_facts packet d s Hd (si_valid s I)) as (N & V & L & _ & Hi & Hne & _).
  assert (forall d', dev d' (add_state packet d s) <-> dev d' s) as Hdev
    by (intros; unfold dev; by rewrite N).
  destruct Hc as [[Hl D]|[Hl [= ->]]].
  - apply (dispatch_conserving d _ s4 D); [done|done|by apply Hdev| |].
    + intros d' Hd' Hn. rewrite L, Hne by (done || by apply Hdev). apply C. by apply Hdev.
    + intros _. rewrite Hi, (C d Hd Hl). done.
  - intros d' Hd'%Hdev. rewrite L. intros Hlt. destruct (decide (d' = d)) as [->|Hn]; [lia|].
    rewrite Hne by done. by apply C.
Qed.

Lemma finish_conserving d s s1 s' :
  dev d s -> sched_inv s -> never_busy env -> conserving s ->
  loads s1 = loads (unload d s) -> (forall d', items d' s1 = items d' s) -> pol_valid s1 ->
  dispatch env d s1 (Ret s') -> conserving s'.
Proof.
  intros Hd I Hnb C El Hi V D. destruct (unload_facts d s Hd) as (N & _ & _ & _ & _ & _ & Lu).
  assert (forall d', dev d' s1 <-> dev d' s) as Hdev
    by (intros; unfold dev, ndev in *; by rewrite El, N).
  assert (forall d', load d' s1 = load d' (unload d s)) as L1 by (intros; unfold load; by rewrite El).
  apply (dispatch_conserving d s1 s' D); [done|done|by apply Hdev| |].
  - intros d' Hd' Hn. rewrite L1, Hi, Lu by apply Hd'. destruct (decide _); [done|].
    apply C. by apply Hdev.
  - rewrite L1, Hi, Lu by apply Hd. destruct (decide _); [|done]. intros Hlt.
    rewrite (C d Hd); [simpl; lia|]. pose proof (si_load s I d Hd). lia.
Qed.

Lemma FinishJobs_conserving d resp s s' :
  dev d s -> sched_inv s -> never_busy env -> conserving s ->
  FinishJobs env d resp s = Ret s' -> conserving s'.
Proof.
  intros Hd I Hnb C E. pose proof (FinishJobs_run env d resp s Hd (si_valid s I)) as R.
  simpl in R. rewrite E in R. destruct (entry _ _ s) as [e|].
  - destruct R as (o & b & D & A). apply after_Ret in A as (s4 & -> & ->).
    apply (conserving_same s4); [apply finish_calls_same|].
    destruct (finish_found_state d resp (i32 (rs_proc_id resp)) (i32 (rs_req_id resp)) e s Hd
      (si_valid s I)) as (El & Hi & V1 & _).
    by eapply (finish_conserving d s).
  - destruct R as (lp & D).
    destruct (finish_missing_state d lp s Hd (si_valid s I)) as (El & Hi & V1 & _).
    by eapply (finish_conserving d s).
Qed.

Lemma exec_conserving c s s' :
  call_ok c s -> c <> CClearAllLoad -> sched_inv s -> never_busy env -> conserving s ->
  exec env c s = Ret s' -> conserving s'.
Proof.
  intros Hc Hn I Hnb C E. destruct (plain c) eqn:Hp.
  - destruct (exec_plain env c s Hp) as (s2 & E2 & Qt). rewrite E in E2. injection E2 as <-.
    pose proof (plain_loads c s s' Hp Hn E) as El. intros d Hd. rewrite (qt_items s s' Qt).
    unfold load. rewrite El. apply C. unfold dev, ndev in *. by rewrite <- El.
  - destruct c; try discriminate Hp; simpl in *;
      [by eapply AddScheduler_conserving|by eapply FinishJobs_conserving].
Qed.
End Conserving.

(** ** Arrival order under FIFO *)

Section Order.
Context (env : environment).
Implicit Types (s : sched Fifo.fifo) (d p r : Z) (e : RequestEntry).

(** The requests handed to device [d], in order; the requests added for it. *)
Definition requested d (tr : list event) : list (Z * Z) :=
  omap (fun ev => match ev with
                  | InferenceRequested d' rq _ => if d' =? d then Some (req_key rq) else None
                  | _ => None
                  end) tr.

Definition added d (cs : list call) : list (Z * Z) :=
  omap (fun c => match c with
                 | CAdd packet d' => if d' =? d then Some (req_key packet) else None
                 | _ => None
                 end) cs.

(** The waiting requests are the last ones added, and those handed to the device
    are among the earlier ones, in the same order. *)
Definition ordered d (l : list (Z * Z)) s : Prop :=
  exists l1, l = l1 ++ items d s /\ requested d (trace s) `sublist_of` l1.

Lemma requested_app d t1 t2 : requested d (t1 ++ t2) = requested d t1 ++ requested d t2.
Proof. apply omap_app. Qed.

Lemma ordered_same d l s s' :
  items d s' = items d s -> requested d (trace s') = requested d (trace s) ->
  ordered d l s -> ordered d l s'.
Proof. intros Hi Hr (l1 & E & Hs). exists l1. by rewrite Hi, Hr. Qed.

(** The callbacks hand no request to a device. *)
Definition callback (ev : event) : Prop :=
  match ev with InferenceRequested _ _ _ => False | _ => True end.

Lemma requested_callbacks d tr : Forall callback tr -> requested d tr = [].
Proof. induction 1 as [|ev tr Hev _ IH]; [done|]. by destruct ev. Qed.

(** Popping from device [d0], as seen on the queue of [d]. *)
Lemma fifo_pop_items d0 o q s :
  pol_valid s -> dev d0 s -> pol_pop d0 (queue s) = (o, q) ->
  items d0 s = option_list o ++ items d0 (set_queue q s) /\
  forall d, dev d s -> d <> d0 -> items d (set_queue q s) = items d s.
Proof.
  intros V Hd E. destruct (pop_facts d0 s o q V Hd E) as (_ & _ & _ & Hne & _).
  split; [|done]. simpl in E. rewrite fifo_pop_eq in E.
  unfold items at 1. simpl. destruct (Fifo.items d0 (queue s)) as [|x l] eqn:El;
    injection E as <- <-; simpl; unfold items; simpl; [done|].
  f_equal. symmetry. by apply (fifo_insert_items (ndev s)).
Qed.

Lemma ordered_pop d d0 l o q s :
  pol_valid s -> dev d0 s -> dev d s -> pol_pop d0 (queue s) = (o, q) -> ordered d l s ->
  exists l1, l = l1 ++ items d (set_queue q s) /\
    (requested d (trace s) ++ (if d0 =? d then option_list o else [])) `sublist_of` l1.
Proof.
  intros V Hd0 Hd E (l1 & -> & Hs). destruct (fifo_pop_items d0 o q s V Hd0 E) as [Hi Hne].
  destruct (Z.eqb_spec d0 d) as [->|Hn].
  - exists (l1 ++ option_list o). rewrite Hi, app_assoc. split; [done|]. by apply sublist_app.
  - exists l1. rewrite Hne by done. by rewrite app_nil_r.
Qed.

Lemma dispatch_ordered d d0 l s o s' :
  never_busy env -> dispatch env d0 s o -> pol_valid s -> dev d0 s -> keyed s -> final o s' ->
  (dev d s -> ordered d l s -> dev d s' /\ ordered d l s') /\ keyed s'.
Proof.
  intros Hnb.
  apply (dispatch_rel env d0 (fun s s' => dev d s -> ordered d l s -> dev d s' /\ ordered d l s')).
  - intros s1 s2 s3 H1 H2 Hd O. destruct (H1 Hd O). auto.
  - clear s o s'. intros s o q V Hd0 E _ Hd O.
    destruct (ordered_pop d d0 l o q s V Hd0 Hd E O) as (l1 & -> & Hs). split; [done|].
    exists l1. split; [done|]. eapply transitivity; [|exact Hs]. by apply sublist_inserts_r.
  - clear s o s'. intros s p r q e st n V Hd0 K E En Hd O.
    destruct (ordered_pop d d0 l _ q s V Hd0 Hd E O) as (l1 & -> & Hs).
    destruct (reject_side d0 p r st n q s) as (_ & D & _ & _ & I & _).
    destruct (reject_same d0 p r st n q s) as (_ & _ & T & _).
    split; [by apply D|]. exists l1. rewrite I, T. split; [done|].
    eapply transitivity; [|exact Hs]. by apply sublist_inserts_r.
  - clear s o s'. intros s p r q e n ret V Hd0 K E En Hb (c & rq & Hex).
    exfalso. apply (Hnb c d0 rq). by rewrite Hex.
  - clear s o s'. intros s p r q e n ret V Hd0 K E En Hd O.
    destruct (ordered_pop d d0 l _ q s V Hd0 Hd E O) as (l1 & -> & Hs).
    destruct (pop_facts d0 s _ q V Hd0 E) as (V' & _).
    destruct (sent_facts env d0 p r e ret n q s Hd0 V') as (N & _ & _ & _ & _ & I & T & _).
    split; [unfold dev; by rewrite N|]. exists l1. rewrite I, T, requested_app. split; [done|].
    simpl. destruct (normalize_dma_id (num_dma_ch env d0) (data e)) as (_ & Ep & Er).
    unfold req_key. rewrite Ep, Er. fold (req_key (data e)). rewrite (K p r e En).
    by destruct (d0 =? d).
  - clear s o s'. intros s err Hd O.
    destruct (to_listener_fields env [onSchedulerError err d0] s) as (El & Eq & _ & _ & T).
    destruct (same_loads_queue _ _ El Eq) as (_ & D & _ & _ & I & _).
    split; [by apply D|]. apply (ordered_same d l s); [by apply I| |done].
    rewrite T, requested_app. destruct (has_listener env); by rewrite app_nil_r.
Qed.

Lemma flush_callbacks s :
  exists l, Forall callback l /\ trace (flush env s) = trace s ++ l.
Proof.
  destruct (flush_facts env s) as (_ & E). rewrite E. eexists. split; [|done].
  destruct (has_listener env); [|constructor]. apply Forall_fmap. by apply Forall_true.
Qed.

Lemma finish_callbacks d resp e b s :
  exists l, Forall callback l /\ trace (finish_calls env d resp e b s) = trace s ++ l.
Proof.
  destruct (finish_calls_facts env d resp e b s) as (_ & E). rewrite E.
  destruct (flush_callbacks s) as (l & Fl & ->). rewrite <- app_assoc. eexists.
  split; [|done]. apply Forall_app. split; [done|]. unfold own_calls.
  destruct (has_listener env), b, (bool_decide (state e = CANCELLED)); by repeat constructor.
Qed.

(** Callbacks and updates that touch neither queues nor requests. *)
Lemma ordered_callbacks d l s s' :
  dev d s -> same_state s s' -> (exists tr, Forall callback tr /\ trace s' = trace s ++ tr) ->
  ordered d l s -> ordered d l s'.
Proof.
  intros Hd (El & Eq & _) (tr & Ht & E) O.
  destruct (same_loads_queue s s' El Eq) as (_ & _ & _ & _ & I & _).
  apply (ordered_same d l s); [apply I| |done].
  by rewrite E, requested_app, (requested_callbacks d tr), app_nil_r.
Qed.

Lemma AddScheduler_ordered d d0 l packet s s' :
  never_busy env -> dev d0 s -> dev d s -> sched_inv s ->
  final (AddScheduler env packet d0 s) s' -> ordered d l s ->
  ordered d (l ++ added d [CAdd packet d0]) s'.
Proof.
  intros Hnb Hd0 Hd I F (l1 & -> & Hs). destruct (add_state_inv packet d0 s Hd0 I) as [I2 N].
  assert (forall x, dev x (add_state packet d0 s) <-> dev x s) as Hdev
    by (intros; unfold dev; by rewrite N).
  assert (ordered d ((l1 ++ items d s) ++ added d [CAdd packet d0]) (add_state packet d0 s)) as O.
  { destruct (add_state_facts packet d0 s Hd0 (si_valid s I)) as (_ & _ & _ & _ & _ & Hne & T & _).
    exists l1. rewrite T, <- app_assoc. split; [|done]. f_equal. simpl.
    destruct (Z.eqb_spec d0 d) as [->|Hn].
    - symmetry. exact (fifo_push_items (ndev s) d _ _ (i32 (task_id packet)) (queue s)
        (si_valid s I) Hd).
    - rewrite app_nil_r. symmetry. apply Hne; congruence. }
  destruct (AddScheduler_run env packet d0 s Hd0 (si_valid s I)) as (o & A & Hc).
  destruct (after_inv _ _ _ _ (flush_same env) A F) as (s4 & F4 & S & Hs').
  assert (dev d s4 /\ ordered d ((l1 ++ items d s) ++ added d [CAdd packet d0]) s4) as [Hd4 O4].
  { destruct Hc as [[_ D]|[_ ->]].
    - eapply (dispatch_ordered d d0 _ _ o s4 Hnb D); [apply I2|by apply Hdev|apply I2|done| |done].
      by apply Hdev.
    - destruct F4; simplify_eq. split; [by apply Hdev|done]. }
  eapply (ordered_callbacks d _ s4); [done|done| |done].
  destruct Hs' as [->| ->]; [apply flush_callbacks|by exists []; rewrite app_nil_r].
Qed.

Lemma FinishJobs_ordered d d0 l resp s s' :
  never_busy env -> dev d0 s -> dev d s -> sched_inv s ->
  final (FinishJobs env d0 resp s) s' -> ordered d l s -> ordered d l s'.
Proof.
  intros Hnb Hd0 Hd I F O. pose proof (FinishJobs_run env d0 resp s Hd0 (si_valid s I)) as R.
  simpl in R. destruct (entry _ _ s) as [e|].
  - destruct R as (o & b & D & A).
    destruct (finish_found_state d0 resp (i32 (rs_proc_id resp)) (i32 (rs_req_id resp)) e s Hd0
      (si_valid s I)) as (El & Hi & V1 & He & T & _).
    destruct (finish_start_inv d0 s _ Hd0 I El Hi V1) as (Hd1 & K1 & _ & N1 & _).
    { intros p r. rewrite He. destruct (decide _); auto. }
    destruct (after_inv _ _ _ _ (finish_calls_same env d0 resp e b) A F) as (s4 & F4 & S & Hs').
    destruct (dispatch_ordered d d0 l _ o s4 Hnb D V1 Hd1 K1 F4) as [DO _].
    destruct DO as [Hd4 O4]; [unfold dev; by rewrite N1| |].
    { apply (ordered_same d l s); [apply Hi|by rewrite T|done]. }
    eapply (ordered_callbacks d _ s4); [done|done| |done].
    destruct Hs' as [->| ->]; [apply finish_callbacks|by exists []; rewrite app_nil_r].
  - destruct R as (lp & D).
    destruct (finish_missing_state d0 lp s Hd0 (si_valid s I)) as (El & Hi & V1 & He & T & _).
    destruct (finish_start_inv d0 s _ Hd0 I El Hi V1) as (Hd1 & K1 & _ & N1 & _).
    { intros. left. apply He. }
    destruct (dispatch_ordered d d0 l _ _ s' Hnb D V1 Hd1 K1 F) as [DO _].
    apply DO; [unfold dev; by rewrite N1|].
    apply (ordered_same d l s); [apply Hi|by rewrite T|done].
Qed.

Lemma exec_ordered d l c s s' :
  never_busy env -> call_ok c s -> dev d s -> sched_inv s -> final (exec env c s) s' ->
  ordered d l s -> ordered d (l ++ added d [c]) s'.
Proof.
  intros Hnb Hc Hd I F O. destruct (plain c) eqn:Hp.
  - destruct (exec_plain env c s Hp) as (s2 & E & Qt).
    assert (s2 = s') as <- by (destruct F; congruence).
    replace (added d [c]) with (@nil (Z * Z)) by (by destruct c). rewrite app_nil_r.
    destruct (qt_trace s s2 Qt) as [errs T]. apply (ordered_same d l s); [apply Qt| |done].
    rewrite T, requested_app, (requested_callbacks d (map _ errs)), app_nil_r; [done|].
    apply Forall_fmap. by apply Forall_true.
  - destruct c; try discriminate Hp; simpl in F, Hc; [by apply (AddScheduler_ordered d d0 l packet s)|].
    simpl. rewrite app_nil_r. by apply (FinishJobs_ordered d d0 l resp s).
Qed.

Lemma run_ordered d l cs s s' :
  never_busy env -> dev d s -> sched_inv s -> run env cs s s' -> ordered d l s ->
  ordered d (l ++ added d cs) s'.
Proof.
  intros Hnb Hd I R. revert l Hd I.
  induction R as [s|c s s' Hc F|c cs s1 s2 s3 Hc E R IH]; intros l Hd I O.
  - by rewrite app_nil_r.
  - by apply (exec_ordered d l c s).
  - assert (final (exec env c s1) s2) as F by (by left).
    destruct (exec_inv env c s1 Hc I) as (s2' & F' & I2 & N2).
    assert (s2' = s2) as -> by (destruct F, F'; congruence).
    change (c :: cs) with ([c] ++ cs). unfold added. rewrite omap_app, app_assoc.
    apply IH; [unfold dev; by rewrite N2|done|]. by apply (exec_ordered d l c s1).
Qed.

End Order.
