(* ===== verification/SchedulerContract.v ===== *)
(** * Request scheduler: the properties

    Safety, termination and order of service of [SchedulerService], for any policy
    that meets [PolicyLaws] where the policy does not matter, and the order each policy
    serves in. *)

From Stdlib Require Import ZArith Lia.
From S2P Require Import Prelude OrdMap Memory Scheduler SchedulerSpec SchedulerInv.
From S2P Require Import SchedulerCredit SchedulerCalls SchedulerThms SchedulerRuns.
From S2P Require Import SchedPolicies SchedulerProps.
Import Scheduler.

(** ** Running a sequence of calls *)

Section ExecAll.
Context {Q : Type} `{PolicyLaws Q}.
Context (env : environment).

Definition call_okb (c : call) (s : sched Q) : bool :=
  match c with CAdd _ d | CFinish d _ => in_range d s | _ => true end.

(** All the calls return. *)
Fixpoint exec_all (cs : list call) (s : sched Q) : option (sched Q) :=
  match cs with
  | [] => Some s
  | c :: cs' =>
      if call_okb c s then
        match exec env c s with Ret s' => exec_all cs' s' | _ => None end
      else None
  end.

Lemma call_okb_ok c s : call_okb c s = true -> call_ok c s.
Proof. by destruct c; simpl; rewrite ?in_range_dev. Qed.

Lemma exec_all_run cs s s' : exec_all cs s = Some s' -> run env cs s s'.
Proof.
  revert s. induction cs as [|c cs IH]; intros s; simpl; [intros [= <-]; constructor|].
  destruct (call_okb c s) eqn:Hc; [|done]. destruct (exec env c s) as [s2| | |] eqn:E; try done.
  intros R. by eapply run_cons; [apply call_okb_ok|exact E|apply IH].
Qed.

Lemma exec_all_conserving cs s s' :
  never_busy env -> Forall (fun c => c <> CClearAllLoad) cs -> sched_inv s -> conserving s ->
  exec_all cs s = Some s' -> conserving s'.
Proof.
  intros Hnb Hcs. revert s. induction Hcs as [|c cs Hc _ IH]; intros s I C; simpl; [by intros [= <-]|].
  destruct (call_okb c s) eqn:Hok; [|done]. apply call_okb_ok in Hok.
  destruct (exec env c s) as [s2| | |] eqn:E; try done.
  apply IH; [eapply exec_final_inv; [exact Hok|exact I|by left]|].
  by eapply (exec_conserving env c s).
Qed.

Lemma new_sched_empty n (q : Q) d : trace (new_sched n q) = [] /\ load d (new_sched n q) = 0.
Proof.
  split; [done|]. unfold load. simpl. destruct (decide (Z.to_nat d < n)%nat).
  - by rewrite lookup_replicate_2.
  - rewrite (proj1 (lookup_replicate_None n 0 (Z.to_nat d))); [done|lia].
Qed.
End ExecAll.

(** ** Concrete environments and calls *)

(** A driver that accepts everything; from the [n]-th call on, devices are blocked. *)
Definition ex_env (n : nat) : environment := {|
  has_listener := true;
  validateTask := fun _ _ _ _ => true;
  isBlocked := fun c _ => Nat.leb n c;
  num_dma_ch := fun _ => 3;
  npu_run_req := fun _ _ _ => 0
|}.

Definition ex_mem : Memory.meminfo := Memory.mkMeminfo 0 0 0 0.
Definition ex_req (p r t : Z) : request_acc :=
  mkReq r t ex_mem ex_mem 0 0 0 0 0 0 [] 0 0 0 p 0 0 0 0 0.
Definition ex_resp (p r : Z) : response := mkResp r 100 0 0 0 0 p 0 0 0 0 0 0 0.

Definition ex_key : Z * Z := (5, 3).

(** Process 5 adds requests 1 to 7 of task 2 on device 0: six run, one waits. *)
Definition ex_seven : list call := map (fun r => CAdd (ex_req 5 r 2) 0) [1; 2; 3; 4; 5; 6; 7].
Definition ex_init : sched Fifo.fifo := new_sched 1 (Fifo.new 1).
Definition ex_full : sched Fifo.fifo := default ex_init (exec_all (ex_env 100) ex_seven ex_init).

Lemma ex_full_run : run (ex_env 100) ex_seven ex_init ex_full.
Proof. apply exec_all_run. vm_compute. reflexivity. Qed.

Lemma ex_init_ok : pol_ok 1 (Fifo.new 1).
Proof. reflexivity. Qed.

Lemma ex_env_never_busy n : never_busy (ex_env n).
Proof. intros c d rq [E|E]; simpl in E; unfold EBUSY, EAGAIN in E; lia. Qed.

(** ** Properties *)

(** C6. In every state the scheduler reaches, for any policy, the load of every
    device is between 0 and 6 and every pending request waits in the queue of some
    device: no request is lost. *)
Theorem scheduler_invariant {Q} `{PolicyLaws Q} (env : environment) (n : nat) (q : Q) cs s :
  pol_ok n q -> run env cs (new_sched n q) s ->
  (forall d, dev d s -> 0 <= load d s <= SCHED_THRE) /\
  (forall p r e, entry p r s = Some e -> state e = PENDING ->
     exists d, dev d s /\ (p, r) ∈ items d s).
Proof.
  intros V R. destruct (run_inv env cs _ s (new_sched_inv n q V) R) as [_ _ P L].
  split; [done|]. intros p r e He Hp. by apply elem_of_all_items, (P p r e).
Qed.

Lemma scheduler_invariant_witness :
  run (ex_env 100) ex_seven ex_init ex_full /\ load 0 ex_full = 6 /\ 0 <= load 0 ex_full <= SCHED_THRE.
Proof.
  split; [exact ex_full_run|]. split; [vm_compute; reflexivity|].
  apply (proj1 (scheduler_invariant (ex_env 100) 1 (Fifo.new 1) ex_seven ex_full ex_init_ok
                  ex_full_run) 0).
  vm_compute. split; [discriminate|reflexivity].
Defined.

(** C7. Every call on an existing device terminates, in every reached state: the
    recursion of [schedule] and [doInference] ends within the length of the queue, and
    the call returns or stops at the assertion on the driver's answer. *)
Theorem scheduler_call_returns {Q} `{PolicyLaws Q} (env : environment) (n : nat) (q : Q) cs s c :
  pol_ok n q -> run env cs (new_sched n q) s -> call_ok c s ->
  exists s', exec env c s = Ret s' \/ exec env c s = Aborted s'.
Proof.
  intros V R Hc. pose proof (run_inv env cs _ s (new_sched_inv n q V) R) as I.
  destruct (exec_inv env c s Hc I) as (s' & F & _). by exists s'.
Qed.

Lemma scheduler_call_returns_witness :
  exists s', exec (ex_env 100) (CFinish 0 (ex_resp 5 3)) ex_full = Ret s' \/
             exec (ex_env 100) (CFinish 0 (ex_resp 5 3)) ex_full = Aborted s'.
Proof.
  apply (scheduler_call_returns (ex_env 100) 1 (Fifo.new 1) ex_seven); [exact ex_init_ok|exact ex_full_run|].
  vm_compute. split; [discriminate|reflexivity].
Defined.

(** A request is accepted by the devices at most as often as it was added. *)
Theorem accepted_at_most_added {Q} `{PolicyLaws Q} (env : environment) (n : nat) (q : Q) cs s k :
  pol_ok n q -> (forall d, 0 <= d < Z.of_nat n -> pol_items d q = []) ->
  run env cs (new_sched n q) s ->
  (cnt (accepts k) (trace s) <= list_sum (map (adds k) cs))%nat.
Proof.
  intros V Hq R. pose proof (accept_run env k cs _ s (new_sched_inv n q V) R) as A.
  assert (all_items (new_sched n q) = []) as E.
  { unfold all_items. rewrite (mbind_ext_in _ (fun _ => [])).
    - by induction (devs (new_sched n q)).
    - intros d Hd%elem_of_devs. apply Hq. unfold dev, ndev in Hd. simpl in Hd.
      by rewrite length_replicate in Hd. }
  unfold accept_credit in A. rewrite E in A. change (trace (new_sched n q)) with (@nil event) in A.
  change (cnt (accepts k) []) with 0%nat in A. change (cnt (is_key k) []) with 0%nat in A. lia.
Qed.

Lemma accepted_at_most_added_witness :
  cnt (accepts (5, 3)) (trace ex_full) = 1%nat /\
  (cnt (accepts ex_key) (trace ex_full) <= list_sum (map (adds ex_key) ex_seven))%nat.
Proof.
  split; [vm_compute; reflexivity|].
  apply (accepted_at_most_added (ex_env 100) 1 (Fifo.new 1)); [exact ex_init_ok| |exact ex_full_run].
  intros d Hd. replace d with 0 by lia. reflexivity.
Defined.

(** The listener is given a result, or an error, for a request at most as often
    as the request was added. *)
Theorem completed_at_most_added {Q} `{PolicyLaws Q} (env : environment) (n : nat) (q : Q) cs s k :
  pol_ok n q -> run env cs (new_sched n q) s ->
  (cnt (completes k) (trace s) <= list_sum (map (adds k) cs))%nat.
Proof.
  intros V R. pose proof (complete_run env k cs _ s (new_sched_inv n q V) R) as A.
  assert (complete_credit k (new_sched n q) = 0%nat) as E.
  { unfold complete_credit, entry. simpl. by rewrite lookup_empty. }
  rewrite E in A. unfold complete_credit in A. lia.
Qed.

Definition ex_finished : sched Fifo.fifo :=
  default ex_init (exec_all (ex_env 100) (ex_seven ++ [CFinish 0 (ex_resp 5 3)]) ex_init).

Lemma completed_at_most_added_witness :
  cnt (completes (5, 3)) (trace ex_finished) = 1%nat /\
  (cnt (completes ex_key) (trace ex_finished) <=
   list_sum (map (adds ex_key) (ex_seven ++ [CFinish 0 (ex_resp 5 3)])))%nat.
Proof.
  split; [vm_compute; reflexivity|].
  apply (completed_at_most_added (ex_env 100) 1 (Fifo.new 1)); [exact ex_init_ok|].
  apply exec_all_run. vm_compute. reflexivity.
Defined.

(** Once [StopTaskInference] has been called for the task of a running request,
    the listener is never given a result for it, whatever calls follow, unless the
    request is added again. *)
Theorem stopped_request_is_silent {Q} `{PolicyLaws Q} (env : environment) (n : nat) (q : Q)
    cs0 s0 p r e d t cs s :
  pol_ok n q -> run env cs0 (new_sched n q) s0 ->
  entry p r s0 = Some e -> state e = RUNNING -> task_id (data e) = u32 t ->
  (forall d', dev d' s0 -> (p, r) ∉ items d' s0) ->
  Forall (fun cb => resp_key cb.1 <> (p, r)) (pendingErrorCallbacks s0) ->
  run env cs (StopTaskInference p d t s0) s -> Forall (fun c => adds (p, r) c = 0%nat) cs ->
  cnt (completes (p, r)) (trace s) = cnt (completes (p, r)) (trace s0).
Proof.
  intros V R0 He Hs Ht Hq Hcb R Ha. pose proof (run_inv env cs0 _ s0 (new_sched_inv n q V) R0) as I.
  pose proof (StopTaskInference_quiet p d t s0) as Qt.
  assert (silent (p, r) (StopTaskInference p d t s0)) as S.
  { unfold silent. rewrite (quiet_all_items _ _ Qt), (qt_pending _ _ Qt). split_and!.
    - intros (d' & Hd' & Hin)%elem_of_all_items. by apply (Hq d').
    - induction Hcb as [|cb l Hcb _ IH]; [done|]. rewrite cnt_cons, IH. unfold defers, is_key.
      by rewrite bool_decide_eq_false_2.
    - intros e'. unfold StopTaskInference, entry in *. simpl in *.
      destruct (reqs s0 !! p) as [m|] eqn:Em; [|done]. simpl in He. unfold stop_requests. simpl.
      rewrite lookup_insert_eq. simpl. unfold stop_entries. rewrite lookup_omap, He. simpl.
      rewrite Ht, Z.eqb_refl, Hs. by intros [= <-]. }
  assert (trace (StopTaskInference p d t s0) = trace s0) as <-
    by (unfold StopTaskInference; by destruct (reqs s0 !! p)).
  destruct (quiet_inv _ _ Qt I) as [I' _].
  by apply (run_silent env (p, r) cs _ s I' R Ha S).
Qed.

Definition ex_stopped : sched Fifo.fifo :=
  default ex_init (exec_all (ex_env 100) [CFinish 0 (ex_resp 5 3)]
                     (StopTaskInference 5 0 2 ex_full)).

Lemma stopped_request_is_silent_witness :
  cnt (completes (5, 3)) (trace ex_stopped) = cnt (completes (5, 3)) (trace ex_full).
Proof.
  apply (stopped_request_is_silent (ex_env 100) 1 (Fifo.new 1) ex_seven ex_full 5 3
           (mkEntry (ex_req 5 3 2) RUNNING 0) 0 2 [CFinish 0 (ex_resp 5 3)] ex_stopped).
  - exact ex_init_ok.
  - exact ex_full_run.
  - vm_compute. reflexivity.
  - reflexivity.
  - reflexivity.
  - intros d Hd. assert (ndev ex_full = 1%nat) as N by (vm_compute; reflexivity).
    unfold dev in Hd. rewrite N in Hd. assert (d = 0) as -> by lia.
    assert (items 0 ex_full = [(5, 7)]) as -> by (vm_compute; reflexivity).
    rewrite list_elem_of_singleton. congruence.
  - assert (pendingErrorCallbacks ex_full = []) as -> by (vm_compute; reflexivity). constructor.
  - apply exec_all_run. vm_compute. reflexivity.
  - repeat constructor.
Defined.

(** C8. With a driver that is never busy and no reset of the loads, a device whose
    load is below the threshold has no waiting request. *)
Theorem scheduler_work_conserving {Q} `{PolicyLaws Q} (env : environment) (n : nat) (q : Q) cs s d :
  pol_ok n q -> (forall d', 0 <= d' < Z.of_nat n -> pol_items d' q = []) ->
  never_busy env -> Forall (fun c => c <> CClearAllLoad) cs ->
  exec_all env cs (new_sched n q) = Some s -> dev d s -> load d s < SCHED_THRE -> items d s = [].
Proof.
  intros V Hq Hnb Hcs E. apply (exec_all_conserving env cs (new_sched n q) s Hnb Hcs); [| |done].
  - by apply new_sched_inv.
  - intros d' Hd' _. apply Hq. unfold dev, ndev in Hd'. simpl in Hd'.
    by rewrite length_replicate in Hd'.
Qed.

Lemma scheduler_work_conserving_witness :
  load 0 ex_finished = 6 /\
  exists s, exec_all (ex_env 100) [CAdd (ex_req 5 1 2) 0] ex_init = Some s /\
            load 0 s = 1 /\ items 0 s = [].
Proof.
  split; [vm_compute; reflexivity|]. eexists. split; [vm_compute; reflexivity|].
  split; [reflexivity|].
  apply (scheduler_work_conserving (ex_env 100) 1 (Fifo.new 1) [CAdd (ex_req 5 1 2) 0]).
  - exact ex_init_ok.
  - intros d Hd. replace d with 0 by lia. reflexivity.
  - apply ex_env_never_busy.
  - repeat constructor. discriminate.
  - vm_compute. reflexivity.
  - vm_compute. split; [discriminate|reflexivity].
  - vm_compute. reflexivity.
Defined.

(** Under [FIFOSchedulerService] and a driver that is never busy, the requests
    handed to a device are in the order in which they were added, and those still
    waiting are the last ones added, in order. *)
Theorem fifo_order (env : environment) (n : nat) cs s d :
  never_busy env -> 0 <= d < Z.of_nat n -> run env cs (new_sched n (Fifo.new n)) s ->
  exists l, added d cs = l ++ items d s /\ requested d (trace s) `sublist_of` l.
Proof.
  intros Hnb Hd R.
  assert (pol_ok n (Fifo.new n)) as V by (simpl; unfold Fifo.new; apply length_replicate).
  apply (run_ordered env d [] cs (new_sched n (Fifo.new n)) s Hnb); try done.
  - unfold dev, ndev. simpl. by rewrite length_replicate.
  - by apply new_sched_inv.
  - exists []. split; [|done]. unfold items, Fifo.new. simpl.
    unfold Fifo.items. rewrite lookup_replicate_2; [done|lia].
Qed.

Lemma fifo_order_witness :
  exists l, added 0 ex_seven = l ++ [(5, 7)] /\ requested 0 (trace ex_full) `sublist_of` l.
Proof.
  destruct (fifo_order (ex_env 100) 1 ex_seven ex_full 0 (ex_env_never_busy 100)) as (l & E & Hs).
  - lia.
  - exact ex_full_run.
  - exists l. split; [|exact Hs]. rewrite E.
    assert (items 0 ex_full = [(5, 7)]) as -> by (vm_compute; reflexivity). reflexivity.
Defined.

(** ** Order of service of the other two policies *)

(** The processes in the order in which round robin visits them. *)
Definition rr_view (m : omap (list Z)) (nx : Z) : omap (list Z) :=
  filter (fun e => nx <= e.1) m ++ filter (fun e => e.1 < nx) m.

Lemma filter_all {A} (P : A -> Prop) `{!forall x, Decision (P x)} l : Forall P l -> filter P l = l.
Proof.
  induction 1 as [|x l Hx _ IH]; [done|]. rewrite filter_cons_True by done. by rewrite IH.
Qed.

Lemma filter_nothing {A} (P : A -> Prop) `{!forall x, Decision (P x)} l :
  Forall (fun x => ~ P x) l -> filter P l = [].
Proof. induction 1 as [|x l Hx _ IH]; [done|]. by rewrite filter_cons_False. Qed.

(** The view at the key [k] that splits the map into [l1] and [l2]. *)
Lemma rr_view_split k l1 l2 :
  Forall (fun e => e.1 < k) l1 -> Forall (fun e => k <= e.1) l2 -> rr_view (l1 ++ l2) k = l2 ++ l1.
Proof.
  intros H1 H2. unfold rr_view. rewrite !filter_app.
  rewrite (filter_nothing _ l1), (filter_all _ l2), (filter_all _ l1), (filter_nothing _ l2).
  - by rewrite app_nil_r.
  - eapply Forall_impl; [exact H2|]. simpl. lia.
  - done.
  - done.
  - eapply Forall_impl; [exact H1|]. simpl. lia.
Qed.

(** One [schedule] of round robin on the view of one device. *)
Lemma pop_map_rotates m nx :
  rr_ok m nx -> Forall (fun e => 0 <= e.1) m -> m <> [] ->
  exists p r rest v, rr_view m nx = (p, r :: rest) :: v /\
    let '(o, (m', nx')) := RoundRobin.pop_map m nx in
    o = Some (p, r) /\
    rr_view m' nx' = v ++ match rest with [] => [] | _ => [(p, rest)] end.
Proof.
  intros Hok Hpos Hm. destruct (pop_map_split m nx Hok Hm)
    as (p & r & rest & l1 & l2 & -> & [Sp1 Sp2] & H0 & Hn & ->).
  set (X := match rest with [] => [] | _ => [(p, rest)] end).
  assert (Forall (fun e => e.1 <= p) X /\ Forall (fun e => e.1 = p) X) as [HX HX2]
    by (unfold X; destruct rest; repeat constructor; simpl; lia).
  exists p, r, rest, (l2 ++ l1). split.
  - destruct (decide (nx = 0)) as [->|Hne].
    + rewrite (H0 eq_refl) in *. rewrite app_nil_r. simpl in *.
      pose proof (rr_view_split 0 [] ((p, r :: rest) :: l2) (Forall_nil_2 _) Hpos) as Hv.
      simpl in Hv. by rewrite app_nil_r in Hv.
    + rewrite <- (Hn Hne). rewrite rr_view_split; [done|done|]. constructor; [simpl; lia|].
      eapply Forall_impl; [exact Sp2|]. simpl. lia.
  - split; [done|]. destruct Hok as (S & _). apply om_sorted_app in S as (S1 & S2 & _).
    destruct l2 as [|[k2 v2] l2]; simpl.
    + rewrite app_nil_r. destruct (l1 ++ X) as [|[k v] m'] eqn:Em; [done|]. simpl.
      change ((k, v) :: m') with ([] ++ (k, v) :: m').
      rewrite (rr_view_split k [] ((k, v) :: m')); [by rewrite app_nil_r|constructor|].
      constructor; [done|]. destruct l1 as [|e l1]; simpl in Em.
      * rewrite Em in HX2. apply Forall_cons in HX2 as [Hk HX3]. simpl in Hk.
        eapply Forall_impl; [exact HX3|]. simpl. lia.
      * injection Em as -> <-. apply om_sorted_cons in S1 as [F1 _].
        apply Forall_cons in Sp1 as [Hk _]. apply Forall_app. split.
        -- eapply Forall_impl; [exact F1|]. simpl. lia.
        -- eapply Forall_impl; [exact HX2|]. simpl in *. lia.
    + apply Forall_cons in Sp2 as [Hk2 _]. simpl in Hk2. rewrite (app_assoc l1).
      rewrite rr_view_split; [by rewrite <- app_assoc| |].
      * apply Forall_app. split; [eapply Forall_impl; [exact Sp1|]|eapply Forall_impl; [exact HX|]];
          simpl; lia.
      * apply om_sorted_cons in S2 as [F2 _]. constructor; [simpl; lia|].
        eapply Forall_impl; [exact F2|]. simpl. lia.
Qed.

(** [RoundRobinSchedulerService] serves the processes in rotation: it takes the
    oldest request of the process at the head of the rotation and puts that process, if
    it has more requests, at the back; every other process moves up. *)
Theorem round_robin_rotation n d (q : RoundRobin.rr) p l v :
  rr_valid n q -> 0 <= d < Z.of_nat n -> Forall (fun e => 0 <= e.1) (RoundRobin.map_of d q) ->
  rr_view (RoundRobin.map_of d q) (RoundRobin.next_of d q) = (p, l) :: v ->
  exists r rest, l = r :: rest /\ (RoundRobin.pop d q).1 = Some (p, r) /\
    rr_view (RoundRobin.map_of d (RoundRobin.pop d q).2)
            (RoundRobin.next_of d (RoundRobin.pop d q).2) =
    v ++ match rest with [] => [] | _ => [(p, rest)] end.
Proof.
  intros V Hd Hpos E. unfold RoundRobin.pop.
  assert (RoundRobin.map_of d q <> []) as Hm by (intros Em; rewrite Em in E; done).
  destruct (pop_map_rotates _ _ (proj2 (proj2 V) d Hd) Hpos Hm) as (p' & r & rest & v' & E' & P).
  rewrite E in E'. injection E' as <- -> <-.
  destruct (RoundRobin.pop_map _ _) as [o [m' nx']]. destruct P as [-> P]. exists r, rest.
  split; [done|]. split; [done|]. cbn [snd].
  destruct (rr_set n d d m' nx' q V Hd ltac:(lia)) as [-> ->]. by destruct (decide (d = d)).
Qed.

(** Processes 4, 6 and 9 on one device; 6 is next. *)
Definition ex_rr : RoundRobin.rr :=
  RoundRobin.mkRR [[(4, [1]); (6, [2; 3]); (9, [5])]] [6].

Lemma ex_rr_valid : rr_valid 1 ex_rr.
Proof.
  split; [done|]. split; [done|]. intros d Hd. replace d with 0 by lia.
  split; [|split; [|right; by eexists]].
  - repeat constructor.
  - repeat constructor; done.
Qed.

Lemma round_robin_rotation_witness :
  (RoundRobin.pop 0 ex_rr).1 = Some (6, 2) /\
  rr_view (RoundRobin.map_of 0 (RoundRobin.pop 0 ex_rr).2)
          (RoundRobin.next_of 0 (RoundRobin.pop 0 ex_rr).2) = [(9, [5]); (4, [1]); (6, [3])].
Proof.
  destruct (round_robin_rotation 1 0 ex_rr 6 [2; 3] [(9, [5]); (4, [1])]) as (r & rest & E & E1 & E2).
  - exact ex_rr_valid.
  - lia.
  - repeat constructor; simpl; lia.
  - reflexivity.
  - injection E as <- <-. split; [exact E1|exact E2].
Defined.

(** [SJFSchedulerService] takes, of the requests waiting for the device, one with
    the smallest time recorded when it was pushed and, among those, the smallest
    request id, and removes exactly that one; the time it is pushed with is the first
    inference time reported for its task since the process was last cleaned. *)
Theorem sjf_shortest_first `{Sjf.PriorityQueue} n d (q : Sjf.sjf) p r :
  length (Sjf.request_map q) = n -> 0 <= d < Z.of_nat n ->
  (Sjf.pop d q).1 = Some (p, r) ->
  exists e, Sjf.key_of e = (p, r) /\ e ∈ Sjf.bag d q /\
    Sjf.bag d q ≡ₚ e :: Sjf.bag d (Sjf.pop d q).2 /\
    forall x, x ∈ Sjf.bag d q ->
      Sjf.time e <= Sjf.time x /\ (Sjf.time x = Sjf.time e -> Sjf.requestId e <= Sjf.requestId x).
Proof.
  intros Hl Hd. unfold Sjf.pop. destruct (Sjf.pq_top _) as [e|] eqn:E; [|done].
  intros [= <- <-]. destruct (Sjf.pq_top_Some _ _ E) as [Hin Hmax]. exists e.
  split; [done|]. split; [done|]. split.
  - unfold Sjf.bag at 2. simpl. rewrite list_lookup_insert_eq by lia. simpl.
    by apply remove_one_perm.
  - intros x Hx. specialize (Hmax x Hx). unfold Sjf.elem_lt in Hmax.
    destruct (Z.eqb_spec (Sjf.time e) (Sjf.time x)); bool_facts; lia.
Qed.

(** A priority queue: the first element no other exceeds. *)
Definition first_top (l : list Sjf.request_elem) : option Sjf.request_elem :=
  foldr (fun x acc => match acc with
                      | None => Some x
                      | Some y => if Sjf.elem_lt x y then Some y else Some x
                      end) None l.

Lemma first_top_Some l e :
  first_top l = Some e -> e ∈ l /\ forall x, x ∈ l -> Sjf.elem_lt e x = false.
Proof.
  revert e. induction l as [|y l IH]; simpl; [done|]. intros e.
  destruct (first_top l) as [z|] eqn:E.
  - destruct (IH z eq_refl) as [Hz Hmax]. destruct (Sjf.elem_lt y z) eqn:Ey; intros [= <-].
    + split; [by right|]. intros x [->|Hx]%elem_of_cons; [|by apply Hmax].
      unfold Sjf.elem_lt in *. split_hyp Ey; split_goal; bool_facts; apply Z.ltb_ge || done; lia.
    + split; [by left|]. intros x [->|Hx]%elem_of_cons.
      * unfold Sjf.elem_lt. rewrite Z.eqb_refl. apply Z.ltb_irrefl.
      * specialize (Hmax x Hx). unfold Sjf.elem_lt in *. split_hyp Ey; split_hyp Hmax; split_goal;
          bool_facts; try done; try (apply Z.ltb_ge; lia); lia.
  - intros [= <-]. assert (l = []) as ->.
    { destruct l as [|w l]; [done|]. simpl in E. destruct (first_top l); [|done].
      by destruct (Sjf.elem_lt w r). }
    split; [by left|]. intros x ->%list_elem_of_singleton. unfold Sjf.elem_lt.
    rewrite Z.eqb_refl. apply Z.ltb_irrefl.
Qed.

#[local] Instance ex_pq : Sjf.PriorityQueue.
Proof.
  refine {| Sjf.pq_top := first_top |}.
  - intros [|w l]; [done|]. simpl. destruct (first_top l) as [r|]; [|done].
    by destruct (Sjf.elem_lt w r).
  - exact first_top_Some.
Defined.

Definition ex_sjf : Sjf.sjf :=
  Sjf.mkSjf [[Sjf.mkElem 1 5 900; Sjf.mkElem 2 5 300; Sjf.mkElem 3 6 300]] ∅.

Lemma sjf_shortest_first_witness :
  exists e, Sjf.key_of e = (5, 2) /\ e ∈ Sjf.bag 0 ex_sjf /\ Sjf.time e <= 300.
Proof.
  destruct (sjf_shortest_first 1 0 ex_sjf 5 2) as (e & Ek & Hin & _ & Hmin).
  - reflexivity.
  - lia.
  - reflexivity.
  - exists e. split; [exact Ek|]. split; [exact Hin|].
    apply (Hmin (Sjf.mkElem 3 6 300)). right. right. left.
Defined.

(** ** What the scheduler does that its comments do not say *)

(** Request 7 waits, the device is blocked, and a response comes for a process the
    scheduler does not know. *)
Definition ex_unknown : list call := ex_seven ++ [CFinish 0 (ex_resp 77 1)].

(** [FinishJobs] for an unknown process dispatches a waiting request but does
    not flush the deferred errors: the rejected request 7 has left the table and its
    error is not given to the listener. *)
Theorem deferred_error_waits :
  exists s, exec_all (ex_env 19) ex_unknown ex_init = Some s /\
    entry 5 7 s = None /\ cnt (completes (5, 7)) (trace s) = 0%nat /\
    map (fun cb => status cb.1) (pendingErrorCallbacks s) = [-2].
Proof. eexists. split; [vm_compute; reflexivity|]. vm_compute. auto. Qed.

(** Request 7 is stopped while it waits, and added again with the same id. *)
Definition ex_readd : list call :=
  ex_seven ++ [CStopTask 5 0 2; CAdd (ex_req 5 7 2) 0; CFinish 0 (ex_resp 5 1);
               CFinish 0 (ex_resp 5 2)].

(** [StopTaskInference] erases a pending request from the table and not from
    the queue: when the id is added again, the stale queue entry and the new one are
    both dispatched, the second while the request is already running. *)
Theorem stale_entry_dispatched_twice :
  exists s, exec_all (ex_env 1000) ex_readd ex_init = Some s /\
    cnt (accepts (5, 7)) (trace s) = 2%nat /\ load 0 s = 6 /\
    GetRunningRequestIds 5 0 s = [7].
Proof. eexists. split; [vm_compute; reflexivity|]. vm_compute. auto. Qed.
