(* ===== verification/FormatHandler.v ===== *)
(** * NPU tensor formats: definitions

    [lib/npu_format_handler.cpp]: the conversion between the dense tensors of
    the application and the padded layouts of the NPU.  Buffers are blocks of a
    [heap]; a pointer is the name of its block, and 0 is the null pointer, so
    that the in-place calls ([input.data == output.data]) are calls on one block.
    [None] is undefined behaviour: an access outside a block, an overlapping
    [memcpy] or the overflow of an [int].  The build without [USE_IPP] and
    [USE_NEON] is modelled, in which [bidirectional_transpose] has one
    implementation; failing allocations ([std::bad_alloc]) are not modelled. *)

From Stdlib Require Import ZArith Lia.
From S2P Require Import Prelude.

Module FormatHandler.

(** ** Memory *)

Abbreviation heap := (gmap Z (list Z)).

Record Bytes := mkBytes { bsize : Z; bdata : Z }.

(** Where [memcpy] reads from: a pointer, or the [data()] of a local vector. *)
Inductive source := Ptr (p : Z) | Vec (v : list Z).

Definition load (h : heap) (s : source) : option (list Z) :=
  match s with Ptr p => h !! p | Vec v => Some v end.

Definition len (l : list Z) : Z := Z.of_nat (length l).

Definition slice (off n : Z) (l : list Z) : list Z := take (Z.to_nat n) (drop (Z.to_nat off) l).

Definition in_block (off n : Z) (l : list Z) : bool :=
  (0 <=? off) && (0 <=? n) && (off + n <=? len l).

(** Two ranges of one block. *)
Definition overlap (dst doff : Z) (s : source) (soff n : Z) : bool :=
  match s with
  | Ptr p => (p =? dst) && (doff <? soff + n) && (soff <? doff + n)
  | Vec _ => false
  end.

(** Copying into a vector or block given by its contents. *)
Definition copy_bytes (doff : Z) (from : list Z) (soff n : Z) (to : list Z) : option (list Z) :=
  if in_block doff n to && in_block soff n from
  then Some (list_inserts (Z.to_nat doff) (slice soff n from) to) else None.

Definition memcpy (dst doff : Z) (s : source) (soff n : Z) (h : heap) : option heap :=
  from ← load h s;
  to ← h !! dst;
  if overlap dst doff s soff n then None
  else
    to' ← copy_bytes doff from soff n to;
    mret (<[dst := to']> h).

Definition memset (dst n : Z) (h : heap) : option heap :=
  to ← h !! dst;
  to' ← copy_bytes 0 (replicate (Z.to_nat n) 0) 0 n to;
  mret (<[dst := to']> h).

(** The bytes a local vector is filled with. *)
Definition read (p n : Z) (h : heap) : option (list Z) :=
  b ← h !! p;
  if in_block 0 n b then Some (slice 0 n b) else None.

(** [int] arithmetic that must not overflow. *)
Definition ck (z : Z) : option Z := if i32_ok z then Some z else None.

(** A [for] loop whose body may return from the function. *)
Fixpoint for_each {A S} (l : list A) (body : A -> S -> option (Z * S + S)) (s : S)
    : option (Z * S + S) :=
  match l with
  | [] => Some (inr s)
  | x :: l' =>
      match body x s with
      | Some (inr s') => for_each l' body s'
      | r => r
      end
  end.

(** [for (i = 0; i < n; ++i)] *)
Abbreviation upto := (seqZ 0).

(** The end of the function after a loop: 0, or the code it returned. *)
Definition finish (out : Bytes) (r : option (Z * heap + heap)) : option (Z * Bytes * heap) :=
  match r with
  | Some (inr h) => Some (0, out, h)
  | Some (inl (code, h)) => Some (code, out, h)
  | None => None
  end.

(** ** Encoding *)

Definition cdiv (a b : Z) : option Z :=
  if b =? 0 then Some 0
  else
    n ← ck (a + (b - 1));
    mret (Z.quot n b).

(** The row loop of [encode]. *)
Definition encode_rows (dst : Z) (s : source) (row col aligned_col : Z) (h : heap)
    : option (Z * heap + heap) :=
  for_each (upto row) (fun i h => inr <$> memcpy dst (i * aligned_col) s (i * col) col h) h.

Definition encode (input output : Bytes) (col unit_ : Z) (h : heap)
    : option (Z * Bytes * heap) :=
  if (col <=? 0) || (unit_ <=? 0) then Some (-1, output, h)
  else if negb (bsize input mod col =? 0) then Some (-1, output, h)
  else if bdata input =? 0 then Some (-1, output, h)
  else
    let row := i32 (bsize input / col) in
    groups ← cdiv col unit_;
    aligned_col ← ck (groups * unit_);
    let expected_size := u32 (u32 row * u32 aligned_col) in
    if bdata output =? 0 then Some (-1, output, h)
    else if bsize output <? expected_size then Some (-1, output, h)
    else
      let out := mkBytes expected_size (bdata output) in
      finish out
        (if bdata input =? bdata output then
           if col =? aligned_col then Some (inr h)
           else
             temp_buffer ← read (bdata input) (bsize input) h;
             h1 ← memset (bdata output) expected_size h;
             encode_rows (bdata output) (Vec temp_buffer) row col aligned_col h1
         else
           h1 ← memset (bdata output) expected_size h;
           encode_rows (bdata output) (Ptr (bdata input)) row col aligned_col h1).

Definition encode_preformatter (input output : Bytes) (align_unit : Z) (h : heap)
    : option (Z * Bytes * heap) :=
  let col := i32 (bsize input) in
  if (col =? 0) && (bdata input =? 0) then Some (0, mkBytes 0 (bdata output), h)
  else if col <=? 0 then Some (-1, output, h)
  else encode input output col align_unit h.

Definition encode_preim2col (input output : Bytes) (width channel align_unit : Z) (h : heap)
    : option (Z * Bytes * heap) :=
  if (width <=? 0) || (channel <=? 0) then Some (-1, output, h)
  else
    col ← ck (width * channel);
    encode input output col align_unit h.

(** One chunk of [encode_formatted]: group [g] of row [i]. *)
Definition formatted_chunk (input out : Bytes) (s : source) (row col align_unit : Z)
    (g i : Z) (h : heap) : option (Z * heap + heap) :=
  let src_addr := i * col + g * align_unit in
  let dst_addr := g * row * align_unit + i * align_unit in
  let remaining_cols := col - g * align_unit in
  let copy_size := if remaining_cols <? align_unit then remaining_cols else align_unit in
  if 0 <? copy_size then
    if (bsize input <? src_addr + copy_size) || (bsize out <? dst_addr + copy_size)
    then Some (inl (-1, h))
    else inr <$> memcpy (bdata out) dst_addr s src_addr copy_size h
  else Some (inr h).

Definition formatted_loops (input out : Bytes) (s : source) (col_group row col align_unit : Z)
    (h : heap) : option (Z * heap + heap) :=
  for_each (upto col_group)
    (fun g h => for_each (upto row) (formatted_chunk input out s row col align_unit g) h) h.

Definition encode_formatted (input output : Bytes) (channel align_unit : Z) (h : heap)
    : option (Z * Bytes * heap) :=
  let col := channel in
  if (col <=? 0) || (align_unit <=? 0) then Some (-1, output, h)
  else if bdata input =? 0 then Some (-1, output, h)
  else if bsize input =? 0 then Some (0, mkBytes 0 (bdata output), h)
  else if negb (bsize input mod col =? 0) then Some (-1, output, h)
  else
    let row := i32 (bsize input / col) in
    col_group ← cdiv col align_unit;
    aligned_col ← ck (col_group * align_unit);
    let expected_size := u32 (u32 row * u32 aligned_col) in
    if bdata output =? 0 then Some (-1, output, h)
    else
      let out := mkBytes expected_size (bdata output) in
      finish out
        (h1 ← memset (bdata out) expected_size h;
         if bdata input =? bdata out then
           temp_buffer ← read (bdata input) (bsize input) h1;
           formatted_loops input out (Vec temp_buffer) col_group row col align_unit h1
         else formatted_loops input out (Ptr (bdata input)) col_group row col align_unit h1).

(** ** Decoding *)

(** One row; [exact] is false in the in-place branch, which computes the
    offsets in [int]. *)
Definition decode_row (input out : Bytes) (s : source) (exact : bool) (col aligned_col : Z)
    (i : Z) (h : heap) : option (Z * heap + heap) :=
  if (bsize out <? i * col + col) || (bsize input <? i * aligned_col + col)
  then Some (inl (-1, h))
  else
    doff ← (if exact then Some (i * col) else ck (i * col));
    soff ← (if exact then Some (i * aligned_col) else ck (i * aligned_col));
    inr <$> memcpy (bdata out) doff s soff col h.

Definition decode (input output : Bytes) (col unit_ : Z) (h : heap)
    : option (Z * Bytes * heap) :=
  if (col <=? 0) || (unit_ <=? 0) then Some (-1, output, h)
  else
    groups ← cdiv col unit_;
    aligned_col ← ck (groups * unit_);
    if aligned_col =? 0 then Some (-1, output, h)
    else if bdata input =? 0 then Some (-1, output, h)
    else if bsize input =? 0 then Some (0, mkBytes 0 (bdata output), h)
    else if negb (bsize input mod aligned_col =? 0) then Some (-1, output, h)
    else
      let row := i32 (bsize input / aligned_col) in
      let expected_size := u32 (u32 row * u32 col) in
      if bdata output =? 0 then Some (-1, output, h)
      else if bsize output <? expected_size then Some (-1, output, h)
      else
        let out := mkBytes expected_size (bdata output) in
        finish out
          (if bdata input =? bdata out then
             if col =? aligned_col then Some (inr h)
             else
               temp_buffer ← read (bdata input) (bsize input) h;
               for_each (upto row) (decode_row input out (Vec temp_buffer) false col aligned_col) h
           else
             for_each (upto row)
               (decode_row input out (Ptr (bdata input)) true col aligned_col) h).

(** [deepx_rmapinfo::DataType] *)
Inductive DataType :=
| DATA_TYPE_NONE | INT8 | UINT8 | INT16 | UINT16 | INT32 | UINT32 | INT64 | UINT64 | FLOAT32
| DATA_TYPE_OTHER.
#[export] Instance DataType_eq_dec : EqDecision DataType.
Proof. solve_decision. Defined.

Definition decode_aligned (input output : Bytes) (channel : Z) (dtype : DataType)
    (align_unit : Z) (h : heap) : option (Z * Bytes * heap) :=
  if decide (dtype = FLOAT32) then
    unit_ ← ck (align_unit * 4);
    col ← ck (channel * 4);
    decode input output col unit_ h
  else decode input output channel align_unit h.

(** ** Transposition *)

(** The index pairs of the two nested loops, [i] outer. *)
Definition pairs (row col : Z) : list (Z * Z) := i ← upto row; pair i <$> upto col.

Definition ret_unit (h0 : heap) (r : option (Z * heap + heap)) : option heap :=
  match r with
  | Some (inr h) => Some h
  | Some (inl (_, h)) => Some h
  | None => None
  end.

(** The swap loop on a square matrix. *)
Definition swap_square (src n element_size : Z) (h : heap) : option (Z * heap + heap) :=
  for_each (upto n)
    (fun i h =>
       for_each (seqZ (i + 1) (n - (i + 1)))
         (fun j h =>
            let offset1 := (i * n + j) * element_size in
            let offset2 := (j * n + i) * element_size in
            b ← h !! src;
            temp ← copy_bytes 0 b offset1 element_size (replicate (Z.to_nat element_size) 0);
            h1 ← memcpy src offset1 (Ptr src) offset2 element_size h;
            h2 ← memcpy src offset2 (Vec temp) 0 element_size h1;
            mret (inr h2)) h) h.

(** The transposing copy into the temporary buffer; [inl] is the return of the
    internal bounds checks. *)
Definition transpose_temp (from : list Z) (row col element_size total : Z)
    : option (Z * list Z + list Z) :=
  for_each (upto row)
    (fun i t =>
       for_each (upto col)
         (fun j t =>
            let src_offset := (i * col + j) * element_size in
            let temp_dst_offset := (j * row + i) * element_size in
            if (total <? src_offset + element_size) || (total <? temp_dst_offset + element_size)
            then Some (inl (0, t))
            else inr <$> copy_bytes temp_dst_offset from src_offset element_size t) t)
    (replicate (Z.to_nat total) 0).

Definition bidirectional_transpose_inplace (src row col element_size : Z) (h : heap)
    : option heap :=
  if src =? 0 then Some h
  else if (row <=? 0) || (col <=? 0) || (element_size =? 0) then Some h
  else
    let total_elements := u64 (row * col) in
    let total_size_bytes := u64 (total_elements * element_size) in
    if (0 <? element_size) && (0 <? total_elements)
       && negb (total_size_bytes / element_size =? total_elements) then Some h
    else if total_size_bytes =? 0 then Some h
    else if row =? col then ret_unit h (swap_square src row element_size h)
    else
      from ← h !! src;
      match transpose_temp from row col element_size total_size_bytes with
      | Some (inr temp_buffer) => memcpy src 0 (Vec temp_buffer) 0 total_size_bytes h
      | Some (inl _) => Some h
      | None => None
      end.

Definition bidirectional_transpose (src dst row col element_size : Z) (h : heap)
    : option heap :=
  if (src =? 0) || (dst =? 0) then Some h
  else if (row <=? 0) || (col <=? 0) || (element_size =? 0) then Some h
  else if src =? dst then bidirectional_transpose_inplace src row col element_size h
  else
    ret_unit h
      (for_each (upto row)
         (fun i h =>
            for_each (upto col)
              (fun j h =>
                 let src_offset := (i * col + j) * element_size in
                 let dst_offset := (j * row + i) * element_size in
                 inr <$> memcpy dst dst_offset (Ptr src) src_offset element_size h) h) h).

End FormatHandler.
