(* ===== verification/FormatCopy.v ===== *)
(** * NPU tensor formats: copying loops

    Every conversion is a loop of [memcpy] calls from a source that the loop does
    not write.  Such a loop is determined byte by byte: a byte of the destination
    comes from the chunk that covers it, or keeps its value. *)

From Stdlib Require Import ZArith Lia.
From S2P Require Import Prelude FormatHandler.
Import FormatHandler.

(** ** Bytes of a block *)

Definition byte (l : list Z) (j : Z) : option Z := l !! Z.to_nat j.

Lemma in_block_true off n l : in_block off n l = true <-> 0 <= off /\ 0 <= n /\ off + n <= len l.
Proof. unfold in_block. rewrite !andb_true_iff, !Z.leb_le. tauto. Qed.

Lemma length_slice off n l : 0 <= off -> 0 <= n -> off + n <= len l -> len (slice off n l) = n.
Proof.
  intros H1 H2 H3. unfold len, slice in *. rewrite length_take, length_drop. lia.
Qed.

Lemma byte_slice off n l j :
  0 <= off -> 0 <= j < n -> byte (slice off n l) j = byte l (off + j).
Proof.
  intros H1 H2. unfold byte, slice. rewrite lookup_take_lt by lia. rewrite lookup_drop. f_equal. lia.
Qed.

(** A chunk: [n] bytes from offset [s] to offset [d]. *)
Record chunk := mkChunk { c_dst : Z; c_src : Z; c_len : Z }.

Definition covers (c : chunk) (j : Z) : Prop := c_dst c <= j < c_dst c + c_len c.
Definition fits (from to : Z) (c : chunk) : Prop :=
  0 <= c_len c /\ 0 <= c_dst c /\ c_dst c + c_len c <= to /\ 0 <= c_src c /\ c_src c + c_len c <= from.
#[export] Instance covers_dec c j : Decision (covers c j).
Proof. unfold covers. apply _. Defined.

Definition put (from : list Z) (to : list Z) (c : chunk) : list Z :=
  list_inserts (Z.to_nat (c_dst c)) (slice (c_src c) (c_len c) from) to.

Definition puts (from : list Z) (cs : list chunk) (to : list Z) : list Z := foldl (put from) to cs.

Lemma len_put from to c : len (put from to c) = len to.
Proof. unfold len, put. by rewrite length_inserts. Qed.

Lemma len_puts from cs to : len (puts from cs to) = len to.
Proof.
  unfold puts. revert to. induction cs as [|c cs IH]; intros to; simpl; [done|].
  by rewrite IH, len_put.
Qed.

Lemma copy_bytes_put from to c :
  fits (len from) (len to) c ->
  copy_bytes (c_dst c) from (c_src c) (c_len c) to = Some (put from to c).
Proof.
  intros (H1 & H2 & H3 & H4 & H5). unfold copy_bytes.
  rewrite (proj2 (in_block_true (c_dst c) _ _)) by done.
  by rewrite (proj2 (in_block_true (c_src c) _ _)).
Qed.

Lemma byte_put from to c j :
  fits (len from) (len to) c -> 0 <= j ->
  byte (put from to c) j =
  if decide (covers c j) then byte from (c_src c + (j - c_dst c)) else byte to j.
Proof.
  intros (H1 & H2 & H3 & H4 & H5) Hj. unfold byte at 1, put.
  pose proof (length_slice (c_src c) (c_len c) from H4 H1 H5) as HL. unfold len in *.
  destruct (decide (covers c j)) as [[C1 C2]|NC].
  - rewrite list_lookup_inserts by lia.
    rewrite <- (byte_slice (c_src c) (c_len c)) by lia. unfold byte. f_equal. lia.
  - unfold covers in NC. destruct (decide (j < c_dst c)).
    + rewrite list_lookup_inserts_lt by lia. done.
    + rewrite list_lookup_inserts_ge by lia. done.
Qed.

(** The bytes after a sequence of chunks that agree where they meet. *)
Lemma byte_puts_out from cs to j :
  Forall (fits (len from) (len to)) cs -> 0 <= j -> (forall c, c ∈ cs -> ~ covers c j) ->
  byte (puts from cs to) j = byte to j.
Proof.
  intros F Hj. revert to F. induction cs as [|c cs IH]; intros to F Hn; [done|].
  apply Forall_cons in F as [Fc F]. simpl. rewrite IH.
  - rewrite byte_put by done. rewrite decide_False; [done|]. apply Hn. by left.
  - by rewrite len_put.
  - intros c' Hc'. apply Hn. by right.
Qed.

Lemma byte_puts_in from cs to j c :
  Forall (fits (len from) (len to)) cs -> 0 <= j -> c ∈ cs -> covers c j ->
  (forall c', c' ∈ cs -> covers c' j -> c_src c' - c_dst c' = c_src c - c_dst c) ->
  byte (puts from cs to) j = byte from (c_src c + (j - c_dst c)).
Proof.
  intros F Hj. revert c to F. induction cs as [|c0 cs IH]; intros c to F Hin Hc Heq.
  { by apply elem_of_nil in Hin. }
  apply Forall_cons in F as [F0 F]. simpl.
  destruct (decide (Exists (fun c' => covers c' j) cs)) as [He|Hne].
  - apply Exists_exists in He as (c1 & Hin1 & Hc1).
    assert (c_src c1 - c_dst c1 = c_src c - c_dst c) as E1 by (apply Heq; [by right|done]).
    transitivity (byte from (c_src c1 + (j - c_dst c1))); [|f_equal; lia].
    apply IH; [by rewrite len_put|done|done|]. intros c' Hc' Hcv. rewrite E1.
    apply Heq; [by right|done].
  - assert (forall c', c' ∈ cs -> ~ covers c' j) as Hno.
    { intros c' Hc' Hcv. apply Hne, Exists_exists. eauto. }
    assert (c = c0) as -> by (apply elem_of_cons in Hin as [?|Hin]; [done|by destruct (Hno c)]).
    change (foldl (put from) (put from to c0) cs) with (puts from cs (put from to c0)).
    rewrite byte_puts_out by (done || by rewrite len_put).
    rewrite byte_put by done. by rewrite decide_True.
Qed.

(** ** Loops *)

(** Two nested loops are one loop over the pairs. *)
Lemma for_each_app {A S} (l1 l2 : list A) (body : A -> S -> option (Z * S + S)) s :
  for_each (l1 ++ l2) body s =
  match for_each l1 body s with Some (inr s') => for_each l2 body s' | r => r end.
Proof.
  revert s. induction l1 as [|x l1 IH]; intros s; simpl; [done|].
  destruct (body x s) as [[|s']|]; [done|apply IH|done].
Qed.

Lemma for_each_fmap {A B S} (f : A -> B) l (body : B -> S -> option (Z * S + S)) s :
  for_each (f <$> l) body s = for_each l (fun x => body (f x)) s.
Proof.
  revert s. induction l as [|x l IH]; intros s; [done|]. simpl.
  destruct (body (f x) s) as [[|s']|]; [done|apply IH|done].
Qed.

Lemma for_each_nested {A B S} (l : list A) (g : A -> list B)
    (body : A -> B -> S -> option (Z * S + S)) s :
  for_each l (fun i s => for_each (g i) (body i) s) s =
  for_each (i ← l; pair i <$> g i) (fun ij => body ij.1 ij.2) s.
Proof.
  revert s. induction l as [|x l IH]; intros s; [done|]. cbn. rewrite for_each_app.
  rewrite (for_each_fmap (pair x) (g x) (fun ij => body ij.1 ij.2)). cbn.
  destruct (for_each (g x) (body x) s) as [[|s']|]; [done|apply IH|done].
Qed.

Lemma elem_of_upto n i : i ∈ upto n <-> 0 <= i < n.
Proof. rewrite elem_of_seqZ. lia. Qed.

Lemma elem_of_pairs row col i j : (i, j) ∈ pairs row col <-> 0 <= i < row /\ 0 <= j < col.
Proof.
  unfold pairs. rewrite list_elem_of_bind. split.
  - intros (i' & Hin & Hi%elem_of_upto). apply list_elem_of_fmap in Hin as (j' & E & Hj%elem_of_upto).
    by injection E as -> ->.
  - intros [Hi Hj]. exists i. rewrite elem_of_upto. split; [|done].
    apply list_elem_of_fmap. exists j. by rewrite elem_of_upto.
Qed.

(** A source the writes to [dst] do not change. *)
Definition stable (h : heap) (dst : Z) (s : source) (from : list Z) : Prop :=
  match s with Ptr p => p <> dst /\ h !! p = Some from | Vec v => v = from end.

Lemma stable_overlap h dst s from doff soff n :
  stable h dst s from -> overlap dst doff s soff n = false.
Proof.
  destruct s as [p|v]; simpl; [|done]. intros [Hne _]. by rewrite (proj2 (Z.eqb_neq p dst)).
Qed.

Lemma stable_insert h dst s from b : stable h dst s from -> stable (<[dst := b]> h) dst s from.
Proof. destruct s as [p|v]; simpl; [|done]. intros [Hne E]. by rewrite lookup_insert_ne. Qed.

Lemma memcpy_put h dst s from to c :
  h !! dst = Some to -> stable h dst s from -> fits (len from) (len to) c ->
  memcpy dst (c_dst c) s (c_src c) (c_len c) h = Some (<[dst := put from to c]> h).
Proof.
  intros Hd Hs F. unfold memcpy. rewrite (stable_overlap h dst s from) by done.
  assert (load h s = Some from) as -> by (destruct s; simpl in *; [tauto|by subst]).
  simpl. rewrite Hd. simpl. by rewrite copy_bytes_put.
Qed.

(** A loop of [memcpy] calls. *)
Lemma for_each_memcpy {A} (l : list A) (c : A -> chunk) dst s from
    (body : A -> heap -> option (Z * heap + heap)) h to :
  (forall x h', x ∈ l -> body x h' =
     inr <$> memcpy dst (c_dst (c x)) s (c_src (c x)) (c_len (c x)) h') ->
  h !! dst = Some to -> stable h dst s from -> Forall (fits (len from) (len to)) (c <$> l) ->
  for_each l body h = Some (inr (<[dst := puts from (c <$> l) to]> h)).
Proof.
  revert h to. induction l as [|x l IH]; intros h to Hb Hd Hs F; simpl.
  - by rewrite insert_id.
  - apply Forall_cons in F as [Fx F]. rewrite Hb by (by left).
    rewrite (memcpy_put h dst s from to) by done. simpl.
    rewrite (IH _ (put from to (c x))).
    + by rewrite insert_insert_eq.
    + intros y h' Hy. apply Hb. by right.
    + by rewrite lookup_insert_eq.
    + by apply stable_insert.
    + by rewrite len_put.
Qed.

(** The same for a loop that fills a local vector. *)
Lemma for_each_copy {A} (l : list A) (c : A -> chunk) from
    (body : A -> list Z -> option (Z * list Z + list Z)) to :
  (forall x t, x ∈ l -> len t = len to -> body x t =
     inr <$> copy_bytes (c_dst (c x)) from (c_src (c x)) (c_len (c x)) t) ->
  Forall (fits (len from) (len to)) (c <$> l) ->
  for_each l body to = Some (inr (puts from (c <$> l) to)).
Proof.
  revert to. induction l as [|x l IH]; intros to Hb F; simpl; [done|].
  apply Forall_cons in F as [Fx F]. rewrite Hb by (done || by left).
  rewrite copy_bytes_put by done. simpl. rewrite IH; [done| |by rewrite len_put].
  intros y t Hy Ht. apply Hb; [by right|]. by rewrite Ht, len_put.
Qed.

(** ** [memset] and the temporary copy *)

Lemma len_replicate n z : 0 <= n -> len (replicate (Z.to_nat n) z) = n.
Proof. intros Hn. unfold len. rewrite length_replicate. lia. Qed.

Lemma byte_replicate n z j : 0 <= j < n -> byte (replicate (Z.to_nat n) z) j = Some z.
Proof. intros Hj. unfold byte. apply lookup_replicate_2. lia. Qed.

Lemma memset_spec h dst n to :
  h !! dst = Some to -> 0 <= n <= len to ->
  exists to', memset dst n h = Some (<[dst := to']> h) /\ len to' = len to /\
    (forall j, 0 <= j < n -> byte to' j = Some 0) /\ (forall j, n <= j -> byte to' j = byte to j).
Proof.
  intros Hd Hn. unfold memset. rewrite Hd. simpl.
  set (z := replicate (Z.to_nat n) 0). pose proof (len_replicate n 0 ltac:(lia)) as Hz.
  assert (fits (len z) (len to) (mkChunk 0 0 n)) as F by (unfold fits; simpl; unfold z; lia).
  pose proof (copy_bytes_put z to (mkChunk 0 0 n) F) as E. simpl in E. rewrite E. simpl.
  eexists. split; [done|]. split; [apply len_put|]. split; intros j Hj; rewrite byte_put by (done || lia).
  - rewrite decide_True by (unfold covers; simpl; lia). simpl.
    unfold z. rewrite byte_replicate; [done|lia].
  - rewrite decide_False; [done|]. unfold covers. simpl. lia.
Qed.

Lemma read_spec h p n b :
  h !! p = Some b -> 0 <= n <= len b ->
  exists t, read p n h = Some t /\ len t = n /\ forall j, 0 <= j < n -> byte t j = byte b j.
Proof.
  intros Hp Hn. unfold read. rewrite Hp. simpl. rewrite (proj2 (in_block_true 0 n b)) by lia.
  eexists. split; [done|]. split; [apply length_slice; lia|]. intros j Hj.
  by rewrite byte_slice by lia.
Qed.
