(* ===== verification/FormatSpec.v ===== *)
(** * NPU tensor formats: layouts

    What each conversion leaves in its output buffer, byte by byte, in place and
    out of place. *)

From Stdlib Require Import ZArith Lia.
From S2P Require Import Prelude FormatHandler FormatCopy.
Import FormatHandler.

(** ** Arithmetic *)

(** The width of a row of [col] bytes padded to a multiple of [unit_]. *)
Definition aligned_width (col unit_ : Z) : Z := (col + (unit_ - 1)) / unit_ * unit_.

Lemma aligned_width_bounds col unit_ :
  0 < col -> 0 < unit_ -> col <= aligned_width col unit_ < col + unit_.
Proof.
  intros Hc Hu. unfold aligned_width. pose proof (Z.div_mod (col + (unit_ - 1)) unit_).
  pose proof (Z.mod_pos_bound (col + (unit_ - 1)) unit_). lia.
Qed.

Lemma ck_ok z : - 2 ^ 31 <= z < 2 ^ 31 -> ck z = Some z.
Proof.
  intros Hz. unfold ck, i32_ok, INT32_MIN, INT32_MAX.
  by rewrite (proj2 (Z.leb_le (- 2 ^ 31) z)), (proj2 (Z.leb_le z (2 ^ 31 - 1))) by lia.
Qed.

(** The widths do not overflow an [int]. *)
Definition width_ok (col unit_ : Z) : Prop :=
  0 < col /\ 0 < unit_ /\ col + unit_ <= 2 ^ 31.

Lemma cdiv_aligned col unit_ :
  width_ok col unit_ ->
  exists g, cdiv col unit_ = Some g /\ ck (g * unit_) = Some (aligned_width col unit_) /\
            g = (col + (unit_ - 1)) / unit_ /\ 0 < g.
Proof.
  intros (Hc & Hu & Hw). pose proof (aligned_width_bounds col unit_ Hc Hu).
  exists ((col + (unit_ - 1)) / unit_). unfold cdiv.
  destruct (Z.eqb_spec unit_ 0); [lia|]. rewrite ck_ok by lia. simpl.
  rewrite Z.quot_div_nonneg by lia. split; [done|]. split; [|split; [done|]].
  - apply ck_ok. unfold aligned_width in *. lia.
  - apply Z.div_str_pos. lia.
Qed.

(** Byte [j] of a sequence of rows of width [w]. *)
Lemma row_byte w j : 0 < w -> 0 <= j -> j = j / w * w + j mod w /\ 0 <= j mod w < w.
Proof.
  intros Hw Hj. pose proof (Z.div_mod j w). pose proof (Z.mod_pos_bound j w). lia.
Qed.

Lemma row_range w rows j : 0 < w -> 0 <= j < rows * w -> 0 <= j / w < rows.
Proof.
  intros Hw Hj. split; [apply Z.div_pos; lia|]. apply Z.div_lt_upper_bound; lia.
Qed.

Lemma row_unique w i j : 0 < w -> i * w <= j < i * w + w -> j / w = i /\ j mod w = j - i * w.
Proof.
  intros Hw Hj. assert (j / w = i) as E.
  { symmetry. apply Z.div_unique with (j - i * w); lia. }
  split; [done|]. rewrite Z.mod_eq, E; lia.
Qed.

(** ** The buffers of a conversion *)

(** [rows] rows of [wi] bytes in the input, [wo] bytes in the output. *)
Record conversion (input output : Bytes) (rows wi wo : Z) (h : heap) (src dst : list Z)
    : Prop := {
  cv_rows : 0 < rows < 2 ^ 31;
  cv_wi : 0 < wi < 2 ^ 31;
  cv_wo : 0 < wo < 2 ^ 31;
  cv_size : bsize input = rows * wi;
  cv_out : rows * wo < 2 ^ 32;
  cv_in_ptr : bdata input <> 0;
  cv_out_ptr : bdata output <> 0;
  cv_src : h !! bdata input = Some src;
  cv_dst : h !! bdata output = Some dst;
  cv_src_len : rows * wi <= len src;
  cv_fits : rows * wo <= bsize output;
  cv_dst_len : rows * wo <= len dst
}.

Section Conversion.
Context (input output : Bytes) (rows wi wo : Z) (h : heap) (src dst : list Z).
Context (CV : conversion input output rows wi wo h src dst).

Lemma cv_input_mod : bsize input mod wi = 0.
Proof. rewrite (cv_size _ _ _ _ _ _ _ _ CV). apply Z.mod_mul. pose proof (cv_wi _ _ _ _ _ _ _ _ CV). lia. Qed.

Lemma cv_input_rows : i32 (bsize input / wi) = rows.
Proof.
  pose proof (cv_wi _ _ _ _ _ _ _ _ CV). pose proof (cv_rows _ _ _ _ _ _ _ _ CV).
  rewrite (cv_size _ _ _ _ _ _ _ _ CV), Z.div_mul by lia. apply swrap_small; lia.
Qed.

Lemma cv_expected : u32 (u32 rows * u32 wo) = rows * wo.
Proof.
  pose proof (cv_wo _ _ _ _ _ _ _ _ CV). pose proof (cv_rows _ _ _ _ _ _ _ _ CV).
  pose proof (cv_out _ _ _ _ _ _ _ _ CV).
  rewrite (uwrap_small 32 rows), (uwrap_small 32 wo) by lia. apply uwrap_small. nia.
Qed.

(** Row [i] moves from offset [i * wi] to [i * wo]; [n] bytes of it. *)
Definition row_chunk (n i : Z) : chunk := mkChunk (i * wo) (i * wi) n.

Lemma rows_fit n from :
  0 <= n <= wi -> n <= wo -> len from >= rows * wi -> forall to, len to >= rows * wo ->
  Forall (fits (len from) (len to)) (row_chunk n <$> upto rows).
Proof.
  intros H1 H2 Hf to Ht. apply Forall_fmap, Forall_forall. intros i Hi%elem_of_upto.
  unfold fits. simpl. nia.
Qed.

(** The bytes after the rows have moved. *)
Lemma rows_bytes n from to j :
  0 < n <= wi -> n <= wo -> len from >= rows * wi -> len to >= rows * wo ->
  0 <= j < rows * wo ->
  byte (puts from (row_chunk n <$> upto rows) to) j =
  if j mod wo <? n then byte from (j / wo * wi + j mod wo) else byte to j.
Proof.
  intros H1 H2 Hf Ht Hj. pose proof (rows_fit n from ltac:(lia) H2 Hf to Ht) as F.
  destruct (row_byte wo j) as [Ej Hm]; [apply CV|lia|].
  pose proof (row_range wo rows j ltac:(lia) Hj) as Hr.
  destruct (Z.ltb_spec (j mod wo) n) as [Hlt|Hge].
  - rewrite (byte_puts_in from _ to j (row_chunk n (j / wo))); simpl; try done; try lia.
    + f_equal. lia.
    + apply list_elem_of_fmap_2. by apply elem_of_upto.
    + unfold covers. simpl. lia.
    + intros c' (i & -> & Hi%elem_of_upto)%list_elem_of_fmap [C1 C2]. simpl in *.
      destruct (row_unique wo i j) as [-> _]; [lia|lia|done].
  - apply byte_puts_out; [done|lia|].
    intros c' (i & -> & Hi%elem_of_upto)%list_elem_of_fmap [C1 C2]. simpl in *.
    destruct (row_unique wo i j) as [_ Em]; [lia|lia|]. lia.
Qed.

Lemma rows_bytes_rest n from to j :
  0 <= n <= wi -> n <= wo -> len from >= rows * wi -> len to >= rows * wo -> rows * wo <= j ->
  byte (puts from (row_chunk n <$> upto rows) to) j = byte to j.
Proof.
  intros H1 H2 Hf Ht Hj. pose proof (cv_rows _ _ _ _ _ _ _ _ CV). pose proof (cv_wo _ _ _ _ _ _ _ _ CV).
  apply byte_puts_out; [by apply rows_fit|nia|].
  intros c' (i & -> & Hi%elem_of_upto)%list_elem_of_fmap [C1 C2]. simpl in *. nia.
Qed.
End Conversion.

(** What a conversion leaves: its output block, the byte at each position of the
    converted area, and the bytes behind it. *)
Definition converted (output : Bytes) (total : Z) (h : heap) (dst : list Z)
    (at_ : Z -> option Z) (r : option (Z * Bytes * heap)) : Prop :=
  exists dst', r = Some (0, mkBytes total (bdata output), <[bdata output := dst']> h) /\
    len dst' = len dst /\ (forall j, 0 <= j < total -> byte dst' j = at_ j) /\
    (forall j, total <= j -> byte dst' j = byte dst j).

(** ** [encode] *)

(** Byte [j] of the rows of [col] bytes padded to [w] bytes with zeros. *)
Definition padded (src : list Z) (col w j : Z) : option Z :=
  if j mod w <? col then byte src (j / w * col + j mod w) else Some 0.

(** The row loop of [encode] on a cleared buffer. *)
Lemma encode_rows_spec input output rows col w h src dst s from :
  conversion input output rows col w h src dst -> col <= w ->
  stable h (bdata output) s from -> len from >= rows * col ->
  exists dst',
    (h1 ← memset (bdata output) (rows * w) h; encode_rows (bdata output) s rows col w h1) =
      Some (inr (<[bdata output := dst']> h)) /\
    len dst' = len dst /\ (forall j, 0 <= j < rows * w -> byte dst' j = padded from col w j) /\
    (forall j, rows * w <= j -> byte dst' j = byte dst j).
Proof.
  intros CV Hw Hs Hf. pose proof (cv_rows _ _ _ _ _ _ _ _ CV). pose proof (cv_wo _ _ _ _ _ _ _ _ CV).
  pose proof (cv_wi _ _ _ _ _ _ _ _ CV). pose proof (cv_dst_len _ _ _ _ _ _ _ _ CV).
  destruct (memset_spec h (bdata output) (rows * w) dst (cv_dst _ _ _ _ _ _ _ _ CV))
    as (z & E & Lz & Bz & Rz); [nia|]. rewrite E. simpl.
  exists (puts from (row_chunk col w col <$> upto rows) z).
  assert (len z >= rows * w) as Hz by lia. split_and!.
  - unfold encode_rows. rewrite (for_each_memcpy (upto rows) (row_chunk col w col) (bdata output) s from _ _ z).
    + by rewrite insert_insert_eq.
    + done.
    + by rewrite lookup_insert_eq.
    + by apply stable_insert.
    + apply (rows_fit rows col w); lia.
  - by rewrite len_puts.
  - intros j Hj. rewrite (rows_bytes _ _ _ _ _ _ _ _ CV) by lia. unfold padded.
    destruct (_ <? _); [done|]. by apply Bz.
  - intros j Hj. rewrite (rows_bytes_rest _ _ _ _ _ _ _ _ CV) by lia. by apply Rz.
Qed.

(** Rows that need no padding are left as they are. *)
Lemma padded_same src col j : 0 < col -> 0 <= j -> padded src col col j = byte src j.
Proof.
  intros Hc Hj. unfold padded. destruct (row_byte col j Hc Hj) as [E Hm].
  rewrite (proj2 (Z.ltb_lt _ _)) by lia. f_equal. lia.
Qed.

Lemma padded_ext s1 s2 rows col w j :
  0 < col -> 0 < w -> 0 <= j < rows * w -> col <= w ->
  (forall k, 0 <= k < rows * col -> byte s1 k = byte s2 k) -> padded s1 col w j = padded s2 col w j.
Proof.
  intros Hc Hw Hj Hcw Hs. unfold padded. destruct (row_byte w j) as [E Hm]; [done|lia|].
  pose proof (row_range w rows j Hw Hj). destruct (Z.ltb_spec (j mod w) col); [|done].
  apply Hs. nia.
Qed.

Lemma encode_spec input output rows col unit_ h src dst :
  width_ok col unit_ ->
  conversion input output rows col (aligned_width col unit_) h src dst ->
  converted output (rows * aligned_width col unit_) h dst
    (padded src col (aligned_width col unit_)) (encode input output col unit_ h).
Proof.
  intros W CV. pose proof W as (Hc & Hu & _).
  destruct (cdiv_aligned col unit_ W) as (g & Eg & Ea & _).
  pose proof (aligned_width_bounds col unit_ Hc Hu) as HA. set (w := aligned_width col unit_) in *.
  pose proof CV as [Hr Hwi Hwo Hsz Hout Hip Hop Hsrc Hdst Hsl Hfit Hdl].
  unfold encode. rewrite (proj2 (Z.leb_gt col 0)), (proj2 (Z.leb_gt unit_ 0)) by lia. simpl.
  rewrite (cv_input_mod _ _ _ _ _ _ _ _ CV). simpl.
  rewrite (proj2 (Z.eqb_neq _ _)) by done.
  rewrite (cv_input_rows _ _ _ _ _ _ _ _ CV), Eg. simpl. rewrite Ea. simpl.
  rewrite (cv_expected _ _ _ _ _ _ _ _ CV), (proj2 (Z.eqb_neq (bdata output) 0)) by done.
  rewrite (proj2 (Z.ltb_ge _ _)) by done.
  destruct (Z.eqb_spec (bdata input) (bdata output)) as [Ep|Np].
  - rewrite Ep, Hdst in Hsrc. injection Hsrc as ->.
    destruct (Z.eqb_spec col w) as [Ew|Nw].
    + exists src. split; [by rewrite insert_id|]. split; [done|]. split; [|done].
      intros j Hj. rewrite <- Ew. symmetry. apply padded_same; lia.
    + rewrite Ep. destruct (read_spec h (bdata output) (bsize input) src Hdst) as (t & -> & Lt & Bt);
        [nia|]. cbn [mbind option_bind].
      destruct (encode_rows_spec input output rows col w h src src (Vec t) t CV) as (d & E & L & B & R);
        [lia|done|lia|]. rewrite E. exists d. split; [done|]. split; [done|]. split; [|done].
      intros j Hj. rewrite B by done. apply (padded_ext t src rows); [lia|lia|done|lia|].
      intros k Hk. apply Bt. lia.
  - destruct (encode_rows_spec input output rows col w h src dst (Ptr (bdata input)) src CV)
      as (d & E & L & B & R); [lia|done|lia|]. rewrite E. by exists d.
Qed.

(** ** [decode] *)

(** Byte [j] of the rows without their padding. *)
Definition unpadded (src : list Z) (col w j : Z) : option Z := byte src (j / col * w + j mod col).

Lemma decode_rows_spec input output rows col w h src dst s from ex :
  conversion input output rows w col h src dst -> col <= w ->
  (ex = false -> rows * w < 2 ^ 31) ->
  stable h (bdata output) s from -> len from >= rows * w ->
  exists dst',
    for_each (upto rows) (decode_row input (mkBytes (rows * col) (bdata output)) s ex col w) h =
      Some (inr (<[bdata output := dst']> h)) /\
    len dst' = len dst /\ (forall j, 0 <= j < rows * col -> byte dst' j = unpadded from col w j) /\
    (forall j, rows * col <= j -> byte dst' j = byte dst j).
Proof.
  intros CV Hw Hex Hs Hf. pose proof CV as [Hr Hwi Hwo Hsz Hout Hip Hop Hsrc Hdst Hsl Hfit Hdl].
  exists (puts from (row_chunk w col col <$> upto rows) dst). split_and!.
  - apply (for_each_memcpy (upto rows) (row_chunk w col col) _ s from); [|done|done|].
    + intros i h' Hi%elem_of_upto. unfold decode_row. simpl.
      rewrite Hsz, (proj2 (Z.ltb_ge _ _)), (proj2 (Z.ltb_ge _ _)) by nia. simpl.
      destruct ex; simpl; [done|]. specialize (Hex eq_refl).
      rewrite !ck_ok by nia. done.
    + apply (rows_fit rows w col); lia.
  - by rewrite len_puts.
  - intros j Hj. rewrite (rows_bytes _ _ _ _ _ _ _ _ CV) by lia. unfold unpadded.
    destruct (row_byte col j) as [_ Hm]; [lia|lia|]. by rewrite (proj2 (Z.ltb_lt _ _)) by lia.
  - intros j Hj. by rewrite (rows_bytes_rest _ _ _ _ _ _ _ _ CV) by lia.
Qed.

Lemma decode_spec input output rows col unit_ h src dst :
  width_ok col unit_ ->
  conversion input output rows (aligned_width col unit_) col h src dst ->
  (bdata input = bdata output -> rows * aligned_width col unit_ < 2 ^ 31) ->
  converted output (rows * col) h dst
    (unpadded src col (aligned_width col unit_)) (decode input output col unit_ h).
Proof.
  intros W CV Hin. pose proof W as (Hc & Hu & _).
  destruct (cdiv_aligned col unit_ W) as (g & Eg & Ea & _).
  pose proof (aligned_width_bounds col unit_ Hc Hu) as HA. set (w := aligned_width col unit_) in *.
  pose proof CV as [Hr Hwi Hwo Hsz Hout Hip Hop Hsrc Hdst Hsl Hfit Hdl].
  unfold decode. rewrite (proj2 (Z.leb_gt col 0)), (proj2 (Z.leb_gt unit_ 0)) by lia. simpl.
  rewrite Eg. simpl. rewrite Ea. simpl.
  rewrite (proj2 (Z.eqb_neq w 0)), (proj2 (Z.eqb_neq (bdata input) 0)) by lia.
  rewrite (proj2 (Z.eqb_neq (bsize input) 0)) by nia.
  rewrite (cv_input_mod _ _ _ _ _ _ _ _ CV). simpl.
  rewrite (cv_input_rows _ _ _ _ _ _ _ _ CV), (cv_expected _ _ _ _ _ _ _ _ CV).
  rewrite (proj2 (Z.eqb_neq (bdata output) 0)) by done.
  rewrite (proj2 (Z.ltb_ge _ _)) by done.
  destruct (Z.eqb_spec (bdata input) (bdata output)) as [Ep|Np].
  - rewrite Ep, Hdst in Hsrc. injection Hsrc as ->.
    destruct (Z.eqb_spec col w) as [Ew|Nw].
    + exists src. split; [by rewrite insert_id|]. split; [done|]. split; [|done].
      intros j Hj. unfold unpadded. rewrite <- Ew. f_equal. apply row_byte; lia.
    + rewrite Ep. destruct (read_spec h (bdata output) (bsize input) src Hdst) as (t & -> & Lt & Bt);
        [nia|]. cbn [mbind option_bind].
      destruct (decode_rows_spec input output rows col w h src src (Vec t) t false CV)
        as (d & E & L & B & R); [lia|by auto|done|lia|].
      rewrite E. exists d. split; [done|]. split; [done|]. split; [|done].
      intros j Hj. rewrite B by done. unfold unpadded. apply Bt.
      destruct (row_byte col j) as [_ Hm]; [lia|lia|]. pose proof (row_range col rows j). nia.
  - destruct (decode_rows_spec input output rows col w h src dst (Ptr (bdata input)) src true CV)
      as (d & E & L & B & R); [lia|done|done|lia|]. rewrite E. by exists d.
Qed.
