(* ===== verification/FormatGroups.v ===== *)
(** * NPU tensor formats: the grouped layout and transposition

    [encode_formatted] stores the channels of all rows group by group;
    [bidirectional_transpose] exchanges rows and columns. *)

From Stdlib Require Import ZArith Lia.
From S2P Require Import Prelude FormatHandler FormatCopy FormatSpec.
Import FormatHandler.

(** ** [encode_formatted] *)

(** Byte [j] of the grouped layout: group, row of the group, byte of the row. *)
Definition grouped (src : list Z) (rows col unit_ j : Z) : option Z :=
  let g := j / (rows * unit_) in
  let i := j mod (rows * unit_) / unit_ in
  let b := j mod unit_ in
  if g * unit_ + b <? col then byte src (i * col + g * unit_ + b) else Some 0.

(** The chunk of group [g] of row [i]. *)
Definition group_chunk (rows col unit_ : Z) (gi : Z * Z) : chunk :=
  mkChunk (gi.1 * rows * unit_ + gi.2 * unit_) (gi.2 * col + gi.1 * unit_)
    (Z.min (col - gi.1 * unit_) unit_).

Section Groups.
Context (rows col unit_ g_count : Z).
Context (Hrows : 0 < rows) (Hcol : 0 < col) (Hunit : 0 < unit_).
Context (Hcount : g_count = (col + (unit_ - 1)) / unit_).

(** Every group but the last is full, and the last is not empty. *)
Lemma group_bounds g : 0 <= g < g_count -> 0 < col - g * unit_.
Proof.
  intros Hg. pose proof (Z.div_mod (col + (unit_ - 1)) unit_).
  pose proof (Z.mod_pos_bound (col + (unit_ - 1)) unit_). nia.
Qed.

Lemma group_end g i :
  0 <= g < g_count -> 0 <= i < rows ->
  0 <= g * rows * unit_ + i * unit_ /\
  g * rows * unit_ + i * unit_ + unit_ <= rows * (g_count * unit_) /\
  0 <= i * col + g * unit_ /\ i * col + col <= rows * col.
Proof.
  intros Hg Hi. assert ((i + 1) * unit_ <= rows * unit_) by nia.
  assert ((g + 1) * (rows * unit_) <= g_count * (rows * unit_)) by nia.
  assert ((i + 1) * col <= rows * col) by nia.
  assert (0 <= g * (rows * unit_) /\ 0 <= i * unit_ /\ 0 <= i * col /\ 0 <= g * unit_) by nia.
  lia.
Qed.

Lemma group_fits gi from to :
  gi ∈ pairs g_count rows -> len from >= rows * col -> len to >= rows * (g_count * unit_) ->
  fits (len from) (len to) (group_chunk rows col unit_ gi).
Proof.
  destruct gi as [g i]. intros [Hg Hi]%elem_of_pairs Hf Ht. pose proof (group_bounds g Hg). pose proof (group_end g i Hg Hi).
  unfold fits. simpl. lia.
Qed.

(** The place of a byte in the grouped layout. *)
Lemma group_place g i b :
  0 <= i < rows -> 0 <= b < unit_ ->
  let j := g * rows * unit_ + i * unit_ + b in
  j / (rows * unit_) = g /\ j mod (rows * unit_) / unit_ = i /\ j mod unit_ = b.
Proof.
  intros Hi Hb j. assert (0 <= i * unit_ + b < rows * unit_) as Hr by nia.
  assert (j = rows * unit_ * g + (i * unit_ + b)) as Ej by (unfold j; ring).
  assert (j / (rows * unit_) = g) as E1 by (symmetry; apply Z.div_unique with (i * unit_ + b); lia).
  assert (j mod (rows * unit_) = i * unit_ + b) as E2 by (rewrite Z.mod_eq, E1; lia).
  split; [done|]. split.
  - rewrite E2. symmetry. apply Z.div_unique with b; lia.
  - symmetry. apply Z.mod_unique with (g * rows + i); [lia|unfold j; ring].
Qed.

(** Every byte of the output has such a place. *)
Lemma group_split j :
  0 <= j < rows * (g_count * unit_) ->
  exists g i b, 0 <= g < g_count /\ 0 <= i < rows /\ 0 <= b < unit_ /\
    j = g * rows * unit_ + i * unit_ + b.
Proof.
  intros Hj. assert (0 < rows * unit_) as Hp by nia.
  destruct (row_byte (rows * unit_) j Hp) as [E1 B1]; [lia|].
  destruct (row_byte unit_ (j mod (rows * unit_)) Hunit) as [E2 B2]; [lia|].
  exists (j / (rows * unit_)), (j mod (rows * unit_) / unit_), (j mod (rows * unit_) mod unit_).
  split_and!; try lia;
    first [apply Z.div_pos; lia|apply Z.div_lt_upper_bound; lia|apply Z.div_lt_upper_bound; nia|nia].
Qed.

Lemma group_bytes from to j :
  len from >= rows * col -> len to >= rows * (g_count * unit_) ->
  0 <= j < rows * (g_count * unit_) -> byte to j = Some 0 ->
  byte (puts from (group_chunk rows col unit_ <$> pairs g_count rows) to) j =
  grouped from rows col unit_ j.
Proof.
  intros Hf Ht Hj H0. destruct (group_split j Hj) as (g & i & b & Hg & Hi & Hb & Ej).
  destruct (group_place g i b Hi Hb) as (E1 & E2 & E3). rewrite <- Ej in E1, E2, E3.
  unfold grouped. rewrite E1, E2, E3.
  assert (Forall (fits (len from) (len to)) (group_chunk rows col unit_ <$> pairs g_count rows)) as F.
  { apply Forall_fmap, Forall_forall. intros gi Hgi. by apply group_fits. }
  assert (forall c', c' ∈ group_chunk rows col unit_ <$> pairs g_count rows -> covers c' j ->
    c' = group_chunk rows col unit_ (g, i) /\ b < Z.min (col - g * unit_) unit_) as HU.
  { intros c' ([g' i'] & -> & [Hg' Hi']%elem_of_pairs)%list_elem_of_fmap [C1 C2]. simpl in *.
    destruct (group_place g' i' (j - (g' * rows * unit_ + i' * unit_)) Hi' ltac:(lia)) as (F1 & F2 & _).
    rewrite Zplus_minus, E1 in F1. rewrite Zplus_minus, E2 in F2. subst g' i'.
    split; [done|]. lia. }
  destruct (Z.ltb_spec (g * unit_ + b) col) as [Hlt|Hge].
  - rewrite (byte_puts_in from _ to j (group_chunk rows col unit_ (g, i))); simpl; try done; try lia.
    + f_equal. lia.
    + apply list_elem_of_fmap_2. by apply elem_of_pairs.
    + unfold covers. simpl. lia.
    + intros c' Hc' Hcv. by destruct (HU c' Hc' Hcv) as [-> _].
  - rewrite byte_puts_out; [done|done|lia|]. intros c' Hc' Hcv.
    destruct (HU c' Hc' Hcv) as [_ Hlt]. lia.
Qed.

Lemma group_bytes_rest from to j :
  len from >= rows * col -> len to >= rows * (g_count * unit_) -> rows * (g_count * unit_) <= j ->
  byte (puts from (group_chunk rows col unit_ <$> pairs g_count rows) to) j = byte to j.
Proof.
  intros Hf Ht Hj. assert (0 <= g_count) by (subst g_count; apply Z.div_pos; lia).
  apply byte_puts_out; [|nia|].
  - apply Forall_fmap, Forall_forall. intros gi Hgi. by apply group_fits.
  - intros c' ([g i] & -> & [Hg Hi]%elem_of_pairs)%list_elem_of_fmap [C1 C2]. simpl in *.
    pose proof (group_end g i Hg Hi). lia.
Qed.

(** The two loops of [encode_formatted]. *)
Lemma formatted_loops_spec input out s h from z :
  bsize input = rows * col -> bsize out = rows * (g_count * unit_) ->
  h !! bdata out = Some z -> stable h (bdata out) s from -> len from >= rows * col ->
  len z >= rows * (g_count * unit_) ->
  formatted_loops input out s g_count rows col unit_ h =
  Some (inr (<[bdata out := puts from (group_chunk rows col unit_ <$> pairs g_count rows) z]> h)).
Proof.
  intros Hi Ho Hz Hs Hf Hl. unfold formatted_loops. rewrite for_each_nested.
  apply (for_each_memcpy (pairs g_count rows) (group_chunk rows col unit_) _ s from); [|done|done|].
  - intros [g i] h' [Hg Hr]%elem_of_pairs. pose proof (group_bounds g Hg) as HB.
    unfold formatted_chunk. simpl. rewrite Hi, Ho.
    assert ((if col - g * unit_ <? unit_ then col - g * unit_ else unit_)
            = Z.min (col - g * unit_) unit_) as ->
      by (destruct (Z.ltb_spec (col - g * unit_) unit_); lia).
    rewrite (proj2 (Z.ltb_lt 0 _)) by lia.
    pose proof (group_end g i Hg Hr).
    rewrite (proj2 (Z.ltb_ge _ _)), (proj2 (Z.ltb_ge _ _)) by lia. done.
  - apply Forall_fmap, Forall_forall. intros gi Hgi. by apply group_fits.
Qed.
End Groups.

(** [encode_formatted] does not compare [output.size] with what it writes: the
    size given by the caller is not in the statement. *)
Lemma encode_formatted_spec input output rows col unit_ h src dst :
  width_ok col unit_ ->
  conversion input output rows col (aligned_width col unit_) h src dst ->
  converted output (rows * aligned_width col unit_) h dst
    (if bdata input =? bdata output then fun _ => Some 0 else grouped src rows col unit_)
    (encode_formatted input output col unit_ h).
Proof.
  intros W CV. pose proof W as (Hc & Hu & _).
  destruct (cdiv_aligned col unit_ W) as (g & Eg & Ea & Hg & Hg0).
  pose proof (aligned_width_bounds col unit_ Hc Hu) as HA.
  assert (aligned_width col unit_ = g * unit_) as Ew by (unfold aligned_width; by rewrite Hg).
  rewrite Ew in *. pose proof CV as [Hr Hwi Hwo Hsz Hout Hip Hop Hsrc Hdst Hsl Hfit Hdl].
  unfold encode_formatted. rewrite (proj2 (Z.leb_gt col 0)), (proj2 (Z.leb_gt unit_ 0)) by lia.
  cbn [orb]. rewrite (proj2 (Z.eqb_neq (bdata input) 0)) by done.
  rewrite (proj2 (Z.eqb_neq (bsize input) 0)) by nia.
  rewrite (cv_input_mod _ _ _ _ _ _ _ _ CV), (cv_input_rows _ _ _ _ _ _ _ _ CV), Eg. simpl.
  rewrite Ea. simpl. rewrite (cv_expected _ _ _ _ _ _ _ _ CV).
  rewrite (proj2 (Z.eqb_neq (bdata output) 0)) by done.
  destruct (memset_spec h (bdata output) (rows * (g * unit_)) dst Hdst) as (z & E & Lz & Bz & Rz); [nia|].
  rewrite E. cbn [mbind option_bind].
  set (out := mkBytes (rows * (g * unit_)) (bdata output)).
  assert (forall s from, stable (<[bdata output := z]> h) (bdata output) s from ->
    len from >= rows * col -> exists dst',
    formatted_loops input out s g rows col unit_ (<[bdata output := z]> h) =
      Some (inr (<[bdata output := dst']> h)) /\ len dst' = len dst /\
    (forall j, 0 <= j < rows * (g * unit_) -> byte dst' j = grouped from rows col unit_ j) /\
    (forall j, rows * (g * unit_) <= j -> byte dst' j = byte dst j)) as HL.
  { intros s from Hs Hf.
    exists (puts from (group_chunk rows col unit_ <$> pairs g rows) z).
    rewrite (formatted_loops_spec rows col unit_ g ltac:(lia) Hc Hu Hg input out s _ from z);
      [|done|done|by rewrite lookup_insert_eq|done|done|simpl; lia].
    split; [by rewrite insert_insert_eq|]. split; [by rewrite len_puts|]. split; intros j Hj.
    - apply group_bytes; try lia. by apply Bz.
    - rewrite group_bytes_rest by (done || lia). by apply Rz. }
  destruct (Z.eqb_spec (bdata input) (bdata output)) as [Ep|Np].
  - rewrite Ep. destruct (read_spec (<[bdata output := z]> h) (bdata output) (bsize input) z)
      as (t & Et & Lt & Bt); [by rewrite lookup_insert_eq|nia|]. rewrite Et. cbn [mbind option_bind].
    destruct (HL (Vec t) t eq_refl ltac:(lia)) as (d & Ed & Ld & Bd & Rd). rewrite Ed.
    exists d. split; [done|]. split; [done|]. split; [|done]. intros j Hj. rewrite Bd by done.
    destruct (group_split rows unit_ g ltac:(lia) Hu j Hj) as (g' & i & b & Hg' & Hi & Hb & Ej).
    destruct (group_place rows unit_ ltac:(lia) Hu g' i b Hi Hb) as (E1 & E2 & E3).
    rewrite <- Ej in E1, E2, E3. unfold grouped. rewrite E1, E2, E3.
    destruct (Z.ltb_spec (g' * unit_ + b) col); [|done].
    assert (rows * col <= rows * (g * unit_)) by (apply Z.mul_le_mono_nonneg_l; lia).
    assert (0 <= i * col + g' * unit_ /\ i * col + col <= rows * col) as [B1 B2]
      by (eapply group_end; eauto; lia).
    rewrite Bt by lia. apply Bz. lia.
  - destruct (HL (Ptr (bdata input)) src) as (d & Ed & Ld & Bd & Rd); [|lia|].
    { split; [done|]. by rewrite lookup_insert_ne. }
    rewrite Ed. by exists d.
Qed.
