(* ===== verification/FormatTranspose.v ===== *)
(** * NPU tensor formats: transposition *)

From Stdlib Require Import ZArith Lia.
From S2P Require Import Prelude FormatHandler FormatCopy FormatSpec.
Import FormatHandler.

(** Byte [k] of the element at row [i] and column [j] of a matrix with [col] columns. *)
Definition cell (col es i j k : Z) : Z := (i * col + j) * es + k.

Lemma cell_inv row col es i j k :
  0 < es -> 0 <= i < row -> 0 <= j < col -> 0 <= k < es ->
  let p := cell col es i j k in
  p / es / col = i /\ (p / es) mod col = j /\ p mod es = k /\ 0 <= p < row * col * es.
Proof.
  intros He Hi Hj Hk p. assert (p / es = i * col + j) as E1.
  { symmetry. apply Z.div_unique with k; unfold p, cell; lia. }
  assert (0 <= i * col) by nia. assert ((i + 1) * col <= row * col) by nia.
  assert ((i * col + j + 1) * es <= row * col * es) by nia. assert (0 <= (i * col + j) * es) by nia.
  split; [rewrite E1; symmetry; apply Z.div_unique with j; lia|].
  split; [rewrite E1; symmetry; apply Z.mod_unique with i; lia|].
  split; [symmetry; apply Z.mod_unique with (i * col + j); unfold p, cell; lia|].
  unfold p, cell. lia.
Qed.

Lemma cell_split row col es p :
  0 < row -> 0 < col -> 0 < es -> 0 <= p < row * col * es ->
  exists i j k, 0 <= i < row /\ 0 <= j < col /\ 0 <= k < es /\ p = cell col es i j k.
Proof.
  intros Hr Hc He Hp. destruct (row_byte es p He) as [E1 B1]; [lia|].
  destruct (row_byte col (p / es) Hc) as [E2 B2]; [apply Z.div_pos; lia|].
  exists (p / es / col), ((p / es) mod col), (p mod es). split_and!; try lia.
  - apply Z.div_pos; [apply Z.div_pos|]; lia.
  - apply Z.div_lt_upper_bound; [lia|]. apply Z.div_lt_upper_bound; lia.
  - unfold cell. lia.
Qed.

Lemma cell_inj row col es i j k i' j' k' :
  0 < es -> 0 <= i < row -> 0 <= j < col -> 0 <= k < es ->
  0 <= i' < row -> 0 <= j' < col -> 0 <= k' < es ->
  cell col es i j k = cell col es i' j' k' -> i = i' /\ j = j' /\ k = k'.
Proof.
  intros He Hi Hj Hk Hi' Hj' Hk' E.
  destruct (cell_inv row col es i j k He Hi Hj Hk) as (A1 & A2 & A3 & _).
  destruct (cell_inv row col es i' j' k' He Hi' Hj' Hk') as (B1 & B2 & B3 & _).
  rewrite E in A1, A2, A3. split_and!; congruence.
Qed.

(** [dst] is the transpose of the [row] by [col] matrix [src]. *)
Definition transposes (row col es : Z) (src dst : list Z) : Prop :=
  forall i j k, 0 <= i < row -> 0 <= j < col -> 0 <= k < es ->
    byte dst (cell row es j i k) = byte src (cell col es i j k).

(** ** The copying loops *)

Section Copy.
Context (row col es : Z).
Context (Hrow : 0 < row) (Hcol : 0 < col) (Hes : 0 < es).

Definition cell_chunk (ij : Z * Z) : chunk :=
  mkChunk ((ij.2 * row + ij.1) * es) ((ij.1 * col + ij.2) * es) es.

Lemma cell_fits ij from to :
  ij ∈ pairs row col -> row * col * es <= len from -> row * col * es <= len to ->
  fits (len from) (len to) (cell_chunk ij).
Proof.
  destruct ij as [i j]. intros [Hi Hj]%elem_of_pairs Hf Ht.
  destruct (cell_inv row col es i j 0 Hes Hi Hj ltac:(lia)) as (_ & _ & _ & B1).
  destruct (cell_inv row col es i j (es - 1) Hes Hi Hj ltac:(lia)) as (_ & _ & _ & B2).
  destruct (cell_inv col row es j i 0 Hes Hj Hi ltac:(lia)) as (_ & _ & _ & B3).
  destruct (cell_inv col row es j i (es - 1) Hes Hj Hi ltac:(lia)) as (_ & _ & _ & B4).
  unfold cell in *. unfold fits. simpl. lia.
Qed.

Lemma cells_fit from to :
  row * col * es <= len from -> row * col * es <= len to ->
  Forall (fits (len from) (len to)) (cell_chunk <$> pairs row col).
Proof.
  intros Hf Ht. apply Forall_fmap, Forall_forall. intros ij Hij. by apply cell_fits.
Qed.

Lemma cells_transpose from to :
  row * col * es <= len from -> row * col * es <= len to ->
  transposes row col es from (puts from (cell_chunk <$> pairs row col) to).
Proof.
  intros Hf Ht i j k Hi Hj Hk. pose proof (cells_fit from to Hf Ht) as F.
  destruct (cell_inv col row es j i k Hes Hj Hi Hk) as (_ & _ & _ & B).
  rewrite (byte_puts_in from _ to _ (cell_chunk (i, j))); simpl; try done; try lia.
  - unfold cell. f_equal. lia.
  - apply list_elem_of_fmap_2. by apply elem_of_pairs.
  - unfold covers, cell. simpl. lia.
  - intros c' ([i' j'] & -> & [Hi' Hj']%elem_of_pairs)%list_elem_of_fmap [C1 C2]. simpl in *.
    destruct (cell_inj col row es j i k j' i' (cell row es j i k - (j' * row + i') * es))
      as (-> & -> & _); try done; try lia. unfold cell in *. lia.
Qed.

Lemma cells_rest from to p :
  row * col * es <= len from -> row * col * es <= len to -> row * col * es <= p ->
  byte (puts from (cell_chunk <$> pairs row col) to) p = byte to p.
Proof.
  intros Hf Ht Hp. apply byte_puts_out; [by apply cells_fit|nia|].
  intros c' ([i j] & -> & [Hi Hj]%elem_of_pairs)%list_elem_of_fmap [C1 C2]. simpl in *.
  destruct (cell_inv col row es j i (es - 1) Hes Hj Hi ltac:(lia)) as (_ & _ & _ & B).
  unfold cell in B. lia.
Qed.
End Copy.

(** ** The swap loop on a square matrix *)

Section Swap.
Context (src n es : Z) (Hn : 0 < n) (Hes : 0 < es).

(** Two elements of the block exchanged. *)
Definition swap_cells (ij : Z * Z) (b : list Z) : list Z :=
  let o1 := cell n es ij.1 ij.2 0 in
  let o2 := cell n es ij.2 ij.1 0 in
  put (slice o1 es b) (put b b (mkChunk o1 o2 es)) (mkChunk o2 0 es).

Lemma len_swap ij b : len (swap_cells ij b) = len b.
Proof. unfold swap_cells. by rewrite !len_put. Qed.

Lemma square_cell i j k : 0 <= i < n -> 0 <= j < n -> 0 <= k < es -> forall b : list Z,
  n * n * es <= len b -> 0 <= cell n es i j k < len b.
Proof.
  intros Hi Hj Hk b Hb. destruct (cell_inv n n es i j k Hes Hi Hj Hk) as (_ & _ & _ & B). lia.
Qed.

Lemma cell_0 i j k : cell n es i j k = cell n es i j 0 + k.
Proof. unfold cell. lia. Qed.

Lemma square_fits i j b :
  0 <= i < n -> 0 <= j < n -> n * n * es <= len b ->
  0 <= cell n es i j 0 /\ cell n es i j 0 + es <= len b.
Proof.
  intros Hi Hj Hb. pose proof (square_cell i j 0 Hi Hj ltac:(lia) b Hb).
  pose proof (square_cell i j (es - 1) Hi Hj ltac:(lia) b Hb) as H2. rewrite cell_0 in H2. lia.
Qed.

Lemma byte_swap i j b i' j' k :
  0 <= i < n -> 0 <= j < n -> i <> j -> n * n * es <= len b ->
  0 <= i' < n -> 0 <= j' < n -> 0 <= k < es ->
  byte (swap_cells (i, j) b) (cell n es i' j' k) =
  if decide ((i', j') = (i, j) \/ (i', j') = (j, i)) then byte b (cell n es j' i' k)
  else byte b (cell n es i' j' k).
Proof.
  intros Hi Hj Hne Hb Hi' Hj' Hk. unfold swap_cells. cbn [fst snd].
  destruct (square_fits i j b Hi Hj Hb) as [A1 A2]. destruct (square_fits j i b Hj Hi Hb) as [B1 B2].
  pose proof (square_cell i' j' k Hi' Hj' Hk b Hb) as HP.
  assert (len (slice (cell n es i j 0) es b) = es) as Ls by (apply length_slice; lia).
  assert (forall x y, 0 <= x < n -> 0 <= y < n ->
    covers (mkChunk (cell n es x y 0) 0 es) (cell n es i' j' k) -> x = i' /\ y = j') as HC.
  { intros x y Hx Hy [C1 C2]. simpl in *. rewrite (cell_0 i' j' k) in C1, C2.
    destruct (cell_inj n n es x y (cell n es i' j' k - cell n es x y 0) i' j' k)
      as (-> & -> & _); try done; try (rewrite (cell_0 i' j' k); lia).
    rewrite (cell_0 x y). lia. }
  rewrite byte_put; [|unfold fits; simpl; rewrite len_put; lia|lia].
  destruct (decide (covers _ _)) as [C|NC].
  - destruct (HC j i Hj Hi C) as [<- <-]. destruct (decide _) as [_|[]]; [|by right].
    cbn [c_src c_dst]. rewrite (cell_0 j i k). rewrite byte_slice by lia.
    rewrite (cell_0 i j k). f_equal. lia.
  - rewrite byte_put; [|unfold fits; simpl; lia|lia].
    destruct (decide (covers _ _)) as [C|NC'].
    + destruct (HC i j Hi Hj C) as [<- <-]. destruct (decide _) as [_|[]]; [|by left].
      cbn [c_src c_dst]. rewrite (cell_0 i j k), (cell_0 j i k). f_equal. lia.
    + destruct (decide _) as [[[= -> ->]|[= -> ->]]|_]; [| |done]; exfalso.
      * apply NC'. unfold covers. simpl. rewrite (cell_0 i j k). lia.
      * apply NC. unfold covers. simpl. rewrite (cell_0 j i k). lia.
Qed.

(** The swaps of a list of distinct pairs above the diagonal. *)
Lemma byte_swaps l b i j k :
  NoDup l -> Forall (fun xy => 0 <= xy.1 < xy.2 /\ xy.2 < n) l -> n * n * es <= len b ->
  0 <= i < n -> 0 <= j < n -> 0 <= k < es ->
  byte (foldl (fun b ij => swap_cells ij b) b l) (cell n es i j k) =
  if decide ((i, j) ∈ l \/ (j, i) ∈ l) then byte b (cell n es j i k) else byte b (cell n es i j k).
Proof.
  intros ND F. revert b F. induction ND as [|[x y] l Hx ND IH]; intros b F Hb Hi Hj Hk; simpl.
  - done.
  - apply Forall_cons in F as [[Hxy Hy] F]. simpl in *.
    rewrite IH by (done || by rewrite len_swap).
    rewrite !byte_swap by lia. rewrite Forall_forall in F.
    assert ((y, x) ∉ l) as Hyx by (intros Hin; specialize (F _ Hin); simpl in F; lia).
    repeat case_decide; try done; exfalso; set_solver.
Qed.

(** Nothing behind the matrix is written. *)
Lemma swap_rest i j b p :
  0 <= i < n -> 0 <= j < n -> n * n * es <= len b -> n * n * es <= p ->
  byte (swap_cells (i, j) b) p = byte b p.
Proof.
  intros Hi Hj Hb Hp. unfold swap_cells. cbn [fst snd].
  destruct (square_fits i j b Hi Hj Hb) as [A1 A2]. destruct (square_fits j i b Hj Hi Hb) as [B1 B2].
  assert (len (slice (cell n es i j 0) es b) = es) as Ls by (apply length_slice; lia).
  destruct (cell_inv n n es i j (es - 1) Hes Hi Hj ltac:(lia)) as (_ & _ & _ & P1).
  destruct (cell_inv n n es j i (es - 1) Hes Hj Hi ltac:(lia)) as (_ & _ & _ & P2).
  rewrite cell_0 in P1, P2. assert (0 <= n * n * es) by nia.
  rewrite byte_put; [|unfold fits; simpl; rewrite len_put; lia|lia].
  destruct (decide (covers _ _)) as [[C1 C2]|_]; [simpl in *; lia|].
  rewrite byte_put; [|unfold fits; simpl; lia|lia].
  destruct (decide (covers _ _)) as [[C1 C2]|_]; [simpl in *; lia|done].
Qed.

Lemma swaps_rest l b p :
  Forall (fun xy => 0 <= xy.1 < xy.2 /\ xy.2 < n) l -> n * n * es <= len b -> n * n * es <= p ->
  len (foldl (fun b ij => swap_cells ij b) b l) = len b /\
  byte (foldl (fun b ij => swap_cells ij b) b l) p = byte b p.
Proof.
  intros F. revert b. induction F as [|[x y] l [Hx Hy] F IH]; intros b Hb Hp; simpl; [done|].
  simpl in *. destruct (IH (swap_cells (x, y) b)) as [E1 E2]; [by rewrite len_swap|done|].
  rewrite E1, E2, len_swap. split; [done|]. apply swap_rest; lia.
Qed.

Definition upper : list (Z * Z) := i ← upto n; pair i <$> seqZ (i + 1) (n - (i + 1)).

Lemma elem_of_upper i j : (i, j) ∈ upper <-> 0 <= i < j /\ j < n.
Proof.
  unfold upper. rewrite list_elem_of_bind. split.
  - intros (i' & Hin & Hi%elem_of_upto). apply list_elem_of_fmap in Hin as (j' & E & Hj%elem_of_seqZ).
    injection E as -> ->. lia.
  - intros [Hi Hj]. exists i. rewrite elem_of_upto. split; [|lia].
    apply list_elem_of_fmap. exists j. rewrite elem_of_seqZ. split; [done|lia].
Qed.

Lemma NoDup_upper : NoDup upper.
Proof.
  apply NoDup_bind.
  - intros i1 i2 x _ _ H1 H2. apply list_elem_of_fmap in H1 as (j1 & -> & _).
    apply list_elem_of_fmap in H2 as (j2 & E & _). by injection E.
  - intros i _. apply NoDup_fmap; [by intros ?? [= ->]|]. apply NoDup_seqZ.
  - apply NoDup_seqZ.
Qed.

(** A copy inside one block. *)
Lemma memcpy_within h p b c :
  h !! p = Some b -> fits (len b) (len b) c ->
  c_dst c + c_len c <= c_src c \/ c_src c + c_len c <= c_dst c ->
  memcpy p (c_dst c) (Ptr p) (c_src c) (c_len c) h = Some (<[p := put b b c]> h).
Proof.
  intros Hb F Ho. unfold memcpy. simpl. rewrite Hb. simpl. rewrite Z.eqb_refl. simpl.
  rewrite copy_bytes_put by done. simpl.
  destruct (Z.ltb_spec (c_dst c) (c_src c + c_len c)), (Z.ltb_spec (c_src c) (c_dst c + c_len c));
    try done. lia.
Qed.

(** One pass of the loop body. *)
Lemma swap_body i j h b :
  0 <= i < j -> j < n -> h !! src = Some b -> n * n * es <= len b ->
  (temp ← copy_bytes 0 b (cell n es i j 0) es (replicate (Z.to_nat es) 0);
   h1 ← memcpy src (cell n es i j 0) (Ptr src) (cell n es j i 0) es h;
   h2 ← memcpy src (cell n es j i 0) (Vec temp) 0 es h1;
   mret (inr h2)) = Some (inr (<[src := swap_cells (i, j) b]> h) : Z * heap + heap).
Proof.
  intros Hi Hj Hb Hl.
  destruct (square_fits i j b) as [A1 A2]; [lia..|]. destruct (square_fits j i b) as [B1 B2]; [lia..|].
  assert (len (replicate (Z.to_nat es) 0) = es) as Lr by (apply len_replicate; lia).
  pose proof (copy_bytes_put b (replicate (Z.to_nat es) 0) (mkChunk 0 (cell n es i j 0) es)) as E1.
  simpl in E1. rewrite E1 by (unfold fits; simpl; lia). simpl.
  assert (put b (replicate (Z.to_nat es) 0) (mkChunk 0 (cell n es i j 0) es) =
          slice (cell n es i j 0) es b) as ->.
  { apply list_eq. intros p. pose proof (byte_put b (replicate (Z.to_nat es) 0)
      (mkChunk 0 (cell n es i j 0) es) (Z.of_nat p)) as Bp.
    unfold byte at 1 in Bp. rewrite Nat2Z.id in Bp. rewrite Bp by (unfold fits; simpl; lia).
    destruct (decide (covers _ _)) as [[C1 C2]|NC]; simpl in *.
    - rewrite <- (byte_slice (cell n es i j 0) es) by lia. unfold byte. f_equal. lia.
    - unfold covers in NC. simpl in NC. pose proof (length_slice (cell n es i j 0) es b A1 ltac:(lia) A2) as Ls.
      unfold byte, len in *. rewrite !lookup_ge_None_2; [done|lia|lia]. }
  pose proof (memcpy_within h src b (mkChunk (cell n es i j 0) (cell n es j i 0) es)) as E2.
  simpl in E2. rewrite E2; [|done|unfold fits; simpl; lia|].
  2:{ unfold cell. assert (i * n + j + 1 <= j * n + i) by nia. left. nia. }
  simpl.
  pose proof (length_slice (cell n es i j 0) es b A1 ltac:(lia) A2) as Ls.
  rewrite (memcpy_put _ src (Vec (slice (cell n es i j 0) es b)) (slice (cell n es i j 0) es b)
    (put b b (mkChunk (cell n es i j 0) (cell n es j i 0) es)) (mkChunk (cell n es j i 0) 0 es));
    [|by rewrite lookup_insert_eq|done|unfold fits; simpl; rewrite len_put; lia].
  simpl. by rewrite insert_insert_eq.
Qed.

Lemma swap_square_spec h b :
  h !! src = Some b -> n * n * es <= len b ->
  swap_square src n es h =
  Some (inr (<[src := foldl (fun b ij => swap_cells ij b) b upper]> h)).
Proof.
  intros Hb Hl. unfold swap_square. rewrite for_each_nested. fold upper.
  assert (Forall (fun xy => 0 <= xy.1 < xy.2 /\ xy.2 < n) upper) as F.
  { apply Forall_forall. intros [i j] Hij. by apply elem_of_upper. }
  revert h b Hb Hl F. induction upper as [|[i j] l IH]; intros h b Hb Hl F; simpl.
  - by rewrite insert_id.
  - apply Forall_cons in F as [[Hi Hj] F]. simpl in Hi, Hj. rewrite Hb. simpl.
    pose proof (swap_body i j h b Hi Hj Hb Hl) as E.
    unfold cell in E. rewrite !Z.add_0_r in E. rewrite E.
    rewrite (IH _ (swap_cells (i, j) b)); [|by rewrite lookup_insert_eq|by rewrite len_swap|done].
    by rewrite insert_insert_eq.
Qed.

Lemma swaps_transpose b :
  n * n * es <= len b ->
  transposes n n es b (foldl (fun b ij => swap_cells ij b) b upper).
Proof.
  intros Hl i j k Hi Hj Hk.
  assert (Forall (fun xy => 0 <= xy.1 < xy.2 /\ xy.2 < n) upper) as F.
  { apply Forall_forall. intros [x y] Hxy. by apply elem_of_upper. }
  rewrite byte_swaps by (done || apply NoDup_upper).
  destruct (decide _) as [|Hn']; [done|]. rewrite !elem_of_upper in Hn'.
  assert (i = j) as -> by lia. done.
Qed.
End Swap.

(** ** The entry points *)

Lemma two_loops row col {S} (body : Z -> Z -> S -> option (Z * S + S)) s :
  for_each (upto row) (fun i s => for_each (upto col) (body i) s) s =
  for_each (pairs row col) (fun ij => body ij.1 ij.2) s.
Proof. apply (for_each_nested (upto row) (fun _ => upto col)). Qed.

Section Entry.
Context (row col es : Z).
Context (Hrow : 0 < row) (Hcol : 0 < col) (Hes : 0 < es).

Lemma transpose_out src dst h from to :
  src <> 0 -> dst <> 0 -> src <> dst -> h !! src = Some from -> h !! dst = Some to ->
  row * col * es <= len from -> row * col * es <= len to ->
  bidirectional_transpose src dst row col es h =
  Some (<[dst := puts from (cell_chunk row col es <$> pairs row col) to]> h).
Proof.
  intros Hs Hd Hne Hf Ht Lf Lt. unfold bidirectional_transpose.
  destruct (Z.eqb_spec src 0); [lia|]. destruct (Z.eqb_spec dst 0); [lia|].
  destruct (Z.leb_spec row 0); [lia|]. destruct (Z.leb_spec col 0); [lia|].
  destruct (Z.eqb_spec es 0); [lia|]. destruct (Z.eqb_spec src dst); [lia|]. simpl.
  rewrite two_loops. rewrite (for_each_memcpy _ (cell_chunk row col es) dst (Ptr src) from _ h to);
    [done| |done|done|by apply cells_fit].
  intros [i j] h' _. done.
Qed.

Lemma transpose_temp_spec from total :
  total = row * col * es -> total <= len from ->
  transpose_temp from row col es total =
  Some (inr (puts from (cell_chunk row col es <$> pairs row col) (replicate (Z.to_nat total) 0))).
Proof.
  intros -> Lf. unfold transpose_temp. rewrite two_loops.
  assert (len (replicate (Z.to_nat (row * col * es)) 0) = row * col * es) as Lr
    by (apply len_replicate; nia).
  apply (for_each_copy _ (cell_chunk row col es)); [|apply cells_fit; lia].
  intros [i j] t [Hi Hj]%elem_of_pairs Ht. cbn [fst snd].
  pose proof (cell_fits row col es Hes (i, j) from t) as F.
  specialize (F (proj2 (elem_of_pairs row col i j) (conj Hi Hj)) ltac:(lia) ltac:(lia)).
  destruct F as (_ & _ & F1 & _ & F2). cbn [cell_chunk c_dst c_src c_len fst snd] in *.
  destruct (cell_inv row col es i j (es - 1) Hes Hi Hj ltac:(lia)) as (_ & _ & _ & B2).
  unfold cell in B2.
  destruct (Z.ltb_spec (row * col * es) ((i * col + j) * es + es)); [lia|].
  destruct (Z.ltb_spec (row * col * es) ((j * row + i) * es + es)); [lia|]. done.
Qed.

(** The in-place entry point transposes the block and leaves what follows it. *)
Lemma transpose_in src h from :
  src <> 0 -> h !! src = Some from -> row * col * es <= len from -> row * col * es < 2 ^ 64 ->
  exists to, bidirectional_transpose_inplace src row col es h = Some (<[src := to]> h) /\
    len to = len from /\ transposes row col es from to /\
    (forall p, row * col * es <= p -> byte to p = byte from p).
Proof.
  intros Hs Hf Lf Hb. unfold bidirectional_transpose_inplace.
  destruct (Z.eqb_spec src 0); [lia|].
  destruct (Z.leb_spec row 0); [lia|]. destruct (Z.leb_spec col 0); [lia|].
  destruct (Z.eqb_spec es 0); [lia|]. cbn [orb].
  assert (0 < row * col) as P1 by nia. assert (row * col <= row * col * es) as P2 by nia.
  assert (u64 (row * col) = row * col) as -> by (unfold u64; apply Z.mod_small; lia).
  assert (u64 (row * col * es) = row * col * es) as -> by (unfold u64; apply Z.mod_small; lia).
  rewrite Z.div_mul by lia. rewrite Z.eqb_refl. rewrite andb_false_r.
  destruct (Z.eqb_spec (row * col * es) 0); [lia|].
  destruct (Z.eqb_spec row col) as [->|Hne].
  - rewrite (swap_square_spec src col es Hcol Hes h from) by (done || lia).
    assert (Forall (fun xy => 0 <= xy.1 < xy.2 /\ xy.2 < col) (upper col)) as F.
    { apply Forall_forall. intros [x y] Hxy. by apply elem_of_upper. }
    eexists. split; [done|]. split; [|split; [by apply swaps_transpose|]].
    + apply (swaps_rest col es Hcol Hes _ from (col * col * es)); done || lia.
    + intros p Hp. apply (swaps_rest col es Hcol Hes _ from p); done || lia.
  - rewrite Hf. simpl. rewrite (transpose_temp_spec from _ eq_refl) by done.
    set (t := puts from _ _).
    assert (len t = row * col * es) as Lt by (unfold t; rewrite len_puts; apply len_replicate; lia).
    assert (fits (len t) (len from) (mkChunk 0 0 (row * col * es))) as F by (unfold fits; simpl; lia).
    exists (put t from (mkChunk 0 0 (row * col * es))).
    pose proof (memcpy_put h src (Vec t) t from (mkChunk 0 0 (row * col * es)) Hf eq_refl F) as E.
    simpl in E. split; [done|]. split; [apply len_put|]. split.
    + intros i j k Hi Hj Hk. destruct (cell_inv col row es j i k Hes Hj Hi Hk) as (_ & _ & _ & B).
      rewrite byte_put by (done || lia). destruct (decide _) as [_|[]]; [|unfold covers; simpl; lia].
      simpl. replace (cell row es j i k - 0) with (cell row es j i k) by lia.
      unfold t. apply cells_transpose; try done. rewrite len_replicate; lia.
    + intros p Hp. rewrite byte_put by (done || lia).
      destruct (decide _) as [[C1 C2]|_]; [|done]. simpl in *. lia.
Qed.
End Entry.
