(* ===== verification/FormatTensors.v ===== *)
(** * NPU tensor formats: the tensors of a request

    [EncodeInputs] and [DecodeOutputs] of [lib/npu_format_handler.cpp]: for each
    tensor of a request, the conversions its layout and transposition ask for.
    [None] is undefined behaviour or the [exit] of [GetDataSize_*].  The build
    without [USE_VNPU] is modelled; the dumps written when [DEBUG_DATA] is set
    are not. *)

From Stdlib Require Import ZArith Lia.
From S2P Require Import Prelude FormatHandler.

Module FormatTensors.
Import FormatHandler.

(** ** The data of a request *)

Inductive Layout :=
| LAYOUT_NONE | PRE_FORMATTER | PRE_IM2COL | FORMATTED | ALIGNED | PPU_YOLO | PPU_FD | PPU_POSE.

Inductive Transpose := TRANSPOSE_NONE | CHANNEL_FIRST_TO_LAST | CHANNEL_LAST_TO_FIRST.

Inductive ModelType :=
| MODEL_TYPE_NORMAL | MODEL_TYPE_ARGMAX | MODEL_TYPE_PPU | MODEL_TYPE_PPCPU | MODEL_TYPE_OTHER.

(** [deepx_rmapinfo::MemoryType] *)
Inductive MemoryType := MEMORYTYPE_NONE | DRAM | MEM_ARGMAX | MEM_PPU.

(** [dxrt::DataType] *)
Inductive TensorType :=
| NONE_TYPE | T_FLOAT | T_UINT8 | T_INT8 | T_UINT16 | T_INT16 | T_INT32 | T_INT64 | T_UINT32
| T_UINT64 | T_BBOX | T_FACE | T_POSE | MAX_TYPE.

#[export] Instance Layout_eq_dec : EqDecision Layout.
Proof. solve_decision. Defined.
#[export] Instance Transpose_eq_dec : EqDecision Transpose.
Proof. solve_decision. Defined.
#[export] Instance ModelType_eq_dec : EqDecision ModelType.
Proof. solve_decision. Defined.
#[export] Instance MemoryType_eq_dec : EqDecision MemoryType.
Proof. solve_decision. Defined.

Record TensorInfo := mkInfo {
  layout : Layout; transpose : Transpose; shape_encoded : list Z;
  dtype_encoded : DataType; align_unit : Z
}.

Record Tensor := mkTensor {
  data : Z; elemSize : Z; shape : list Z; type : TensorType; memory_type : MemoryType
}.

(** A negative dimension is dynamic and does not count. *)
Definition size_in_bytes (t : Tensor) : Z :=
  let num_elements :=
    foldl (fun n dim => if dim <? 0 then n else u64 (n * u64 dim)) 1 (shape t) in
  u64 (num_elements * elemSize t).

Record TaskData := mkTaskData {
  npuInputTensorInfos : list TensorInfo; npuOutputTensorInfos : list TensorInfo;
  encodedInputSizes : list Z; encodedOutputSizes : list Z; isArgMax : bool
}.

Record RequestData := mkRequest {
  taskData : option TaskData;
  inputs : list Tensor; outputs : list Tensor;
  encoded_inputs_ptr : Z;
  encoded_input_ptrs : list Z; encoded_output_ptrs : list Z
}.

(** The memory and the request, which the functions update in place. *)
Abbreviation st := (heap * RequestData)%type.

Definition set_data (t : Tensor) (p : Z) : Tensor :=
  mkTensor p (elemSize t) (shape t) (type t) (memory_type t).
Definition set_shape (t : Tensor) (s : list Z) : Tensor :=
  mkTensor (data t) (elemSize t) s (type t) (memory_type t).

Definition set_input_ptr (i : nat) (p : Z) (r : RequestData) : RequestData :=
  mkRequest (taskData r) (inputs r) (outputs r) (encoded_inputs_ptr r)
    (<[i := p]> (encoded_input_ptrs r)) (encoded_output_ptrs r).
Definition set_output (i : nat) (t : Tensor) (r : RequestData) : RequestData :=
  mkRequest (taskData r) (inputs r) (<[i := t]> (outputs r)) (encoded_inputs_ptr r)
    (encoded_input_ptrs r) (encoded_output_ptrs r).

(** ** Element sizes *)

Definition GetDataSize_rmapinfo_datatype (dType : DataType) : option Z :=
  match dType with
  | UINT8 | INT8 => Some 1
  | INT16 | UINT16 => Some 2
  | UINT32 | INT32 | FLOAT32 => Some 4
  | UINT64 | INT64 => Some 8
  | DATA_TYPE_NONE | DATA_TYPE_OTHER => None
  end.

Definition GetDataSize_Datatype (dType : TensorType) : option Z :=
  match dType with
  | T_UINT8 | T_INT8 => Some 1
  | T_INT16 | T_UINT16 => Some 2
  | T_UINT32 | T_INT32 | T_FLOAT => Some 4
  | T_UINT64 | T_INT64 => Some 8
  | T_BBOX => Some 32
  | T_FACE => Some 64
  | T_POSE => Some 256
  | NONE_TYPE | MAX_TYPE => None
  end.

(** [static_cast<int>(shape_encoded()[shape_dims - k])] *)
Definition dim_from_end (info : TensorInfo) (k : nat) : option Z :=
  if (k <=? length (shape_encoded info))%nat
  then i32 <$> shape_encoded info !! (length (shape_encoded info) - k)%nat else None.

(** The product of every dimension but the last. *)
Definition outer_dims (info : TensorInfo) : option Z :=
  foldl (fun acc d => a ← acc; ck (a * i32 d)) (Some 1)
    (take (length (shape_encoded info) - 1) (shape_encoded info)).

(** The unit and the number of columns in bytes, for a 4-byte type. *)
Definition scale (dtype : DataType) (z : Z) : option Z :=
  if decide (dtype = FLOAT32) then ck (z * 4) else Some z.

(** ** Encoding the inputs *)

(** The encoded buffer of input [i] becomes the tensor itself. *)
Definition use_input (i : nat) (t : Tensor) (r : RequestData) : RequestData :=
  mkRequest (taskData r) (inputs r) (outputs r) (data t)
    (<[i := data t]> (encoded_input_ptrs r)) (encoded_output_ptrs r).

(** A call whose return code and output size are dropped. *)
Definition ignore (r : option (Z * Bytes * heap)) : option heap :=
  match r with Some (_, h) => Some h | None => None end.

Definition skip_or (can_skip : bool) (i : nat) (t : Tensor) (s : st)
    (copy : heap -> option heap) : option st :=
  if can_skip then Some (s.1, use_input i t s.2)
  else h ← copy s.1; mret (h, s.2).

Definition copy_input (original encoded : Bytes) (h : heap) : option heap :=
  memcpy (bdata encoded) 0 (Ptr (bdata original)) 0 (bsize original) h.

(** [Layout::FORMATTED] *)
Definition encode_input_formatted (info : TensorInfo) (can_skip : bool) (i : nat) (t : Tensor)
    (original encoded : Bytes) (s : st) : option st :=
  match transpose info with
  | TRANSPOSE_NONE =>
      skip_or can_skip i t s (fun h =>
        channel ← dim_from_end info 1;
        ignore (encode_formatted original encoded channel (align_unit info) h))
  | CHANNEL_FIRST_TO_LAST =>
      channel ← dim_from_end info 1;
      h1 ← ignore (encode_formatted original encoded channel (align_unit info) s.1);
      col ← outer_dims info;
      elem_size ← GetDataSize_rmapinfo_datatype (dtype_encoded info);
      h2 ← bidirectional_transpose (bdata encoded) (bdata encoded) channel col elem_size h1;
      mret (h2, s.2)
  | CHANNEL_LAST_TO_FIRST => skip_or can_skip i t s (copy_input original encoded)
  end.

(** [Layout::ALIGNED] *)
Definition encode_input_aligned (info : TensorInfo) (can_skip : bool) (i : nat) (t : Tensor)
    (original encoded : Bytes) (s : st) : option st :=
  match transpose info with
  | TRANSPOSE_NONE =>
      skip_or can_skip i t s (fun h =>
        channel ← dim_from_end info 1;
        unit_ ← scale (dtype_encoded info) (align_unit info);
        col ← scale (dtype_encoded info) channel;
        ignore (encode original encoded col unit_ h))
  | CHANNEL_FIRST_TO_LAST =>
      row ← dim_from_end info 1;
      transpose_col ← outer_dims info;
      elem_size ← GetDataSize_rmapinfo_datatype (dtype_encoded info);
      h1 ← bidirectional_transpose (bdata original) (bdata encoded) row transpose_col elem_size s.1;
      unit_ ← scale (dtype_encoded info) (align_unit info);
      col ← scale (dtype_encoded info) row;
      h2 ← ignore (encode (mkBytes (bsize original) (bdata encoded)) encoded col unit_ h1);
      mret (h2, s.2)
  | CHANNEL_LAST_TO_FIRST => skip_or can_skip i t s (copy_input original encoded)
  end.

Definition encode_input_layout (info : TensorInfo) (can_skip : bool) (i : nat) (t : Tensor)
    (original encoded : Bytes) (s : st) : option st :=
  match layout info with
  | PRE_FORMATTER =>
      skip_or can_skip i t s (fun h =>
        ignore (encode_preformatter original encoded (align_unit info) h))
  | PRE_IM2COL =>
      skip_or can_skip i t s (fun h =>
        width ← dim_from_end info 2;
        channel ← dim_from_end info 1;
        ignore (encode_preim2col original encoded width channel (align_unit info) h))
  | FORMATTED => encode_input_formatted info can_skip i t original encoded s
  | ALIGNED => encode_input_aligned info can_skip i t original encoded s
  | _ => skip_or can_skip i t s (copy_input original encoded)
  end.

(** One pass of the loop over the inputs; [inl] returns from the function. *)
Definition encode_input (td : TaskData) (input_count : nat) (i : nat) (s : st)
    : option (Z * st + st) :=
  match encoded_input_ptrs s.2 !! i with
  | None => Some (inl (-1, s))
  | Some p =>
      if p =? 0 then Some (inl (-1, s))
      else
        input_tensor ← inputs s.2 !! i;
        tensor_info ← npuInputTensorInfos td !! i;
        encoded_size ← encodedInputSizes td !! i;
        let can_skip_input_copy :=
          (input_count =? 1)%nat && (size_in_bytes input_tensor =? encoded_size) in
        let original_input := mkBytes (u32 (size_in_bytes input_tensor)) (data input_tensor) in
        let encoded_input := mkBytes encoded_size p in
        if bdata original_input =? 0 then Some (inl (-1, s))
        else
          inr <$> encode_input_layout tensor_info can_skip_input_copy i input_tensor
                    original_input encoded_input s
  end.

(** The branch of the [_sNpuValidateOpt] option. *)
Definition validate_input (i : nat) (s : st) : option (Z * st + st) :=
  input_tensor ← inputs s.2 !! i;
  _ ← encoded_input_ptrs s.2 !! i;
  mret (inr (s.1, set_input_ptr i (data input_tensor) s.2)).

(** The end of the function after a loop. *)
Definition finish_request (r : option (Z * st + st)) : option (Z * st) :=
  match r with
  | Some (inr s) => Some (0, s)
  | Some (inl r') => Some r'
  | None => None
  end.

Definition EncodeInputs (validate : bool) (h : heap) (reqData : RequestData)
    : option (Z * st) :=
  match taskData reqData with
  | None => Some (-1, (h, reqData))
  | Some td =>
      if negb validate then
        let input_count := length (inputs reqData) in
        if (input_count =? 0)%nat then Some (0, (h, reqData))
        else if (length (npuInputTensorInfos td) <? input_count)%nat
                || (length (encodedInputSizes td) <? input_count)%nat
             then Some (-1, (h, reqData))
        else finish_request (for_each (seq 0 input_count) (encode_input td input_count) (h, reqData))
      else
        finish_request
          (for_each (seq 0 (length (outputs reqData))) validate_input (h, reqData))
  end.

(** ** Decoding the outputs *)

(** [*(static_cast<uint16_t *>(p)) = v] *)
Definition store16 (p v : Z) (h : heap) : option heap :=
  memcpy p 0 (Vec [v mod 2 ^ 8; v / 2 ^ 8]) 0 2 h.

Definition copy_output (encoded decoded : Bytes) (h : heap) : option heap :=
  memcpy (bdata decoded) 0 (Ptr (bdata encoded)) 0 (bsize encoded) h.

(** [Layout::ALIGNED] *)
Definition decode_output_aligned (info : TensorInfo) (i : nat) (t : Tensor)
    (encoded decoded : Bytes) (s : st) : option st :=
  match transpose info with
  | TRANSPOSE_NONE =>
      channel ← dim_from_end info 1;
      h1 ← ignore (decode_aligned encoded decoded channel (dtype_encoded info) (align_unit info) s.1);
      mret (h1, s.2)
  | CHANNEL_LAST_TO_FIRST =>
      channel ← dim_from_end info 1;
      h1 ← ignore (decode_aligned encoded decoded channel (dtype_encoded info) (align_unit info) s.1);
      row ← outer_dims info;
      elem_size ← GetDataSize_rmapinfo_datatype (dtype_encoded info);
      h2 ← bidirectional_transpose (bdata decoded) (bdata encoded) row channel elem_size h1;
      mret (h2, set_output i (set_data t (bdata encoded)) s.2)
  | CHANNEL_FIRST_TO_LAST => h1 ← copy_output encoded decoded s.1; mret (h1, s.2)
  end.

(** One pass of the loop over the outputs. *)
Definition decode_output (td : TaskData) (argmax : Z) (i : nat) (s : st) : option (Z * st + st) :=
  output_tensor ← outputs s.2 !! i;
  if decide (memory_type output_tensor = MEM_ARGMAX) then
    if data output_tensor =? 0 then Some (inr s)
    else h1 ← store16 (data output_tensor) argmax s.1; mret (inr (h1, s.2))
  else
    tensor_info ← npuOutputTensorInfos td !! i;
    match encoded_output_ptrs s.2 !! i with
    | None => Some (inr s)
    | Some p =>
        encoded_size ← encodedOutputSizes td !! i;
        let encoded_output := mkBytes encoded_size p in
        let decoded_output := mkBytes (u32 (size_in_bytes output_tensor)) (data output_tensor) in
        if bdata encoded_output =? 0 then Some (inr s)
        else if bdata decoded_output =? 0 then Some (inr s)
        else if decide (layout tensor_info = ALIGNED) then
          inr <$> decode_output_aligned tensor_info i output_tensor encoded_output decoded_output s
        else
          h1 ← copy_output encoded_output decoded_output s.1;
          mret (inr (h1, s.2))
    end.

Definition validate_output (i : nat) (s : st) : option (Z * st + st) :=
  output_tensor ← outputs s.2 !! i;
  p ← encoded_output_ptrs s.2 !! i;
  mret (inr (s.1, set_output i (set_data output_tensor p) s.2)).

Definition decode_normal (validate : bool) (argmax : Z) (td : TaskData) (s : st)
    : option (Z * st) :=
  let all := seq 0 (length (outputs s.2)) in
  finish_request
    (if validate then for_each all validate_output s
     else for_each all (decode_output td argmax) s).

(** [MODEL_TYPE_PPU]: the filtered boxes are copied, and their number is the shape. *)
Definition decode_ppu (ppu_filter_num : Z) (s : st) : option (Z * st) :=
  match outputs s.2 with
  | [] => Some (0, s)
  | t :: _ =>
      p ← encoded_output_ptrs s.2 !! 0%nat;
      h1 ← memcpy (data t) 0 (Ptr p) 0 (128 * 1024) s.1;
      mret (0, (h1, set_output 0 (set_shape t [1; ppu_filter_num]) s.2))
  end.

Definition decode_ppcpu (ppu_filter_num : Z) (s : st) : option (Z * st) :=
  match outputs s.2 with
  | [] => Some (0, s)
  | t :: _ =>
      if 0 <? ppu_filter_num then
        unit_size ← GetDataSize_Datatype (type t);
        mret (0, (s.1, set_output 0 (set_shape t [ppu_filter_num; unit_size]) s.2))
      else Some (0, (s.1, set_output 0 (set_shape t [0; 0]) s.2))
  end.

(** The request is present and its task data is the one of its [RequestData]. *)
Definition DecodeOutputs (modelType : ModelType) (validate : bool) (argmax ppu_filter_num : Z)
    (h : heap) (req : RequestData) : option (Z * st) :=
  td ← taskData req;
  let is_decoding :=
    match modelType with
    | MODEL_TYPE_NORMAL => true
    | MODEL_TYPE_ARGMAX => negb (isArgMax td)
    | _ => false
    end in
  if is_decoding then decode_normal validate argmax td (h, req)
  else
    match modelType with
    | MODEL_TYPE_ARGMAX =>
        t ← head (outputs req);
        h1 ← store16 (data t) argmax h;
        mret (0, (h1, req))
    | MODEL_TYPE_PPU => decode_ppu ppu_filter_num (h, req)
    | MODEL_TYPE_PPCPU => decode_ppcpu ppu_filter_num (h, req)
    | _ => Some (-1, (h, req))
    end.

End FormatTensors.
