(* ===== verification/FormatThms.v ===== *)
(** * NPU tensor formats: properties *)

From Stdlib Require Import ZArith Lia.
From S2P Require Import Prelude FormatHandler FormatCopy FormatSpec FormatGroups FormatTranspose.
From S2P Require Import FormatTensors.
Import FormatHandler FormatTensors.

(** ** Shared lemmas *)

Lemma bytes_ext (a b : list Z) :
  (forall p, 0 <= p -> byte a p = byte b p) -> a = b.
Proof.
  intros H. apply list_eq. intros p. specialize (H (Z.of_nat p) ltac:(lia)).
  unfold byte in H. by rewrite Nat2Z.id in H.
Qed.

(** Byte [b] of row [i] of rows of width [w]. *)
Lemma at_row w i b : 0 <= b < w -> (i * w + b) / w = i /\ (i * w + b) mod w = b.
Proof. intros Hb. destruct (row_unique w i (i * w + b)); [lia|lia|]. split; [done|lia]. Qed.

Lemma padded_row src col w i b :
  0 <= b < w -> padded src col w (i * w + b) = if b <? col then byte src (i * col + b) else Some 0.
Proof. intros Hb. unfold padded. by destruct (at_row w i b Hb) as [-> ->]. Qed.

Lemma row_at w rows j :
  0 < w -> 0 <= j < rows * w ->
  exists i b, 0 <= i < rows /\ 0 <= b < w /\ j = i * w + b.
Proof.
  intros Hw Hj. destruct (row_byte w j Hw) as [E B]; [lia|].
  exists (j / w), (j mod w). split; [by apply row_range|]. done.
Qed.

(** A conversion whose two buffers exist, read back as a statement on rows. *)
Definition rows_padded (rows col w : Z) (src dst : list Z) : Prop :=
  forall i b, 0 <= i < rows -> 0 <= b < w ->
    byte dst (i * w + b) = if b <? col then byte src (i * col + b) else Some 0.

(** The transpose of the transpose. *)
Lemma transposes_back row col es a b c p :
  0 < row -> 0 < col -> 0 < es ->
  transposes row col es a b -> transposes col row es b c -> 0 <= p < row * col * es ->
  byte c p = byte a p.
Proof.
  intros Hr Hc He T1 T2 Hp. destruct (cell_split row col es p Hr Hc He Hp) as (i & j & k & Hi & Hj & Hk & ->).
  rewrite (T2 j i k) by done. by apply T1.
Qed.

Lemma transposes_unique row col es a b c p :
  0 < row -> 0 < col -> 0 < es ->
  transposes row col es a b -> transposes row col es a c -> 0 <= p < row * col * es ->
  byte b p = byte c p.
Proof.
  intros Hr Hc He T1 T2 Hp. assert (0 <= p < col * row * es) as Hp' by nia.
  destruct (cell_split col row es p Hc Hr He Hp') as (j & i & k & Hj & Hi & Hk & ->).
  by rewrite T1, T2.
Qed.

(** ** Properties *)

(** [encode], in place or not, writes each row of [col] bytes followed by
    zeros up to the next multiple of the unit, reports that size, and changes
    nothing else in memory. *)
Theorem encode_layout input output rows col unit_ h src dst :
  width_ok col unit_ ->
  conversion input output rows col (aligned_width col unit_) h src dst ->
  exists dst',
    encode input output col unit_ h =
      Some (0, mkBytes (rows * aligned_width col unit_) (bdata output), <[bdata output := dst']> h) /\
    rows_padded rows col (aligned_width col unit_) src dst' /\ len dst' = len dst /\
    (forall p, rows * aligned_width col unit_ <= p -> byte dst' p = byte dst p).
Proof.
  intros W CV. destruct (encode_spec input output rows col unit_ h src dst W CV)
    as (dst' & E & L & B & R).
  exists dst'. split; [done|]. split; [|done]. intros i b Hi Hb.
  rewrite B by nia. by apply padded_row.
Qed.

(** C9. Decoding what [encode] wrote gives the tensor back, whichever of the
    three buffers share their memory. *)
Theorem decode_encode input mid output rows col unit_ h src mdst dst :
  width_ok col unit_ ->
  conversion input mid rows col (aligned_width col unit_) h src mdst ->
  bdata output <> 0 -> h !! bdata output = Some dst ->
  rows * col <= bsize output -> rows * col <= len dst ->
  (bdata mid = bdata output -> rows * aligned_width col unit_ < 2 ^ 31) ->
  exists out1 h1 h2 dec,
    encode input mid col unit_ h = Some (0, out1, h1) /\
    decode out1 output col unit_ h1 = Some (0, mkBytes (bsize input) (bdata output), h2) /\
    h2 !! bdata output = Some dec /\
    (forall p, 0 <= p < bsize input -> byte dec p = byte src p).
Proof.
  intros W CV Ho Hd Hs Hl Hin. pose proof W as (Hc & Hu & _).
  pose proof (aligned_width_bounds col unit_ Hc Hu) as HA. set (w := aligned_width col unit_) in *.
  destruct (encode_spec input mid rows col unit_ h src mdst W CV) as (m' & E & L & B & _).
  fold w in E, B. pose proof CV as [Hr Hwi Hwo Hsz Hout Hip Hop Hsrc Hdst Hsl Hfit Hdl].
  assert (exists d1, (<[bdata mid := m']> h) !! bdata output = Some d1 /\ len d1 = len dst)
    as (d1 & Hd1 & Ld1).
  { destruct (decide (bdata mid = bdata output)) as [Eq|Ne].
    - exists m'. rewrite Eq, lookup_insert_eq. rewrite Eq in Hdst. split; [done|]. congruence.
    - exists dst. by rewrite lookup_insert_ne. }
  assert (conversion (mkBytes (rows * w) (bdata mid)) output rows w col (<[bdata mid := m']> h) m' d1)
    as CV2.
  { split; simpl; try done; try lia; try nia. by rewrite lookup_insert_eq. }
  destruct (decode_spec _ _ rows col unit_ _ _ _ W CV2) as (d2 & E2 & L2 & B2 & _); [done|].
  fold w in E2, B2. rewrite <- Hsz in E2, B2. eexists _, _, _, d2.
  split; [exact E|]. split; [exact E2|]. split; [by rewrite lookup_insert_eq|].
  intros p Hp. rewrite B2 by done. rewrite Hsz in Hp.
  destruct (row_at col rows p Hc Hp) as (i & b & Hi & Hb & ->).
  unfold unpadded. destruct (at_row col i b Hb) as [-> ->].
  rewrite B by nia. rewrite padded_row by lia. by rewrite (proj2 (Z.ltb_lt b col)) by lia.
Qed.

(** [encode_formatted] out of place stores the channels group by group: byte
    [b] of row [i] in group [g] is byte [g * unit + b] of the row, and the
    missing bytes of the last group are zeros. *)
Theorem encode_formatted_layout input output rows col unit_ h src dst :
  width_ok col unit_ ->
  conversion input output rows col (aligned_width col unit_) h src dst ->
  bdata input <> bdata output ->
  exists dst',
    encode_formatted input output col unit_ h =
      Some (0, mkBytes (rows * aligned_width col unit_) (bdata output), <[bdata output := dst']> h) /\
    (forall g i b, 0 <= g < (col + (unit_ - 1)) / unit_ -> 0 <= i < rows -> 0 <= b < unit_ ->
       byte dst' (g * rows * unit_ + i * unit_ + b) =
       if g * unit_ + b <? col then byte src (i * col + (g * unit_ + b)) else Some 0).
Proof.
  intros W CV Hne. pose proof W as (Hc & Hu & _).
  pose proof (encode_formatted_spec input output rows col unit_ h src dst W CV) as S.
  rewrite (proj2 (Z.eqb_neq _ _)) in S by done. destruct S as (dst' & E & L & B & _).
  exists dst'. split; [exact E|]. intros g i b Hg Hi Hb.
  destruct (group_place rows unit_ ltac:(apply CV) Hu g i b Hi Hb) as (E1 & E2 & E3).
  pose proof (cv_rows _ _ _ _ _ _ _ _ CV) as Hr.
  rewrite B.
  - unfold grouped. rewrite E1, E2, E3. by rewrite <- Z.add_assoc.
  - unfold aligned_width in *. set (n := (col + (unit_ - 1)) / unit_) in *.
    assert (g * rows + rows <= n * rows) by nia. nia.
Qed.

(** In place, [encode_formatted] clears the buffer before it copies the
    input out of it: it returns success and the tensor is all zeros. *)
Theorem encode_formatted_in_place_zeros input output rows col unit_ h src dst :
  width_ok col unit_ ->
  conversion input output rows col (aligned_width col unit_) h src dst ->
  bdata input = bdata output ->
  exists dst',
    encode_formatted input output col unit_ h =
      Some (0, mkBytes (rows * aligned_width col unit_) (bdata output), <[bdata output := dst']> h) /\
    (forall p, 0 <= p < rows * aligned_width col unit_ -> byte dst' p = Some 0).
Proof.
  intros W CV Heq. pose proof (encode_formatted_spec input output rows col unit_ h src dst W CV) as S.
  rewrite (proj2 (Z.eqb_eq _ _)) in S by done. destruct S as (dst' & E & L & B & _).
  by exists dst'.
Qed.

(** Transposing a matrix in place, then its transpose with the dimensions
    exchanged, restores the memory exactly, square or not. *)
Theorem transpose_in_place_involutive row col es src h from :
  0 < row -> 0 < col -> 0 < es -> row * col * es < 2 ^ 64 ->
  src <> 0 -> h !! src = Some from -> row * col * es <= len from ->
  exists h1, bidirectional_transpose_inplace src row col es h = Some h1 /\
             bidirectional_transpose_inplace src col row es h1 = Some h.
Proof.
  intros Hr Hc He Hb Hs Hf Hl.
  destruct (transpose_in row col es Hr Hc He src h from) as (b & E1 & L1 & T1 & R1); try done.
  destruct (transpose_in col row es Hc Hr He src (<[src := b]> h) b) as (c & E2 & L2 & T2 & R2);
    [done|by rewrite lookup_insert_eq|lia|lia|].
  eexists. split; [exact E1|]. rewrite E2, insert_insert_eq.
  assert (c = from) as ->; [|by rewrite insert_id].
  apply bytes_ext. intros p Hp. destruct (decide (p < row * col * es)).
  - by apply (transposes_back row col es from b c).
  - rewrite R2 by lia. by apply R1; lia.
Qed.

(** C10. The out-of-place copy and the in-place algorithms (swaps on a square
    matrix, a temporary otherwise) compute the same transpose, and the
    out-of-place copy keeps its source. *)
Theorem transpose_out_eq_in row col es src dst h from to :
  0 < row -> 0 < col -> 0 < es -> row * col * es < 2 ^ 64 ->
  src <> 0 -> dst <> 0 -> src <> dst -> h !! src = Some from -> h !! dst = Some to ->
  row * col * es <= len from -> row * col * es <= len to ->
  exists h1 h2 b1 b2,
    bidirectional_transpose src dst row col es h = Some h1 /\
    bidirectional_transpose src src row col es h = Some h2 /\
    h1 !! src = Some from /\ h1 !! dst = Some b1 /\ h2 !! src = Some b2 /\ h2 !! dst = Some to /\
    (forall p, 0 <= p < row * col * es -> byte b1 p = byte b2 p) /\ transposes row col es from b1.
Proof.
  intros Hr Hc He Hb Hs Hd Hne Hf Ht Lf Lt.
  destruct (transpose_in row col es Hr Hc He src h from) as (b2 & E2 & L2 & T2 & _); try done.
  pose proof (transpose_out row col es Hr Hc He src dst h from to) as E1.
  pose proof (cells_transpose row col es He from to Lf Lt) as T1.
  eexists _, _, _, b2. split; [by apply E1|]. split.
  { unfold bidirectional_transpose. rewrite (proj2 (Z.eqb_neq src 0)), (proj2 (Z.leb_gt row 0)),
      (proj2 (Z.leb_gt col 0)), (proj2 (Z.eqb_neq es 0)), Z.eqb_refl by lia. exact E2. }
  rewrite !lookup_insert_eq, !lookup_insert_ne by done. split_and!; try done.
  intros p Hp. by apply (transposes_unique row col es from).
Qed.

(** An aligned input with its channels first: the element of channel [j] at
    position [i] of the tensor becomes element [j] of row [i] of the encoded
    buffer, each row padded with zeros, although the second step works in place
    on what the first one wrote. *)
Theorem encode_aligned_channel_first info can_skip i t original encoded h rd rows channel es src dst :
  transpose info = CHANNEL_FIRST_TO_LAST ->
  dim_from_end info 1 = Some channel -> outer_dims info = Some rows ->
  GetDataSize_rmapinfo_datatype (dtype_encoded info) = Some es ->
  scale (dtype_encoded info) (align_unit info) = Some (align_unit info * es) ->
  scale (dtype_encoded info) channel = Some (channel * es) ->
  0 < channel -> width_ok (channel * es) (align_unit info * es) ->
  conversion original encoded rows (channel * es)
    (aligned_width (channel * es) (align_unit info * es)) h src dst ->
  bdata original <> bdata encoded -> rows * (channel * es) <= len dst ->
  exists dst',
    encode_input_aligned info can_skip i t original encoded (h, rd) =
      Some (<[bdata encoded := dst']> h, rd) /\
    (forall r j k, 0 <= r < rows -> 0 <= j < channel -> 0 <= k < es ->
       byte dst' (r * aligned_width (channel * es) (align_unit info * es) + (j * es + k)) =
       byte src ((j * rows + r) * es + k)) /\
    (forall r b, 0 <= r < rows ->
       channel * es <= b < aligned_width (channel * es) (align_unit info * es) ->
       byte dst' (r * aligned_width (channel * es) (align_unit info * es) + b) = Some 0).
Proof.
  intros Ht Hd Ho Hes Hu Hc Hch W CV Hne Hl. pose proof W as (Hw & Hun & _).
  pose proof (aligned_width_bounds _ _ Hw Hun) as HA. set (w := aligned_width _ _) in *.
  pose proof CV as [Hr Hwi Hwo Hsz Hout Hip Hop Hsrc Hdst Hsl Hfit Hdl].
  assert (0 < es) as He by nia. assert (0 < rows) as Hrows by lia.
  pose proof (transpose_out channel rows es Hch Hrows He (bdata original) (bdata encoded) h src dst)
    as E1.
  pose proof (cells_transpose channel rows es He src dst ltac:(nia) ltac:(nia)) as T1.
  set (d1 := puts src _ dst) in *.
  assert (len d1 = len dst) as L1 by apply len_puts.
  assert (conversion (mkBytes (bsize original) (bdata encoded)) encoded rows (channel * es) w
            (<[bdata encoded := d1]> h) d1 d1) as CV2.
  { split; simpl; try done; try lia; by rewrite ?lookup_insert_eq. }
  destruct (encode_spec _ _ rows _ _ _ _ _ W CV2) as (d2 & E2 & L2 & B2 & _). fold w in E2, B2.
  exists d2. unfold encode_input_aligned. rewrite Ht, Hd. simpl. rewrite Ho. simpl. rewrite Hes. simpl.
  rewrite E1 by (done || nia). simpl. rewrite Hu. simpl. rewrite Hc. simpl. rewrite E2. simpl.
  split; [by rewrite insert_insert_eq|]. split.
  - intros r j k Hr' Hj Hk. assert (0 <= j * es + k < channel * es) as Hb by nia.
    rewrite B2 by nia. rewrite padded_row by lia. rewrite (proj2 (Z.ltb_lt _ _)) by lia.
    transitivity (byte d1 (cell channel es r j k)); [unfold cell; f_equal; lia|by apply T1].
  - intros r b Hr' Hb. rewrite B2 by nia. rewrite padded_row by lia.
    by rewrite (proj2 (Z.ltb_ge _ _)) by lia.
Qed.

(** ** Witnesses *)

(** Three rows of three bytes, padded to units of four. *)
Definition w_tensor : list Z := [1; 2; 3; 4; 5; 6; 7; 8; 9].
Definition w_heap : heap := {[ 1 := w_tensor; 2 := replicate 20 255; 3 := replicate 9 0 ]}.
Definition w_in : Bytes := mkBytes 9 1.
Definition w_mid : Bytes := mkBytes 20 2.
Definition w_out : Bytes := mkBytes 9 3.

Lemma w_conversion :
  conversion w_in w_mid 3 3 (aligned_width 3 4) w_heap w_tensor (replicate 20 255).
Proof. split; try reflexivity; vm_compute; intuition congruence. Qed.

(** The same tensor in a block large enough to be padded in place. *)
Definition w_block : list Z := w_tensor ++ replicate 11 255.
Definition w_heap1 : heap := {[ 2 := w_block ]}.
Definition w_in1 : Bytes := mkBytes 9 2.

Lemma w_conversion1 : conversion w_in1 w_mid 3 3 (aligned_width 3 4) w_heap1 w_block w_block.
Proof. split; try reflexivity; vm_compute; intuition congruence. Qed.

Lemma encode_layout_witness :
  exists dst', encode w_in1 w_mid 3 4 w_heap1 = Some (0, mkBytes 12 2, <[2 := dst']> w_heap1) /\
    rows_padded 3 3 4 w_block dst'.
Proof.
  destruct (encode_layout w_in1 w_mid 3 3 4 w_heap1 w_block w_block) as (d & E & R & _).
  - unfold width_ok. lia.
  - exact w_conversion1.
  - exists d. exact (conj E R).
Defined.

Lemma decode_encode_witness :
  exists out1 h1 h2 dec, encode w_in w_mid 3 4 w_heap = Some (0, out1, h1) /\
    decode out1 w_out 3 4 h1 = Some (0, mkBytes 9 3, h2) /\ h2 !! 3 = Some dec /\
    (forall p, 0 <= p < 9 -> byte dec p = byte w_tensor p).
Proof.
  apply (decode_encode w_in w_mid w_out 3 3 4 w_heap w_tensor (replicate 20 255) (replicate 9 0)).
  - unfold width_ok. lia.
  - exact w_conversion.
  - discriminate.
  - reflexivity.
  - vm_compute. discriminate.
  - vm_compute. discriminate.
  - discriminate.
Defined.

Lemma encode_formatted_layout_witness :
  exists dst', encode_formatted w_in w_mid 3 4 w_heap = Some (0, mkBytes 12 2, <[2 := dst']> w_heap).
Proof.
  destruct (encode_formatted_layout w_in w_mid 3 3 4 w_heap w_tensor (replicate 20 255))
    as (d & E & _).
  - unfold width_ok. lia.
  - exact w_conversion.
  - discriminate.
  - exists d. exact E.
Defined.

Lemma encode_formatted_in_place_zeros_witness :
  exists dst', encode_formatted w_in1 w_mid 3 4 w_heap1 = Some (0, mkBytes 12 2, <[2 := dst']> w_heap1) /\
    (forall p, 0 <= p < 12 -> byte dst' p = Some 0).
Proof.
  apply (encode_formatted_in_place_zeros w_in1 w_mid 3 3 4 w_heap1 w_block w_block).
  - unfold width_ok. lia.
  - exact w_conversion1.
  - reflexivity.
Defined.

Lemma transpose_in_place_involutive_witness :
  exists h1, bidirectional_transpose_inplace 2 3 2 2 w_heap1 = Some h1 /\
             bidirectional_transpose_inplace 2 2 3 2 h1 = Some w_heap1.
Proof.
  apply (transpose_in_place_involutive 3 2 2 2 w_heap1 w_block); try lia.
  - reflexivity.
  - vm_compute. discriminate.
Defined.

Lemma transpose_out_eq_in_witness :
  exists h1 h2 b1 b2,
    bidirectional_transpose 1 2 3 3 1 w_heap = Some h1 /\
    bidirectional_transpose 1 1 3 3 1 w_heap = Some h2 /\
    h1 !! 1 = Some w_tensor /\ h1 !! 2 = Some b1 /\ h2 !! 1 = Some b2 /\
    h2 !! 2 = Some (replicate 20 255) /\
    (forall p, 0 <= p < 9 -> byte b1 p = byte b2 p) /\ transposes 3 3 1 w_tensor b1.
Proof.
  apply (transpose_out_eq_in 3 3 1 1 2 w_heap w_tensor (replicate 20 255)); try lia.
  - reflexivity.
  - reflexivity.
  - vm_compute. discriminate.
  - vm_compute. discriminate.
Defined.

Definition w_info : TensorInfo := mkInfo ALIGNED CHANNEL_FIRST_TO_LAST [1; 3; 3] UINT8 4.
Definition w_t : Tensor := mkTensor 1 1 [1; 3; 3] T_UINT8 DRAM.
Definition w_request : RequestData := mkRequest None [w_t] [] 2 [2] [].

Lemma encode_aligned_channel_first_witness :
  exists dst', encode_input_aligned w_info false 0 w_t w_in w_mid (w_heap, w_request) =
      Some (<[2 := dst']> w_heap, w_request) /\
    (forall r j k, 0 <= r < 3 -> 0 <= j < 3 -> 0 <= k < 1 ->
       byte dst' (r * 4 + (j * 1 + k)) = byte w_tensor ((j * 3 + r) * 1 + k)).
Proof.
  destruct (encode_aligned_channel_first w_info false 0 w_t w_in w_mid w_heap w_request 3 3 1
              w_tensor (replicate 20 255)) as (d & E & B & _).
  - reflexivity.
  - reflexivity.
  - reflexivity.
  - reflexivity.
  - reflexivity.
  - reflexivity.
  - lia.
  - unfold width_ok. simpl. lia.
  - exact w_conversion.
  - discriminate.
  - vm_compute. discriminate.
  - exists d. exact (conj E B).
Defined.
