(* ===== verification/IpcPacket.v ===== *)
(** * Dynamic IPC: packets

    [lib/dynamic_ipc/protocol/ipc_packet.{hpp,cpp}]: the message types, the packed
    packets as lists of little-endian fields, the header checks, the telemetry
    response with its variable part, and the generator of sequence numbers.
    Structures that packets carry opaquely ([dxrt_request_acc_t],
    [dxrt_response_t], the driver's notifications, a [double]) are blobs of their
    size.  [pid_t] and [int] are 32 bits and [intptr_t] 64 bits wide, as on the
    64-bit Linux targets. *)

From Stdlib Require Import ZArith Lia.
From S2P Require Import Prelude.

Module IpcPacket.

(** ** Errors *)

Inductive errno :=
| EINVAL | EMSGSIZE | EPROTO | ENOSYS | ENOENT | ENOTCONN | ETIMEDOUT | ECONNRESET.

(** The value of a call, or -1 with [errno] set. *)
Inductive result (A : Type) :=
| Ok (a : A)
| Error (e : errno).
#[global] Arguments Ok {A} a.
#[global] Arguments Error {A} e.

Definition bind {A B} (r : result A) (f : A -> result B) : result B :=
  match r with Ok a => f a | Error e => Error e end.

(** ** Message types *)

Inductive IPCMessageType :=
| AllocateBuffer | FreeBuffer | InferenceRequest | InferenceResponse | ThrottleNotification
| ErrorNotification | DMAReadRequest | DMAReadResponse | DMAWriteRequest | DMAWriteResponse
| TaskInitRequest | TaskInitResponse | TaskDeInitRequest | TaskDeInitResponse
| ViewFreeMemoryRequestLegacy | ViewFreeMemoryResponseLegacy
| ViewUsedMemoryRequestLegacy | ViewUsedMemoryResponseLegacy
| GetUsageRequestLegacy | GetUsageResponseLegacy
| GetDeviceTelemetryRequest | GetDeviceTelemetryResponse | ClientHello
| RecoveryStartNotification | RecoveryStartAck | RecoverySuccessNotification
| RecoveryFailNotification | DMAReadRequestWithFaultInjection.

#[export] Instance IPCMessageType_eq_dec : EqDecision IPCMessageType.
Proof. solve_decision. Defined.

Definition message_types : list IPCMessageType :=
  [AllocateBuffer; FreeBuffer; InferenceRequest; InferenceResponse; ThrottleNotification;
   ErrorNotification; DMAReadRequest; DMAReadResponse; DMAWriteRequest; DMAWriteResponse;
   TaskInitRequest; TaskInitResponse; TaskDeInitRequest; TaskDeInitResponse;
   ViewFreeMemoryRequestLegacy; ViewFreeMemoryResponseLegacy;
   ViewUsedMemoryRequestLegacy; ViewUsedMemoryResponseLegacy;
   GetUsageRequestLegacy; GetUsageResponseLegacy;
   GetDeviceTelemetryRequest; GetDeviceTelemetryResponse; ClientHello;
   RecoveryStartNotification; RecoveryStartAck; RecoverySuccessNotification;
   RecoveryFailNotification; DMAReadRequestWithFaultInjection].

Definition type_value (t : IPCMessageType) : Z :=
  match t with
  | AllocateBuffer => 101 | FreeBuffer => 102 | InferenceRequest => 103 | InferenceResponse => 104
  | ThrottleNotification => 105 | ErrorNotification => 106 | DMAReadRequest => 107
  | DMAReadResponse => 108 | DMAWriteRequest => 109 | DMAWriteResponse => 110
  | TaskInitRequest => 111 | TaskInitResponse => 112 | TaskDeInitRequest => 113
  | TaskDeInitResponse => 114 | ViewFreeMemoryRequestLegacy => 115
  | ViewFreeMemoryResponseLegacy => 116 | ViewUsedMemoryRequestLegacy => 117
  | ViewUsedMemoryResponseLegacy => 118 | GetUsageRequestLegacy => 119
  | GetUsageResponseLegacy => 120 | GetDeviceTelemetryRequest => 121
  | GetDeviceTelemetryResponse => 122 | ClientHello => 123 | RecoveryStartNotification => 124
  | RecoveryStartAck => 125 | RecoverySuccessNotification => 126 | RecoveryFailNotification => 127
  | DMAReadRequestWithFaultInjection => 199
  end.

(** [static_cast<IPCMessageType>(typeValue)], when a case of a [switch] matches. *)
Definition type_of_value (typeValue : Z) : option IPCMessageType :=
  find (fun t => type_value t =? typeValue) message_types.

Definition isValidIPCMessageType (typeValue : Z) : bool :=
  if type_of_value typeValue then true else false.

Definition tryGetIPCResponseMessageType (requestType : IPCMessageType) : option IPCMessageType :=
  match requestType with
  | AllocateBuffer => Some AllocateBuffer
  | FreeBuffer => Some FreeBuffer
  | InferenceRequest => Some InferenceResponse
  | DMAReadRequest => Some DMAReadResponse
  | DMAReadRequestWithFaultInjection => Some DMAReadResponse
  | DMAWriteRequest => Some DMAWriteResponse
  | TaskInitRequest => Some TaskInitResponse
  | TaskDeInitRequest => Some TaskDeInitResponse
  | ViewFreeMemoryRequestLegacy => Some ViewFreeMemoryResponseLegacy
  | ViewUsedMemoryRequestLegacy => Some ViewUsedMemoryResponseLegacy
  | GetUsageRequestLegacy => Some GetUsageResponseLegacy
  | GetDeviceTelemetryRequest => Some GetDeviceTelemetryResponse
  | _ => None
  end.

(** ** Fields of packed structures *)

Inductive field :=
| UInt (n : nat)   (* n bytes, unsigned *)
| SInt (n : nat)   (* n bytes, signed *)
| Blob (n : nat).  (* n bytes, copied as they are *)

Definition fsize (f : field) : nat := match f with UInt n | SInt n | Blob n => n end.
Definition fval (f : field) : Type := match f with UInt _ | SInt _ => Z | Blob _ => list Z end.

Fixpoint fields (fs : list field) : Type :=
  match fs with [] => unit | f :: fs => (fval f * fields fs)%type end.
Definition fields_size (fs : list field) : nat := sum_list_with fsize fs.

(** Little-endian integers. *)
Fixpoint put_le (n : nat) (z : Z) : list Z :=
  match n with O => [] | S n => z mod 2 ^ 8 :: put_le n (z / 2 ^ 8) end.
Fixpoint get_le (l : list Z) : Z :=
  match l with [] => 0 | b :: l => b + 2 ^ 8 * get_le l end.

Definition bits (n : nat) : Z := 8 * Z.of_nat n.

Definition write_field (f : field) : fval f -> list Z :=
  match f with UInt n | SInt n => put_le n | Blob _ => fun b => b end.
Definition read_field (f : field) : list Z -> fval f :=
  match f with
  | UInt n => fun b => get_le (take n b)
  | SInt n => fun b => swrap (bits n) (get_le (take n b))
  | Blob n => fun b => take n b
  end.

Fixpoint write (fs : list field) : fields fs -> list Z :=
  match fs with
  | [] => fun _ => []
  | f :: fs => fun v => write_field f v.1 ++ write fs v.2
  end.
Fixpoint read (fs : list field) (b : list Z) : fields fs :=
  match fs with
  | [] => tt
  | f :: fs => (read_field f b, read fs (drop (fsize f) b))
  end.

(** ** Packets *)

Definition dxrt_request_acc_size : nat := 120.
Definition dxrt_response_size : nat := 64.
Definition dx_pcie_dev_ntfy_throt_size : nat := 28.
Definition dx_pcie_dev_err_size : nat := 456.

Inductive packet :=
| IPCPacketClientHello | IPCPacketRecoveryStartNotification | IPCPacketRecoveryStartAck
| IPCPacketRecoverySuccessNotification | IPCPacketRecoveryFailNotification
| IPCPacketRequestAllocateBuffer | IPCPacketResponseAllocateBuffer
| IPCPacketRequestFreeBuffer | IPCPacketResponseFreeBuffer
| IPCPacketRequestInference | IPCPacketResponseInference
| IPCPacketThrottleNotification | IPCPacketErrorNotification
| IPCPacketDMAReadRequest | IPCPacketDMAReadResponse
| IPCPacketDMAWriteRequest | IPCPacketDMAWriteResponse
| IPCPacketTaskInitRequest | IPCPacketTaskInitResponse
| IPCPacketTaskDeInitRequest | IPCPacketTaskDeInitResponse
| IPCPacketViewFreeMemoryRequestLegacy | IPCPacketViewFreeMemoryResponseLegacy
| IPCPacketViewUsedMemoryRequestLegacy | IPCPacketViewUsedMemoryResponseLegacy
| IPCPacketGetUsageRequestLegacy | IPCPacketGetUsageResponseLegacy
| IPCPacketGetDeviceTelemetryRequest | IPCPacketGetDeviceTelemetryResponse
| IPCPacketDMAReadRequestWithFaultInjection.

(** The fields after the header, in order. *)
Definition packet_fields (p : packet) : list field :=
  match p with
  | IPCPacketClientHello => []
  | IPCPacketRecoveryStartNotification => [UInt 4]                 (* recoveryId *)
  | IPCPacketRecoveryStartAck => [UInt 4; SInt 4]                  (* recoveryId, result *)
  | IPCPacketRecoverySuccessNotification => [UInt 4]
  | IPCPacketRecoveryFailNotification => [UInt 4]
  | IPCPacketRequestAllocateBuffer => [UInt 8; SInt 4; SInt 4]     (* bufferSize, taskId, memoryType *)
  | IPCPacketResponseAllocateBuffer =>                             (* address, size, result, fd, blockId *)
      [UInt 8; UInt 8; SInt 4; SInt 8; SInt 8]
  | IPCPacketRequestFreeBuffer => [UInt 8]                         (* bufferAddress *)
  | IPCPacketResponseFreeBuffer => [SInt 4]                        (* result *)
  | IPCPacketRequestInference => [SInt 4; Blob dxrt_request_acc_size]
  | IPCPacketResponseInference => [SInt 4; Blob dxrt_response_size]
  | IPCPacketThrottleNotification => [Blob dx_pcie_dev_ntfy_throt_size]
  | IPCPacketErrorNotification => [SInt 8; Blob dx_pcie_dev_err_size]
  | IPCPacketDMAReadRequest => [SInt 8; UInt 8; UInt 8]            (* blockId, blockOffset, size *)
  | IPCPacketDMAReadResponse => [SInt 4]
  | IPCPacketDMAWriteRequest => [SInt 8; UInt 8; UInt 8]
  | IPCPacketDMAWriteResponse => [SInt 4]
  | IPCPacketTaskInitRequest =>
      [SInt 4; SInt 4; UInt 8; SInt 1; SInt 1; UInt 4; UInt 4; UInt 4; UInt 4; UInt 4; UInt 4;
       UInt 4; UInt 4; UInt 4; UInt 4; UInt 4; UInt 4; UInt 8]
  | IPCPacketTaskInitResponse => [SInt 4]
  | IPCPacketTaskDeInitRequest => [SInt 4; SInt 4]                 (* taskId, bound *)
  | IPCPacketTaskDeInitResponse => [SInt 4]
  | IPCPacketViewFreeMemoryRequestLegacy => []
  | IPCPacketViewFreeMemoryResponseLegacy => [SInt 4; UInt 8]      (* result, bytes *)
  | IPCPacketViewUsedMemoryRequestLegacy => []
  | IPCPacketViewUsedMemoryResponseLegacy => [SInt 4; UInt 8]
  | IPCPacketGetUsageRequestLegacy => [SInt 4]                     (* channel *)
  | IPCPacketGetUsageResponseLegacy => [SInt 4; Blob 8]            (* result, usage *)
  | IPCPacketGetDeviceTelemetryRequest => []
  | IPCPacketGetDeviceTelemetryResponse => [SInt 4; UInt 4; UInt 8; UInt 8]
  | IPCPacketDMAReadRequestWithFaultInjection => [SInt 8; UInt 8; UInt 8]
  end.

(** *** The header *)

Record IPCPacketHeader := mkHeader {
  magic : Z; version : Z; flags : Z; type : Z; messageSize : Z;
  seqId : Z; deviceId : Z; pid : Z
}.

Definition header_fields : list field :=
  [UInt 4; UInt 2; UInt 2; UInt 4; UInt 4; SInt 4; SInt 4; SInt 4].
Definition sizeof_header : nat := fields_size header_fields.
Definition sizeof (p : packet) : nat := sizeof_header + fields_size (packet_fields p).

Definition header_values (h : IPCPacketHeader) : fields header_fields :=
  (magic h, (version h, (flags h, (type h, (messageSize h, (seqId h, (deviceId h, (pid h, tt)))))))).
Definition header_of_values (v : fields header_fields) : IPCPacketHeader :=
  let '(m, (ve, (fl, (ty, (ms, (sq, (dv, (pi, _)))))))) := v in mkHeader m ve fl ty ms sq dv pi.

Definition write_header (h : IPCPacketHeader) : list Z := write header_fields (header_values h).
Definition read_header (b : list Z) : IPCPacketHeader := header_of_values (read header_fields b).

Definition set_seqId (h : IPCPacketHeader) (s : Z) : IPCPacketHeader :=
  mkHeader (magic h) (version h) (flags h) (type h) (messageSize h) s (deviceId h) (pid h).
Definition set_deviceId (h : IPCPacketHeader) (d : Z) : IPCPacketHeader :=
  mkHeader (magic h) (version h) (flags h) (type h) (messageSize h) (seqId h) d (pid h).

Definition kIPCPacketMagic : Z := 0x44584950.
Definition kIPCPacketWireVersion : Z := 1.
Definition kIPCMaxMessageSize : Z := 65536.

Definition isValidIPCPacketHeader (h : IPCPacketHeader) : bool :=
  if negb (magic h =? kIPCPacketMagic) then false
  else if negb (isValidIPCMessageType (type h)) then false
  else if negb (version h =? kIPCPacketWireVersion) then false
  else if seqId h <? 0 then false
  else true.

(** [self] is [getCurrentIPCPacketPid()]. *)
Definition initializeIPCPacketHeader (self : Z) (t : IPCMessageType) (size seq pid version : Z)
    : IPCPacketHeader :=
  mkHeader kIPCPacketMagic version 0 (type_value t) size seq 0 (if pid =? 0 then self else pid).

Definition initializeIPCPacket (self : Z) (p : packet) (t : IPCMessageType) (seq pid : Z)
    : IPCPacketHeader :=
  initializeIPCPacketHeader self t (u32 (Z.of_nat (sizeof p - sizeof_header))) seq pid
    kIPCPacketWireVersion.

Definition packet_bytes (h : IPCPacketHeader) (p : packet) (v : fields (packet_fields p)) : list Z :=
  write_header h ++ write (packet_fields p) v.

(** ** Telemetry *)

Record IPCDeviceTelemetryCoreData := mkCore {
  utilizationPermille : Z; temperature : Z; clock : Z; voltage : Z
}.

Record IPCDeviceTelemetryPayload := mkTelemetry {
  t_result : Z; usedMemoryBytes : Z; freeMemoryBytes : Z; cores : list IPCDeviceTelemetryCoreData
}.

Definition telemetry_size (coreCount : Z) : Z :=
  u64 (Z.of_nat (sizeof IPCPacketGetDeviceTelemetryResponse)
       + 4 * coreCount + 4 * coreCount + 4 * coreCount + 4 * coreCount).

Definition getSerializedIPCDeviceTelemetryResponseSize (t : IPCDeviceTelemetryPayload) : Z :=
  telemetry_size (Z.of_nat (length (cores t))).

Definition serializeIPCDeviceTelemetryResponsePacket (self : Z) (requestHeader : IPCPacketHeader)
    (t : IPCDeviceTelemetryPayload) : result (list Z) :=
  let totalSize := getSerializedIPCDeviceTelemetryResponseSize t in
  if kIPCMaxMessageSize <? totalSize then Error EMSGSIZE
  else
    let h := set_deviceId
      (initializeIPCPacketHeader self GetDeviceTelemetryResponse
         (u32 (totalSize - Z.of_nat sizeof_header)) (seqId requestHeader) (pid requestHeader)
         kIPCPacketWireVersion) (deviceId requestHeader) in
    Ok (packet_bytes h IPCPacketGetDeviceTelemetryResponse
          (t_result t, (u32 (Z.of_nat (length (cores t))),
            (usedMemoryBytes t, (freeMemoryBytes t, tt))))
        ++ (c ← cores t; put_le 4 (utilizationPermille c))
        ++ (c ← cores t; put_le 4 (temperature c))
        ++ (c ← cores t; put_le 4 (clock c))
        ++ (c ← cores t; put_le 4 (voltage c))).

(** An array of [n] 4-byte values at [cursor], and the cursor behind it. *)
Fixpoint read_array (n : nat) (cursor : list Z) : list Z * list Z :=
  match n with
  | O => ([], cursor)
  | S n => let '(l, c) := read_array n (drop 4 cursor) in (get_le (take 4 cursor) :: l, c)
  end.

Fixpoint make_cores (us ts cs vs : list Z) : list IPCDeviceTelemetryCoreData :=
  match us, ts, cs, vs with
  | u :: us, t :: ts, c :: cs, v :: vs => mkCore u (swrap 32 t) c v :: make_cores us ts cs vs
  | _, _, _, _ => []
  end.

(** The header is also an output, written before it is checked. *)
Definition deserializeIPCDeviceTelemetryResponsePacket (message : list Z)
    : option IPCPacketHeader * result IPCDeviceTelemetryPayload :=
  let size := Z.of_nat (length message) in
  if size <? Z.of_nat (sizeof IPCPacketGetDeviceTelemetryResponse) then (None, Error EMSGSIZE)
  else
    let h := read_header message in
    let '(res, (coreCount, (used, (free, _)))) :=
      read (packet_fields IPCPacketGetDeviceTelemetryResponse) (drop sizeof_header message) in
    (Some h,
     if negb (isValidIPCPacketHeader h) then Error EPROTO
     else if negb (type h =? type_value GetDeviceTelemetryResponse) then Error EPROTO
     else
       let expectedSize := telemetry_size coreCount in
       if negb (size =? expectedSize) then Error EMSGSIZE
       else if negb (messageSize h =? expectedSize - Z.of_nat sizeof_header) then Error EMSGSIZE
       else
         let n := Z.to_nat coreCount in
         let '(us, c1) := read_array n (drop (sizeof IPCPacketGetDeviceTelemetryResponse) message) in
         let '(ts, c2) := read_array n c1 in
         let '(cs, c3) := read_array n c2 in
         let '(vs, _) := read_array n c3 in
         Ok (mkTelemetry res used free (make_cores us ts cs vs))).

(** ** Sequence numbers

    The counter is atomic; a call is at most three atomic accesses, which other
    threads may interleave. *)

Definition fetch_add (counter : Z) : Z * Z := (counter, i32 (counter + 1)).

Definition normalizeSequenceId (sequenceId : Z) : Z := if sequenceId <=? 0 then 1 else sequenceId.

(** Where a thread is inside [getNextIPCPacketSequenceId]. *)
Inductive seq_pc :=
| SeqStart
| SeqCas (expected : Z)
| SeqRetry
| SeqDone (sequenceId : Z).

Definition seq_step (pc : seq_pc) (counter : Z) : option (seq_pc * Z) :=
  match pc with
  | SeqStart =>
      let '(nextSequence, counter') := fetch_add counter in
      Some (if 0 <? nextSequence then SeqDone nextSequence else SeqCas (nextSequence + 1), counter')
  | SeqCas expected =>
      if counter =? expected then Some (SeqDone 1, 1) else Some (SeqRetry, counter)
  | SeqRetry =>
      let '(nextSequence, counter') := fetch_add counter in
      Some (SeqDone (normalizeSequenceId nextSequence), counter')
  | SeqDone _ => None
  end.

(** A call no other thread interrupts. *)
Fixpoint seq_run (fuel : nat) (pc : seq_pc) (counter : Z) : option (Z * Z) :=
  match pc, fuel with
  | SeqDone i, _ => Some (i, counter)
  | _, O => None
  | _, S fuel =>
      match seq_step pc counter with
      | Some (pc', counter') => seq_run fuel pc' counter'
      | None => None
      end
  end.

Definition getNextIPCPacketSequenceId (counter : Z) : option (Z * Z) := seq_run 3 SeqStart counter.

(** The numbers of [n] successive calls. *)
Fixpoint sequence_ids (n : nat) (counter : Z) : option (list Z) :=
  match n with
  | O => Some []
  | S n =>
      '(i, counter') ← getNextIPCPacketSequenceId counter;
      l ← sequence_ids n counter';
      mret (i :: l)
  end.

End IpcPacket.
