(* ===== verification/IpcCodec.v ===== *)
(** * Dynamic IPC: packets and their bytes

    The codec lemmas: reading what was written, and writing what was read. *)

From Stdlib Require Import ZArith Lia.
From S2P Require Import Prelude IpcPacket.
Import IpcPacket.

(** ** Little-endian integers *)

Abbreviation bytes := (Forall (fun b => 0 <= b < 2 ^ 8)).

Lemma length_put_le n z : length (put_le n z) = n.
Proof. revert z. induction n as [|n IH]; intros z; simpl; [done|]. by rewrite IH. Qed.

Lemma bytes_put_le n z : bytes (put_le n z).
Proof.
  revert z. induction n as [|n IH]; intros z; simpl; constructor; [|apply IH].
  apply Z.mod_pos_bound. lia.
Qed.

Lemma bits_S n : 2 ^ bits (S n) = 2 ^ 8 * 2 ^ bits n.
Proof. unfold bits. rewrite <- Z.pow_add_r by lia. f_equal. lia. Qed.

Lemma get_put_le n z : get_le (put_le n z) = z mod 2 ^ bits n.
Proof.
  revert z. induction n as [|n IH]; intros z; cbn [put_le get_le].
  - unfold bits. simpl. by rewrite Z.mod_1_r.
  - rewrite IH, bits_S. assert (0 < 2 ^ bits n) by (apply Z.pow_pos_nonneg; unfold bits; lia).
    rewrite (Z.rem_mul_r z (2 ^ 8) (2 ^ bits n)) by lia. done.
Qed.

Lemma get_le_range l : bytes l -> 0 <= get_le l < 2 ^ bits (length l).
Proof.
  induction 1 as [|b l Hb Hl IH]; [by unfold bits|].
  cbn [get_le length]. rewrite bits_S. lia.
Qed.

Lemma put_get_le l : bytes l -> put_le (length l) (get_le l) = l.
Proof.
  induction 1 as [|b l Hb Hl IH]; [done|]. cbn [length put_le get_le].
  assert ((b + 2 ^ 8 * get_le l) mod 2 ^ 8 = b) as ->.
  { rewrite Z.mul_comm, Z.mod_add by lia. by apply Z.mod_small. }
  assert ((b + 2 ^ 8 * get_le l) / 2 ^ 8 = get_le l) as ->.
  { rewrite Z.mul_comm, Z.div_add by lia. rewrite Z.div_small by done. lia. }
  by rewrite IH.
Qed.

Lemma put_le_mod n z : put_le n (z mod 2 ^ bits n) = put_le n z.
Proof.
  rewrite <- get_put_le. pose proof (put_get_le _ (bytes_put_le n z)) as E.
  by rewrite length_put_le in E.
Qed.

Lemma put_le_swrap n z : (0 < n)%nat -> put_le n (swrap (bits n) z) = put_le n z.
Proof.
  intros Hn. rewrite <- (put_le_mod n (swrap _ _)), <- (put_le_mod n z). f_equal.
  apply (uwrap_swrap (bits n) z). unfold bits. lia.
Qed.

(** ** Fields *)

(** The values a field of a structure can hold. *)
Definition field_ok (f : field) : fval f -> Prop :=
  match f with
  | UInt n => fun v => 0 <= v < 2 ^ bits n
  | SInt n => fun v => - 2 ^ (bits n - 1) <= v < 2 ^ (bits n - 1)
  | Blob n => fun b => length b = n /\ bytes b
  end.

Fixpoint fields_ok (fs : list field) : fields fs -> Prop :=
  match fs with
  | [] => fun _ => True
  | f :: fs => fun v => field_ok f v.1 /\ fields_ok fs v.2
  end.

(** Signed fields have at least one byte. *)
Definition field_wf (f : field) : Prop := (0 < fsize f)%nat.

Lemma packet_wf p : Forall field_wf (packet_fields p).
Proof. destruct p; repeat constructor; unfold field_wf; simpl; lia. Qed.

Lemma header_wf : Forall field_wf header_fields.
Proof. repeat constructor; unfold field_wf; simpl; lia. Qed.

Lemma length_write_field f v : field_ok f v -> length (write_field f v) = fsize f.
Proof. destruct f; simpl; intros H; try apply length_put_le. by destruct H. Qed.

Lemma read_write_field f v rest :
  field_wf f -> field_ok f v -> read_field f (write_field f v ++ rest) = v.
Proof.
  intros Hw Hv. pose proof (length_write_field f v Hv) as HL.
  assert (take (fsize f) (write_field f v ++ rest) = write_field f v) as E
    by (by apply take_app_length').
  destruct f as [n|n|n]; simpl in *; rewrite E; [| |done]; rewrite get_put_le.
  - by apply Z.mod_small.
  - change (v mod 2 ^ bits n) with (uwrap (bits n) v).
    unfold field_wf in Hw. simpl in Hw. assert (0 < bits n) by (unfold bits; lia).
    rewrite swrap_uwrap by done. by apply swrap_small.
Qed.

Lemma length_write fs v : fields_ok fs v -> length (write fs v) = fields_size fs.
Proof.
  induction fs as [|f fs IH]; [done|]. intros [H1 H2]. simpl.
  rewrite length_app, length_write_field, IH by done. done.
Qed.

Lemma read_write fs v rest :
  Forall field_wf fs -> fields_ok fs v -> read fs (write fs v ++ rest) = v.
Proof.
  revert rest. induction fs as [|f fs IH]; intros rest Hw Hv.
  - simpl. by destruct v.
  - apply Forall_cons in Hw as [Hf Hw]. destruct v as [x v], Hv as [Hx Hv]. simpl in *.
    rewrite <- app_assoc, read_write_field by done. f_equal.
    rewrite drop_app_length' by (symmetry; by apply length_write_field). by apply IH.
Qed.

Lemma bytes_take n l : bytes l -> bytes (take n l).
Proof. apply Forall_take. Qed.
Lemma bytes_drop n l : bytes l -> bytes (drop n l).
Proof. apply Forall_drop. Qed.

Lemma write_read_field f b :
  field_wf f -> bytes b -> (fsize f <= length b)%nat ->
  write_field f (read_field f b) = take (fsize f) b /\ field_ok f (read_field f b).
Proof.
  intros Hw Hb HL. pose proof (bytes_take (fsize f) b Hb) as Ht.
  assert (length (take (fsize f) b) = fsize f) as El by (rewrite length_take; lia).
  destruct f as [n|n|n]; simpl in *.
  - pose proof (put_get_le _ Ht) as E. pose proof (get_le_range _ Ht) as R.
    rewrite El in E, R. done.
  - pose proof (put_get_le _ Ht) as E. rewrite El in E.
    unfold field_wf in Hw. simpl in Hw. split; [by rewrite put_le_swrap|].
    apply swrap_range. unfold bits. lia.
  - done.
Qed.

Lemma write_read fs b :
  Forall field_wf fs -> bytes b -> (fields_size fs <= length b)%nat ->
  write fs (read fs b) = take (fields_size fs) b /\ fields_ok fs (read fs b).
Proof.
  revert b. induction fs as [|f fs IH]; intros b Hw Hb HL; simpl in *; [done|].
  apply Forall_cons in Hw as [Hf Hw].
  destruct (write_read_field f b Hf Hb) as [E1 O1]; [lia|].
  destruct (IH (drop (fsize f) b) Hw (bytes_drop _ _ Hb)) as [E2 O2];
    [rewrite length_drop; unfold fields_size in *; lia|].
  split; [|done]. rewrite E1, E2. change (fields_size (f :: fs)) with (fsize f + fields_size fs)%nat.
  by rewrite take_take_drop.
Qed.

(** ** The header *)

Definition header_ok (h : IPCPacketHeader) : Prop := fields_ok header_fields (header_values h).

Lemma header_values_of v : header_values (header_of_values v) = v.
Proof. by destruct v as (?&?&?&?&?&?&?&?&[]). Qed.

Lemma length_write_header h : header_ok h -> length (write_header h) = sizeof_header.
Proof. apply length_write. Qed.

Lemma read_write_header h rest : header_ok h -> read_header (write_header h ++ rest) = h.
Proof.
  intros H. unfold read_header, write_header. rewrite read_write by (done || apply header_wf).
  by destruct h.
Qed.

Lemma write_read_header b :
  bytes b -> (sizeof_header <= length b)%nat ->
  write_header (read_header b) = take sizeof_header b /\ header_ok (read_header b).
Proof.
  intros Hb HL. unfold write_header, header_ok, read_header. rewrite header_values_of.
  by apply write_read; [apply header_wf| |].
Qed.

(** A packet read back: its header, and its fields behind the header. *)
Lemma read_packet h p v :
  header_ok h -> fields_ok (packet_fields p) v ->
  read_header (packet_bytes h p v) = h /\
  read (packet_fields p) (drop sizeof_header (packet_bytes h p v)) = v /\
  drop sizeof_header (packet_bytes h p v) = write (packet_fields p) v /\
  length (packet_bytes h p v) = sizeof p.
Proof.
  intros Hh Hv. unfold packet_bytes. pose proof (length_write_header h Hh) as E.
  rewrite read_write_header by done. rewrite drop_app_length' by done. split_and!; try done.
  - rewrite <- (app_nil_r (write _ _)). apply read_write; [apply packet_wf|done].
  - rewrite length_app, E, length_write by done. done.
Qed.

(** Any message of the size of a packet is the packet of what is read from it. *)
Lemma packet_read b p :
  bytes b -> length b = sizeof p ->
  let v := read (packet_fields p) (drop sizeof_header b) in
  b = packet_bytes (read_header b) p v /\ header_ok (read_header b) /\ fields_ok (packet_fields p) v.
Proof.
  intros Hb HL v. unfold sizeof in HL.
  destruct (write_read_header b Hb) as [E1 O1]; [lia|].
  destruct (write_read (packet_fields p) (drop sizeof_header b)) as [E2 O2];
    [apply packet_wf|by apply bytes_drop|rewrite length_drop; lia|].
  split; [|done]. unfold packet_bytes. rewrite E1. unfold v. rewrite E2.
  rewrite take_ge with (l := drop _ _) by (rewrite length_drop; lia). by rewrite take_drop.
Qed.

(** ** Message types *)

Lemma type_of_type_value t : type_of_value (type_value t) = Some t.
Proof. by destruct t. Qed.

Lemma type_of_value_Some z t : type_of_value z = Some t -> z = type_value t.
Proof.
  unfold type_of_value. intros H. apply List.find_some in H as [_ E]. by apply Z.eqb_eq in E.
Qed.

Lemma valid_type t : isValidIPCMessageType (type_value t) = true.
Proof. by destruct t. Qed.

Lemma valid_header_iff h :
  isValidIPCPacketHeader h = true <->
  magic h = kIPCPacketMagic /\ (exists t, type h = type_value t) /\
  version h = kIPCPacketWireVersion /\ 0 <= seqId h.
Proof.
  unfold isValidIPCPacketHeader, isValidIPCMessageType.
  destruct (Z.eqb_spec (magic h) kIPCPacketMagic); simpl; [|naive_solver].
  destruct (type_of_value (type h)) as [t|] eqn:Et; simpl.
  - apply type_of_value_Some in Et.
    destruct (Z.eqb_spec (version h) kIPCPacketWireVersion); simpl; [|naive_solver].
    destruct (Z.ltb_spec (seqId h) 0); split; try done; try naive_solver lia.
  - split; [done|]. intros (_ & [t E] & _). rewrite E, type_of_type_value in Et. done.
Qed.
