(* ===== verification/IpcServer.v ===== *)
(** * Dynamic IPC: the service side

    The bookkeeping of connections of [lib/dynamic_ipc/transport/ipc_server_endpoint.cpp]
    and the registry of request handlers of
    [lib/dynamic_ipc/protocol/ipc_packet_handler_registry.cpp], on Linux.  The
    handlers themselves belong to the service and are called through [run]; the
    socket of a client is the parameter [sendMessage].  Each section under
    [_clientsMutex] is one step. *)

From Stdlib Require Import ZArith Lia.
From S2P Require Import Prelude IpcPacket.

Module IpcServer.
Import IpcPacket.

(** ** What the service is asked to do *)

(** [TaskStaticConfig] *)
Record TaskStaticConfig := mkConfig {
  model_type : Z; model_format : Z; model_cmds : Z; op_mode : Z; cmd_offset : Z;
  weight_offset : Z; custom_offset : Z; input_size : Z; output_size : Z;
  last_output_offset : Z; output_all_offset : Z; datas : list Z; memory_base : Z
}.

(** One constructor per handler, with the arguments it is called with. *)
Inductive call :=
| CallAllocate (clientFd pid deviceId seqId taskId bufferSize memoryType : Z)
| CallFreeBuffer (pid deviceId seqId bufferAddress : Z)
| CallInference (pid deviceId taskId : Z) (request : list Z)
| CallDMARead (pid deviceId seqId blockId blockOffset size : Z)
| CallDMAReadWithFaultInjection (pid deviceId seqId blockId blockOffset size : Z)
| CallDMAWrite (pid deviceId seqId blockId blockOffset size : Z)
| CallTaskInit (pid deviceId seqId taskId bound modelMemorySize : Z) (config : TaskStaticConfig)
| CallTaskDeInit (pid deviceId seqId taskId bound : Z)
| CallViewFreeMemoryLegacy (pid deviceId seqId : Z)
| CallViewUsedMemoryLegacy (pid deviceId seqId : Z)
| CallGetUsageLegacy (pid deviceId seqId channel : Z)
| CallGetDeviceTelemetry (pid deviceId seqId : Z)
| CallRecoveryStartAck (pid deviceId seqId recoveryId result : Z).

(** A row of the handler tables: the request packet and the handler call. *)
Record handler := mkHandler {
  h_packet : packet;
  h_call : Z -> IPCPacketHeader -> fields (packet_fields h_packet) -> call
}.

(** [taskStaticConfigFromPacket] inside the row of [TaskInit]. *)
Definition task_init_call (h : IPCPacketHeader)
    (v : fields (packet_fields IPCPacketTaskInitRequest)) : call :=
  let '(taskId, (bound, (modelMemorySize, (mt, (mf, (cmds, (op, (cmd, (weight, (custom,
        (inp, (out, (last, (all, (d0, (d1, (d2, (base, _)))))))))))))))))) := v in
  CallTaskInit (pid h) (deviceId h) (seqId h) taskId bound modelMemorySize
    (mkConfig mt mf cmds op cmd weight custom inp out last all [d0; d1; d2] base).

Definition handler_of (t : IPCMessageType) : option handler :=
  match t with
  | AllocateBuffer =>
      Some (mkHandler IPCPacketRequestAllocateBuffer (fun fd h '(bufferSize, (taskId, (memoryType, _))) =>
        CallAllocate fd (pid h) (deviceId h) (seqId h) taskId bufferSize memoryType))
  | FreeBuffer =>
      Some (mkHandler IPCPacketRequestFreeBuffer (fun _ h '(bufferAddress, _) =>
        CallFreeBuffer (pid h) (deviceId h) (seqId h) bufferAddress))
  | InferenceRequest =>
      Some (mkHandler IPCPacketRequestInference (fun _ h '(taskId, (request, _)) =>
        CallInference (pid h) (deviceId h) taskId request))
  | DMAReadRequest =>
      Some (mkHandler IPCPacketDMAReadRequest (fun _ h '(blockId, (blockOffset, (size, _))) =>
        CallDMARead (pid h) (deviceId h) (seqId h) blockId blockOffset size))
  | DMAReadRequestWithFaultInjection =>
      Some (mkHandler IPCPacketDMAReadRequestWithFaultInjection
        (fun _ h '(blockId, (blockOffset, (size, _))) =>
           CallDMAReadWithFaultInjection (pid h) (deviceId h) (seqId h) blockId blockOffset size))
  | DMAWriteRequest =>
      Some (mkHandler IPCPacketDMAWriteRequest (fun _ h '(blockId, (blockOffset, (size, _))) =>
        CallDMAWrite (pid h) (deviceId h) (seqId h) blockId blockOffset size))
  | TaskInitRequest => Some (mkHandler IPCPacketTaskInitRequest (fun _ => task_init_call))
  | TaskDeInitRequest =>
      Some (mkHandler IPCPacketTaskDeInitRequest (fun _ h '(taskId, (bound, _)) =>
        CallTaskDeInit (pid h) (deviceId h) (seqId h) taskId bound))
  | ViewFreeMemoryRequestLegacy =>
      Some (mkHandler IPCPacketViewFreeMemoryRequestLegacy (fun _ h _ =>
        CallViewFreeMemoryLegacy (pid h) (deviceId h) (seqId h)))
  | ViewUsedMemoryRequestLegacy =>
      Some (mkHandler IPCPacketViewUsedMemoryRequestLegacy (fun _ h _ =>
        CallViewUsedMemoryLegacy (pid h) (deviceId h) (seqId h)))
  | GetUsageRequestLegacy =>
      Some (mkHandler IPCPacketGetUsageRequestLegacy (fun _ h '(channel, _) =>
        CallGetUsageLegacy (pid h) (deviceId h) (seqId h) channel))
  | GetDeviceTelemetryRequest =>
      Some (mkHandler IPCPacketGetDeviceTelemetryRequest (fun _ h _ =>
        CallGetDeviceTelemetry (pid h) (deviceId h) (seqId h)))
  | RecoveryStartAck =>
      Some (mkHandler IPCPacketRecoveryStartAck (fun _ h '(recoveryId, (res, _)) =>
        CallRecoveryStartAck (pid h) (deviceId h) (seqId h) recoveryId res))
  | _ => None
  end.

(** ** State *)

(** [IPCServerEndpoint]: the connected clients and the two maps between
    processes and clients. *)
Record server := mkServer {
  clients : gset Z;
  pidByClientFd : gmap Z Z;
  clientFdByPid : gmap Z Z;
  nextClientId : Z
}.

(** [IPCPacketHandlerRegistry]: which handlers are set. *)
Record registry := mkRegistry {
  handlers : IPCMessageType -> bool;
  onClientConnectedPid : bool;
  onClientDisconnectedPid : bool
}.

(** What the rest of the system sees, in order. *)
Inductive event :=
| Invoked (c : call)
| ConnectedPid (pid : Z)
| DisconnectedPid (pid : Z)
| Closed (clientFd : Z)
| Sent (clientFd : Z) (message : list Z) (fd : Z).

(** ** Connections *)

Definition new_server : server := mkServer ∅ ∅ ∅ 1.

(** [acceptNewClient]; [None] is the overflow of the counter. *)
Definition acceptNewClient (s : server) : option (Z * server) :=
  let clientFd := nextClientId s in
  if i32_ok (clientFd + 1) then
    Some (clientFd, mkServer ({[clientFd]} ∪ clients s) (pidByClientFd s) (clientFdByPid s)
                      (clientFd + 1))
  else None.

Definition bindPidToClient (pid clientFd : Z) (s : server) : server :=
  if (pid <=? 0) || (clientFd <? 0) then s
  else
    let pids1 :=
      match clientFdByPid s !! pid with
      | Some old => if old =? clientFd then pidByClientFd s else delete old (pidByClientFd s)
      | None => pidByClientFd s
      end in
    let fds1 :=
      match pids1 !! clientFd with
      | Some old => if old =? pid then clientFdByPid s else delete old (clientFdByPid s)
      | None => clientFdByPid s
      end in
    mkServer (clients s) (<[clientFd := pid]> pids1) (<[pid := clientFd]> fds1) (nextClientId s).

Definition getPidForClient (clientFd : Z) (s : server) : Z :=
  default 0 (pidByClientFd s !! clientFd).

Definition unbindClient (clientFd : Z) (s : server) : server :=
  match pidByClientFd s !! clientFd with
  | None => s
  | Some p => mkServer (clients s) (delete clientFd (pidByClientFd s))
                (delete p (clientFdByPid s)) (nextClientId s)
  end.

(** [onClientDisconnected] of the registry. *)
Definition onClientDisconnected (r : registry) (pid : Z) : list event :=
  if onClientDisconnectedPid r && (0 <? pid) then [DisconnectedPid pid] else [].

Definition removeClient (r : registry) (clientFd : Z) (s : server) : server * list event :=
  if negb (bool_decide (clientFd ∈ clients s)) then (s, [])
  else
    let s1 := mkServer (clients s ∖ {[clientFd]}) (pidByClientFd s) (clientFdByPid s)
                (nextClientId s) in
    (unbindClient clientFd s1,
     Closed clientFd :: onClientDisconnected r (getPidForClient clientFd s)).

Definition stop (s : server) : server * list event :=
  (mkServer ∅ ∅ ∅ 1, Closed <$> elements (clients s)).

(** ** Dispatching requests *)

Definition clearHandlers (r : registry) : registry :=
  mkRegistry (fun _ => false) (onClientConnectedPid r) (onClientDisconnectedPid r).

Definition hasHandler (r : registry) (t : IPCMessageType) : bool :=
  match handler_of t with Some _ => handlers r t | None => false end.

Definition setHandler (t : IPCMessageType) (set : bool) (r : registry) : registry :=
  mkRegistry (fun u => if bool_decide (u = t) then set else handlers r u)
    (onClientConnectedPid r) (onClientDisconnectedPid r).

Section Handle.
(** What the handlers of the service return. *)
Context (run : call -> Z).

(** [parseRequestPacket] with a payload that is never null. *)
Definition parseRequestPacket (p : packet) (payload : list Z) : result (fields (packet_fields p)) :=
  if negb (length payload =? sizeof p - sizeof_header)%nat then Error EMSGSIZE
  else Ok (read (packet_fields p) payload).

(** [handle##funcSuffix##Request] *)
Definition handle_request (r : registry) (t : IPCMessageType) (e : handler) (clientFd : Z)
    (h : IPCPacketHeader) (payload : list Z) : result Z * list event :=
  if negb (handlers r t) then (Error ENOSYS, [])
  else
    match parseRequestPacket (h_packet e) payload with
    | Error err => (Error err, [])
    | Ok v => let c := h_call e clientFd h v in (Ok (run c), [Invoked c])
    end.

(** The [switch] at the end of [handle]. *)
Definition dispatch (r : registry) (clientFd : Z) (h : IPCPacketHeader) (payload : list Z)
    : result Z * list event :=
  match type_of_value (type h) with
  | Some ClientHello => (Ok 0, [])
  | Some t =>
      match handler_of t with
      | Some e => handle_request r t e clientFd h payload
      | None => (Error ENOSYS, [])
      end
  | None => (Error ENOSYS, [])
  end.

Definition handle (r : registry) (clientFd : Z) (message : option (list Z)) (srv : option server)
    : result Z * option server * list event :=
  match message with
  | None => (Error EINVAL, srv, [])
  | Some m =>
      if (length m <? sizeof_header)%nat then (Error EMSGSIZE, srv, [])
      else
        let h := read_header m in
        if negb (isValidIPCPacketHeader h) then (Error EPROTO, srv, [])
        else
          let wasRegistered :=
            match srv with Some s => getPidForClient clientFd s =? 0 | None => false end in
          let srv' := bindPidToClient (pid h) clientFd <$> srv in
          let ev := if wasRegistered && onClientConnectedPid r then [ConnectedPid (pid h)] else [] in
          let payload := drop sizeof_header m in
          if negb (messageSize h =? Z.of_nat (length payload)) then (Error EMSGSIZE, srv', ev)
          else
            let '(rc, ev2) := dispatch r clientFd h payload in
            (rc, srv', ev ++ ev2)
  end.

(** A message of a connected client, whose failure drops the client. *)
Definition processReceivedClientMessage (r : registry) (clientFd : Z) (message : list Z)
    (s : server) : Z * server * list event :=
  if negb (bool_decide (clientFd ∈ clients s)) then (-1, s, [])
  else
    match handle r clientFd (Some message) (Some s) with
    | (rc, srv', ev) =>
        let s' := default s srv' in
        let failed := match rc with Ok z => z <? 0 | Error _ => true end in
        if failed then
          let '(s2, ev2) := removeClient r clientFd s' in
          (-1, s2, ev ++ ev2)
        else (0, s', ev)
    end.
End Handle.

(** ** Responses *)

Section Send.
(** [self] is the process of the service; [sendMessage] the channel of a client. *)
Context (self : Z) (sendMessage : Z -> list Z -> Z -> result Z).

(** [buildResponsePacket] *)
Definition response_header (p : packet) (t : IPCMessageType) (req : IPCPacketHeader)
    : IPCPacketHeader :=
  let h := initializeIPCPacket self p t (seqId req) 0 in
  mkHeader (magic h) (version h) (flags h) (type h) (messageSize h)
    (seqId req) (deviceId req) (pid req).

Definition assemblePacketImpl (p : packet) (t : IPCMessageType) (req : IPCPacketHeader)
    (v : fields (packet_fields p)) : list Z :=
  packet_bytes (response_header p t req) p v.

Definition makeRequestHeaderForResponse (pid deviceId seqId : Z) : IPCPacketHeader :=
  mkHeader 0 0 0 0 0 seqId deviceId pid.

Definition sendToClient (clientFd : Z) (m : list Z) (fd : Z) (s : server)
    : result Z * list event :=
  if negb (bool_decide (clientFd ∈ clients s)) then (Error ENOENT, [])
  else (sendMessage clientFd m fd, [Sent clientFd m fd]).

Definition sendToPid (pid : Z) (m : list Z) (fd : Z) (s : server) : result Z * list event :=
  match clientFdByPid s !! pid with
  | None => (Error ENOENT, [])
  | Some clientFd => sendToClient clientFd m fd s
  end.

(** [sendAssembledPacket] *)
Definition sendAssembledPacket (srv : option server) (pid : Z) (m : list Z) (fd : Z)
    : result Z * list event :=
  match srv with None => (Error EINVAL, []) | Some s => sendToPid pid m fd s end.

Definition buildAndSendPacketToPid (srv : option server) (pid deviceId seqId responseFd : Z)
    (assemble : IPCPacketHeader -> result (list Z)) : result Z * list event :=
  match assemble (makeRequestHeaderForResponse pid deviceId seqId) with
  | Error e => (Error e, [])
  | Ok m => sendAssembledPacket srv pid m responseFd
  end.

(** A response with a fixed layout. *)
Definition send_packet (p : packet) (t : IPCMessageType) (v : fields (packet_fields p))
    (responseFd : Z) (srv : option server) (pid deviceId seqId : Z) : result Z * list event :=
  buildAndSendPacketToPid srv pid deviceId seqId responseFd
    (fun req => Ok (assemblePacketImpl p t req v)).

(** On Linux the descriptor travels beside the packet, whose field is -1. *)
Definition kInvalidMemFDHandle : Z := -1.

Definition SendAllocResultPacket (srv : option server)
    (pid deviceId seqId res bufferAddress allocatedBufferSize blockId responseFd : Z) :=
  send_packet IPCPacketResponseAllocateBuffer AllocateBuffer
    (bufferAddress, (allocatedBufferSize, (res, (kInvalidMemFDHandle, (blockId, tt)))))
    (i32 responseFd) srv pid deviceId seqId.

Definition SendAllocResultPacketToClient (srv : option server) (clientFd : Z)
    (pid deviceId seqId res bufferAddress allocatedBufferSize blockId responseFd : Z)
    : result Z * list event :=
  let m := assemblePacketImpl IPCPacketResponseAllocateBuffer AllocateBuffer
             (makeRequestHeaderForResponse pid deviceId seqId)
             (bufferAddress, (allocatedBufferSize, (res, (kInvalidMemFDHandle, (blockId, tt))))) in
  match srv with
  | None => (Error EINVAL, [])
  | Some s => sendToClient clientFd m (i32 responseFd) s
  end.

Definition SendFreeBufferResultPacket (srv : option server) (pid deviceId seqId res : Z) :=
  send_packet IPCPacketResponseFreeBuffer FreeBuffer (res, tt) (-1) srv pid deviceId seqId.

Definition SendInferenceResultPacket (srv : option server) (pid deviceId seqId res : Z)
    (inferenceResponse : list Z) :=
  send_packet IPCPacketResponseInference InferenceResponse (res, (inferenceResponse, tt)) (-1)
    srv pid deviceId seqId.

Definition SendDMAReadResultPacket (srv : option server) (pid deviceId seqId res : Z) :=
  send_packet IPCPacketDMAReadResponse DMAReadResponse (res, tt) (-1) srv pid deviceId seqId.

Definition SendDMAWriteResultPacket (srv : option server) (pid deviceId seqId res : Z) :=
  send_packet IPCPacketDMAWriteResponse DMAWriteResponse (res, tt) (-1) srv pid deviceId seqId.

Definition SendTaskInitResultPacket (srv : option server) (pid deviceId seqId res : Z) :=
  send_packet IPCPacketTaskInitResponse TaskInitResponse (res, tt) (-1) srv pid deviceId seqId.

Definition SendTaskDeInitResultPacket (srv : option server) (pid deviceId seqId res : Z) :=
  send_packet IPCPacketTaskDeInitResponse TaskDeInitResponse (res, tt) (-1) srv pid deviceId seqId.

Definition SendViewFreeMemoryLegacyResultPacket (srv : option server)
    (pid deviceId seqId res nbytes : Z) :=
  send_packet IPCPacketViewFreeMemoryResponseLegacy ViewFreeMemoryResponseLegacy
    (res, (nbytes, tt)) (-1) srv pid deviceId seqId.

Definition SendViewUsedMemoryLegacyResultPacket (srv : option server)
    (pid deviceId seqId res nbytes : Z) :=
  send_packet IPCPacketViewUsedMemoryResponseLegacy ViewUsedMemoryResponseLegacy
    (res, (nbytes, tt)) (-1) srv pid deviceId seqId.

Definition SendGetUsageLegacyResultPacket (srv : option server) (pid deviceId seqId res : Z)
    (usage : list Z) :=
  send_packet IPCPacketGetUsageResponseLegacy GetUsageResponseLegacy (res, (usage, tt)) (-1)
    srv pid deviceId seqId.

Definition SendGetDeviceTelemetryResultPacket (srv : option server) (pid deviceId seqId : Z)
    (telemetry : IPCDeviceTelemetryPayload) : result Z * list event :=
  buildAndSendPacketToPid srv pid deviceId seqId (-1)
    (fun req => serializeIPCDeviceTelemetryResponsePacket self req telemetry).

Definition SendRecoveryStartNotificationPacket (srv : option server)
    (pid deviceId seqId recoveryId : Z) :=
  send_packet IPCPacketRecoveryStartNotification RecoveryStartNotification (recoveryId, tt) (-1)
    srv pid deviceId seqId.

Definition SendRecoverySuccessNotificationPacket (srv : option server)
    (pid deviceId seqId recoveryId : Z) :=
  send_packet IPCPacketRecoverySuccessNotification RecoverySuccessNotification (recoveryId, tt) (-1)
    srv pid deviceId seqId.

Definition SendRecoveryFailNotificationPacket (srv : option server)
    (pid deviceId seqId recoveryId : Z) :=
  send_packet IPCPacketRecoveryFailNotification RecoveryFailNotification (recoveryId, tt) (-1)
    srv pid deviceId seqId.
End Send.

End IpcServer.
