(* ===== verification/IpcClient.v ===== *)
(** * Dynamic IPC: the client side

    [lib/dynamic_ipc/protocol/ipc_packet_client.cpp]: the requests of an
    application to the service, the checks on the response, and the dispatch of
    notifications.  [IPCClientEndpoint], which assigns the sequence number of a
    message, sends it and waits for the message with that number, is the
    interface [Transport]. *)

From Stdlib Require Import ZArith Lia.
From S2P Require Import Prelude IpcPacket IpcServer.

Module IpcClient.
Import IpcPacket IpcServer.

(** [IPCClientReceivedMessage] *)
Record received := mkReceived { r_data : list Z; r_fd : Z }.

(** [IPCClientEndpoint]: the message is given by the function from the sequence
    number the endpoint chooses to the bytes sent.  [sendMessageSync] returns the
    number and the response; [sendMessageAsync] the number alone. *)
Class Transport := {
  sendMessageSync : (Z -> list Z) -> Z -> result (Z * received);
  sendMessageAsync : (Z -> list Z) -> Z -> result Z
}.

Section Client.
Context `{Transport}.
(** [getCurrentIPCPacketPid()] *)
Context (self : Z).

(** The bytes of a request once its sequence number is set. *)
Definition request_bytes (p : packet) (t : IPCMessageType) (deviceId : Z)
    (v : fields (packet_fields p)) (seq : Z) : list Z :=
  packet_bytes (set_seqId (set_deviceId (initializeIPCPacket self p t 0 0) deviceId) seq) p v.

(** The value returned and the descriptor received, if the call got that far. *)
Definition sendRequestAndWaitForResponseBytes (p : packet) (v : fields (packet_fields p))
    (requestType : IPCMessageType) (deviceId requestFd : Z) : result received :=
  match tryGetIPCResponseMessageType requestType with
  | None => Error EINVAL
  | Some responseType =>
      if kIPCMaxMessageSize <? Z.of_nat (sizeof p) then Error EMSGSIZE
      else
        bind (sendMessageSync (request_bytes p requestType deviceId v) requestFd)
          (fun '(sequenceId, response) =>
             let size := length (r_data response) in
             if kIPCMaxMessageSize <? Z.of_nat size then Error EMSGSIZE
             else if (size <? sizeof_header)%nat then Error EMSGSIZE
             else
               let h := read_header (r_data response) in
               if negb (isValidIPCPacketHeader h) then Error EPROTO
               else if negb (type h =? type_value responseType) || negb (seqId h =? sequenceId)
                    then Error EPROTO
               else Ok response)
  end.

(** The header and fields of a response, and the descriptor that came with it. *)
Definition sendRequestAndWaitForResponse (p : packet) (v : fields (packet_fields p))
    (requestType : IPCMessageType) (resp : packet) (deviceId requestFd : Z)
    : result (IPCPacketHeader * fields (packet_fields resp) * Z) :=
  bind (sendRequestAndWaitForResponseBytes p v requestType deviceId requestFd)
    (fun response =>
       if negb (length (r_data response) =? sizeof resp)%nat then Error EMSGSIZE
       else Ok (read_header (r_data response),
                read (packet_fields resp) (drop sizeof_header (r_data response)),
                r_fd response)).

(** ** Requests *)

Record AllocateResult := mkAllocateResult {
  a_result : Z; a_bufferAddress : Z; a_bufferSize : Z; a_blockId : Z; a_deviceId : Z
}.

Definition Allocate (deviceId bufferSize taskId memoryType : Z) : result (AllocateResult * Z) :=
  bind (sendRequestAndWaitForResponse IPCPacketRequestAllocateBuffer
          (bufferSize, (taskId, (memoryType, tt))) AllocateBuffer
          IPCPacketResponseAllocateBuffer deviceId (-1))
    (fun '(h, v, received_fd) =>
       let '(bufferAddress, (size, (res, (fd, (blockId, _))))) := v in
       Ok (mkAllocateResult res bufferAddress size blockId (IpcPacket.deviceId h),
           if fd =? kInvalidMemFDHandle then received_fd else fd)).

(** A request whose response is a result code. *)
Definition result_request (p : packet) (v : fields (packet_fields p)) (t : IPCMessageType)
    (resp : packet) (code : fields (packet_fields resp) -> Z) (deviceId : Z) : result Z :=
  bind (sendRequestAndWaitForResponse p v t resp deviceId (-1)) (fun r => Ok (code r.1.2)).

Definition Deallocate (deviceId bufferAddress : Z) : result Z :=
  result_request IPCPacketRequestFreeBuffer (bufferAddress, tt) FreeBuffer
    IPCPacketResponseFreeBuffer fst deviceId.

Record InferenceResult := mkInferenceResult {
  i_result : Z; i_response : list Z; i_deviceId : Z
}.

Definition InferenceRequest (deviceId taskId : Z) (requestData : list Z) : result InferenceResult :=
  bind (sendRequestAndWaitForResponse IPCPacketRequestInference (taskId, (requestData, tt))
          IpcPacket.InferenceRequest IPCPacketResponseInference deviceId (-1))
    (fun '(h, v, _) =>
       let '(res, (response, _)) := v in
       Ok (mkInferenceResult res response (IpcPacket.deviceId h))).

Definition InferenceRequestAsync (deviceId taskId : Z) (requestData : list Z) : result Z :=
  bind (sendMessageAsync (request_bytes IPCPacketRequestInference IpcPacket.InferenceRequest deviceId
          (taskId, (requestData, tt))) (-1))
    (fun sequenceId => Ok 0).

Definition DMARead (deviceId blockId blockOffset size : Z) : result Z :=
  result_request IPCPacketDMAReadRequest (blockId, (blockOffset, (size, tt))) DMAReadRequest
    IPCPacketDMAReadResponse fst deviceId.

Definition DMAWrite (deviceId blockId blockOffset size : Z) : result Z :=
  result_request IPCPacketDMAWriteRequest (blockId, (blockOffset, (size, tt))) DMAWriteRequest
    IPCPacketDMAWriteResponse fst deviceId.

Definition DMAReadWithFaultInjection (deviceId blockId blockOffset size : Z) : result Z :=
  result_request IPCPacketDMAReadRequestWithFaultInjection (blockId, (blockOffset, (size, tt)))
    DMAReadRequestWithFaultInjection IPCPacketDMAReadResponse fst deviceId.

(** The fields of a [TaskStaticConfig] in the order of the packet; [None] when the
    array does not have [MAX_CHECKPOINT_COUNT] elements. *)
Definition task_init_values (taskId bound modelMemorySize : Z) (c : TaskStaticConfig)
    : option (fields (packet_fields IPCPacketTaskInitRequest)) :=
  match datas c with
  | [d0; d1; d2] =>
      Some (taskId, (bound, (modelMemorySize, (model_type c, (model_format c, (model_cmds c,
        (op_mode c, (cmd_offset c, (weight_offset c, (custom_offset c, (input_size c,
        (output_size c, (last_output_offset c, (output_all_offset c,
        (d0, (d1, (d2, (memory_base c, tt))))))))))))))))))
  | _ => None
  end.

Definition TaskInit (deviceId taskId bound modelMemorySize : Z) (c : TaskStaticConfig)
    : option (result Z) :=
  v ← task_init_values taskId bound modelMemorySize c;
  mret (result_request IPCPacketTaskInitRequest v TaskInitRequest
          IPCPacketTaskInitResponse fst deviceId).

Definition TaskDeInit (deviceId taskId bound : Z) : result Z :=
  result_request IPCPacketTaskDeInitRequest (taskId, (bound, tt)) TaskDeInitRequest
    IPCPacketTaskDeInitResponse fst deviceId.

(** A result code and the value of an output argument. *)
Definition value_request {A} (p : packet) (v : fields (packet_fields p)) (t : IPCMessageType)
    (resp : packet) (out : fields (packet_fields resp) -> Z * A) (deviceId : Z) : result (Z * A) :=
  bind (sendRequestAndWaitForResponse p v t resp deviceId (-1)) (fun r => Ok (out r.1.2)).

Definition ViewFreeMemoryLegacy (deviceId : Z) : result (Z * Z) :=
  value_request IPCPacketViewFreeMemoryRequestLegacy tt ViewFreeMemoryRequestLegacy
    IPCPacketViewFreeMemoryResponseLegacy (fun '(res, (b, _)) => (res, b)) deviceId.

Definition ViewUsedMemoryLegacy (deviceId : Z) : result (Z * Z) :=
  value_request IPCPacketViewUsedMemoryRequestLegacy tt ViewUsedMemoryRequestLegacy
    IPCPacketViewUsedMemoryResponseLegacy (fun '(res, (b, _)) => (res, b)) deviceId.

Definition GetUsageLegacy (deviceId channel : Z) : result (Z * list Z) :=
  value_request IPCPacketGetUsageRequestLegacy (channel, tt) GetUsageRequestLegacy
    IPCPacketGetUsageResponseLegacy (fun '(res, (usage, _)) => (res, usage)) deviceId.

(** [DeviceTelemetryResult]: the cores, and the first four of them in the arrays
    of fixed size. *)
Record DeviceTelemetryResult := mkTelemetryResult {
  d_payload : IPCDeviceTelemetryPayload; d_coreCount : Z;
  d_utilization : list Z; d_temperature : list Z; d_clock : list Z; d_voltage : list Z
}.

Definition legacy (get : IPCDeviceTelemetryCoreData -> Z) (l : list IPCDeviceTelemetryCoreData)
    : list Z :=
  (get <$> take 4 l) ++ replicate (4 - length l) 0.

Definition GetDeviceTelemetry (deviceId : Z) : result DeviceTelemetryResult :=
  bind (sendRequestAndWaitForResponseBytes IPCPacketGetDeviceTelemetryRequest tt
          GetDeviceTelemetryRequest deviceId (-1))
    (fun response =>
       bind (deserializeIPCDeviceTelemetryResponsePacket (r_data response)).2
         (fun t =>
            Ok (mkTelemetryResult t (u32 (Z.of_nat (length (cores t))))
                  (legacy utilizationPermille (cores t)) (legacy temperature (cores t))
                  (legacy clock (cores t)) (legacy voltage (cores t))))).

Definition sendRecoveryStartAck (deviceId recoveryId res : Z) : result Z :=
  bind (sendMessageAsync (request_bytes IPCPacketRecoveryStartAck RecoveryStartAck deviceId
          (recoveryId, (res, tt))) (-1))
    (fun sequenceId => Ok 0).
End Client.

(** ** Notifications *)

Inductive notification :=
| Throttle (deviceId : Z) (throtInfo : list Z)
| ErrorInfo (deviceId serverErr : Z) (errorInfo : list Z)
| Inference (r : InferenceResult)
| RecoveryStart (deviceId recoveryId : Z).

(** Which notification handlers are set. *)
Record callbacks := mkCallbacks {
  throttleHandler : bool; errorHandler : bool; inferenceHandler : bool; recoveryHandler : bool
}.

(** The payload of a notification, when it has the size of its packet. *)
Definition notification_fields (p : packet) (payload : list Z) : result (fields (packet_fields p)) :=
  if negb (length payload =? sizeof p - sizeof_header)%nat then Error EMSGSIZE
  else Ok (read (packet_fields p) payload).

(** Whether the packet was dispatched, the return code and the callback made;
    [run] is what the callbacks of the application return. *)
Definition dispatchIncomingPacket (run : notification -> Z) (cb : callbacks)
    (message : option (list Z)) : bool * result (Z * list notification) :=
  match message with
  | None => (false, Error EINVAL)
  | Some m =>
      if (length m <? sizeof_header)%nat then (false, Error EMSGSIZE)
      else
        let h := read_header m in
        let payload := drop sizeof_header m in
        let deviceId := IpcPacket.deviceId h in
        if negb (isValidIPCPacketHeader h) then (false, Error EPROTO)
        else if negb (messageSize h =? Z.of_nat (length payload)) then (false, Error EMSGSIZE)
        else
          let call n := Ok (run n, [n]) in
          match type_of_value (type h) with
          | Some ThrottleNotification =>
              if negb (throttleHandler cb) then (false, Ok (0, []))
              else (true, bind (notification_fields IPCPacketThrottleNotification payload)
                            (fun v => call (Throttle deviceId v.1)))
          | Some ErrorNotification =>
              if negb (errorHandler cb) then (false, Ok (0, []))
              else (true, bind (notification_fields IPCPacketErrorNotification payload)
                            (fun v => call (ErrorInfo deviceId v.1 v.2.1)))
          | Some InferenceResponse =>
              if negb (inferenceHandler cb) then (false, Ok (0, []))
              else (true, bind (notification_fields IPCPacketResponseInference payload)
                            (fun v => call (Inference (mkInferenceResult v.1 v.2.1 deviceId))))
          | Some RecoveryStartNotification =>
              (true, bind (notification_fields IPCPacketRecoveryStartNotification payload)
                       (fun v => Ok (0, if recoveryHandler cb then [RecoveryStart deviceId v.1]
                                        else [])))
          | _ => (false, Ok (0, []))
          end
  end.

End IpcClient.
