(* ===== verification/IpcSpec.v ===== *)
(** * Dynamic IPC: lemmas

    The headers both sides build, what [handle] does with any message, the
    connection maps, the telemetry arrays and the sequence counter. *)

From Stdlib Require Import ZArith Lia.
From S2P Require Import Prelude IpcPacket IpcCodec IpcServer IpcClient.
Import IpcPacket IpcServer IpcClient.

(** ** Sizes *)

Lemma payload_size p : u32 (Z.of_nat (sizeof p - sizeof_header)) = Z.of_nat (fields_size (packet_fields p)).
Proof. by destruct p. Qed.

Lemma payload_length p : (sizeof p - sizeof_header = fields_size (packet_fields p))%nat.
Proof. unfold sizeof. lia. Qed.

Lemma sizeof_small p : Z.of_nat (sizeof p) <= 1024 /\ (sizeof_header <= sizeof p)%nat.
Proof. split; [by destruct p|unfold sizeof; lia]. Qed.

Lemma payload_small p : 0 <= Z.of_nat (fields_size (packet_fields p)) < 2 ^ 32.
Proof. by destruct p. Qed.

Lemma type_value_range t : 0 <= type_value t < 2 ^ 32.
Proof. by destruct t. Qed.

(** ** Headers *)

(** Process and sequence numbers. *)
Definition positive32 (z : Z) : Prop := 0 < z < 2 ^ 31.
Definition int32 (z : Z) : Prop := - 2 ^ 31 <= z < 2 ^ 31.

Lemma positive_int32 z : positive32 z -> int32 z.
Proof. unfold positive32, int32. lia. Qed.

(** The header of a packet of type [t]. *)
Definition header_for (p : packet) (t : IPCMessageType) (seq dev pid : Z) : IPCPacketHeader :=
  mkHeader kIPCPacketMagic kIPCPacketWireVersion 0 (type_value t)
    (Z.of_nat (fields_size (packet_fields p))) seq dev pid.

Lemma request_bytes_header self p t dev v seq :
  request_bytes self p t dev v seq = packet_bytes (header_for p t seq dev self) p v.
Proof.
  unfold request_bytes, initializeIPCPacket, initializeIPCPacketHeader, header_for, set_seqId, set_deviceId.
  rewrite payload_size. reflexivity.
Qed.

Lemma assemble_header self p t pid dev seq v :
  assemblePacketImpl self p t (makeRequestHeaderForResponse pid dev seq) v =
  packet_bytes (header_for p t seq dev pid) p v.
Proof.
  unfold assemblePacketImpl, response_header, initializeIPCPacket, initializeIPCPacketHeader, header_for.
  rewrite payload_size. reflexivity.
Qed.

Lemma header_for_ok p t seq dev pid :
  int32 seq -> int32 dev -> int32 pid -> header_ok (header_for p t seq dev pid).
Proof.
  intros Hs Hd Hp. pose proof (payload_small p). pose proof (type_value_range t).
  unfold int32 in *. unfold header_ok, header_for, header_values, header_fields, fields_ok, field_ok,
    kIPCPacketMagic, kIPCPacketWireVersion. simpl.
  change (bits 4) with 32. change (bits 2) with 16. change (32 - 1) with 31. lia.
Qed.

Lemma header_for_valid p t seq dev pid :
  0 <= seq -> isValidIPCPacketHeader (header_for p t seq dev pid) = true.
Proof. intros Hs. apply valid_header_iff. split_and!; try done. by exists t. Qed.

(** ** [handle] *)

Lemma handle_valid run r fd srv h p v :
  header_ok h -> isValidIPCPacketHeader h = true ->
  messageSize h = Z.of_nat (fields_size (packet_fields p)) -> fields_ok (packet_fields p) v ->
  handle run r fd (Some (packet_bytes h p v)) srv =
  let new := match srv with Some s => getPidForClient fd s =? 0 | None => false end in
  let ev := if new && onClientConnectedPid r then [ConnectedPid (pid h)] else [] in
  let '(rc, ev2) := dispatch run r fd h (write (packet_fields p) v) in
  (rc, bindPidToClient (pid h) fd <$> srv, ev ++ ev2).
Proof.
  intros Hh Hv Hs Hf. destruct (read_packet h p v Hh Hf) as (E1 & _ & E2 & E3).
  pose proof (sizeof_small p) as [_ HS]. unfold handle. rewrite E1, E2, E3.
  rewrite (proj2 (Nat.ltb_ge _ _)) by done. rewrite Hv. cbn [negb].
  rewrite (length_write (packet_fields p) v Hf), Hs, Z.eqb_refl. done.
Qed.

Lemma dispatch_request run r fd h t e v :
  handler_of t = Some e -> handlers r t = true -> type h = type_value t ->
  fields_ok (packet_fields (h_packet e)) v ->
  dispatch run r fd h (write (packet_fields (h_packet e)) v) =
  (Ok (run (h_call e fd h v)), [Invoked (h_call e fd h v)]).
Proof.
  intros He Hr Ht Hf. unfold dispatch. rewrite Ht, type_of_type_value.
  assert (forall A (x y : A), match t with ClientHello => x | _ => y end = y) as _ by (by destruct t).
  assert (handle_request run r t e fd h (write (packet_fields (h_packet e)) v) =
          (Ok (run (h_call e fd h v)), [Invoked (h_call e fd h v)])) as E.
  { unfold handle_request. rewrite Hr. cbn [negb]. unfold parseRequestPacket.
    rewrite length_write, payload_length, Nat.eqb_refl by done. cbn [negb].
    pose proof (read_write (packet_fields (h_packet e)) v [] (packet_wf _) Hf) as E.
    rewrite app_nil_r in E. by rewrite E. }
  rewrite He. destruct t; try exact E; discriminate.
Qed.

Lemma dispatch_invokes run r fd h payload rc ev c :
  bytes payload -> dispatch run r fd h payload = (rc, ev) -> Invoked c ∈ ev ->
  exists t e v, handler_of t = Some e /\ handlers r t = true /\ type h = type_value t /\
    length payload = fields_size (packet_fields (h_packet e)) /\
    v = read (packet_fields (h_packet e)) payload /\
    c = h_call e fd h v /\ rc = Ok (run c) /\ ev = [Invoked c].
Proof.
  intros Hb. unfold dispatch. destruct (type_of_value (type h)) as [t|] eqn:Et.
  2:{ intros [= <- <-] Hin. by apply elem_of_nil in Hin. }
  apply type_of_value_Some in Et.
  assert (match handler_of t with Some e => handle_request run r t e fd h payload
          | None => (Error ENOSYS, []) end = (rc, ev) -> Invoked c ∈ ev ->
    exists t e v, handler_of t = Some e /\ handlers r t = true /\ type h = type_value t /\
    length payload = fields_size (packet_fields (h_packet e)) /\
    v = read (packet_fields (h_packet e)) payload /\
    c = h_call e fd h v /\ rc = Ok (run c) /\ ev = [Invoked c]) as HD.
  { destruct (handler_of t) as [e|] eqn:He; [|intros [= <- <-] Hin; by apply elem_of_nil in Hin].
    unfold handle_request, parseRequestPacket. rewrite payload_length.
    destruct (handlers r t) eqn:Hr; simpl; [|intros [= <- <-] Hin; by apply elem_of_nil in Hin].
    destruct (Nat.eqb_spec (length payload) (fields_size (packet_fields (h_packet e)))) as [HL|HL];
      simpl; [|intros [= <- <-] Hin; by apply elem_of_nil in Hin].
    intros [= <- <-] Hin. apply list_elem_of_singleton in Hin. injection Hin as ->.
    eexists t, e, _. done. }
  destruct t; try exact HD. intros [= <- <-] Hin. by apply elem_of_nil in Hin.
Qed.

(** ** Connections *)

Record bindings_ok (s : server) : Prop := {
  b_inverse : forall p f, clientFdByPid s !! p = Some f <-> pidByClientFd s !! f = Some p;
  b_connected : forall p f, clientFdByPid s !! p = Some f -> f ∈ clients s /\ 0 < p;
  b_fresh : forall f, f ∈ clients s -> 0 < f < nextClientId s;
  b_next : 0 < nextClientId s
}.

Lemma new_server_ok : bindings_ok new_server.
Proof. split; simpl; try done; intros; set_solver. Qed.

Lemma accept_ok s f s' : bindings_ok s -> acceptNewClient s = Some (f, s') -> bindings_ok s'.
Proof.
  intros [I C F N]. unfold acceptNewClient. destruct (i32_ok _); [|done]. intros [= <- <-].
  split; simpl; [done| | |lia].
  - intros p f Hp. destruct (C p f Hp). set_solver.
  - intros f [->%elem_of_singleton|Hf]%elem_of_union; [lia|]. specialize (F f Hf). lia.
Qed.

(** What [bindPidToClient] does to the map from processes to clients. *)
Lemma bind_lookup s p f q :
  bindings_ok s -> 0 < p -> 0 <= f ->
  clientFdByPid (bindPidToClient p f s) !! q =
  if decide (q = p) then Some f
  else if decide (clientFdByPid s !! q = Some f) then None else clientFdByPid s !! q.
Proof.
  intros [I C F N] Hp Hf. unfold bindPidToClient.
  rewrite (proj2 (Z.leb_gt p 0)), (proj2 (Z.ltb_ge f 0)) by done. cbn [orb clientFdByPid].
  destruct (decide (q = p)) as [->|Hqp]; [by rewrite lookup_insert_eq|].
  rewrite lookup_insert_ne by done.
  set (pids1 := match clientFdByPid s !! p with Some _ => _ | None => _ end).
  assert (pids1 !! f = pidByClientFd s !! f) as ->.
  { unfold pids1. clear pids1. destruct (clientFdByPid s !! p) as [old|]; [|done].
    destruct (Z.eqb_spec old f) as [->|Hne]; [done|]. by rewrite lookup_delete_ne. }
  destruct (pidByClientFd s !! f) as [old|] eqn:Eold.
  - apply I in Eold. destruct (Z.eqb_spec old p) as [->|Hne].
    + destruct (decide (clientFdByPid s !! q = Some f)) as [E|]; [|done].
      apply I in E. apply I in Eold. congruence.
    + destruct (decide (q = old)) as [->|Hqo].
      * rewrite lookup_delete_eq. by destruct (decide _).
      * rewrite lookup_delete_ne by done.
        destruct (decide (clientFdByPid s !! q = Some f)) as [E|]; [|done].
        apply I in E. apply I in Eold. congruence.
  - destruct (decide (clientFdByPid s !! q = Some f)) as [E|]; [|done].
    apply I in E. congruence.
Qed.

Lemma bind_lookup_fd s p f g :
  bindings_ok s -> 0 < p -> 0 <= f ->
  pidByClientFd (bindPidToClient p f s) !! g =
  if decide (g = f) then Some p
  else if decide (clientFdByPid s !! p = Some g) then None else pidByClientFd s !! g.
Proof.
  intros _ Hp Hf. unfold bindPidToClient.
  rewrite (proj2 (Z.leb_gt p 0)), (proj2 (Z.ltb_ge f 0)) by done. cbn [orb pidByClientFd].
  destruct (decide (g = f)) as [->|Hgf]; [by rewrite lookup_insert_eq|].
  rewrite lookup_insert_ne by done.
  destruct (clientFdByPid s !! p) as [old|].
  - destruct (Z.eqb_spec old f) as [->|Hne].
    + destruct (decide (Some f = Some g)); [congruence|done].
    + destruct (decide (g = old)) as [->|Hgo].
      * rewrite lookup_delete_eq. by destruct (decide _).
      * rewrite lookup_delete_ne by done. destruct (decide _); [congruence|done].
  - destruct (decide _); [congruence|done].
Qed.

Lemma bind_ok s p f : bindings_ok s -> f ∈ clients s -> bindings_ok (bindPidToClient p f s).
Proof.
  intros HI Hin. pose proof HI as [I C F N]. pose proof (F f Hin) as Hf.
  destruct (decide (0 < p)) as [Hp|Hp].
  2:{ unfold bindPidToClient. by rewrite (proj2 (Z.leb_le p 0)) by lia. }
  split.
  - intros q g. rewrite bind_lookup, bind_lookup_fd by (done || lia).
    destruct (decide (q = p)) as [->|Hqp], (decide (g = f)) as [->|Hgf].
    + done.
    + destruct (decide _) as [|Hn]; split; try congruence. intros E%I. congruence.
    + destruct (decide _); split; congruence.
    + destruct (decide (clientFdByPid s !! q = Some f)) as [E|];
        destruct (decide (clientFdByPid s !! p = Some g)) as [E'|]; try done.
      * split; [done|]. intros E2%I. congruence.
      * split; [|done]. intros E2%I. apply I in E'. congruence.
  - intros q g. rewrite bind_lookup by (done || lia).
    assert (clients (bindPidToClient p f s) = clients s) as ->.
    { unfold bindPidToClient. by destruct (_ || _). }
    destruct (decide (q = p)) as [->|]; [by intros [= <-]|]. destruct (decide _); [done|]. apply C.
  - unfold bindPidToClient. by destruct (_ || _).
  - unfold bindPidToClient. by destruct (_ || _).
Qed.

Lemma remove_ok r f s : bindings_ok s -> bindings_ok (removeClient r f s).1.
Proof.
  intros HI. pose proof HI as [I C F N]. unfold removeClient.
  destruct (bool_decide (f ∈ clients s)) eqn:Hin; simpl; [|done].
  unfold unbindClient. simpl. destruct (pidByClientFd s !! f) as [p|] eqn:Ep; split; simpl.
  - intros q g. destruct (decide (q = p)) as [->|Hq].
    + rewrite lookup_delete_eq. split; [done|]. intros E. apply lookup_delete_Some in E as [Hne E].
      apply I in E. apply I in Ep. congruence.
    + rewrite lookup_delete_ne by done. destruct (decide (g = f)) as [->|Hg].
      * rewrite lookup_delete_eq. split; [|done]. intros E%I. congruence.
      * rewrite lookup_delete_ne by done. apply I.
  - intros q g [Hq E]%lookup_delete_Some. destruct (C q g E) as [Hg Hq0]. split; [|done].
    apply elem_of_difference. split; [done|]. intros ->%elem_of_singleton. apply I in E. congruence.
  - intros g [Hg _]%elem_of_difference. by apply F.
  - done.
  - done.
  - intros q g E. destruct (C q g E) as [Hg Hq0]. split; [|done].
    apply elem_of_difference. split; [done|]. intros ->%elem_of_singleton. apply I in E. congruence.
  - intros g [Hg _]%elem_of_difference. by apply F.
  - done.
Qed.

(** [handle] changes the connections only by binding the sender. *)
Lemma handle_server run r f m s :
  (handle run r f (Some m) (Some s)).1.2 = Some s \/
  (handle run r f (Some m) (Some s)).1.2 = Some (bindPidToClient (pid (read_header m)) f s).
Proof.
  unfold handle. destruct (_ <? _)%nat; [by left|]. destruct (negb _); [by left|].
  destruct (negb _); [by right|]. destruct (dispatch _ _ _ _ _). by right.
Qed.

Lemma handle_ok_server run r f m s rc srv ev :
  handle run r f (Some m) (Some s) = (Ok rc, srv, ev) ->
  srv = Some (bindPidToClient (pid (read_header m)) f s).
Proof.
  unfold handle. destruct (_ <? _)%nat; [done|]. destruct (negb _); [done|].
  destruct (negb _); [done|]. destruct (dispatch _ _ _ _ _). by intros [= _ <- _].
Qed.

Lemma process_ok run r f m s :
  bindings_ok s -> bindings_ok (processReceivedClientMessage run r f m s).1.2.
Proof.
  intros HI. unfold processReceivedClientMessage.
  destruct (bool_decide (f ∈ clients s)) eqn:Hin; cbn [negb]; [|done].
  apply bool_decide_eq_true_1 in Hin.
  assert (bindings_ok (default s (handle run r f (Some m) (Some s)).1.2)) as H1.
  { destruct (handle_server run r f m s) as [-> | ->]; simpl; [done|]. by apply bind_ok. }
  destruct (handle run r f (Some m) (Some s)) as [[rc srv'] ev]. cbn [fst snd] in H1.
  destruct (match rc with Ok z => z <? 0 | Error _ => true end); [|done].
  pose proof (remove_ok r f (default s srv') H1) as H2.
  by destruct (removeClient r f (default s srv')) as [s2 ev2].
Qed.

(** ** Telemetry *)

Definition core_ok (c : IPCDeviceTelemetryCoreData) : Prop :=
  0 <= utilizationPermille c < 2 ^ 32 /\ int32 (temperature c) /\
  0 <= clock c < 2 ^ 32 /\ 0 <= voltage c < 2 ^ 32.

Lemma length_array {A} (get : A -> Z) l : length (c ← l; put_le 4 (get c)) = (4 * length l)%nat.
Proof.
  induction l as [|x l IH]; [done|]. rewrite bind_cons, length_app, length_put_le, IH. simpl. lia.
Qed.

Lemma read_array_spec {A} (get : A -> Z) l rest :
  read_array (length l) ((c ← l; put_le 4 (get c)) ++ rest) =
  ((fun c => get c mod 2 ^ 32) <$> l, rest).
Proof.
  induction l as [|x l IH]; [done|]. rewrite bind_cons, <- app_assoc. cbn [length read_array].
  rewrite drop_app_length' by (by rewrite length_put_le). rewrite IH. rewrite take_app_length' by (by rewrite length_put_le).
  rewrite get_put_le. done.
Qed.

Lemma make_cores_spec l :
  Forall core_ok l ->
  make_cores ((fun c => utilizationPermille c mod 2 ^ 32) <$> l)
    ((fun c => temperature c mod 2 ^ 32) <$> l) ((fun c => clock c mod 2 ^ 32) <$> l)
    ((fun c => voltage c mod 2 ^ 32) <$> l) = l.
Proof.
  induction 1 as [|c l (Hu & Ht & Hc & Hv) Hl IH]; [done|]. rewrite !fmap_cons. cbn [make_cores]. rewrite IH.
  rewrite (Z.mod_small (utilizationPermille c)), (Z.mod_small (clock c)),
    (Z.mod_small (voltage c)) by done.
  change (temperature c mod 2 ^ 32) with (uwrap 32 (temperature c)).
  rewrite swrap_uwrap by lia. rewrite swrap_small by (unfold int32 in Ht; lia). by destruct c.
Qed.

Lemma telemetry_size_small n : 0 <= n < 2 ^ 40 -> telemetry_size n = 52 + 16 * n.
Proof.
  intros Hn. unfold telemetry_size.
  change (Z.of_nat (sizeof IPCPacketGetDeviceTelemetryResponse)) with 52.
  rewrite uwrap_small; lia.
Qed.

(** The header the service puts before the telemetry of [n] cores. *)
Definition telemetry_header (self : Z) (req : IPCPacketHeader) (n : Z) : IPCPacketHeader :=
  set_deviceId
    (initializeIPCPacketHeader self GetDeviceTelemetryResponse
       (u32 (52 + 16 * n - Z.of_nat sizeof_header)) (seqId req) (pid req) kIPCPacketWireVersion)
    (deviceId req).

Lemma telemetry_header_size self req n :
  0 <= n < 2 ^ 27 -> messageSize (telemetry_header self req n) = 24 + 16 * n.
Proof.
  intros Hn. unfold telemetry_header, set_deviceId, initializeIPCPacketHeader. cbn [messageSize].
  change (Z.of_nat sizeof_header) with 28. rewrite uwrap_small; lia.
Qed.

Lemma telemetry_header_ok self req n :
  positive32 self -> int32 (pid req) -> int32 (deviceId req) -> 0 <= seqId req < 2 ^ 31 ->
  0 <= n < 2 ^ 27 -> header_ok (telemetry_header self req n).
Proof.
  intros Hself Hpid Hdev Hseq Hn. pose proof (telemetry_header_size self req n Hn) as Hms.
  assert (int32 (pid (telemetry_header self req n))) as [Hp1 Hp2].
  { unfold telemetry_header, set_deviceId, initializeIPCPacketHeader. cbn [pid].
    destruct (pid req =? 0); [by apply positive_int32|done]. }
  unfold header_ok, header_values. rewrite Hms. unfold int32, positive32 in *.
  unfold header_fields, fields_ok, field_ok. simpl.
  change (bits 4) with 32. change (bits 2) with 16. change (32 - 1) with 31.
  unfold kIPCPacketMagic, kIPCPacketWireVersion.
  split_and!; first [lia | exact Hp1 | exact Hp2 | done].
Qed.

(** The fields of fixed size, and the four arrays behind them. *)
Definition telemetry_values (t : IPCDeviceTelemetryPayload)
    : fields (packet_fields IPCPacketGetDeviceTelemetryResponse) :=
  (t_result t, (u32 (Z.of_nat (length (cores t))), (usedMemoryBytes t, (freeMemoryBytes t, tt)))).

Definition telemetry_arrays (l : list IPCDeviceTelemetryCoreData) : list Z :=
  (c ← l; put_le 4 (utilizationPermille c)) ++ (c ← l; put_le 4 (temperature c))
  ++ (c ← l; put_le 4 (clock c)) ++ (c ← l; put_le 4 (voltage c)).

Record telemetry_ok (t : IPCDeviceTelemetryPayload) : Prop := {
  tok_result : int32 (t_result t);
  tok_used : 0 <= usedMemoryBytes t < 2 ^ 64;
  tok_free : 0 <= freeMemoryBytes t < 2 ^ 64;
  tok_cores : Forall core_ok (cores t)
}.

Lemma telemetry_values_ok t :
  telemetry_ok t -> fields_ok (packet_fields IPCPacketGetDeviceTelemetryResponse) (telemetry_values t).
Proof.
  intros [Hr Hu Hf _]. pose proof (uwrap_range 32 (Z.of_nat (length (cores t)))).
  unfold int32 in Hr. simpl. change (bits 4) with 32. change (bits 8) with 64. lia.
Qed.

Lemma read_arrays l :
  let n := length l in
  let '(us, c1) := read_array n (telemetry_arrays l) in
  let '(ts, c2) := read_array n c1 in
  let '(cs, c3) := read_array n c2 in
  let '(vs, _) := read_array n c3 in
  Forall core_ok l -> make_cores us ts cs vs = l.
Proof.
  unfold telemetry_arrays. cbv zeta. rewrite !read_array_spec.
  rewrite <- (app_nil_r (c ← l; put_le 4 (voltage c))), read_array_spec. apply make_cores_spec.
Qed.

(** The receiver reads back what was laid out. *)
Lemma deserialize_telemetry h t :
  header_ok h -> isValidIPCPacketHeader h = true ->
  type h = type_value GetDeviceTelemetryResponse ->
  Z.of_nat (length (cores t)) < 2 ^ 27 ->
  messageSize h = 24 + 16 * Z.of_nat (length (cores t)) -> telemetry_ok t ->
  deserializeIPCDeviceTelemetryResponsePacket
    (packet_bytes h IPCPacketGetDeviceTelemetryResponse (telemetry_values t)
     ++ telemetry_arrays (cores t)) = (Some h, Ok t).
Proof.
  intros Hh Hvalid Htype Hn Hms Ht. pose proof (telemetry_values_ok t Ht) as Hv.
  pose proof (read_arrays (cores t)) as Ea. cbv zeta in Ea. set (n := length (cores t)) in *.
  destruct (read_packet h _ (telemetry_values t) Hh Hv) as (_ & _ & _ & Lp).
  set (m := packet_bytes _ _ _ ++ _).
  assert (Z.of_nat (length m) = 52 + 16 * Z.of_nat n) as Lm.
  { unfold m, telemetry_arrays. rewrite !length_app, !length_array, Lp. fold n.
    change (sizeof IPCPacketGetDeviceTelemetryResponse) with 52%nat. lia. }
  assert (read_header m = h) as Eh.
  { unfold m, packet_bytes. rewrite <- app_assoc. by apply read_write_header. }
  assert (read (packet_fields IPCPacketGetDeviceTelemetryResponse) (drop sizeof_header m) =
          telemetry_values t) as Ev.
  { unfold m, packet_bytes. rewrite <- app_assoc.
    rewrite drop_app_length' by (symmetry; by apply length_write_header).
    apply read_write; [apply packet_wf|done]. }
  assert (drop (sizeof IPCPacketGetDeviceTelemetryResponse) m = telemetry_arrays (cores t)) as Ed.
  { unfold m. by apply drop_app_length'. }
  unfold deserializeIPCDeviceTelemetryResponsePacket. rewrite Lm, Eh, Ev, Ed.
  unfold telemetry_values. cbv beta iota zeta. fold n. rewrite uwrap_small by lia.
  change (Z.of_nat (sizeof IPCPacketGetDeviceTelemetryResponse)) with 52.
  change (Z.of_nat sizeof_header) with 28.
  rewrite (proj2 (Z.ltb_ge _ _)) by lia. rewrite Hvalid, Htype. cbn [negb].
  rewrite Z.eqb_refl, telemetry_size_small, Z.eqb_refl by lia. cbn [negb].
  rewrite (proj2 (Z.eqb_eq (messageSize h) _)) by lia. cbn [negb]. rewrite Nat2Z.id.
  destruct (read_array n _) as [us c1]. destruct (read_array n c1) as [ts c2].
  destruct (read_array n c2) as [cs c3]. destruct (read_array n c3) as [vs c4].
  rewrite Ea by apply Ht. by destruct t.
Qed.

(** ** Sequence numbers *)

Lemma next_id c :
  0 < c <= INT32_MAX -> getNextIPCPacketSequenceId c = Some (c, i32 (c + 1)).
Proof.
  intros Hc. unfold getNextIPCPacketSequenceId, seq_run, seq_step, fetch_add.
  by rewrite (proj2 (Z.ltb_lt 0 c)) by lia.
Qed.

Lemma sequence_ids_from n c :
  0 < c -> c + Z.of_nat n <= INT32_MAX + 1 -> sequence_ids n c = Some (seqZ c (Z.of_nat n)).
Proof.
  revert c. induction n as [|n IH]; intros c Hc Hn; [done|].
  assert (0 < c <= INT32_MAX) as Hc' by lia.
  cbn [sequence_ids]. rewrite next_id by done. cbn [mbind option_bind].
  destruct n as [|n].
  - cbn [sequence_ids mbind option_bind]. unfold seqZ. simpl. by rewrite Z.add_0_l.
  - unfold INT32_MAX in *. rewrite swrap_small by lia. rewrite IH by lia. cbn [mbind option_bind].
    rewrite (seqZ_cons c) by lia. replace (Z.pred (Z.of_nat (S (S n)))) with (Z.of_nat (S n)) by lia.
    replace (Z.succ c) with (c + 1) by lia. done.
Qed.
