(* ===== verification/IpcThms.v ===== *)
(** * Dynamic IPC: properties

    A call of the client over the wire is a call of the service's handler; no
    handler runs on a malformed message; responses reach the process they are
    addressed to; the telemetry response and the sequence numbers. *)

From Stdlib Require Import ZArith Lia.
From S2P Require Import Prelude IpcPacket IpcCodec IpcServer IpcClient IpcSpec.
Import IpcPacket IpcServer IpcClient.

(** ** A connection between a client and a service *)

(** Whom a handler answers: process, device and sequence number. *)
Definition reply_to (c : call) : option (Z * Z * Z) :=
  match c with
  | CallInference _ _ _ _ => None
  | CallAllocate _ p d s _ _ _ | CallFreeBuffer p d s _ | CallDMARead p d s _ _ _
  | CallDMAReadWithFaultInjection p d s _ _ _ | CallDMAWrite p d s _ _ _
  | CallTaskInit p d s _ _ _ _ | CallTaskDeInit p d s _ _ | CallViewFreeMemoryLegacy p d s
  | CallViewUsedMemoryLegacy p d s | CallGetUsageLegacy p d s _ | CallGetDeviceTelemetry p d s
  | CallRecoveryStartAck p d s _ _ => Some (p, d, s)
  end.

Lemma reply_to_call t e fd h v :
  handler_of t = Some e -> t <> IpcPacket.InferenceRequest ->
  reply_to (h_call e fd h v) = Some (pid h, deviceId h, seqId h).
Proof.
  intros He Ht. destruct t; try discriminate; try done; injection He as <-; simpl in v |- *;
    repeat match goal with
    | v : (_ * _)%type |- _ => destruct v
    end; reflexivity.
Qed.

Section Connection.
Context (run : call -> Z) (r : registry) (s : server) (fd seq service : Z).
Context (resp : packet) (rt : IPCMessageType) (reply : call -> fields (packet_fields resp)).

(** The service answers each call with the packet [resp] of type [rt] whose fields
    are [reply c]; the endpoint of the client returns the message its socket receives. *)
Definition answer (c : call) (srv : option server) : list event :=
  match reply_to c with
  | Some (p, d, sq) =>
      (send_packet service (fun _ m _ => Ok (Z.of_nat (length m))) resp rt (reply c) (-1)
         srv p d sq).2
  | None => []
  end.

Definition connection : Transport := {|
  sendMessageSync request _ :=
    match handle run r fd (Some (request seq)) (Some s) with
    | (Ok _, srv', ev) =>
        match last ev with
        | Some (Invoked c) =>
            match answer c srv' with
            | [Sent fd' m _] =>
                if fd' =? fd then Ok (seq, mkReceived m (-1)) else Error ETIMEDOUT
            | _ => Error ETIMEDOUT
            end
        | _ => Error ETIMEDOUT
        end
    | (Error _, _, _) => Error ETIMEDOUT
    end;
  sendMessageAsync _ _ := Ok seq
|}.
End Connection.

(** ** Properties *)

(** C11. A request of the client is a call of the service: when the handler of its
    type is set and the client is connected, the service invokes that handler with
    exactly the arguments the client gave, its process, device and sequence number,
    and the client returns exactly the fields the service replied with; one
    theorem for the twelve kinds of request with a response.  The exception is the
    synchronous inference request, whose handler is not given the sequence number. *)
Theorem rpc_refines run r s fd seq service client resp rt reply t e v deviceId :
  handler_of t = Some e -> t <> IpcPacket.InferenceRequest -> handlers r t = true ->
  tryGetIPCResponseMessageType t = Some rt ->
  fields_ok (packet_fields (h_packet e)) v -> (forall c, fields_ok (packet_fields resp) (reply c)) ->
  bindings_ok s -> fd ∈ clients s ->
  positive32 seq -> positive32 client -> int32 deviceId ->
  let c := h_call e fd (header_for (h_packet e) t seq deviceId client) v in
  @sendRequestAndWaitForResponse (connection run r s fd seq service resp rt reply) client
    (h_packet e) v t resp deviceId (-1) =
  Ok (header_for resp rt seq deviceId client, reply c, -1).
Proof.
  intros He Hinf Hr Hrt Hv Hreply HB Hfd Hseq Hcl Hdev c.
  set (h := header_for (h_packet e) t seq deviceId client).
  assert (header_ok h) as Hh by (apply header_for_ok; auto using positive_int32).
  assert (header_ok (header_for resp rt seq deviceId client)) as Hh2
    by (apply header_for_ok; auto using positive_int32).
  pose proof (sizeof_small (h_packet e)) as [S1 _]. pose proof (sizeof_small resp) as [S2 S2'].
  destruct (read_packet _ resp (reply c) Hh2 (Hreply c)) as (E1 & E2 & _ & E4).
  pose proof (b_fresh s HB fd Hfd) as Hfd0. unfold positive32 in *.
  assert (answer service resp rt reply c (Some (bindPidToClient client fd s)) =
    [Sent fd (packet_bytes (header_for resp rt seq deviceId client) resp (reply c)) (-1)]) as Ea.
  { pose proof (reply_to_call t e fd h v He Hinf) as Er. change (h_call e fd h v) with c in Er.
    unfold answer. rewrite Er. cbn [pid IpcPacket.deviceId seqId header_for h]. unfold send_packet, buildAndSendPacketToPid.
    rewrite assemble_header. unfold sendAssembledPacket, sendToPid.
    rewrite bind_lookup by (done || lia). rewrite decide_True by done. unfold sendToClient.
    assert (clients (bindPidToClient client fd s) = clients s) as ->
      by (unfold bindPidToClient; by destruct (_ || _)).
    by rewrite bool_decide_eq_true_2. }
  unfold sendRequestAndWaitForResponse, sendRequestAndWaitForResponseBytes. rewrite Hrt.
  rewrite (proj2 (Z.ltb_ge _ _)) by (unfold kIPCMaxMessageSize; lia).
  unfold sendMessageSync, connection. rewrite request_bytes_header. fold h.
  rewrite handle_valid; [|done|apply header_for_valid; lia|done|done].
  rewrite (dispatch_request run r fd h t e v) by done. cbn [fmap option_fmap option_map].
  rewrite last_snoc. change (pid h) with client. change (h_call e fd h v) with c.
  rewrite Ea, Z.eqb_refl.
  cbn [bind r_data r_fd]. rewrite E4.
  rewrite (proj2 (Z.ltb_ge _ _)) by (unfold kIPCMaxMessageSize; lia).
  rewrite (proj2 (Nat.ltb_ge _ _)) by done. rewrite E1.
  rewrite header_for_valid by lia. cbn [negb type seqId header_for].
  rewrite !Z.eqb_refl. cbn [negb orb bind r_data r_fd]. rewrite E4, Nat.eqb_refl. cbn [negb].
  by rewrite E1, E2.
Qed.

(** C12. No handler runs on a malformed message: whatever bytes a client sends, a
    handler that is invoked is set, is the one of the type in the header, and is
    given arguments whose packet is byte for byte the message; it is invoked once,
    last, and its result is the result of [handle]. *)
Theorem handle_sound run r fd m srv rc srv' ev c :
  bytes m -> handle run r fd (Some m) srv = (rc, srv', ev) -> Invoked c ∈ ev ->
  exists t e v pre,
    handler_of t = Some e /\ handlers r t = true /\
    m = packet_bytes (read_header m) (h_packet e) v /\ fields_ok (packet_fields (h_packet e)) v /\
    isValidIPCPacketHeader (read_header m) = true /\ type (read_header m) = type_value t /\
    messageSize (read_header m) = Z.of_nat (fields_size (packet_fields (h_packet e))) /\
    c = h_call e fd (read_header m) v /\ rc = Ok (run c) /\
    ev = pre ++ [Invoked c] /\ (forall c', Invoked c' ∉ pre).
Proof.
  intros Hb. unfold handle.
  destruct (Nat.ltb_spec (length m) sizeof_header) as [|HL]; [intros [= <- <- <-] Hin; by apply elem_of_nil in Hin|].
  destruct (isValidIPCPacketHeader (read_header m)) eqn:Hv; cbn [negb];
    [|intros [= <- <- <-] Hin; by apply elem_of_nil in Hin].
  set (pre := if _ && _ then _ else []).
  assert (forall c', Invoked c' ∉ pre) as Hpre.
  { intros c'. unfold pre. destruct (_ && _); [|apply not_elem_of_nil].
    intros Hin%list_elem_of_singleton. done. }
  destruct (Z.eqb_spec (messageSize (read_header m)) (Z.of_nat (length (drop sizeof_header m)))) as [Hs|];
    cbn [negb]; [|intros [= <- <- <-] Hin; by apply Hpre in Hin].
  destruct (dispatch run r fd (read_header m) (drop sizeof_header m)) as [rc2 ev2] eqn:Ed.
  intros [= <- <- <-] [Hin|Hin]%elem_of_app; [by apply Hpre in Hin|].
  destruct (dispatch_invokes _ _ _ _ _ _ _ _ (bytes_drop _ _ Hb) Ed Hin)
    as (t & e & v & He & Hr & Ht & Hlen & Hv' & Hc & Hrc & Hev).
  assert (length m = sizeof (h_packet e)) as Hm.
  { rewrite length_drop in Hlen. unfold sizeof. lia. }
  destruct (packet_read m (h_packet e) Hb Hm) as (P1 & P2 & P3). rewrite <- Hv' in P1, P3.
  exists t, e, v, pre. split_and!; try done. by rewrite Hs, Hlen. by rewrite Hev.
Qed.

(** The states of the service's connections. *)
Inductive server_reachable (run : call -> Z) (r : registry) : server -> Prop :=
| reach_new : server_reachable run r new_server
| reach_accept s f s' :
    server_reachable run r s -> acceptNewClient s = Some (f, s') -> server_reachable run r s'
| reach_message s f m :
    server_reachable run r s ->
    server_reachable run r (processReceivedClientMessage run r f m s).1.2
| reach_remove s f : server_reachable run r s -> server_reachable run r (removeClient r f s).1
| reach_stop s : server_reachable run r s -> server_reachable run r (stop s).1.

Lemma reachable_bindings run r s : server_reachable run r s -> bindings_ok s.
Proof.
  induction 1 as [|s f s' _ IH E|s f m _ IH|s f _ IH|s _ _].
  - exact new_server_ok.
  - by eapply accept_ok.
  - by apply process_ok.
  - by apply remove_ok.
  - exact new_server_ok.
Qed.

(** Responses are routed to the sender: in every state the service reaches, by
    connections, messages, reconnections of a process and disconnections in any
    order, the maps between processes and clients are inverse to each other and
    lead to connected clients, and after a message of process [p] was accepted from
    a client, what is sent to [p] goes to that client and to no other. *)
Theorem response_routing run r s fd m s' ev :
  server_reachable run r s ->
  processReceivedClientMessage run r fd m s = (0, s', ev) -> 0 < pid (read_header m) ->
  bindings_ok s' /\
  forall sendMessage response h,
    sendToPid sendMessage (pid (read_header m)) response h s' =
    (sendMessage fd response h, [Sent fd response h]).
Proof.
  intros HR%reachable_bindings Hp Hpid.
  pose proof (process_ok run r fd m s HR) as HB. rewrite Hp in HB. split; [exact HB|].
  unfold processReceivedClientMessage in Hp.
  destruct (bool_decide (fd ∈ clients s)) eqn:Hin; cbn [negb] in Hp; [|congruence].
  apply bool_decide_eq_true_1 in Hin.
  destruct (handle run r fd (Some m) (Some s)) as [[rc srv'] ev1] eqn:Eh.
  destruct (match rc with Ok z => z <? 0 | Error _ => true end) eqn:Ef.
  { destruct (removeClient r fd (default s srv')). congruence. }
  injection Hp as <- <-. destruct rc as [z|]; [|discriminate].
  apply handle_ok_server in Eh as ->. cbn [default from_option id].
  pose proof (b_fresh s HR fd Hin). intros sendMessage response h. unfold sendToPid.
  rewrite bind_lookup by (done || lia). rewrite decide_True by done. unfold sendToClient.
  assert (clients (bindPidToClient (pid (read_header m)) fd s) = clients s) as ->
    by (unfold bindPidToClient; by destruct (_ || _)).
  by rewrite bool_decide_eq_true_2.
Qed.

(** The telemetry response read back is the telemetry sent, for any number of
    cores that fits a message; with more than 4092 cores it is refused. *)
Theorem telemetry_roundtrip self req t :
  positive32 self -> int32 (pid req) -> int32 (deviceId req) -> 0 <= seqId req < 2 ^ 31 ->
  telemetry_ok t -> Z.of_nat (length (cores t)) < 2 ^ 32 ->
  match serializeIPCDeviceTelemetryResponsePacket self req t with
  | Ok m => exists h, deserializeIPCDeviceTelemetryResponsePacket m = (Some h, Ok t) /\
              seqId h = seqId req /\ deviceId h = deviceId req /\
              (length (cores t) <= 4092)%nat
  | Error e => e = EMSGSIZE /\ (4092 < length (cores t))%nat
  end.
Proof.
  intros Hself Hpid Hdev Hseq Ht Hn.
  unfold serializeIPCDeviceTelemetryResponsePacket, getSerializedIPCDeviceTelemetryResponseSize.
  rewrite telemetry_size_small by lia.
  destruct (Z.ltb_spec kIPCMaxMessageSize (52 + 16 * Z.of_nat (length (cores t)))) as [Hbig|Hsmall];
    unfold kIPCMaxMessageSize in *; [split; [done|lia]|].
  exists (telemetry_header self req (Z.of_nat (length (cores t)))). split; [|split_and!; try done; lia].
  apply deserialize_telemetry; try done; try lia.
  - apply telemetry_header_ok; done || lia.
  - apply valid_header_iff. split_and!; try done; [|simpl; lia]. by exists GetDeviceTelemetryResponse.
  - apply telemetry_header_size. lia.
Qed.

(** Sequence numbers of uninterrupted calls: the numbers are 1, 2, 3, ... and
    so all different up to the last positive [int32_t]; the counter then wraps,
    and the next two calls return the same number. *)
Theorem sequence_ids_unique_until_wrap :
  (forall n, Z.of_nat n <= INT32_MAX -> sequence_ids n 1 = Some (seqZ 1 (Z.of_nat n))) /\
  getNextIPCPacketSequenceId INT32_MAX = Some (INT32_MAX, INT32_MIN) /\
  sequence_ids 3 INT32_MIN = Some [1; 1; 2].
Proof.
  split; [|by split]. intros n Hn. apply sequence_ids_from; [lia|]. unfold INT32_MAX in *. lia.
Qed.

(** ** Witnesses *)

Definition w_registry : registry := mkRegistry (fun _ => true) true true.
Definition w_server : server := mkServer ({[1]} ∪ ∅) ∅ ∅ 2.
Definition w_run (c : call) : Z := 0.
(** Process 42 frees the buffer at 4096, sequence number 9. *)
Definition w_message : list Z :=
  request_bytes 42 IPCPacketRequestFreeBuffer FreeBuffer 0 (4096, tt) 9.
Definition w_reply (c : call) : fields (packet_fields IPCPacketResponseFreeBuffer) :=
  match c with CallFreeBuffer _ _ _ a => (if a =? 4096 then 0 else -1, tt) | _ => (-1, tt) end.

Lemma w_reachable : server_reachable w_run w_registry w_server.
Proof. apply (reach_accept w_run w_registry new_server 1); [constructor|reflexivity]. Qed.

Lemma w_reply_ok c : fields_ok (packet_fields IPCPacketResponseFreeBuffer) (w_reply c).
Proof.
  destruct c; try (split; [split; [discriminate|reflexivity]|exact I]).
  simpl. destruct (bufferAddress =? 4096); (split; [split; [discriminate|reflexivity]|exact I]).
Qed.

Lemma rpc_refines_witness :
  @sendRequestAndWaitForResponse
    (connection w_run w_registry w_server 1 9 7 IPCPacketResponseFreeBuffer FreeBuffer w_reply) 42
    IPCPacketRequestFreeBuffer (4096, tt) FreeBuffer IPCPacketResponseFreeBuffer 0 (-1) =
  Ok (header_for IPCPacketResponseFreeBuffer FreeBuffer 9 0 42, (0, tt), -1).
Proof.
  apply (rpc_refines w_run w_registry w_server 1 9 7 42 IPCPacketResponseFreeBuffer FreeBuffer w_reply
           FreeBuffer (mkHandler IPCPacketRequestFreeBuffer (fun _ h '(bufferAddress, _) =>
             CallFreeBuffer (pid h) (deviceId h) (seqId h) bufferAddress)) (4096, tt) 0).
  - reflexivity.
  - discriminate.
  - reflexivity.
  - reflexivity.
  - split; [split; [discriminate|reflexivity]|exact I].
  - exact w_reply_ok.
  - exact (reachable_bindings _ _ _ w_reachable).
  - exact (bool_decide_eq_true_1 (1 ∈ clients w_server) eq_refl).
  - split; reflexivity.
  - split; reflexivity.
  - split; [discriminate|reflexivity].
Defined.

Lemma w_bytes : bytes w_message.
Proof. repeat (constructor; [split; [discriminate|reflexivity]|]). constructor. Qed.

Lemma handle_sound_witness :
  exists t e v pre,
    handler_of t = Some e /\ handlers w_registry t = true /\
    w_message = packet_bytes (read_header w_message) (h_packet e) v /\
    fields_ok (packet_fields (h_packet e)) v /\
    isValidIPCPacketHeader (read_header w_message) = true /\
    type (read_header w_message) = type_value t /\
    messageSize (read_header w_message) = Z.of_nat (fields_size (packet_fields (h_packet e))) /\
    CallFreeBuffer 42 0 9 4096 = h_call e 1 (read_header w_message) v /\
    Ok 0 = Ok (w_run (CallFreeBuffer 42 0 9 4096)) /\
    [Invoked (CallFreeBuffer 42 0 9 4096)] = pre ++ [Invoked (CallFreeBuffer 42 0 9 4096)] /\
    (forall c', Invoked c' ∉ pre).
Proof.
  apply (handle_sound w_run w_registry 1 w_message None (Ok 0) None
           [Invoked (CallFreeBuffer 42 0 9 4096)] (CallFreeBuffer 42 0 9 4096)).
  - exact w_bytes.
  - vm_compute. reflexivity.
  - left.
Defined.

Lemma response_routing_witness :
  let s' := (processReceivedClientMessage w_run w_registry 1 w_message w_server).1.2 in
  bindings_ok s' /\
  forall sendMessage response h,
    sendToPid sendMessage (pid (read_header w_message)) response h s' =
    (sendMessage 1 response h, [Sent 1 response h]).
Proof.
  apply (response_routing w_run w_registry w_server 1 w_message _
           (processReceivedClientMessage w_run w_registry 1 w_message w_server).2).
  - exact w_reachable.
  - vm_compute. reflexivity.
  - reflexivity.
Defined.

Definition w_telemetry : IPCDeviceTelemetryPayload :=
  mkTelemetry (-1) 4096 8192 [mkCore 500 (-7) 1000 750; mkCore 0 0 0 0].

Lemma telemetry_roundtrip_witness :
  match serializeIPCDeviceTelemetryResponsePacket 7 (read_header w_message) w_telemetry with
  | Ok m => exists h, deserializeIPCDeviceTelemetryResponsePacket m = (Some h, Ok w_telemetry) /\
              seqId h = seqId (read_header w_message) /\
              deviceId h = deviceId (read_header w_message) /\
              (length (cores w_telemetry) <= 4092)%nat
  | Error e => e = EMSGSIZE /\ (4092 < length (cores w_telemetry))%nat
  end.
Proof.
  apply (telemetry_roundtrip 7 (read_header w_message) w_telemetry).
  - split; reflexivity.
  - split; [discriminate|reflexivity].
  - split; [discriminate|reflexivity].
  - split; [discriminate|reflexivity].
  - split; try (split; [discriminate|reflexivity]).
    repeat (constructor; [repeat split; discriminate|]). constructor.
  - reflexivity.
Defined.
