(* ===== verification/IpcEndpoint.v ===== *)
(** * Dynamic IPC: the endpoint of the client

    [lib/dynamic_ipc/transport/ipc_client_endpoint.cpp]: threads of the application
    send messages and wait for the response with their sequence number; a thread of
    the endpoint receives messages and hands each to the call that waits for it, or
    to the handler of notifications; the connection may break or be closed at any
    time.

    The sections under [_pendingMutex] and single operations on the atomics and on
    the channel are the steps; a call or the receive loop can be interrupted
    between any two.  The channel, a socket, is the environment: a send on an open
    channel succeeds or fails, and any bytes may be received.  The connection is
    opened and closed by [connectToServer] and [close], called by one thread. *)

From Stdlib Require Import ZArith Lia.
From S2P Require Import Prelude IpcPacket IpcClient.

Module IpcEndpoint.
Import IpcPacket IpcClient.

(** ** State *)

(** [PendingResponse]: the promise and [completed]; a promise that is destroyed
    before it is completed makes its future fail like one that holds an exception. *)
Inductive promise := Unset | Value (m : received) | Failed.
#[export] Instance received_eq_dec : EqDecision received.
Proof. solve_decision. Defined.
#[export] Instance promise_eq_dec : EqDecision promise.
Proof. solve_decision. Defined.

Record endpoint := mkEndpoint {
  counter : Z;                       (* of [getNextIPCPacketSequenceId] *)
  pendingResponses : gmap Z nat;     (* sequence number to promise *)
  promises : list promise;           (* the shared objects, in order of creation *)
  valid : bool;                      (* [_channel.isValid()] *)
  receiveLoopRunning : bool;
  onReceive : bool                   (* whether a handler is set *)
}.

Definition set_counter (c : Z) (s : endpoint) : endpoint :=
  mkEndpoint c (pendingResponses s) (promises s) (valid s) (receiveLoopRunning s) (onReceive s).
Definition set_pending (m : gmap Z nat) (l : list promise) (s : endpoint) : endpoint :=
  mkEndpoint (counter s) m l (valid s) (receiveLoopRunning s) (onReceive s).
Definition set_channel (v r : bool) (s : endpoint) : endpoint :=
  mkEndpoint (counter s) (pendingResponses s) (promises s) v r (onReceive s).
Definition setOnReceive (b : bool) (s : endpoint) : endpoint :=
  mkEndpoint (counter s) (pendingResponses s) (promises s) (valid s) (receiveLoopRunning s) b.

(** A promise is completed or destroyed once. *)
Definition complete (p : nat) (v : promise) (l : list promise) : list promise :=
  match l !! p with Some Unset => <[p := v]> l | _ => l end.

(** The entry of a number leaves the map, and with it the promise. *)
Definition drop_pending (seq : Z) (s : endpoint) : endpoint :=
  match pendingResponses s !! seq with
  | Some p => set_pending (delete seq (pendingResponses s)) (complete p Failed (promises s)) s
  | None => s
  end.

(** ** Operations *)

(** The guards of [sendMessageSync], [sendMessageTrackResponse] and
    [sendMessageAsync]; [data] is the message as a function of its sequence number. *)
Definition check_send (data : option (Z -> list Z)) (size : nat) (response_ : bool) (s : endpoint)
    : option errno :=
  if negb (valid s) || negb (receiveLoopRunning s) then Some ENOTCONN
  else if negb response_ then Some EINVAL
  else match data with
       | None => Some EINVAL
       | Some _ => if (size <? sizeof_header)%nat then Some EMSGSIZE else None
       end.

Definition registerPendingResponse (sequenceId : Z) (s : endpoint) : result nat * endpoint :=
  if sequenceId <=? 0 then (Error EINVAL, s)
  else
    let s1 := drop_pending sequenceId s in
    let p := length (promises s1) in
    (Ok p, set_pending (<[sequenceId := p]> (pendingResponses s1)) (promises s1 ++ [Unset]) s1).

(** Whether a call got the message. *)
Definition tryMatchPendingResponse (h : IPCPacketHeader) (m : received) (s : endpoint)
    : option nat * endpoint :=
  match pendingResponses s !! seqId h with
  | None => (None, s)
  | Some p =>
      let pending := delete (seqId h) (pendingResponses s) in
      match promises s !! p with
      | Some Unset => (Some p, set_pending pending (complete p (Value m) (promises s)) s)
      | _ => (None, set_pending pending (promises s) s)
      end
  end.

Definition failPendingResponses (s : endpoint) : endpoint :=
  set_pending ∅ (foldl (fun l p => complete p Failed l) (promises s)
    (snd <$> map_to_list (pendingResponses s))) s.

(** ** Calls *)

Record request := mkReq {
  q_data : option (Z -> list Z); q_size : nat; q_fd : Z;
  q_tracked : bool;              (* [sendMessageSync] or [sendMessageAsync] *)
  q_response : bool;             (* a place for the response is given *)
  q_timed : bool                 (* the timeout is not negative *)
}.

(** Where a thread is in its call. *)
Inductive call :=
| Entered (q : request)
| Numbering (q : request) (pc : seq_pc)
| Registered (q : request) (seq : Z) (p : option nat)
| Waiting (q : request) (seq : Z) (p : nat)
| Returned (q : request) (p : option nat) (r : result (Z * option received)).

(** Where the receive loop is: waiting for a message, out of its loop, past
    [_channel.close()], or at its end. *)
Inductive loop := Receiving | Leaving | Closing | Stopped.

Inductive event :=
| Sent (seq : Z) (data : list Z)
| Matched (p : nat) (m : received)
| Handled (m : received)
| Dropped (m : received).

(** One round of [receiveLoop] on the bytes it received. *)
Definition receive (m : received) (s : endpoint) : endpoint * event :=
  if (length (r_data m) <? sizeof_header)%nat then (s, Dropped m)
  else
    let h := read_header (r_data m) in
    if negb (isValidIPCPacketHeader h) then (s, Dropped m)
    else
      let '(matched, s') := if 0 <? seqId h then tryMatchPendingResponse h m s else (None, s) in
      match matched with
      | Some p => (s', Matched p m)
      | None => (s', if onReceive s' then Handled m else Dropped m)
      end.

(** A step of a call other than its send: the future may be ready, and a timed
    wait may end when it is not. *)
Definition call_step (c : call) (s : endpoint) : option (call * endpoint) :=
  match c with
  | Entered q =>
      match check_send (q_data q) (q_size q) (q_response q || negb (q_tracked q)) s with
      | Some e => Some (Returned q None (Error e), s)
      | None => Some (Numbering q SeqStart, s)
      end
  | Numbering q (SeqDone seq) =>
      if q_tracked q then
        match registerPendingResponse seq s with
        | (Ok p, s') => Some (Registered q seq (Some p), s')
        | (Error e, s') => Some (Returned q None (Error e), s')
        end
      else Some (Registered q seq None, s)
  | Numbering q pc =>
      '(pc', c') ← seq_step pc (counter s);
      mret (Numbering q pc', set_counter c' s)
  | Waiting q seq p =>
      match promises s !! p with
      | Some (Value m) => Some (Returned q (Some p) (Ok (seq, Some m)), s)
      | Some Failed => Some (Returned q (Some p) (Error ECONNRESET), s)
      | _ => None
      end
  | _ => None
  end.

(** ** The system *)

Record system := mkSystem {
  ep : endpoint; calls : list call; phase : loop; log : list event
}.

Inductive step : system -> system -> Prop :=
| step_enter s cs ph lg q :
    step (mkSystem s cs ph lg) (mkSystem s (cs ++ [Entered q]) ph lg)
| step_call s l1 c l2 ph lg c' s' :
    call_step c s = Some (c', s') ->
    step (mkSystem s (l1 ++ c :: l2) ph lg) (mkSystem s' (l1 ++ c' :: l2) ph lg)
| step_send s l1 q seq p l2 ph lg data :
    q_data q = Some data -> valid s = true ->
    step (mkSystem s (l1 ++ Registered q seq p :: l2) ph lg)
      (mkSystem s (l1 ++ match p with
                         | Some p => Waiting q seq p
                         | None => Returned q None (Ok (seq, None))
                         end :: l2) ph (lg ++ [Sent seq (data seq)]))
| step_send_fails s l1 q seq p l2 ph lg e :
    step (mkSystem s (l1 ++ Registered q seq p :: l2) ph lg)
      (mkSystem (if p then drop_pending seq s else s)
         (l1 ++ Returned q p (Error e) :: l2) ph lg)
| step_timeout s l1 q seq p l2 ph lg :
    q_timed q = true -> promises s !! p = Some Unset ->
    step (mkSystem s (l1 ++ Waiting q seq p :: l2) ph lg)
      (mkSystem s (l1 ++ Returned q (Some p) (Error ETIMEDOUT) :: l2) ph lg)
| step_receive s cs lg m s' e :
    valid s = true -> receiveLoopRunning s = true -> receive m s = (s', e) ->
    step (mkSystem s cs Receiving lg) (mkSystem s' cs Receiving (lg ++ [e]))
| step_leave s cs lg :              (* the read failed, or the loop is to stop *)
    step (mkSystem s cs Receiving lg) (mkSystem s cs Leaving lg)
| step_close_channel s cs lg :
    step (mkSystem s cs Leaving lg) (mkSystem (set_channel false false s) cs Closing lg)
| step_fail s cs lg :
    step (mkSystem s cs Closing lg) (mkSystem (failPendingResponses s) cs Stopped lg)
| step_stopReceiveLoop s cs ph lg :
    step (mkSystem s cs ph lg) (mkSystem (set_channel false false s) cs ph lg)
| step_close s cs lg :              (* the end of [close], after the join *)
    step (mkSystem s cs Stopped lg) (mkSystem (failPendingResponses s) cs Stopped lg)
| step_connect s cs lg :
    step (mkSystem s cs Stopped lg) (mkSystem (set_channel true true s) cs Receiving lg)
| step_setOnReceive s cs ph lg b :
    step (mkSystem s cs ph lg) (mkSystem (setOnReceive b s) cs ph lg).

Definition initial : system := mkSystem (mkEndpoint 1 ∅ [] false false false) [] Stopped [].

End IpcEndpoint.
