(* ===== verification/IpcEndpointInv.v ===== *)
(** * Dynamic IPC: the invariant of the endpoint

    Promises are completed once, the map holds exactly those a call may still wait
    for, and at the end of the receive loop none is left, in every interleaving of
    calls, the receive loop and closing. *)

From Stdlib Require Import ZArith Lia.
From stdpp Require Import relations.
From S2P Require Import Prelude IpcPacket IpcClient IpcEndpoint.
Import IpcPacket IpcClient IpcEndpoint.

(** ** Promises *)

Lemma complete_lookup p v l q :
  complete p v l !! q =
  if decide (q = p /\ l !! p = Some Unset) then Some v else l !! q.
Proof.
  unfold complete. destruct (l !! p) as [[]|] eqn:E; case_decide as Hd;
    try (destruct Hd as [-> ?]); try done; try (by destruct Hd).
  - apply list_lookup_insert_eq. by eapply lookup_lt_Some.
  - rewrite list_lookup_insert_ne; [done|]. intros ->. by apply Hd.
Qed.

Lemma length_complete p v l : length (complete p v l) = length l.
Proof. unfold complete. destruct (l !! p) as [[]|]; try done. apply length_insert. Qed.

Lemma complete_settled p v l q u : l !! q = Some u -> u <> Unset -> complete p v l !! q = Some u.
Proof. intros H Hu. rewrite complete_lookup. case_decide as Hd; [|done]. destruct Hd; congruence. Qed.

(** The map holds promises that are not complete, each under one number. *)
Record ep_ok (s : endpoint) : Prop := {
  e_unset : forall seq p, pendingResponses s !! seq = Some p -> promises s !! p = Some Unset;
  e_inj : forall s1 s2 p, pendingResponses s !! s1 = Some p -> pendingResponses s !! s2 = Some p ->
    s1 = s2
}.

(** The promise of a call is in the map until it is complete. *)
Definition tracks (s : endpoint) (seq : Z) (p : nat) : Prop :=
  (p < length (promises s))%nat /\
  (promises s !! p = Some Unset -> pendingResponses s !! seq = Some p).

(** A promise leaves the map when it is completed. *)
Definition settle (seq : Z) (p : nat) (v : promise) (s : endpoint) : endpoint :=
  set_pending (delete seq (pendingResponses s)) (complete p v (promises s)) s.

Lemma settle_ok seq p v s :
  ep_ok s -> pendingResponses s !! seq = Some p -> ep_ok (settle seq p v s).
Proof.
  intros [U I] Hp. constructor; simpl.
  - intros seq' p' [Hne H]%lookup_delete_Some. rewrite complete_lookup.
    rewrite decide_False; [by eapply U|]. intros [-> _]. apply Hne. by eapply I.
  - intros s1 s2 p' [_ H1]%lookup_delete_Some [_ H2]%lookup_delete_Some. by eapply I.
Qed.

Lemma settle_tracks seq p v s seq' p' :
  v <> Unset -> pendingResponses s !! seq = Some p -> ep_ok s -> tracks s seq' p' ->
  tracks (settle seq p v s) seq' p'.
Proof.
  intros Hv Hp [U I] [H1 H2]. split; simpl; [by rewrite length_complete|].
  rewrite complete_lookup. case_decide as Hd; [congruence|]. intros Hu.
  apply lookup_delete_Some. split; [|by apply H2]. intros <-.
  apply Hd. rewrite H2 in Hp by done. injection Hp as <-. done.
Qed.

Lemma drop_pending_cases seq s :
  drop_pending seq s = s /\ pendingResponses s !! seq = None \/
  exists p, pendingResponses s !! seq = Some p /\ drop_pending seq s = settle seq p Failed s.
Proof. unfold drop_pending. destruct (pendingResponses s !! seq) as [p|]; eauto. Qed.

Lemma drop_pending_None seq s : pendingResponses (drop_pending seq s) !! seq = None.
Proof.
  destruct (drop_pending_cases seq s) as [[-> ?]|(p & ? & ->)]; [done|apply lookup_delete_eq].
Qed.

(** ** Operations keep the promises consistent *)

(** What an operation may do to the endpoint: completed promises stay, and a value
    is only set by matching. *)
Record keeps (s s' : endpoint) (new : nat -> promise -> Prop) : Prop := {
  k_ok : ep_ok s';
  k_tracks : forall seq p, tracks s seq p -> tracks s' seq p;
  k_len : (length (promises s) <= length (promises s'))%nat;
  k_settled : forall p v, promises s !! p = Some v -> v <> Unset -> promises s' !! p = Some v;
  k_values : forall p m, promises s' !! p = Some (Value m) ->
    promises s !! p = Some (Value m) \/ new p (Value m)
}.

Definition nothing (p : nat) (v : promise) : Prop := False.

Lemma keeps_refl s s' :
  ep_ok s -> pendingResponses s' = pendingResponses s -> promises s' = promises s ->
  keeps s s' nothing.
Proof.
  intros O E1 E2. constructor; unfold tracks; rewrite ?E1, ?E2; try done.
  - destruct O. constructor; by rewrite ?E1, ?E2.
  - intros p m H. by left.
Qed.

Lemma keeps_settle seq p v s :
  ep_ok s -> pendingResponses s !! seq = Some p -> v <> Unset ->
  keeps s (settle seq p v s) (fun p' v' => p' = p /\ v' = v).
Proof.
  intros O Hp Hv. constructor.
  - by apply settle_ok.
  - intros seq' p'. by apply settle_tracks.
  - simpl. by rewrite length_complete.
  - intros p' v'. apply complete_settled.
  - intros p' m. simpl. rewrite complete_lookup. case_decide as Hd; [|by left].
    intros [= ->]. right. by destruct Hd as [-> _].
Qed.

Lemma keeps_drop seq s : ep_ok s -> keeps s (drop_pending seq s) nothing.
Proof.
  intros O. destruct (drop_pending_cases seq s) as [[-> _]|(p & Hp & ->)]; [by apply keeps_refl|].
  destruct (keeps_settle seq p Failed s O Hp) as [K1 K2 K3 K4 K5]; [done|]. constructor; try done.
  intros p' m H. destruct (K5 _ _ H) as [?|[_ ?]]; [by left|done].
Qed.

Lemma keeps_register seq p s s' :
  ep_ok s -> registerPendingResponse seq s = (Ok p, s') ->
  keeps s s' nothing /\ tracks s' seq p /\ (length (promises s) <= p)%nat.
Proof.
  intros O H. unfold registerPendingResponse in H. destruct (seq <=? 0); [done|].
  injection H as <- <-. pose proof (drop_pending_None seq s) as Hn.
  destruct (keeps_drop seq s O) as [[U I] K2 K3 K4 K5].
  generalize dependent (drop_pending seq s). intros s1 Hn U I K2 K3 K4 K5.
  assert (forall q, (q < length (promises s1))%nat -> (promises s1 ++ [Unset]) !! q = promises s1 !! q)
    as Hl by (intros; by apply lookup_app_l).
  assert (forall q v, promises s1 !! q = Some v -> (promises s1 ++ [Unset]) !! q = Some v) as Hl'
    by (intros q v Hq; rewrite Hl; [done|by eapply lookup_lt_Some]).
  split; [constructor|split].
  - constructor; simpl.
    + intros seq' p'. rewrite lookup_insert_Some. intros [[<- <-]|[_ H]]; [|by apply Hl', (U seq')].
      rewrite lookup_app_r, Nat.sub_diag by lia. done.
    + intros s2 s3 p'. rewrite !lookup_insert_Some. intros [[<- <-]|[Hs2 H2]] [[<- E]|[Hs3 H3]];
        [done| | |by eapply I].
      * apply U, lookup_lt_Some in H3. lia.
      * subst. apply U, lookup_lt_Some in H2. lia.
  - intros seq' p' Ht. destruct (K2 seq' p' Ht) as [T1 T2]. split; simpl.
    + rewrite length_app. lia.
    + rewrite Hl by done. intros Hu. specialize (T2 Hu). rewrite lookup_insert_ne; [done|congruence].
  - simpl. rewrite length_app. lia.
  - intros p' v Hv Hne. simpl. by apply Hl', K4.
  - intros p' m. simpl. rewrite lookup_app. destruct (promises s1 !! p') as [v|] eqn:E; [|].
    + intros [= ->]. by apply K5.
    + intros Hm. destruct (p' - length (promises s1))%nat; simpl in Hm; [done|by destruct n].
  - split; simpl; [rewrite length_app; simpl; lia|]. intros _. apply lookup_insert_eq.
  - apply K3.
Qed.

Lemma foldl_fail ps l p :
  foldl (fun l p => complete p Failed l) l ps !! p =
  if decide (p ∈ ps /\ l !! p = Some Unset) then Some Failed else l !! p.
Proof.
  revert l. induction ps as [|q ps IH]; intros l.
  - rewrite decide_False; [done|]. by intros [?%elem_of_nil _].
  - cbn [foldl]. rewrite IH, complete_lookup.
    destruct (decide (p = q /\ l !! q = Some Unset)) as [[-> Hq]|Hq].
    + rewrite (decide_False (P := q ∈ ps /\ _)) by (by intros [_ ?]).
      rewrite decide_True; [done|]. split; [by left|done].
    + destruct (decide (p ∈ ps /\ l !! p = Some Unset)) as [[H1 H2]|H].
      * rewrite decide_True; [done|]. split; [by right|done].
      * rewrite decide_False; [done|]. intros [[->|?]%elem_of_cons ?]; tauto.
Qed.

Lemma length_foldl_fail ps l : length (foldl (fun l p => complete p Failed l) l ps) = length l.
Proof. revert l. induction ps as [|q ps IH]; intros l; simpl; [done|]. by rewrite IH, length_complete. Qed.

(** After [failPendingResponses] every call has its answer. *)
Lemma fail_done s seq p : tracks s seq p -> promises (failPendingResponses s) !! p <> Some Unset.
Proof.
  intros [_ T]. simpl. rewrite foldl_fail. case_decide as Hd; [done|]. intros Hu. apply Hd.
  split; [|done]. apply list_elem_of_fmap. exists (seq, p). split; [done|].
  by apply elem_of_map_to_list, T.
Qed.

Lemma keeps_fail s : ep_ok s -> keeps s (failPendingResponses s) nothing.
Proof.
  intros [U I]. constructor.
  - constructor; simpl; intros *; by rewrite lookup_empty.
  - intros seq p T. split; [simpl; rewrite length_foldl_fail; apply T|].
    intros Hu. by destruct (fail_done s seq p T).
  - simpl. by rewrite length_foldl_fail.
  - intros p v Hv Hne. simpl. rewrite foldl_fail, decide_False; [done|]. intros [_ ?]. congruence.
  - intros p m. simpl. rewrite foldl_fail. case_decide; [done|by left].
Qed.

(** The message is a response with this sequence number. *)
Definition answers (seq : Z) (m : received) : Prop :=
  isValidIPCPacketHeader (read_header (r_data m)) = true /\ seqId (read_header (r_data m)) = seq.

Lemma receive_cases m s s' e :
  ep_ok s -> receive m s = (s', e) ->
  (exists seq p, e = Matched p m /\ answers seq m /\ pendingResponses s !! seq = Some p /\
     s' = settle seq p (Value m) s) \/
  (s' = s /\ (e = Handled m \/ e = Dropped m)).
Proof.
  intros [U _] H. unfold receive in H. destruct (_ <? sizeof_header)%nat; [simplify_eq; eauto|].
  destruct (isValidIPCPacketHeader _) eqn:Ev; simpl in H; [|simplify_eq; eauto].
  destruct (0 <? _); [|cbn in H; destruct (onReceive s); simplify_eq; eauto].
  unfold tryMatchPendingResponse in H.
  destruct (pendingResponses s !! _) as [p|] eqn:Ep; [|cbn in H; destruct (onReceive s); simplify_eq; eauto].
  rewrite (U _ _ Ep) in H. injection H as <- <-. left.
  exists (seqId (read_header (r_data m))), p. repeat split; done.
Qed.

(** ** The invariant of the system *)

Definition owner (c : call) : option (Z * nat) :=
  match c with
  | Registered _ seq (Some p) | Waiting _ seq p => Some (seq, p)
  | _ => None
  end.
Definition promise_of (c : call) : option nat :=
  match c with
  | Registered _ _ p | Returned _ p _ => p
  | Waiting _ _ p => Some p
  | _ => None
  end.
Definition matched (e : event) : option nat := match e with Matched p _ => Some p | _ => None end.

(** A call that returned a response has the one its promise holds. *)
Definition returned_ok (s : endpoint) (c : call) : Prop :=
  forall q p seq m, c = Returned q p (Ok (seq, Some m)) ->
    exists p', p = Some p' /\ promises s !! p' = Some (Value m) /\ answers seq m.

Definition call_ok (s : endpoint) (c : call) : Prop :=
  returned_ok s c /\
  (forall p, promise_of c = Some p -> (p < length (promises s))%nat) /\
  (forall seq p, owner c = Some (seq, p) ->
     tracks s seq p /\ forall m, promises s !! p = Some (Value m) -> answers seq m).

Definition answered (s : endpoint) (c : call) : Prop :=
  forall q seq p, c = Waiting q seq p -> promises s !! p <> Some Unset.

Record inv (y : system) : Prop := {
  n_ok : ep_ok (ep y);
  n_calls : Forall (call_ok (ep y)) (calls y);
  n_ids : NoDup (omap promise_of (calls y));
  n_val : forall p m, promises (ep y) !! p = Some (Value m) <-> Matched p m ∈ log y;
  n_log : NoDup (omap matched (log y));
  n_closed : phase y = Closing \/ phase y = Stopped -> valid (ep y) = false;
  n_wait : phase y = Stopped -> Forall (answered (ep y)) (calls y)
}.

Lemma call_ok_keeps s s' c : keeps s s' nothing -> call_ok s c -> call_ok s' c.
Proof.
  intros K (R & L & O). split; [|split].
  - intros q p seq m E. destruct (R q p seq m E) as (p' & ? & Hp & ?). exists p'.
    split; [done|]. split; [by apply (k_settled _ _ _ K)|done].
  - intros p Hp. specialize (L p Hp). pose proof (k_len _ _ _ K). lia.
  - intros seq p Hp. destruct (O seq p Hp) as [T V]. split; [by apply (k_tracks _ _ _ K)|].
    intros m Hm. apply V. by destruct (k_values _ _ _ K p m Hm) as [?|[]].
Qed.

Lemma answered_keeps s s' c : keeps s s' nothing -> call_ok s c -> answered s c -> answered s' c.
Proof.
  intros K (_ & L & _) A q seq p -> Hu. specialize (A q seq p eq_refl).
  destruct (lookup_lt_is_Some_2 (promises s) p) as [v Hv]; [by apply L|].
  assert (v <> Unset) as Hne by congruence.
  pose proof (k_settled _ _ _ K p v Hv Hne). congruence.
Qed.

Lemma n_val_keeps s s' (lg : list event) :
  keeps s s' nothing -> (forall p m, promises s !! p = Some (Value m) <-> Matched p m ∈ lg) ->
  forall p m, promises s' !! p = Some (Value m) <-> Matched p m ∈ lg.
Proof.
  intros K H p m. rewrite <- H. split; [by intros [?|[]]%(k_values _ _ _ K)|].
  intros Hp. by apply (k_settled _ _ _ K).
Qed.

(** A call moves; its promise stays or is new. *)
Lemma inv_call s s' l1 c c' l2 ph lg :
  inv (mkSystem s (l1 ++ c :: l2) ph lg) -> keeps s s' nothing -> valid s' = valid s ->
  call_ok s' c' -> (ph = Stopped -> answered s' c') ->
  (promise_of c' = promise_of c \/ exists p, promise_of c = None /\ promise_of c' = Some p /\
     (length (promises s) <= p)%nat) ->
  inv (mkSystem s' (l1 ++ c' :: l2) ph lg).
Proof.
  intros [O C I V L Cl W] K Ev Hc Ha Hp. simpl in *. constructor; simpl.
  - apply K.
  - apply Forall_app in C as [C1 [Cc C2]%Forall_cons]. apply Forall_app. split; [|constructor; [done|]];
      (eapply Forall_impl; [done|]); intros x; by apply call_ok_keeps.
  - rewrite omap_app in I |- *. cbn [omap list_omap] in I |- *.
    destruct Hp as [->|(p & Hn & -> & Hl)]; [done|]. rewrite Hn in I.
    rewrite <- Permutation_middle. apply NoDup_cons. split; [|done].
    rewrite <- omap_app. intros (x & Hx & Hxp)%list_elem_of_omap.
    apply Forall_app in C as [C1 [_ C2]%Forall_cons].
    assert (call_ok s x) as (_ & Hlt & _).
    { rewrite Forall_forall in C1, C2. apply elem_of_app in Hx as [Hx|Hx]; [by apply C1|by apply C2]. }
    specialize (Hlt p Hxp). lia.
  - by eapply n_val_keeps.
  - done.
  - by rewrite Ev.
  - intros Hph. specialize (W Hph). specialize (Ha Hph).
    apply Forall_app in W as [W1 [_ W2]%Forall_cons].
    apply Forall_app in C as [C1 [_ C2]%Forall_cons].
    apply Forall_app. split; [|constructor; [done|]].
    + apply Forall_forall. intros x Hx. rewrite Forall_forall in C1, W1.
      apply (answered_keeps s); auto.
    + apply Forall_forall. intros x Hx. rewrite Forall_forall in C2, W2.
      apply (answered_keeps s); auto.
Qed.

(** The endpoint changes, no call does. *)
Lemma inv_endpoint s s' cs ph ph' lg :
  inv (mkSystem s cs ph lg) -> keeps s s' nothing ->
  (ph' = Closing \/ ph' = Stopped -> valid s' = false) ->
  (ph' = Stopped -> Forall (answered s') cs) ->
  inv (mkSystem s' cs ph' lg).
Proof.
  intros [O C I V L Cl W] K Hv Ha. simpl in *. constructor; simpl; try done.
  - apply K.
  - eapply Forall_impl; [done|]. intros x. by apply call_ok_keeps.
  - by eapply n_val_keeps.
Qed.

Lemma inv_log s cs ph lg e : matched e = None -> inv (mkSystem s cs ph lg) -> inv (mkSystem s cs ph (lg ++ [e])).
Proof.
  intros He [O C I V L Cl W]. simpl in *. constructor; simpl; try done.
  - intros p m. rewrite V, elem_of_app, list_elem_of_singleton. split; [by left|].
    intros [?|<-]; [done|discriminate].
  - rewrite omap_app. simpl. rewrite He. by rewrite app_nil_r.
Qed.

(** Calls without a promise have nothing to keep. *)
Lemma call_ok_plain s c :
  promise_of c = None -> (forall q p seq m, c <> Returned q p (Ok (seq, Some m))) -> call_ok s c.
Proof.
  intros Hp Hr. split; [|split].
  - intros q p seq m E. by destruct (Hr q p seq m).
  - intros p. by rewrite Hp.
  - intros seq p Ho. destruct c as [| |? ? []| |]; try discriminate.
Qed.

Lemma call_ok_failed s q p e :
  (forall p', p = Some p' -> (p' < length (promises s))%nat) -> call_ok s (Returned q p (Error e)).
Proof. intros H. split; [done|]. split; [intros p'; apply H|done]. Qed.

Lemma answered_other s c : (forall q seq p, c <> Waiting q seq p) -> answered s c.
Proof. intros H q seq p E. by destruct (H q seq p). Qed.

Lemma inv_middle s l1 c l2 ph lg : inv (mkSystem s (l1 ++ c :: l2) ph lg) -> call_ok s c /\ ep_ok s.
Proof. intros [O C _ _ _ _ _]. simpl in *. by apply Forall_app in C as [_ [? _]%Forall_cons]. Qed.

Lemma inv_call_step s l1 c l2 ph lg c' s' :
  inv (mkSystem s (l1 ++ c :: l2) ph lg) -> call_step c s = Some (c', s') ->
  inv (mkSystem s' (l1 ++ c' :: l2) ph lg).
Proof.
  intros Hi H. destruct (inv_middle _ _ _ _ _ _ Hi) as [Hc O].
  assert (keeps s s nothing) as Ks by by apply keeps_refl.
  destruct c as [q|q pc|q seq p|q seq p|q p r]; cbn [call_step] in H; try done.
  - destruct (check_send _ _ _ _) as [e|]; injection H as <- <-;
      (eapply inv_call; [done|done|done|by apply call_ok_plain|by intros _; apply answered_other|by left]).
  - destruct pc as [|expected| |seq].
    4: { destruct (q_tracked q).
      - destruct (registerPendingResponse seq s) as [[p|e] s1] eqn:E; injection H as <- <-.
        + destruct (keeps_register _ _ _ _ O E) as (K & T & Hl).
          assert (valid s1 = valid s) as Hv.
          { unfold registerPendingResponse in E. destruct (seq <=? 0); [done|]. injection E as _ <-.
            simpl. destruct (drop_pending_cases seq s) as [[-> _]|(? & _ & ->)]; done. }
          assert (promises s1 !! p = Some Unset) as Hu.
          { unfold registerPendingResponse in E. destruct (seq <=? 0); [done|]. injection E as <- <-.
            simpl. rewrite lookup_app_r, Nat.sub_diag by lia. done. }
          eapply inv_call; [done|exact K|done| |by intros _; apply answered_other|right; eauto].
          split; [done|]. split; [intros ? [= <-]; apply T|]. intros ? ? [= <- <-]. split; [done|].
          intros m. congruence.
        + unfold registerPendingResponse in E. destruct (seq <=? 0); [|done]. injection E as _ <-.
          eapply inv_call; [done|done|done|by apply call_ok_plain|by intros _; apply answered_other|by left].
      - injection H as <- <-.
        eapply inv_call; [done|done|done|by apply call_ok_plain|by intros _; apply answered_other|by left]. }
    all: destruct (seq_step _ (counter s)) as [[pc' c1]|]; simpl in H; [|done];
      injection H as <- <-; eapply inv_call;
      [done|by apply keeps_refl|done|by apply call_ok_plain|by intros _; apply answered_other|by left].
  - destruct (promises s !! p) as [[|m|]|] eqn:Ep; try done; injection H as <- <-;
      (eapply inv_call; [done|done|done| |by intros _; apply answered_other|by left]).
    + destruct Hc as (_ & L & Ho). split; [|split].
      * intros ? ? ? ? [= <- <- <- <-]. exists p. destruct (Ho seq p eq_refl) as [_ V]. eauto.
      * intros ? [= <-]. by apply L.
      * done.
    + apply call_ok_failed. intros ? [= <-]. by apply Hc.
Qed.

Lemma inv_receive s cs lg m s' e :
  inv (mkSystem s cs Receiving lg) -> receive m s = (s', e) ->
  inv (mkSystem s' cs Receiving (lg ++ [e])).
Proof.
  intros Hi H. pose proof Hi as [O C I V L Cl W]. simpl in *.
  destruct (receive_cases _ _ _ _ O H) as [(seq & p & -> & A & Hp & ->)|[-> He]]; cycle 1.
  { apply inv_log; [|done]. by destruct He as [-> | ->]. }
  pose proof (e_unset s O seq p Hp) as Hu.
  assert (Value m <> Unset) as Hne by done.
  destruct (keeps_settle seq p (Value m) s O Hp Hne) as [K1 K2 K3 K4 K5].
  assert (promises (settle seq p (Value m) s) !! p = Some (Value m)) as Hpm
    by (simpl; rewrite complete_lookup; by rewrite decide_True).
  constructor; simpl in *; try (by intros [|]); try done.
  - apply Forall_forall. intros c Hc. rewrite Forall_forall in C. destruct (C c Hc) as (R & Lt & Ow).
    split; [|split].
    + intros q' p' seq' m' E. destruct (R _ _ _ _ E) as (p1 & ? & Hv & ?). exists p1.
      split; [done|]. split; [by apply K4|done].
    + intros p' Hp'. specialize (Lt p' Hp'). simpl. rewrite length_complete. lia.
    + intros seq' p' Ho. destruct (Ow seq' p' Ho) as [T Va]. split; [by apply K2|].
      intros m' Hm'. destruct (K5 _ _ Hm') as [?|[-> [= ->]]]; [by apply Va|].
      destruct T as [_ T]. specialize (T Hu). by rewrite (e_inj s O _ _ _ T Hp).
  - intros p' m'. rewrite elem_of_app, list_elem_of_singleton, <- V. split.
    + intros [?|[-> [= ->]]]%K5; [by left|by right].
    + intros [?|[= -> ->]]; [by apply K4|done].
  - rewrite omap_app. simpl. apply NoDup_app. repeat split; [done| |apply NoDup_singleton].
    intros p' Hp' ->%list_elem_of_singleton. apply list_elem_of_omap in Hp' as ([] & Hin & [= ->]).
    apply V in Hin. congruence.
Qed.

Lemma inv_send s l1 q seq p l2 ph lg data :
  valid s = true -> inv (mkSystem s (l1 ++ Registered q seq p :: l2) ph lg) ->
  inv (mkSystem s (l1 ++ match p with
                         | Some p => Waiting q seq p
                         | None => Returned q None (Ok (seq, None))
                         end :: l2) ph (lg ++ [Sent seq data])).
Proof.
  intros Hv Hi. destruct (inv_middle _ _ _ _ _ _ Hi) as [Hc O]. apply inv_log; [done|].
  assert (ph <> Stopped) as Hph.
  { intros ->. destruct Hi as [_ _ _ _ _ Cl _]. simpl in Cl. by rewrite Cl in Hv by auto. }
  eapply inv_call; [done|by apply keeps_refl|done| |done|by destruct p; left].
  destruct p as [p|]; [|by apply call_ok_plain].
  destruct Hc as (_ & Lt & Ho). split; [done|]. split; [exact Lt|exact Ho].
Qed.

Lemma inv_send_fails s l1 q seq p l2 ph lg e :
  inv (mkSystem s (l1 ++ Registered q seq p :: l2) ph lg) ->
  inv (mkSystem (if p then drop_pending seq s else s) (l1 ++ Returned q p (Error e) :: l2) ph lg).
Proof.
  intros Hi. destruct (inv_middle _ _ _ _ _ _ Hi) as [Hc O].
  assert (keeps s (if p then drop_pending seq s else s) nothing) as K
    by (destruct p; [by apply keeps_drop|by apply keeps_refl]).
  assert (valid (if p then drop_pending seq s else s) = valid s) as Hv.
  { destruct p; [|done]. by destruct (drop_pending_cases seq s) as [[-> _]|(? & _ & ->)]. }
  eapply inv_call; [done|done|done| |by intros _; apply answered_other|by left].
  apply call_ok_failed. intros p' ->. destruct Hc as (_ & Lt & _). specialize (Lt p' eq_refl).
  pose proof (k_len _ _ _ K). lia.
Qed.

Lemma fail_answered s cs : Forall (call_ok s) cs -> Forall (answered (failPendingResponses s)) cs.
Proof.
  intros C. eapply Forall_impl; [exact C|]. intros c (_ & _ & Ho) q seq p ->.
  destruct (Ho seq p eq_refl) as [T _]. by apply (fail_done s seq).
Qed.

Lemma inv_step y y' : inv y -> step y y' -> inv y'.
Proof.
  intros Hi H. destruct H as [s cs ph lg q|s l1 c l2 ph lg c' s' H|s l1 q seq p l2 ph lg data _ Hv
    |s l1 q seq p l2 ph lg e|s l1 q seq p l2 ph lg _ Hu|s cs lg m s' e _ _ H|s cs lg|s cs lg|s cs lg
    |s cs ph lg|s cs lg|s cs lg|s cs ph lg b].
  - destruct Hi as [O C I V L Cl W]. simpl in *. constructor; simpl; try done.
    + apply Forall_app. split; [done|]. constructor; [by apply call_ok_plain|done].
    + rewrite omap_app. simpl. by rewrite app_nil_r.
    + intros Hph. apply Forall_app. split; [by apply W|]. constructor; [by apply answered_other|done].
  - by eapply inv_call_step.
  - by apply inv_send.
  - by apply inv_send_fails.
  - destruct (inv_middle _ _ _ _ _ _ Hi) as [Hc O].
    eapply inv_call; [done|by apply keeps_refl|done| |by intros _; apply answered_other|by left].
    apply call_ok_failed. intros ? [= <-]. by apply Hc.
  - by eapply inv_receive.
  - pose proof Hi as [O _ _ _ _ _ _]. eapply inv_endpoint; [done|by apply keeps_refl| |done]. by intros [|].
  - pose proof Hi as [O _ _ _ _ _ _]. eapply inv_endpoint; [done|by apply keeps_refl|done|done].
  - pose proof Hi as [O C _ _ _ Cl _]. eapply inv_endpoint; [done|by apply keeps_fail| |].
    + intros _. apply Cl. by left.
    + intros _. by apply fail_answered.
  - pose proof Hi as [O _ _ _ _ Cl W]. eapply inv_endpoint; [done|by apply keeps_refl|done|exact W].
  - pose proof Hi as [O C _ _ _ Cl _]. eapply inv_endpoint; [done|by apply keeps_fail| |].
    + intros _. apply Cl. by right.
    + intros _. by apply fail_answered.
  - pose proof Hi as [O _ _ _ _ _ _]. eapply inv_endpoint; [done|by apply keeps_refl| |done]. by intros [|].
  - pose proof Hi as [O _ _ _ _ Cl W]. eapply inv_endpoint; [done|by apply keeps_refl|exact Cl|exact W].
Qed.

Lemma inv_initial : inv initial.
Proof.
  constructor; simpl; try done; try constructor; simpl; try done.
  by intros ?%elem_of_nil.
Qed.

Lemma inv_reachable y : rtc step initial y -> inv y.
Proof.
  intros H. assert (forall x, rtc step x y -> inv x -> inv y) as Hr.
  { clear H. intros x Hx. induction Hx as [|x1 x2 x3 Hs _ IH]; [done|]. intros Hi. apply IH. by eapply inv_step. }
  by apply (Hr initial), inv_initial.
Qed.
