(* ===== verification/IpcEndpointThms.v ===== *)
(** * Dynamic IPC: properties of the endpoint

    A response reaches exactly the call whose sequence number it carries, and no
    call waits for ever once the connection is gone. *)

From Stdlib Require Import ZArith Lia.
From stdpp Require Import relations.
From S2P Require Import Prelude IpcPacket IpcClient IpcEndpoint IpcEndpointInv.
Import IpcPacket IpcClient IpcEndpoint.

(** ** What was sent *)

Definition sent_ok (lg : list event) (c : call) : Prop :=
  match c with
  | Waiting q seq _ | Returned q _ (Ok (seq, _)) =>
      exists data, q_data q = Some data /\ Sent seq (data seq) ∈ lg
  | _ => True
  end.

Lemma sent_ok_mono lg e c : sent_ok lg c -> sent_ok (lg ++ [e]) c.
Proof.
  destruct c as [| | |q seq p|q p [[seq m]|]]; try done;
    intros (data & ? & ?); exists data; (split; [done|]); apply elem_of_app; by left.
Qed.

Lemma sent_ok_snoc lg e cs : Forall (sent_ok lg) cs -> Forall (sent_ok (lg ++ [e])) cs.
Proof. intros H. eapply Forall_impl; [exact H|]. intros c. apply sent_ok_mono. Qed.

Lemma call_step_sent lg c s c' s' : call_step c s = Some (c', s') -> sent_ok lg c -> sent_ok lg c'.
Proof.
  intros H Hc. destruct c as [q|q pc|q seq p|q seq p|q p r]; cbn [call_step] in H; try done.
  - by destruct (check_send _ _ _ _); injection H as <- <-.
  - destruct pc; cycle 3.
    + destruct (q_tracked q); [|by injection H as <- <-].
      by destruct (registerPendingResponse _ s) as [[] ?]; injection H as <- <-.
    + all: destruct (seq_step _ (counter s)) as [[? ?]|]; simpl in H; [by injection H as <- <-|done].
    + all: destruct (seq_step _ (counter s)) as [[? ?]|]; simpl in H; [by injection H as <- <-|done].
    + all: destruct (seq_step _ (counter s)) as [[? ?]|]; simpl in H; [by injection H as <- <-|done].
  - by destruct (promises s !! p) as [[]|]; try done; injection H as <- <-.
Qed.

Lemma replace_call lg l1 c c' l2 :
  Forall (sent_ok lg) (l1 ++ c :: l2) -> (sent_ok lg c -> sent_ok lg c') ->
  Forall (sent_ok lg) (l1 ++ c' :: l2).
Proof. rewrite !Forall_app, !Forall_cons. tauto. Qed.

Lemma sent_step y y' : step y y' -> Forall (sent_ok (log y)) (calls y) -> Forall (sent_ok (log y')) (calls y').
Proof.
  intros H. destruct H as [s cs ph lg q|s l1 c l2 ph lg c' s' H|s l1 q seq p l2 ph lg data Hd Hv
    |s l1 q seq p l2 ph lg e|s l1 q seq p l2 ph lg _ Hu|s cs lg m s' e _ _ H|s cs lg|s cs lg|s cs lg
    |s cs ph lg|s cs lg|s cs lg|s cs ph lg b]; simpl; try done; intros F.
  - apply Forall_app. by split; [|repeat constructor].
  - eapply replace_call; [done|]. by eapply call_step_sent.
  - eapply replace_call; [by apply sent_ok_snoc|]. intros _.
    destruct p; exists data; (split; [done|]); apply elem_of_app; right; left.
  - by eapply replace_call.
  - by eapply replace_call.
  - by apply sent_ok_snoc.
Qed.

Lemma sent_reachable y : rtc step initial y -> Forall (sent_ok (log y)) (calls y).
Proof.
  intros H. assert (forall x, rtc step x y -> Forall (sent_ok (log x)) (calls x) ->
    Forall (sent_ok (log y)) (calls y)) as Hr.
  { clear H. intros x Hx. induction Hx as [|x1 x2 x3 Hs _ IH]; [done|]. intros Hi. apply IH. by eapply sent_step. }
  by apply (Hr initial).
Qed.

(** ** Properties *)

(** C16. In every interleaving a call that returns a response has sent its message with
    a sequence number, and the response is a valid packet with exactly this number
    that the receive loop matched to this call; calls never share a promise and no
    promise is completed twice, so a received message answers at most one call. *)
Theorem endpoint_matching y q p seq m :
  rtc step initial y -> Returned q p (Ok (seq, Some m)) ∈ calls y ->
  (exists data, q_data q = Some data /\ Sent seq (data seq) ∈ log y) /\
  isValidIPCPacketHeader (read_header (r_data m)) = true /\
  seqId (read_header (r_data m)) = seq /\
  (exists p', p = Some p' /\ Matched p' m ∈ log y) /\
  NoDup (omap promise_of (calls y)) /\ NoDup (omap matched (log y)).
Proof.
  intros H Hc. destruct (inv_reachable y H) as [O C I V L _ _].
  pose proof (sent_reachable y H) as S. rewrite Forall_forall in C, S.
  destruct (C _ Hc) as (R & _). destruct (R q p seq m eq_refl) as (p' & -> & Hp & A1 & A2).
  split; [exact (S _ Hc)|]. do 2 (split; [done|]).
  split; [exists p'; split; [done|by apply V]|done].
Qed.

(** What the receive loop still has to do. *)
Definition loop_left (ph : loop) : nat :=
  match ph with Receiving => 3 | Leaving => 2 | Closing => 1 | Stopped => 0 end.

(** C17. No call waits for ever: once the receive loop has come to its end every waiting
    call has its answer, a response or the failure, and returns with its next step,
    whatever the state of the calls was when the connection broke; and until then
    the loop can always move on without any call, and nothing moves it back. *)
Theorem endpoint_never_hangs y :
  rtc step initial y ->
  (phase y = Stopped -> forall q seq p, Waiting q seq p ∈ calls y ->
     exists r, call_step (Waiting q seq p) (ep y) = Some (Returned q (Some p) r, ep y)) /\
  (phase y <> Stopped ->
     (exists y', step y y' /\ calls y' = calls y /\ (loop_left (phase y') < loop_left (phase y))%nat) /\
     forall y', step y y' -> (loop_left (phase y') <= loop_left (phase y))%nat).
Proof.
  intros H. split.
  - intros P q seq p Hin. destruct (inv_reachable y H) as [_ C _ _ _ _ W]. specialize (W P).
    rewrite Forall_forall in C, W. specialize (W _ Hin q seq p eq_refl).
    destruct (C _ Hin) as (_ & Lt & _). destruct (lookup_lt_is_Some_2 _ _ (Lt p eq_refl)) as [v Hp].
    simpl. rewrite Hp in W |- *. destruct v as [|m|]; [done|eauto..].
  - intros P. split.
    + destruct y as [s cs ph lg]. destruct ph; [..|done].
      * exists (mkSystem s cs Leaving lg). split; [apply step_leave|]. simpl. split; [done|lia].
      * exists (mkSystem (set_channel false false s) cs Closing lg).
        split; [apply step_close_channel|]. simpl. split; [done|lia].
      * exists (mkSystem (failPendingResponses s) cs Stopped lg).
        split; [apply step_fail|]. simpl. split; [done|lia].
    + intros y' Hs. destruct Hs; simpl in *; try lia; try done.
Qed.

(** ** Witnesses *)

(** Steps of a system with one call, executed. *)
Inductive action := Connect | Enter (q : request) | Go | Send | Receive (m : received) | Break.

Definition exec (a : action) (y : system) : option system :=
  match a, y with
  | Connect, mkSystem s cs Stopped lg => Some (mkSystem (set_channel true true s) cs Receiving lg)
  | Enter q, mkSystem s cs ph lg => Some (mkSystem s (cs ++ [Entered q]) ph lg)
  | Go, mkSystem s [c] ph lg => '(c', s') ← call_step c s; Some (mkSystem s' [c'] ph lg)
  | Send, mkSystem s [Registered q seq (Some p)] ph lg =>
      data ← q_data q;
      if valid s then Some (mkSystem s [Waiting q seq p] ph (lg ++ [Sent seq (data seq)])) else None
  | Receive m, mkSystem s cs Receiving lg =>
      if valid s && receiveLoopRunning s
      then Some (mkSystem (receive m s).1 cs Receiving (lg ++ [(receive m s).2])) else None
  | Break, mkSystem s cs Receiving lg =>
      Some (mkSystem (failPendingResponses (set_channel false false s)) cs Stopped lg)
  | _, _ => None
  end.

Lemma exec_step a y y' : exec a y = Some y' -> rtc step y y'.
Proof.
  destruct y as [s cs ph lg], a as [|q| | |m|]; cbn [exec]; intros H.
  - destruct ph; try done. injection H as <-. apply rtc_once, step_connect.
  - injection H as <-. apply rtc_once, step_enter.
  - destruct cs as [|c [|]]; try done. destruct (call_step c s) as [[c' s']|] eqn:E; simpl in H; [|done].
    injection H as <-. apply rtc_once. by apply (step_call s [] c []).
  - destruct cs as [|[| |q seq [p|]| |] [|]]; try done. destruct (q_data q) as [data|] eqn:Ed; simpl in H; [|done].
    destruct (valid s) eqn:Ev; [|done]. injection H as <-. apply rtc_once.
    by apply (step_send s [] q seq (Some p) [] ph lg data).
  - destruct ph; try done. destruct (valid s && receiveLoopRunning s) eqn:Ev; [|done].
    injection H as <-. apply andb_true_iff in Ev as [? ?]. apply rtc_once.
    eapply step_receive; [done|done|]. apply surjective_pairing.
  - destruct ph; try done. injection H as <-. eapply rtc_l; [apply step_leave|].
    eapply rtc_l; [apply step_close_channel|]. apply rtc_once, step_fail.
Qed.

Fixpoint execs (l : list action) (y : system) : option system :=
  match l with [] => Some y | a :: l => y' ← exec a y; execs l y' end.

Lemma execs_step l y y' : execs l y = Some y' -> rtc step y y'.
Proof.
  revert y. induction l as [|a l IH]; intros y H; [by injection H as <-|]. cbn [execs] in H.
  destruct (exec a y) as [y1|] eqn:E; simpl in H; [|done].
  etransitivity; [by eapply exec_step|by apply IH].
Qed.

(** A request to free a buffer, and its response. *)
Definition free_request : request :=
  mkReq (Some (request_bytes 7 IPCPacketRequestFreeBuffer FreeBuffer 0 (4096, tt)))
    (sizeof IPCPacketRequestFreeBuffer) (-1) true true false.
Definition free_response : received :=
  mkReceived (packet_bytes (initializeIPCPacket 7 IPCPacketResponseFreeBuffer FreeBuffer 1 7)
    IPCPacketResponseFreeBuffer (0, tt)) (-1).
Definition schedule : list action := [Connect; Enter free_request; Go; Go; Go; Send].

Definition answered_run : system :=
  default initial (execs (schedule ++ [Receive free_response; Go]) initial).
Definition broken_run : system := default initial (execs (schedule ++ [Break]) initial).

Lemma endpoint_matching_witness :
  execs (schedule ++ [Receive free_response; Go]) initial = Some answered_run /\
  calls answered_run = [Returned free_request (Some 0%nat) (Ok (1, Some free_response))] /\
  seqId (read_header (r_data free_response)) = 1.
Proof.
  assert (execs (schedule ++ [Receive free_response; Go]) initial = Some answered_run) as E
    by vm_cast_no_check (eq_refl (Some answered_run)).
  assert (calls answered_run = [Returned free_request (Some 0%nat) (Ok (1, Some free_response))]) as Hc
    by vm_cast_no_check (eq_refl (calls answered_run)).
  split; [exact E|]. split; [exact Hc|].
  destruct (endpoint_matching answered_run free_request (Some 0%nat) 1 free_response)
    as (_ & _ & H & _).
  - exact (execs_step _ _ _ E).
  - rewrite Hc. left.
  - exact H.
Defined.

(** The connection breaks while the call waits. *)
Lemma endpoint_never_hangs_witness :
  exists r, execs (schedule ++ [Break]) initial = Some broken_run /\
    calls broken_run = [Waiting free_request 1 0%nat] /\
    call_step (Waiting free_request 1 0%nat) (ep broken_run) =
      Some (Returned free_request (Some 0%nat) r, ep broken_run).
Proof.
  assert (execs (schedule ++ [Break]) initial = Some broken_run) as E
    by vm_cast_no_check (eq_refl (Some broken_run)).
  assert (calls broken_run = [Waiting free_request 1 0%nat]) as Hc
    by vm_cast_no_check (eq_refl (calls broken_run)).
  assert (phase broken_run = Stopped) as Hp by vm_cast_no_check (eq_refl Stopped).
  destruct (proj1 (endpoint_never_hangs broken_run (execs_step _ _ _ E)) Hp free_request 1 0%nat)
    as [r Hr].
  - rewrite Hc. left.
  - exists r. split; [exact E|]. split; [exact Hc|exact Hr].
Defined.
