(* ===== verification/InferenceJob.v ===== *)
(** * Inference jobs: definitions

    [lib/inference_job.cpp]: a job runs the task graph of a model once.  The
    devices and CPU workers complete requests in any order and from any thread;
    each completion publishes the tensors of its task, starts the tasks that have
    become ready, and the last one finishes the job.

    A thread inside [onRequestComplete] is a list of the successors it still has
    to look at; the sections under [_lock], and the stretches in which a thread
    alone can touch a task, are single steps.  [_taskStatusMap] is read and written
    by index-free task names as in the code.  The build without [USE_VNPU] and
    [USE_PROFILER] is modelled, without the dumps of [DEBUG_DATA]. *)

From Stdlib Require Import ZArith Lia.
From stdpp Require Import strings.
From S2P Require Import Prelude FormatHandler.

Module InferenceJob.

(** ** Data *)

(** A pointer: a block of memory and an offset into it; [None] is null. *)
Abbreviation ptr := (option (Z * Z)).
Abbreviation heap := (gmap Z (list Z)).

Definition shift (p : ptr) (n : Z) : ptr := (fun q => (q.1, q.2 + n)) <$> p.

(** [t_size] is [size_in_bytes()]. *)
Record Tensor := mkTensor { t_name : string; t_size : Z; t_data : ptr; t_phy : Z }.

Definition set_data (t : Tensor) (d : ptr) : Tensor := mkTensor (t_name t) (t_size t) d (t_phy t).
Definition set_addr (t : Tensor) (d : ptr) (phy : Z) : Tensor := mkTensor (t_name t) (t_size t) d phy.

(** [nexts] points into the list of tasks of the model. *)
Record Task := mkTask {
  task_name : string;
  task_inputs : list Tensor; inputOffsets : list Z;
  task_outputs : list Tensor;
  task_nexts : list nat;
  is_tail : bool;
  is_npu : bool
}.

(** What a job uses of its engine. *)
Record engine := mkEngine {
  tasks : list Task;
  modelInputNames : list string;
  lastOutputOrder : list string;
  GetOutputTensorOffset : string -> Z
}.

Inductive Status := TASK_IDLE | TASK_READY | TASK_BUSY | TASK_DONE.
#[export] Instance Status_eq_dec : EqDecision Status.
Proof. solve_decision. Defined.

(** [Request::Status] *)
Inductive RequestStatus := REQ_IDLE | REQ_BUSY | REQ_DONE.

(** The outputs are empty unless they are mapped to the buffer of the user. *)
Record request := mkRequest { r_task : nat; r_inputs : list Tensor; r_outputs : list Tensor }.

(** A returned tensor; its bytes when they were copied into memory of its own. *)
Record returned := mkReturned { ret_tensor : Tensor; ret_copy : option (list Z) }.

Record job := mkJob {
  tensors : gmap string Tensor;
  taskStatusMap : gmap string Status;
  outputCount : Z; doneCount : Z;
  outputs : list string;
  latency : Z; infTime : Z;
  outputPtr : ptr;
  storeResult : bool;
  status : RequestStatus;
  requests : list request;
  returnOutputs : list returned;
  occupied : bool
}.

Definition set_tensors (m : gmap string Tensor) (j : job) : job :=
  mkJob m (taskStatusMap j) (outputCount j) (doneCount j) (outputs j) (latency j) (infTime j)
    (outputPtr j) (storeResult j) (status j) (requests j) (returnOutputs j) (occupied j).
Definition set_taskStatus (n : string) (s : Status) (j : job) : job :=
  mkJob (tensors j) (<[n := s]> (taskStatusMap j)) (outputCount j) (doneCount j) (outputs j)
    (latency j) (infTime j) (outputPtr j) (storeResult j) (status j) (requests j)
    (returnOutputs j) (occupied j).
Definition add_request (r : request) (j : job) : job :=
  mkJob (tensors j) (taskStatusMap j) (outputCount j) (doneCount j) (outputs j) (latency j)
    (infTime j) (outputPtr j) (storeResult j) (status j) (requests j ++ [r])
    (returnOutputs j) (occupied j).
Definition set_returnOutputs (l : list returned) (j : job) : job :=
  mkJob (tensors j) (taskStatusMap j) (outputCount j) (doneCount j) (outputs j) (latency j)
    (infTime j) (outputPtr j) (storeResult j) (status j) (requests j) l (occupied j).
Definition set_started (out : ptr) (j : job) : job :=
  mkJob (tensors j) (taskStatusMap j) (outputCount j) (doneCount j) (outputs j) (latency j)
    (infTime j) out (storeResult j) REQ_BUSY (requests j) (returnOutputs j) (occupied j).

(** ** Setting up *)

(** The requests and the outputs of an earlier run are left. *)
Definition Clear (j : job) : job :=
  mkJob ∅ (taskStatusMap j) 0 0 (outputs j) 0 0 None false REQ_IDLE (requests j)
    (returnOutputs j) false.

(** All tasks idle; [map::insert] keeps the first of two tasks of one name. *)
Definition SetInferenceJob (e : engine) (j : job) : job :=
  let j1 := Clear j in
  mkJob (tensors j1)
    (foldl (fun m t => if m !! task_name t then m else <[task_name t := TASK_IDLE]> m)
       ∅ (tasks e))
    (i32 (Z.of_nat (length (tasks e)))) 0 (lastOutputOrder e) 0 0 (outputPtr j1) (storeResult j1)
    (status j1) (requests j1) (returnOutputs j1) (occupied j1).

Definition SetStoreResult (b : bool) (j : job) : job :=
  mkJob (tensors j) (taskStatusMap j) (outputCount j) (doneCount j) (outputs j) (latency j)
    (infTime j) (outputPtr j) b (status j) (requests j) (returnOutputs j) (occupied j).

(** [map::insert]: an element that is present stays. *)
Definition insert_tensor (n : string) (t : Tensor) (m : gmap string Tensor) : gmap string Tensor :=
  match m !! n with Some _ => m | None => <[n := t]> m end.

(** The input of this name of a task. *)
Definition find_input (n : string) (t : Task) : option Tensor :=
  find (fun i => bool_decide (t_name i = n)) (task_inputs t).

(** ** Readiness *)

Definition checkAndSetTaskReady (t : Task) (j : job) : job * bool :=
  match taskStatusMap j !! task_name t with
  | None => (j, false)
  | Some s =>
      if negb (bool_decide (s = TASK_IDLE)) then (j, false)
      else if existsb (fun i => if tensors j !! t_name i then false else true) (task_inputs t)
           then (j, false)
      else (set_taskStatus (task_name t) TASK_READY j, true)
  end.

(** The inputs of a task with the addresses of the tensors produced so far. *)
Definition map_input (m : gmap string Tensor) (i : Tensor) : Tensor :=
  match m !! t_name i with Some t => set_addr i (t_data t) (t_phy t) | None => i end.

Definition processReadyTask (k : nat) (t : Task) (j : job) : job * option request :=
  match taskStatusMap j !! task_name t with
  | Some TASK_READY =>
      let next_input_tensors := map_input (tensors j) <$> task_inputs t in
      if existsb (fun i => if t_data i then false else true) next_input_tensors
      then (set_taskStatus (task_name t) TASK_IDLE j, None)
      else
        let req := mkRequest k next_input_tensors [] in
        (set_taskStatus (task_name t) TASK_BUSY (add_request req j), Some req)
  | _ => (j, None)
  end.

(** ** Starting *)

(** [Task::inputs(ptr)]; [None] when the offsets are fewer than the tensors. *)
Definition inputs_at (t : Task) (p : ptr) : option (list Tensor) :=
  match p with
  | None => Some []
  | Some _ =>
      if (length (inputOffsets t) <? length (task_inputs t))%nat then None
      else Some (zip_with (fun i o => set_addr i (shift p o) (u64 o)) (task_inputs t) (inputOffsets t))
  end.

(** The model input [n] as it is seen by the first task that has it, and whether a
    task other than the head uses it. *)
Definition shared_input (e : engine) (head : nat) (n : string) : option Tensor :=
  let users := filter (fun kt => is_Some (find_input n kt.2)) (imap pair (tasks e)) in
  if existsb (fun kt => negb (kt.1 =? head)%nat) users
  then kt ← List.hd_error users; find_input n kt.2 else None.

Definition BuildUserOutputTensorsForTailTask (e : engine) (t : Task) (base : ptr)
    (order : list string) : list Tensor :=
  match base with
  | None => []
  | Some _ =>
      (fun o => set_data o (shift base (GetOutputTensorOffset e (t_name o)))) <$>
        filter (fun o => t_name o ∈ order) (task_outputs t)
  end.

(** The head task is started as it is: its status stays [TASK_IDLE]. *)
Definition startJob (e : engine) (head : nat) (inputPtr out : ptr) (j : job)
    : option (job * request) :=
  t ← tasks e !! head;
  let j1 := set_started out j in
  let add m n :=
    match shared_input e head n with
    | Some i => insert_tensor n (set_addr i inputPtr 0) m
    | None => m
    end in
  let j2 := set_tensors (foldl add (tensors j1) (modelInputNames e)) j1 in
  ins ← inputs_at t inputPtr;
  let outs :=
    match out with
    | Some _ => if is_tail t then BuildUserOutputTensorsForTailTask e t out (outputs j2) else []
    | None => []
    end in
  let req := mkRequest head ins outs in
  mret (add_request req j2, req).

(** The tensor of an external input; a tensor no task knows is a single [FLOAT]. *)
Definition external_tensor (e : engine) (n : string) (d : ptr) : Tensor :=
  match find (fun t => if find_input n t then true else false) (tasks e) with
  | Some t => match find_input n t with
              | Some i => mkTensor n (t_size i) d 0
              | None => mkTensor n 4 d 0
              end
  | None => mkTensor n 4 d 0
  end.

(** Everything before the loop that starts the ready tasks. *)
Definition startMultiInputJob (e : engine) (inputTensors : list (string * ptr)) (out : ptr)
    (j : job) : job :=
  let j1 := set_started out j in
  set_tensors
    (foldl (fun m '(n, d) => insert_tensor n (external_tensor e n d) m) (tensors j1) inputTensors) j1.

(** ** Completion of a request *)

(** What the worker reports with a request. *)
Record completion := mkCompletion {
  c_outputs : list Tensor; c_latency : Z; c_queueWaitTime : Z; c_inference_time : Z
}.

Definition publish (os : list Tensor) (m : gmap string Tensor) : gmap string Tensor :=
  foldl (fun m o => <[t_name o := o]> m) m os.

(** The section under [_lock]: whether this was the last task, or [None] when the
    task is not of this job and an exception is thrown. *)
Definition onRequestComplete (t : Task) (c : completion) (j : job) : job * option bool :=
  let m := publish (c_outputs c) (tensors j) in
  match taskStatusMap j !! task_name t with
  | None => (set_tensors m j, None)
  | Some _ =>
      let done_ := i32 (doneCount j + 1) in
      (mkJob m (<[task_name t := TASK_DONE]> (taskStatusMap j)) (outputCount j) done_ (outputs j)
         (i32 (latency j + Z.max 0 (c_latency c - c_queueWaitTime c)))
         (if is_npu t then u32 (infTime j + c_inference_time c) else infTime j)
         (outputPtr j) (storeResult j) (status j) (requests j) (returnOutputs j) (occupied j),
       Some (done_ =? outputCount j))
  end.

(** ** The end of a job *)

(** How [onAllRequestComplete] ends. *)
Inductive outcome :=
| Finished
| Threw        (* an output is missing: the exception leaves the function *)
| Undefined.   (* an access outside a block *)

#[export] Instance outcome_eq_dec : EqDecision outcome.
Proof. solve_decision. Defined.

(** One output: copied into memory of its own, or into the buffer of the user. *)
Definition return_output (e : engine) (out : ptr) (n : string) (t : Tensor) (h : heap)
    : option (returned * heap) :=
  match out with
  | None =>
      src ← t_data t;
      b ← h !! src.1;
      if FormatHandler.in_block src.2 (t_size t) b
      then Some (mkReturned t (Some (FormatHandler.slice src.2 (t_size t) b)), h) else None
  | Some d =>
      let dest := (d.1, d.2 + GetOutputTensorOffset e n) in
      h' ← match t_data t with
           | Some src =>
               if decide (src = dest) then Some h
               else FormatHandler.memcpy dest.1 dest.2 (FormatHandler.Ptr src.1) src.2 (t_size t) h
           | None => Some h
           end;
      mret (mkReturned (set_data t (Some dest)) None, h')
  end.

(** The loop over [_outputs]; missing names are skipped and reported at the end. *)
Fixpoint return_outputs (e : engine) (out : ptr) (m : gmap string Tensor) (names : list string)
    (h : heap) : option (list returned * list string * heap) :=
  match names with
  | [] => Some ([], [], h)
  | n :: names =>
      match m !! n with
      | None =>
          '(rs, missing, h') ← return_outputs e out m names h;
          mret (rs, n :: missing, h')
      | Some t =>
          '(r, h1) ← return_output e out n t h;
          '(rs, missing, h') ← return_outputs e out m names h1;
          mret (r :: rs, missing, h')
      end
  end.

Definition setReturnOutputs (e : engine) (j : job) (h : heap) : outcome * job * heap :=
  match return_outputs e (outputPtr j) (tensors j) (outputs j) h with
  | None => (Undefined, j, h)
  | Some (rs, [], h') => (Finished, set_returnOutputs rs j, h')
  | Some (_, _ :: _, h') => (Threw, j, h')
  end.

(** [ReleaseAllOutputBuffer], [setStatus(REQ_DONE)] and [SetOccupiedJob(false)]. *)
Definition release (j : job) : job :=
  mkJob (tensors j) (taskStatusMap j) (outputCount j) (doneCount j) (outputs j) (latency j)
    (infTime j) (outputPtr j) (storeResult j) REQ_DONE [] (returnOutputs j) false.

(** The outcome, the outputs given to the callbacks and the requests reset. *)
Definition onAllRequestComplete (e : engine) (j : job) (h : heap)
    : outcome * list Tensor * list request * job * heap :=
  let buildReturnOutputs := storeResult j || (if outputPtr j then true else false) in
  if buildReturnOutputs then
    match setReturnOutputs e j h with
    | (Finished, j', h') =>
        (Finished, ret_tensor <$> returnOutputs j', requests j', release j', h')
    | (o, j', h') => (o, [], [], j', h')
    end
  else (Finished, omap (fun n => tensors j !! n) (outputs j), requests j, release j, h).

(** ** Steps *)

(** A thread in [onRequestComplete] or [startMultiInputJob]: the tasks it has still
    to look at, the one it has just made ready, and whether it ends the job. *)
Record thread := mkThread { ready : option nat; pending : list nat; ends : bool }.

Inductive event :=
| Launched (r : request)
| Completed (r : request) (c : completion)
| Ended (o : outcome) (callback : list Tensor) (reset : list request).

Record state := mkState {
  jb : job;
  threads : list thread;
  outstanding : list request;
  mem : heap;
  log : list event
}.

(** What the workers do with the outputs of a request: those that are mapped are
    kept, else the outputs of the task are set; all get an address. *)
Definition request_outputs (t : Task) (r : request) : list Tensor :=
  match r_outputs r with [] => task_outputs t | outs => outs end.
Definition completes (t : Task) (r : request) (c : completion) : Prop :=
  t_name <$> c_outputs c = t_name <$> request_outputs t r /\
  Forall (fun o => is_Some (t_data o)) (c_outputs c).

Section Steps.
Context (e : engine).

(** The next action of a thread. *)
Definition thread_step (th : thread) (s : state) : option (list thread * state) :=
  let '(mkState j ths out h lg) := s in
  match ready th, pending th with
  | Some k, _ =>
      t ← tasks e !! k;
      let '(j', r) := processReadyTask k t j in
      let th' := mkThread None (pending th) (ends th) in
      match r with
      | Some r => Some ([th'], mkState j' ths (out ++ [r]) h (lg ++ [Launched r]))
      | None => Some ([th'], mkState j' ths out h lg)
      end
  | None, k :: l =>
      t ← tasks e !! k;
      let '(j', ok) := checkAndSetTaskReady t j in
      Some ([mkThread (if ok then Some k else None) l (ends th)], mkState j' ths out h lg)
  | None, [] =>
      if ends th then
        let '(o, cb, rst, j', h') := onAllRequestComplete e j h in
        Some ([], mkState j' ths out h' (lg ++ [Ended o cb rst]))
      else Some ([], s)
  end.

Inductive step : state -> state -> Prop :=
| step_complete l1 r l2 t c j ths h lg j' fin :
    tasks e !! r_task r = Some t -> completes t r c ->
    onRequestComplete t c j = (j', Some fin) ->
    step (mkState j ths (l1 ++ r :: l2) h lg)
         (mkState j' (ths ++ [mkThread None (task_nexts t) fin]) (l1 ++ l2) h
            (lg ++ [Completed r c]))
| step_thread l1 th l2 j out h lg new s' :
    thread_step th (mkState j (l1 ++ l2) out h lg) = Some (new, s') ->
    step (mkState j (l1 ++ th :: l2) out h lg)
         (mkState (jb s') (l1 ++ new ++ l2) (outstanding s') (mem s') (log s')).
End Steps.

(** The states in which the two entry points return or start their loop; the loop
    visits the tasks in the order of an [unordered_map]. *)
Definition started_single (j : job) (r : request) (h : heap) : state :=
  mkState j [] [r] h [Launched r].
Definition started_multi (j : job) (order : list nat) (h : heap) : state :=
  mkState j [mkThread None order false] [] h [].

End InferenceJob.
