(* ===== verification/JobInv.v ===== *)
(** * Inference jobs: the invariant

    Which requests are outstanding, which tasks are ready, and that no ready task
    is forgotten, in every interleaving of completions and threads. *)

From Stdlib Require Import ZArith Lia.
From stdpp Require Import strings.
From S2P Require Import Prelude InferenceJob.
Import InferenceJob.

Lemma length_filter_flip `{EqDecision A} (P Q : A -> Prop) `{forall x, Decision (P x)} `{forall x, Decision (Q x)}
    (l : list A) x :
  NoDup l -> x ∈ l -> ~ P x -> Q x -> (forall y, y <> x -> P y <-> Q y) ->
  length (filter Q l) = S (length (filter P l)).
Proof.
  intros Hl Hx HP HQ HE. induction Hl as [|y l Hy Hl IH]; [by apply elem_of_nil in Hx|].
  destruct (decide (y = x)) as [->|Hne].
  - rewrite (filter_cons_True Q), (filter_cons_False P) by done. simpl. do 2 f_equal.
    clear -Hy HE. induction l as [|z l IH]; [done|]. apply not_elem_of_cons in Hy as [Hz Hy].
    rewrite !filter_cons. destruct (decide (Q z)) as [q|q], (decide (P z)) as [p|p]; simpl;
      rewrite ?IH by done; try done; exfalso; firstorder.
  - apply elem_of_cons in Hx as [->|Hx]; [done|]. rewrite !filter_cons.
    destruct (decide (Q y)) as [q|q], (decide (P y)) as [p|p]; simpl;
      rewrite ?IH by done; try done; exfalso; firstorder.
Qed.

(** ** The task graph *)

Section Graph.
Context (e : engine).

Definition has_input (t : Task) (n : string) : Prop := n ∈ t_name <$> task_inputs t.
Definition has_output (t : Task) (n : string) : Prop := n ∈ t_name <$> task_outputs t.

Definition consumed (n : string) : Prop := exists k t, tasks e !! k = Some t /\ has_input t n.
Definition produced (n : string) : Prop := exists k t, tasks e !! k = Some t /\ has_output t n.
(** A task reads the tensor, or it is an output of the model. *)
Definition needed (n : string) : Prop := consumed n \/ n ∈ lastOutputOrder e.

(** Names are unique, [nexts] holds the tasks that read an output, and the graph has
    no cycle. *)
Record graph_ok (rank : nat -> nat) : Prop := {
  g_names : NoDup (task_name <$> tasks e);
  g_valid : forall k t k', tasks e !! k = Some t -> k' ∈ task_nexts t -> is_Some (tasks e !! k');
  g_consumer : forall k t n k' t', tasks e !! k = Some t -> has_output t n ->
    tasks e !! k' = Some t' -> has_input t' n -> k' ∈ task_nexts t;
  g_rank : forall k t k', tasks e !! k = Some t -> k' ∈ task_nexts t -> (rank k < rank k')%nat
}.

(** The status of a task by its index. *)
Definition stage (m : gmap string Status) (k : nat) : option Status :=
  t ← tasks e !! k; m !! task_name t.

Lemma stage_Some m k s : stage m k = Some s -> is_Some (tasks e !! k).
Proof. unfold stage. by destruct (tasks e !! k). Qed.

Lemma stage_at m k t : tasks e !! k = Some t -> m !! task_name t = stage m k.
Proof. unfold stage. by intros ->. Qed.

Lemma names_inj k k' t t' :
  NoDup (task_name <$> tasks e) -> tasks e !! k = Some t -> tasks e !! k' = Some t' ->
  task_name t = task_name t' -> k = k'.
Proof.
  intros G Hk Hk' E. apply (NoDup_lookup _ _ _ (task_name t) G);
    rewrite list_lookup_fmap; [by rewrite Hk|by rewrite Hk', E].
Qed.

Lemma stage_insert m k t s k' :
  NoDup (task_name <$> tasks e) -> tasks e !! k = Some t ->
  stage (<[task_name t := s]> m) k' = if decide (k' = k) then Some s else stage m k'.
Proof.
  intros G Hk. unfold stage. destruct (decide (k' = k)) as [->|Hne].
  - rewrite Hk. simpl. by rewrite lookup_insert_eq.
  - destruct (tasks e !! k') as [t'|] eqn:Hk'; simpl; [|done].
    rewrite lookup_insert_ne; [done|]. intros E. apply Hne. symmetry.
    by eapply (names_inj k k' t t').
Qed.

(** The number of tasks at a status. *)
Definition count (m : gmap string Status) (s : Status) : nat :=
  length (filter (fun k => stage m k = Some s) (seq 0 (length (tasks e)))).

Lemma count_le m s : (count m s <= length (tasks e))%nat.
Proof. unfold count. etransitivity; [apply length_filter|]. by rewrite length_seq. Qed.

Lemma count_lt m s k t :
  tasks e !! k = Some t -> stage m k <> Some s -> (count m s < length (tasks e))%nat.
Proof.
  intros Hk Hs. unfold count. rewrite <- (length_seq (length (tasks e)) 0) at 2.
  apply length_filter_lt with k; [|done]. apply elem_of_seq. apply lookup_lt_Some in Hk. lia.
Qed.

Lemma count_insert m s k t :
  NoDup (task_name <$> tasks e) -> tasks e !! k = Some t -> stage m k <> Some s ->
  count (<[task_name t := s]> m) s = S (count m s).
Proof.
  intros G Hk Hs. unfold count. apply length_filter_flip with k.
  - apply NoDup_seq.
  - apply elem_of_seq. apply lookup_lt_Some in Hk. lia.
  - done.
  - rewrite (stage_insert m k t s k G Hk). by rewrite decide_True.
  - intros k' Hne. rewrite (stage_insert m k t s k' G Hk). by rewrite decide_False.
Qed.
End Graph.

(** ** Observations of a state *)

(** The head is started without leaving [TASK_IDLE]. *)
Definition status_of (e : engine) (head : option nat) (m : gmap string Status) (k : nat)
    : option Status :=
  if decide (head = Some k /\ stage e m k = Some TASK_IDLE) then Some TASK_BUSY else stage e m k.

Definition launched (ev : event) : option request :=
  match ev with Launched r => Some r | _ => None end.
Definition launches (lg : list event) : list request := omap launched lg.
Definition end_of (ev : event) : option outcome :=
  match ev with Ended o _ _ => Some o | _ => None end.
Definition endings (lg : list event) : list outcome := omap end_of lg.
Definition readies (ths : list thread) : list nat := omap ready ths.
Definition last_threads (ths : list thread) : list thread := filter (fun th => ends th = true) ths.

#[export] Instance readies_perm : Proper ((≡ₚ) ==> (≡ₚ)) readies.
Proof. intros l l' H. unfold readies. by rewrite H. Qed.
#[export] Instance last_threads_perm : Proper ((≡ₚ) ==> (≡ₚ)) last_threads.
Proof. intros l l' H. unfold last_threads. by rewrite H. Qed.

Lemma launches_snoc lg ev : launches (lg ++ [ev]) = launches lg ++ option_list (launched ev).
Proof. unfold launches. rewrite omap_app. simpl. by destruct (launched ev). Qed.
Lemma endings_snoc lg ev : endings (lg ++ [ev]) = endings lg ++ option_list (end_of ev).
Proof. unfold endings. rewrite omap_app. simpl. by destruct (end_of ev). Qed.

Lemma status_of_insert e head m k t s k' :
  NoDup (task_name <$> tasks e) -> tasks e !! k = Some t -> s <> TASK_IDLE ->
  status_of e head (<[task_name t := s]> m) k' =
  if decide (k' = k) then Some s else status_of e head m k'.
Proof.
  intros G Hk Hs. unfold status_of. rewrite !(stage_insert e m k t s k' G Hk).
  destruct (decide (k' = k)) as [->|]; [|done].
  rewrite decide_False; [done|]. intros [_ ?]. congruence.
Qed.

Lemma status_of_DONE e head m k :
  status_of e head m k = Some TASK_DONE <-> stage e m k = Some TASK_DONE.
Proof. unfold status_of. destruct (decide _) as [[_ E]|]; [|done]. rewrite E. done. Qed.

Lemma status_of_is_Some e head m k : is_Some (status_of e head m k) -> is_Some (stage e m k).
Proof. unfold status_of. case_decide as H; [|done]. destruct H as [_ ->]. eauto. Qed.

Lemma status_of_stage e head m k : head <> Some k -> status_of e head m k = stage e m k.
Proof. intros H. unfold status_of. by rewrite decide_False by tauto. Qed.

(** ** Bookkeeping: statuses, requests and threads *)

Section TasksInv.
Context (e : engine) (head : option nat) (names : NoDup (task_name <$> tasks e)).
Abbreviation st := (status_of e head).

Record tasks_inv (m : gmap string Status) (ths : list thread) (out : list request)
    (lg : list event) : Prop := {
  ti_dom : forall k, is_Some (tasks e !! k) -> is_Some (st m k);
  ti_out : NoDup (r_task <$> out);
  ti_busy : forall k, k ∈ r_task <$> out <-> st m k = Some TASK_BUSY;
  ti_readies : NoDup (readies ths);
  ti_ready : forall k, k ∈ readies ths <-> st m k = Some TASK_READY;
  ti_pending : forall th k, th ∈ ths -> k ∈ pending th -> is_Some (tasks e !! k) /\ head <> Some k;
  ti_log : NoDup (r_task <$> launches lg);
  ti_launched : forall k,
    k ∈ r_task <$> launches lg <-> st m k = Some TASK_BUSY \/ st m k = Some TASK_DONE
}.

#[export] Instance tasks_inv_perm m : Proper ((≡ₚ) ==> (≡ₚ) ==> (=) ==> iff) (tasks_inv m).
Proof.
  assert (forall ths ths' out out' lg, ths ≡ₚ ths' -> out ≡ₚ out' ->
    tasks_inv m ths out lg -> tasks_inv m ths' out' lg) as Hmain.
  { intros ths ths' out out' lg H1 H2 []. constructor; try done.
    - by rewrite <- H2.
    - intros k. by rewrite <- H2.
    - by rewrite <- H1.
    - intros k. by rewrite <- H1.
    - intros th k. rewrite <- H1. eauto. }
  intros ths ths' H1 out out' H2 lg lg' <-. split; by apply Hmain.
Qed.

(** A request is completed. *)
Lemma tasks_inv_complete m ths r out t lg c fin :
  tasks e !! r_task r = Some t ->
  (forall k, k ∈ task_nexts t -> is_Some (tasks e !! k) /\ head <> Some k) ->
  tasks_inv m ths (r :: out) lg ->
  tasks_inv (<[task_name t := TASK_DONE]> m) (mkThread None (task_nexts t) fin :: ths) out
    (lg ++ [Completed r c]).
Proof.
  intros Ht Hn [D O B R1 R2 P L1 L2]. apply NoDup_cons in O as [O1 O2].
  assert (st m (r_task r) = Some TASK_BUSY) as Hr by (apply B; left).
  assert (forall k, st (<[task_name t := TASK_DONE]> m) k =
    if decide (k = r_task r) then Some TASK_DONE else st m k) as E
    by (intros; by apply status_of_insert).
  constructor.
  - intros k Hk. rewrite E. destruct (decide _); eauto.
  - done.
  - intros k. rewrite E. destruct (decide (k = r_task r)) as [->|Hne]; [done|].
    rewrite <- B, fmap_cons, elem_of_cons. tauto.
  - done.
  - intros k. rewrite E. destruct (decide (k = r_task r)) as [->|Hne]; [|apply R2].
    rewrite (R2 (r_task r)), Hr. done.
  - intros th k [->|Hth]%elem_of_cons Hk; [by apply Hn|eauto].
  - rewrite launches_snoc. simpl. by rewrite app_nil_r.
  - intros k. rewrite launches_snoc. simpl. rewrite app_nil_r, L2, E.
    destruct (decide (k = r_task r)) as [->|Hne]; [|done]. rewrite Hr. tauto.
Qed.

(** A ready task is launched. *)
Lemma tasks_inv_launch m ths out lg k t l b r :
  tasks e !! k = Some t -> r_task r = k ->
  tasks_inv m (mkThread (Some k) l b :: ths) out lg ->
  tasks_inv (<[task_name t := TASK_BUSY]> m) (mkThread None l b :: ths) (r :: out)
    (lg ++ [Launched r]).
Proof.
  intros Ht <- [D O B R1 R2 P L1 L2]. unfold readies in R1, R2. simpl in R1, R2.
  apply NoDup_cons in R1 as [R1 R1'].
  assert (st m (r_task r) = Some TASK_READY) as Hr by (apply R2; left).
  assert (forall k, st (<[task_name t := TASK_BUSY]> m) k =
    if decide (k = r_task r) then Some TASK_BUSY else st m k) as E
    by (intros; by apply status_of_insert).
  constructor.
  - intros k Hk. rewrite E. destruct (decide _); eauto.
  - rewrite fmap_cons. apply NoDup_cons. split; [|done]. rewrite B, Hr. done.
  - intros k. rewrite E, fmap_cons, elem_of_cons, B.
    destruct (decide (k = r_task r)) as [->|Hne]; [tauto|naive_solver].
  - done.
  - intros k. rewrite E. destruct (decide (k = r_task r)) as [->|Hne]; [done|].
    rewrite <- R2, elem_of_cons. naive_solver.
  - intros th k [->|Hth]%elem_of_cons Hk; [|eapply P; [by right|done]].
    eapply P; [by left|done].
  - rewrite launches_snoc, fmap_app. simpl. apply NoDup_app. repeat split; [done| |apply NoDup_singleton].
    intros k Hk ->%list_elem_of_singleton. apply L2 in Hk. rewrite Hr in Hk. naive_solver.
  - intros k. rewrite launches_snoc, fmap_app, elem_of_app, L2, E. simpl. rewrite list_elem_of_singleton.
    destruct (decide (k = r_task r)) as [->|Hne]; [tauto|naive_solver].
Qed.

(** A pending task is found ready. *)
Lemma tasks_inv_ready m ths out lg k t l b :
  tasks e !! k = Some t -> st m k = Some TASK_IDLE ->
  tasks_inv m (mkThread None (k :: l) b :: ths) out lg ->
  tasks_inv (<[task_name t := TASK_READY]> m) (mkThread (Some k) l b :: ths) out lg.
Proof.
  intros Ht Hk [D O B R1 R2 P L1 L2]. unfold readies in R1, R2. simpl in R1, R2.
  assert (forall k', st (<[task_name t := TASK_READY]> m) k' =
    if decide (k' = k) then Some TASK_READY else st m k') as E
    by (intros; by apply status_of_insert).
  constructor.
  - intros k' Hk'. rewrite E. destruct (decide _); eauto.
  - done.
  - intros k'. rewrite E, B. destruct (decide (k' = k)) as [->|]; [|done]. by rewrite Hk.
  - apply NoDup_cons. split; [|done]. rewrite R2, Hk. done.
  - intros k'. unfold readies. simpl. rewrite E, elem_of_cons, R2.
    destruct (decide (k' = k)) as [->|]; [tauto|naive_solver].
  - intros th k' [->|Hth]%elem_of_cons Hk'; [|eapply P; [by right|done]].
    eapply P; [by left|by right].
  - done.
  - intros k'. rewrite L2, E. destruct (decide (k' = k)) as [->|]; [|done]. rewrite Hk. naive_solver.
Qed.

(** A pending task is skipped. *)
Lemma tasks_inv_skip m ths out lg k l b :
  tasks_inv m (mkThread None (k :: l) b :: ths) out lg ->
  tasks_inv m (mkThread None l b :: ths) out lg.
Proof.
  intros []. constructor; try done.
  intros th k' [->|Hth]%elem_of_cons Hk'; [|eapply ti_pending0; [by right|done]].
  eapply ti_pending0; [by left|by right].
Qed.

(** A thread is done. *)
Lemma tasks_inv_exit m ths out lg b lg' :
  launches lg' = launches lg ->
  tasks_inv m (mkThread None [] b :: ths) out lg -> tasks_inv m ths out lg'.
Proof.
  intros El []. constructor; rewrite ?El; try done.
  intros th k Hth. apply ti_pending0. by right.
Qed.
End TasksInv.

(** ** Tensors *)

Lemma publish_is_Some os m n :
  is_Some (publish os m !! n) <-> n ∈ t_name <$> os \/ is_Some (m !! n).
Proof.
  revert m. induction os as [|o os IH]; intros m; [unfold publish; simpl; rewrite elem_of_nil; tauto|].
  change (publish (o :: os) m) with (publish os (<[t_name o := o]> m)).
  rewrite IH, fmap_cons, elem_of_cons. destruct (decide (n = t_name o)) as [->|Hne].
  - rewrite lookup_insert_eq. naive_solver.
  - rewrite lookup_insert_ne by done. naive_solver.
Qed.

(** A published tensor is the last of its name, the others stay. *)
Lemma publish_cases os m n t :
  publish os m !! n = Some t -> (t ∈ os /\ t_name t = n) \/ (n ∉ t_name <$> os /\ m !! n = Some t).
Proof.
  revert m. induction os as [|o os IH]; intros m H; [right; split; [apply not_elem_of_nil|done]|].
  change (publish (o :: os) m) with (publish os (<[t_name o := o]> m)) in H.
  apply IH in H as [[H1 H2]|[H1 H2]]; [left; split; [by right|done]|].
  destruct (decide (n = t_name o)) as [->|Hne].
  - rewrite lookup_insert_eq in H2. injection H2 as <-. left. split; [by left|done].
  - rewrite lookup_insert_ne in H2 by done. right. rewrite fmap_cons, not_elem_of_cons. done.
Qed.

Section TensorsInv.
Context (e : engine) (head : option nat) (rank : nat -> nat) (G : graph_ok e rank).
Abbreviation st := (status_of e head).

Definition present (ts : gmap string Tensor) (t : Task) : Prop :=
  Forall (fun n => is_Some (ts !! n)) (t_name <$> task_inputs t).

(** The outputs a request will have hold what the graph needs. *)
Definition request_ok (r : request) : Prop :=
  forall t n, tasks e !! r_task r = Some t ->
    (n ∈ t_name <$> request_outputs t r -> has_output t n) /\
    (has_output t n -> needed e n -> n ∈ t_name <$> request_outputs t r).

Record tensors_inv (ts : gmap string Tensor) (m : gmap string Status) (ths : list thread)
    (out : list request) : Prop := {
  xi_data : map_Forall (fun _ t => is_Some (t_data t)) ts;
  xi_ext : forall k t n, tasks e !! k = Some t -> head <> Some k -> has_input t n ->
    ~ produced e n -> is_Some (ts !! n);
  xi_done : forall k t n, tasks e !! k = Some t -> st m k = Some TASK_DONE -> has_output t n ->
    needed e n -> is_Some (ts !! n);
  xi_req : Forall request_ok out;
  xi_ready : forall k t, tasks e !! k = Some t -> st m k = Some TASK_READY -> present ts t;
  xi_wake : forall k t, tasks e !! k = Some t -> st m k = Some TASK_IDLE -> present ts t ->
    exists th, th ∈ ths /\ k ∈ pending th
}.

#[export] Instance tensors_inv_perm ts m : Proper ((≡ₚ) ==> (≡ₚ) ==> iff) (tensors_inv ts m).
Proof.
  assert (forall ths ths' out out', ths ≡ₚ ths' -> out ≡ₚ out' ->
    tensors_inv ts m ths out -> tensors_inv ts m ths' out') as Hmain.
  { intros ths ths' out out' H1 H2 []. constructor; try done.
    - by rewrite <- H2.
    - intros k t Hk Hs Hp. destruct (xi_wake0 k t Hk Hs Hp) as (th & Hth & ?).
      exists th. by rewrite <- H1. }
  intros ths ths' H1 out out' H2. split; by apply Hmain.
Qed.

Lemma present_mono ts ts' t :
  (forall n, is_Some (ts !! n) -> is_Some (ts' !! n)) -> present ts t -> present ts' t.
Proof. intros H Hp. eapply Forall_impl; [done|]. auto. Qed.

Lemma tensors_inv_complete ts m ths r out t c fin :
  tasks e !! r_task r = Some t -> completes t r c -> tensors_inv ts m ths (r :: out) ->
  tensors_inv (publish (c_outputs c) ts) (<[task_name t := TASK_DONE]> m)
    (mkThread None (task_nexts t) fin :: ths) out.
Proof.
  intros Ht [Hn Hd] [D X P Q R W]. apply Forall_cons in Q as [Qr Q].
  assert (forall k, st (<[task_name t := TASK_DONE]> m) k =
    if decide (k = r_task r) then Some TASK_DONE else st m k) as E
    by (intros; apply status_of_insert; [apply G|done..]).
  assert (forall n, is_Some (ts !! n) -> is_Some (publish (c_outputs c) ts !! n)) as Hmono
    by (intros; apply publish_is_Some; auto).
  constructor.
  - intros n u [[Hu _]|[_ Hu]]%publish_cases; [|by eapply D].
    rewrite Forall_forall in Hd. by apply Hd.
  - eauto.
  - intros k t' n Hk. rewrite E. destruct (decide (k = r_task r)) as [->|Hne]; [|eauto].
    intros _ Ho Hneed. simplify_eq. apply publish_is_Some. left. rewrite Hn. by apply Qr.
  - done.
  - intros k t' Hk. rewrite E. destruct (decide _); [done|].
    intros Hs. apply (present_mono ts); [done|by eapply R].
  - intros k t' Hk. rewrite E. destruct (decide (k = r_task r)) as [->|Hne]; [done|].
    intros Hs Hp. destruct (decide (present ts t')) as [Hp'|Hp'].
    + destruct (W k t' Hk Hs Hp') as (th & ? & ?). exists th. by split; [right|].
    + apply not_Forall_Exists in Hp'; [|apply _]. apply Exists_exists in Hp' as (n & Hin & Hno).
      eexists. split; [by left|]. simpl. apply (g_consumer e rank G (r_task r) t n k t' Ht); [|done..].
      apply (Qr t n Ht). rewrite <- Hn.
      unfold present in Hp. rewrite Forall_forall in Hp. apply Hp, publish_is_Some in Hin as [?|?]; [done|by destruct Hno].
Qed.

Lemma tensors_inv_launch ts m ths out k t l b r :
  tasks e !! k = Some t -> r_task r = k -> r_outputs r = [] -> st m k = Some TASK_READY ->
  tensors_inv ts m (mkThread (Some k) l b :: ths) out ->
  tensors_inv ts (<[task_name t := TASK_BUSY]> m) (mkThread None l b :: ths) (r :: out).
Proof.
  intros Ht <- Hr Hs [D X P Q R W].
  assert (forall k, st (<[task_name t := TASK_BUSY]> m) k =
    if decide (k = r_task r) then Some TASK_BUSY else st m k) as E
    by (intros; apply status_of_insert; [apply G|done..]).
  constructor; try done.
  - intros k t' n Hk. rewrite E. destruct (decide _); [done|eauto].
  - constructor; [|done]. intros t' n Ht'. simplify_eq. unfold request_outputs. by rewrite Hr.
  - intros k t' Hk. rewrite E. destruct (decide _); [done|eauto].
  - intros k t' Hk. rewrite E. destruct (decide _); [done|]. intros Hs' Hp.
    destruct (W k t' Hk Hs' Hp) as (th & [->|?]%elem_of_cons & ?).
    + eexists. by split; [left|].
    + exists th. by split; [right|].
Qed.

Lemma tensors_inv_ready ts m ths out k t l b :
  tasks e !! k = Some t -> st m k = Some TASK_IDLE -> present ts t ->
  tensors_inv ts m (mkThread None (k :: l) b :: ths) out ->
  tensors_inv ts (<[task_name t := TASK_READY]> m) (mkThread (Some k) l b :: ths) out.
Proof.
  intros Ht Hs Hp [D X P Q R W].
  assert (forall k', st (<[task_name t := TASK_READY]> m) k' =
    if decide (k' = k) then Some TASK_READY else st m k') as E
    by (intros; apply status_of_insert; [apply G|done..]).
  constructor; try done.
  - intros k' t' n Hk. rewrite E. destruct (decide _); [done|eauto].
  - intros k' t' Hk. rewrite E. destruct (decide _) as [->|]; [|eauto]. by simplify_eq.
  - intros k' t' Hk. rewrite E. destruct (decide _); [done|]. intros Hs' Hp'.
    destruct (W k' t' Hk Hs' Hp') as (th & [->|?]%elem_of_cons & Hin).
    + simpl in Hin. apply elem_of_cons in Hin as [->|Hin]; [done|]. eexists. by split; [left|].
    + exists th. by split; [right|].
Qed.

Lemma tensors_inv_skip ts m ths out k t l b :
  tasks e !! k = Some t -> ~ (st m k = Some TASK_IDLE /\ present ts t) ->
  tensors_inv ts m (mkThread None (k :: l) b :: ths) out ->
  tensors_inv ts m (mkThread None l b :: ths) out.
Proof.
  intros Ht Hs [D X P Q R W]. constructor; try done.
  intros k' t' Hk Hs' Hp'. destruct (W k' t' Hk Hs' Hp') as (th & [->|?]%elem_of_cons & Hin).
  - simpl in Hin. apply elem_of_cons in Hin as [->|Hin].
    + simplify_eq. tauto.
    + eexists. by split; [left|].
  - exists th. by split; [right|].
Qed.

Lemma tensors_inv_exit ts m ths out b :
  tensors_inv ts m (mkThread None [] b :: ths) out -> tensors_inv ts m ths out.
Proof.
  intros [D X P Q R W]. constructor; try done.
  intros k t Hk Hs Hp. destruct (W k t Hk Hs Hp) as (th & [->|?]%elem_of_cons & Hin).
  - by apply elem_of_nil in Hin.
  - eauto.
Qed.
End TensorsInv.
