(* ===== verification/JobRuns.v ===== *)
(** * Inference jobs: runs

    The invariant of all states of a running job, the measure that every step
    decreases, and what a state without a next step looks like. *)

From Stdlib Require Import ZArith Lia.
From stdpp Require Import strings relations.
From S2P Require Import Prelude InferenceJob JobInv.
Import InferenceJob.

Section Runs.
Context (e : engine) (head : option nat) (rank : nat -> nat) (G : graph_ok e rank).
Hypothesis head_free : forall k t h, head = Some h -> tasks e !! k = Some t -> h ∉ task_nexts t.
Hypothesis outputs_ok : forall n, n ∈ lastOutputOrder e -> produced e n.
Hypothesis few_tasks : Z.of_nat (length (tasks e)) < 2 ^ 31.

Abbreviation st := (status_of e head).
Abbreviation total := (length (tasks e)).

(** ** Counting *)

Record count_inv (j : job) (ths : list thread) (lg : list event) : Prop := {
  ci_total : outputCount j = Z.of_nat total;
  ci_done : doneCount j = Z.of_nat (count e (taskStatusMap j) TASK_DONE);
  ci_ends : (length (last_threads ths) + length (endings lg) =
    if decide (count e (taskStatusMap j) TASK_DONE = total) then 1 else 0)%nat;
  ci_status : status j = if decide (Finished ∈ endings lg) then REQ_DONE else REQ_BUSY;
  ci_threw : Threw ∉ endings lg;
  ci_outputs : outputs j = lastOutputOrder e
}.

Lemma count_inv_perm j ths ths' lg : ths ≡ₚ ths' -> count_inv j ths lg -> count_inv j ths' lg.
Proof. intros H []. constructor; try done. by rewrite <- H. Qed.

Definition inv (s : state) : Prop :=
  tasks_inv e head (taskStatusMap (jb s)) (threads s) (outstanding s) (log s) /\
  tensors_inv e head (tensors (jb s)) (taskStatusMap (jb s)) (threads s) (outstanding s) /\
  count_inv (jb s) (threads s) (log s).

Lemma inv_perm j ths ths' out out' h lg :
  ths ≡ₚ ths' -> out ≡ₚ out' -> inv (mkState j ths out h lg) -> inv (mkState j ths' out' h lg).
Proof.
  intros H1 H2 (A & B & C). unfold inv; simpl in *.
  split; [by rewrite <- H1, <- H2|]. split; [by rewrite <- H1, <- H2|]. by eapply count_inv_perm.
Qed.

(** A status other than [TASK_DONE] is set. *)
Lemma count_insert_other m s k t :
  tasks e !! k = Some t -> s <> TASK_DONE -> stage e m k <> Some TASK_DONE ->
  count e (<[task_name t := s]> m) TASK_DONE = count e m TASK_DONE.
Proof.
  intros Hk Hs Hm. unfold count. f_equal. apply list_filter_iff. intros k'.
  rewrite (stage_insert e m k t s k' (g_names e rank G) Hk).
  destruct (decide (k' = k)) as [->|]; [|done]. naive_solver.
Qed.

(** ** Every step keeps the invariant *)

Lemma inv_complete j ths r out h lg t c j' fin :
  tasks e !! r_task r = Some t -> completes t r c -> onRequestComplete t c j = (j', Some fin) ->
  inv (mkState j ths (r :: out) h lg) ->
  inv (mkState j' (mkThread None (task_nexts t) fin :: ths) out h (lg ++ [Completed r c])).
Proof.
  intros Ht Hc Hj (A & B & C). unfold onRequestComplete in Hj.
  destruct (taskStatusMap j !! task_name t) eqn:Em; [|done]. injection Hj as <- <-.
  unfold inv. simpl in *. split; [|split].
  - apply tasks_inv_complete; [apply G|done| |done]. intros k Hk. split.
    + by eapply (g_valid e rank G).
    + intros E. by eapply head_free.
  - by eapply tensors_inv_complete.
  - assert (st (taskStatusMap j) (r_task r) = Some TASK_BUSY) as Hb
      by (apply (ti_busy _ _ _ _ _ _ A); rewrite fmap_cons; left).
    assert (stage e (taskStatusMap j) (r_task r) <> Some TASK_DONE) as Hd
      by (rewrite <- (status_of_DONE e head); congruence).
    pose proof (count_insert e _ TASK_DONE _ t (g_names e rank G) Ht Hd) as Hcount.
    pose proof (count_lt e _ TASK_DONE _ t Ht Hd) as Hlt.
    destruct C as [C1 C2 C3 C4 C5 C6]. rewrite decide_False in C3 by lia.
    rewrite C1, C2, swrap_small by lia.
    constructor; simpl; rewrite ?endings_snoc; simpl; rewrite ?app_nil_r; try done.
    + rewrite Hcount. lia.
    + rewrite Hcount. unfold last_threads in *. rewrite filter_cons. simpl.
      destruct (Z.eqb_spec (Z.of_nat (count e (taskStatusMap j) TASK_DONE) + 1) (Z.of_nat total));
        repeat case_decide; simpl; try done; lia.
Qed.

Lemma st_stage m k s : s <> TASK_BUSY -> st m k = Some s -> stage e m k = Some s.
Proof. intros Hs. unfold status_of. case_decide; [congruence|done]. Qed.

Lemma existsb_missing ts t :
  existsb (fun i => if ts !! t_name i then false else true) (task_inputs t) =
  negb (bool_decide (present ts t)).
Proof.
  unfold present. induction (task_inputs t) as [|i l IH]; [done|]. simpl. rewrite IH.
  destruct (ts !! t_name i) eqn:Ei; simpl.
  - f_equal. apply bool_decide_ext. rewrite Forall_cons, Ei. naive_solver.
  - rewrite bool_decide_false; [done|]. rewrite Forall_cons, Ei. intros [[? ?] _]. done.
Qed.

Lemma existsb_null ts t :
  map_Forall (fun _ u => is_Some (t_data u)) ts -> present ts t ->
  existsb (fun i => if t_data i then false else true) (map_input ts <$> task_inputs t) = false.
Proof.
  intros Hd. unfold present. induction (task_inputs t) as [|i l IH]; [done|].
  rewrite !fmap_cons. cbn [existsb]. intros [[u Hu] Hp]%Forall_cons. rewrite IH by done.
  unfold map_input. rewrite Hu. simpl. destruct (Hd _ _ Hu) as [d Hd']. by rewrite Hd'.
Qed.

(** What a ready task becomes. *)
Definition request_of (j : job) (k : nat) (t : Task) : request :=
  mkRequest k (map_input (tensors j) <$> task_inputs t) [].

Lemma processReadyTask_launch j k t :
  tasks e !! k = Some t -> stage e (taskStatusMap j) k = Some TASK_READY ->
  map_Forall (fun _ u => is_Some (t_data u)) (tensors j) -> present (tensors j) t ->
  processReadyTask k t j =
    (set_taskStatus (task_name t) TASK_BUSY (add_request (request_of j k t) j),
     Some (request_of j k t)).
Proof.
  intros Hk Hs Hd Hp. unfold processReadyTask. rewrite (stage_at e _ k t Hk), Hs.
  by rewrite (existsb_null _ _ Hd Hp).
Qed.

Lemma checkAndSetTaskReady_ok j k t :
  tasks e !! k = Some t ->
  checkAndSetTaskReady t j =
    if decide (stage e (taskStatusMap j) k = Some TASK_IDLE /\ present (tensors j) t)
    then (set_taskStatus (task_name t) TASK_READY j, true) else (j, false).
Proof.
  intros Hk. unfold checkAndSetTaskReady. rewrite (stage_at e _ k t Hk), existsb_missing.
  destruct (stage e (taskStatusMap j) k) as [s|]; [|by rewrite decide_False by naive_solver].
  destruct (decide (s = TASK_IDLE)) as [->|Hne].
  - rewrite bool_decide_true by done. simpl.
    destruct (decide (present (tensors j) t)).
    + rewrite bool_decide_true, decide_True by done. done.
    + rewrite bool_decide_false, decide_False by naive_solver. done.
  - rewrite bool_decide_false, decide_False by naive_solver. done.
Qed.

Lemma return_outputs_missing out m names h rs missing h' :
  return_outputs e out m names h = Some (rs, missing, h') ->
  missing = filter (fun n => m !! n = None) names.
Proof.
  revert h rs missing h'. induction names as [|n names IH]; intros h rs missing h' H; simpl in H.
  - by simplify_eq.
  - destruct (m !! n) as [t|] eqn:En.
    + destruct (return_output e out n t h) as [[r h1]|]; simpl in H; [|done].
      destruct (return_outputs e out m names h1) as [[[rs1 mi1] h2]|] eqn:E1; simpl in H; [|done].
      injection H as <- <- <-. rewrite filter_cons_False by congruence. by eapply IH.
    + destruct (return_outputs e out m names h) as [[[rs1 mi1] h2]|] eqn:E1; simpl in H; [|done].
      injection H as <- <- <-. rewrite filter_cons_True by done. f_equal. by eapply IH.
Qed.

(** What the end of a job changes, and when it throws. *)
Lemma onAllRequestComplete_frame j h o cb rst j' h' :
  onAllRequestComplete e j h = (o, cb, rst, j', h') ->
  tensors j' = tensors j /\ taskStatusMap j' = taskStatusMap j /\ outputCount j' = outputCount j /\
  doneCount j' = doneCount j /\ outputs j' = outputs j /\
  status j' = (if decide (o = Finished) then REQ_DONE else status j) /\
  (o = Threw -> exists n, n ∈ outputs j /\ tensors j !! n = None).
Proof.
  unfold onAllRequestComplete, setReturnOutputs. intros H.
  destruct (storeResult j || _); [|simplify_eq; by repeat split].
  destruct (return_outputs e _ _ _ h) as [[[rs missing] h1]|] eqn:E; [|simplify_eq; by repeat split].
  apply return_outputs_missing in E.
  destruct missing as [|n missing]; simplify_eq; repeat split; try done.
  intros _. exists n. assert (n ∈ n :: missing) as Hn by left. rewrite E in Hn.
  apply list_elem_of_filter in Hn. tauto.
Qed.

Lemma count_inv_frame j j' th th' ths lg lg' :
  ends th' = ends th -> endings lg' = endings lg ->
  count e (taskStatusMap j') TASK_DONE = count e (taskStatusMap j) TASK_DONE ->
  outputCount j' = outputCount j -> doneCount j' = doneCount j -> status j' = status j ->
  outputs j' = outputs j ->
  count_inv j (th :: ths) lg -> count_inv j' (th' :: ths) lg'.
Proof.
  intros E1 E2 E3 E4 E5 E6 E7 []. constructor; rewrite ?E2, ?E3, ?E4, ?E5, ?E6, ?E7; try done.
  rewrite <- ci_ends0. unfold last_threads. rewrite !filter_cons, E1. by destruct (decide (ends th = true)).
Qed.

Lemma inv_launch j k l b ths out h lg :
  inv (mkState j (mkThread (Some k) l b :: ths) out h lg) ->
  exists t, tasks e !! k = Some t /\
    processReadyTask k t j =
      (set_taskStatus (task_name t) TASK_BUSY (add_request (request_of j k t) j),
       Some (request_of j k t)) /\
    present (tensors j) t /\
    inv (mkState (set_taskStatus (task_name t) TASK_BUSY (add_request (request_of j k t) j))
      (mkThread None l b :: ths) (out ++ [request_of j k t]) h (lg ++ [Launched (request_of j k t)])).
Proof.
  intros (A & B & C). simpl in *.
  assert (st (taskStatusMap j) k = Some TASK_READY) as Hst
    by (apply (ti_ready _ _ _ _ _ _ A); left).
  assert (stage e (taskStatusMap j) k = Some TASK_READY) as Hs by (by apply st_stage in Hst).
  destruct (stage_Some e _ _ _ Hs) as [t Ht]. exists t.
  assert (present (tensors j) t) as Hp by (by eapply (xi_ready _ _ _ _ _ _ B)).
  split; [done|]. split; [|split; [done|]].
  { apply processReadyTask_launch; try done. apply (xi_data _ _ _ _ _ _ B). }
  eapply (inv_perm _ _ _ (request_of j k t :: out));
    [reflexivity|apply Permutation_cons_append|].
  unfold inv. simpl. split; [|split].
  - by apply (tasks_inv_launch e head (g_names e rank G) _ _ _ _ k).
  - by apply (tensors_inv_launch e head rank G _ _ _ _ k).
  - refine (count_inv_frame j _ _ _ _ lg _ _ _ _ _ _ _ _ C); try done.
    + rewrite endings_snoc. simpl. by rewrite app_nil_r.
    + simpl. apply (count_insert_other _ _ k); congruence.
Qed.

Lemma inv_check j k l b ths out h lg :
  inv (mkState j (mkThread None (k :: l) b :: ths) out h lg) ->
  exists t j' ok, tasks e !! k = Some t /\ checkAndSetTaskReady t j = (j', ok) /\
    (if ok then st (taskStatusMap j) k = Some TASK_IDLE /\
       j' = set_taskStatus (task_name t) TASK_READY j else j' = j) /\
    inv (mkState j' (mkThread (if ok then Some k else None) l b :: ths) out h lg).
Proof.
  intros (A & B & C). simpl in *.
  destruct (ti_pending _ _ _ _ _ _ A (mkThread None (k :: l) b) k) as [[t Ht] Hk]; [by left..|].
  exists t. pose proof (checkAndSetTaskReady_ok j k t Ht) as E.
  rewrite <- (status_of_stage e head) in E by done.
  destruct (decide _) as [[Hi Hp]|Hno] in E.
  - exists (set_taskStatus (task_name t) TASK_READY j), true. split; [done|]. split; [done|].
    split; [done|]. unfold inv. simpl. split; [|split].
    + by apply (tasks_inv_ready e head (g_names e rank G)).
    + by apply (tensors_inv_ready e head rank G).
    + rewrite status_of_stage in Hi by done.
      refine (count_inv_frame j _ _ _ _ lg _ _ _ _ _ _ _ _ C); try done.
      simpl. apply (count_insert_other _ _ k); congruence.
  - exists j, false. do 3 (split; [done|]). unfold inv. simpl. split; [|split].
    + by apply (tasks_inv_skip e head _ _ _ _ k).
    + by apply (tensors_inv_skip e head _ _ _ _ k t).
    + by refine (count_inv_frame j _ _ _ _ lg _ _ _ _ _ _ _ _ C).
Qed.

Lemma count_all m k t :
  count e m TASK_DONE = total -> tasks e !! k = Some t -> stage e m k = Some TASK_DONE.
Proof.
  intros Hc Hk. destruct (decide (stage e m k = Some TASK_DONE)) as [|Hno]; [done|].
  pose proof (count_lt e m TASK_DONE k t Hk Hno). lia.
Qed.

Lemma inv_end j ths out h lg o cb rst j' h' :
  inv (mkState j (mkThread None [] true :: ths) out h lg) ->
  onAllRequestComplete e j h = (o, cb, rst, j', h') ->
  inv (mkState j' ths out h' (lg ++ [Ended o cb rst])).
Proof.
  intros (A & B & C) H. simpl in *.
  destruct (onAllRequestComplete_frame _ _ _ _ _ _ _ H) as (E1 & E2 & E3 & E4 & E5 & E6 & E7).
  unfold inv. simpl. rewrite E1, E2. split; [|split].
  - eapply tasks_inv_exit; [|done]. rewrite launches_snoc. simpl. by rewrite app_nil_r.
  - by eapply tensors_inv_exit.
  - destruct C as [C1 C2 C3 C4 C5 C6].
    unfold last_threads in C3. rewrite filter_cons_True in C3 by done. simpl in C3.
    destruct (decide _) as [Hc|] in C3; [|lia].
    assert (endings lg = []) as Hnil by (destruct (endings lg); [done|simpl in C3; lia]).
    constructor; rewrite ?endings_snoc, ?Hnil, ?E2, ?E3, ?E4, ?E5; simpl; try done.
    + rewrite decide_True by done. rewrite Hnil in C3. simpl in C3. unfold last_threads. lia.
    + rewrite E6, C4, Hnil. destruct (decide (o = Finished)) as [->|Hne].
      * by rewrite decide_True by left.
      * rewrite (decide_False (P := Finished ∈ [])) by apply not_elem_of_nil.
        rewrite decide_False; [done|]. intros ?%list_elem_of_singleton. congruence.
    + intros <-%list_elem_of_singleton. destruct E7 as (n & Hn & Hnone); [done|].
      rewrite C6 in Hn. destruct (outputs_ok n Hn) as (k & t & Hk & Ho).
      destruct (xi_done _ _ _ _ _ _ B k t n Hk) as [u Hu]; [|done|by right|congruence].
      apply status_of_DONE. by eapply count_all.
Qed.

Lemma inv_exit j ths out h lg :
  inv (mkState j (mkThread None [] false :: ths) out h lg) -> inv (mkState j ths out h lg).
Proof.
  intros (A & B & C). unfold inv. simpl in *. split; [|split].
  - by eapply tasks_inv_exit.
  - by eapply tensors_inv_exit.
  - destruct C as [C1 C2 C3 C4 C5 C6]. constructor; try done.
Qed.

(** ** The steps of a run *)

(** States that differ in the order of threads and requests. *)
Definition similar (s s' : state) : Prop :=
  jb s = jb s' /\ threads s ≡ₚ threads s' /\ outstanding s ≡ₚ outstanding s' /\
  mem s = mem s' /\ log s = log s'.

Lemma inv_similar s s' : similar s s' -> inv s -> inv s'.
Proof.
  destruct s, s'. unfold similar. simpl. intros (-> & H1 & H2 & -> & ->). by apply inv_perm.
Qed.

(** What a step of a run does, for the thread or request it moves at the front. *)
Inductive transition : state -> state -> Prop :=
| tr_complete j ths r out h lg t c j' fin :
    tasks e !! r_task r = Some t -> completes t r c -> onRequestComplete t c j = (j', Some fin) ->
    transition (mkState j ths (r :: out) h lg)
      (mkState j' (mkThread None (task_nexts t) fin :: ths) out h (lg ++ [Completed r c]))
| tr_launch j k t l b ths out h lg :
    tasks e !! k = Some t -> st (taskStatusMap j) k = Some TASK_READY -> present (tensors j) t ->
    transition (mkState j (mkThread (Some k) l b :: ths) out h lg)
      (mkState (set_taskStatus (task_name t) TASK_BUSY (add_request (request_of j k t) j))
         (mkThread None l b :: ths) (out ++ [request_of j k t]) h
         (lg ++ [Launched (request_of j k t)]))
| tr_ready j k t l b ths out h lg :
    tasks e !! k = Some t -> st (taskStatusMap j) k = Some TASK_IDLE ->
    transition (mkState j (mkThread None (k :: l) b :: ths) out h lg)
      (mkState (set_taskStatus (task_name t) TASK_READY j) (mkThread (Some k) l b :: ths) out h lg)
| tr_skip j k l b ths out h lg :
    transition (mkState j (mkThread None (k :: l) b :: ths) out h lg)
      (mkState j (mkThread None l b :: ths) out h lg)
| tr_end j ths out h lg o cb rst j' h' :
    onAllRequestComplete e j h = (o, cb, rst, j', h') ->
    transition (mkState j (mkThread None [] true :: ths) out h lg)
      (mkState j' ths out h' (lg ++ [Ended o cb rst]))
| tr_exit j ths out h lg :
    transition (mkState j (mkThread None [] false :: ths) out h lg) (mkState j ths out h lg).

Lemma thread_transition j th ths out h lg new s' :
  inv (mkState j (th :: ths) out h lg) ->
  thread_step e th (mkState j ths out h lg) = Some (new, s') ->
  let s1 := mkState (jb s') (new ++ ths) (outstanding s') (mem s') (log s') in
  transition (mkState j (th :: ths) out h lg) s1 /\ inv s1.
Proof.
  intros Hi. destruct th as [[k|] l b].
  - destruct (inv_launch _ _ _ _ _ _ _ _ Hi) as (t & Ht & Hp & Hin & Hi'). simpl.
    rewrite Ht. simpl. rewrite Hp. intros [= <- <-]. simpl. split; [|done].
    apply tr_launch; [done| |done]. destruct Hi as (A & _).
    apply (ti_ready _ _ _ _ _ _ A). left.
  - destruct l as [|k l]; [destruct b|]; simpl.
    + destruct (onAllRequestComplete e j h) as [[[[o cb] rst] j'] h'] eqn:E. intros [= <- <-].
      split; [by apply tr_end|by eapply inv_end].
    + intros [= <- <-]. split; [apply tr_exit|by apply inv_exit].
    + destruct (inv_check _ _ _ _ _ _ _ _ Hi) as (t & j' & ok & Ht & Hc & Hok & Hi').
      rewrite Ht. simpl. rewrite Hc. intros [= <- <-]. split; [|done]. simpl.
      destruct ok; [destruct Hok as [? ->]; by apply tr_ready|subst; apply tr_skip].
Qed.

Lemma step_transition s s' :
  inv s -> step e s s' ->
  exists s1 s2, similar s s1 /\ transition s1 s2 /\ similar s2 s' /\ inv s'.
Proof.
  intros Hi Hs. destruct Hs as [l1 r l2 t c j ths h lg j' fin Ht Hc Hj|l1 th l2 j out h lg new s' Hth].
  - set (s1 := mkState j ths (r :: l1 ++ l2) h lg).
    set (s2 := mkState j' (mkThread None (task_nexts t) fin :: ths) (l1 ++ l2) h (lg ++ [Completed r c])).
    assert (similar (mkState j ths (l1 ++ r :: l2) h lg) s1) as H1
      by (repeat split; simpl; by rewrite <- ?Permutation_middle).
    exists s1, s2. split; [done|]. split; [by apply tr_complete|]. assert (similar s2
      (mkState j' (ths ++ [mkThread None (task_nexts t) fin]) (l1 ++ l2) h (lg ++ [Completed r c]))) as H2
      by (repeat split; simpl; by rewrite <- ?Permutation_cons_append).
    split; [done|]. apply (inv_similar s2); [done|]. eapply inv_complete; [done..|].
    by apply (inv_similar _ s1) in Hi.
  - set (s1 := mkState j (th :: l1 ++ l2) out h lg).
    assert (similar (mkState j (l1 ++ th :: l2) out h lg) s1) as H1
      by (repeat split; simpl; by rewrite <- ?Permutation_middle).
    apply (inv_similar _ s1) in Hi; [|done].
    destruct (thread_transition _ _ _ _ _ _ _ _ Hi Hth) as [Htr Hi'].
    eexists s1, _. split; [done|]. split; [done|].
    assert (similar (mkState (jb s') (new ++ l1 ++ l2) (outstanding s') (mem s') (log s'))
      (mkState (jb s') (l1 ++ new ++ l2) (outstanding s') (mem s') (log s'))) as H2
      by (repeat split; try done; apply Permutation_app_swap_app).
    split; [done|]. by eapply inv_similar.
Qed.

End Runs.
