(* ===== verification/JobProgress.v ===== *)
(** * Inference jobs: progress

    The measure that every step of a run decreases, what holds in a state without
    a next step, and where the tensors given to a task come from. *)

From Stdlib Require Import ZArith Lia.
From stdpp Require Import strings relations.
From S2P Require Import Prelude InferenceJob JobInv JobRuns.
Import InferenceJob.

Lemma sum_list_with_change {A} (f g : A -> nat) (l : list A) x :
  NoDup l -> x ∈ l -> (forall y, y <> x -> f y = g y) ->
  (sum_list_with f l + g x = sum_list_with g l + f x)%nat.
Proof.
  intros Hl Hx E. induction Hl as [|y l Hy Hl IH]; [by apply elem_of_nil in Hx|]. simpl.
  apply elem_of_cons in Hx as [->|Hx].
  - assert (sum_list_with f l = sum_list_with g l) as ->; [|lia].
    clear -Hy E. induction l as [|z l IH]; [done|]. apply not_elem_of_cons in Hy as [? ?].
    simpl. rewrite IH, (E z) by done. done.
  - rewrite (E y) by (intros ->; done). specialize (IH Hx). lia.
Qed.

Lemma list_filter_all {A} (P : A -> Prop) `{forall x, Decision (P x)} (l : list A) :
  (forall x, x ∈ l -> P x) -> filter P l = l.
Proof.
  induction l as [|x l IH]; intros H1; [done|]. rewrite filter_cons_True by (apply H1; left).
  f_equal. apply IH. intros y Hy. apply H1. by right.
Qed.

Section Measure.
Context (e : engine) (head : option nat).
Abbreviation st := (status_of e head).

Definition cost (th : thread) : nat := S (length (pending th)).

(** A task still has to be found ready, launched, completed, and to be followed by
    a thread that looks at its successors. *)
Definition weight (m : gmap string Status) (k : nat) : nat :=
  match tasks e !! k with
  | None => 0
  | Some t =>
      let c := S (S (length (task_nexts t))) in
      match st m k with
      | Some TASK_IDLE => S (S c)
      | Some TASK_READY => S c
      | Some TASK_BUSY => c
      | _ => 0
      end
  end.

Definition measure (s : state) : nat :=
  sum_list_with (weight (taskStatusMap (jb s))) (seq 0 (length (tasks e))) +
  sum_list_with cost (threads s).

Lemma measure_similar s s' : similar s s' -> measure s = measure s'.
Proof. intros (E & H & _). unfold measure. by rewrite E, H. Qed.

(** Setting the status of one task changes its weight only. *)
Lemma weight_insert m k t s :
  NoDup (task_name <$> tasks e) -> tasks e !! k = Some t -> s <> TASK_IDLE ->
  (sum_list_with (weight (<[task_name t := s]> m)) (seq 0 (length (tasks e))) + weight m k =
   sum_list_with (weight m) (seq 0 (length (tasks e))) + weight (<[task_name t := s]> m) k)%nat.
Proof.
  intros G Hk Hs. apply sum_list_with_change.
  - apply NoDup_seq.
  - apply elem_of_seq. apply lookup_lt_Some in Hk. lia.
  - intros y Hy. unfold weight. rewrite (status_of_insert e head m k t s y G Hk Hs).
    by rewrite decide_False.
Qed.

Lemma weight_set m k t s :
  NoDup (task_name <$> tasks e) -> tasks e !! k = Some t -> s <> TASK_IDLE ->
  weight (<[task_name t := s]> m) k =
  match s with TASK_DONE => 0 | TASK_BUSY => 2 + length (task_nexts t)
             | _ => 3 + length (task_nexts t) end%nat.
Proof.
  intros G Hk Hs. unfold weight. rewrite Hk, (status_of_insert e head m k t s k G Hk Hs).
  rewrite decide_True by done. by destruct s.
Qed.
End Measure.

Section Progress.
Context (e : engine) (head : option nat) (rank : nat -> nat) (G : graph_ok e rank).
Hypothesis head_free : forall k t h, head = Some h -> tasks e !! k = Some t -> h ∉ task_nexts t.
Hypothesis outputs_ok : forall n, n ∈ lastOutputOrder e -> produced e n.
Hypothesis few_tasks : Z.of_nat (length (tasks e)) < 2 ^ 31.

Abbreviation st := (status_of e head).
Abbreviation inv := (inv e head).
Abbreviation transition := (transition e head).
Abbreviation mu := (measure e head).

Lemma transition_decreases s s' : inv s -> transition s s' -> (mu s' < mu s)%nat.
Proof.
  intros Hi H. destruct H as [j ths r out h lg t c j' fin Ht _ Hj|j k t l b ths out h lg Ht Hs _
    |j k t l b ths out h lg Ht Hs|j k l b ths out h lg|j ths out h lg o cb rst j' h' He
    |j ths out h lg]; destruct Hi as (A & _); unfold measure; simpl in *.
  - assert (st (taskStatusMap j) (r_task r) = Some TASK_BUSY) as Hb
      by (apply (ti_busy _ _ _ _ _ _ A); rewrite fmap_cons; left).
    unfold onRequestComplete in Hj. destruct (taskStatusMap j !! task_name t); [|done].
    injection Hj as <- _. simpl.
    pose proof (weight_insert e head (taskStatusMap j) _ t TASK_DONE (g_names e rank G) Ht) as H.
    rewrite (weight_set e head) in H by (done || apply G). unfold weight at 2 in H.
    rewrite Ht, Hb in H. unfold cost. simpl in *. specialize (H ltac:(done)). lia.
  - pose proof (weight_insert e head (taskStatusMap j) _ t TASK_BUSY (g_names e rank G) Ht) as H.
    rewrite (weight_set e head) in H by (done || apply G). unfold weight at 2 in H.
    rewrite Ht, Hs in H. unfold cost. simpl in *. specialize (H ltac:(done)). lia.
  - pose proof (weight_insert e head (taskStatusMap j) _ t TASK_READY (g_names e rank G) Ht) as H.
    rewrite (weight_set e head) in H by (done || apply G). unfold weight at 2 in H.
    rewrite Ht, Hs in H. unfold cost. simpl in *. specialize (H ltac:(done)). lia.
  - unfold cost. simpl. lia.
  - destruct (onAllRequestComplete_frame _ _ _ _ _ _ _ _ He) as (_ & -> & _).
    change (cost (mkThread None [] true)) with 1%nat. lia.
  - change (cost (mkThread None [] false)) with 1%nat. lia.
Qed.

Lemma step_decreases s s' : inv s -> step e s s' -> inv s' /\ (mu s' < mu s)%nat.
Proof.
  intros Hi Hs.
  destruct (step_transition e head rank G head_free outputs_ok few_tasks _ _ Hi Hs)
    as (s1 & s2 & H1 & H & H2 & Hi'). split; [done|].
  rewrite (measure_similar _ _ _ _ H1), <- (measure_similar _ _ _ _ H2).
  apply transition_decreases; [|done]. by eapply inv_similar.
Qed.

Lemma run_bounded n s s' : inv s -> nsteps (step e) n s s' -> inv s' /\ (n + mu s' <= mu s)%nat.
Proof.
  intros Hi H. induction H as [s|n s s1 s' Hs _ IH]; [split; [done|lia]|].
  destruct (step_decreases s s1 Hi Hs) as [Hi1 Hm]. destruct (IH Hi1) as [? ?]. split; [done|lia].
Qed.

Lemma job_run_inv s s' : inv s -> rtc (step e) s s' -> inv s'.
Proof. intros Hi [n H]%rtc_nsteps. by apply (run_bounded n s). Qed.

(** ** States without a next step *)

(** Every thread can act, and every request can be completed. *)
Lemma threads_step s : inv s -> (forall s', ~ step e s s') -> threads s = [].
Proof.
  destruct s as [j [|th ths] out h lg]; [done|]. intros Hi Hno. exfalso.
  destruct (thread_step e th (mkState j ths out h lg)) as [[new s']|] eqn:E.
  - eapply Hno. apply (step_thread e [] th ths). exact E.
  - destruct th as [[k|] [|k' l] b]; simpl in E; try destruct b;
      try (destruct (inv_launch e head rank G _ _ _ _ _ _ _ _ Hi) as (t & Ht & Hp & _);
           rewrite Ht in E; simpl in E; rewrite Hp in E; done);
      try (destruct (inv_check e head rank G _ _ _ _ _ _ _ _ Hi) as (t & j' & ok & Ht & Hc & _);
           rewrite Ht in E; simpl in E; rewrite Hc in E; done).
    + by destruct (onAllRequestComplete e j h) as [[[[? ?] ?] ?] ?].
    + done.
Qed.

(** A completion a worker can make. *)
Definition some_completion (t : Task) (r : request) : completion :=
  mkCompletion ((fun o => set_data o (Some (0, 0))) <$> request_outputs t r) 0 0 0.

Lemma some_completion_completes t r : completes t r (some_completion t r).
Proof.
  unfold completes, some_completion. simpl. split.
  - by rewrite <- list_fmap_compose.
  - apply Forall_fmap, Forall_forall. simpl. eauto.
Qed.

Lemma outstanding_step s : inv s -> (forall s', ~ step e s s') -> outstanding s = [].
Proof.
  destruct s as [j ths [|r out] h lg]; [done|]. intros (A & _ & _) Hno. exfalso. simpl in *.
  assert (st (taskStatusMap j) (r_task r) = Some TASK_BUSY) as Hb
    by (apply (ti_busy _ _ _ _ _ _ A); rewrite fmap_cons; left).
  assert (exists t, tasks e !! r_task r = Some t /\ is_Some (taskStatusMap j !! task_name t))
    as (t & Ht & [s Hs]).
  { assert (is_Some (stage e (taskStatusMap j) (r_task r))) as [s Hs]
      by (apply (status_of_is_Some e head); by rewrite Hb).
    destruct (stage_Some _ _ _ _ Hs) as [t Ht]. exists t. by rewrite (stage_at e _ _ _ Ht), Hs. }
  destruct (onRequestComplete t (some_completion t r) j) as [j' [fin|]] eqn:E.
  - eapply Hno, (step_complete e [] r out t); [done|apply some_completion_completes|exact E].
  - unfold onRequestComplete in E. by rewrite Hs in E.
Qed.

Lemma produced_dec n : {produced e n} + {~ produced e n}.
Proof.
  destruct (decide (Exists (fun t => n ∈ t_name <$> task_outputs t) (tasks e))) as [H|H].
  - left. apply Exists_exists in H as (t & Hin & Hn). apply list_elem_of_lookup in Hin as [k Hk].
    by exists k, t.
  - right. intros (k & t & Hk & Hn). apply H, Exists_exists. exists t.
    split; [by eapply list_elem_of_lookup_2|done].
Qed.

(** Without threads and requests every task is done: by induction along the graph. *)
Lemma quiet_done s k t :
  inv s -> threads s = [] -> outstanding s = [] -> tasks e !! k = Some t ->
  stage e (taskStatusMap (jb s)) k = Some TASK_DONE.
Proof.
  intros (A & B & _) Hth Hout. rewrite Hth, Hout in *. remember (rank k) as n eqn:En.
  revert k t En. induction (lt_wf n) as [n _ IH]. intros k t -> Hk.
  apply (status_of_DONE e head). destruct (ti_dom _ _ _ _ _ _ A k) as [[] Hs]; [by eauto|..].
  - exfalso. destruct (xi_wake _ _ _ _ _ _ B k t Hk Hs) as (th & Hin & _);
      [|by apply elem_of_nil in Hin].
    apply Forall_forall. intros n Hn. destruct (produced_dec n) as [(k0 & t0 & Hk0 & Ho)|Hno].
    + pose proof (g_consumer e rank G _ _ _ _ _ Hk0 Ho Hk Hn) as Hnext.
      pose proof (g_rank e rank G _ _ _ Hk0 Hnext) as Hr.
      apply (xi_done _ _ _ _ _ _ B k0 t0 n Hk0); [|done|left; by exists k, t].
      apply status_of_DONE. by apply (IH (rank k0) Hr k0 t0).
    + apply (xi_ext _ _ _ _ _ _ B k t); try done. intros Hh.
      unfold status_of in Hs. case_decide as Hd; [done|]. by apply Hd.
  - exfalso. apply (ti_ready _ _ _ _ _ _ A), elem_of_nil in Hs. done.
  - exfalso. apply (ti_busy _ _ _ _ _ _ A), elem_of_nil in Hs. done.
  - done.
Qed.

Lemma all_launched s :
  inv s -> (forall k t, tasks e !! k = Some t -> stage e (taskStatusMap (jb s)) k = Some TASK_DONE) ->
  r_task <$> launches (log s) ≡ₚ seq 0 (length (tasks e)).
Proof.
  intros (A & _) Hd. apply NoDup_Permutation; [apply A|apply NoDup_seq|].
  intros k. rewrite (ti_launched _ _ _ _ _ _ A), elem_of_seq. split.
  - intros H. assert (is_Some (stage e (taskStatusMap (jb s)) k)) as [? Hs].
    { apply (status_of_is_Some e head). by destruct H as [-> | ->]. }
    apply stage_Some in Hs. apply lookup_lt_is_Some in Hs. lia.
  - intros [_ Hk]. destruct (lookup_lt_is_Some_2 (tasks e) k) as [t Ht]; [lia|].
    right. apply status_of_DONE. by eapply Hd.
Qed.

Lemma one_ending s :
  inv s -> threads s = [] ->
  (forall k t, tasks e !! k = Some t -> stage e (taskStatusMap (jb s)) k = Some TASK_DONE) ->
  exists o, endings (log s) = [o] /\ o <> Threw /\ (o = Finished -> status (jb s) = REQ_DONE).
Proof.
  intros (_ & _ & C) Hth Hd. destruct C as [_ _ C3 C4 C5 _]. rewrite Hth in C3. simpl in C3.
  rewrite decide_True in C3.
  - destruct (endings (log s)) as [|o [|]]; [done| |done]. exists o. split; [done|].
    split; [intros ->; apply C5; left|]. intros ->. rewrite C4. by rewrite decide_True by left.
  - unfold count. rewrite list_filter_all; [apply length_seq|].
    intros k Hk%elem_of_seq. destruct (lookup_lt_is_Some_2 (tasks e) k) as [t Ht]; [lia|].
    by eapply Hd.
Qed.
End Progress.
