(* ===== verification/JobStart.v ===== *)
(** * Inference jobs: starting

    What the two entry points require of the engine and of their arguments, and
    that the states they leave satisfy the invariant. *)

From Stdlib Require Import ZArith Lia.
From stdpp Require Import strings.
From S2P Require Import Prelude InferenceJob JobInv JobRuns JobProgress.
Import InferenceJob.

(** A job of the pool, set up for the engine. *)
Definition prepared (e : engine) (store : bool) (j0 : job) : job :=
  SetStoreResult store (SetInferenceJob e j0).

(** Another task than the head of a job started by [startJob] waits for a task, and
    no task waits for its own start: what is read from outside is a model input. *)
Record single_ok (e : engine) (h : nat) (t : Task) (inp out : ptr) : Prop := {
  so_head : tasks e !! h = Some t;
  so_free : forall k u, tasks e !! k = Some u -> h ∉ task_nexts u;
  so_input : is_Some inp;
  so_waits : forall k u, tasks e !! k = Some u -> k <> h ->
    exists n, has_input u n /\ produced e n /\ n ∉ modelInputNames e;
  so_external : forall k u n, tasks e !! k = Some u -> k <> h -> has_input u n ->
    produced e n \/ n ∈ modelInputNames e;
  so_tail : out <> None -> is_tail t = true ->
    forall n, has_output t n -> needed e n -> n ∈ lastOutputOrder e
}.

(** Every external input is given, and the loop visits every task. *)
Record multi_ok (e : engine) (inputs : list (string * ptr)) (order : list nat) : Prop := {
  mo_external : forall n, consumed e n -> produced e n \/ n ∈ inputs.*1;
  mo_inputs : Forall (fun nd => is_Some nd.2) inputs;
  mo_order : forall k, k ∈ order <-> is_Some (tasks e !! k)
}.

Inductive started (e : engine) : option nat -> state -> Prop :=
| started_by_startJob h t inp out store j0 j r hp :
    single_ok e h t inp out ->
    startJob e h inp out (prepared e store j0) = Some (j, r) ->
    started e (Some h) (started_single j r hp)
| started_by_startMultiInputJob inputs out store j0 order hp :
    multi_ok e inputs order ->
    started e None
      (started_multi (startMultiInputJob e inputs out (prepared e store j0)) order hp).

(** ** The state after setting up *)

Lemma initial_status (l : list Task) (m : gmap string Status) :
  map_Forall (fun _ s => s = TASK_IDLE) m ->
  let m' := foldl (fun m t => if m !! task_name t then m else <[task_name t := TASK_IDLE]> m) m l in
  map_Forall (fun _ s => s = TASK_IDLE) m' /\
  (forall n, is_Some (m' !! n) <-> n ∈ task_name <$> l \/ is_Some (m !! n)).
Proof.
  revert m. induction l as [|t l IH]; intros m Hm; simpl.
  { split; [done|]. intros n. rewrite elem_of_nil. tauto. }
  destruct (m !! task_name t) eqn:Et.
  - destruct (IH m Hm) as [H1 H2]. split; [done|]. intros n. rewrite H2, elem_of_cons.
    split; [tauto|]. intros [[->|?]|?]; [|tauto..]. right. by rewrite Et.
  - destruct (IH (<[task_name t := TASK_IDLE]> m)) as [H1 H2].
    { by apply map_Forall_insert_2. }
    split; [done|]. intros n. rewrite H2, elem_of_cons.
    destruct (decide (n = task_name t)) as [->|Hne].
    + rewrite lookup_insert_eq. naive_solver.
    + rewrite lookup_insert_ne by done. naive_solver.
Qed.

Lemma prepared_stage e store j0 k :
  is_Some (tasks e !! k) -> stage e (taskStatusMap (prepared e store j0)) k = Some TASK_IDLE.
Proof.
  intros [t Ht]. unfold prepared, SetInferenceJob. simpl.
  destruct (initial_status (tasks e) ∅) as [H1 H2]; [apply map_Forall_empty|].
  rewrite <- (stage_at e _ k t Ht).
  destruct (proj2 (H2 (task_name t))) as [s Hs].
  { left. apply list_elem_of_fmap. exists t. split; [done|]. by eapply list_elem_of_lookup_2. }
  pose proof (H1 _ _ Hs) as E. simpl in E. rewrite Hs. by rewrite E.
Qed.

Lemma prepared_count e store j0 : count e (taskStatusMap (prepared e store j0)) TASK_DONE = 0%nat.
Proof.
  unfold count. destruct (filter _ _) as [|k l] eqn:E; [done|]. exfalso.
  assert (k ∈ k :: l) as Hk by left. rewrite <- E in Hk.
  apply list_elem_of_filter in Hk as [Hd Hk]. apply elem_of_seq in Hk.
  rewrite prepared_stage in Hd; [done|]. apply lookup_lt_is_Some. lia.
Qed.

(** ** The tensors of the inputs *)

Lemma fold_insert_tensor {A} (f : A -> option (string * Tensor)) g (l : list A) m :
  (forall m a, g m a = match f a with Some (n, t) => insert_tensor n t m | None => m end) ->
  (forall n, is_Some (foldl g m l !! n) <->
     is_Some (m !! n) \/ exists a t, a ∈ l /\ f a = Some (n, t)) /\
  (forall n x, foldl g m l !! n = Some x ->
     m !! n = Some x \/ exists a, a ∈ l /\ f a = Some (n, x)).
Proof.
  intros Hg. revert m. induction l as [|a l IH]; intros m; simpl.
  { split; [|by left]. intros n. split; [by left|].
    intros [?|(? & ? & ?%elem_of_nil & _)]; done. }
  destruct (IH (g m a)) as [H1 H2]. rewrite Hg in H1, H2 |- *. split.
  - intros n. rewrite H1. destruct (f a) as [[n' t]|] eqn:Ea; [|set_solver].
    unfold insert_tensor. destruct (m !! n') eqn:En.
    + split; [set_solver|]. intros [?|(a' & t' & [->|?]%elem_of_cons & ?)]; [by left| |].
      * left. simplify_eq. by rewrite En.
      * right. eauto.
    + destruct (decide (n = n')) as [->|Hne].
      * rewrite lookup_insert_eq. set_solver.
      * rewrite lookup_insert_ne by done.
        split; [set_solver|]. intros [?|(a' & t' & [->|?]%elem_of_cons & ?)]; [by left| |].
        -- simplify_eq.
        -- right. eauto.
  - intros n x Hx. apply H2 in Hx as [Hx|(a' & ? & ?)].
    + destruct (f a) as [[n' t]|] eqn:Ea; [|by left]. unfold insert_tensor in Hx.
      destruct (m !! n') eqn:En; [by left|]. destruct (decide (n = n')) as [->|Hne].
      * rewrite lookup_insert_eq in Hx. injection Hx as <-. right. exists a. by split; [left|].
      * rewrite lookup_insert_ne in Hx by done. by left.
    + right. exists a'. by split; [right|].
Qed.

Lemma find_input_Some n t : is_Some (find_input n t) <-> has_input t n.
Proof.
  unfold find_input, has_input. induction (task_inputs t) as [|i l IH]; simpl.
  - split; [by intros []|by intros ?%elem_of_nil].
  - rewrite elem_of_cons. case_bool_decide as E.
    + split; [by left|by eauto].
    + rewrite IH. split; [by right|]. intros [->|?]; [done|done].
Qed.

Lemma shared_input_Some e h n k u :
  tasks e !! k = Some u -> k <> h -> has_input u n -> is_Some (shared_input e h n).
Proof.
  intros Hk Hne Hn. unfold shared_input.
  set (users := filter _ _).
  assert ((k, u) ∈ users) as Hin.
  { apply list_elem_of_filter. split; [by apply find_input_Some|].
    apply elem_of_lookup_imap. by exists k, u. }
  replace (existsb _ users) with true.
  - destruct users as [|[k' u'] l] eqn:E; [by apply elem_of_nil in Hin|]. simpl.
    assert ((k', u') ∈ users) as Hin' by (rewrite E; left).
    by apply list_elem_of_filter in Hin' as [? _].
  - symmetry. apply existsb_exists. exists (k, u). split; [by apply list_elem_of_In|]. simpl.
    apply negb_true_iff. by apply Nat.eqb_neq.
Qed.

(** ** Both entry points establish the invariant *)

Section Start.
Context (e : engine) (rank : nat -> nat) (G : graph_ok e rank).
Hypothesis outputs_ok : forall n, n ∈ lastOutputOrder e -> produced e n.
Hypothesis some_task : tasks e <> [].
Hypothesis few_tasks : Z.of_nat (length (tasks e)) < 2 ^ 31.

Definition fresh (m : gmap string Status) : Prop :=
  forall k, is_Some (tasks e !! k) -> stage e m k = Some TASK_IDLE.

Lemma fresh_status head m k s :
  fresh m -> status_of e head m k = Some s ->
  is_Some (tasks e !! k) /\
  ((head = Some k /\ s = TASK_BUSY) \/ (head <> Some k /\ s = TASK_IDLE)).
Proof.
  intros F Hs. assert (is_Some (stage e m k)) as [s' Hs']
    by (apply (status_of_is_Some e head); by rewrite Hs).
  assert (is_Some (tasks e !! k)) as Hk by (by eapply stage_Some). split; [done|].
  unfold status_of in Hs. rewrite (F k Hk) in Hs. case_decide as Hd; simplify_eq; tauto.
Qed.

Lemma fresh_some head m k : fresh m -> is_Some (tasks e !! k) -> is_Some (status_of e head m k).
Proof. intros F Hk. unfold status_of. rewrite (F k Hk). case_decide; eauto. Qed.

Lemma started_count j ths lg :
  outputCount j = i32 (Z.of_nat (length (tasks e))) -> doneCount j = 0 -> status j = REQ_BUSY ->
  outputs j = lastOutputOrder e -> count e (taskStatusMap j) TASK_DONE = 0%nat ->
  last_threads ths = [] -> endings lg = [] -> count_inv e j ths lg.
Proof.
  intros E1 E2 E3 E4 E5 E6 E7. constructor; rewrite ?E5, ?E6, ?E7; try done.
  - rewrite E1. apply swrap_small; lia.
  - rewrite decide_False; [done|]. destruct (tasks e); done.
  - apply not_elem_of_nil.
Qed.

Lemma single_tasks_inv h m r :
  fresh m -> is_Some (tasks e !! h) -> r_task r = h ->
  tasks_inv e (Some h) m [] [r] [Launched r].
Proof.
  intros F Hh <-.
  assert (forall k, k ∈ [r_task r] <-> status_of e (Some (r_task r)) m k = Some TASK_BUSY) as Hb.
  { intros k. rewrite list_elem_of_singleton. split.
    - intros ->. destruct (fresh_some (Some (r_task r)) m (r_task r) F Hh) as [s Hs].
      destruct (fresh_status _ _ _ _ F Hs) as [_ [[_ ->]|[? _]]]; done.
    - intros Hs. destruct (fresh_status _ _ _ _ F Hs) as [_ [[? _]|[_ ?]]]; congruence. }
  constructor; try done.
  - intros k. by apply fresh_some.
  - apply NoDup_singleton.
  - constructor.
  - intros k. split; [by intros ?%elem_of_nil|]. intros Hs.
    destruct (fresh_status _ _ _ _ F Hs) as [_ [[_ ?]|[_ ?]]]; done.
  - by intros th k ?%elem_of_nil.
  - apply NoDup_singleton.
  - intros k. simpl. rewrite Hb. split; [by left|]. intros [?|Hs]; [done|].
    destruct (fresh_status _ _ _ _ F Hs) as [_ [[_ ?]|[_ ?]]]; done.
Qed.

Lemma multi_tasks_inv m order :
  fresh m -> (forall k, k ∈ order -> is_Some (tasks e !! k)) ->
  tasks_inv e None m [mkThread None order false] [] [].
Proof.
  intros F Ho.
  assert (forall k s, status_of e None m k = Some s -> s = TASK_IDLE) as Hs
    by (intros k s Hs; destruct (fresh_status _ _ _ _ F Hs) as [_ [[? _]|[_ ?]]]; done).
  constructor; try apply NoDup_nil_2.
  - intros k. by apply fresh_some.
  - intros k. split; [by intros ?%elem_of_nil|by intros ?%Hs].
  - intros k. split; [by intros ?%elem_of_nil|by intros ?%Hs].
  - intros th k ->%list_elem_of_singleton Hk. split; [by apply Ho|done].
  - intros k. split; [by intros ?%elem_of_nil|by intros [?%Hs|?%Hs]].
Qed.

(** The mapped outputs of a tail task are outputs of the task, and hold all it has
    in the order of the model. *)
Lemma user_outputs_names t base order n :
  n ∈ t_name <$> BuildUserOutputTensorsForTailTask e t base order <->
  base <> None /\ has_output t n /\ n ∈ order.
Proof.
  unfold BuildUserOutputTensorsForTailTask, has_output. destruct base as [d|].
  - rewrite <- list_fmap_compose. rewrite !list_elem_of_fmap. simpl. split.
    + intros (o & -> & [? ?]%list_elem_of_filter). repeat split; [done|by exists o|done].
    + intros (_ & (o & -> & ?) & ?). exists o. split; [done|]. by apply list_elem_of_filter.
  - simpl. rewrite elem_of_nil. naive_solver.
Qed.

Lemma head_request_ok h t inp out ins j :
  single_ok e h t inp out -> outputs j = lastOutputOrder e ->
  request_ok e (mkRequest h ins
    (match out with
     | Some _ => if is_tail t then BuildUserOutputTensorsForTailTask e t out (outputs j) else []
     | None => []
     end)).
Proof.
  intros S Ho u n Hu. simpl in Hu. rewrite (so_head _ _ _ _ _ S) in Hu. injection Hu as <-.
  unfold request_outputs. simpl. destruct out as [d|]; [|done].
  destruct (is_tail t) eqn:Et; [|done]. rewrite Ho.
  pose proof (user_outputs_names t (Some d) (lastOutputOrder e) n) as Hn.
  destruct (BuildUserOutputTensorsForTailTask _ _ _ _); [done|].
  rewrite Hn. split; [tauto|]. intros H1 H2. repeat split; [done|done|].
  by eapply (so_tail _ _ _ _ _ S).
Qed.

Lemma single_tensors_inv h t inp out m r :
  single_ok e h t inp out -> fresh m -> request_ok e r ->
  tensors_inv e (Some h)
    (foldl (fun m n => match shared_input e h n with
       | Some i => insert_tensor n (set_addr i inp 0) m | None => m end) ∅ (modelInputNames e))
    m [] [r].
Proof.
  intros S F Hr.
  destruct (fold_insert_tensor (fun n => i ← shared_input e h n; Some (n, set_addr i inp 0))
    (fun m n => match shared_input e h n with
       | Some i => insert_tensor n (set_addr i inp 0) m | None => m end)
    (modelInputNames e) ∅) as [H1 H2].
  { intros. by destruct (shared_input e h a). }
  assert (forall k s, status_of e (Some h) m k = Some s ->
    (k = h /\ s = TASK_BUSY) \/ (k <> h /\ s = TASK_IDLE)) as Hs.
  { intros k s Hs. destruct (fresh_status _ _ _ _ F Hs) as [_ [[? ->]|[? ->]]]; naive_solver. }
  constructor.
  - intros n x Hx. apply H2 in Hx as [Hx|(a & _ & Ha)]; [by rewrite lookup_empty in Hx|].
    destruct (shared_input e h a); simplify_eq/=. apply (so_input _ _ _ _ _ S).
  - intros k u n Hk Hne Hn Hp. apply H1. right.
    assert (k <> h) as Hkh by congruence.
    destruct (so_external _ _ _ _ _ S k u n Hk Hkh Hn) as [|Hin]; [done|].
    destruct (shared_input_Some e h n k u Hk Hkh Hn) as [i Hi].
    exists n. rewrite Hi. eauto.
  - intros k u n Hk Hd. apply Hs in Hd. naive_solver.
  - by constructor.
  - intros k u Hk Hd. apply Hs in Hd. naive_solver.
  - intros k u Hk Hd Hp. apply Hs in Hd as [[_ ?]|[Hne _]]; [done|].
    destruct (so_waits _ _ _ _ _ S k u Hk Hne) as (n & Hn & _ & Hno).
    exfalso. apply Hno. unfold present in Hp. rewrite Forall_forall in Hp.
    apply Hp, H1 in Hn as [[? Hn]|(a & x & Ha & E)]; [by rewrite lookup_empty in Hn|].
    by destruct (shared_input e h a); simplify_eq/=.
Qed.

Lemma multi_tensors_inv inputs order m :
  multi_ok e inputs order -> fresh m ->
  tensors_inv e None
    (foldl (fun m '(n, d) => insert_tensor n (external_tensor e n d) m) ∅ inputs) m
    [mkThread None order false] [].
Proof.
  intros S F.
  destruct (fold_insert_tensor (fun nd => Some (nd.1, external_tensor e nd.1 nd.2))
    (fun m '(n, d) => insert_tensor n (external_tensor e n d) m) inputs ∅) as [H1 H2].
  { by intros ? [? ?]. }
  assert (forall k s, status_of e None m k = Some s -> s = TASK_IDLE) as Hs.
  { intros k s Hs. by destruct (fresh_status _ _ _ _ F Hs) as [_ [[? _]|[_ ?]]]. }
  constructor.
  - intros n x Hx. apply H2 in Hx as [Hx|([n' d] & Hin & Ha)]; [by rewrite lookup_empty in Hx|].
    simplify_eq/=. pose proof (mo_inputs _ _ _ S) as Hd. rewrite Forall_forall in Hd.
    specialize (Hd _ Hin). unfold external_tensor.
    destruct (find _ _); [|done]. by destruct (find_input _ _).
  - intros k u n Hk _ Hn Hp. apply H1. right.
    destruct (mo_external _ _ _ S n) as [|Hin]; [by exists k, u|done|].
    apply list_elem_of_fmap in Hin as ([n' d] & -> & Hin). eauto.
  - intros k u n Hk Hd. by apply Hs in Hd.
  - constructor.
  - intros k u Hk Hd. by apply Hs in Hd.
  - intros k u Hk Hd Hp. eexists. split; [by left|]. simpl. apply (mo_order _ _ _ S). eauto.
Qed.

Lemma started_free head s :
  started e head s -> forall k t h, head = Some h -> tasks e !! k = Some t -> h ∉ task_nexts t.
Proof. intros H. destruct H as [h t ? ? ? ? ? ? ? S|]; [|done]. intros k u ? [= <-]. by apply S. Qed.

Lemma started_inv head s : started e head s -> inv e head s.
Proof.
  intros H. destruct H as [h t inp out store j0 j r hp S H|inputs out store j0 order hp S].
  - unfold startJob in H. rewrite (so_head _ _ _ _ _ S) in H. simpl in H.
    destruct (inputs_at t inp) as [ins|]; simpl in H; [|done]. injection H as <- <-.
    assert (fresh (taskStatusMap (prepared e store j0))) as F
      by (intros k Hk; by apply prepared_stage).
    pose proof (so_head _ _ _ _ _ S) as Ht.
    unfold inv. cbn [jb threads outstanding log started_single]. split; [|split].
    + apply single_tasks_inv; [done|by eauto|done].
    + eapply single_tensors_inv; [done|done|].
      by exact (head_request_ok h t inp out ins (prepared e store j0) S eq_refl).
    + by apply started_count; try apply prepared_count.
  - assert (fresh (taskStatusMap (prepared e store j0))) as F
      by (intros k Hk; by apply prepared_stage).
    unfold inv. cbn [jb threads outstanding log started_multi]. split; [|split].
    + apply multi_tasks_inv; [done|]. intros k. apply (mo_order _ _ _ S).
    + by apply multi_tensors_inv.
    + by apply started_count; try apply prepared_count.
Qed.
End Start.
