(* ===== verification/JobOutputs.v ===== *)
(** * Inference jobs: the returned outputs

    What [setReturnOutputs] puts into the buffer of the user, byte by byte, and
    into the copies it makes without one. *)

From Stdlib Require Import ZArith Lia.
From stdpp Require Import strings.
From S2P Require Import Prelude FormatHandler FormatCopy InferenceJob.
Import InferenceJob.

Section Outputs.
Context (e : engine) (m : gmap string Tensor).

(** ** Without a buffer *)

(** The tensor has its bytes. *)
Definition loaded (h : heap) (t : Tensor) (c : list Z) : Prop :=
  exists b o blk, t_data t = Some (b, o) /\ h !! b = Some blk /\
    FormatHandler.in_block o (t_size t) blk = true /\ c = FormatHandler.slice o (t_size t) blk.

Lemma return_outputs_copies names h :
  Forall (fun n => exists t c, m !! n = Some t /\ loaded h t c) names ->
  exists rs, return_outputs e None m names h = Some (rs, [], h) /\
    Forall2 (fun n r => exists t c, m !! n = Some t /\ loaded h t c /\
      r = mkReturned t (Some c)) names rs.
Proof.
  induction 1 as [|n names (t & c & Hn & b & o & blk & Hd & Hb & Hin & Hc) _ (rs & E & F)];
    simpl; [by exists []|].
  rewrite Hn. simpl. rewrite Hd. simpl. rewrite Hb. simpl. rewrite Hin. simpl. rewrite E. simpl.
  exists (mkReturned t (Some c) :: rs). subst c. split; [done|]. constructor; [|done].
  exists t, (FormatHandler.slice o (t_size t) blk). split; [done|]. split; [|done].
  by exists b, o, blk.
Qed.

(** ** Into the buffer of the user *)

Context (D base : Z).
Abbreviation place n := (base + GetOutputTensorOffset e n).

Definition region (n : string) (j : Z) : Prop :=
  exists t, m !! n = Some t /\ place n <= j < place n + t_size t.

(** The bytes of an output before they are returned. *)
Definition content (h : heap) (n : string) (j : Z) : option Z :=
  t ← m !! n; d ← t_data t; b ← h !! d.1; byte b (d.2 + j).

(** An output is in another block, or in its place already; its place is in the
    buffer. *)
Definition returnable (h : heap) (size : Z) (n : string) : Prop :=
  exists t d, m !! n = Some t /\ t_data t = Some d /\ 0 <= t_size t /\
    0 <= place n /\ place n + t_size t <= size /\
    (d = (D, place n) \/
     (d.1 <> D /\ 0 <= d.2 /\ exists b, h !! d.1 = Some b /\ d.2 + t_size t <= FormatHandler.len b)).

Definition given (n : string) (t : Tensor) : returned :=
  mkReturned (set_data t (Some (D, place n))) None.

Lemma returnable_insert h size n b : returnable h size n -> returnable (<[D := b]> h) size n.
Proof.
  intros (t & d & H1 & H2 & H3 & H4 & H5 & [H6|(H6 & H7 & H8)]); exists t, d;
    repeat split; try done; [by left|right]. by rewrite lookup_insert_ne.
Qed.

(** One output. *)
Lemma return_output_spec h to n :
  h !! D = Some to -> returnable h (FormatHandler.len to) n ->
  exists t to1, m !! n = Some t /\
    return_output e (Some (D, base)) n t h = Some (given n t, <[D := to1]> h) /\
    FormatHandler.len to1 = FormatHandler.len to /\
    (forall j, 0 <= j < t_size t -> byte to1 (place n + j) = content h n j) /\
    (forall j, 0 <= j -> ~ region n j -> byte to1 j = byte to j).
Proof.
  intros HD (t & d & Hn & Hd & Hs & Hp1 & Hp2 & Hor). exists t. unfold return_output. simpl.
  rewrite Hd. destruct (decide (d = (D, place n))) as [->|Hne].
  { exists to. rewrite insert_id by done. repeat split; try done.
    intros j _. unfold content. rewrite Hn. simpl. rewrite Hd. simpl. by rewrite HD. }
  destruct Hor as [?|(Hb & Ho & b & Hb' & Hl)]; [done|].
  set (c := mkChunk (place n) d.2 (t_size t)).
  assert (fits (FormatHandler.len b) (FormatHandler.len to) c) as F by (unfold fits; simpl; lia).
  exists (put b to c). pose proof (memcpy_put h D (FormatHandler.Ptr d.1) b to c HD) as Hc.
  simpl in Hc. rewrite Hc by done. simpl.
  split; [done|]. split; [done|]. split; [apply len_put|]. split.
  - intros j Hj. rewrite byte_put by (done || lia). rewrite decide_True by (unfold covers; simpl; lia).
    unfold content. rewrite Hn. simpl. rewrite Hd. simpl. rewrite Hb'. simpl. f_equal. lia.
  - intros j Hj Hno. rewrite byte_put by done. rewrite decide_False; [done|].
    intros Hcov. apply Hno. by exists t.
Qed.

Lemma return_outputs_buffer names h to :
  NoDup names ->
  (forall n n' j, n ∈ names -> n' ∈ names -> n <> n' -> region n j -> ~ region n' j) ->
  h !! D = Some to -> Forall (returnable h (FormatHandler.len to)) names ->
  exists rs to', return_outputs e (Some (D, base)) m names h = Some (rs, [], <[D := to']> h) /\
    Forall2 (fun n r => exists t, m !! n = Some t /\ r = given n t) names rs /\
    FormatHandler.len to' = FormatHandler.len to /\
    (forall n t j, n ∈ names -> m !! n = Some t -> 0 <= j < t_size t ->
       byte to' (place n + j) = content h n j) /\
    (forall j, 0 <= j -> (forall n, n ∈ names -> ~ region n j) -> byte to' j = byte to j).
Proof.
  intros Hnd. revert h to. induction Hnd as [|n names Hn _ IH]; intros h to Hdis HD Hr.
  { exists [], to. rewrite insert_id by done. simpl. repeat split; try done.
    by intros n t j ?%elem_of_nil. }
  apply Forall_cons in Hr as [Hr1 Hr].
  destruct (return_output_spec h to n HD Hr1) as (t & to1 & Ht & E1 & L1 & C1 & O1).
  destruct (IH (<[D := to1]> h) to1) as (rs & to' & E2 & F2 & L2 & C2 & O2).
  { intros n1 n2 j H1 H2. apply Hdis; by right. }
  { by rewrite lookup_insert_eq. }
  { rewrite L1. eapply Forall_impl; [exact Hr|]. intros. by apply returnable_insert. }
  exists (given n t :: rs), to'. cbn [return_outputs]. rewrite Ht, E1. cbn. rewrite E2. cbn.
  rewrite insert_insert_eq. split; [done|]. split; [by constructor; [exists t|]|].
  split; [by rewrite L2|].
  assert (0 <= place n) as Hp by (by destruct Hr1 as (? & ? & _ & _ & _ & ? & _)).
  split.
  - intros n' t' j [->|Hin]%elem_of_cons Ht' Hj.
    + simplify_eq. rewrite O2; [by apply C1|lia|].
      intros n' Hin. apply (Hdis n n'); [left|by right|by intros ->|]. exists t. split; [done|]. lia.
    + rewrite (C2 n' t' j Hin Ht' Hj). unfold content. rewrite Ht'. simpl.
      rewrite Forall_forall in Hr. destruct (Hr n' Hin) as (u & d & Hu & Hd & _ & Hp' & _ & Hor).
      simplify_eq. rewrite Hd. simpl. destruct Hor as [->|[Hne _]]; simpl.
      * rewrite lookup_insert_eq, HD. simpl. apply O1; [lia|].
        apply (Hdis n' n); [by right|left|by intros ->|]. exists t'. split; [done|]. lia.
      * by rewrite lookup_insert_ne.
  - intros j Hj Hno. rewrite O2; [apply O1; [done|]|done|]; intros; apply Hno; [by left|by right].
Qed.
End Outputs.
