(* ===== verification/JobThms.v ===== *)
(** * Inference jobs: theorems

    A job started on a well-formed graph by [startJob] at its only head, or by
    [startMultiInputJob], completes in every interleaving, with every task launched
    once; tasks are given the tensors that were produced; the outputs
    are returned where the user wants them; a second head task is never started by
    [startJob]. *)

From Stdlib Require Import ZArith Lia.
From stdpp Require Import strings relations.
From S2P Require Import Prelude FormatHandler FormatCopy InferenceJob JobInv JobRuns JobProgress.
From S2P Require Import JobStart JobOutputs.
Import InferenceJob.

(** ** Where the tensors come from *)

Section Flow.
Context (e : engine) (head : option nat) (rank : nat -> nat) (G : graph_ok e rank).
Hypothesis head_free : forall k t h, head = Some h -> tasks e !! k = Some t -> h ∉ task_nexts t.
Hypothesis outputs_ok : forall n, n ∈ lastOutputOrder e -> produced e n.
Hypothesis few_tasks : Z.of_nat (length (tasks e)) < 2 ^ 31.
Context (ext : gmap string Tensor).

(** An external tensor, or an output of a task that was completed with it. *)
Definition supplied (lg : list event) (n : string) (d : ptr) : Prop :=
  (exists x, ext !! n = Some x /\ t_data x = d) \/
  exists r t c o, Completed r c ∈ lg /\ tasks e !! r_task r = Some t /\ has_output t n /\
    o ∈ c_outputs c /\ t_name o = n /\ t_data o = d.

(** The request has the inputs of its task, with addresses that were supplied. *)
Definition well_fed (lg : list event) (r : request) : Prop :=
  exists t, tasks e !! r_task r = Some t /\ t_name <$> r_inputs r = t_name <$> task_inputs t /\
    Forall (fun i => is_Some (t_data i) /\ supplied lg (t_name i) (t_data i)) (r_inputs r).

Definition flow (s : state) : Prop :=
  map_Forall (fun n x => supplied (log s) n (t_data x)) (tensors (jb s)) /\
  forall l1 r l2, log s = l1 ++ Launched r :: l2 -> head <> Some (r_task r) -> well_fed l1 r.

Lemma supplied_snoc lg ev n d : supplied lg n d -> supplied (lg ++ [ev]) n d.
Proof.
  intros [H|(r & t & c & o & H & ?)]; [by left|right]. exists r, t, c, o.
  split; [|done]. apply elem_of_app. by left.
Qed.

Lemma flow_log_snoc lg ev :
  (forall l1 r l2, lg = l1 ++ Launched r :: l2 -> head <> Some (r_task r) -> well_fed l1 r) ->
  (forall r, ev = Launched r -> head <> Some (r_task r) -> well_fed lg r) ->
  forall l1 r l2, lg ++ [ev] = l1 ++ Launched r :: l2 -> head <> Some (r_task r) -> well_fed l1 r.
Proof.
  intros H1 H2 l1 r l2 E Hr. destruct l2 as [|x l2 _] using rev_ind.
  - apply app_inj_tail in E as [<- E]. by apply H2.
  - rewrite app_comm_cons, app_assoc in E. apply app_inj_tail in E as [-> _]. by eapply H1.
Qed.

Lemma request_of_fed j k t lg :
  tasks e !! k = Some t -> present (tensors j) t ->
  map_Forall (fun _ x => is_Some (t_data x)) (tensors j) ->
  map_Forall (fun n x => supplied lg n (t_data x)) (tensors j) ->
  well_fed lg (request_of j k t).
Proof.
  intros Hk Hp Hd Hs. exists t. split; [done|]. simpl. unfold present in Hp.
  assert (forall i, t_name (map_input (tensors j) i) = t_name i) as Hn
    by (intros i; unfold map_input; by destruct (tensors j !! t_name i)).
  split.
  - rewrite <- list_fmap_compose. apply list_fmap_ext. intros ? ? _. apply Hn.
  - apply Forall_fmap, Forall_forall. intros i Hi. simpl. rewrite Hn.
    rewrite Forall_forall in Hp. destruct (Hp (t_name i)) as [x Hx].
    { apply list_elem_of_fmap. by exists i. }
    unfold map_input. rewrite Hx. simpl. split; [by eapply Hd|by apply Hs].
Qed.

Lemma transition_flow s s' : inv e head s -> transition e head s s' -> flow s -> flow s'.
Proof.
  intros Hi H [F1 F2].
  destruct H as [j ths r out h lg t c j' fin Ht [Hn _] Hj|j k t l b ths out h lg Ht Hs Hp
    |j k t l b ths out h lg Ht Hs|j k l b ths out h lg|j ths out h lg o cb rst j' h' He
    |j ths out h lg]; destruct Hi as (A & B & _); simpl in *; try (by split).
  - split; simpl; [|by apply flow_log_snoc].
    unfold onRequestComplete in Hj. destruct (taskStatusMap j !! task_name t); [|done].
    injection Hj as <- _. simpl. intros n x [[Hin Hx]|[_ Hx]]%publish_cases.
    + right. exists r, t, c, x. repeat split; try done.
      * apply elem_of_app. right. left.
      * pose proof (xi_req _ _ _ _ _ _ B) as Q. apply Forall_cons in Q as [Q _].
        apply (Q t n Ht). rewrite <- Hn, <- Hx. apply list_elem_of_fmap. eauto.
    + apply supplied_snoc. by apply F1.
  - split; simpl; [intros n x Hx; by apply supplied_snoc, F1|].
    apply flow_log_snoc; [done|]. intros r [= <-] _.
    apply request_of_fed; [done|done|by apply B|done].
  - destruct (onAllRequestComplete_frame _ _ _ _ _ _ _ _ He) as (E & _).
    split; simpl; [rewrite E; intros n x Hx; by apply supplied_snoc, F1|by apply flow_log_snoc].
Qed.

Lemma similar_flow s s' : similar s s' -> flow s -> flow s'.
Proof. intros (E1 & _ & _ & _ & E2) [F1 F2]. split; by rewrite <- ?E1, <- ?E2. Qed.

Lemma run_flow s s' : inv e head s -> flow s -> rtc (step e) s s' -> flow s'.
Proof.
  intros Hi Hf H. induction H as [|s s1 s' Hs _ IH]; [done|].
  destruct (step_transition e head rank G head_free outputs_ok few_tasks _ _ Hi Hs)
    as (s2 & s3 & H1 & H & H2 & Hi1).
  apply IH; [done|]. apply (similar_flow s3); [done|]. apply (transition_flow s2); [|done|].
  - by eapply inv_similar.
  - by eapply similar_flow.
Qed.
End Flow.

(** ** Tasks nobody waits for *)

(** The task is idle and no thread will look at it. *)
Definition untouched (e : engine) (k : nat) (s : state) : Prop :=
  stage e (taskStatusMap (jb s)) k = Some TASK_IDLE /\
  Forall (fun th => ready th <> Some k /\ k ∉ pending th) (threads s) /\
  Forall (fun r => r_task r <> k) (outstanding s) /\
  k ∉ r_task <$> launches (log s).

Lemma stage_other e m k k' t s :
  NoDup (task_name <$> tasks e) -> tasks e !! k' = Some t -> k <> k' ->
  stage e (<[task_name t := s]> m) k = stage e m k.
Proof. intros Hn Ht Hne. rewrite (stage_insert e m k' t s k Hn Ht). by rewrite decide_False. Qed.

Lemma thread_step_untouched e k th s new s' :
  NoDup (task_name <$> tasks e) -> ready th <> Some k -> k ∉ pending th -> untouched e k s ->
  thread_step e th s = Some (new, s') ->
  untouched e k (mkState (jb s') (new ++ threads s) (outstanding s') (mem s') (log s')).
Proof.
  intros Hn Hr Hp (U1 & U2 & U3 & U4) H. destruct s as [j ths out h lg], th as [[k'|] l b]; simpl in *.
  - destruct (tasks e !! k') as [t|] eqn:Ht; simpl in H; [|done].
    assert (k <> k') as Hne by congruence. unfold processReadyTask in H.
    destruct (taskStatusMap j !! task_name t) as [[]|]; simpl in H;
      try (injection H as <- <-; repeat split; simpl; [done|by constructor|done|done]).
    destruct (existsb _ _); injection H as <- <-; simpl.
    + repeat split; simpl; [by rewrite (stage_other e _ k k')|by constructor|done|done].
    + repeat split; simpl; [by rewrite (stage_other e _ k k')|by constructor| |].
      * apply Forall_app. split; [done|]. by repeat constructor.
      * rewrite launches_snoc, fmap_app, elem_of_app. simpl. rewrite list_elem_of_singleton.
        by intros [?|?].
  - destruct l as [|k' l]; [destruct b|].
    + destruct (onAllRequestComplete e j h) as [[[[o cb] rst] j'] h'] eqn:E. injection H as <- <-.
      destruct (onAllRequestComplete_frame _ _ _ _ _ _ _ _ E) as (_ & E2 & _).
      repeat split; simpl; [by rewrite E2|done|done|]. rewrite launches_snoc. simpl. by rewrite app_nil_r.
    + injection H as <- <-. by repeat split.
    + destruct (tasks e !! k') as [t|] eqn:Ht; simpl in H; [|done].
      apply not_elem_of_cons in Hp as [Hne Hp].
      rewrite (checkAndSetTaskReady_ok e j k' t Ht) in H.
      destruct (decide _); injection H as <- <-; simpl.
      * repeat split; simpl; [by rewrite (stage_other e _ k k')| |done|done].
        constructor; [|done]. simpl. split; [congruence|done].
      * repeat split; simpl; [done| |done|done]. by constructor.
Qed.

Lemma step_untouched e k s s' :
  NoDup (task_name <$> tasks e) -> (forall u t, tasks e !! u = Some t -> k ∉ task_nexts t) ->
  untouched e k s -> step e s s' -> untouched e k s'.
Proof.
  intros Hn Hno U H. destruct H as [l1 r l2 t c j ths h lg j' fin Ht _ Hj|l1 th l2 j out h lg new s' H].
  - destruct U as (U1 & U2 & U3 & U4). simpl in *. unfold onRequestComplete in Hj.
    destruct (taskStatusMap j !! task_name t); [|done]. injection Hj as <- _.
    apply Forall_app in U3 as [U3 [U3' U3'']%Forall_cons]. repeat split; simpl.
    + rewrite (stage_other e _ k (r_task r)); done.
    + apply Forall_app. split; [done|]. repeat constructor; [done|]. by eapply Hno.
    + by apply Forall_app.
    + rewrite launches_snoc. simpl. by rewrite app_nil_r.
  - destruct U as (U1 & U2 & U3 & U4). cbn [jb threads outstanding log] in *.
    apply Forall_app in U2 as [U2 [[U2a U2b] U2']%Forall_cons].
    destruct (thread_step_untouched e k th (mkState j (l1 ++ l2) out h lg) new s' Hn U2a U2b) as (V1 & V2 & V3 & V4); [|exact H|].
    { repeat split; simpl; [done|by apply Forall_app|done|done]. }
    simpl in *. repeat split; simpl; [done| |done|done].
    apply Forall_app in V2 as [V2 [? ?]%Forall_app]. by rewrite !Forall_app.
Qed.

(** No interleaving takes more steps than a bound, and when nothing can happen any more
    every task is done and was launched once, and the job came to one end. *)
Definition comes_to_an_end (e : engine) (s0 : state) : Prop :=
  (exists b, forall n s, nsteps (step e) n s0 s -> (n <= b)%nat) /\
  (forall s, rtc (step e) s0 s -> (forall s', ~ step e s s') ->
     (forall k t, tasks e !! k = Some t -> taskStatusMap (jb s) !! task_name t = Some TASK_DONE) /\
     r_task <$> launches (log s) ≡ₚ seq 0 (length (tasks e)) /\
     exists o, endings (log s) = [o] /\ o <> Threw /\ (o = Finished -> status (jb s) = REQ_DONE)).

Lemma started_ends e rank head s0 :
  graph_ok e rank -> (forall n, n ∈ lastOutputOrder e -> produced e n) ->
  tasks e <> [] -> Z.of_nat (length (tasks e)) < 2 ^ 31 -> started e head s0 ->
  comes_to_an_end e s0.
Proof.
  intros G Ho Ht Hf S.
  pose proof (started_free e head s0 S) as Hfree.
  pose proof (started_inv e Ht Hf head s0 S) as Hi. split.
  - exists (measure e head s0). intros n s H.
    destruct (run_bounded e head rank G Hfree Ho Hf n s0 s Hi H). lia.
  - intros s Hr Hq. pose proof (job_run_inv e head rank G Hfree Ho Hf s0 s Hi Hr) as I.
    pose proof (threads_step e head rank G s I Hq) as Hth.
    pose proof (outstanding_step e head s I Hq) as Hout.
    assert (forall k t, tasks e !! k = Some t ->
      stage e (taskStatusMap (jb s)) k = Some TASK_DONE) as Hd
      by (intros; by eapply quiet_done).
    split; [|split].
    + intros k t Hk. rewrite (stage_at e _ k t Hk). by eapply Hd.
    + by apply all_launched with head.
    + by apply (one_ending e head).
Qed.

(** What [startJob] does not launch and no task has among its successors. *)
Lemma second_head_idle e h inp out store j0 j r hp k s :
  NoDup (task_name <$> tasks e) ->
  startJob e h inp out (prepared e store j0) = Some (j, r) ->
  is_Some (tasks e !! k) -> k <> h ->
  (forall u t, tasks e !! u = Some t -> k ∉ task_nexts t) ->
  rtc (step e) (started_single j r hp) s ->
  stage e (taskStatusMap (jb s)) k = Some TASK_IDLE /\ k ∉ r_task <$> launches (log s).
Proof.
  intros Hn Hj Hk Hne Hno Hr.
  assert (untouched e k (started_single j r hp)) as U.
  { unfold startJob in Hj. destruct (tasks e !! h) as [t|]; simpl in Hj; [|done].
    destruct (inputs_at t inp); simpl in Hj; [|done]. injection Hj as <- <-.
    split; [by apply (prepared_stage e store j0)|]. split; [constructor|]. split.
    - by repeat constructor.
    - simpl. by rewrite list_elem_of_singleton. }
  assert (untouched e k s) as (U1 & _ & _ & U4); [|done].
  clear Hj. induction Hr as [|s1 s2 s3 Hs _ IH]; [done|]. by apply IH, (step_untouched e k s1).
Qed.

(** The end of a job with a buffer of the user. *)
Lemma returned_in_buffer e j h D base to :
  outputPtr j = Some (D, base) -> h !! D = Some to -> NoDup (outputs j) ->
  (forall n n' i, n ∈ outputs j -> n' ∈ outputs j -> n <> n' ->
     region e (tensors j) base n i -> ~ region e (tensors j) base n' i) ->
  Forall (returnable e (tensors j) D base h (FormatHandler.len to)) (outputs j) ->
  exists cb j' to', onAllRequestComplete e j h = (Finished, cb, requests j, j', <[D := to']> h) /\
    status j' = REQ_DONE /\ occupied j' = false /\
    Forall2 (fun n t' => exists t, tensors j !! n = Some t /\
      t' = set_data t (Some (D, base + GetOutputTensorOffset e n))) (outputs j) cb /\
    FormatHandler.len to' = FormatHandler.len to /\
    (forall n t i, n ∈ outputs j -> tensors j !! n = Some t -> 0 <= i < t_size t ->
       byte to' (base + GetOutputTensorOffset e n + i) = content (tensors j) h n i) /\
    (forall i, 0 <= i -> (forall n, n ∈ outputs j -> ~ region e (tensors j) base n i) ->
       byte to' i = byte to i).
Proof.
  intros Ho HD Hn Hdis Hret.
  destruct (return_outputs_buffer e (tensors j) D base (outputs j) h to Hn Hdis HD Hret)
    as (rs & to' & E & F & L & C & O).
  unfold onAllRequestComplete, setReturnOutputs. rewrite Ho, orb_true_r, E.
  exists (ret_tensor <$> rs). do 2 eexists. split; [reflexivity|].
  repeat split; try done. apply Forall2_fmap_r.
  eapply Forall2_impl; [exact F|]. intros n r (t & Ht & ->). by exists t.
Qed.

(** ** Properties *)

(** C13. Jobs on an acyclic graph.  A job that [startJob] started at a head that is the
    only task waiting for no other ([single_ok]: the other tasks read an output of some
    task, and what is read from outside is an input of the model), or that
    [startMultiInputJob] started with every external input given, comes to an end: no
    interleaving of completions and threads takes more steps than a bound, and when
    nothing can happen any more every task is done, each was launched exactly once, the
    end of the job was reached exactly once and did not throw, and a finished job has
    the status [REQ_DONE] ([comes_to_an_end]).  The condition on the head is needed:
    any other task that no task has among its successors is never launched by a job of
    [startJob], in no interleaving, so such a job does not come to an end. *)
Theorem job_completes e rank :
  graph_ok e rank -> (forall n, n ∈ lastOutputOrder e -> produced e n) ->
  tasks e <> [] -> Z.of_nat (length (tasks e)) < 2 ^ 31 ->
  (forall h t inp out store j0 j r hp,
     single_ok e h t inp out -> startJob e h inp out (prepared e store j0) = Some (j, r) ->
     comes_to_an_end e (started_single j r hp)) /\
  (forall inputs out store j0 order hp,
     multi_ok e inputs order ->
     comes_to_an_end e
       (started_multi (startMultiInputJob e inputs out (prepared e store j0)) order hp)) /\
  (forall h inp out store j0 j r hp k s,
     startJob e h inp out (prepared e store j0) = Some (j, r) ->
     is_Some (tasks e !! k) -> k <> h ->
     (forall u t, tasks e !! u = Some t -> k ∉ task_nexts t) ->
     rtc (step e) (started_single j r hp) s ->
     stage e (taskStatusMap (jb s)) k = Some TASK_IDLE /\ k ∉ r_task <$> launches (log s)).
Proof.
  intros G Ho Ht Hf. split; [|split].
  - intros. eapply started_ends; [exact G|done..|]. by eapply started_by_startJob.
  - intros. eapply started_ends; [exact G|done..|]. by apply started_by_startMultiInputJob.
  - intros h inp out store j0 j r hp k s E Hk Hne Hno Hr.
    by apply (second_head_idle e h inp out store j0 j r hp k s (g_names _ _ G)).
Qed.

(** Whenever a task other than the head is launched, its request has the inputs of
    the task, each with the non-null address of an external input of the job or of an
    output with which the task that produces it was completed before. *)
Theorem launch_inputs_supplied e rank head s0 s l1 r l2 :
  graph_ok e rank -> (forall n, n ∈ lastOutputOrder e -> produced e n) ->
  tasks e <> [] -> Z.of_nat (length (tasks e)) < 2 ^ 31 -> started e head s0 ->
  rtc (step e) s0 s -> log s = l1 ++ Launched r :: l2 -> head <> Some (r_task r) ->
  well_fed e (tensors (jb s0)) l1 r.
Proof.
  intros G Ho Ht Hf S Hr Hl Hh.
  pose proof (started_free e head s0 S) as Hfree.
  pose proof (started_inv e Ht Hf head s0 S) as Hi.
  destruct (run_flow e head rank G Hfree Ho Hf (tensors (jb s0)) s0 s Hi) as [_ H]; [|done|by eapply H].
  split; [intros n x Hx; left; by exists x|]. intros l3 r' l4 E Hne.
  destruct S as [h t inp out store j0 j r0 hp S E0|]; simpl in E; [|by destruct l3].
  destruct l3 as [|? [|]]; [|done|done]. injection E as -> _. destruct Hne. unfold startJob in E0.
  destruct (tasks e !! h); simpl in E0; [|done]. destruct (inputs_at _ inp); simpl in E0; [|done].
  by injection E0 as _ <-.
Qed.

(** The end of a job: with a buffer of the user every output, copied or in place,
    ends up at its offset and the other bytes stay; without one the outputs are
    copied; both in the order of the model, and the job is done and free.  When an
    output is missing the job is not ended, its status and its requests stay. *)
Theorem outputs_returned e j h :
  (forall D base to, outputPtr j = Some (D, base) -> h !! D = Some to -> NoDup (outputs j) ->
     (forall n n' i, n ∈ outputs j -> n' ∈ outputs j -> n <> n' ->
        region e (tensors j) base n i -> ~ region e (tensors j) base n' i) ->
     Forall (returnable e (tensors j) D base h (FormatHandler.len to)) (outputs j) ->
     exists cb j' to', onAllRequestComplete e j h = (Finished, cb, requests j, j', <[D := to']> h) /\
       status j' = REQ_DONE /\ occupied j' = false /\
       Forall2 (fun n t' => exists t, tensors j !! n = Some t /\
         t' = set_data t (Some (D, base + GetOutputTensorOffset e n))) (outputs j) cb /\
       FormatHandler.len to' = FormatHandler.len to /\
       (forall n t i, n ∈ outputs j -> tensors j !! n = Some t -> 0 <= i < t_size t ->
          byte to' (base + GetOutputTensorOffset e n + i) = content (tensors j) h n i) /\
       (forall i, 0 <= i -> (forall n, n ∈ outputs j -> ~ region e (tensors j) base n i) ->
          byte to' i = byte to i)) /\
  (outputPtr j = None -> storeResult j = true ->
     Forall (fun n => exists t c, tensors j !! n = Some t /\ loaded h t c) (outputs j) ->
     exists cb j', onAllRequestComplete e j h = (Finished, cb, requests j, j', h) /\
       status j' = REQ_DONE /\ occupied j' = false /\
       Forall2 (fun n r => exists t c, tensors j !! n = Some t /\ loaded h t c /\
         r = mkReturned t (Some c)) (outputs j) (returnOutputs j')) /\
  (forall n, storeResult j || (if outputPtr j then true else false) = true ->
     n ∈ outputs j -> tensors j !! n = None ->
     exists o h', onAllRequestComplete e j h = (o, [], [], j, h') /\ o <> Finished).
Proof.
  split; [|split].
  - intros D base to. apply returned_in_buffer.
  - intros Ho Hs Hl. destruct (return_outputs_copies e (tensors j) (outputs j) h Hl) as (rs & E & F).
    unfold onAllRequestComplete, setReturnOutputs. rewrite Hs, Ho, E. simpl.
    do 2 eexists. split; [reflexivity|]. by repeat split.
  - intros n Hb Hn Hm. unfold onAllRequestComplete, setReturnOutputs. rewrite Hb.
    destruct (return_outputs _ _ _ _ h) as [[[rs missing] h1]|] eqn:E.
    + apply return_outputs_missing in E. assert (n ∈ missing) as Hin.
      { rewrite E. by apply list_elem_of_filter. }
      destruct missing; [by apply elem_of_nil in Hin|]. by exists Threw, h1.
    + by exists Undefined, h.
Qed.

(** [startJob] launches its head only: a task that no task has among its successors
    (a second head of the model) stays idle and is never launched. *)
Theorem second_head_never_starts e h inp out store j0 j r hp k s :
  NoDup (task_name <$> tasks e) ->
  startJob e h inp out (prepared e store j0) = Some (j, r) ->
  is_Some (tasks e !! k) -> k <> h ->
  (forall u t, tasks e !! u = Some t -> k ∉ task_nexts t) ->
  rtc (step e) (started_single j r hp) s ->
  stage e (taskStatusMap (jb s)) k = Some TASK_IDLE /\ k ∉ r_task <$> launches (log s).
Proof. apply second_head_idle. Qed.

(** ** Witnesses *)

Open Scope string_scope.
Open Scope list_scope.
Open Scope Z_scope.

(** A graph with a fork and a join. *)
Definition io (n : string) : Tensor := mkTensor n 2 None 0.
Definition fork : engine := mkEngine
  [mkTask "npu_0" [io "in"] [0] [io "a"; io "b"] [1; 2]%nat false true;
   mkTask "cpu_0" [io "a"] [0] [io "c"] [3]%nat false false;
   mkTask "npu_1" [io "b"] [0] [io "d"] [3]%nat false true;
   mkTask "cpu_1" [io "c"; io "d"] [0; 2] [io "out"] [] true false]
  ["in"] ["out"] (fun _ => 0).
(** Two tasks that read the input of the model. *)
Definition two_heads : engine := mkEngine
  [mkTask "npu_0" [io "in"] [0] [io "a"] [] true true;
   mkTask "npu_1" [io "in"] [0] [io "b"] [] true true]
  ["in"] ["a"; "b"] (fun n => if String.eqb n "b" then 2 else 0).
Definition idle_job : job :=
  mkJob ∅ ∅ 0 0 [] 0 0 None false REQ_IDLE [] [] false.

(** Case analysis on the tasks of a concrete engine and on the members of its lists. *)
Ltac cases_of_task k H :=
  destruct k as [|[|[|[|k]]]]; cbn in H; try discriminate H; injection H as <-.
Ltac members :=
  repeat match goal with
  | H : has_input _ _ |- _ => unfold has_input in H; cbn in H
  | H : has_output _ _ |- _ => unfold has_output in H; cbn in H
  | H : _ ∈ task_nexts _ |- _ => cbn in H
  | H : _ ∈ _ :: _ |- _ => apply elem_of_cons in H as [H|H]
  | H : _ ∈ [] |- _ => by apply elem_of_nil in H
  end; subst.
Ltac here := unfold has_input, has_output; cbn; repeat (left || right).
Ltac names_distinct := apply (bool_decide_unpack _); vm_compute; exact I.

Definition fork_rank (k : nat) : nat := match k with 0 => 0 | 3 => 2 | _ => 1 end%nat.

Lemma fork_ok : graph_ok fork fork_rank.
Proof.
  constructor.
  - names_distinct.
  - intros k t k' Hk Hn. cases_of_task k Hk; members; eauto.
  - intros k t n k' t' Hk Ho Hk' Hi. cases_of_task k Hk; cases_of_task k' Hk'; members;
      try discriminate; cbn; set_solver.
  - intros k t k' Hk Hn. cases_of_task k Hk; members; cbn; lia.
Qed.

Lemma fork_outputs n : n ∈ lastOutputOrder fork -> produced fork n.
Proof.
  intros Hn. cbn in Hn. members. exists 3%nat. eexists. split; [reflexivity|]. by left.
Qed.

Definition fork_start : option (job * request) :=
  startJob fork 0 (Some (1, 0)) None (prepared fork true idle_job).

Lemma fork_single : single_ok fork 0 (mkTask "npu_0" [io "in"] [0] [io "a"; io "b"] [1; 2]%nat false true)
  (Some (1, 0)) None.
Proof.
  constructor.
  - done.
  - intros k u Hk. cases_of_task k Hk; cbn; set_solver.
  - eauto.
  - intros k u Hk Hne. cases_of_task k Hk; [done|exists "a"|exists "b"|exists "c"];
      (split; [here|]); (split; [|cbn; set_solver]);
      [exists 0%nat|exists 0%nat|exists 1%nat]; eexists; (split; [reflexivity|]); here.
  - intros k u n Hk Hne Hn. cases_of_task k Hk; members; [done|left..];
      [exists 0%nat|exists 0%nat|exists 1%nat|exists 2%nat]; eexists; (split; [reflexivity|]);
      here.
  - done.
Qed.

Lemma job_completes_witness :
  exists j r, fork_start = Some (j, r) /\
  (exists b, forall n s, nsteps (step fork) n (started_single j r ∅) s -> (n <= b)%nat) /\
  (forall s, rtc (step fork) (started_single j r ∅) s -> (forall s', ~ step fork s s') ->
     r_task <$> launches (log s) ≡ₚ [0; 1; 2; 3]%nat).
Proof.
  destruct fork_start as [[j r]|] eqn:E; [|discriminate E].
  exists j, r. split; [reflexivity|].
  destruct (job_completes fork fork_rank fork_ok fork_outputs) as [H _].
  - discriminate.
  - vm_compute. reflexivity.
  - destruct (H 0%nat _ _ _ _ _ j r ∅ fork_single E) as [H1 H2].
    split; [exact H1|]. intros s Hr Hq. destruct (H2 s Hr Hq) as (_ & H3 & _). exact H3.
Defined.

(** The loop of [startMultiInputJob] launches the first task of the graph. *)
Definition fork_multi : state :=
  started_multi (startMultiInputJob fork [("in", Some (1, 0))] None (prepared fork true idle_job))
    [0; 1; 2; 3]%nat ∅.

(** One step of the only thread. *)
Definition run_thread (e : engine) (s : state) : state :=
  match threads s with
  | [th] =>
      match thread_step e th (mkState (jb s) [] (outstanding s) (mem s) (log s)) with
      | Some (new, s') => mkState (jb s') new (outstanding s') (mem s') (log s')
      | None => s
      end
  | _ => s
  end.

Definition can_run (e : engine) (s : state) : bool :=
  match threads s with
  | [th] =>
      bool_decide (is_Some (thread_step e th (mkState (jb s) [] (outstanding s) (mem s) (log s))))
  | _ => false
  end.

Lemma run_thread_step e s : can_run e s = true -> step e s (run_thread e s).
Proof.
  destruct s as [j [|th [|]] out h lg]; try done. unfold can_run, run_thread.
  cbn [threads jb outstanding mem log]. intros [[new s'] H]%bool_decide_eq_true. rewrite H.
  pose proof (step_thread e [] th [] j out h lg new s' H) as Hs. simpl in Hs.
  by rewrite app_nil_r in Hs.
Qed.

Lemma fork_multi_ok : multi_ok fork [("in", Some (1, 0))] [0; 1; 2; 3]%nat.
Proof.
  constructor.
  - intros n (k & t & Hk & Hn). cases_of_task k Hk; members; [right; by left|left..];
      [exists 0%nat|exists 0%nat|exists 1%nat|exists 2%nat]; eexists; (split; [reflexivity|]); here.
  - repeat constructor. eauto.
  - intros k. split.
    + intros Hk. members; eexists; reflexivity.
    + intros [t Hk]. cases_of_task k Hk; here.
Qed.

Lemma launch_inputs_supplied_witness :
  let s := run_thread fork (run_thread fork fork_multi) in
  exists r, log s = [] ++ Launched r :: [] /\ well_fed fork (tensors (jb fork_multi)) [] r.
Proof.
  intros s. exists (mkRequest 0 [set_addr (io "in") (Some (1, 0)) 0] []).
  assert (log s = [] ++ Launched (mkRequest 0 [set_addr (io "in") (Some (1, 0)) 0] []) :: []) as E
    by (vm_compute; reflexivity).
  split; [exact E|].
  apply (launch_inputs_supplied fork fork_rank None fork_multi s [] _ [] fork_ok fork_outputs).
  - discriminate.
  - vm_compute. reflexivity.
  - exact (started_by_startMultiInputJob fork _ _ _ _ _ ∅ fork_multi_ok).
  - apply (rtc_l _ _ (run_thread fork fork_multi)); [|apply (rtc_l _ _ s); [|apply rtc_refl]].
    + apply (run_thread_step fork fork_multi). vm_compute. reflexivity.
    + apply (run_thread_step fork (run_thread fork fork_multi)). vm_compute. reflexivity.
  - exact E.
  - discriminate.
Defined.

(** Two outputs in a buffer of four bytes: the second is in its place already. *)
Definition two_outputs : job :=
  mkJob {[ "a" := mkTensor "a" 2 (Some (2, 1)) 0; "b" := mkTensor "b" 2 (Some (1, 2)) 0 ]}
    ∅ 2 2 ["b"; "a"] 0 0 (Some (1, 0)) false REQ_BUSY [] [] true.

Lemma outputs_returned_witness :
  exists cb j' to', onAllRequestComplete two_heads two_outputs {[ 1 := [0; 0; 7; 8]; 2 := [4; 5; 6] ]}
      = (Finished, cb, [], j', to') /\
    to' !! 1 = Some [5; 6; 7; 8] /\ (t_name <$> cb) = ["b"; "a"] /\ status j' = REQ_DONE.
Proof.
  destruct (proj1 (outputs_returned two_heads two_outputs {[ 1 := [0; 0; 7; 8]; 2 := [4; 5; 6] ]})
    1 0 [0; 0; 7; 8]) as (cb & j' & to' & E & H1 & _ & H2 & _).
  - reflexivity.
  - reflexivity.
  - names_distinct.
  - intros n n' i _ _ Hne (t & Ht & Hi) (t' & Ht' & Hi').
    assert (forall k u, tensors two_outputs !! k = Some u ->
      (k = "a" \/ k = "b") /\ t_size u = 2) as Hc.
    { intros k u Hu. unfold two_outputs in Hu. cbn [tensors] in Hu.
      rewrite lookup_insert_Some, lookup_singleton_Some in Hu.
      destruct Hu as [[<- <-]|[_ [<- <-]]]; split; tauto || reflexivity. }
    destruct (Hc _ _ Ht) as [Hn Hs], (Hc _ _ Ht') as [Hn' Hs']. rewrite Hs in Hi. rewrite Hs' in Hi'.
    destruct Hn as [->| ->], Hn' as [->| ->]; cbn in Hi, Hi'; congruence || lia.
  - constructor; [|constructor; [|constructor]].
    + eexists _, _. split; [reflexivity|]. split; [reflexivity|]. cbn.
      repeat split; try discriminate. by left.
    + eexists _, _. split; [reflexivity|]. split; [reflexivity|]. cbn.
      repeat split; try discriminate. right. repeat split; try discriminate.
      exists [4; 5; 6]. split; [reflexivity|]. discriminate.
  - vm_compute in E. injection E as <- <- _. do 3 eexists. split; [vm_compute; reflexivity|].
    split; [vm_compute; reflexivity|]. split; [reflexivity|exact H1].
Defined.

(** The first head is completed, then the thread of the completion leaves. *)
Lemma second_head_never_starts_witness :
  exists j r s, startJob two_heads 0 (Some (1, 0)) None (prepared two_heads true idle_job) = Some (j, r) /\
    rtc (step two_heads) (started_single j r ∅) s /\ threads s = [] /\ outstanding s = [] /\
    status (jb s) = REQ_BUSY /\ 1%nat ∉ r_task <$> launches (log s).
Proof.
  destruct (startJob two_heads 0 (Some (1, 0)) None (prepared two_heads true idle_job))
    as [[j r]|] eqn:E; [|discriminate E].
  assert (r = mkRequest 0 [set_addr (io "in") (Some (1, 0)) 0] []) as Hr
    by (vm_compute in E; injection E as _ <-; reflexivity).
  set (t := mkTask "npu_0" [io "in"] [0] [io "a"] [] true true).
  set (c := mkCompletion [set_data (io "a") (Some (3, 0))] 0 0 0).
  destruct (onRequestComplete t c j) as [j1 [fin|]] eqn:Ej; cycle 1.
  { exfalso. vm_compute in E. injection E as <- _. vm_compute in Ej. discriminate Ej. }
  assert (fin = false) as ->.
  { vm_compute in E. injection E as <- _. vm_compute in Ej. injection Ej as _ <-. reflexivity. }
  set (s := mkState j1 [] [] ∅ [Launched r; Completed r c]). exists j, r, s.
  assert (rtc (step two_heads) (started_single j r ∅) s) as Hrun.
  { apply (rtc_l _ _ (mkState j1 [mkThread None [] false] [] ∅ [Launched r; Completed r c])).
    - apply (step_complete two_heads [] r [] t c j [] ∅ [Launched r] j1 false).
      + rewrite Hr. reflexivity.
      + rewrite Hr. split; [reflexivity|]. repeat constructor. eexists. reflexivity.
      + exact Ej.
    - apply rtc_once.
      exact (step_thread two_heads [] (mkThread None [] false) [] j1 [] ∅ _ [] s eq_refl). }
  split; [reflexivity|]. split; [exact Hrun|]. do 2 (split; [reflexivity|]). split.
  - vm_compute in E. injection E as <- _. vm_compute in Ej. injection Ej as <-. reflexivity.
  - apply (second_head_never_starts two_heads 0 (Some (1, 0)) None true idle_job j r ∅ 1 s).
    + names_distinct.
    + exact E.
    + eexists. reflexivity.
    + discriminate.
    + intros u t' Hu. cases_of_task u Hu; cbn; apply not_elem_of_nil.
    + exact Hrun.
Defined.
