(* ===== verification/StopGate.v ===== *)
(** * Stop gate: definitions and invariant

    [lib/device_pool/stop_gate.cpp], class [StopGate]: a gate threads pass before they
    use a device.  [SetStop(true)] closes it and waits until every pass is released.

    A section under [mutex_] is one step.  A thread in [condition_.wait] sleeps, is
    woken by [notify_all] or spuriously, and then takes the mutex again and tests its
    predicate; a notification after the mutex is released is a step of its own.  A
    thread that holds a pass only releases it. *)

From Stdlib Require Import ZArith Lia.
From S2P Require Import Prelude.

Module StopGate.

Record gate := mkGate { stop_flag : bool; shutting_down : bool; active_passes : Z }.

(** The two waits: of [SetStop(true)] and of [WaitIfStopped]. *)
Inductive wait := KStop | KPass.

Inductive pc :=
| Idle
| Holding                (** an active pass *)
| Asleep (k : wait)
| Awake (k : wait)       (** notified, about to take the mutex *)
| Notifying.             (** the mutex is released, [notify_all] comes next *)
#[export] Instance wait_eq_dec : EqDecision wait.
Proof. solve_decision. Defined.
#[export] Instance pc_eq_dec : EqDecision pc.
Proof. solve_decision. Defined.

Record state := mkState { the_gate : gate; threads : list pc }.

Definition set_pc (t : nat) (p : pc) (s : state) : state :=
  mkState (the_gate s) (<[t := p]> (threads s)).
Definition set_gate (g : gate) (s : state) : state := mkState g (threads s).

(** [condition_.notify_all()] *)
Definition wake_pc (p : pc) : pc := match p with Asleep k => Awake k | _ => p end.
Definition notify_all (s : state) : state := mkState (the_gate s) (map wake_pc (threads s)).

(** The predicates of the two waits. *)
Definition ready (k : wait) (g : gate) : bool :=
  match k with
  | KStop => shutting_down g || (active_passes g =? 0)
  | KPass => negb (stop_flag g) || shutting_down g
  end.

(** What follows a wait: [SetStop] returns; [WaitIfStopped] returns an inactive pass
    when the gate shuts down. *)
Definition after_wait (k : wait) (t : nat) (s : state) : state :=
  let g := the_gate s in
  match k with
  | KStop => set_pc t Idle s
  | KPass =>
      if shutting_down g then set_pc t Idle s
      else set_pc t Holding (set_gate (mkGate (stop_flag g) (shutting_down g) (active_passes g + 1)) s)
  end.

(** [condition_.wait(lock, predicate)] from the test on. *)
Definition test (k : wait) (t : nat) (s : state) : state :=
  if ready k (the_gate s) then after_wait k t s else set_pc t (Asleep k) s.

Definition SetStop (stop : bool) (t : nat) (s : state) : state :=
  let g := the_gate s in
  if shutting_down g then s
  else if stop then test KStop t (set_gate (mkGate true (shutting_down g) (active_passes g)) s)
  else set_pc t Notifying (set_gate (mkGate false (shutting_down g) (active_passes g)) s).

Definition WaitIfStopped (t : nat) (s : state) : state := test KPass t s.

Definition Shutdown (t : nat) (s : state) : state :=
  set_pc t Notifying (set_gate (mkGate false true (active_passes (the_gate s))) s).

Definition ReleasePass (t : nat) (s : state) : state :=
  let g := the_gate s in
  let n := if 0 <? active_passes g then active_passes g - 1 else active_passes g in
  let s' := set_pc t Idle (set_gate (mkGate (stop_flag g) (shutting_down g) n) s) in
  if n =? 0 then notify_all s' else s'.

Definition IsStopped (s : state) : bool :=
  stop_flag (the_gate s) && negb (shutting_down (the_gate s)).

(** A step of thread [t]. *)
Inductive action :=
| CallSetStop (stop : bool) (t : nat)
| CallWaitIfStopped (t : nat)
| CallShutdown (t : nat)
| Release (t : nat)
| NotifyAll (t : nat)
| Wake (t : nat)             (** spurious *)
| Retest (t : nat).

Definition act (a : action) (s : state) : option state :=
  match a with
  | CallSetStop stop t => guard (threads s !! t = Some Idle);; Some (SetStop stop t s)
  | CallWaitIfStopped t => guard (threads s !! t = Some Idle);; Some (WaitIfStopped t s)
  | CallShutdown t => guard (threads s !! t = Some Idle);; Some (Shutdown t s)
  | Release t => guard (threads s !! t = Some Holding);; Some (ReleasePass t s)
  | NotifyAll t => guard (threads s !! t = Some Notifying);; Some (notify_all (set_pc t Idle s))
  | Wake t =>
      match threads s !! t with Some (Asleep k) => Some (set_pc t (Awake k) s) | _ => None end
  | Retest t =>
      match threads s !! t with Some (Awake k) => Some (test k t s) | _ => None end
  end.

Fixpoint acts (l : list action) (s : state) : option state :=
  match l with [] => Some s | a :: l => s' ← act a s; acts l s' end.

Definition init (n : nat) : state := mkState (mkGate false false 0) (replicate n Idle).

(** ** Counting threads *)

Definition count (p : pc) (l : list pc) : Z := Z.of_nat (length (filter (fun q => q = p) l)).

Lemma gate_count_insert p l t q q' :
  l !! t = Some q ->
  count p (<[t := q']> l) = count p l - (if decide (q = p) then 1 else 0) + (if decide (q' = p) then 1 else 0).
Proof.
  intros E. unfold count. rewrite (insert_take_drop l t q') by (by eapply lookup_lt_Some).
  pose proof (take_drop_middle l t q E) as M.
  generalize dependent (take t l). generalize (drop (S t) l). intros l2 l1 <-.
  rewrite !filter_app, !filter_cons, !length_app.
  destruct (decide (q = p)), (decide (q' = p)); simpl; lia.
Qed.

Lemma count_wake l : count Holding (map wake_pc l) = count Holding l.
Proof.
  unfold count. induction l as [|p l IH]; [done|]. simpl. rewrite !filter_cons.
  destruct p; simpl; try done; simpl; lia.
Qed.

Lemma count_pos p l : 0 < count p l <-> exists t, l !! t = Some p.
Proof.
  unfold count. split.
  - intros H. destruct (filter (fun q => q = p) l) as [|q l'] eqn:E; [simpl in H; lia|].
    assert (q ∈ filter (fun q => q = p) l) as Hin by (rewrite E; left).
    apply list_elem_of_filter in Hin as [-> Hin]. by apply list_elem_of_lookup in Hin.
  - intros [t E]. assert (p ∈ filter (fun q => q = p) l) as Hin
      by (apply list_elem_of_filter; split; [done|by eapply list_elem_of_lookup_2]).
    destruct (filter _ l); [by apply not_elem_of_nil in Hin|]. simpl. lia.
Qed.

Lemma wake_lookup l t p :
  map wake_pc l !! t = Some p -> exists q, l !! t = Some q /\ p = wake_pc q.
Proof.
  intros E. change (map wake_pc l) with (wake_pc <$> l) in E.
  rewrite list_lookup_fmap in E. apply fmap_Some in E as (q & E & ->). by exists q.
Qed.

(** ** The invariant *)

(** The counter is the number of passes, and who sleeps although its predicate holds
    is about to be notified. *)
Record inv (s : state) : Prop := {
  in_count : active_passes (the_gate s) = count Holding (threads s);
  in_wake t k : threads s !! t = Some (Asleep k) -> ready k (the_gate s) = true ->
                exists t', threads s !! t' = Some Notifying
}.

Lemma lookup_set t p (l : list pc) t' :
  is_Some (l !! t) -> <[t := p]> l !! t' = if decide (t' = t) then Some p else l !! t'.
Proof.
  intros [q E]. destruct (decide (t' = t)) as [->|].
  - apply list_lookup_insert_eq. by eapply lookup_lt_Some.
  - by apply list_lookup_insert_ne.
Qed.

Lemma not_asleep_wake l t k : map wake_pc l !! t <> Some (Asleep k).
Proof. intros (q & _ & E)%wake_lookup. by destruct q. Qed.

(** Thread [t] moves; who sleeps slept before, or its predicate does not hold. *)
Lemma gate_inv_move s t q p g :
  inv s -> threads s !! t = Some q ->
  active_passes g = count Holding (<[t := p]> (threads s)) ->
  q <> Notifying \/ p = Notifying ->
  (forall k, p = Asleep k -> ready k g = false) ->
  (forall k, ready k g = true -> ready k (the_gate s) = true \/ p = Notifying) ->
  inv (mkState g (<[t := p]> (threads s))).
Proof.
  intros I E Hc Hq Hp Hr. split; [done|]. simpl. intros t' k Et Ek.
  assert (is_Some (threads s !! t)) as Hs by by eexists.
  rewrite lookup_set in Et by done. destruct (decide (t' = t)) as [->|Hne].
  - injection Et as ->. rewrite (Hp k eq_refl) in Ek. done.
  - destruct (Hr k Ek) as [Hk| ->].
    + destruct (in_wake s I t' k Et Hk) as [t2 E2]. destruct (decide (t2 = t)) as [->|Hn2].
      * destruct Hq as [Hq| ->]; [congruence|]. exists t. by rewrite lookup_set, decide_True.
      * exists t2. by rewrite lookup_set, decide_False.
    + exists t. by rewrite lookup_set, decide_True.
Qed.

Lemma inv_test s t k q g :
  inv s -> threads s !! t = Some q -> q <> Notifying -> q <> Holding ->
  active_passes g = active_passes (the_gate s) ->
  (forall k, ready k g = true -> ready k (the_gate s) = true) ->
  inv (test k t (set_gate g s)).
Proof.
  intros I E Hq Hh Ha Hr. unfold test, after_wait. simpl.
  assert (forall p, p <> Holding -> active_passes g = count Holding (<[t := p]> (threads s))) as Hc.
  { intros p Hp. rewrite (gate_count_insert _ _ _ q) by done. rewrite !decide_False by done.
    rewrite Ha, (in_count s I). lia. }
  assert (forall p, p <> Holding -> (forall k', p = Asleep k' -> ready k' g = false) ->
    inv (mkState g (<[t := p]> (threads s)))) as Hm.
  { intros p Hp Hk. apply (gate_inv_move s t q); auto. }
  destruct (ready k g) eqn:Ek; [|apply Hm; [done|by intros k' [= <-]]].
  destruct k; [by apply Hm|]. destruct (shutting_down g) eqn:Es; [by apply Hm|].
  apply (gate_inv_move s t q); auto; try done.
  - simpl. rewrite (gate_count_insert _ _ _ q) by done. rewrite decide_False, decide_True by done.
    rewrite Ha, (in_count s I). lia.
  - intros k' Hk'. left. apply Hr. destruct k'; [|exact Ek]. unfold ready in *. simpl in *.
    rewrite Es. simpl. apply Z.eqb_eq in Hk'. apply Z.eqb_eq.
    assert (0 <= active_passes g) by (rewrite Ha, (in_count s I); unfold count; lia). lia.
Qed.

Lemma inv_notify s : active_passes (the_gate s) = count Holding (threads s) -> inv (notify_all s).
Proof.
  intros E. split; [simpl; by rewrite count_wake|]. intros t k Et. by apply not_asleep_wake in Et.
Qed.

Lemma ReleasePass_inv t s : inv s -> threads s !! t = Some Holding -> inv (ReleasePass t s).
Proof.
  intros I E. unfold ReleasePass.
  assert (0 < active_passes (the_gate s)) as Hp by (rewrite (in_count s I); apply count_pos; by exists t).
  destruct (Z.ltb_spec 0 (active_passes (the_gate s))); [|lia].
  assert (active_passes (the_gate s) - 1 = count Holding (<[t := Idle]> (threads s))) as Hc.
  { rewrite (gate_count_insert _ _ _ Holding) by done. rewrite decide_True, decide_False by done.
    rewrite (in_count s I). lia. }
  destruct (Z.eqb_spec (active_passes (the_gate s) - 1) 0) as [H0|H0].
  - apply inv_notify. exact Hc.
  - apply (gate_inv_move s t Holding _ (mkGate _ _ _) I E Hc); [by left|done|]. intros k Hk. left. destruct k; [|exact Hk].
    unfold ready in *. simpl in *. apply orb_true_iff in Hk as [Hk|Hk%Z.eqb_eq]; [by rewrite Hk|lia].
Qed.

Lemma gate_act_inv a s s' : inv s -> act a s = Some s' -> inv s'.
Proof.
  intros I. destruct a as [stop t|t|t|t|t|t|t]; simpl.
  - intros [E [= <-]]%guard_Some. unfold SetStop. destruct (shutting_down (the_gate s)) eqn:Es; [done|].
    assert (count Holding (threads s) = count Holding (<[t := Notifying]> (threads s))) as Hc.
    { rewrite (gate_count_insert _ _ _ Idle) by done. rewrite !decide_False by done. lia. }
    destruct stop.
    + eapply inv_test; [done|exact E|done|done|done|]. intros k. unfold ready. simpl.
      rewrite Es. by destruct k.
    + apply (gate_inv_move s t Idle _ _ I E); [simpl; rewrite (in_count s I); exact Hc|by left|done|].
      intros k _. by right.
  - intros [E [= <-]]%guard_Some. unfold WaitIfStopped.
    assert (set_gate (the_gate s) s = s) as Hs by (by destruct s).
    rewrite <- Hs. by eapply inv_test.
  - intros [E [= <-]]%guard_Some. unfold Shutdown.
    apply (gate_inv_move s t Idle _ _ I E); [|by left|done|intros k _; by right].
    simpl. rewrite (gate_count_insert _ _ _ Idle) by done. rewrite !decide_False by done.
    rewrite (in_count s I). lia.
  - intros [E [= <-]]%guard_Some. by apply ReleasePass_inv.
  - intros [E [= <-]]%guard_Some. apply inv_notify. simpl.
    rewrite (gate_count_insert _ _ _ Notifying) by done. rewrite !decide_False by done.
    rewrite (in_count s I). lia.
  - destruct (threads s !! t) as [p|] eqn:E; [|done]. destruct p; try done. intros [= <-].
    apply (gate_inv_move s t (Asleep k) _ _ I E); [|by left|done|intros k' Hk; by left].
    rewrite (gate_count_insert _ _ _ (Asleep k)) by done. rewrite !decide_False by done.
    rewrite (in_count s I). lia.
  - destruct (threads s !! t) as [p|] eqn:E; [|done]. destruct p; try done. intros [= <-].
    assert (set_gate (the_gate s) s = s) as Hs by (by destruct s). rewrite <- Hs.
    by eapply inv_test.
Qed.

Lemma gate_init_inv n : inv (init n).
Proof.
  split.
  - simpl. unfold count. induction n as [|n IH]; [done|]. simpl. by rewrite filter_cons.
  - intros t k [E _]%lookup_replicate. done.
Qed.

Lemma gate_acts_inv l s s' : inv s -> acts l s = Some s' -> inv s'.
Proof.
  revert s. induction l as [|a l IH]; intros s I; simpl; [by intros [= <-]|].
  intros (s1 & E & E')%bind_Some. eapply IH; [|exact E']. by eapply gate_act_inv.
Qed.

End StopGate.

(** * Stop gate: theorems

    After [SetStop(true)] has drained the gate nobody holds a pass until the gate is
    opened, and no sleeping thread misses the notification it needs. *)


Module StopGateThms.
Import StopGate.

(** A step on which a call [SetStop(true)] of thread [t] returns. *)
Definition stop_returns (a : action) (t : nat) (s s' : state) : bool :=
  match a with
  | CallSetStop true t1 => bool_decide (t1 = t /\ threads s' !! t = Some Idle)
  | Retest t1 => bool_decide (t1 = t /\ threads s !! t = Some (Awake KStop) /\ threads s' !! t = Some Idle)
  | _ => false
  end.

(** Not a call that opens the gate. *)
Definition opens (a : action) : bool :=
  match a with CallSetStop false _ | CallShutdown _ => true | _ => false end.

Definition drained (s : state) : Prop :=
  stop_flag (the_gate s) = true /\ shutting_down (the_gate s) = false /\ count Holding (threads s) = 0.

Lemma count_zero p l t : count p l = 0 -> l !! t <> Some p.
Proof. intros Hc E. pose proof (proj2 (count_pos p l) (ex_intro _ t E)). lia. Qed.

Lemma stop_returns_drained a t s s' :
  inv s' -> act a s = Some s' -> stop_returns a t s s' = true ->
  shutting_down (the_gate s) = false -> stop_flag (the_gate s') = true -> drained s'.
Proof.
  intros I E Hr Hs Hf. unfold drained. rewrite <- (in_count s' I).
  assert (forall g, shutting_down g = false -> is_Some (threads s !! t) ->
    s' = test KStop t (set_gate g s) -> threads s' !! t = Some Idle ->
    shutting_down (the_gate s') = false /\ active_passes (the_gate s') = 0) as Ht.
  { intros g Hg Hi -> Et. unfold test, after_wait in *. simpl in *.
    rewrite Hg in *. simpl in *. destruct (Z.eqb_spec (active_passes g) 0); simpl in *; [done|].
    by rewrite lookup_set, decide_True in Et. }
  split; [done|]. destruct a as [[] t1| | | | | |t1]; try done; simpl in *; apply bool_decide_eq_true in Hr.
  - destruct Hr as [-> Et]. apply guard_Some in E as [Hi [= <-]]. unfold SetStop in *. rewrite Hs in *.
    eapply Ht; [|by eexists|done|done]; done.
  - destruct Hr as (-> & Et & Et'). rewrite Et in E. injection E as <-.
    eapply (Ht (the_gate s)); [done|by eexists|by destruct s|done].
Qed.

Lemma drained_act a s s' : inv s -> drained s -> opens a = false -> act a s = Some s' -> drained s'.
Proof.
  intros I (Hf & Hs & Hc) Ho E.
  assert (forall t p, p <> Holding -> is_Some (threads s !! t) ->
    count Holding (<[t := p]> (threads s)) = 0) as Hset.
  { intros t p Hp [q Hq]. rewrite (gate_count_insert _ _ _ q) by done. rewrite (decide_False (P := p = Holding)) by done.
    rewrite decide_False; [lia|]. intros ->. by apply (count_zero _ _ _ Hc) in Hq. }
  assert (forall k t g, is_Some (threads s !! t) -> stop_flag g = true -> shutting_down g = false ->
    drained (test k t (set_gate g s))) as Ht.
  { intros k t g Hi Hg1 Hg2. unfold test, after_wait. destruct k; simpl; rewrite ?Hg1, Hg2.
    - destruct (_ || _); (split; [done|split; [done|by apply Hset]]).
    - split; [done|split; [done|by apply Hset]]. }
  assert (set_gate (the_gate s) s = s) as Hid by (by destruct s).
  destruct a as [[] t|t|t|t|t|t|t]; try done; simpl in E.
  - apply guard_Some in E as [Hi [= <-]]. unfold SetStop. rewrite Hs. apply Ht; [by eexists|done|done].
  - apply guard_Some in E as [Hi [= <-]]. unfold WaitIfStopped. rewrite <- Hid. apply Ht; [by eexists|done|done].
  - apply guard_Some in E as [Hi _]. by apply (count_zero _ _ _ Hc) in Hi.
  - apply guard_Some in E as [Hi [= <-]]. split; [done|split; [done|]]. simpl. rewrite count_wake.
    apply Hset; [done|by eexists].
  - destruct (threads s !! t) as [[]|] eqn:Et; try done. injection E as <-.
    split; [done|split; [done|]]. apply Hset; [done|by eexists].
  - destruct (threads s !! t) as [[]|] eqn:Et; try done. injection E as <-.
    rewrite <- Hid. apply Ht; [by eexists|done|done].
Qed.

Lemma drained_acts l s s' :
  inv s -> drained s -> forallb (fun a => negb (opens a)) l = true -> acts l s = Some s' -> drained s'.
Proof.
  revert s. induction l as [|a l IH]; intros s I D Hl; simpl; [by intros [= <-]|].
  simpl in Hl. apply andb_true_iff in Hl as [Ha Hl]. apply negb_true_iff in Ha.
  intros (s1 & E & E')%bind_Some. eapply (IH s1); [by eapply gate_act_inv|by eapply drained_act|done|done].
Qed.

(** C24. Mutual exclusion of the gate: in every interleaving, from the step on which a
    [SetStop(true)] returns with the gate still closed, no thread holds a pass until
    somebody calls [SetStop(false)] or [Shutdown]. *)
Theorem gate_exclusion n l0 a t l s s' s'' :
  acts l0 (init n) = Some s -> act a s = Some s' -> stop_returns a t s s' = true ->
  shutting_down (the_gate s) = false -> stop_flag (the_gate s') = true ->
  forallb (fun a => negb (opens a)) l = true -> acts l s' = Some s'' ->
  IsStopped s'' = true /\ forall t', threads s'' !! t' <> Some Holding.
Proof.
  intros E0 E Hr Hs Hf Hl E'.
  assert (inv s) as I by (eapply gate_acts_inv; [apply gate_init_inv|done]).
  assert (inv s') as I' by (by eapply gate_act_inv).
  assert (drained s') as D by (by eapply stop_returns_drained).
  destruct (drained_acts l s' s'' I' D Hl E') as (Hf'' & Hs'' & Hc).
  split; [unfold IsStopped; by rewrite Hf'', Hs''|]. intros t'. by apply count_zero.
Qed.

(** Thread 0 holds a pass when thread 1 closes the gate; thread 2 comes after. *)
Definition demo_before : list action :=
  [CallWaitIfStopped 0; CallSetStop true 1; CallWaitIfStopped 2; Release 0; Retest 2].
Definition demo_after : list action := [CallWaitIfStopped 0; Wake 2; Retest 2].
Definition demo_state (l : list action) : state := default (init 0) (acts l (init 3)).

Lemma gate_exclusion_witness :
  IsStopped (demo_state (demo_before ++ Retest 1 :: demo_after)) = true /\
  forall t', threads (demo_state (demo_before ++ Retest 1 :: demo_after)) !! t' <> Some Holding.
Proof.
  apply (gate_exclusion 3 demo_before (Retest 1) 1 demo_after
    (demo_state demo_before) (demo_state (demo_before ++ [Retest 1]))); reflexivity.
Defined.

(** No lost wakeup: in every reachable state in which no notification is under way,
    a thread sleeps in [WaitIfStopped] only if the gate is closed, and in
    [SetStop(true)] only if some thread still holds a pass. *)
Theorem gate_no_lost_wakeup n l s t k :
  acts l (init n) = Some s -> (forall t', threads s !! t' <> Some Notifying) ->
  threads s !! t = Some (Asleep k) ->
  shutting_down (the_gate s) = false /\
  match k with
  | KPass => IsStopped s = true
  | KStop => exists t', threads s !! t' = Some Holding
  end.
Proof.
  intros E Hn Et. assert (inv s) as I by (eapply gate_acts_inv; [apply gate_init_inv|done]).
  destruct (ready k (the_gate s)) eqn:Ek.
  - destruct (in_wake s I t k Et Ek) as [t' Et']. by apply Hn in Et'.
  - unfold IsStopped. destruct k; unfold ready in Ek; apply orb_false_iff in Ek as [E1 E2].
    + split; [done|]. apply count_pos. rewrite <- (in_count s I).
      apply Z.eqb_neq in E2. rewrite (in_count s I) in E2 |- *. unfold count in *. lia.
    + apply negb_false_iff in E1. by rewrite E1, E2.
Qed.

Lemma gate_no_lost_wakeup_witness :
  shutting_down (the_gate (demo_state [CallWaitIfStopped 0; CallSetStop true 1])) = false /\
  exists t', threads (demo_state [CallWaitIfStopped 0; CallSetStop true 1]) !! t' = Some Holding.
Proof.
  apply (gate_no_lost_wakeup 3 [CallWaitIfStopped 0; CallSetStop true 1] _ 1 KStop);
    [reflexivity| |reflexivity].
  intros [|[|[|t']]]; discriminate.
Defined.

End StopGateThms.
