(* ===== verification/BufferPool.v ===== *)
(** * Host buffers of a task

    [lib/fixed_size_buffer.cpp] and the buffer functions of [lib/task.cpp]: a pool of
    buffers of one size with a blocking [getBuffer], the three pools of a task, and
    [AcquireAllBuffers] and [ReleaseAllBuffers] by any number of threads.  A call of a
    pool runs under the mutex of the pool and is one step; a thread that waits in
    [getBuffer] is one whose step is not enabled. *)

From Stdlib Require Import ZArith Lia.
From S2P Require Import Prelude.

Module BufferPool.

(** ** [FixedSizeBuffer] *)

(** [pointers] has the back of the vector first. *)
Record fsb := mkFsb { data_ : list Z; pointers : list Z; count_ : Z }.

(** The constructor; [alloc i] is the address of the allocation [i], [None] if it fails,
    which is a failed assertion. *)
Definition new_fsb (alloc : nat -> option Z) (buffer_count : Z) : option fsb :=
  l ← mapM alloc (seq 0 (Z.to_nat buffer_count));
  Some (mkFsb l (reverse l) buffer_count).

Inductive got := Null | Waits | Got (p : Z) (f : fsb).

Definition getBuffer (f : fsb) : got :=
  if bool_decide (data_ f = []) || (count_ f <=? 0) then Null
  else match pointers f with
       | [] => Waits
       | p :: l => Got p (mkFsb (data_ f) l (count_ f))
       end.

(** [None] is a failed assertion. *)
Definition releaseBuffer (p : Z) (f : fsb) : option fsb :=
  if p =? 0 then Some f
  else if bool_decide (p ∉ data_ f) then None
  else if bool_decide (p ∈ pointers f) then Some f
  else Some (mkFsb (data_ f) (p :: pointers f) (count_ f)).

Definition hasBuffer (f : fsb) : bool := negb (bool_decide (pointers f = [])).

(** ** The pools of a task *)

Inductive slot := EncodedInput | Output | EncodedOutput.
#[export] Instance slot_eq_dec : EqDecision slot.
Proof. solve_decision. Defined.

(** [BufferSet]; 0 is [nullptr]. *)
Record BufferSet := mkBufferSet { encoded_input : Z; output : Z; encoded_output : Z }.
Definition no_buffers : BufferSet := mkBufferSet 0 0 0.
Definition get (k : slot) (b : BufferSet) : Z :=
  match k with EncodedInput => encoded_input b | Output => output b | EncodedOutput => encoded_output b end.
Definition set (k : slot) (p : Z) (b : BufferSet) : BufferSet :=
  match k with
  | EncodedInput => mkBufferSet p (output b) (encoded_output b)
  | Output => mkBufferSet (encoded_input b) p (encoded_output b)
  | EncodedOutput => mkBufferSet (encoded_input b) (output b) p
  end.

Record pools := mkPools {
  npu : bool;
  taskEncodedInputBuffer : option fsb;
  taskOutputBuffer : option fsb;
  taskEncodedOutputBuffer : option fsb
}.
Definition pool (k : slot) (p : pools) : option fsb :=
  match k with
  | EncodedInput => taskEncodedInputBuffer p
  | Output => taskOutputBuffer p
  | EncodedOutput => taskEncodedOutputBuffer p
  end.
Definition set_pool (k : slot) (f : option fsb) (p : pools) : pools :=
  match k with
  | EncodedInput => mkPools (npu p) f (taskOutputBuffer p) (taskEncodedOutputBuffer p)
  | Output => mkPools (npu p) (taskEncodedInputBuffer p) f (taskEncodedOutputBuffer p)
  | EncodedOutput => mkPools (npu p) (taskEncodedInputBuffer p) (taskOutputBuffer p) f
  end.

Definition SetEncodedInputBuffer (alloc : nat -> option Z) (size : Z) (p : pools) : option pools :=
  if npu p then f ← new_fsb alloc size; Some (set_pool EncodedInput (Some f) p) else Some p.
Definition SetOutputBuffer (alloc alloc' : nat -> option Z) (size : Z) (p : pools) : option pools :=
  f ← new_fsb alloc size;
  if npu p then
    g ← new_fsb alloc' size;
    Some (set_pool EncodedOutput (Some g) (set_pool Output (Some f) p))
  else Some (set_pool Output (Some f) p).
Definition ClearEncodedInputBuffer (p : pools) : pools :=
  if npu p then set_pool EncodedInput None p else p.
Definition ClearOutputBuffer (p : pools) : pools :=
  set_pool Output None (if npu p then set_pool EncodedOutput None p else p).

(** [GetEncodedInputBuffer], [GetOutputBuffer], [GetEncodedOutputBuffer] *)
Definition used_by_cpu (k : slot) : bool := match k with Output => true | _ => false end.
Definition GetBuffer (k : slot) (p : pools) : got :=
  if negb (npu p) && negb (used_by_cpu k) then Null
  else match pool k p with None => Null | Some f => getBuffer f end.
(** The same names with [Release]. *)
Definition ReleaseBuffer (k : slot) (ptr : Z) (p : pools) : option pools :=
  if negb (npu p) && negb (used_by_cpu k) then Some p
  else match pool k p with
       | None => Some p
       | Some f => f ← releaseBuffer ptr f; Some (set_pool k (Some f) p)
       end.

(** ** Threads *)

(** [AcquireAllBuffers] *)
Definition acquire_order (npu : bool) : list slot :=
  if npu then [EncodedInput; Output; EncodedOutput] else [Output].
(** [ReleaseAllBuffers] *)
Definition release_order : list slot := [EncodedOutput; Output; EncodedInput].

(** What a thread does: the calls left and the buffers it has. *)
Inductive pc :=
| Idle
| Acquiring (todo : list slot) (b : BufferSet)
| Holding (b : BufferSet)
| Releasing (todo : list slot) (b : BufferSet).

Record state := mkState { task : pools; threads : list pc; aborted : bool }.

Definition with_thread (t : nat) (c : pc) (s : state) : state :=
  mkState (task s) (<[t := c]> (threads s)) (aborted s).
Definition with_pool (k : slot) (f : fsb) (s : state) : state :=
  mkState (set_pool k (Some f) (task s)) (threads s) (aborted s).

Definition acquired (todo : list slot) (b : BufferSet) : pc :=
  match todo with [] => Holding b | _ => Acquiring todo b end.
Definition released (todo : list slot) (b : BufferSet) : pc :=
  match todo with [] => Idle | _ => Releasing todo b end.

Inductive action :=
| AStart (t : nat)       (** call of [AcquireAllBuffers] *)
| AGet (t : nat)         (** the next get returns *)
| ATimeout (t : nat)     (** it throws after its time limit *)
| ARelease (t : nat)     (** call of [ReleaseAllBuffers] *)
| APut (t : nat).        (** the next buffer is released *)

Definition Start (t : nat) (s : state) : option state :=
  match threads s !! t with
  | Some Idle => Some (with_thread t (acquired (acquire_order (npu (task s))) no_buffers) s)
  | _ => None
  end.
Definition Get (t : nat) (s : state) : option state :=
  match threads s !! t with
  | Some (Acquiring (k :: todo) b) =>
      match GetBuffer k (task s) with
      | Null => Some (with_thread t (acquired todo (set k 0 b)) s)
      | Waits => None
      | Got p f => Some (with_pool k f (with_thread t (acquired todo (set k p b)) s))
      end
  | _ => None
  end.
Definition Timeout (t : nat) (s : state) : option state :=
  match threads s !! t with
  | Some (Acquiring (k :: todo) b) =>
      match GetBuffer k (task s) with
      | Waits => Some (with_thread t (Releasing release_order b) s)
      | _ => None
      end
  | _ => None
  end.
Definition Release (t : nat) (s : state) : option state :=
  match threads s !! t with
  | Some (Holding b) => Some (with_thread t (Releasing release_order b) s)
  | _ => None
  end.
(** The buffer leaves the set: it is no longer the thread's. *)
Definition Put (t : nat) (s : state) : option state :=
  match threads s !! t with
  | Some (Releasing (k :: todo) b) =>
      if get k b =? 0 then Some (with_thread t (released todo b) s)
      else match ReleaseBuffer k (get k b) (task s) with
           | None => Some (mkState (task s) (threads s) true)
           | Some p => Some (mkState p (<[t := released todo (set k 0 b)]> (threads s)) (aborted s))
           end
  | _ => None
  end.

Definition act (a : action) (s : state) : option state :=
  if aborted s then None
  else match a with
       | AStart t => Start t s
       | AGet t => Get t s
       | ATimeout t => Timeout t s
       | ARelease t => Release t s
       | APut t => Put t s
       end.
Fixpoint acts (l : list action) (s : state) : option state :=
  match l with [] => Some s | a :: l => s' ← act a s; acts l s' end.

(** [n] threads and the pools the constructor of [Task] makes: [count] buffers in each. *)
Definition init (is_npu : bool) (alloc : slot -> nat -> option Z) (count : Z) (n : nat) : option state :=
  p ← SetEncodedInputBuffer (alloc EncodedInput) count (mkPools is_npu None None None);
  p ← SetOutputBuffer (alloc Output) (alloc EncodedOutput) count p;
  Some (mkState p (replicate n Idle) false).

End BufferPool.

(** * Host buffers of a task: ownership, and who waits

    Every buffer is free or held by one thread in every interleaving, and a thread waits
    for its first buffer only. *)


Module BufferPoolThms.
Import BufferPool.

(** ** What the threads hold *)

Definition set_of (c : pc) : BufferSet :=
  match c with Idle => no_buffers | Acquiring _ b | Holding b | Releasing _ b => b end.
Definition own (k : slot) (c : pc) : list Z :=
  if get k (set_of c) =? 0 then [] else [get k (set_of c)].
Definition held (k : slot) (l : list pc) : list Z := l ≫= own k.

Lemma held_delete k l t c : l !! t = Some c -> held k l ≡ₚ own k c ++ held k (delete t l).
Proof.
  intros E. unfold held. trans ((c :: delete t l) ≫= own k); [|done].
  apply bind_Permutation. by apply delete_Permutation.
Qed.

Lemma held_insert k l t c c' :
  l !! t = Some c -> held k (<[t := c']> l) ≡ₚ own k c' ++ held k (delete t l).
Proof.
  intros E. assert (<[t := c']> l !! t = Some c') as E' by (apply list_lookup_insert_eq; by eapply lookup_lt_Some).
  rewrite (held_delete k _ t c' E').
  replace (delete t (<[t := c']> l)) with (delete t l); [done|].
  clear E'. revert t E. induction l as [|x l IH]; intros [|t]; simpl; try done. intros E. by rewrite <- IH.
Qed.

Lemma held_same k l t c c' :
  l !! t = Some c -> get k (set_of c') = get k (set_of c) -> held k (<[t := c']> l) ≡ₚ held k l.
Proof. intros E Hg. rewrite (held_insert k l t c c' E), (held_delete k l t c E). unfold own. by rewrite Hg. Qed.

Lemma length_held_le k k' l :
  Forall (fun c => get k (set_of c) <> 0 -> get k' (set_of c) <> 0) l ->
  (length (held k l) <= length (held k' l))%nat.
Proof.
  unfold held. induction 1 as [|c l Hc _ IH]; simpl; [lia|]. rewrite !length_app.
  assert (length (own k c) <= length (own k' c))%nat; [|unfold mbind in IH; lia].
  unfold own. destruct (Z.eqb_spec (get k (set_of c)) 0), (Z.eqb_spec (get k' (set_of c)) 0); simpl; tauto || lia.
Qed.

Lemma elem_of_held k l p : p ∈ held k l -> exists t c, l !! t = Some c /\ get k (set_of c) = p /\ p <> 0.
Proof.
  unfold held, own. intros (c & Hp & Hc)%list_elem_of_bind. apply list_elem_of_lookup in Hc as [t Ht].
  exists t, c. destruct (Z.eqb_spec (get k (set_of c)) 0); [set_solver|].
  apply list_elem_of_singleton in Hp as ->. done.
Qed.

(** ** The invariant *)

Definition chain (n : bool) (b : BufferSet) : Prop :=
  (encoded_output b <> 0 -> output b <> 0) /\ (n = true -> output b <> 0 -> encoded_input b <> 0) /\
  (n = false -> encoded_input b = 0 /\ encoded_output b = 0).

Definition point_ok (n : bool) (c : pc) : Prop :=
  match c with
  | Acquiring [EncodedInput; Output; EncodedOutput] b => n = true /\ b = no_buffers
  | Acquiring [Output; EncodedOutput] b =>
      n = true /\ encoded_input b <> 0 /\ output b = 0 /\ encoded_output b = 0
  | Acquiring [EncodedOutput] b =>
      n = true /\ encoded_input b <> 0 /\ output b <> 0 /\ encoded_output b = 0
  | Acquiring [Output] b => n = false /\ b = no_buffers
  | Acquiring _ _ => False
  | Releasing [EncodedOutput; Output; EncodedInput] _ => True
  | Releasing [Output; EncodedInput] b => encoded_output b = 0
  | Releasing [EncodedInput] b => encoded_output b = 0 /\ output b = 0
  | Releasing _ _ => False
  | _ => True
  end.

Definition in_use (n : bool) (k : slot) : bool := n || used_by_cpu k.

Record pool_ok (n : nat) (f : fsb) (h : list Z) : Prop := {
  po_count : count_ f = Z.of_nat n;
  po_length : length (data_ f) = n;
  po_nodup : NoDup (data_ f);
  po_null : 0 ∉ data_ f;
  po_perm : data_ f ≡ₚ pointers f ++ h
}.

Record inv (n : nat) (s : state) : Prop := {
  in_alive : aborted s = false;
  in_pools k : in_use (npu (task s)) k = true ->
    exists f, pool k (task s) = Some f /\ pool_ok n f (held k (threads s));
  in_chain : Forall (fun c => chain (npu (task s)) (set_of c)) (threads s);
  in_point : Forall (point_ok (npu (task s))) (threads s)
}.

Lemma pool_ok_perm n f h h' : h ≡ₚ h' -> pool_ok n f h -> pool_ok n f h'.
Proof. intros Hp [? ? ? ? Hq]. constructor; try done. by rewrite <- Hp. Qed.

(** A thread moves and its buffers stay. *)
Lemma held_move n t c c' s :
  inv n s -> threads s !! t = Some c -> set_of c' = set_of c -> point_ok (npu (task s)) c' ->
  inv n (with_thread t c' s).
Proof.
  intros [Ha Hp Hc Hq] E Hs Hpt. constructor; simpl; [done| | |].
  - intros k Hk. destruct (Hp k Hk) as (f & Ef & O). exists f. split; [done|].
    eapply pool_ok_perm; [|exact O]. symmetry. eapply held_same; [done|]. by rewrite Hs.
  - apply Forall_insert; [done|]. rewrite Hs. exact (Forall_lookup_1 _ _ _ _ Hc E).
  - by apply Forall_insert.
Qed.

Lemma pool_set k k' f p : pool k (set_pool k' f p) = if decide (k = k') then f else pool k p.
Proof. by destruct k, k'. Qed.
Lemma npu_set k f p : npu (set_pool k f p) = npu p.
Proof. by destruct k. Qed.
Lemma get_set k k' p b : get k (set k' p b) = if decide (k = k') then p else get k b.
Proof. by destruct k, k'. Qed.

(** The buffer of slot [k] of a thread changes together with its pool. *)
Lemma inv_exchange n t c c' k f s :
  inv n s -> threads s !! t = Some c -> in_use (npu (task s)) k = true ->
  (forall k', k' <> k -> get k' (set_of c') = get k' (set_of c)) ->
  (forall h, held k (threads s) ≡ₚ own k c ++ h -> pool_ok n f (own k c' ++ h)) ->
  chain (npu (task s)) (set_of c') -> point_ok (npu (task s)) c' ->
  inv n (mkState (set_pool k (Some f) (task s)) (<[t := c']> (threads s)) (aborted s)).
Proof.
  intros [Ha Hp Hc Hq] E Hk Ho Hf Hch Hpt. constructor; simpl; rewrite ?npu_set; [done| | |].
  - intros k' Hk'. rewrite pool_set. destruct (decide (k' = k)) as [->|Hne].
    + exists f. split; [done|]. eapply pool_ok_perm; [symmetry; by apply (held_insert k _ t c)|].
      apply Hf, held_delete, E.
    + destruct (Hp k' Hk') as (g & Eg & O). exists g. split; [done|].
      eapply pool_ok_perm; [|exact O]. symmetry. eapply held_same; [done|]. by apply Ho.
  - by apply Forall_insert.
  - by apply Forall_insert.
Qed.

(** ** The operations *)

Lemma getBuffer_cases n f h :
  pool_ok n f h -> (0 < n)%nat ->
  (getBuffer f = Waits /\ pointers f = []) \/
  exists p g, getBuffer f = Got p g /\ p <> 0 /\ pool_ok n g (p :: h).
Proof.
  intros [Hc Hl Hn H0 Hp] Hpos. unfold getBuffer.
  rewrite bool_decide_eq_false_2 by (intros Hd; rewrite Hd in Hl; simpl in Hl; lia).
  destruct (Z.leb_spec (count_ f) 0); [lia|]. simpl.
  destruct (pointers f) as [|p l] eqn:Ep; [by left|right].
  exists p, (mkFsb (data_ f) l (count_ f)). split; [done|]. split.
  - intros ->. apply H0. rewrite Hp. set_solver.
  - constructor; simpl; try done. rewrite Hp. simpl. by rewrite Permutation_middle.
Qed.

Lemma releaseBuffer_held n f p h :
  pool_ok n f (p :: h) -> exists g, releaseBuffer p f = Some g /\ pool_ok n g h /\ pointers g = p :: pointers f.
Proof.
  intros [Hc Hl Hn H0 Hp]. unfold releaseBuffer.
  assert (p ∈ data_ f) as Hin by (rewrite Hp; set_solver).
  destruct (Z.eqb_spec p 0) as [->|]; [done|]. rewrite bool_decide_eq_false_2 by tauto.
  assert (p ∉ pointers f) as Hf.
  { rewrite Hp in Hn. apply NoDup_app in Hn as (_ & Hn & _). intros Hx. apply (Hn p Hx). left. }
  rewrite bool_decide_eq_false_2 by done. eexists. split; [done|]. split; [|done].
  constructor; simpl; try done. rewrite Hp. by rewrite <- Permutation_middle.
Qed.

Lemma own_nil k c : get k (set_of c) = 0 -> own k c = [].
Proof. unfold own. by intros ->. Qed.
Lemma own_one k c : get k (set_of c) <> 0 -> own k c = [get k (set_of c)].
Proof. unfold own. by intros ?%Z.eqb_neq%(f_equal negb); destruct (_ =? _). Qed.

(** The next get of a thread, on a pool with buffers. *)
Lemma Get_inv n t k todo b s s' :
  inv n s -> (0 < n)%nat -> threads s !! t = Some (Acquiring (k :: todo) b) ->
  in_use (npu (task s)) k = true -> get k b = 0 ->
  (forall p, p <> 0 -> chain (npu (task s)) (set k p b) /\
                       point_ok (npu (task s)) (acquired todo (set k p b))) ->
  Get t s = Some s' -> inv n s'.
Proof.
  intros I Hn E Hk Hg Hc. unfold Get. rewrite E. unfold GetBuffer.
  destruct (in_pools n s I k Hk) as (f & Ef & O). rewrite Ef.
  replace (negb (npu (task s)) && negb (used_by_cpu k)) with false
    by (unfold in_use in Hk; by destruct (npu (task s)), (used_by_cpu k)).
  destruct (getBuffer_cases n f _ O Hn) as [[-> _]|(p & g & -> & Hp & Og)]; [done|].
  intros Hq. injection Hq as <-. destruct (Hc p Hp) as [Hch Hpt].
  assert (set_of (acquired todo (set k p b)) = set k p b) as Es by by destruct todo.
  unfold with_pool, with_thread. simpl.
  eapply inv_exchange; [exact I|exact E|done| | |by rewrite Es|done].
  - intros k' Hne. rewrite Es, get_set. by rewrite decide_False.
  - intros h Hh. rewrite own_nil in Hh by done. simpl in Hh.
    rewrite own_one; rewrite Es, get_set, decide_True by done; [|done]. simpl.
    eapply pool_ok_perm; [|exact Og]. by rewrite Hh.
Qed.

Lemma Put_inv n t k todo b s s' :
  inv n s -> threads s !! t = Some (Releasing (k :: todo) b) -> chain (npu (task s)) (set k 0 b) ->
  point_ok (npu (task s)) (released todo (set k 0 b)) -> (todo = [] -> set k 0 b = no_buffers) ->
  Put t s = Some s' -> inv n s'.
Proof.
  intros I E Hc Hp Hlast. unfold Put. rewrite E.
  assert (set_of (released todo (set k 0 b)) = set k 0 b) as Es.
  { destruct todo; [symmetry; by apply Hlast|done]. }
  destruct (Z.eqb_spec (get k b) 0) as [Hz|Hz].
  - assert (set k 0 b = b) as Eb by (destruct b, k; simpl in *; congruence). rewrite Eb in *.
    intros Hq. injection Hq as <-. eapply held_move; [exact I|exact E|exact Es|exact Hp].
  - pose proof (Forall_lookup_1 _ _ _ _ (in_chain n s I) E) as (_ & _ & Hcpu). simpl in Hcpu.
    assert (in_use (npu (task s)) k = true) as Hk.
    { unfold in_use. destruct (npu (task s)), k; try done; destruct Hcpu; done. }
    destruct (in_pools n s I k Hk) as (f & Ef & O).
    pose proof (held_delete k _ t _ E) as Hh. rewrite own_one in Hh by done. simpl in Hh.
    destruct (releaseBuffer_held n f (get k b) (held k (delete t (threads s)))) as (g & Eg & Og & _);
      [by eapply pool_ok_perm|].
    unfold ReleaseBuffer.
    replace (negb (npu (task s)) && negb (used_by_cpu k)) with false
      by (unfold in_use in Hk; by destruct (npu (task s)), (used_by_cpu k)).
    rewrite Ef, Eg. simpl. intros Hq. injection Hq as <-.
    eapply inv_exchange; [exact I|exact E|done| | |by rewrite Es|done].
    + intros k' Hne. rewrite Es, get_set. by rewrite decide_False.
    + intros h Hh'. rewrite own_nil by (by rewrite Es, get_set, decide_True). simpl.
      rewrite own_one in Hh' by done. simpl in Hh'. rewrite Hh in Hh'. apply Permutation_cons_inv in Hh'.
      by eapply pool_ok_perm.
Qed.

(** ** Runs *)

Lemma get_spec n s t s' :
  inv n s -> (0 < n)%nat -> Get t s = Some s' -> inv n s'.
Proof.
  intros I Hn E. pose proof E as E'. unfold Get in E'. destruct (threads s !! t) as [[|todo b| |]|] eqn:Et; try done.
  destruct todo as [|k todo]; [done|]. clear E'.
  pose proof (Forall_lookup_1 _ _ _ _ (in_point n s I) Et) as Hp.
  pose proof (Forall_lookup_1 _ _ _ _ (in_chain n s I) Et) as (Hc1 & Hc2 & Hc3).
  assert (in_use (npu (task s)) k = true /\ get k b = 0 /\
    forall p, p <> 0 -> chain (npu (task s)) (set k p b) /\ point_ok (npu (task s)) (acquired todo (set k p b)))
    as (Hk & Hg & Hnext).
  { unfold in_use, chain. destruct k as [| |], todo as [|[| |] [|[| |] [|]]]; simpl in *; try done;
      try (destruct Hp as [Hb ->]; rewrite Hb; simpl; repeat split; done);
      destruct Hp as (Hb & ? & ? & ?); rewrite Hb; simpl; repeat split; congruence. }
  by eapply Get_inv.
Qed.

Lemma put_spec n s t s' : inv n s -> Put t s = Some s' -> inv n s'.
Proof.
  intros I E. pose proof E as E'. unfold Put in E'. destruct (threads s !! t) as [[| | |todo b]|] eqn:Et; try done.
  destruct todo as [|k todo]; [done|]. clear E'.
  pose proof (Forall_lookup_1 _ _ _ _ (in_point n s I) Et) as Hp.
  pose proof (Forall_lookup_1 _ _ _ _ (in_chain n s I) Et) as (Hc1 & Hc2 & Hc3).
  assert (chain (npu (task s)) (set k 0 b) /\ point_ok (npu (task s)) (released todo (set k 0 b)) /\
          (todo = [] -> set k 0 b = no_buffers)) as (Hch & Hpt & Hl).
  { unfold chain, no_buffers. destruct b, k as [| |], todo as [|[| |] [|[| |] [|]]]; simpl in *; try done;
      intuition congruence. }
  by eapply Put_inv.
Qed.

Lemma pool_act_inv n a s s' : inv n s -> (0 < n)%nat -> act a s = Some s' -> inv n s'.
Proof.
  intros I Hn. unfold act. rewrite (in_alive n s I). destruct a as [t|t|t|t|t].
  - unfold Start. destruct (threads s !! t) as [[| | |]|] eqn:E; try done. intros Hq. injection Hq as <-.
    eapply held_move; [exact I|exact E|by destruct (npu (task s))|by destruct (npu (task s))].
  - by apply get_spec.
  - unfold Timeout. destruct (threads s !! t) as [[|[|k todo] b| |]|] eqn:E; try done.
    destruct (GetBuffer k (task s)); try done. intros Hq. injection Hq as <-. by eapply held_move.
  - unfold Release. destruct (threads s !! t) as [[| | |]|] eqn:E; try done. intros Hq. injection Hq as <-.
    by eapply held_move.
  - by apply put_spec.
Qed.

Lemma pool_acts_inv n l s s' : inv n s -> (0 < n)%nat -> acts l s = Some s' -> inv n s'.
Proof.
  revert s. induction l as [|a l IH]; intros s I Hn; simpl; [by intros [= <-]|].
  intros (s1 & E & E')%bind_Some. eapply IH; [|done|exact E']. by eapply pool_act_inv.
Qed.

(** What the code relies on of the system's allocator: distinct addresses, not null. *)
Definition allocator_ok (n : nat) (alloc : nat -> option Z) : Prop :=
  forall i p, (i < n)%nat -> alloc i = Some p -> p <> 0 /\ forall j, (j < n)%nat -> alloc j = Some p -> j = i.

Lemma new_fsb_ok alloc n f :
  allocator_ok n alloc -> new_fsb alloc (Z.of_nat n) = Some f -> pool_ok n f [].
Proof.
  intros Ha (l & El & Hq)%bind_Some. injection Hq as <-. rewrite Nat2Z.id in El.
  pose proof (length_mapM _ _ _ El) as Hl. rewrite length_seq in Hl.
  assert (forall i p, l !! i = Some p -> (i < n)%nat /\ alloc i = Some p) as Hel.
  { intros i p Hp. apply mapM_Some in El. pose proof (lookup_lt_Some _ _ _ Hp) as Hlt.
    rewrite Forall2_lookup in El. specialize (El i). rewrite Hp, lookup_seq_lt in El by lia.
    inversion El; subst. split; [lia|done]. }
  constructor; simpl; [done|done| | |].
  - apply NoDup_alt. intros i j p Hi Hj. apply Hel in Hi as [Hi Ei]. apply Hel in Hj as [Hj Ej].
    symmetry. by apply (proj2 (Ha i p Hi Ei) j).
  - intros [i Hi]%list_elem_of_lookup. apply Hel in Hi as [Hi Ei]. by apply (Ha i 0 Hi Ei).
  - rewrite (right_id_L [] (++)). symmetry. apply reverse_Permutation.
Qed.

Lemma held_idle k n : held k (replicate n Idle) = [].
Proof.
  destruct (held k (replicate n Idle)) as [|p l] eqn:E; [done|].
  destruct (elem_of_held k (replicate n Idle) p) as (t & c & Hc & Hg & Hp); [rewrite E; left|].
  apply lookup_replicate in Hc as [-> _]. by destruct k.
Qed.

Lemma pool_init_inv is_npu alloc n m s :
  (forall k, allocator_ok n (alloc k)) -> init is_npu alloc (Z.of_nat n) m = Some s -> inv n s.
Proof.
  intros Ha. unfold init, SetEncodedInputBuffer, SetOutputBuffer. simpl. intros E.
  assert (Forall (fun c => chain is_npu (set_of c)) (replicate m Idle) /\ Forall (point_ok is_npu) (replicate m Idle))
    as [Hch Hpt].
  { split; apply Forall_replicate; [|done]. unfold chain. simpl. tauto. }
  destruct is_npu; simpl in E.
  - apply bind_Some in E as (p & (f & Ef & Hq)%bind_Some & E). injection Hq as <-. simpl in E.
    apply bind_Some in E as (q & (g & Eg & (h & Eh & Hq)%bind_Some)%bind_Some & E). injection Hq as <-.
    injection E as <-. constructor; simpl; [done| |done|done].
    intros k _. rewrite held_idle. destruct k; eexists; (split; [reflexivity|]); by eapply new_fsb_ok.
  - apply bind_Some in E as (q & (g & Eg & Hq)%bind_Some & E). injection Hq as <-. injection E as <-.
    constructor; simpl; [done| |done|done].
    intros [| |]; try done. intros _. rewrite held_idle. eexists. split; [done|]. by eapply new_fsb_ok.
Qed.

Lemma pool_run_inv is_npu alloc n m l s0 s :
  (0 < n)%nat -> (forall k, allocator_ok n (alloc k)) ->
  init is_npu alloc (Z.of_nat n) m = Some s0 -> acts l s0 = Some s -> inv n s.
Proof. intros Hn Ha E0 E. eapply pool_acts_inv; [by eapply pool_init_inv|done|exact E]. Qed.

(** ** Waiting *)

Lemma waits_empty n f h : pool_ok n f h -> (0 < n)%nat -> getBuffer f = Waits -> length h = n.
Proof.
  intros O Hn E. destruct (getBuffer_cases n f h O Hn) as [[_ Ep]|(p & g & E' & _)]; [|congruence].
  pose proof (Permutation_length (po_perm n f h O)) as Hl. rewrite Ep, (po_length n f h O) in Hl. by simpl in Hl.
Qed.

Lemma held_bounded n s k : inv n s -> in_use (npu (task s)) k = true -> (length (held k (threads s)) <= n)%nat.
Proof.
  intros I Hk. destruct (in_pools n s I k Hk) as (f & _ & O).
  pose proof (Permutation_length (po_perm n f _ O)) as Hl. rewrite (po_length n f _ O), length_app in Hl. lia.
Qed.

(** A thread with the buffer before [k] in the order finds one in the pool of [k]. *)
Lemma later_get n s t k k' c f :
  inv n s -> (0 < n)%nat -> threads s !! t = Some c -> in_use (npu (task s)) k' = true ->
  get k (set_of c) = 0 -> get k' (set_of c) <> 0 ->
  Forall (fun c => get k (set_of c) <> 0 -> get k' (set_of c) <> 0) (threads s) ->
  pool_ok n f (held k (threads s)) -> getBuffer f <> Waits.
Proof.
  intros I Hn Et Hk' Hz Hnz Hall O Ew. pose proof (waits_empty n f _ O Hn Ew) as Hl.
  pose proof (held_bounded n s k' I Hk') as Hb.
  rewrite (held_delete k _ t c Et), (own_nil k c Hz) in Hl.
  rewrite (held_delete k' _ t c Et), (own_one k' c Hnz) in Hb. simpl in Hl, Hb.
  pose proof (length_held_le k k' (delete t (threads s))) as Hle.
  assert (Forall (fun c => get k (set_of c) <> 0 -> get k' (set_of c) <> 0) (delete t (threads s))) as Hd.
  { apply Forall_forall. intros x Hx. rewrite Forall_forall in Hall. apply Hall.
    rewrite (delete_Permutation _ t c Et). by right. }
  specialize (Hle Hd). lia.
Qed.

(** What a waiting thread has. *)
Lemma waits_first n s t k todo b :
  inv n s -> (0 < n)%nat -> threads s !! t = Some (Acquiring (k :: todo) b) ->
  GetBuffer k (task s) = Waits -> b = no_buffers /\ length (held k (threads s)) = n.
Proof.
  intros I Hn Et Ew. pose proof (Forall_lookup_1 _ _ _ _ (in_point n s I) Et) as Hp.
  unfold GetBuffer in Ew. destruct (negb (npu (task s)) && negb (used_by_cpu k)) eqn:Ek; [done|].
  assert (in_use (npu (task s)) k = true) as Hk by (unfold in_use; by destruct (npu (task s)), (used_by_cpu k)).
  destruct (in_pools n s I k Hk) as (f & Ef & O). rewrite Ef in Ew.
  split; [|by eapply waits_empty].
  assert (forall k k', k = Output /\ k' = EncodedInput \/ k = EncodedOutput /\ k' = Output -> npu (task s) = true ->
    Forall (fun c => get k (set_of c) <> 0 -> get k' (set_of c) <> 0) (threads s)) as Hchain.
  { intros x x' Hx Hnpu. eapply Forall_impl; [exact (in_chain n s I)|]. intros c (C1 & C2 & _).
    destruct Hx as [[-> ->]|[-> ->]]; simpl; [by apply C2|done]. }
  destruct k as [| |], todo as [|[| |] [|[| |] [|]]]; simpl in Hp; try done;
    try (by destruct Hp); exfalso; destruct Hp as (Hnpu & H1 & H2 & H3).
  - apply (later_get n s t Output EncodedInput _ f I Hn Et);
      [by rewrite Hnpu|exact H2|exact H1|apply Hchain; tauto|exact O|exact Ew].
  - apply (later_get n s t EncodedOutput Output _ f I Hn Et);
      [by rewrite Hnpu|exact H3|exact H2|apply Hchain; tauto|exact O|exact Ew].
Qed.

(** A thread that holds a buffer can go on. *)
Lemma holder_goes_on n s t c k :
  inv n s -> (0 < n)%nat -> threads s !! t = Some c -> get k (set_of c) <> 0 ->
  exists a, a ∈ [AGet t; ARelease t; APut t] /\ is_Some (act a s).
Proof.
  intros I Hn Et Hk. unfold act. setoid_rewrite (in_alive n s I).
  pose proof (Forall_lookup_1 _ _ _ _ (in_point n s I) Et) as Hp.
  destruct c as [|[|k' todo] b|b|[|k' todo] b]; [by destruct k|done| | |done|].
  - exists (AGet t). split; [set_solver|]. unfold Get. rewrite Et.
    destruct (GetBuffer k' (task s)) eqn:Eg; [by eexists| |by eexists].
    destruct (waits_first n s t k' todo b I Hn Et Eg) as [-> _]. by destruct k.
  - exists (ARelease t). split; [set_solver|]. unfold Release. rewrite Et. by eexists.
  - exists (APut t). split; [set_solver|]. unfold Put. rewrite Et. destruct (_ =? _); [by eexists|].
    destruct (ReleaseBuffer _ _ _); by eexists.
Qed.

(** ** Properties *)

(** In every interleaving of threads that acquire and release the buffers of a task,
    with time limits that expire or not, each buffer of each pool is either free or held
    by exactly one thread, and no release fails its assertion. *)
Theorem buffers_owned (is_npu : bool) (alloc : slot -> nat -> option Z) (n m : nat) (l : list action) (s0 s : state) :
  (0 < n)%nat -> (forall k, allocator_ok n (alloc k)) ->
  init is_npu alloc (Z.of_nat n) m = Some s0 -> acts l s0 = Some s ->
  aborted s = false /\
  forall k, in_use (npu (task s)) k = true ->
    exists f, pool k (task s) = Some f /\ NoDup (pointers f ++ held k (threads s)) /\
      data_ f ≡ₚ pointers f ++ held k (threads s) /\ length (data_ f) = n.
Proof.
  intros Hn Ha E0 E. pose proof (pool_run_inv is_npu alloc n m l s0 s Hn Ha E0 E) as I.
  split; [apply (in_alive n s I)|]. intros k Hk. destruct (in_pools n s I k Hk) as (f & Ef & [Hc Hl Hnd H0 Hp]).
  exists f. rewrite <- Hp at 1. done.
Qed.

(** A thread that waits for a buffer has none: once it has the first of its three
    buffers it is given the others without waiting.  While it waits, all buffers of the
    pool are held by threads of which each can take its next step, so threads of one task
    never deadlock. *)
Theorem waits_for_first_buffer_only (is_npu : bool) (alloc : slot -> nat -> option Z) (n m : nat) (l : list action)
    (s0 s : state) (t : nat) (k : slot) (todo : list slot) (b : BufferSet) :
  (0 < n)%nat -> (forall k, allocator_ok n (alloc k)) ->
  init is_npu alloc (Z.of_nat n) m = Some s0 -> acts l s0 = Some s ->
  threads s !! t = Some (Acquiring (k :: todo) b) -> GetBuffer k (task s) = Waits ->
  b = no_buffers /\ k :: todo = acquire_order (npu (task s)) /\ length (held k (threads s)) = n /\
  forall p, p ∈ held k (threads s) -> exists t' c a,
    threads s !! t' = Some c /\ get k (set_of c) = p /\ t' <> t /\
    a ∈ [AGet t'; ARelease t'; APut t'] /\ is_Some (act a s).
Proof.
  intros Hn Ha E0 E Et Ew. pose proof (pool_run_inv is_npu alloc n m l s0 s Hn Ha E0 E) as I.
  destruct (waits_first n s t k todo b I Hn Et Ew) as [-> Hl].
  split; [done|]. split; [|split; [done|]].
  - pose proof (Forall_lookup_1 _ _ _ _ (in_point n s I) Et) as Hp.
    destruct k as [| |], todo as [|[| |] [|[| |] [|]]]; simpl in Hp; try done;
      unfold acquire_order; destruct Hp as [Hp Hp']; first [by rewrite Hp|by destruct Hp' as [Hz _]; destruct Hz].
  - intros p (t' & c & Et' & Hg & Hp)%elem_of_held.
    destruct (holder_goes_on n s t' c k I Hn Et') as (a & Hin & Hs); [congruence|].
    exists t', c, a. do 2 (split; [done|]). split; [|done]. intros ->. rewrite Et' in Et. injection Et as ->.
    simpl in Hg. by destruct k.
Qed.

(** ** Witnesses: one buffer per pool, two threads *)

Definition demo_alloc (k : slot) (i : nat) : option Z :=
  Some (match k with EncodedInput => 4096 | Output => 8192 | EncodedOutput => 12288 end + 65536 * Z.of_nat i).
Lemma demo_alloc_ok n k : allocator_ok n (demo_alloc k).
Proof.
  intros i p Hi. unfold demo_alloc. intros Hq. injection Hq as <-. split; [destruct k; lia|].
  intros j _ Hj. injection Hj as Hj. lia.
Qed.
Definition demo_pools : state :=
  Eval vm_compute in default (mkState (mkPools false None None None) [] true) (init true demo_alloc 1 2).
Definition demo_pool_run : list action := [AStart 0; AGet 0; AStart 1; AGet 0].
Definition demo_waiting : state :=
  Eval vm_compute in default demo_pools (acts demo_pool_run demo_pools).

Lemma buffers_owned_witness :
  aborted demo_waiting = false /\
  exists f, pool Output (task demo_waiting) = Some f /\ data_ f ≡ₚ pointers f ++ held Output (threads demo_waiting).
Proof.
  destruct (buffers_owned true demo_alloc 1 2 demo_pool_run demo_pools demo_waiting) as [Ha Hk].
  - lia.
  - intros k. apply demo_alloc_ok.
  - reflexivity.
  - reflexivity.
  - split; [exact Ha|]. destruct (Hk Output eq_refl) as (f & Ef & _ & Hp & _). exists f. split; [exact Ef|exact Hp].
Defined.

Lemma waits_for_first_buffer_only_witness : length (held EncodedInput (threads demo_waiting)) = 1%nat.
Proof.
  destruct (waits_for_first_buffer_only true demo_alloc 1 2 demo_pool_run demo_pools demo_waiting 1
    EncodedInput [Output; EncodedOutput] no_buffers) as (_ & _ & Hl & _).
  - lia.
  - intros k. apply demo_alloc_ok.
  - reflexivity.
  - reflexivity.
  - reflexivity.
  - reflexivity.
  - exact Hl.
Defined.

End BufferPoolThms.
