(* ===== verification/JobFlow.v ===== *)
(** * Jobs, device slots and host buffers

    What the jobs of one engine wait for: [RequestResponse::InferenceRequest]
    (lib/device_pool/request_response_class.cpp), [DevicePool::WaitDevice],
    [Task::AcquireAllBuffers], the workers of the format handler and of the CPU tasks, and
    [InferenceJob::onRequestComplete] and [ReleaseAllOutputBuffer].  The model of the engine
    is a chain of tasks; a job takes the buffers of each task in turn and returns all of
    them at its end.

    [DeviceTaskThms] justifies counting the load of the devices by one number,
    [DeviceTaskDrain] that a request with its buffers comes back from a device, and
    [BufferPoolThms] that taking the buffers of a task is one step that waits for the first
    pool only.  Time limits (3000 s for a device, 3600 s for a buffer) are left out. *)

From Stdlib Require Import ZArith Lia.
From S2P Require Import Prelude.

Module JobFlow.

Inductive processor := NPU | CPU.
#[export] Instance processor_eq_dec : EqDecision processor.
Proof. solve_decision. Defined.

Record env := mkEnv {
  tasks : list processor;
  fullLoad : Z;              (** capacity of the devices together *)
  bufferCount : Z;           (** buffers of each task *)
  workers : nat -> Z         (** threads: 0 those of [handleOutput], [S k] those of CPU task [k] *)
}.

(** Where a job is; the number is the task. *)
Inductive place :=
| NotStarted
| PickDevice (k : nat)       (** in [WaitDevice] *)
| WaitBuffers (k : nat)      (** in [AcquireAllBuffers] *)
| Queued (k : nat)           (** with the device, or in the queue of the CPU task *)
| Completed (k : nat)        (** back from the device, queued for [handleOutput] *)
| Ended.
#[export] Instance place_eq_dec : EqDecision place.
Proof. solve_decision. Defined.

Record state := mkState {
  places : list place;
  load_ : Z;
  free_ : list Z             (** per task *)
}.

Section Flow.
Context (e : env).

Definition kind (k : nat) : option processor := tasks e !! k.

(** The start of the request of task [k]. *)
Definition enter (k : nat) : place :=
  match kind k with Some NPU => PickDevice k | _ => WaitBuffers k end.

(** The threads that complete task [k]. *)
Definition worker_group (k : nat) : nat := match kind k with Some NPU => 0%nat | _ => S k end.

(** A thread that completed task [k] and is in the request of the next one. *)
Definition occupies (g : nat) (p : place) : bool :=
  match p with
  | PickDevice (S k) | WaitBuffers (S k) => bool_decide (worker_group k = g)
  | _ => false
  end.
Definition busy (g : nat) (s : state) : Z :=
  Z.of_nat (length (filter (fun p => occupies g p = true) (places s))).

Definition goto (j : nat) (p : place) (s : state) : state :=
  mkState (<[j := p]> (places s)) (load_ s) (free_ s).

Inductive action := AStart (j : nat) | APick (j : nat) | AAcquire (j : nat) | AFinish (j : nat) | AAdvance (j : nat).

(** The user's call. *)
Definition Start (j : nat) (s : state) : option state :=
  guard (places s !! j = Some NotStarted /\ is_Some (kind 0));; Some (goto j (enter 0) s).

(** [WaitDevice] *)
Definition Pick (j : nat) (s : state) : option state :=
  match places s !! j with
  | Some (PickDevice k) =>
      guard (load_ s < fullLoad e);;
      Some (mkState (<[j := WaitBuffers k]> (places s)) (load_ s + 1) (free_ s))
  | _ => None
  end.

(** [AcquireAllBuffers], and the request is handed over. *)
Definition Acquire (j : nat) (s : state) : option state :=
  match places s !! j with
  | Some (WaitBuffers k) =>
      n ← free_ s !! k;
      guard (0 < n);;
      Some (mkState (<[j := Queued k]> (places s)) (load_ s) (<[k := n - 1]> (free_ s)))
  | _ => None
  end.

(** The device is done: [CallBack], and the queue of [handleOutput]. *)
Definition Finish (j : nat) (s : state) : option state :=
  match places s !! j with
  | Some (Queued k) =>
      guard (kind k = Some NPU);;
      Some (mkState (<[j := Completed k]> (places s)) (load_ s - 1) (free_ s))
  | _ => None
  end.

(** [onRequestComplete] on a worker: the request of the next task, or the end of the job
    with [ReleaseAllOutputBuffer]. *)
Definition done_with (k : nat) (p : place) : bool :=
  match p with
  | Completed k' => bool_decide (k' = k /\ kind k = Some NPU)
  | Queued k' => bool_decide (k' = k /\ kind k = Some CPU)
  | _ => false
  end.
Definition Advance (j : nat) (s : state) : option state :=
  match places s !! j with
  | Some (Completed k as p) | Some (Queued k as p) =>
      guard (done_with k p = true /\ busy (worker_group k) s < workers e (worker_group k));;
      if bool_decide (S k < length (tasks e))%nat then Some (goto j (enter (S k)) s)
      else Some (mkState (<[j := Ended]> (places s)) (load_ s) ((fun n => n + 1) <$> free_ s))
  | _ => None
  end.

Definition act (a : action) (s : state) : option state :=
  match a with
  | AStart j => Start j s
  | APick j => Pick j s
  | AAcquire j => Acquire j s
  | AFinish j => Finish j s
  | AAdvance j => Advance j s
  end.
Fixpoint acts (l : list action) (s : state) : option state :=
  match l with [] => Some s | a :: l => s' ← act a s; acts l s' end.

Definition init (n : nat) : state :=
  mkState (replicate n NotStarted) 0 (replicate (length (tasks e)) (bufferCount e)).

End Flow.
End JobFlow.

(** * Jobs, device slots and host buffers: which models drain

    With one NPU task every job ends; with two, jobs can wait for each other for ever. *)


Module JobFlowThms.
Import JobFlow.

(** ** The invariant *)

Section Flow.
Context (e : env).

Definition has_load (p : place) : bool :=
  match p with WaitBuffers k | Queued k => bool_decide (kind e k = Some NPU) | _ => false end.
Definition has_buffers (k : nat) (p : place) : bool :=
  match p with
  | Queued k' | Completed k' => bool_decide (k <= k')%nat
  | PickDevice k' | WaitBuffers k' => bool_decide (k < k')%nat
  | _ => false
  end.

Definition place_ok (p : place) : Prop :=
  match p with
  | PickDevice k | Completed k => kind e k = Some NPU
  | WaitBuffers k | Queued k => is_Some (kind e k)
  | _ => True
  end.

Record inv (s : state) : Prop := {
  in_places : Forall place_ok (places s);
  in_load : load_ s = countb has_load (places s);
  in_length : length (free_ s) = length (tasks e);
  in_free k n : free_ s !! k = Some n -> n = bufferCount e - countb (has_buffers k) (places s)
}.

Lemma kind_lt k : is_Some (kind e k) <-> (k < length (tasks e))%nat.
Proof. apply lookup_lt_is_Some. Qed.

Lemma flow_init_inv n : inv (init e n).
Proof.
  constructor; simpl.
  - by apply Forall_replicate.
  - by rewrite countb_replicate, Z.mul_0_r.
  - apply length_replicate.
  - intros k x [-> _]%lookup_replicate. rewrite countb_replicate. simpl. lia.
Qed.

Lemma enter_ok k : is_Some (kind e k) -> place_ok (enter e k).
Proof. unfold enter. destruct (kind e k) as [[|]|] eqn:E; simpl; rewrite ?E; intros [? ?]; done || by eexists. Qed.
Lemma enter_load k : has_load (enter e k) = false.
Proof. unfold enter. destruct (kind e k) as [[|]|] eqn:E; simpl; rewrite ?E; done. Qed.
Lemma enter_buffers k k' : has_buffers k' (enter e k) = bool_decide (k' < k)%nat.
Proof. unfold enter. by destruct (kind e k) as [[|]|]. Qed.

(** A job moves; the load and the buffers follow. *)
Lemma inv_place j p q s load fr :
  inv s -> places s !! j = Some p -> place_ok q ->
  load = load_ s - Z.b2z (has_load p) + Z.b2z (has_load q) ->
  length fr = length (free_ s) ->
  (forall k x, fr !! k = Some x -> exists y, free_ s !! k = Some y /\
     x = y + Z.b2z (has_buffers k p) - Z.b2z (has_buffers k q)) ->
  inv (mkState (<[j := q]> (places s)) load fr).
Proof.
  intros [Hp Hl Hlen Hf] E Hq -> Hfr Hx. constructor; simpl.
  - by apply Forall_insert.
  - rewrite (countb_insert _ _ _ _ _ E). lia.
  - congruence.
  - intros k x Ek. destruct (Hx k x Ek) as (y & Ey & ->). rewrite (Hf k y Ey), (countb_insert _ _ _ _ _ E). lia.
Qed.

Lemma flow_act_inv a s s' : inv s -> act e a s = Some s' -> inv s'.
Proof.
  intros I. destruct a as [j|j|j|j|j]; simpl.
  - unfold Start. intros [[E Hk] Hq]%guard_Some. injection Hq as <-.
    eapply inv_place; [exact I|exact E|by apply enter_ok|rewrite enter_load; simpl; lia|done|].
    intros k x Ek. exists x. split; [done|]. rewrite enter_buffers, bool_decide_eq_false_2 by lia. simpl. lia.
  - unfold Pick. destruct (places s !! j) as [[|k| | | |]|] eqn:E; try done.
    intros [Hc Hq]%guard_Some. injection Hq as <-.
    pose proof (Forall_lookup_1 _ _ _ _ (in_places s I) E) as Hk. simpl in Hk.
    eapply inv_place; [exact I|exact E|simpl; by eexists|simpl; rewrite bool_decide_eq_true_2 by done; simpl; lia|done|].
    intros k' x Ek. exists x. split; [done|]. simpl. lia.
  - unfold Acquire. destruct (places s !! j) as [[| |k| | |]|] eqn:E; try done.
    intros (n & En & [Hn Hq]%guard_Some)%bind_Some. injection Hq as <-.
    eapply inv_place; [exact I|exact E|exact (Forall_lookup_1 _ _ _ _ (in_places s I) E)|simpl; lia|apply length_insert|].
    intros k' x Ek. simpl. destruct (decide (k = k')) as [<-|Hne].
    + rewrite list_lookup_insert_eq in Ek by (by eapply lookup_lt_Some). injection Ek as <-. exists n. split; [done|].
      rewrite bool_decide_eq_false_2, bool_decide_eq_true_2 by lia. simpl. lia.
    + rewrite list_lookup_insert_ne in Ek by done. exists x. split; [done|].
      rewrite (bool_decide_ext (k' <= k)%nat (k' < k)%nat) by lia. lia.
  - unfold Finish. destruct (places s !! j) as [[| | |k| |]|] eqn:E; try done.
    intros [Hk Hq]%guard_Some. injection Hq as <-.
    eapply inv_place; [exact I|exact E|exact Hk|simpl; rewrite bool_decide_eq_true_2 by done; simpl; lia|done|].
    intros k' x Ek. exists x. split; [done|]. simpl. lia.
  - unfold Advance. intros E'.
    assert (exists k p, places s !! j = Some p /\ done_with e k p = true /\ (p = Completed k \/ p = Queued k) /\
      (if bool_decide (S k < length (tasks e))%nat then Some (goto j (enter e (S k)) s)
       else Some (mkState (<[j := Ended]> (places s)) (load_ s) ((fun n => n + 1) <$> free_ s))) = Some s')
      as (k & p & E & Hd & Hp & Hq).
    { destruct (places s !! j) as [[| | |k|k|]|]; try done; apply guard_Some in E' as [[Hd _] Hq];
        eexists k, _; (split; [done|]); (split; [exact Hd|]); auto. }
    clear E'. assert (has_load p = false /\ forall k', has_buffers k' p = bool_decide (k' < S k)%nat) as [Hl Hb].
    { destruct Hp as [->| ->]; simpl in *; [split; [done|]|].
      - intros k'. apply bool_decide_ext. lia.
      - apply bool_decide_eq_true in Hd as [_ Hd]. rewrite Hd. split; [done|]. intros k'. apply bool_decide_ext. lia. }
    destruct (bool_decide_reflect (S k < length (tasks e))%nat) as [Hlt|Hge]; injection Hq as <-.
    + eapply inv_place; [exact I|exact E|by apply enter_ok, kind_lt|rewrite Hl, enter_load; simpl; lia|done|].
      intros k' x Ek. exists x. split; [done|]. rewrite Hb, enter_buffers. lia.
    + eapply inv_place; [exact I|exact E|done|rewrite Hl; simpl; lia|apply length_fmap|].
      intros k' x Ek. rewrite list_lookup_fmap in Ek. apply fmap_Some in Ek as (y & Ey & ->).
      exists y. split; [done|]. pose proof (lookup_lt_Some _ _ _ Ey) as Hlt. rewrite (in_length s I) in Hlt.
      rewrite Hb, bool_decide_eq_true_2 by lia. simpl. lia.
Qed.

Lemma flow_acts_inv l s s' : inv s -> acts e l s = Some s' -> inv s'.
Proof.
  revert s. induction l as [|a l IH]; intros s I; simpl; [by intros [= <-]|].
  intros (s1 & E & E')%bind_Some. eapply IH; [|exact E']. by eapply flow_act_inv.
Qed.

(** ** Progress *)

(** How far a job is. *)
Definition rank (p : place) : nat :=
  match p with
  | PickDevice k => 4 * k + 1 | WaitBuffers k => 4 * k + 2 | Queued k => 4 * k + 3 | Completed k => 4 * k + 4
  | NotStarted => 0
  | Ended => 4 * length (tasks e) + 1
  end.
Definition active (p : place) : Prop := p <> NotStarted /\ p <> Ended.
#[local] Instance active_dec p : Decision (active p).
Proof. unfold active. apply _. Defined.

Lemma furthest s j p :
  places s !! j = Some p -> active p ->
  exists j' p', places s !! j' = Some p' /\ active p' /\
    forall q, q ∈ places s -> active q -> (rank q <= rank p')%nat.
Proof.
  intros E Ha. assert (forall l : list place, Exists active l ->
    exists p', p' ∈ l /\ active p' /\ forall q, q ∈ l -> active q -> (rank q <= rank p')%nat) as Hmax.
  { induction l as [|x l IH]; intros Hex; [by inversion Hex|].
    destruct (decide (Exists active l)) as [Hl|Hl].
    - destruct (IH Hl) as (p' & Hin & Hp & Hm).
      destruct (decide (active x)) as [Hx|Hx]; [|exists p'; set_solver].
      destruct (le_lt_dec (rank x) (rank p')).
      + exists p'. split; [by right|]. split; [done|]. intros q [->|Hq]%elem_of_cons; auto.
      + exists x. split; [left|]. split; [done|]. intros q [->|Hq]%elem_of_cons Haq; [done|].
        specialize (Hm q Hq Haq). lia.
    - exists x. split; [left|]. apply Exists_cons in Hex as [Hx|Hx]; [|done]. split; [done|].
      intros q [->|Hq]%elem_of_cons Haq; [done|]. destruct Hl. apply Exists_exists. eauto. }
  destruct (Hmax (places s)) as (p' & Hin & Hp & Hm).
  { apply Exists_exists. exists p. split; [by eapply list_elem_of_lookup_2|done]. }
  apply list_elem_of_lookup in Hin as [j' Hj']. by exists j', p'.
Qed.

Definition single_npu : Prop := forall k k', kind e k = Some NPU -> kind e k' = Some NPU -> k = k'.

(** The job that is furthest can go on. *)
Lemma flow_progress s j p :
  inv s -> single_npu -> 0 < fullLoad e -> 0 < bufferCount e -> (forall g, 0 < workers e g) ->
  places s !! j = Some p -> active p ->
  exists a, (forall i, a <> AStart i) /\ is_Some (act e a s).
Proof.
  intros I H1 Hl Hb Hw E Ha. destruct (furthest s j p E Ha) as (i & q & Ei & Hq & Hmax).
  pose proof (Forall_lookup_1 _ _ _ _ (in_places s I) Ei) as Hok.
  assert (forall x, x ∈ places s -> active x -> (rank q < rank x)%nat -> False) as Hno.
  { intros x Hx Hax. specialize (Hmax x Hx Hax). lia. }
  assert (forall k, q = Completed k \/ q = Queued k /\ kind e k = Some CPU -> busy e (worker_group e k) s = 0) as Hidle.
  { intros k Hk. apply (countb_zero (occupies e (worker_group e k))). intros x Hx.
    destruct (occupies e (worker_group e k) x) eqn:Eo; [exfalso|done].
    assert (active x /\ exists k', worker_group e k' = worker_group e k /\ (4 * S k' < rank x)%nat)
      as (Hax & k' & Hg & Hr).
    { destruct x as [|[|k']|[|k']| | |]; try done; apply bool_decide_eq_true in Eo;
        (split; [by split|]); exists k'; (split; [done|]); simpl; lia. }
    assert (k' = k) as ->.
    { unfold worker_group in Hg. destruct Hk as [->|[-> Hk]]; simpl in Hok.
      - rewrite Hok in Hg. destruct (kind e k') as [[|]|] eqn:Ek'; try done. by apply H1.
      - rewrite Hk in Hg. destruct (kind e k') as [[|]|]; [done|by injection Hg..]. }
    apply (Hno x Hx Hax). destruct Hk as [->|[-> _]]; simpl in *; lia. }
  destruct q as [|k|k|k|k|]; [by destruct Hq| | | | |by destruct Hq]; simpl in Hok.
  - exists (APick i). split; [done|]. simpl. unfold Pick. rewrite Ei, (in_load s I), (countb_zero has_load).
    { rewrite option_guard_True by done. by eexists. }
    intros x Hx. destruct (has_load x) eqn:Ex; [exfalso|done].
    destruct x as [| |k'|k'| |]; try done; apply bool_decide_eq_true in Ex; rewrite (H1 _ _ Ex Hok) in Hx;
      (apply (Hno _ Hx); [by split|simpl; lia]).
  - exists (AAcquire i). split; [done|]. simpl. unfold Acquire. rewrite Ei.
    apply kind_lt in Hok. rewrite <- (in_length s I) in Hok. apply lookup_lt_is_Some in Hok as [n En].
    rewrite En. simpl. rewrite (in_free s I k n En), (countb_zero (has_buffers k)).
    { rewrite option_guard_True by lia. by eexists. }
    intros x Hx. destruct (has_buffers k x) eqn:Ex; [exfalso|done].
    destruct x as [|k'|k'|k'|k'|]; try done; apply bool_decide_eq_true in Ex;
      (apply (Hno _ Hx); [by split|simpl; lia]).
  - destruct Hok as [[|] Hk].
    + exists (AFinish i). split; [done|]. simpl. unfold Finish. rewrite Ei, option_guard_True by done. by eexists.
    + exists (AAdvance i). split; [done|]. simpl. unfold Advance. rewrite Ei, (Hidle k) by (right; by split).
      rewrite option_guard_True by (split; [simpl; by rewrite bool_decide_eq_true_2|apply Hw]).
      case_bool_decide; by eexists.
  - exists (AAdvance i). split; [done|]. simpl. unfold Advance. rewrite Ei, (Hidle k) by (by left).
    rewrite option_guard_True by (split; [simpl; by rewrite bool_decide_eq_true_2|apply Hw]).
    case_bool_decide; by eexists.
Qed.

(** ** Termination *)

Lemma rank_bound p : place_ok p -> (rank p <= 4 * length (tasks e) + 1)%nat.
Proof.
  assert (forall k, is_Some (kind e k) -> (4 * k + 4 <= 4 * length (tasks e))%nat) as Hk.
  { intros k Hk%kind_lt. lia. }
  destruct p as [|k|k|k|k|]; simpl; try lia; intros Hq; specialize (Hk k);
    (assert (is_Some (kind e k)) as Hs by (done || by eexists)); specialize (Hk Hs); lia.
Qed.

Definition total_rank (s : state) : nat := sum_list_with rank (places s).

Lemma sum_rank_insert l j p q :
  l !! j = Some p -> (sum_list_with rank (<[j := q]> l) + rank p = sum_list_with rank l + rank q)%nat.
Proof.
  revert j. induction l as [|x l IH]; intros [|j] E; simpl in *; try done.
  - injection E as ->. lia.
  - specialize (IH j E). lia.
Qed.

Lemma act_rank a s s' : inv s -> act e a s = Some s' -> (total_rank s < total_rank s')%nat.
Proof.
  intros I Hact. assert (exists j p q, places s !! j = Some p /\ places s' = <[j := q]> (places s) /\ (rank p < rank q)%nat)
    as (j & p & q & E & Es & Hr).
  { assert (forall k, 4 * k < rank (enter e k))%nat as Henter.
    { intros k. unfold enter. destruct (kind e k) as [[|]|]; simpl; lia. }
    destruct a as [j|j|j|j|j]; simpl in Hact; exists j.
    - apply guard_Some in Hact as [[E _] Hq]. injection Hq as <-.
      eexists _, _. split; [exact E|]. split; [done|]. specialize (Henter 0%nat). simpl in *. lia.
    - unfold Pick in Hact. destruct (places s !! j) as [[|k| | | |]|] eqn:E; try done.
      apply guard_Some in Hact as [_ Hq]. injection Hq as <-. eexists _, _. split; [done|]. split; [done|]. simpl. lia.
    - unfold Acquire in Hact. destruct (places s !! j) as [[| |k| | |]|] eqn:E; try done.
      apply bind_Some in Hact as (n & _ & Hact). apply guard_Some in Hact as [_ Hq]. injection Hq as <-.
      eexists _, _. split; [done|]. split; [done|]. simpl. lia.
    - unfold Finish in Hact. destruct (places s !! j) as [[| | |k| |]|] eqn:E; try done.
      apply guard_Some in Hact as [_ Hq]. injection Hq as <-. eexists _, _. split; [done|]. split; [done|]. simpl. lia.
    - unfold Advance in Hact. destruct (places s !! j) as [p|] eqn:E; [|done].
      pose proof (Forall_lookup_1 _ _ _ _ (in_places s I) E) as Hp. apply rank_bound in Hp as Hb.
      destruct p as [| | |k|k|]; try done; apply guard_Some in Hact as [_ Hact];
        (case_bool_decide; injection Hact as <-; eexists _, _; (split; [done|]); (split; [done|]);
         [specialize (Henter (S k)); simpl in *; lia|]).
      + simpl in Hp. apply kind_lt in Hp. simpl. lia.
      + simpl in Hp. assert (is_Some (kind e k)) as Hk%kind_lt by (by eexists). simpl. lia. }
  unfold total_rank. rewrite Es. pose proof (sum_rank_insert (places s) j p q E). lia.
Qed.

Lemma acts_rank l s s' : inv s -> acts e l s = Some s' -> (length l + total_rank s <= total_rank s')%nat.
Proof.
  revert s. induction l as [|a l IH]; intros s I; simpl; [intros [= <-]; lia|].
  intros (s1 & E & E')%bind_Some. pose proof (act_rank a s s1 I E).
  specialize (IH s1 ltac:(by eapply flow_act_inv) E'). lia.
Qed.

Lemma total_rank_bound s : inv s -> (total_rank s <= (4 * length (tasks e) + 1) * length (places s))%nat.
Proof.
  intros I. unfold total_rank. pose proof (in_places s I) as Hp. induction Hp as [|p l Hp _ IH]; simpl; [lia|].
  pose proof (rank_bound p Hp). nia.
Qed.

Lemma act_length a s s' : act e a s = Some s' -> length (places s') = length (places s).
Proof.
  destruct a as [j|j|j|j|j]; simpl.
  - intros [_ Hq]%guard_Some. injection Hq as <-. apply length_insert.
  - unfold Pick. destruct (places s !! j) as [[]|]; try done. intros [_ Hq]%guard_Some. injection Hq as <-. apply length_insert.
  - unfold Acquire. destruct (places s !! j) as [[]|]; try done.
    intros (n & _ & [_ Hq]%guard_Some)%bind_Some. injection Hq as <-. apply length_insert.
  - unfold Finish. destruct (places s !! j) as [[]|]; try done. intros [_ Hq]%guard_Some. injection Hq as <-. apply length_insert.
  - unfold Advance. destruct (places s !! j) as [[]|]; try done; intros [_ Hq]%guard_Some;
      case_bool_decide; injection Hq as <-; apply length_insert.
Qed.

Lemma acts_length l s s' : acts e l s = Some s' -> length (places s') = length (places s).
Proof.
  revert s. induction l as [|a l IH]; intros s; simpl; [by intros [= <-]|].
  intros (s1 & E & E')%bind_Some. rewrite (IH s1 E'). by eapply act_length.
Qed.

(** ** Jobs that wait for each other *)

(** Two NPU tasks with CPU tasks between them, the first at the head of the model. *)
Definition two_npu (k1 : nat) : Prop :=
  kind e 0 = Some NPU /\ kind e k1 = Some NPU /\ (0 < k1)%nat /\
  forall k, (0 < k < k1)%nat -> kind e k = Some CPU.

Definition stuck_place (k1 : nat) (p : place) : Prop :=
  match p with
  | NotStarted => True
  | PickDevice k => k = 0%nat \/ k = k1
  | WaitBuffers k => (k < k1)%nat
  | Queued k => (0 < k < k1)%nat
  | Completed k => k = 0%nat
  | Ended => False
  end.
Record stuck (k1 : nat) (s : state) : Prop := {
  st_places : Forall (stuck_place k1) (places s);
  st_load : fullLoad e <= load_ s;
  st_free : exists n, free_ s !! 0%nat = Some n /\ n <= 0
}.

Lemma stuck_goto k1 j p s load fr :
  stuck k1 s -> stuck_place k1 p -> fullLoad e <= load -> (exists n, fr !! 0%nat = Some n /\ n <= 0) ->
  stuck k1 (mkState (<[j := p]> (places s)) load fr).
Proof. intros [Hp _ _] Hq Hl Hf. constructor; simpl; [by apply Forall_insert|done|done]. Qed.

Lemma enter_stuck k1 k : two_npu k1 -> (k < k1)%nat -> stuck_place k1 (enter e (S k)).
Proof.
  intros (H0 & H1 & Hpos & Hmid) Hk. unfold enter. destruct (decide (S k = k1)) as [->|Hne].
  - rewrite H1. simpl. by right.
  - rewrite Hmid by lia. simpl. lia.
Qed.

Lemma act_stuck k1 a s s' : two_npu k1 -> stuck k1 s -> act e a s = Some s' -> stuck k1 s'.
Proof.
  intros T K. pose proof K as [Hp Hl Hf]. pose proof T as (H0 & H1 & Hpos & Hmid).
  destruct a as [j|j|j|j|j]; simpl.
  - intros [_ Hq]%guard_Some. injection Hq as <-. apply stuck_goto; try done. unfold enter. rewrite H0. by left.
  - unfold Pick. destruct (places s !! j) as [[]|]; try done. intros [Hc _]%guard_Some. lia.
  - unfold Acquire. destruct (places s !! j) as [[| |k| | |]|] eqn:E; try done.
    intros (n & En & [Hn Hq]%guard_Some)%bind_Some. injection Hq as <-.
    pose proof (Forall_lookup_1 _ _ _ _ Hp E) as Hk. simpl in Hk. destruct Hf as (n0 & E0 & Hn0).
    destruct (decide (k = 0%nat)) as [->|Hne]; [rewrite E0 in En; injection En as ->; lia|].
    apply stuck_goto; [done|simpl; lia|done|]. exists n0. by rewrite list_lookup_insert_ne.
  - unfold Finish. destruct (places s !! j) as [[| | |k| |]|] eqn:E; try done.
    intros [Hk _]%guard_Some. pose proof (Forall_lookup_1 _ _ _ _ Hp E) as Hq. simpl in Hq.
    rewrite Hmid in Hk by done. done.
  - unfold Advance. destruct (places s !! j) as [p|] eqn:E; [|done].
    pose proof (Forall_lookup_1 _ _ _ _ Hp E) as Hq. apply lookup_lt_Some in H1 as Hlen.
    destruct p as [| | |k|k|]; try done; intros [_ Hs]%guard_Some; simpl in Hq;
      (rewrite bool_decide_eq_true_2 in Hs by lia); injection Hs as <-;
      (apply stuck_goto; [done|apply enter_stuck; [done|lia]|done|done]).
Qed.

Lemma acts_stuck k1 l s s' : two_npu k1 -> stuck k1 s -> acts e l s = Some s' -> stuck k1 s'.
Proof.
  intros T. revert s. induction l as [|a l IH]; intros s K; simpl; [by intros [= <-]|].
  intros (s1 & E & E')%bind_Some. eapply IH; [|exact E']. by eapply act_stuck.
Qed.

(** The run that leads there: some jobs come back from the device and keep their buffers,
    the others have the device and wait for buffers. *)
Definition return_run (j : nat) : list action := [AStart j; APick j; AAcquire j; AFinish j].
Definition wait_run (j : nat) : list action := [AStart j; APick j].

Lemma insert_middle (l1 l2 : list place) x y n : n = length l1 -> <[n := y]> (l1 ++ x :: l2) = l1 ++ y :: l2.
Proof. intros ->. rewrite insert_app_r_alt by lia. by rewrite Nat.sub_diag. Qed.

Lemma acts_app l1 l2 s : acts e (l1 ++ l2) s = (s' ← acts e l1 s; acts e l2 s').
Proof.
  revert s. induction l1 as [|a l1 IH]; intros s; simpl; [done|].
  destruct (act e a s); simpl; [apply IH|done].
Qed.

Lemma Start_at l1 l2 load fr :
  kind e 0 = Some NPU ->
  Start e (length l1) (mkState (l1 ++ NotStarted :: l2) load fr) = Some (mkState (l1 ++ PickDevice 0 :: l2) load fr).
Proof.
  intros H0. unfold Start. simpl. rewrite list_lookup_middle by done.
  rewrite option_guard_True by (split; [done|by eexists]). unfold goto, enter. simpl.
  by rewrite H0, insert_middle.
Qed.
Lemma Pick_at l1 l2 load fr :
  load < fullLoad e ->
  Pick e (length l1) (mkState (l1 ++ PickDevice 0 :: l2) load fr) = Some (mkState (l1 ++ WaitBuffers 0 :: l2) (load + 1) fr).
Proof.
  intros Hl. unfold Pick. simpl. rewrite list_lookup_middle by done.
  rewrite option_guard_True by done. by rewrite insert_middle.
Qed.

Lemma Acquire_at l1 l2 load n fr :
  0 < n ->
  Acquire (length l1) (mkState (l1 ++ WaitBuffers 0 :: l2) load (n :: fr)) =
  Some (mkState (l1 ++ Queued 0 :: l2) load ((n - 1) :: fr)).
Proof.
  intros Hn. unfold Acquire. cbn [places load_ free_]. rewrite list_lookup_middle by done.
  change ((n :: fr) !! 0%nat) with (Some n). cbn [mbind option_bind].
  rewrite option_guard_True by done. by rewrite insert_middle.
Qed.
Lemma Finish_at l1 l2 load fr :
  kind e 0 = Some NPU ->
  Finish e (length l1) (mkState (l1 ++ Queued 0 :: l2) load fr) = Some (mkState (l1 ++ Completed 0 :: l2) (load - 1) fr).
Proof.
  intros H0. unfold Finish. cbn [places load_ free_]. rewrite list_lookup_middle by done.
  rewrite option_guard_True by done. by rewrite insert_middle.
Qed.

Lemma return_step l1 l2 n fr :
  kind e 0 = Some NPU -> 0 < fullLoad e -> 0 < n ->
  acts e (return_run (length l1)) (mkState (l1 ++ NotStarted :: l2) 0 (n :: fr)) =
  Some (mkState ((l1 ++ [Completed 0]) ++ l2) 0 ((n - 1) :: fr)).
Proof.
  intros H0 Hl Hn. unfold return_run. cbn [acts act]. rewrite Start_at by done. cbn [mbind option_bind].
  rewrite Pick_at by done. cbn [mbind option_bind]. rewrite Acquire_at by done. cbn [mbind option_bind].
  rewrite Finish_at by done. by rewrite <- app_assoc.
Qed.

Lemma return_steps m l1 l2 n fr :
  kind e 0 = Some NPU -> 0 < fullLoad e -> Z.of_nat m <= n ->
  acts e (mjoin (return_run <$> seq (length l1) m)) (mkState (l1 ++ replicate m NotStarted ++ l2) 0 (n :: fr)) =
  Some (mkState (l1 ++ replicate m (Completed 0) ++ l2) 0 ((n - Z.of_nat m) :: fr)).
Proof.
  intros H0 Hl. revert l1 n. induction m as [|m IH]; intros l1 n Hm.
  - simpl. by rewrite Z.sub_0_r.
  - cbn [seq fmap list_fmap]. cbn [mjoin list_join]. rewrite acts_app. simpl replicate.
    rewrite <- app_comm_cons, return_step by (done || lia). cbn [mbind option_bind].
    replace (S (length l1)) with (length (l1 ++ [Completed 0])) by (rewrite length_app; simpl; lia).
    rewrite IH by lia. rewrite <- app_assoc. replace (n - 1 - Z.of_nat m) with (n - Z.of_nat (S m)) by lia. done.
Qed.

Lemma wait_steps m l1 load fr :
  kind e 0 = Some NPU -> load + Z.of_nat m <= fullLoad e ->
  acts e (mjoin (wait_run <$> seq (length l1) m)) (mkState (l1 ++ replicate m NotStarted) load fr) =
  Some (mkState (l1 ++ replicate m (WaitBuffers 0)) (load + Z.of_nat m) fr).
Proof.
  intros H0. revert l1 load. induction m as [|m IH]; intros l1 load Hm.
  - simpl. by rewrite Z.add_0_r.
  - cbn [seq fmap list_fmap]. cbn [mjoin list_join]. rewrite acts_app. simpl replicate. cbn [acts wait_run act].
    rewrite Start_at by done. cbn [mbind option_bind]. rewrite Pick_at by lia. cbn [mbind option_bind].
    replace (l1 ++ WaitBuffers 0 :: replicate m NotStarted)
      with ((l1 ++ [WaitBuffers 0]) ++ replicate m NotStarted) by (by rewrite <- app_assoc).
    replace (S (length l1)) with (length (l1 ++ [WaitBuffers 0])) by (rewrite length_app; simpl; lia).
    rewrite IH by lia. rewrite <- app_assoc.
    replace (load + 1 + Z.of_nat m) with (load + Z.of_nat (S m)) by lia. done.
Qed.

Lemma stuck_reached k1 :
  two_npu k1 -> 0 < fullLoad e -> 0 < bufferCount e ->
  exists l s, acts e l (init e (Z.to_nat (bufferCount e) + Z.to_nat (fullLoad e))) = Some s /\ stuck k1 s.
Proof.
  intros T Hl Hb. pose proof T as (H0 & _ & Hpos & _). set (n := Z.to_nat (bufferCount e)). set (c := Z.to_nat (fullLoad e)).
  pose proof (lookup_lt_Some _ _ _ H0) as Hlen. destruct (length (tasks e)) as [|len] eqn:El; [lia|].
  exists (mjoin (return_run <$> seq 0 n) ++ mjoin (wait_run <$> seq n c)).
  exists (mkState (replicate n (Completed 0) ++ replicate c (WaitBuffers 0)) (0 + Z.of_nat c)
            ((bufferCount e - Z.of_nat n) :: replicate len (bufferCount e))).
  split.
  - rewrite acts_app. unfold init. rewrite El, replicate_add. simpl replicate.
    pose proof (return_steps n [] (replicate c NotStarted) (bufferCount e) (replicate len (bufferCount e)) H0 Hl) as E.
    simpl in E. rewrite E by lia. cbn [mbind option_bind].
    pose proof (wait_steps c (replicate n (Completed 0)) 0 ((bufferCount e - Z.of_nat n) :: replicate len (bufferCount e)) H0) as E2.
    rewrite length_replicate in E2. apply E2. lia.
  - constructor; simpl; [|lia|eexists; split; [done|lia]].
    apply Forall_app. split; apply Forall_replicate; simpl; [done|lia].
Qed.

End Flow.

(** ** Properties *)

(** C28. Jobs of a model with one NPU task drain: in every interleaving a run makes at most
    [4 * tasks + 1] steps per job, and as long as a started job has not ended some step
    other than the start of a job is possible; at the end the devices have no load and
    all buffers are back. *)
Theorem flow_drains (e : env) (n : nat) (l : list action) (s : state) :
  single_npu e -> 0 < fullLoad e -> 0 < bufferCount e -> (forall g, 0 < workers e g) ->
  acts e l (init e n) = Some s ->
  (length l <= (4 * length (tasks e) + 1) * n)%nat /\
  ((exists a s', (forall j, a <> AStart j) /\ act e a s = Some s') \/
   (Forall (fun p => p = NotStarted \/ p = Ended) (places s) /\ load_ s = 0 /\
    free_ s = replicate (length (tasks e)) (bufferCount e))).
Proof.
  intros H1 Hl Hb Hw E. pose proof (flow_init_inv e n) as I0. pose proof (flow_acts_inv e l _ s I0 E) as I.
  split.
  - pose proof (acts_rank e l _ s I0 E) as Hr. pose proof (total_rank_bound e s I) as Ht.
    rewrite (acts_length e l _ s E) in Ht. unfold init in Ht. simpl in Ht. rewrite length_replicate in Ht. lia.
  - destruct (decide (Exists (fun p => p <> NotStarted /\ p <> Ended) (places s))) as [Hx|Hx].
    + left. apply Exists_exists in Hx as (p & [j Hj]%list_elem_of_lookup & Ha).
      destruct (flow_progress e s j p I H1 Hl Hb Hw Hj Ha) as (a & Hns & s' & Es). by exists a, s'.
    + right. assert (forall p, p ∈ places s -> p = NotStarted \/ p = Ended) as Hall.
      { intros p Hp. destruct (decide (p = NotStarted)); [by left|]. destruct (decide (p = Ended)); [by right|].
        destruct Hx. apply Exists_exists. by exists p. }
      split; [by apply Forall_forall|]. split.
      * rewrite (in_load e s I). apply countb_zero. intros p Hp. by destruct (Hall p Hp) as [->| ->].
      * apply list_eq. intros k. destruct (free_ s !! k) as [x|] eqn:Ek.
        -- rewrite (in_free e s I k x Ek), countb_zero;
             [|intros p Hp; by destruct (Hall p Hp) as [->| ->]].
           rewrite lookup_replicate_2; [f_equal; lia|]. rewrite <- (in_length e s I). by eapply lookup_lt_Some.
        -- symmetry. apply lookup_replicate_None. rewrite <- (in_length e s I). by apply lookup_ge_None.
Qed.

(** A model with two NPU tasks can deadlock, for any number of buffers and any capacity
    of the devices: [bufferCount + fullLoad] concurrent jobs reach a state from which no
    job of the engine ever ends, whatever happens.  The jobs back from the first task
    keep its buffers and wait for a device for the second; the others have the devices and
    wait for those buffers. *)
Theorem two_npu_tasks_deadlock (e : env) (k1 : nat) :
  two_npu e k1 -> 0 < fullLoad e -> 0 < bufferCount e ->
  exists l s, acts e l (init e (Z.to_nat (bufferCount e) + Z.to_nat (fullLoad e))) = Some s /\
    forall l' s', acts e l' s = Some s' -> Ended ∉ places s'.
Proof.
  intros T Hl Hb. destruct (stuck_reached e k1 T Hl Hb) as (l & s & E & K). exists l, s. split; [exact E|].
  intros l' s' E' Hin. pose proof (acts_stuck e k1 l' s s' T K E') as [Hp _ _].
  rewrite Forall_forall in Hp. exact (Hp _ Hin).
Qed.

(** ** Witnesses: the default of 6 buffers and a load of 10 on one device *)

Definition demo_env (t : list processor) : env := mkEnv t 10 6 (fun _ => 2).

Lemma flow_drains_witness :
  exists s, acts (demo_env [NPU; CPU]) [AStart 0; APick 0; AAcquire 0; AFinish 0; AAdvance 0; AAcquire 0; AAdvance 0]
              (init (demo_env [NPU; CPU]) 1) = Some s /\ places s = [Ended] /\ (7 <= (4 * 2 + 1) * 1)%nat.
Proof.
  eexists. split; [reflexivity|]. split; [reflexivity|].
  refine (proj1 (flow_drains (demo_env [NPU; CPU]) 1
    [AStart 0; APick 0; AAcquire 0; AFinish 0; AAdvance 0; AAcquire 0; AAdvance 0] _ _ _ _ _ _)); try reflexivity.
  intros k k'. destruct k as [|[|k]], k' as [|[|k']]; try done; unfold kind; simpl; by rewrite ?lookup_nil.
Defined.

Lemma two_npu_tasks_deadlock_witness :
  exists l s, acts (demo_env [NPU; CPU; NPU]) l (init (demo_env [NPU; CPU; NPU]) 16) = Some s /\ Ended ∉ places s.
Proof.
  destruct (two_npu_tasks_deadlock (demo_env [NPU; CPU; NPU]) 2) as (l & s & E & Hs).
  - repeat split; [simpl; lia|]. intros [|[|k]] Hk; try lia. reflexivity.
  - reflexivity.
  - reflexivity.
  - exists l, s. split; [exact E|]. exact (Hs [] s eq_refl).
Defined.

End JobFlowThms.
