(* ===== verification/Batch.v ===== *)
(** * Batches

    [InferenceEngine::Run] on vectors of buffers and [runSubBatch]
    (lib/inference_engine.cpp): how a batch is cut into jobs, and the main thread waiting
    for the callbacks of the jobs.  Memory accesses are sequentially consistent; an action
    is one access of the shared variables. *)

From Stdlib Require Import ZArith Lia.
From S2P Require Import Prelude.

Module Batch.

(** ** The jobs of a batch *)

Definition SUB_BATCH_MAX_COUNT : nat := 128.

(** The elements of the argument vectors a job is started with, by position. *)
Record call := mkCall { input_at : nat; user_arg_at : option nat; output_at : nat; batch_index : nat }.

Definition sub_batch_calls (has_args : bool) (batchCount startIndex : nat) : list call :=
  (fun i => let current_index := (startIndex + i)%nat in
            mkCall current_index (if has_args then Some i else None) current_index current_index)
  <$> seq 0 batchCount.

(** The sub-batches: number of elements and start. *)
Definition sub_batches (batch_count : nat) : list (nat * nat) :=
  let loop := (batch_count / SUB_BATCH_MAX_COUNT)%nat in
  let remain := (batch_count mod SUB_BATCH_MAX_COUNT)%nat in
  ((fun i => (SUB_BATCH_MAX_COUNT, (i * SUB_BATCH_MAX_COUNT)%nat)) <$> seq 0 loop) ++
  (if (0 <? remain)%nat then [(remain, (loop * SUB_BATCH_MAX_COUNT)%nat)] else []).

Inductive run_result :=
| NoInputs | ArgsMismatch | OutputsMismatch        (** [InvalidArgumentException] *)
| MultiInput (output user_arg : option nat)        (** [RunMultiInput] with these elements *)
| Calls (l : list (list call)).

(** [inputs], [outputs] and [args] are the lengths of the vectors; [model_inputs] is
    [None] if the model has one input. *)
Definition Run (model_inputs : option nat) (inputs outputs args : nat) : run_result :=
  if (inputs =? 0)%nat then NoInputs
  else if (match model_inputs with Some n => inputs =? n | None => false end)%nat then
    MultiInput (if (outputs =? 0)%nat then None else Some 0%nat) (if (args =? 0)%nat then None else Some 0%nat)
  else if (negb (args =? 0) && negb (inputs =? args))%nat then ArgsMismatch
  else if negb (inputs =? outputs)%nat then OutputsMismatch
  else Calls ((fun '(n, start) => sub_batch_calls (negb (args =? 0)%nat) n start) <$> sub_batches inputs).

(** ** One sub-batch *)

(** The thread in [runSubBatch]. *)
Inductive main_pc :=
| Submitting (i : nat)      (** [runAsync] of job [i] next *)
| Completing                (** [is_completed = true], then the lock *)
| Checking                  (** holds the mutex, evaluates the predicate *)
| FallingAsleep             (** the predicate was false *)
| Asleep
| Returned                  (** the predicate was true *)
| Threw.                    (** [runAsync] threw; the function returns all the same *)

(** A job and its callback. *)
Inductive job_pc :=
| NotSubmitted | Running
| Stored                    (** the result is stored; [complete_count++] next *)
| Counted                   (** the test next *)
| Notifying                 (** [notify_one] next *)
| Over.

Record state := mkState {
  main : main_pc;
  jobs : list job_pc;
  results : list (option Z);      (** [result], by job of the sub-batch *)
  complete_count : Z;
  is_completed : bool
}.

Definition with_main (m : main_pc) (s : state) : state :=
  mkState m (jobs s) (results s) (complete_count s) (is_completed s).
Definition with_job (j : nat) (p : job_pc) (s : state) : state :=
  mkState (main s) (<[j := p]> (jobs s)) (results s) (complete_count s) (is_completed s).

Inductive action :=
| ASubmit | ASubmitThrows | AComplete | ACheck | ASleep | AWakeSpurious
| AStore (j : nat) (v : Z) | ACount (j : nat) | ATest (j : nat) | ANotify (j : nat).

Definition Submit (s : state) : option state :=
  match main s with
  | Submitting i =>
      guard (i < length (jobs s))%nat;;
      Some (mkState (if bool_decide (S i < length (jobs s))%nat then Submitting (S i) else Completing)
              (<[i := Running]> (jobs s)) (results s) (complete_count s) (is_completed s))
  | _ => None
  end.
Definition Complete (s : state) : option state :=
  match main s with
  | Completing => Some (mkState Checking (jobs s) (results s) (complete_count s) true)
  | _ => None
  end.
Definition SubmitThrows (s : state) : option state :=
  match main s with Submitting i => Some (with_main Threw s) | _ => None end.
Definition CheckPredicate (s : state) : option state :=
  match main s with
  | Checking =>
      Some (with_main (if complete_count s =? Z.of_nat (length (jobs s)) then Returned else FallingAsleep) s)
  | _ => None
  end.
Definition Sleep (s : state) : option state :=
  match main s with FallingAsleep => Some (with_main Asleep s) | _ => None end.
Definition WakeSpurious (s : state) : option state :=
  match main s with Asleep => Some (with_main Checking s) | _ => None end.

(** [batch_callback] *)
Definition Store (j : nat) (v : Z) (s : state) : option state :=
  match jobs s !! j with
  | Some Running =>
      Some (mkState (main s) (<[j := Stored]> (jobs s)) (<[j := Some v]> (results s)) (complete_count s) (is_completed s))
  | _ => None
  end.
Definition Count (j : nat) (s : state) : option state :=
  match jobs s !! j with
  | Some Stored => Some (mkState (main s) (<[j := Counted]> (jobs s)) (results s) (complete_count s + 1) (is_completed s))
  | _ => None
  end.
Definition Test_ (j : nat) (s : state) : option state :=
  match jobs s !! j with
  | Some Counted =>
      Some (with_job j (if (complete_count s =? Z.of_nat (length (jobs s))) && is_completed s then Notifying else Over) s)
  | _ => None
  end.
Definition Notify (j : nat) (s : state) : option state :=
  match jobs s !! j with
  | Some Notifying =>
      let s := with_job j Over s in
      Some (match main s with Asleep => with_main Checking s | _ => s end)
  | _ => None
  end.

Definition act (a : action) (s : state) : option state :=
  match a with
  | ASubmit => Submit s
  | ASubmitThrows => SubmitThrows s
  | AComplete => Complete s
  | ACheck => CheckPredicate s
  | ASleep => Sleep s
  | AWakeSpurious => WakeSpurious s
  | AStore j v => Store j v s
  | ACount j => Count j s
  | ATest j => Test_ j s
  | ANotify j => Notify j s
  end.
Fixpoint acts (l : list action) (s : state) : option state :=
  match l with [] => Some s | a :: l => s' ← act a s; acts l s' end.

Definition init (n : nat) : state := mkState (Submitting 0) (replicate n NotSubmitted) (replicate n None) 0 false.

End Batch.

(** * Batches: which jobs, what is returned, and the races of the wait *)


Module BatchThms.
Import Batch.

(** ** The calls of a batch *)

Definition expected_call (has_args : bool) (c : nat) : call :=
  mkCall c (if has_args then Some (c mod SUB_BATCH_MAX_COUNT)%nat else None) c c.

Lemma sub_batch_expected has_args q n :
  (n <= SUB_BATCH_MAX_COUNT)%nat ->
  sub_batch_calls has_args n (q * SUB_BATCH_MAX_COUNT) =
  expected_call has_args <$> seq (q * SUB_BATCH_MAX_COUNT) n.
Proof.
  intros Hn. unfold sub_batch_calls.
  replace (seq (q * SUB_BATCH_MAX_COUNT) n) with (Nat.add (q * SUB_BATCH_MAX_COUNT) <$> seq 0 n)
    by (rewrite fmap_add_seq; by rewrite Nat.add_0_r).
  rewrite <- list_fmap_compose. apply list_fmap_ext. intros i x [-> Hi]%lookup_seq. simpl.
  unfold expected_call. f_equal. destruct has_args; [|done]. f_equal.
  rewrite (Nat.add_comm (q * _)), Nat.Div0.mod_add. symmetry. apply Nat.mod_small. lia.
Qed.

Lemma whole_batches has_args m :
  mjoin ((fun '(n, start) => sub_batch_calls has_args n start) <$>
         ((fun i => (SUB_BATCH_MAX_COUNT, (i * SUB_BATCH_MAX_COUNT)%nat)) <$> seq 0 m)) =
  expected_call has_args <$> seq 0 (m * SUB_BATCH_MAX_COUNT).
Proof.
  induction m as [|m IH]; [done|]. rewrite seq_S, !fmap_app, join_app, IH.
  cbn [fmap list_fmap mjoin list_join Nat.add].
  rewrite app_nil_r, sub_batch_expected by lia.
  rewrite <- fmap_app. f_equal. rewrite Nat.mul_succ_l. by rewrite seq_app.
Qed.

(** ** The invariant of a sub-batch *)

Definition counted (p : job_pc) : bool := match p with Counted | Notifying | Over => true | _ => false end.
Definition has_result (p : job_pc) : bool := match p with NotSubmitted | Running => false | _ => true end.

Record inv (n : nat) (l : list action) (s : state) : Prop := {
  in_jobs : length (jobs s) = n;
  in_count : complete_count s = countb counted (jobs s);
  in_results j p : jobs s !! j = Some p -> has_result p = true ->
    exists v, results s !! j = Some (Some v) /\ AStore j v ∈ l;
  in_length : length (results s) = n;
  in_returned : main s = Returned -> forall p, p ∈ jobs s -> counted p = true;
  in_submitting i : main s = Submitting i -> (i < n)%nat -> forall j, (i <= j < n)%nat -> jobs s !! j = Some NotSubmitted
}.

Lemma countb_le_length (l : list job_pc) : countb counted l <= Z.of_nat (length l).
Proof. induction l as [|p l IH]; [done|]. rewrite countb_cons. simpl. destruct (counted p); simpl; lia. Qed.

Lemma countb_full (l : list job_pc) : countb counted l = Z.of_nat (length l) -> forall p, p ∈ l -> counted p = true.
Proof.
  induction l as [|x l IH]; [set_solver|]. rewrite countb_cons. simpl. pose proof (countb_le_length l).
  intros E p [->|Hp]%elem_of_cons; destruct (counted x); simpl in E; try done; try lia.
  apply IH; [lia|done].
Qed.

(** A job moves without a change of its result. *)
Lemma inv_job n l a s j p q m c b :
  inv n l s -> jobs s !! j = Some p -> c = complete_count s - Z.b2z (counted p) + Z.b2z (counted q) ->
  has_result q = has_result p -> p <> NotSubmitted -> (counted p = true -> counted q = true) ->
  (m = Returned -> main s = Returned) -> (forall i, m = Submitting i -> main s = Submitting i) ->
  inv n (l ++ [a]) (mkState m (<[j := q]> (jobs s)) (results s) c b).
Proof.
  intros [Hj Hc Hr Hlen Hret Hsub] E -> Hres Hp Hq Hm Hms. constructor; simpl.
  - by rewrite length_insert.
  - rewrite (countb_insert _ _ _ _ _ E). lia.
  - intros j' p' [(-> & <- & _)|[_ E']]%list_lookup_insert_Some Hres'.
    + rewrite Hres in Hres'. destruct (Hr j' p E Hres') as (v & Ev & Hin). exists v. set_solver.
    + destruct (Hr j' p' E' Hres') as (v & Ev & Hin). exists v. set_solver.
  - done.
  - intros Hx%Hm p' [j' [(-> & <- & _)|[_ E']]%list_lookup_insert_Some]%list_elem_of_lookup.
    + apply Hq, (Hret Hx). by eapply list_elem_of_lookup_2.
    + apply (Hret Hx). by eapply list_elem_of_lookup_2.
  - intros i Hi Hn j' Hj'. destruct (decide (j' = j)) as [->|Hne].
    + rewrite (Hsub i (Hms i Hi) Hn j Hj') in E. by injection E as <-.
    + rewrite list_lookup_insert_ne by done. by apply (Hsub i (Hms i Hi) Hn).
Qed.

(** The main thread moves. *)
Lemma inv_main n l a s m b :
  inv n l s -> (m = Returned -> forall p, p ∈ jobs s -> counted p = true) -> (forall i, m <> Submitting i) ->
  inv n (l ++ [a]) (mkState m (jobs s) (results s) (complete_count s) b).
Proof.
  intros [Hj Hc Hr Hlen Hret Hsub] Hm Hs. constructor; simpl; try done.
  - intros j p E Hp. destruct (Hr j p E Hp) as (v & Ev & Hin). exists v. set_solver.
  - intros i Hi. by destruct (Hs i).
Qed.

Lemma Store_inv n l s j v s' : inv n l s -> Store j v s = Some s' -> inv n (l ++ [AStore j v]) s'.
Proof.
  intros [Hj Hc Hr Hlen Hret Hsub]. unfold Store. destruct (jobs s !! j) as [[]|] eqn:E; try done.
  intros Hq. injection Hq as <-. pose proof (lookup_lt_Some _ _ _ E) as Hlt. constructor; simpl.
  - by rewrite length_insert.
  - rewrite (countb_insert _ _ _ _ _ E). simpl. lia.
  - intros j' p' [(-> & <- & _)|[Hne E']]%list_lookup_insert_Some Hp.
    + exists v. rewrite list_lookup_insert_eq by lia. set_solver.
    + destruct (Hr j' p' E' Hp) as (v' & Ev & Hin). exists v'. rewrite list_lookup_insert_ne by done. set_solver.
  - by rewrite length_insert.
  - intros Hx. pose proof (Hret Hx Running ltac:(by eapply list_elem_of_lookup_2)). done.
  - intros i Hi Hn j' Hj'. destruct (decide (j' = j)) as [->|Hne].
    + by rewrite (Hsub i Hi Hn j Hj') in E.
    + rewrite list_lookup_insert_ne by done. by apply (Hsub i Hi Hn).
Qed.

Lemma Submit_inv n l s s' : inv n l s -> Submit s = Some s' -> inv n (l ++ [ASubmit]) s'.
Proof.
  intros [Hj Hc Hr Hlen Hret Hsub]. unfold Submit. destruct (main s) as [i| | | | | |] eqn:Em; try done.
  intros [Hi Hq]%guard_Some. injection Hq as <-. rewrite Hj in *.
  pose proof (Hsub i eq_refl Hi i ltac:(lia)) as E. constructor; simpl.
  - by rewrite length_insert.
  - rewrite (countb_insert _ _ _ _ _ E). simpl. lia.
  - intros j' p' [(-> & <- & _)|[Hne E']]%list_lookup_insert_Some Hp; [done|].
    destruct (Hr j' p' E' Hp) as (v & Ev & Hin). exists v. set_solver.
  - done.
  - by case_bool_decide.
  - intros i' Hi' Hn j' Hj'. case_bool_decide; [|done]. injection Hi' as <-.
    rewrite list_lookup_insert_ne by lia. apply (Hsub i eq_refl Hi). lia.
Qed.

Lemma batch_act_inv n l a s s' : inv n l s -> act a s = Some s' -> inv n (l ++ [a]) s'.
Proof.
  intros I. destruct a as [| | | | | |j v|j|j|j]; simpl.
  - by apply Submit_inv.
  - unfold SubmitThrows. destruct (main s); try done. intros Hq. injection Hq as <-. by apply inv_main.
  - unfold Complete. destruct (main s); try done. intros Hq. injection Hq as <-. by apply inv_main.
  - unfold CheckPredicate. destruct (main s); try done. intros Hq. injection Hq as <-.
    destruct (Z.eqb_spec (complete_count s) (Z.of_nat (length (jobs s)))) as [Ec|_]; apply inv_main; try done.
    intros _. apply countb_full. by rewrite <- (in_count n l s I).
  - unfold Sleep. destruct (main s); try done. intros Hq. injection Hq as <-. by apply inv_main.
  - unfold WakeSpurious. destruct (main s); try done. intros Hq. injection Hq as <-. by apply inv_main.
  - by apply Store_inv.
  - unfold Count. destruct (jobs s !! j) as [[]|] eqn:E; try done. intros Hq. injection Hq as <-.
    eapply inv_job; [exact I|exact E|simpl; lia|done..].
  - unfold Test_. destruct (jobs s !! j) as [[]|] eqn:E; try done. intros Hq. injection Hq as <-.
    destruct ((complete_count s =? Z.of_nat (length (jobs s))) && is_completed s);
      (eapply inv_job; [exact I|exact E|simpl; lia|done..]).
  - unfold Notify. destruct (jobs s !! j) as [[]|] eqn:E; try done. intros Hq. injection Hq as <-.
    assert (inv n (l ++ [ANotify j]) (with_job j Over s)) as I'
      by (eapply inv_job; [exact I|exact E|simpl; lia|done..]).
    destruct (main s) eqn:Em; try exact I'.
    destruct I' as [Hj Hc Hr Hlen _ _]. constructor; [exact Hj|exact Hc|exact Hr|exact Hlen|done|done].
Qed.

Lemma batch_init_inv n : inv n [] (init n).
Proof.
  constructor; simpl.
  - apply length_replicate.
  - by rewrite countb_replicate, Z.mul_0_r.
  - intros j p [-> _]%lookup_replicate. done.
  - apply length_replicate.
  - done.
  - intros i [= <-] Hn j Hj. apply lookup_replicate. split; [done|lia].
Qed.

Lemma batch_acts_inv n l0 l s s' : inv n l0 s -> acts l s = Some s' -> inv n (l0 ++ l) s'.
Proof.
  revert l0 s. induction l as [|a l IH]; intros l0 s I; simpl.
  - intros [= <-]. by rewrite (right_id_L [] (++)).
  - intros (s1 & E & E')%bind_Some. replace (l0 ++ a :: l) with ((l0 ++ [a]) ++ l) by (by rewrite <- app_assoc).
    eapply IH; [|exact E']. by eapply batch_act_inv.
Qed.

(** ** The races *)

(** A run in which the last callback tests and notifies between the evaluation of the
    predicate and the wait. *)
Definition submits (n : nat) : list action := replicate n ASubmit.
Definition finishes (j : nat) : list action := [AStore j 0; ACount j; ATest j].

Lemma batch_acts_app l1 l2 s : acts (l1 ++ l2) s = (s' ← acts l1 s; acts l2 s').
Proof.
  revert s. induction l1 as [|a l1 IH]; intros s; simpl; [done|].
  destruct (act a s); simpl; [apply IH|done].
Qed.

Lemma job_middle (l1 l2 : list job_pc) x y : <[length l1 := y]> (l1 ++ x :: l2) = l1 ++ y :: l2.
Proof. rewrite insert_app_r_alt by lia. by rewrite Nat.sub_diag. Qed.
Lemma result_middle (l1 l2 : list (option Z)) x y : <[length l1 := y]> (l1 ++ x :: l2) = l1 ++ y :: l2.
Proof. rewrite insert_app_r_alt by lia. by rewrite Nat.sub_diag. Qed.

Lemma submit_steps m l r c b :
  (0 < m)%nat ->
  acts (submits m) (mkState (Submitting (length l)) (l ++ replicate m NotSubmitted) r c b) =
  Some (mkState Completing (l ++ replicate m Running) r c b).
Proof.
  intros Hm. destruct m as [|m]; [lia|]. clear Hm. revert l.
  induction m as [|m IH]; intros l; simpl; unfold Submit; simpl; rewrite length_app; simpl;
    rewrite option_guard_True by lia; simpl; rewrite job_middle.
  - rewrite bool_decide_eq_false_2 by lia. done.
  - rewrite bool_decide_eq_true_2 by lia. specialize (IH (l ++ [Running])).
    rewrite length_app, <- !app_assoc in IH. simpl in IH. rewrite Nat.add_1_r in IH. exact IH.
Qed.

Lemma finish_step l l' r r' x m c b :
  length r = length l ->
  acts (finishes (length l)) (mkState m (l ++ Running :: l') (r ++ x :: r') c b) =
  Some (mkState m (l ++ (if (c + 1 =? Z.of_nat (length l + S (length l'))) && b then Notifying else Over) :: l')
          (r ++ Some 0 :: r') (c + 1) b).
Proof.
  intros Hr. unfold finishes. cbn [acts act]. unfold Store. cbn [jobs main results complete_count is_completed].
  rewrite list_lookup_middle by done. cbn [mbind option_bind]. rewrite job_middle.
  rewrite <- Hr at 2. rewrite result_middle. unfold Count. cbn [jobs main results complete_count is_completed].
  rewrite list_lookup_middle by done. cbn [mbind option_bind]. rewrite job_middle.
  unfold Test_. cbn [jobs main results complete_count is_completed].
  rewrite list_lookup_middle by done. cbn [mbind option_bind]. unfold with_job.
  cbn [jobs main results complete_count is_completed]. by rewrite job_middle, length_app.
Qed.

Lemma finish_steps k l r m c b :
  length r = length l -> c = Z.of_nat (length l) ->
  acts (mjoin (finishes <$> seq (length l) k)) (mkState m (l ++ replicate (S k) Running) (r ++ replicate (S k) None) c b) =
  Some (mkState m (l ++ replicate k Over ++ [Running]) (r ++ replicate k (Some 0) ++ [None]) (c + Z.of_nat k) b).
Proof.
  revert l r c. induction k as [|k IH]; intros l r c Hr Hc.
  - simpl. by rewrite Z.add_0_r.
  - cbn [seq fmap list_fmap mjoin list_join]. rewrite batch_acts_app.
    change (replicate (S (S k)) Running) with (Running :: replicate (S k) Running).
    change (replicate (S (S k)) (@None Z)) with (None :: replicate (S k) (@None Z)).
    rewrite finish_step by done. cbn [mbind option_bind].
    replace (c + 1 =? _) with false by (symmetry; apply Z.eqb_neq; rewrite length_replicate; lia). cbn [andb].
    specialize (IH (l ++ [Over]) (r ++ [Some 0]) (c + 1)). rewrite !length_app in IH. simpl length in IH.
    rewrite (Nat.add_1_r (length l)) in IH. rewrite <- !app_assoc in IH. cbn [app] in IH.
    replace (c + 1 + Z.of_nat k) with (c + Z.of_nat (S k)) in IH by lia. apply IH; lia.
Qed.

Lemma before_last k :
  acts (submits (S k) ++ AComplete :: mjoin (finishes <$> seq 0 k)) (init (S k)) =
  Some (mkState Checking (replicate k Over ++ [Running]) (replicate k (Some 0) ++ [None]) (Z.of_nat k) true).
Proof.
  rewrite batch_acts_app. unfold init.
  pose proof (submit_steps (S k) [] (replicate (S k) None) 0 false ltac:(lia)) as E. cbn [length app] in E.
  rewrite E. cbn [mbind option_bind acts act Complete].
  apply (finish_steps k [] [] Checking 0 true); done.
Qed.

Lemma last_finish k m :
  acts (finishes k) (mkState m (replicate k Over ++ [Running]) (replicate k (Some 0) ++ [None]) (Z.of_nat k) true) =
  Some (mkState m (replicate k Over ++ [Notifying]) (replicate k (Some 0) ++ [Some 0]) (Z.of_nat k + 1) true).
Proof.
  pose proof (finish_step (replicate k Over) [] (replicate k (Some 0)) [] None m (Z.of_nat k) true) as E.
  rewrite !length_replicate in E. rewrite E by done. simpl length.
  replace (Z.of_nat k + 1 =? _) with true by (symmetry; apply Z.eqb_eq; lia). done.
Qed.

(** All callbacks are over and the thread sleeps. *)
Definition all_over (k : nat) : state :=
  mkState Asleep (replicate k Over ++ [Over]) (replicate k (Some 0) ++ [Some 0]) (Z.of_nat k + 1) true.

Lemma sleeping_run k :
  acts ((submits (S k) ++ AComplete :: mjoin (finishes <$> seq 0 k)) ++ (ACheck :: finishes k ++ [ANotify k; ASleep]))
    (init (S k)) = Some (all_over k).
Proof.
  rewrite batch_acts_app, before_last. cbn [mbind option_bind acts act CheckPredicate main complete_count jobs].
  rewrite length_app, length_replicate. simpl length.
  replace (Z.of_nat k =? _) with false by (symmetry; apply Z.eqb_neq; lia).
  unfold with_main. cbn [mbind option_bind main jobs results complete_count is_completed].
  rewrite batch_acts_app, last_finish. cbn [mbind option_bind acts act]. unfold Notify. cbn [jobs].
  rewrite list_lookup_middle by (by rewrite length_replicate). unfold with_job.
  cbn [main jobs results complete_count is_completed].
  pose proof (job_middle (replicate k Over) [] Notifying Over) as Ej. rewrite length_replicate in Ej.
  rewrite Ej. reflexivity.
Qed.

(** The thread returns while the last callback is about to test. *)
Lemma frame_run k :
  acts ((submits (S k) ++ AComplete :: mjoin (finishes <$> seq 0 k)) ++ [AStore k 0; ACount k; ACheck]) (init (S k)) =
  Some (mkState Returned (replicate k Over ++ [Counted]) (replicate k (Some 0) ++ [Some 0]) (Z.of_nat k + 1) true).
Proof.
  rewrite batch_acts_app, before_last. cbn [mbind option_bind acts act]. unfold Store.
  cbn [jobs main results complete_count is_completed].
  rewrite list_lookup_middle by (by rewrite length_replicate). cbn [mbind option_bind].
  pose proof (job_middle (replicate k Over) [] Running Stored) as Ej. rewrite length_replicate in Ej. rewrite Ej.
  pose proof (result_middle (replicate k (Some 0)) [] None (Some 0)) as Er. rewrite length_replicate in Er. rewrite Er.
  unfold Count. cbn [jobs main results complete_count is_completed].
  rewrite list_lookup_middle by (by rewrite length_replicate). cbn [mbind option_bind].
  pose proof (job_middle (replicate k Over) [] Stored Counted) as Ej2. rewrite length_replicate in Ej2. rewrite Ej2.
  unfold CheckPredicate, with_main. cbn [jobs main results complete_count is_completed].
  rewrite length_app, length_replicate. simpl length.
  replace (Z.of_nat k + 1 =? _) with true by (symmetry; apply Z.eqb_eq; lia). done.
Qed.

(** ** Properties *)

(** A batch of [n] inputs runs one job per input, in order and in sub-batches of at most
    128: job [c] reads input [c], writes output [c] and stores its result at [c].  Its user
    argument is the element [c mod 128], not [c]: from the 129th input on, jobs are given
    the arguments of earlier ones. *)
Theorem batch_calls (n args : nat) :
  (0 < n)%nat -> args = 0%nat \/ args = n ->
  exists l, Run None n n args = Calls l /\ mjoin l = expected_call (negb (args =? 0)%nat) <$> seq 0 n /\
    Forall (fun b => 0 < length b <= SUB_BATCH_MAX_COUNT)%nat l.
Proof.
  intros Hn Ha. unfold Run. destruct (Nat.eqb_spec n 0) as [|_]; [lia|].
  replace (negb (args =? 0)%nat && negb (n =? args)%nat) with false
    by (destruct Ha as [->| ->]; [done|]; by rewrite Nat.eqb_refl, andb_false_r).
  rewrite Nat.eqb_refl. cbn [negb]. eexists. split; [reflexivity|].
  set (m := (n / SUB_BATCH_MAX_COUNT)%nat). set (has_args := negb (args =? 0)%nat).
  pose proof (Nat.div_mod_eq n SUB_BATCH_MAX_COUNT) as Ed. fold m in Ed.
  pose proof (Nat.mod_upper_bound n SUB_BATCH_MAX_COUNT ltac:(done)) as Hr.
  assert (Forall (fun x => 0 < x.1 <= SUB_BATCH_MAX_COUNT)%nat (sub_batches n)) as Hsz.
  { unfold sub_batches. apply Forall_app. split.
    - apply Forall_fmap, Forall_forall. intros i _. simpl. unfold SUB_BATCH_MAX_COUNT. lia.
    - destruct (Nat.ltb_spec 0 (n mod SUB_BATCH_MAX_COUNT)); [|done]. constructor; [cbn [fst]; lia|done]. }
  split.
  - unfold sub_batches. fold m. rewrite fmap_app, join_app, whole_batches.
    destruct (Nat.ltb_spec 0 (n mod SUB_BATCH_MAX_COUNT)) as [Hp|Hp].
    + cbn [fmap list_fmap mjoin list_join]. rewrite app_nil_r, sub_batch_expected by lia.
      rewrite <- fmap_app, <- seq_app. by replace (m * SUB_BATCH_MAX_COUNT + n mod SUB_BATCH_MAX_COUNT)%nat with n by lia.
    + cbn [fmap list_fmap mjoin list_join]. rewrite app_nil_r. by replace (m * SUB_BATCH_MAX_COUNT)%nat with n by lia.
  - apply Forall_fmap. eapply Forall_impl; [exact Hsz|]. intros [x start]. simpl.
    unfold sub_batch_calls. rewrite length_fmap, length_seq. done.
Qed.

(** When [runSubBatch] returns from its wait, every job of the sub-batch has counted and
    the result at its place is the one its callback stored, in every interleaving of the
    callbacks with the main thread. *)
Theorem batch_results (n : nat) (l : list action) (s : state) :
  acts l (init n) = Some s -> main s = Returned ->
  complete_count s = Z.of_nat n /\
  forall j, (j < n)%nat -> exists v, results s !! j = Some (Some v) /\ AStore j v ∈ l.
Proof.
  intros E Em. pose proof (batch_acts_inv n [] l _ s (batch_init_inv n) E) as I. simpl in I.
  pose proof (in_returned n l s I Em) as Hall. split.
  - rewrite (in_count n l s I), <- (in_jobs n l s I). clear - Hall. induction (jobs s) as [|p k IH]; [done|].
    rewrite countb_cons, (Hall p) by left. rewrite IH; [simpl; lia|]. intros q Hq. apply Hall. by right.
  - intros j Hj. rewrite <- (in_jobs n l s I) in Hj. apply lookup_lt_is_Some in Hj as [p Ep].
    apply (in_results n l s I j p Ep). specialize (Hall p ltac:(by eapply list_elem_of_lookup_2)). by destruct p.
Qed.

(** The wait has two races, for a sub-batch of any size.  A callback does not hold the
    mutex: if the last one counts and notifies after the predicate was false and before
    the thread sleeps, all callbacks are over, the thread sleeps, and only a spurious
    wake-up can end the wait.  And the last callback can count before the predicate is
    evaluated and still be about to read the counter and the condition variable, which
    are on the stack of the function, when that has returned. *)
Theorem batch_wait_races (n : nat) :
  (0 < n)%nat ->
  (exists l s, acts l (init n) = Some s /\ main s = Asleep /\ (forall p, p ∈ jobs s -> p = Over) /\
     forall a s', act a s = Some s' -> a = AWakeSpurious) /\
  exists l s, acts l (init n) = Some s /\ main s = Returned /\ exists j, jobs s !! j = Some Counted.
Proof.
  intros Hn. destruct n as [|k]; [lia|]. clear Hn. split.
  - assert (forall j p, jobs (all_over k) !! j = Some p -> p = Over) as Hj.
    { intros j p [Hp|Hp]%list_elem_of_lookup_2%elem_of_app;
        [by apply elem_of_replicate in Hp as [-> _]|by apply list_elem_of_singleton in Hp]. }
    eexists _, (all_over k). split; [apply sleeping_run|]. split; [done|].
    split; [intros p [j Ep]%list_elem_of_lookup; by apply (Hj j)|].
    intros [| | | | | |j v|j|j|j] s'; simpl; try done; unfold Store, Count, Test_, Notify;
      destruct (jobs (all_over k) !! j) as [p|] eqn:Ej; try done; by rewrite (Hj j p Ej).
  - eexists _, _. split; [apply frame_run|]. split; [done|]. exists k. cbn [jobs].
    by rewrite list_lookup_middle by (by rewrite length_replicate).
Qed.

(** ** Witnesses *)

Lemma batch_calls_witness :
  exists l, Run None 200 200 200 = Calls l /\ mjoin l !! 130%nat = Some (mkCall 130 (Some 2%nat) 130 130).
Proof.
  destruct (batch_calls 200 200) as (l & E & Ej & _); [lia|by right|].
  exists l. split; [exact E|]. rewrite Ej. reflexivity.
Defined.

Definition demo_batch : list action := [ASubmit; ASubmit; AComplete; AStore 1 7; ACount 1; AStore 0 5; ACount 0; ACheck].
Definition demo_returned : state := Eval vm_compute in default (init 2) (acts demo_batch (init 2)).
Lemma batch_results_witness : complete_count demo_returned = 2.
Proof.
  destruct (batch_results 2 demo_batch demo_returned) as [Hc _]; [reflexivity|reflexivity|exact Hc].
Defined.

Lemma batch_wait_races_witness : exists l s, acts l (init 3) = Some s /\ main s = Asleep.
Proof. destruct (batch_wait_races 3) as [(l & s & E & Em & _) _]; [lia|]. exists l, s. split; [exact E|exact Em]. Defined.

End BatchThms.
