(* ===== verification/DevicePool.v ===== *)
(** * Choice of a device

    [lib/device_pool/device_pool.cpp]: [pickDeviceIndex], the predicate on which
    [WaitDevice] waits, and what [WaitDevice] does with its result. *)

From Stdlib Require Import ZArith Lia.
From S2P Require Import Prelude.

Module DevicePool.

(** What the pool reads of a task layer. *)
Record layer := mkLayer { isBlocked : bool; layer_load : Z; getFullLoad : Z }.

Definition INT_MAX : Z := 2 ^ 31 - 1.

Inductive pick :=
| AllDeviceBlocked         (** [DeviceIOException] *)
| NoDevice                 (** -1 *)
| Device (d : Z).

(** The variables of the loop. *)
Record scan := mkScan { device_index : Z; best : Z; block_count : Z }.

Definition scan_step (layers : list layer) (st : option scan) (device_id : Z) : option scan :=
  s ← st;
  l ← (if device_id <? 0 then None else layers !! Z.to_nat device_id);
  if isBlocked l then Some (mkScan (device_index s) (best s) (block_count s + 1))
  else if (layer_load l <? getFullLoad l) && (layer_load l <? best s)
  then Some (mkScan device_id (layer_load l) (block_count s))
  else Some s.

(** The devices in the order of the loop: [ids[(i + startIdx) % n]]. *)
Definition visit_order (startIdx : Z) (ids : list Z) : option (list Z) :=
  mapM (fun i => ids !! Z.to_nat ((Z.of_nat i + startIdx) mod Z.of_nat (length ids))) (seq 0 (length ids)).

(** [None]: the remainder by zero of an empty list, or a device that does not exist. *)
Definition pickDeviceIndex (layers : list layer) (curDevIdx : Z) (ids : list Z) : option pick :=
  let n := Z.of_nat (length ids) in
  if n =? 0 then None
  else
    order ← visit_order (curDevIdx mod n) ids;
    s ← foldl (scan_step layers) (Some (mkScan (-1) INT_MAX 0)) order;
    Some (if n <=? block_count s then AllDeviceBlocked
          else if 0 <=? device_index s then Device (device_index s) else NoDevice).

(** [WaitDevice] when the predicate holds: the picked device and the next start. *)
Definition set_load (z : Z) (l : layer) : layer := mkLayer (isBlocked l) z (getFullLoad l).
Definition take_device (layers : list layer) (curDevIdx d : Z) : list layer * Z :=
  (alter (fun l => set_load (layer_load l + 1) l) (Z.to_nat d) layers, (curDevIdx + 1) mod 1000000).

(** ** The loop *)

Definition get (layers : list layer) (d : Z) : option layer :=
  if d <? 0 then None else layers !! Z.to_nat d.
Definition usable (layers : list layer) (d : Z) : Prop :=
  exists l, get layers d = Some l /\ isBlocked l = false /\ layer_load l < getFullLoad l.
Definition load_of (layers : list layer) (d : Z) : Z := default 0 (layer_load <$> get layers d).
Definition is_blocked (layers : list layer) (d : Z) : bool := default false (isBlocked <$> get layers d).

Definition known (layers : list layer) (ids : list Z) : Prop :=
  Forall (fun d => exists l, get layers d = Some l /\ getFullLoad l <= INT_MAX) ids.

(** After [seen]: the blocked ones are counted, and the chosen one is the first with the
    smallest load. *)
Record scan_ok (layers : list layer) (seen : list Z) (s : scan) : Prop := {
  sc_count : block_count s = Z.of_nat (length (filter (fun d => is_blocked layers d = true) seen));
  sc_none : device_index s < 0 -> best s = INT_MAX /\ forall d, d ∈ seen -> ~ usable layers d;
  sc_some : 0 <= device_index s -> exists before after,
    seen = before ++ device_index s :: after /\ usable layers (device_index s) /\
    best s = load_of layers (device_index s) /\
    (forall d, d ∈ before -> usable layers d -> best s < load_of layers d) /\
    (forall d, d ∈ after -> usable layers d -> best s <= load_of layers d)
}.

Lemma usable_load layers d l : get layers d = Some l -> load_of layers d = layer_load l.
Proof. intros E. unfold load_of. by rewrite E. Qed.

(** A device that is not better leaves the choice. *)
Lemma scan_keep layers seen s d :
  scan_ok layers seen s -> is_blocked layers d = false -> (usable layers d -> best s <= load_of layers d) ->
  (device_index s < 0 -> ~ usable layers d) -> scan_ok layers (seen ++ [d]) s.
Proof.
  intros [C N S] Hb Hu Hn. split.
  - rewrite C, filter_app, length_app, filter_cons, decide_False; [simpl; lia|]. by rewrite Hb.
  - intros Hd. destruct (N Hd) as [-> Hs]. split; [done|]. intros d' [H| ->%list_elem_of_singleton]%elem_of_app; auto.
  - intros Hd. destruct (S Hd) as (b & a & -> & S2 & S3 & S4 & S5). exists b, (a ++ [d]).
    rewrite <- (assoc_L app). split; [done|split; [done|split; [done|split; [done|]]]].
    intros d' [H| ->%list_elem_of_singleton]%elem_of_app; auto.
Qed.

Lemma scan_best layers seen s d l :
  scan_ok layers seen s -> get layers d = Some l -> 0 <= d -> isBlocked l = false ->
  layer_load l < getFullLoad l -> layer_load l < best s ->
  scan_ok layers (seen ++ [d]) (mkScan d (layer_load l) (block_count s)).
Proof.
  intros [C N S] E Hd Hb Hf Hl. split; simpl.
  - rewrite C, filter_app, length_app, filter_cons, decide_False; [simpl; lia|].
    unfold is_blocked. rewrite E. simpl. congruence.
  - lia.
  - intros _. exists seen, []. split; [done|split; [by exists l|split; [by rewrite (usable_load _ _ l)|split]]].
    + intros d' Hd' Hu. destruct (Z.lt_ge_cases (device_index s) 0) as [Hn|Hn].
      { destruct (N Hn) as [_ Hx]. by apply Hx in Hu. }
      destruct (S Hn) as (b & a & -> & _ & S3 & S4 & S5). apply elem_of_app in Hd' as [Hd'|Hd'].
      * specialize (S4 d' Hd' Hu). lia.
      * apply elem_of_cons in Hd' as [->|Hd']; [lia|]. specialize (S5 d' Hd' Hu). lia.
    + by intros d' ?%not_elem_of_nil.
Qed.

Lemma scan_step_ok layers seen s d l :
  scan_ok layers seen s -> get layers d = Some l -> getFullLoad l <= INT_MAX ->
  exists s', scan_step layers (Some s) d = Some s' /\ scan_ok layers (seen ++ [d]) s'.
Proof.
  intros I E Hf. unfold scan_step. simpl. fold (get layers d). rewrite E. simpl.
  assert (0 <= d) as Hd by (unfold get in E; destruct (Z.ltb_spec d 0); [done|lia]).
  destruct (isBlocked l) eqn:Hb.
  - eexists. split; [done|]. destruct I as [C N S].
    assert (~ usable layers d) as Hu by (intros (l' & E' & Hb' & _); congruence). split; simpl.
    + rewrite C, filter_app, length_app, filter_cons, decide_True; [simpl; lia|].
      unfold is_blocked. rewrite E. simpl. done.
    + intros Hn. destruct (N Hn) as [-> Hs]. split; [done|].
      intros d' [H| ->%list_elem_of_singleton]%elem_of_app; auto.
    + intros Hn. destruct (S Hn) as (b & a & -> & S2 & S3 & S4 & S5). exists b, (a ++ [d]).
      rewrite <- (assoc_L app). split; [done|split; [done|split; [done|split; [done|]]]].
      intros d' [H| ->%list_elem_of_singleton]%elem_of_app; [auto|done].
  - assert (is_blocked layers d = false) as Hb' by (unfold is_blocked; by rewrite E).
    assert (usable layers d -> layer_load l < getFullLoad l) as Hu
      by (intros (l' & E' & _ & H'); congruence).
    destruct (Z.ltb_spec (layer_load l) (getFullLoad l)), (Z.ltb_spec (layer_load l) (best s)); simpl;
      eexists; (split; [done|]).
    + by apply scan_best.
    + apply scan_keep; [done|done|intros _; by rewrite (usable_load _ _ l)|].
      intros Hn. destruct (sc_none _ _ _ I Hn) as [Hm _]. unfold INT_MAX in *. lia.
    + apply scan_keep; [done|done|intros ?%Hu; lia|intros _ ?%Hu; lia].
    + apply scan_keep; [done|done|intros ?%Hu; lia|intros _ ?%Hu; lia].
Qed.

Lemma scan_all layers l seen s :
  known layers l -> scan_ok layers seen s ->
  exists s', foldl (scan_step layers) (Some s) l = Some s' /\ scan_ok layers (seen ++ l) s'.
Proof.
  revert seen s. induction l as [|d l IH]; intros seen s K I; [exists s; by rewrite app_nil_r|].
  apply Forall_cons in K as [(x & E & Hf) K]. destruct (scan_step_ok layers seen s d x I E Hf) as (s1 & E1 & I1).
  destruct (IH (seen ++ [d]) s1 K I1) as (s2 & E2 & I2). exists s2. rewrite <- (assoc_L app) in I2.
  split; [|exact I2]. cbn [foldl]. by rewrite E1.
Qed.

(** The loop visits the list rotated to its start. *)
Lemma visit_order_rotate (k : nat) ids :
  (k < length ids)%nat -> visit_order (Z.of_nat k) ids = Some (drop k ids ++ take k ids).
Proof.
  intros Hk. unfold visit_order. apply mapM_Some_2, Forall2_same_length_lookup_2.
  { rewrite length_seq, length_app, length_drop, length_take. lia. }
  intros i x y Ex Ey. apply lookup_seq in Ex as [-> Hi]. simpl. rewrite <- Nat2Z.inj_add, <- Nat2Z.inj_mod, Nat2Z.id.
  rewrite <- Ey. destruct (decide (i < length ids - k)%nat) as [Hl|Hl].
  - rewrite lookup_app_l by (rewrite length_drop; lia). rewrite lookup_drop, Nat.mod_small by lia. f_equal. lia.
  - rewrite lookup_app_r by (rewrite length_drop; lia). rewrite length_drop.
    rewrite lookup_take_lt by lia. f_equal.
    replace (i + k)%nat with ((i - (length ids - k)) + 1 * length ids)%nat by lia.
    rewrite Nat.Div0.mod_add, Nat.mod_small by lia. lia.
Qed.

Lemma unfiltered (P : Z -> Prop) `{forall x, Decision (P x)} l :
  (length (filter P l) < length l)%nat -> exists x, x ∈ l /\ ~ P x.
Proof.
  induction l as [|x l IH]; simpl; [lia|]. rewrite filter_cons.
  destruct (decide (P x)) as [Hp|Hp]; [|exists x; split; [left|done]].
  intros Hl. simpl in Hl. destruct IH as (y & Hy & Hn); [lia|]. exists y. split; [by right|done].
Qed.

(** The choice of a device, for a non-empty list of existing devices: an exception
    exactly when all are blocked; no device exactly when the ones that are not blocked are
    all at full load; otherwise the device with the smallest load among those not blocked
    and below full load, the first such in the rotation that starts at [_curDevIdx]. *)
Theorem pick_least_loaded layers cur ids :
  ids <> [] -> 0 <= cur -> known layers ids ->
  let k := Z.to_nat (cur mod Z.of_nat (length ids)) in
  let order := drop k ids ++ take k ids in
  exists r, pickDeviceIndex layers cur ids = Some r /\
  match r with
  | AllDeviceBlocked => forall d, d ∈ ids -> is_blocked layers d = true
  | NoDevice => (exists d, d ∈ ids /\ is_blocked layers d = false) /\ forall d, d ∈ ids -> ~ usable layers d
  | Device d => exists before after, order = before ++ d :: after /\ usable layers d /\
      (forall d', d' ∈ before -> usable layers d' -> load_of layers d < load_of layers d') /\
      (forall d', d' ∈ after -> usable layers d' -> load_of layers d <= load_of layers d')
  end.
Proof.
  intros Hne Hc K k order. assert (0 < Z.of_nat (length ids)) as Hn by (destruct ids; [done|simpl; lia]).
  assert (cur mod Z.of_nat (length ids) = Z.of_nat k) as Ek.
  { unfold k. rewrite Z2Nat.id; [done|]. apply Z.mod_pos_bound. lia. }
  assert (k < length ids)%nat as Hk
    by (pose proof (Z.mod_pos_bound cur (Z.of_nat (length ids)) Hn); unfold k; lia).
  assert (forall d, d ∈ order <-> d ∈ ids) as Ho.
  { intros d. unfold order. rewrite (Permutation_app_comm (drop k ids)), take_drop. done. }
  assert (known layers order) as K'.
  { unfold known in *. rewrite Forall_forall in *. intros d Hd. by apply K, Ho. }
  destruct (scan_all layers order [] (mkScan (-1) INT_MAX 0) K') as (s & Es & [C N S]).
  { split; simpl; [done|intros _; split; [done|by intros d ?%not_elem_of_nil]|lia]. }
  unfold pickDeviceIndex. destruct (Z.eqb_spec (Z.of_nat (length ids)) 0); [lia|].
  rewrite Ek, (visit_order_rotate k ids Hk). simpl. fold order. rewrite Es. simpl.
  assert (length order = length ids) as Hlen by (unfold order; rewrite length_app, length_drop, length_take; lia).
  simpl in C, N, S. eexists. split; [done|].
  destruct (Z.leb_spec (Z.of_nat (length ids)) (block_count s)) as [Hb|Hb].
  - intros d Hd. rewrite C in Hb. apply Ho in Hd. destruct (is_blocked layers d) eqn:Ed; [done|exfalso].
    pose proof (length_filter_lt (fun d => is_blocked layers d = true) order d Hd ltac:(simpl; congruence)). lia.
  - destruct (Z.leb_spec 0 (device_index s)) as [Hd|Hd].
    + destruct (S Hd) as (b & a & -> & S2 & S3 & S4 & S5). rewrite S3 in S4, S5. by exists b, a.
    + destruct (N Hd) as [_ Hu]. split; [|intros d; rewrite <- Ho; apply Hu].
      destruct (unfiltered (fun d => is_blocked layers d = true) order) as (d & Hdo & Hx); [lia|].
      exists d. split; [by apply Ho|]. by destruct (is_blocked layers d).
Qed.

(** Device 1 is blocked; 0 and 2 have the same load, the rotation starts at 2. *)
Definition demo_layers : list layer := [mkLayer false 3 10; mkLayer true 0 10; mkLayer false 3 10].
Lemma pick_least_loaded_witness :
  exists r, pickDeviceIndex demo_layers 5 [0; 1; 2] = Some r /\ r <> NoDevice.
Proof.
  destruct (pick_least_loaded demo_layers 5 [0; 1; 2]) as (r & E & _); [done|lia| |].
  - repeat constructor; eexists; (split; [reflexivity|simpl; unfold INT_MAX; lia]).
  - exists r. split; [exact E|]. vm_compute in E. by injection E as <-.
Defined.

End DevicePool.
