(* ===== verification/DeviceTask.v ===== *)
(** * Client device layer: the path of a request through a device

    [lib/device_pool/acc_device_task_layer.cpp], [device_task_layer.cpp],
    [nfh_layer.cpp], [request_response_class.cpp], [lib/npu_memory_cache.cpp],
    [handler_que_template.h], [lib/request.cpp] ([releaseBuffers]): one device of a
    client process, its four worker queues, the slices of its tasks, the load counter,
    the stop gate and the recovery thread.

    An action is what one thread does between two points where it can block or fail.
    A thread that blocks is one whose action is not enabled; [StopGateThms] justifies
    this for the waits at the gate.  Requests are slots of the request pool.  The
    environment gives requests, lets the device answer, completes jobs, and decides which
    transfers fail. *)

From Stdlib Require Import ZArith Lia.
From S2P Require Import Prelude StopGate.

Module DeviceTask.
Import StopGate.

(** Where a request is. *)
Inductive phase :=
| Free               (** the slot is not in use *)
| Picked             (** [WaitDevice] chose the device; host buffers and [PrepareZeroCopyIo] next *)
| NfhQueue           (** queued for [NFHLayer::handleInput] *)
| AtGate             (** encoded; [InferenceRequest] at [WaitIfStopped] *)
| WaitSlice          (** [InferenceRequestACC], with a pass *)
| InQueue            (** queued for [InputHandler] *)
| InGate             (** [InputHandler] at [WaitIfStopped] *)
| Writing            (** the DMA of the input *)
| OnDevice
| OutQueue           (** answered, queued for [OutputHandler] *)
| OutGate            (** [OutputHandler] at [WaitIfStopped] *)
| Reading            (** the DMA of the output *)
| NfhOut             (** queued for [NFHLayer::handleOutput] *)
| Decoded            (** the job still uses the buffers *)
| Lost.              (** a transfer failed without a service *)
#[export] Instance phase_eq_dec : EqDecision phase.
Proof. solve_decision. Defined.

(** A slice of a task. *)
Definition slice : Type := Z * Z.

(** [sl] is [_ioSlice] or the entry of [_ongoingInputAllocations]. *)
Record req := mkReq { ph : phase; sl : option slice }.

(** The recovery thread. *)
Inductive recovery := RIdle | RStopping | RDraining | RIoctl.
#[export] Instance recovery_eq_dec : EqDecision recovery.
Proof. solve_decision. Defined.

Record dev := mkDev {
  dmaStopGate : gate;
  load_ : Z; inferenceCnt : Z;
  reqs : list req;
  free : list slice;             (** the pools of all tasks, most recent first *)
  nfh_in : list nat; in_q : list nat; out_q : list nat; nfh_out : list nat;
  blocked : bool; rec : recovery; recoveryEpoch : Z;
  exited : bool                  (** [std::_Exit] *)
}.

(** Updates of one field. *)
Definition with_gate (g : gate) (s : dev) : dev :=
  mkDev g (load_ s) (inferenceCnt s) (reqs s) (free s) (nfh_in s) (in_q s) (out_q s) (nfh_out s)
    (blocked s) (rec s) (recoveryEpoch s) (exited s).
Definition with_load (l c : Z) (s : dev) : dev :=
  mkDev (dmaStopGate s) l c (reqs s) (free s) (nfh_in s) (in_q s) (out_q s) (nfh_out s)
    (blocked s) (rec s) (recoveryEpoch s) (exited s).
Definition with_req (r : nat) (q : req) (s : dev) : dev :=
  mkDev (dmaStopGate s) (load_ s) (inferenceCnt s) (<[r := q]> (reqs s)) (free s)
    (nfh_in s) (in_q s) (out_q s) (nfh_out s) (blocked s) (rec s) (recoveryEpoch s) (exited s).
Definition with_free (l : list slice) (s : dev) : dev :=
  mkDev (dmaStopGate s) (load_ s) (inferenceCnt s) (reqs s) l (nfh_in s) (in_q s) (out_q s)
    (nfh_out s) (blocked s) (rec s) (recoveryEpoch s) (exited s).
Definition with_queues (a b c d : list nat) (s : dev) : dev :=
  mkDev (dmaStopGate s) (load_ s) (inferenceCnt s) (reqs s) (free s) a b c d
    (blocked s) (rec s) (recoveryEpoch s) (exited s).
Definition with_rec (b : bool) (r : recovery) (e : Z) (s : dev) : dev :=
  mkDev (dmaStopGate s) (load_ s) (inferenceCnt s) (reqs s) (free s) (nfh_in s) (in_q s) (out_q s)
    (nfh_out s) b r e (exited s).
Definition exit_process (s : dev) : dev :=
  mkDev (dmaStopGate s) (load_ s) (inferenceCnt s) (reqs s) (free s) (nfh_in s) (in_q s) (out_q s)
    (nfh_out s) (blocked s) (rec s) (recoveryEpoch s) true.

(** The device, its tasks and the environment. *)
Record env := mkEnv {
  runOnService : bool;
  task_of : nat -> Z;
  zero_copy : Z -> bool;          (** [PrepareZeroCopyIo] applies to the task: normal model, mapped slices *)
  nfhInputThreads : Z; inputThreads : Z; outputThreads : Z
}.

Definition DXRT_NPU_FULL_MAX_LOAD : Z := 10.

Definition in_phase (ps : list phase) (s : dev) : Z :=
  Z.of_nat (length (filter (fun q => ph q ∈ ps) (reqs s))).

Definition phase_of (r : nat) (s : dev) : phase :=
  match reqs s !! r with Some q => ph q | None => Free end.
Definition slice_of (r : nat) (s : dev) : option slice := q ← reqs s !! r; sl q.

(** [TaskNpuMemoryCacheManager::getNpuMemoryCache]: the slice returned last. *)
Fixpoint getNpuMemoryCache (t : Z) (l : list slice) : option (slice * list slice) :=
  match l with
  | [] => None
  | x :: l => if x.1 =? t then Some (x, l) else '(y, l') ← getNpuMemoryCache t l; Some (y, x :: l')
  end.
Definition returnNpuMemoryCache (x : slice) (l : list slice) : list slice := x :: l.

(** The gate: [WaitIfStopped] taking a pass, and its release. *)
Definition take_pass (g : gate) : gate :=
  mkGate (stop_flag g) (shutting_down g) (active_passes g + 1).
Definition drop_pass (g : gate) : gate :=
  mkGate (stop_flag g) (shutting_down g)
    (if 0 <? active_passes g then active_passes g - 1 else active_passes g).
Definition set_stop (b : bool) (g : gate) : gate := mkGate b (shutting_down g) (active_passes g).

(** [CallBack] *)
Definition CallBack (s : dev) : dev := with_load (load_ s - 1) (inferenceCnt s + 1) s.

Definition goto (p : phase) (r : nat) (s : dev) : dev := with_req r (mkReq p (slice_of r s)) s.

Section Device.
Context (e : env).

(** [WaitDevice] and [pick] *)
Definition Pick (r : nat) (s : dev) : option dev :=
  guard (is_Some (reqs s !! r) /\ phase_of r s = Free);;
  guard (blocked s = false /\ load_ s < DXRT_NPU_FULL_MAX_LOAD);;
  Some (with_load (load_ s + 1) (inferenceCnt s) (with_req r (mkReq Picked None) s)).

(** [RequestResponse::InferenceRequest]: no host buffer, the request is given up. *)
Definition BufferFails (r : nat) (s : dev) : option dev :=
  guard (phase_of r s = Picked);; Some (CallBack (with_req r (mkReq Free None) s)).

(** [PrepareZeroCopyIo], then the queue of the format handler. *)
Definition Prepare (r : nat) (s : dev) : option dev :=
  guard (phase_of r s = Picked);;
  '(x, l) ← (if runOnService e && zero_copy e (task_of e r)
             then '(x, l) ← getNpuMemoryCache (task_of e r) (free s); Some (Some x, l)
             else Some (None, free s));
  Some (with_queues (nfh_in s ++ [r]) (in_q s) (out_q s) (nfh_out s)
          (with_free l (with_req r (mkReq NfhQueue x) s))).

(** [NFHLayer::handleInput] *)
Definition NfhTake (r : nat) (s : dev) : option dev :=
  guard (in_phase [AtGate; WaitSlice] s < nfhInputThreads e);;
  match nfh_in s with
  | r' :: l =>
      guard (r' = r /\ phase_of r s = NfhQueue);;
      Some (with_queues l (in_q s) (out_q s) (nfh_out s) (goto AtGate r s))
  | [] => None
  end.

(** [InferenceRequest] *)
Definition TakePass (r : nat) (s : dev) : option dev :=
  guard (phase_of r s = AtGate /\ ready KPass (dmaStopGate s) = true);;
  Some (with_gate (take_pass (dmaStopGate s)) (goto WaitSlice r s)).

(** [InferenceRequestACC] from the slice on, and the end of the pass. *)
Definition AllocateSlice (r : nat) (s : dev) : option dev :=
  guard (phase_of r s = WaitSlice);;
  '(x, l) ← (match slice_of r s with
             | Some x => Some (x, free s)
             | None => getNpuMemoryCache (task_of e r) (free s)
             end);
  Some (with_gate (drop_pass (dmaStopGate s))
          (with_queues (nfh_in s) (in_q s ++ [r]) (out_q s) (nfh_out s)
             (with_free l (with_req r (mkReq InQueue (Some x)) s)))).

(** [InputHandler]: its pass is released at once. *)
Definition InTake (r : nat) (s : dev) : option dev :=
  guard (in_phase [InGate; Writing] s < inputThreads e);;
  match in_q s with
  | r' :: l =>
      guard (r' = r /\ phase_of r s = InQueue);;
      Some (with_queues (nfh_in s) l (out_q s) (nfh_out s) (goto InGate r s))
  | [] => None
  end.
Definition InPass (r : nat) (s : dev) : option dev :=
  guard (phase_of r s = InGate /\ ready KPass (dmaStopGate s) = true);;
  Some (with_gate (drop_pass (take_pass (dmaStopGate s))) (goto Writing r s)).

(** A failed transfer: [block], then [_Exit] under a service. *)
Definition dma_failed (r : nat) (s : dev) : dev :=
  let s1 := with_rec true (rec s) (recoveryEpoch s) s in
  if runOnService e then exit_process s1 else goto Lost r s1.

Definition Write (ok : bool) (r : nat) (s : dev) : option dev :=
  guard (phase_of r s = Writing);;
  Some (if ok then goto OnDevice r s else dma_failed r s).

(** [OutputReceiverThread] or [ProcessResponseFromService]; an answer with a recoverable
    error blocks the device and is dropped. *)
Definition Respond (ok : bool) (r : nat) (s : dev) : option dev :=
  guard (phase_of r s = OnDevice);;
  if ok then
    Some (with_queues (nfh_in s) (in_q s) (out_q s ++ [r]) (nfh_out s) (goto OutQueue r s))
  else
    guard (runOnService e = false);;
    Some (goto Lost r (with_rec true (rec s) (recoveryEpoch s) s)).

(** [OutputHandler] *)
Definition OutTake (r : nat) (s : dev) : option dev :=
  guard (in_phase [OutGate; Reading] s < outputThreads e);;
  match out_q s with
  | r' :: l =>
      guard (r' = r /\ phase_of r s = OutQueue);;
      Some (with_queues (nfh_in s) (in_q s) l (nfh_out s) (goto OutGate r s))
  | [] => None
  end.
Definition OutPass (r : nat) (s : dev) : option dev :=
  guard (phase_of r s = OutGate /\ ready KPass (dmaStopGate s) = true);;
  Some (with_gate (drop_pass (take_pass (dmaStopGate s))) (goto Reading r s)).
Definition Read (ok : bool) (r : nat) (s : dev) : option dev :=
  guard (phase_of r s = Reading);;
  Some (if ok then
          with_queues (nfh_in s) (in_q s) (out_q s) (nfh_out s ++ [r]) (goto NfhOut r (CallBack s))
        else dma_failed r s).

(** [NFHLayer::handleOutput] *)
Definition Decode (r : nat) (s : dev) : option dev :=
  match nfh_out s with
  | r' :: l =>
      guard (r' = r /\ phase_of r s = NfhOut);;
      Some (with_queues (nfh_in s) (in_q s) (out_q s) l (goto Decoded r s))
  | [] => None
  end.

(** [Request::releaseBuffers] at the end of the job, with [ReleaseInferenceCache]. *)
Definition ReleaseBuffers (r : nat) (s : dev) : option dev :=
  guard (phase_of r s = Decoded);;
  Some (with_free (match slice_of r s with Some x => returnNpuMemoryCache x (free s) | None => free s end)
          (with_req r (mkReq Free None) s)).

(** [triggerRecovery]: [SetStop(true)], [waitForInflightDmaCompletion], the command, and
    the reopening of the gate. *)
Definition TriggerRecovery (s : dev) : option dev :=
  guard (runOnService e = false /\ rec s = RIdle);;
  Some (with_gate (set_stop true (dmaStopGate s)) (with_rec (blocked s) RStopping (recoveryEpoch s) s)).
Definition Stopped (s : dev) : option dev :=
  guard (rec s = RStopping /\ ready KStop (dmaStopGate s) = true);;
  Some (with_rec (blocked s) RDraining (recoveryEpoch s) s).
Definition Drained (timeout : bool) (s : dev) : option dev :=
  guard (rec s = RDraining /\ (load_ s <= 0 \/ timeout = true));;
  Some (with_rec (blocked s) RIoctl (recoveryEpoch s) s).
Definition Recover (s : dev) : option dev :=
  guard (rec s = RIoctl);;
  Some (with_gate (set_stop false (dmaStopGate s)) (with_rec false RIdle (recoveryEpoch s + 1) s)).

(** ** Runs *)

(** What the threads do for the requests they have. *)
Inductive work :=
| WPrepare | WNfhTake | WTakePass | WAllocate | WInTake | WInPass | WWrite
| WRespond | WOutTake | WOutPass | WRead | WDecode | WRelease.
#[export] Instance work_eq_dec : EqDecision work.
Proof. solve_decision. Defined.

Inductive action :=
| APick (r : nat)
| ABufferFails (r : nat)
| AWork (w : work) (r : nat)
| AWriteFails (r : nat) | AResponseFails (r : nat) | AReadFails (r : nat)
| ATrigger | AStopped | ADrained (timeout : bool) | ARecover.

Definition do_work (w : work) : nat -> dev -> option dev :=
  match w with
  | WPrepare => Prepare | WNfhTake => NfhTake | WTakePass => TakePass | WAllocate => AllocateSlice
  | WInTake => InTake | WInPass => InPass | WWrite => Write true | WRespond => Respond true
  | WOutTake => OutTake | WOutPass => OutPass | WRead => Read true | WDecode => Decode
  | WRelease => ReleaseBuffers
  end.

Definition act (a : action) (s : dev) : option dev :=
  if exited s then None else
  match a with
  | APick r => Pick r s
  | ABufferFails r => BufferFails r s
  | AWork w r => do_work w r s
  | AWriteFails r => Write false r s
  | AResponseFails r => Respond false r s
  | AReadFails r => Read false r s
  | ATrigger => TriggerRecovery s
  | AStopped => Stopped s
  | ADrained b => Drained b s
  | ARecover => Recover s
  end.

Fixpoint acts (l : list action) (s : dev) : option dev :=
  match l with [] => Some s | a :: l => s' ← act a s; acts l s' end.

End Device.

(** [n] request slots and the slices of the registered tasks. *)
Definition init (n : nat) (slices : list slice) : dev :=
  mkDev (mkGate false false 0) 0 0 (replicate n (mkReq Free None)) slices [] [] [] []
    false RIdle 0 false.

End DeviceTask.
