(* ===== verification/DeviceTaskInv.v ===== *)
(** * Client device layer: the invariant

    The load counts the requests the device has not finished, the gate counts the
    threads inside, every slice is free or held by one request of its task, and every
    queue lists the requests that wait in it. *)

From Stdlib Require Import ZArith Lia.
From S2P Require Import Prelude StopGate DeviceTask.

Module DeviceTaskInv.
Import StopGate DeviceTask.

(** ** Sums over the requests *)

Definition total (f : phase -> Z) (s : dev) : Z := sum_Z (map (fun q => f (ph q)) (reqs s)).

Lemma sum_insert (f : req -> Z) l r q q' :
  l !! r = Some q -> sum_Z (map f (<[r := q']> l)) = sum_Z (map f l) - f q + f q'.
Proof.
  intros E. rewrite (insert_take_drop l r q') by (by eapply lookup_lt_Some).
  pose proof (take_drop_middle l r q E) as M. revert M.
  generalize (take r l) (drop (S r) l). intros l1 l2 <-.
  rewrite !map_app, !sum_Z_app. simpl. lia.
Qed.

Definition counted (p : phase) : Z :=
  match p with Free | NfhOut | Decoded => 0 | _ => 1 end.
Definition passing (p : phase) : Z := match p with WaitSlice => 1 | _ => 0 end.

(** ** Slices *)

Definition held (s : dev) : list slice := omap sl (reqs s).
Definition opt_list (x : option slice) : list slice := match x with Some x => [x] | None => [] end.

Lemma omap_insert_perm l r q q' :
  l !! r = Some q -> opt_list (sl q) ++ omap sl (<[r := q']> l) ≡ₚ opt_list (sl q') ++ omap sl l.
Proof.
  intros E. rewrite (insert_take_drop l r q') by (by eapply lookup_lt_Some).
  pose proof (take_drop_middle l r q E) as M. revert M.
  generalize (take r l) (drop (S r) l). intros l1 l2 <-.
  assert (forall q, omap sl (q :: l2) = opt_list (sl q) ++ omap sl l2) as C
    by (intros q0; simpl; by destruct (sl q0)).
  rewrite !omap_app, !C. generalize (opt_list (sl q)) (opt_list (sl q')) (omap sl l1) (omap sl l2).
  intros a b c d. rewrite (Permutation_app_comm a (c ++ b ++ d)), (assoc_L app b c), (Permutation_app_comm b c).
  rewrite <- !(assoc_L app). do 2 f_equiv. apply Permutation_app_comm.
Qed.

Lemma getNpuMemoryCache_perm t l x l' :
  getNpuMemoryCache t l = Some (x, l') -> x.1 = t /\ x :: l' ≡ₚ l.
Proof.
  revert l'. induction l as [|y l IH]; intros l'; simpl; [done|].
  destruct (Z.eqb_spec y.1 t); [by intros [= -> ->]|].
  intros ([z l2] & E & [= -> <-])%bind_Some. destruct (IH l2 E) as [-> P]. split; [done|].
  rewrite <- P. apply Permutation_swap.
Qed.

Lemma getNpuMemoryCache_some t l x : x ∈ l -> x.1 = t -> is_Some (getNpuMemoryCache t l).
Proof.
  intros Hx Ht. induction l as [|y l IH]; simpl; [by apply not_elem_of_nil in Hx|].
  destruct (Z.eqb_spec y.1 t); [by eexists|]. apply elem_of_cons in Hx as [->|Hx]; [congruence|].
  destruct (IH Hx) as [[z l'] ->]. by eexists.
Qed.

(** ** Queues *)

Definition queue_ok (P : phase) (q : list nat) (s : dev) : Prop :=
  NoDup q /\ forall r, r ∈ q <-> phase_of r s = P.

(** What a request that goes from [p] to [p'] does to the queue of phase [P]. *)
Definition queue_move (P p p' : phase) (r : nat) (q q' : list nat) : Prop :=
  if decide (p = P) then q = r :: q' else if decide (p' = P) then q' = q ++ [r] else q' = q.

Lemma queue_ok_move P p p' r q q' s s' :
  queue_ok P q s -> p <> p' -> P <> Free -> phase_of r s = p ->
  (forall r', phase_of r' s' = if decide (r' = r) then p' else phase_of r' s) ->
  queue_move P p p' r q q' -> queue_ok P q' s'.
Proof.
  intros [N M] Hp HF Er Es Hq. unfold queue_move in Hq.
  destruct (decide (p = P)) as [->|H1]; [|destruct (decide (p' = P)) as [->|H2]]; subst.
  - apply NoDup_cons in N as [Hn N]. split; [done|]. intros r'. rewrite Es.
    destruct (decide (r' = r)) as [->|Hr]; [|rewrite <- M, elem_of_cons; naive_solver].
    split; [done|]. intros E. by rewrite E in Hp.
  - split.
    + apply NoDup_app. split; [done|split; [|apply NoDup_singleton]].
      intros x Hx ->%list_elem_of_singleton. by apply M in Hx.
    + intros r'. rewrite Es, elem_of_app, list_elem_of_singleton, M.
      destruct (decide (r' = r)) as [->|Hr]; naive_solver.
  - split; [done|]. intros r'. rewrite Es. destruct (decide (r' = r)) as [->|Hr]; [|apply M].
    rewrite M. split; congruence.
Qed.

(** ** The invariant *)

(** What a request holds in a phase: nothing, a slice, or perhaps one. *)
Definition holds (p : phase) (x : option slice) : Prop :=
  match p with
  | Free | Picked => x = None
  | NfhQueue | AtGate | WaitSlice => True
  | _ => is_Some x
  end.

Section Inv.
Context (e : env) (all : list slice).

Record inv (s : dev) : Prop := {
  i_load : load_ s = total counted s;
  i_bound : load_ s <= DXRT_NPU_FULL_MAX_LOAD;
  i_pass : active_passes (dmaStopGate s) = total passing s;
  i_slices : free s ++ held s ≡ₚ all;
  i_holds r q : reqs s !! r = Some q ->
    holds (ph q) (sl q) /\ (forall x, sl q = Some x -> x.1 = task_of e r) /\
    (runOnService e && zero_copy e (task_of e r) = true -> ph q <> Free -> ph q <> Picked -> is_Some (sl q)) /\
    (runOnService e && zero_copy e (task_of e r) = false -> ph q = NfhQueue \/ ph q = AtGate \/ ph q = WaitSlice -> sl q = None);
  i_nfh_in : queue_ok NfhQueue (nfh_in s) s;
  i_in : queue_ok InQueue (in_q s) s;
  i_out : queue_ok OutQueue (out_q s) s;
  i_nfh_out : queue_ok NfhOut (nfh_out s) s;
  i_shut : shutting_down (dmaStopGate s) = false;
  i_stop : stop_flag (dmaStopGate s) = true <-> rec s <> RIdle;
  i_service : runOnService e = true -> rec s = RIdle /\ forall r, phase_of r s <> Lost
}.

Lemma total_nonneg f s : (forall p, 0 <= f p) -> 0 <= total f s.
Proof. intros Hf. unfold total. induction (reqs s) as [|q l IH]; simpl; [lia|]. specialize (Hf (ph q)). lia. Qed.

(** One request moves, and nothing happens to the recovery. *)
Record moves (r : nat) (p p' : phase) (x' : option slice) (s s' : dev) : Prop := {
  m_valid : is_Some (reqs s !! r);
  m_from : phase_of r s = p;
  m_ne : p <> p';
  m_reqs : reqs s' = <[r := mkReq p' x']> (reqs s);
  m_load : load_ s' = load_ s - counted p + counted p';
  m_bound : load_ s' <= DXRT_NPU_FULL_MAX_LOAD;
  m_pass : active_passes (dmaStopGate s') = active_passes (dmaStopGate s) - passing p + passing p';
  m_slices : free s' ++ opt_list x' ≡ₚ free s ++ opt_list (slice_of r s);
  m_holds : holds p' x' /\ (forall x, x' = Some x -> x.1 = task_of e r) /\
    (runOnService e && zero_copy e (task_of e r) = true -> p' <> Free -> p' <> Picked -> is_Some x') /\
    (runOnService e && zero_copy e (task_of e r) = false -> p' = NfhQueue \/ p' = AtGate \/ p' = WaitSlice -> x' = None);
  m_nfh_in : queue_move NfhQueue p p' r (nfh_in s) (nfh_in s');
  m_in : queue_move InQueue p p' r (in_q s) (in_q s');
  m_out : queue_move OutQueue p p' r (out_q s) (out_q s');
  m_nfh_out : queue_move NfhOut p p' r (nfh_out s) (nfh_out s');
  m_shut : shutting_down (dmaStopGate s') = shutting_down (dmaStopGate s);
  m_stop : stop_flag (dmaStopGate s') = stop_flag (dmaStopGate s);
  m_rec : rec s' = rec s;
  m_service : runOnService e = true -> p' <> Lost
}.

Lemma moves_phase r p p' x' s s' : moves r p p' x' s s' ->
  forall r', phase_of r' s' = if decide (r' = r) then p' else phase_of r' s.
Proof.
  intros M r'. unfold phase_of. rewrite (m_reqs _ _ _ _ _ _ M).
  destruct (m_valid _ _ _ _ _ _ M) as [q Eq]. destruct (decide (r' = r)) as [->|Hr].
  - by rewrite list_lookup_insert_eq by (by eapply lookup_lt_Some).
  - by rewrite list_lookup_insert_ne.
Qed.

Lemma phase_lookup r s q : reqs s !! r = Some q -> phase_of r s = ph q /\ slice_of r s = sl q.
Proof. intros E. unfold phase_of, slice_of. by rewrite E. Qed.

Lemma moves_total r p p' x' s s' f : moves r p p' x' s s' -> total f s' = total f s - f p + f p'.
Proof.
  intros M. unfold total. rewrite (m_reqs _ _ _ _ _ _ M). destruct (m_valid _ _ _ _ _ _ M) as [q Eq].
  rewrite (sum_insert _ _ _ q) by done. simpl.
  by rewrite <- (m_from _ _ _ _ _ _ M), (proj1 (phase_lookup _ _ _ Eq)).
Qed.

Lemma moves_slices r p p' x' s s' : moves r p p' x' s s' ->
  free s ++ held s ≡ₚ all -> free s' ++ held s' ≡ₚ all.
Proof.
  intros M P. unfold held in *. rewrite (m_reqs _ _ _ _ _ _ M).
  destruct (m_valid _ _ _ _ _ _ M) as [q Eq].
  pose proof (omap_insert_perm (reqs s) r q (mkReq p' x') Eq) as O. simpl in O.
  pose proof (m_slices _ _ _ _ _ _ M) as F. rewrite (proj2 (phase_lookup _ _ _ Eq)) in F.
  apply (Permutation_app_inv_l (opt_list (sl q))). rewrite <- P.
  rewrite (Permutation_app_comm (opt_list (sl q)) (free s ++ _)), <- (assoc_L app).
  rewrite (assoc_L app), (Permutation_app_comm (opt_list (sl q)) (free s')), <- (assoc_L app), O.
  rewrite (assoc_L app), F, <- (assoc_L app). f_equiv. apply Permutation_app_comm.
Qed.

Lemma inv_move r p p' x' s s' : inv s -> moves r p p' x' s s' -> inv s'.
Proof.
  intros I M. pose proof (moves_phase _ _ _ _ _ _ M) as Ep.
  pose proof (moves_total _ _ _ _ _ _ counted M) as Tc. pose proof (moves_total _ _ _ _ _ _ passing M) as Tp.
  assert (forall P q q', P <> Free -> queue_ok P q s -> queue_move P p p' r q q' -> queue_ok P q' s') as Q
    by (intros P q q' HF Hq Hm; eapply queue_ok_move; [exact Hq|by eapply m_ne|done|by eapply m_from|exact Ep|done]).
  split.
  - rewrite (m_load _ _ _ _ _ _ M), (i_load s I). lia.
  - by eapply m_bound.
  - rewrite (m_pass _ _ _ _ _ _ M), (i_pass s I). lia.
  - by eapply moves_slices, (i_slices s I).
  - intros r' q E. rewrite (m_reqs _ _ _ _ _ _ M) in E. destruct (decide (r' = r)) as [->|Hr].
    + destruct (m_valid _ _ _ _ _ _ M) as [q0 Eq0].
      rewrite list_lookup_insert_eq in E by (by eapply lookup_lt_Some). injection E as <-. simpl.
      by apply (m_holds _ _ _ _ _ _ M).
    + rewrite list_lookup_insert_ne in E by done. by apply (i_holds s I).
  - eapply Q; [done|exact (i_nfh_in s I)|by eapply m_nfh_in].
  - eapply Q; [done|exact (i_in s I)|by eapply m_in].
  - eapply Q; [done|exact (i_out s I)|by eapply m_out].
  - eapply Q; [done|exact (i_nfh_out s I)|by eapply m_nfh_out].
  - rewrite (m_shut _ _ _ _ _ _ M). apply I.
  - rewrite (m_stop _ _ _ _ _ _ M), (m_rec _ _ _ _ _ _ M). apply I.
  - intros Hs. rewrite (m_rec _ _ _ _ _ _ M). destruct (i_service s I Hs) as [H1 H2]. split; [done|].
    intros r'. rewrite Ep. destruct (decide (r' = r)); [by eapply m_service|apply H2].
Qed.

(** The recovery moves, the requests do not. *)
Lemma inv_other s s' : inv s -> reqs s' = reqs s -> load_ s' = load_ s -> free s' = free s ->
  nfh_in s' = nfh_in s -> in_q s' = in_q s -> out_q s' = out_q s -> nfh_out s' = nfh_out s ->
  active_passes (dmaStopGate s') = active_passes (dmaStopGate s) ->
  shutting_down (dmaStopGate s') = shutting_down (dmaStopGate s) ->
  (stop_flag (dmaStopGate s') = true <-> rec s' <> RIdle) ->
  (runOnService e = true -> rec s' = RIdle) -> inv s'.
Proof.
  intros [] E1 E2 E3 E4 E5 E6 E7 E8 E9 E10 E11.
  assert (forall r, phase_of r s' = phase_of r s) as Ep by (intros; unfold phase_of; by rewrite E1).
  assert (forall P q, queue_ok P q s -> queue_ok P q s') as Q
    by (intros P q [N M]; split; [done|]; intros; rewrite Ep; apply M).
  split; unfold total, held; rewrite ?E1, ?E2, ?E3, ?E4, ?E5, ?E6, ?E7, ?E8, ?E9; auto.
  intros Hs. split; [auto|]. intros r. rewrite Ep. by apply i_service0.
Qed.

End Inv.
End DeviceTaskInv.
