(* ===== verification/DeviceTaskRuns.v ===== *)
(** * Client device layer: every action keeps the invariant *)

From Stdlib Require Import ZArith Lia.
From S2P Require Import Prelude StopGate DeviceTask DeviceTaskInv.

Module DeviceTaskRuns.
Import StopGate DeviceTask DeviceTaskInv.

Section Runs.
Context (e : env) (all : list slice).
Implicit Types s : dev.

Lemma phase_valid r s : phase_of r s <> Free -> is_Some (reqs s !! r).
Proof. unfold phase_of. destruct (reqs s !! r) as [q|]; [by eexists|done]. Qed.

(** What a request in use holds. *)
Lemma inv_holds r s p : inv e all s -> phase_of r s = p -> p <> Free ->
  holds p (slice_of r s) /\ (forall x, slice_of r s = Some x -> x.1 = task_of e r) /\
  (runOnService e && zero_copy e (task_of e r) = true -> p <> Free -> p <> Picked -> is_Some (slice_of r s)) /\
  (runOnService e && zero_copy e (task_of e r) = false -> p = NfhQueue \/ p = AtGate \/ p = WaitSlice -> slice_of r s = None).
Proof.
  intros I <- Hp. destruct (phase_valid r s Hp) as [q Eq].
  destruct (phase_lookup r s q Eq) as [-> ->]. by apply (i_holds _ _ _ I).
Qed.

Lemma passes_nonneg s : inv e all s -> 0 <= active_passes (dmaStopGate s).
Proof. intros I. rewrite (i_pass _ _ _ I). apply total_nonneg. by intros []. Qed.

Lemma sum_member (f : req -> Z) l r q : (forall q, 0 <= f q) -> l !! r = Some q -> f q <= sum_Z (map f l).
Proof.
  intros Hf. revert r. induction l as [|y l IH]; intros r E; [done|]. simpl.
  assert (0 <= sum_Z (map f l)) by (clear -Hf; induction l as [|z l IH]; simpl; [lia|]; specialize (Hf z); lia).
  destruct r as [|r]; simpl in E.
  - injection E as ->. lia.
  - specialize (IH r E). specialize (Hf y). lia.
Qed.

Lemma total_member f s r p : (forall p, 0 <= f p) -> p <> Free -> phase_of r s = p -> f p <= total f s.
Proof.
  intros Hf Hp <-. destruct (phase_valid r s Hp) as [q Eq]. rewrite (proj1 (phase_lookup r s q Eq)).
  by apply (sum_member (fun q => f (ph q)) (reqs s) r q).
Qed.

Lemma pass_positive r s : inv e all s -> phase_of r s = WaitSlice -> 0 < active_passes (dmaStopGate s).
Proof.
  intros I E. rewrite (i_pass _ _ _ I).
  pose proof (total_member passing s r WaitSlice ltac:(by intros []) ltac:(done) E). simpl in *. lia.
Qed.

Ltac queue := first [exact eq_refl | assumption].

(** A request that keeps its slice. *)
Lemma inv_goto r p p' s s' :
  inv e all s -> phase_of r s = p -> p <> Free -> p <> p' ->
  reqs s' = <[r := mkReq p' (slice_of r s)]> (reqs s) -> free s' = free s ->
  load_ s' = load_ s - counted p + counted p' -> counted p' <= counted p ->
  active_passes (dmaStopGate s') = active_passes (dmaStopGate s) - passing p + passing p' ->
  (holds p (slice_of r s) -> p' = AtGate \/ p' = WaitSlice \/ is_Some (slice_of r s)) ->
  p' <> Free -> p' <> Picked -> p' <> NfhQueue ->
  (p' = AtGate \/ p' = WaitSlice -> p = NfhQueue \/ p = AtGate) ->
  queue_move NfhQueue p p' r (nfh_in s) (nfh_in s') -> queue_move InQueue p p' r (in_q s) (in_q s') ->
  queue_move OutQueue p p' r (out_q s) (out_q s') -> queue_move NfhOut p p' r (nfh_out s) (nfh_out s') ->
  shutting_down (dmaStopGate s') = shutting_down (dmaStopGate s) ->
  stop_flag (dmaStopGate s') = stop_flag (dmaStopGate s) -> rec s' = rec s ->
  (runOnService e = true -> p' <> Lost) -> inv e all s'.
Proof.
  intros I Ep HF Hne Er Ef El Hc Ea Hs H1 H2 H3 H4 Q1 Q2 Q3 Q4 G1 G2 G3 Hl.
  apply (inv_move e all r p p' (slice_of r s) s s' I).
  destruct (inv_holds r s p I Ep HF) as (Hh & Hown & Hz & Hn).
  split; try done.
  - apply phase_valid. by rewrite Ep.
  - rewrite El. pose proof (i_bound _ _ _ I). lia.
  - by rewrite Ef.
  - split; [|split; [done|split]].
    + destruct (Hs Hh) as [->|[->|?]]; [done|done|]. by destruct p'.
    + intros Hrz _ _. destruct (Hs Hh) as [Ha|[Ha|?]]; [| |done]; apply Hz; try done;
        destruct (H4 ltac:(tauto)); congruence.
    + intros Hrz [?|[?|?]]; [done| |]; (apply Hn; [done|]); destruct (H4 ltac:(tauto)); tauto.
Qed.

Ltac go r p p' s := apply (inv_goto r p p' s); try done; try (simpl; lia); try (by intros; simpl; tauto);
  try (by intros; right; right);
  try (by intros [?|?]); try (simpl in *; lia).

Lemma NfhTake_inv r s s' : inv e all s -> NfhTake e r s = Some s' -> inv e all s'.
Proof.
  intros I [_ E]%guard_Some. destruct (nfh_in s) as [|r' l] eqn:Eq; [done|].
  apply guard_Some in E as [[-> Ep] [= <-]]. go r NfhQueue AtGate s.
Qed.

Lemma TakePass_inv r s s' : inv e all s -> TakePass r s = Some s' -> inv e all s'.
Proof. intros I [[Ep _] [= <-]]%guard_Some. go r AtGate WaitSlice s. Qed.

Lemma InTake_inv r s s' : inv e all s -> InTake e r s = Some s' -> inv e all s'.
Proof.
  intros I [_ E]%guard_Some. destruct (in_q s) as [|r' l] eqn:Eq; [done|].
  apply guard_Some in E as [[-> Ep] [= <-]]. go r InQueue InGate s.
Qed.

Lemma OutTake_inv r s s' : inv e all s -> OutTake e r s = Some s' -> inv e all s'.
Proof.
  intros I [_ E]%guard_Some. destruct (out_q s) as [|r' l] eqn:Eq; [done|].
  apply guard_Some in E as [[-> Ep] [= <-]]. go r OutQueue OutGate s.
Qed.

Lemma Decode_inv r s s' : inv e all s -> Decode r s = Some s' -> inv e all s'.
Proof.
  intros I E. unfold Decode in E. destruct (nfh_out s) as [|r' l] eqn:Eq; [done|].
  apply guard_Some in E as [[-> Ep] [= <-]]. go r NfhOut Decoded s.
Qed.

(** A pass taken and released at once. *)
Lemma gate_noop s : inv e all s ->
  active_passes (drop_pass (take_pass (dmaStopGate s))) = active_passes (dmaStopGate s).
Proof.
  intros I. pose proof (passes_nonneg s I). simpl.
  destruct (Z.ltb_spec 0 (active_passes (dmaStopGate s) + 1)); lia.
Qed.

Lemma InPass_inv r s s' : inv e all s -> InPass r s = Some s' -> inv e all s'.
Proof.
  intros I [[Ep _] [= <-]]%guard_Some. pose proof (gate_noop s I). go r InGate Writing s.
Qed.

Lemma OutPass_inv r s s' : inv e all s -> OutPass r s = Some s' -> inv e all s'.
Proof.
  intros I [[Ep _] [= <-]]%guard_Some. pose proof (gate_noop s I). go r OutGate Reading s.
Qed.

(** The process ends or the request is lost. *)
Lemma inv_blocked b s : inv e all s -> inv e all (with_rec b (rec s) (recoveryEpoch s) s).
Proof. intros I. apply (inv_other e all s); try done; [apply I|]. intros Hs. by apply I. Qed.

Lemma lost_inv r p b s : inv e all s -> phase_of r s = p -> p = Writing \/ p = OnDevice \/ p = Reading ->
  runOnService e = false -> inv e all (goto Lost r (with_rec b (rec s) (recoveryEpoch s) s)).
Proof. intros I Ep Hp Hs. destruct Hp as [->|[->| ->]]; [go r Writing Lost s|go r OnDevice Lost s|go r Reading Lost s]; congruence. Qed.

Lemma dma_failed_inv r p s : inv e all s -> phase_of r s = p -> p = Writing \/ p = Reading ->
  inv e all (dma_failed e r s).
Proof.
  intros I Ep Hp. unfold dma_failed. destruct (runOnService e) eqn:Es.
  - apply (inv_other e all s); try done; [apply I|]. intros Hs. by apply I.
  - by apply (lost_inv r p true s I Ep); [tauto|].
Qed.

Lemma Write_inv ok r s s' : inv e all s -> Write e ok r s = Some s' -> inv e all s'.
Proof.
  intros I [Ep [= <-]]%guard_Some. destruct ok; [go r Writing OnDevice s|].
  apply (dma_failed_inv r Writing s I Ep). by left.
Qed.

Lemma Respond_inv ok r s s' : inv e all s -> Respond e ok r s = Some s' -> inv e all s'.
Proof.
  intros I [Ep E]%guard_Some. destruct ok; [injection E as <-; go r OnDevice OutQueue s|].
  apply guard_Some in E as [Hs [= <-]]. apply (lost_inv r OnDevice true s I Ep); tauto.
Qed.

Lemma Read_inv ok r s s' : inv e all s -> Read e ok r s = Some s' -> inv e all s'.
Proof.
  intros I [Ep [= <-]]%guard_Some. destruct ok; [go r Reading NfhOut s|].
  apply (dma_failed_inv r Reading s I Ep). by right.
Qed.

(** ** Slices change hands *)

Lemma Pick_inv r s s' : inv e all s -> Pick r s = Some s' -> inv e all s'.
Proof.
  intros I [[Hv Ep] [[_ Hl] [= <-]]%guard_Some]%guard_Some.
  apply (inv_move e all r Free Picked None s _ I). destruct Hv as [q Eq].
  destruct (phase_lookup r s q Eq) as [P S]. pose proof (i_holds _ _ _ I r q Eq) as [Hh _].
  rewrite <- P, Ep, <- S in Hh. simpl in Hh.
  split; try done; try (simpl; lia). by rewrite Hh.
Qed.

Lemma BufferFails_inv r s s' : inv e all s -> BufferFails r s = Some s' -> inv e all s'.
Proof.
  intros I [Ep [= <-]]%guard_Some.
  destruct (inv_holds r s Picked I Ep ltac:(done)) as [Hh _]. simpl in Hh.
  apply (inv_move e all r Picked Free None s _ I). pose proof (i_bound _ _ _ I).
  split; try done; try (simpl; lia); [apply phase_valid; by rewrite Ep|by rewrite Hh].
Qed.

Lemma Prepare_inv r s s' : inv e all s -> Prepare e r s = Some s' -> inv e all s'.
Proof.
  intros I [Ep E]%guard_Some. apply bind_Some in E as ([x l] & Ex & [= <-]).
  destruct (inv_holds r s Picked I Ep ltac:(done)) as [Hh _]. simpl in Hh.
  apply (inv_move e all r Picked NfhQueue x s _ I). pose proof (i_bound _ _ _ I).
  assert (l ++ opt_list x ≡ₚ free s /\ (forall y, x = Some y -> y.1 = task_of e r) /\
    (runOnService e && zero_copy e (task_of e r) = true -> is_Some x) /\
    (runOnService e && zero_copy e (task_of e r) = false -> x = None)) as (P & O & Z1 & Z2).
  { destruct (runOnService e && zero_copy e (task_of e r)) eqn:Ez.
    - apply bind_Some in Ex as ([y l'] & Ey & [= <- <-]).
      apply getNpuMemoryCache_perm in Ey as [Ht P]. split; [|split; [by intros z [= <-]|done]].
      simpl. by rewrite Permutation_app_comm.
    - injection Ex as <- <-. by rewrite app_nil_r. }
  split; try done; try (simpl; lia); [apply phase_valid; by rewrite Ep|simpl; rewrite Hh; by rewrite app_nil_r|].
  split; [done|split; [done|split; [intros Hz _ _; exact (Z1 Hz)|intros Hz _; exact (Z2 Hz)]]].
Qed.

Lemma AllocateSlice_inv r s s' : inv e all s -> AllocateSlice e r s = Some s' -> inv e all s'.
Proof.
  intros I [Ep E]%guard_Some. apply bind_Some in E as ([x l] & Ex & [= <-]).
  destruct (inv_holds r s WaitSlice I Ep ltac:(done)) as (_ & Hown & _).
  pose proof (pass_positive r s I Ep). pose proof (i_bound _ _ _ I).
  apply (inv_move e all r WaitSlice InQueue (Some x) s _ I).
  assert (l ++ [x] ≡ₚ free s ++ opt_list (slice_of r s) /\ x.1 = task_of e r) as [P O].
  { destruct (slice_of r s) as [y|]; simpl.
    - injection Ex as <- <-. split; [done|by apply Hown].
    - apply getNpuMemoryCache_perm in Ex as [Ht P]. rewrite app_nil_r. split; [|done].
      by rewrite Permutation_app_comm. }
  split; try done; try (simpl; lia).
  - apply phase_valid. by rewrite Ep.
  - simpl. destruct (Z.ltb_spec 0 (active_passes (dmaStopGate s))); lia.
  - split; [by eexists|split; [by intros z [= <-]|split; [by eexists|]]]. intros _ [?|[?|?]]; done.
Qed.

Lemma ReleaseBuffers_inv r s s' : inv e all s -> ReleaseBuffers r s = Some s' -> inv e all s'.
Proof.
  intros I [Ep [= <-]]%guard_Some.
  apply (inv_move e all r Decoded Free None s _ I). pose proof (i_bound _ _ _ I).
  split; try done; try (simpl; lia).
  - apply phase_valid. by rewrite Ep.
  - simpl. rewrite app_nil_r. destruct (slice_of r s) as [x|]; simpl; [|by rewrite app_nil_r].
    unfold returnNpuMemoryCache. by rewrite (Permutation_app_comm (free s)).
Qed.

(** ** Every action *)

Lemma do_work_inv w r s s' : inv e all s -> do_work e w r s = Some s' -> inv e all s'.
Proof.
  intros I. destruct w; simpl;
    [apply Prepare_inv|apply NfhTake_inv|apply TakePass_inv|apply AllocateSlice_inv|apply InTake_inv
    |apply InPass_inv|apply Write_inv|apply Respond_inv|apply OutTake_inv|apply OutPass_inv
    |apply Read_inv|apply Decode_inv|apply ReleaseBuffers_inv]; done.
Qed.

Lemma recovery_inv a s s' : inv e all s ->
  match a with ATrigger | AStopped | ADrained _ | ARecover => True | _ => False end ->
  act e a s = Some s' -> inv e all s'.
Proof.
  intros I Ha E. unfold act in E. destruct (exited s); [done|].
  destruct a; try done; apply guard_Some in E as [H [= <-]];
    apply (inv_other e all s); try done; simpl; try (rewrite (i_stop _ _ _ I));
    destruct H as [H1 H2] || idtac; try (split; congruence); try congruence;
    try (intros Hs; pose proof (proj1 (i_service _ _ _ I Hs)); congruence).
Qed.

Lemma act_inv a s s' : inv e all s -> act e a s = Some s' -> inv e all s'.
Proof.
  intros I E. pose proof E as E0. unfold act in E. destruct (exited s); [done|].
  destruct a; [revert E; by apply Pick_inv|revert E; by apply BufferFails_inv|revert E; by apply do_work_inv
    |revert E; by apply Write_inv|revert E; by apply Respond_inv|revert E; by apply Read_inv|..];
    (eapply (recovery_inv _ s s' I); [|exact E0]; done).
Qed.

Lemma acts_inv l s s' : inv e all s -> acts e l s = Some s' -> inv e all s'.
Proof.
  revert s. induction l as [|a l IH]; intros s I; simpl; [by intros [= <-]|].
  intros (s1 & E & E')%bind_Some. eapply IH; [|exact E']. by eapply act_inv.
Qed.

Lemma omap_idle n : omap sl (replicate n (mkReq Free None)) = [].
Proof. induction n; [done|]. by simpl. Qed.

Lemma init_inv n : inv e all (init n all).
Proof.
  assert (forall r, phase_of r (init n all) = Free) as Ep.
  { intros r. unfold phase_of, init. simpl. destruct (replicate n _ !! r) eqn:Er; [|done].
    apply lookup_replicate in Er as [-> _]. done. }
  assert (forall f, f Free = 0 -> total f (init n all) = 0) as Et.
  { intros f Hf. unfold total, init. simpl. induction n as [|n IH]; [done|]. simpl in *. rewrite Hf, IH; [done|].
    intros r. specialize (Ep (S r)). done. }
  assert (forall P, P <> Free -> queue_ok P [] (init n all)) as Q.
  { intros P HP. split; [constructor|]. intros r. rewrite Ep. split; [by intros ?%not_elem_of_nil|congruence]. }
  split; try (by apply Q); try done.
  - by rewrite Et.
  - by rewrite Et.
  - unfold held, init. simpl. rewrite omap_idle.
    by rewrite app_nil_r.
  - intros r q Eq. apply lookup_replicate in Eq as [-> _]. simpl. split; [done|split; [done|split; [done|]]].
    intros _ [?|[?|?]]; done.
  - intros Hs. split; [done|]. intros r. by rewrite Ep.
Qed.

End Runs.
End DeviceTaskRuns.

(** * Client device layer: theorems

    The resources of a device are accounted for, requests that are not hit by a failure
    all finish, and two ways in which the recovery of a device gets stuck. *)


Module DeviceTaskThms.
Import StopGate DeviceTask DeviceTaskInv DeviceTaskRuns.

(** ** Counting *)

Lemma total_in_phase f ps s :
  (forall p, f p = if decide (p ∈ ps) then 1 else 0) -> total f s = in_phase ps s.
Proof.
  intros Hf. unfold total, in_phase. induction (reqs s) as [|q l IH]; [done|].
  simpl. rewrite filter_cons, Hf, IH. destruct (decide (ph q ∈ ps)); simpl; lia.
Qed.

Lemma in_phase_pos ps s : 0 < in_phase ps s -> exists r q, reqs s !! r = Some q /\ ph q ∈ ps.
Proof.
  unfold in_phase. intros H. destruct (filter (fun q => ph q ∈ ps) (reqs s)) as [|q l] eqn:E; [simpl in H; lia|].
  assert (q ∈ filter (fun q => ph q ∈ ps) (reqs s)) as Hq by (rewrite E; left).
  apply list_elem_of_filter in Hq as [Hp Hq]. apply list_elem_of_lookup in Hq as [r Er]. by exists r, q.
Qed.

Lemma in_phase_pos_2 ps s r q : reqs s !! r = Some q -> ph q ∈ ps -> 0 < in_phase ps s.
Proof.
  intros E Hp. unfold in_phase.
  assert (q ∈ filter (fun q => ph q ∈ ps) (reqs s)) as Hq
    by (apply list_elem_of_filter; split; [done|by eapply list_elem_of_lookup_2]).
  destruct (filter _ (reqs s)); [by apply not_elem_of_nil in Hq|]. simpl. lia.
Qed.

(** Some request is in phase [p], or none is. *)
Lemma phase_cases p s : p <> Free ->
  (exists r, phase_of r s = p) \/ (forall r, phase_of r s <> p).
Proof.
  intros Hp. destruct (decide (0 < in_phase [p] s)) as [H|H].
  - left. apply in_phase_pos in H as (r & q & E & Hq). apply list_elem_of_singleton in Hq.
    exists r. by rewrite (proj1 (phase_lookup r s q E)).
  - right. intros r Er. apply H. destruct (phase_valid r s ltac:(by rewrite Er)) as [q E].
    apply (in_phase_pos_2 [p] s r q E). apply list_elem_of_singleton.
    by rewrite <- (proj1 (phase_lookup r s q E)).
Qed.

Lemma in_phase_zero ps s : (forall p, p ∈ ps -> forall r, phase_of r s <> p) -> in_phase ps s = 0.
Proof.
  intros H. destruct (decide (0 < in_phase ps s)) as [Hp|Hp]; [|unfold in_phase in *; lia].
  apply in_phase_pos in Hp as (r & q & E & Hq). exfalso.
  apply (H (ph q) Hq r). by apply phase_lookup in E as [-> _].
Qed.

(** ** Resources *)

(** The phases the load counts, and those in which a request has its slice. *)
Definition outstanding : list phase :=
  [Picked; NfhQueue; AtGate; WaitSlice; InQueue; InGate; Writing; OnDevice; OutQueue; OutGate; Reading; Lost].
Definition with_slice : list phase :=
  [InQueue; InGate; Writing; OnDevice; OutQueue; OutGate; Reading; NfhOut; Decoded; Lost].

Lemma slices_distinct e all s r1 r2 x :
  inv e all s -> NoDup all -> slice_of r1 s = Some x -> slice_of r2 s = Some x -> r1 = r2.
Proof.
  intros I Hn E1 E2. assert (NoDup (held s)) as Hd.
  { assert (NoDup (free s ++ held s)) as Hp by (by rewrite (i_slices e all s I)). by apply NoDup_app in Hp as (_ & _ & Hp). }
  unfold held, slice_of in *. apply bind_Some in E1 as (q1 & E1 & F1). apply bind_Some in E2 as (q2 & E2 & F2).
  clear I. revert r1 r2 E1 E2 Hd. induction (reqs s) as [|q l IH]; intros r1 r2 E1 E2 Hd; [done|].
  assert (forall r q, l !! r = Some q -> sl q = Some x -> x ∈ omap sl l) as Hin
    by (intros r q' E' F'; apply list_elem_of_omap; exists q'; split; [by eapply list_elem_of_lookup_2|done]).
  destruct r1 as [|r1], r2 as [|r2]; simpl in *; [done| | |].
  - injection E1 as ->. rewrite F1 in Hd. apply NoDup_cons in Hd as [Hd _]. by destruct Hd; eapply Hin.
  - injection E2 as ->. rewrite F2 in Hd. apply NoDup_cons in Hd as [Hd _]. by destruct Hd; eapply Hin.
  - f_equal. apply IH; [done|done|]. destruct (sl q); [by apply NoDup_cons in Hd as [_ Hd]|done].
Qed.

(** The resources of a device, in every interleaving: the load is the number of
    requests it was picked for and has not finished, at most 10; the slices are those of
    the pools, each free or held by one request of its task; a request has its slice from
    the input queue until its job releases it; the gate counts the threads that wait for
    a slice. *)
Theorem device_resources e n all l s :
  NoDup all -> acts e l (init n all) = Some s ->
  load_ s = in_phase outstanding s /\ 0 <= load_ s <= DXRT_NPU_FULL_MAX_LOAD /\
  free s ++ held s ≡ₚ all /\
  (forall r1 r2 x, slice_of r1 s = Some x -> slice_of r2 s = Some x -> r1 = r2) /\
  (forall r x, slice_of r s = Some x -> x.1 = task_of e r) /\
  (forall r, phase_of r s ∈ with_slice -> is_Some (slice_of r s)) /\
  active_passes (dmaStopGate s) = in_phase [WaitSlice] s.
Proof.
  intros Hn E. assert (inv e all s) as I by (eapply acts_inv; [apply init_inv|exact E]).
  rewrite <- (total_in_phase counted outstanding) by (intros []; reflexivity).
  rewrite <- (total_in_phase passing [WaitSlice]) by (intros []; reflexivity).
  split; [apply I|split; [|split; [apply I|split; [|split; [|split; [|apply I]]]]]].
  - split; [rewrite (i_load e all s I); apply total_nonneg; by intros []|apply I].
  - intros r1 r2 x. by eapply slices_distinct.
  - intros r x Ex. unfold slice_of in Ex. apply bind_Some in Ex as (q & Eq & Ex).
    by apply (i_holds e all s I r q Eq).
  - intros r Hr. destruct (inv_holds e all r s (phase_of r s) I eq_refl) as [Hh _].
    { intros E0. rewrite E0 in Hr. repeat (apply elem_of_cons in Hr as [Hr|Hr]; [done|]). by apply not_elem_of_nil in Hr. }
    repeat (apply elem_of_cons in Hr as [Hr|Hr]; [by rewrite Hr in Hh|]). by apply not_elem_of_nil in Hr.
Qed.

(** ** A library device with one slice *)

Definition demo_env : env := mkEnv false (fun _ => 7) (fun _ => true) 2 1 1.
Definition enter (r : nat) : list action := [APick r; AWork WPrepare r; AWork WNfhTake r; AWork WTakePass r].
Definition demo (l : list action) : dev := default (init 0 []) (acts demo_env l (init 2 [(7, 0)])).

Lemma device_resources_witness :
  load_ (demo (enter 0 ++ [AWork WAllocate 0] ++ enter 1)) = 2.
Proof.
  destruct (device_resources demo_env 2 [(7, 0)] (enter 0 ++ [AWork WAllocate 0] ++ enter 1)
    (demo (enter 0 ++ [AWork WAllocate 0] ++ enter 1))) as [H _];
    [apply NoDup_singleton|vm_compute; reflexivity|rewrite H; vm_compute; reflexivity].
Defined.

End DeviceTaskThms.
