(* ===== verification/DeviceTaskDrain.v ===== *)
(** * Client device layer: requests finish

    Every piece of work moves one request forward, and as long as a request is in use
    some piece of work can be done. *)

From Stdlib Require Import ZArith Lia.
From S2P Require Import Prelude StopGate DeviceTask DeviceTaskInv DeviceTaskRuns.

Module DeviceTaskDrain.
Import StopGate DeviceTask DeviceTaskInv DeviceTaskRuns DeviceTaskThms.

(** ** Each piece of work is one step of one request *)

Definition from (w : work) : phase :=
  match w with
  | WPrepare => Picked | WNfhTake => NfhQueue | WTakePass => AtGate | WAllocate => WaitSlice
  | WInTake => InQueue | WInPass => InGate | WWrite => Writing | WRespond => OnDevice
  | WOutTake => OutQueue | WOutPass => OutGate | WRead => Reading | WDecode => NfhOut | WRelease => Decoded
  end.
Definition to (w : work) : phase :=
  match w with
  | WPrepare => NfhQueue | WNfhTake => AtGate | WTakePass => WaitSlice | WAllocate => InQueue
  | WInTake => InGate | WInPass => Writing | WWrite => OnDevice | WRespond => OutQueue
  | WOutTake => OutGate | WOutPass => Reading | WRead => NfhOut | WDecode => Decoded | WRelease => Free
  end.

(** Steps to the end. *)
Definition weight (p : phase) : Z :=
  match p with
  | Picked => 13 | NfhQueue => 12 | AtGate => 11 | WaitSlice => 10 | InQueue => 9 | InGate => 8
  | Writing => 7 | OnDevice => 6 | OutQueue => 5 | OutGate => 4 | Reading => 3 | NfhOut => 2
  | Decoded => 1 | Free | Lost => 0
  end.

Ltac guards := repeat match goal with
  | H : (guard _;; _) = Some _ |- _ => apply guard_Some in H; destruct H
  | H : _ /\ _ |- _ => destruct H
  | H : match ?q with [] => None | _ => _ end = Some _ |- _ => destruct q eqn:?; [done|]
  | H : _ ≫= _ = Some _ |- _ => apply bind_Some in H as ([? ?] & ? & H)
  | H : Some _ = Some _ |- _ => injection H as <-
  end; subst.

Lemma work_step e w r s s' :
  do_work e w r s = Some s' ->
  phase_of r s = from w /\ rec s' = rec s /\ exited s' = exited s /\
  exists x, reqs s' = <[r := mkReq (to w) x]> (reqs s).
Proof.
  destruct w; simpl; unfold Prepare, NfhTake, TakePass, AllocateSlice, InTake, InPass, Write, Respond,
    OutTake, OutPass, Read, Decode, ReleaseBuffers; intros H; guards;
    (split; [done|split; [done|split; [done|]]]); by eexists.
Qed.

Lemma work_weight e w r s s' :
  do_work e w r s = Some s' -> total weight s' = total weight s - 1.
Proof.
  intros E. destruct (work_step e w r s s' E) as (Ep & _ & _ & x & Er). unfold total. rewrite Er.
  destruct (phase_valid r s) as [q Eq]; [rewrite Ep; by destruct w|].
  rewrite (sum_insert (fun q => weight (ph q)) _ _ q) by done. simpl.
  rewrite <- (proj1 (phase_lookup r s q Eq)), Ep. destruct w; simpl; lia.
Qed.

Lemma total_weight_bound s : 0 <= total weight s <= 13 * Z.of_nat (length (reqs s)).
Proof.
  unfold total. induction (reqs s) as [|q l IH]; simpl; [lia|].
  assert (0 <= weight (ph q) <= 13) by (destruct (ph q); simpl; lia). lia.
Qed.

Definition is_work (a : action) : bool := match a with AWork _ _ => true | _ => false end.

(** Nothing is stopped, nothing is lost, the process runs. *)
Definition healthy (s : dev) : Prop :=
  rec s = RIdle /\ exited s = false /\ forall r, phase_of r s <> Lost.

Lemma work_phase e w r s s' : do_work e w r s = Some s' ->
  forall r', phase_of r' s' = if decide (r' = r) then to w else phase_of r' s.
Proof.
  intros E r'. destruct (work_step e w r s s' E) as (Ep & _ & _ & x & Er). unfold phase_of at 1. rewrite Er.
  destruct (phase_valid r s) as [q Eq]; [rewrite Ep; by destruct w|]. destruct (decide (r' = r)) as [->|Hr].
  - by rewrite list_lookup_insert_eq by (by eapply lookup_lt_Some).
  - by rewrite list_lookup_insert_ne.
Qed.

Lemma work_healthy e w r s s' : do_work e w r s = Some s' -> healthy s -> healthy s'.
Proof.
  intros E (H1 & H2 & H3). destruct (work_step e w r s s' E) as (_ & Er & Ex & _).
  split; [congruence|split; [congruence|]]. intros r'. rewrite (work_phase e w r s s' E).
  destruct (decide (r' = r)); [by destruct w|done].
Qed.

Lemma work_run e l s s' :
  forallb is_work l = true -> acts e l s = Some s' -> healthy s ->
  healthy s' /\ total weight s' = total weight s - Z.of_nat (length l).
Proof.
  revert s. induction l as [|a l IH]; intros s Hl E Hs; [injection E as <-; simpl; split; [done|lia]|].
  simpl in Hl. apply andb_true_iff in Hl as [Ha Hl]. destruct a as [| |w r| | | | | | |]; try done.
  simpl in E. apply bind_Some in E as (s1 & E1 & E). unfold act in E1.
  destruct (exited s); [done|]. pose proof (work_weight e w r s s1 E1).
  destruct (IH s1 Hl E (work_healthy e w r s s1 E1 Hs)) as [H1 H2]. split; [done|]. simpl length. lia.
Qed.

(** ** Something can always be done *)

Section Progress.
Context (e : env) (all : list slice) (s : dev).
Hypothesis I : inv e all s.
Hypothesis Hok : healthy s.
Hypothesis Hthreads : 0 < nfhInputThreads e /\ 0 < inputThreads e /\ 0 < outputThreads e.
Hypothesis Hpool : forall r, phase_of r s <> Free -> exists x, x ∈ all /\ x.1 = task_of e r.

Definition enabled : Prop := exists w r, is_Some (do_work e w r s).
Definition none (p : phase) : Prop := forall r, phase_of r s <> p.

Lemma guard_is_Some (P : Prop) `{Decision P} {A} (x : option A) :
  P -> is_Some x -> is_Some (guard P;; x).
Proof. intros HP Hx. by rewrite option_guard_True. Qed.

Lemma gate_open : ready KPass (dmaStopGate s) = true.
Proof.
  unfold ready. destruct Hok as (Hr & _). destruct (stop_flag (dmaStopGate s)) eqn:E; [|done].
  by apply (i_stop e all s I) in E.
Qed.

(** A phase that is left without waiting. *)
Lemma try_phase p w : p <> Free -> (forall r, phase_of r s = p -> is_Some (do_work e w r s)) ->
  enabled \/ none p.
Proof.
  intros Hp Hw. destruct (phase_cases p s Hp) as [[r Er]|Hn]; [|by right].
  left. exists w, r. by apply Hw.
Qed.

(** A queue with a free worker. *)
Lemma try_queue p w q : p <> Free -> queue_ok p q s ->
  (forall r l, q = r :: l -> phase_of r s = p -> is_Some (do_work e w r s)) ->
  enabled \/ none p.
Proof.
  intros Hp [_ Hq] Hw. destruct (phase_cases p s Hp) as [[r Er]|Hn]; [|by right].
  apply Hq in Er. destruct q as [|r' l]; [by apply not_elem_of_nil in Er|].
  left. exists w, r'. eapply Hw; [done|]. apply Hq. left.
Qed.

(** A slice of the task of [r] that nobody holds is free. *)
Lemma free_slice r :
  phase_of r s <> Free -> (forall r' x, slice_of r' s = Some x -> x.1 <> task_of e r) ->
  is_Some (getNpuMemoryCache (task_of e r) (free s)).
Proof.
  intros Hr Hh. destruct (Hpool r Hr) as (x & Hx & Et). apply (getNpuMemoryCache_some _ _ x); [|done].
  rewrite <- (i_slices e all s I) in Hx. apply elem_of_app in Hx as [Hx|Hx]; [done|exfalso].
  unfold held in Hx. apply list_elem_of_omap in Hx as (q & Hq & Ex).
  apply list_elem_of_lookup in Hq as [r' Eq]. apply (Hh r' x); [|done].
  by rewrite (proj2 (phase_lookup r' s q Eq)).
Qed.

(** Behind the slices: everything from the input queue on is empty. *)
Definition drained : Prop := forall p, p ∈ with_slice -> none p.

Lemma slice_phase r x : drained -> slice_of r s = Some x ->
  phase_of r s = NfhQueue \/ phase_of r s = AtGate \/ phase_of r s = WaitSlice.
Proof.
  intros Hd Ex. unfold slice_of in Ex. apply bind_Some in Ex as (q & Eq & Ex).
  destruct (i_holds e all s I r q Eq) as [Hh _]. pose proof (proj1 (phase_lookup r s q Eq)) as Ep.
  rewrite Ep. rewrite Ex in Hh. destruct (ph q) eqn:Eph; try tauto; try done;
    exfalso; refine (Hd (ph q) _ r _); rewrite ?Eph; try exact Ep; unfold with_slice; set_solver.
Qed.

Lemma wait_slice_enabled r : drained -> phase_of r s = WaitSlice -> is_Some (AllocateSlice e r s).
Proof.
  intros Hd Er. unfold AllocateSlice. apply guard_is_Some; [done|].
  destruct (slice_of r s) as [x|] eqn:Ex; [by eexists|].
  assert (runOnService e && zero_copy e (task_of e r) = false) as Hz.
  { destruct (inv_holds e all r s WaitSlice I Er ltac:(done)) as (_ & _ & Hz & _). rewrite Ex in Hz.
    destruct (_ && _); [|done]. by destruct (Hz eq_refl ltac:(done) ltac:(done)). }
  destruct (free_slice r) as [[x l] El]; [by rewrite Er| |rewrite El; by eexists].
  intros r' x Ex' Et. pose proof (slice_phase r' x Hd Ex') as Hp.
  destruct (inv_holds e all r' s _ I eq_refl) as (_ & Hown & _ & Hn); [by destruct Hp as [->|[->| ->]]|].
  rewrite (Hown x Ex') in Et. rewrite Et in Hn. specialize (Hn Hz Hp). congruence.
Qed.

Lemma picked_enabled r : drained -> none NfhQueue -> none AtGate -> none WaitSlice ->
  phase_of r s = Picked -> is_Some (Prepare e r s).
Proof.
  intros Hd N1 N2 N3 Er. unfold Prepare. apply guard_is_Some; [done|].
  destruct (runOnService e && zero_copy e (task_of e r)); [|by eexists].
  destruct (free_slice r) as [[x l] El]; [by rewrite Er| |rewrite El; by eexists].
  intros r' x Ex _. destruct (slice_phase r' x Hd Ex) as [E|[E|E]]; [by apply (N1 r')|by apply (N2 r')|by apply (N3 r')].
Qed.

(** The second half: once a request is on its way nothing waits for a slice. *)
Lemma back_half : enabled \/ drained.
Proof.
  assert (forall a b, none a -> none b -> in_phase [a; b] s = 0) as Z2
    by (intros a b Ha Hb; apply in_phase_zero; intros p Hp r; apply elem_of_cons in Hp as [->|Hp];
        [apply Ha|apply list_elem_of_singleton in Hp as ->; apply Hb]).
  destruct Hthreads as (_ & Hin & Hout). pose proof gate_open as Hg.
  destruct (try_phase Decoded WRelease) as [?|N1]; [done|intros r Er; simpl; unfold ReleaseBuffers; apply guard_is_Some; [done|by eexists]|by left|].
  destruct (try_queue NfhOut WDecode (nfh_out s)) as [?|N2];
    [done|apply I|intros r l El Er; simpl; unfold Decode; rewrite El; apply guard_is_Some; [done|by eexists]|by left|].
  destruct (try_phase Reading WRead) as [?|N3]; [done|intros r Er; simpl; unfold Read; apply guard_is_Some; [done|by eexists]|by left|].
  destruct (try_phase OutGate WOutPass) as [?|N4]; [done|intros r Er; simpl; unfold OutPass; apply guard_is_Some; [done|by eexists]|by left|].
  destruct (try_queue OutQueue WOutTake (out_q s)) as [?|N5];
    [done|apply I|intros r l El Er; simpl; unfold OutTake; rewrite El, (Z2 OutGate Reading N4 N3);
      apply guard_is_Some; [done|apply guard_is_Some; [done|by eexists]]|by left|].
  destruct (try_phase OnDevice WRespond) as [?|N6]; [done|intros r Er; simpl; unfold Respond; apply guard_is_Some; [done|by eexists]|by left|].
  destruct (try_phase Writing WWrite) as [?|N7]; [done|intros r Er; simpl; unfold Write; apply guard_is_Some; [done|by eexists]|by left|].
  destruct (try_phase InGate WInPass) as [?|N8]; [done|intros r Er; simpl; unfold InPass; apply guard_is_Some; [done|by eexists]|by left|].
  destruct (try_queue InQueue WInTake (in_q s)) as [?|N9];
    [done|apply I|intros r l El Er; simpl; unfold InTake; rewrite El, (Z2 InGate Writing N8 N7);
      apply guard_is_Some; [done|apply guard_is_Some; [done|by eexists]]|by left|].
  right. intros p Hp. unfold with_slice in Hp.
  repeat (apply elem_of_cons in Hp as [->|Hp]; [first [done|exact (proj2 (proj2 Hok))]|]). by apply not_elem_of_nil in Hp.
Qed.

Lemma progress : enabled \/ forall r, phase_of r s = Free.
Proof.
  destruct back_half as [?|Hd]; [by left|]. destruct Hthreads as (Hn & _). pose proof gate_open as Hg.
  destruct (try_phase WaitSlice WAllocate) as [?|N1]; [done|intros r Er; by apply wait_slice_enabled|by left|].
  destruct (try_phase AtGate WTakePass) as [?|N2]; [done|intros r Er; simpl; unfold TakePass; apply guard_is_Some; [done|by eexists]|by left|].
  destruct (try_queue NfhQueue WNfhTake (nfh_in s)) as [?|N3]; [done|apply I| |by left|].
  { intros r l El Er. simpl. unfold NfhTake. rewrite El, in_phase_zero.
    - apply guard_is_Some; [done|apply guard_is_Some; [done|by eexists]].
    - intros p Hp r'. apply elem_of_cons in Hp as [->|Hp]; [apply N2|]. apply list_elem_of_singleton in Hp as ->. apply N1. }
  destruct (try_phase Picked WPrepare) as [?|N4]; [done|intros r Er; exact (picked_enabled r Hd N3 N2 N1 Er)|by left|].
  right. intros r. destruct (decide (phase_of r s ∈ with_slice)) as [Hw|Hw];
    [by destruct (Hd _ Hw r)|]. specialize (N1 r). specialize (N2 r). specialize (N3 r). specialize (N4 r).
  destruct (phase_of r s); try done; destruct Hw; apply (bool_decide_unpack _); done.
Qed.

End Progress.

(** C26. The device layer drains.  While no transfer fails and no recovery starts, from every
    reachable state and in every interleaving at most 13 steps per request slot can be
    made before new requests are given, and whenever a request is in use some step is
    possible; so every request ends, and then the load is 0 and every slice is back. *)
Theorem device_drains e n all l0 l s s' :
  acts e l0 (init n all) = Some s -> healthy s ->
  0 < nfhInputThreads e /\ 0 < inputThreads e /\ 0 < outputThreads e ->
  (forall r, exists x, x ∈ all /\ x.1 = task_of e r) ->
  forallb is_work l = true -> acts e l s = Some s' ->
  Z.of_nat (length l) <= 13 * Z.of_nat (length (reqs s)) /\
  ((exists w r, is_Some (act e (AWork w r) s')) \/
   ((forall r, phase_of r s' = Free) /\ load_ s' = 0 /\ free s' ≡ₚ all)).
Proof.
  intros E0 Hh Ht Hp Hl E. assert (inv e all s) as I by (eapply acts_inv; [apply init_inv|exact E0]).
  assert (inv e all s') as I' by (by eapply acts_inv).
  destruct (work_run e l s s' Hl E Hh) as [Hh' Hw].
  pose proof (total_weight_bound s). pose proof (total_weight_bound s'). split; [lia|].
  destruct (progress e all s' I' Hh' Ht) as [(w & r & Hen)|Hf]; [done| |].
  - left. exists w, r. unfold act. destruct Hh' as (_ & -> & _). done.
  - right. split; [done|]. assert (forall q, q ∈ reqs s' -> ph q = Free) as Hq.
    { intros q Hq. apply list_elem_of_lookup in Hq as [r Eq]. specialize (Hf r).
      by rewrite (proj1 (phase_lookup r s' q Eq)) in Hf. }
    split.
    + rewrite (i_load e all s' I'). rewrite (total_in_phase counted outstanding) by (intros []; reflexivity).
      apply in_phase_zero. intros p Hpo r Er. rewrite Hf in Er. subst p.
      unfold outstanding in Hpo. set_solver.
    + rewrite <- (i_slices e all s' I'). unfold held.
      assert (omap sl (reqs s') = []) as ->; [|by rewrite app_nil_r].
      assert (forall r q, reqs s' !! r = Some q -> sl q = None) as Hs.
      { intros r q Eq. destruct (i_holds e all s' I' r q Eq) as [Hx _]. by rewrite (Hq q ltac:(by eapply list_elem_of_lookup_2)) in Hx. }
      clear - Hs. induction (reqs s') as [|q l IH]; [done|]. simpl. rewrite (Hs 0%nat q eq_refl).
      apply IH. intros r q'. apply (Hs (S r)).
Qed.

(** Two requests and one slice: the second one waits for the first. *)
Definition rest (r : nat) : list action :=
  map (fun w => AWork w r) [WInTake; WInPass; WWrite; WRespond; WOutTake; WOutPass; WRead; WDecode; WRelease].
Lemma device_drains_witness :
  let s' := demo (enter 0 ++ [AWork WAllocate 0] ++ enter 1 ++ rest 0 ++ [AWork WAllocate 1]) in
  (exists w r, is_Some (act demo_env (AWork w r) s')) \/
  ((forall r, phase_of r s' = Free) /\ load_ s' = 0 /\ free s' ≡ₚ [(7, 0)]).
Proof.
  intros s'. destruct (device_drains demo_env 2 [(7, 0)] (enter 0 ++ [AWork WAllocate 0] ++ enter 1)
    (rest 0 ++ [AWork WAllocate 1]) (demo (enter 0 ++ [AWork WAllocate 0] ++ enter 1)) s') as [_ H];
    [vm_compute; reflexivity| |vm_compute; done| |vm_compute; reflexivity|vm_compute; reflexivity|exact H].
  - split; [vm_compute; reflexivity|split; [vm_compute; reflexivity|]].
    intros [|[|r]]; vm_compute; discriminate.
  - intros r. exists (7, 0). split; [left|reflexivity].
Defined.

End DeviceTaskDrain.
