(* ===== verification/DeviceTaskRecovery.v ===== *)
(** * Client device layer: a recovery that never gets through

    [SetStop(true)] waits for a thread that waits, with its pass, for a slice; and the
    drain after it waits for requests the closed gate holds back. *)

From Stdlib Require Import ZArith Lia.
From S2P Require Import Prelude StopGate DeviceTask DeviceTaskInv DeviceTaskRuns DeviceTaskDrain.

Module DeviceTaskRecovery.
Import StopGate DeviceTask DeviceTaskInv DeviceTaskRuns DeviceTaskThms DeviceTaskDrain.

(** Phases from which the gate is passed before the load drops or a slice returns. *)
Definition gated (p : phase) : bool :=
  match p with
  | InQueue | InGate | Writing | OnDevice | OutQueue | OutGate | Lost => true
  | _ => false
  end.

(** The action moves no request, or request [r] to phase [p] with slice [x]. *)
Definition moved (s s' : dev) : Prop :=
  reqs s' = reqs s \/ exists r p x, reqs s' = <[r := mkReq p x]> (reqs s) /\ is_Some (reqs s !! r).

Lemma moved_at s s' r q : reqs s' = <[r := q]> (reqs s) -> is_Some (reqs s !! r) ->
  forall r', phase_of r' s' = (if decide (r' = r) then ph q else phase_of r' s) /\
             slice_of r' s' = (if decide (r' = r) then sl q else slice_of r' s).
Proof.
  intros E [q0 Eq] r'. unfold phase_of, slice_of. rewrite E. destruct (decide (r' = r)) as [->|Hr].
  - by rewrite list_lookup_insert_eq by (by eapply lookup_lt_Some).
  - by rewrite list_lookup_insert_ne.
Qed.

Lemma same_reqs s s' : reqs s' = reqs s ->
  forall r, phase_of r s' = phase_of r s /\ slice_of r s' = slice_of r s.
Proof. intros E r. unfold phase_of, slice_of. by rewrite E. Qed.

(** While the gate is closed no action takes a request through it, and slices come back
    only from requests behind it. *)
Section Closed.
Context (e : env) (all : list slice).
Implicit Types s : dev.

Definition closed s : Prop := rec s = RStopping \/ rec s = RDraining.

Lemma closed_gate s : inv e all s -> closed s ->
  ready KPass (dmaStopGate s) = false /\ runOnService e = false.
Proof.
  intros I Hc. split.
  - unfold ready. rewrite (i_shut _ _ _ I). assert (stop_flag (dmaStopGate s) = true) as ->; [|done].
    apply (i_stop _ _ _ I). by destruct Hc as [-> | ->].
  - destruct (runOnService e) eqn:Es; [|done]. destruct (i_service _ _ _ I Es) as [Hr _].
    destruct Hc; congruence.
Qed.

(** What one action does to a request of a gated phase, with the gate closed. *)
Record quiet (s s' : dev) : Prop := {
  q_gated r : gated (phase_of r s) = true -> gated (phase_of r s') = true /\ slice_of r s' = slice_of r s;
  q_holder r x : slice_of r s' = Some x -> slice_of r s = Some x \/
    (phase_of r s = WaitSlice /\ phase_of r s' = InQueue /\
     exists l, getNpuMemoryCache (task_of e r) (free s) = Some (x, l));
  q_free x : x ∈ free s' -> x ∈ free s \/ exists r, slice_of r s = Some x /\ phase_of r s = Decoded;
  q_enter r : gated (phase_of r s') = false -> gated (phase_of r s) = false;
  q_wait r : phase_of r s = WaitSlice -> slice_of r s = None ->
    (phase_of r s' = WaitSlice /\ slice_of r s' = None) \/ is_Some (getNpuMemoryCache (task_of e r) (free s))
}.

Lemma quiet_move s s' r p q :
  phase_of r s = p -> p <> Free \/ is_Some (reqs s !! r) -> reqs s' = <[r := q]> (reqs s) ->
  (gated p = true -> gated (ph q) = true /\ sl q = slice_of r s) ->
  (forall x, sl q = Some x -> slice_of r s = Some x \/
     (p = WaitSlice /\ ph q = InQueue /\ exists l, getNpuMemoryCache (task_of e r) (free s) = Some (x, l))) ->
  (forall x, x ∈ free s' -> x ∈ free s \/ (p = Decoded /\ slice_of r s = Some x)) ->
  (p = WaitSlice -> slice_of r s = None -> is_Some (getNpuMemoryCache (task_of e r) (free s))) ->
  quiet s s'.
Proof.
  intros Ep Hv Er Hg Hh Hf Hw.
  assert (is_Some (reqs s !! r)) as Hi by (destruct Hv as [Hp|Hi]; [apply phase_valid; by rewrite Ep|done]).
  pose proof (moved_at s s' r q Er Hi) as M. split.
  - intros r' Hr'. destruct (M r') as [-> ->]. destruct (decide (r' = r)) as [->|]; [|done].
    rewrite Ep in Hr'. by apply Hg.
  - intros r' x. destruct (M r') as [-> ->]. destruct (decide (r' = r)) as [->|]; [|by left].
    intros Hx. destruct (Hh x Hx) as [?|(-> & ? & ?)]; [by left|by right].
  - intros x Hx. destruct (Hf x Hx) as [?|[-> ?]]; [by left|right; by exists r].
  - intros r'. destruct (M r') as [-> _]. destruct (decide (r' = r)) as [->|]; [|done].
    rewrite Ep. destruct (gated p); [|done]. by destruct Hg as [-> _].
  - intros r' E1 E2. destruct (M r') as [-> ->]. destruct (decide (r' = r)) as [->|]; [|by left].
    right. apply Hw; congruence.
Qed.

Lemma quiet_same s s' : reqs s' = reqs s -> free s' = free s -> quiet s s'.
Proof.
  intros E1 E2. pose proof (same_reqs s s' E1) as M. split.
  - intros r. by destruct (M r) as [-> ->].
  - intros r x. destruct (M r) as [_ ->]. by left.
  - intros x. rewrite E2. by left.
  - intros r. by destruct (M r) as [-> _].
  - intros r H1 H2. destruct (M r) as [-> ->]. by left.
Qed.

(** A request that keeps its slice. *)
Lemma quiet_goto s s' r p p' :
  phase_of r s = p -> p <> Free -> p <> WaitSlice -> reqs s' = <[r := mkReq p' (slice_of r s)]> (reqs s) ->
  free s' = free s -> (gated p = true -> gated p' = true) -> quiet s s'.
Proof.
  intros Ep H1 H2 Er Ef Hg. apply (quiet_move s s' r p (mkReq p' (slice_of r s))); try done.
  - by left.
  - intros Hp. split; [by apply Hg|done].
  - intros x Hx. by left.
  - intros x. rewrite Ef. by left.
Qed.

Lemma work_quiet w r s s' :
  inv e all s -> closed s -> do_work e w r s = Some s' -> quiet s s'.
Proof.
  intros I Hc E. destruct (closed_gate s I Hc) as [Hg Hs].
  destruct w; simpl in E; unfold Prepare, NfhTake, TakePass, AllocateSlice, InTake, InPass, Write, Respond,
    OutTake, OutPass, Read, Decode, ReleaseBuffers in E; rewrite ?Hs in E; cbn [andb] in E; guards; try congruence.
  - apply (quiet_move _ _ r Picked (mkReq NfhQueue None)); try done; [by left|intros x Hx; by left].
  - by apply (quiet_goto _ _ r NfhQueue AtGate).
  - assert (slice_of r s = Some s0 /\ l = free s \/
            slice_of r s = None /\ getNpuMemoryCache (task_of e r) (free s) = Some (s0, l)) as Hx.
    { destruct (slice_of r s) as [y|]; [left; by simplify_eq|by right]. }
    apply (quiet_move _ _ r WaitSlice (mkReq InQueue (Some s0))); try done; [by left| | |].
    + intros x [= <-]. destruct Hx as [[Hx _]|[_ Hx]]; [by left|right; by eauto].
    + intros x Hin. simpl in Hin. left. destruct Hx as [[_ ->]|[_ Hx]]; [done|].
      apply getNpuMemoryCache_perm in Hx as [_ P]. rewrite <- P. by right.
    + intros _ Hn. destruct Hx as [[Hx _]|[_ Hx]]; [congruence|by eexists].
  - by apply (quiet_goto _ _ r InQueue InGate).
  - by apply (quiet_goto _ _ r Writing OnDevice).
  - by apply (quiet_goto _ _ r OnDevice OutQueue).
  - by apply (quiet_goto _ _ r OutQueue OutGate).
  - by apply (quiet_goto _ _ r Reading NfhOut).
  - by apply (quiet_goto _ _ r NfhOut Decoded).
  - apply (quiet_move _ _ r Decoded (mkReq Free None)); try done; [by left|].
    intros x Hin. simpl in Hin. destruct (slice_of r s) as [y|] eqn:Ey; [|by left].
    unfold returnNpuMemoryCache in Hin. apply elem_of_cons in Hin as [->|Hin]; [by right|by left].
Qed.

Lemma act_quiet a s s' : inv e all s -> closed s -> act e a s = Some s' -> quiet s s'.
Proof.
  intros I Hc E. destruct (closed_gate s I Hc) as [Hg Hs]. unfold act in E. destruct (exited s); [done|].
  destruct a; [| |by eapply work_quiet|..];
    unfold Pick, BufferFails, Write, Respond, Read, TriggerRecovery, Stopped, Drained, Recover, dma_failed in E;
    rewrite ?Hs in E; guards; try (by apply quiet_same).
  - apply (quiet_move _ _ r Free (mkReq Picked None)); try done; [by right|intros x Hx; by left].
  - apply (quiet_move _ _ r Picked (mkReq Free None)); try done; [by left|intros x Hx; by left].
  - by apply (quiet_goto _ _ r Writing Lost).
  - by apply (quiet_goto _ _ r OnDevice Lost).
  - by apply (quiet_goto _ _ r Reading Lost).
Qed.

(** [SetStop(true)] waits for [r], which waits for a slice of its task [t]. *)
Record deadlocked (r : nat) (t : Z) (s : dev) : Prop := {
  d_rec : rec s = RStopping;
  d_task : task_of e r = t;
  d_wait : phase_of r s = WaitSlice;
  d_slice : slice_of r s = None;
  d_free x : x ∈ free s -> x.1 <> t;
  d_held r' x : slice_of r' s = Some x -> x.1 = t -> gated (phase_of r' s) = true
}.

Lemma no_slice t l : (forall x, x ∈ l -> x.1 <> t) -> getNpuMemoryCache t l = None.
Proof.
  intros H. destruct (getNpuMemoryCache t l) as [[x l']|] eqn:E; [|done].
  apply getNpuMemoryCache_perm in E as [Et P]. destruct (H x); [rewrite <- P; left|done].
Qed.

Lemma stopping_waits a r s s' : inv e all s -> rec s = RStopping -> phase_of r s = WaitSlice ->
  act e a s = Some s' -> rec s' = RStopping.
Proof.
  intros I Hr Hw E. pose proof (pass_positive e all r s I Hw) as Hp.
  unfold act in E. destruct (exited s); [done|]. destruct (closed_gate s I (or_introl Hr)) as [Hg Hs].
  destruct a; [| |by destruct (work_step e w r0 s s' E) as (_ & -> & _)|..];
    unfold Pick, BufferFails, Write, Respond, Read, TriggerRecovery, Stopped, Drained, Recover, dma_failed in E;
    rewrite ?Hs in E; guards; try done; try congruence.
  match goal with Hk : ready KStop _ = true |- _ =>
    unfold ready in Hk; rewrite (i_shut _ _ _ I) in Hk; apply Z.eqb_eq in Hk; lia end.
Qed.


Lemma deadlocked_step a r t s s' : inv e all s -> deadlocked r t s -> act e a s = Some s' -> deadlocked r t s'.
Proof.
  intros I [D1 D2 D3 D4 D5 D6] E. assert (closed s) as Hc by (by left).
  pose proof (act_quiet a s s' I Hc E) as Q.
  assert (forall r0, task_of e r0 = t -> getNpuMemoryCache (task_of e r0) (free s) = None) as Hno
    by (intros r0 ->; by apply no_slice).
  destruct (q_wait _ _ Q r D3 D4) as [[W1 W2]|[x Hx]]; [|by rewrite Hno in Hx].
  split; try done.
  - by eapply stopping_waits.
  - intros x Hx. destruct (q_free _ _ Q x Hx) as [Hf|(r' & Hr' & Hd)]; [by apply D5|].
    intros Et. specialize (D6 r' x Hr' Et). by rewrite Hd in D6.
  - intros r' x Hx Et. destruct (q_holder _ _ Q r' x Hx) as [Hs|(_ & Hp & l & El)]; [|by rewrite Hp].
    by apply (q_gated _ _ Q r'), (D6 r' x).
Qed.

Lemma deadlocked_run l r t s s' : inv e all s -> deadlocked r t s -> acts e l s = Some s' ->
  inv e all s' /\ deadlocked r t s'.
Proof.
  revert s. induction l as [|a l IH]; intros s I D E; simpl in E; [by injection E as <-|].
  apply bind_Some in E as (s1 & E1 & E). apply (IH s1); [by eapply act_inv|by eapply deadlocked_step|done].
Qed.

(** While the drain lasts a request of a gated phase keeps the load above 0. *)
Lemma draining_step a s s' : rec s = RDraining -> act e a s = Some s' ->
  match a with ADrained _ => False | _ => True end -> rec s' = RDraining.
Proof.
  intros Hr E Ha. unfold act in E. destruct (exited s); [done|].
  destruct a; [| |by destruct (work_step e w r s s' E) as (_ & -> & _)|..];
    unfold Pick, BufferFails, Write, Respond, Read, TriggerRecovery, Stopped, Recover, dma_failed in E;
    try done; guards; try done; try congruence; by destruct (runOnService e).
Qed.

Lemma draining_run l r s s' :
  inv e all s -> rec s = RDraining -> gated (phase_of r s) = true ->
  forallb (fun a => match a with ADrained _ => false | _ => true end) l = true ->
  acts e l s = Some s' -> inv e all s' /\ rec s' = RDraining /\ gated (phase_of r s') = true.
Proof.
  revert s. induction l as [|a l IH]; intros s I Hr Hg Hl E; simpl in E; [by injection E as <-|].
  simpl in Hl. apply andb_true_iff in Hl as [Ha Hl]. apply bind_Some in E as (s1 & E1 & E).
  apply (IH s1); [by eapply act_inv| | |done|done].
  - eapply draining_step; [done|exact E1|]. by destruct a.
  - by apply (q_gated _ _ (act_quiet a s s1 I (or_intror Hr) E1) r).
Qed.

End Closed.

(** C27. A recovery deadlock.  Without a service, when a recovery closes the gate while a
    thread waits in [InferenceRequest], with its pass, for a slice of its task, and the
    slices of the task belong to requests that have not reached the output transfer, then
    no sequence of actions of any thread or of the device ever gets [SetStop(true)] to
    return: the thread keeps waiting, and the gate stays closed. *)
Theorem recovery_deadlock e n all l0 s r t l s' :
  acts e l0 (init n all) = Some s ->
  rec s = RStopping -> phase_of r s = WaitSlice -> slice_of r s = None -> task_of e r = t ->
  (forall x, x ∈ free s -> x.1 <> t) ->
  (forall r' x, slice_of r' s = Some x -> x.1 = t -> gated (phase_of r' s) = true) ->
  acts e l s = Some s' ->
  rec s' = RStopping /\ phase_of r s' = WaitSlice /\ slice_of r s' = None /\
  act e AStopped s' = None /\ ready KPass (dmaStopGate s') = false.
Proof.
  intros E0 H1 H2 H3 H4 H5 H6 E. assert (inv e all s) as I by (eapply acts_inv; [apply init_inv|exact E0]).
  destruct (deadlocked_run e all l r t s s' I) as [I' D]; [by split|done|].
  destruct (closed_gate e all s' I') as [Hg _]; [left; by apply D|].
  pose proof (pass_positive e all r s' I' (d_wait _ _ _ _ D)).
  split; [by apply D|split; [by apply (d_wait _ _ _ _ D)|split; [by apply (d_slice _ _ _ _ D)|split; [|done]]]].
  unfold act. destruct (exited s'); [done|]. unfold Stopped, ready.
  rewrite (i_shut _ _ _ I'). rewrite option_guard_False; [done|].
  intros [_ Hz]. simpl in Hz. apply Z.eqb_eq in Hz. lia.
Qed.

(** One slice, two requests: the first one waits in the input queue, the second one for
    its slice, when the recovery starts. *)
Definition stuck_state : dev := demo (enter 0 ++ [AWork WAllocate 0] ++ enter 1 ++ [ATrigger]).
Definition stuck_later : dev :=
  demo (enter 0 ++ [AWork WAllocate 0] ++ enter 1 ++ [ATrigger; AWork WInTake 0]).
Lemma recovery_deadlock_witness :
  rec stuck_later = RStopping /\ phase_of 1 stuck_later = WaitSlice /\ slice_of 1 stuck_later = None /\
  act demo_env AStopped stuck_later = None /\ ready KPass (dmaStopGate stuck_later) = false.
Proof.
  apply (recovery_deadlock demo_env 2 [(7, 0)] (enter 0 ++ [AWork WAllocate 0] ++ enter 1 ++ [ATrigger])
    stuck_state 1 7 [AWork WInTake 0] stuck_later); try (vm_compute; reflexivity).
  - vm_compute. intros x Hx. by apply not_elem_of_nil in Hx.
  - intros [|[|r']] x Hx; vm_compute in Hx; done.
Defined.

(** The drain of a recovery ends only by its time limit when a request is between the
    gate and the output transfer, or was lost: as long as it lasts, the load stays above 0
    whatever the other threads do. *)
Theorem drain_only_times_out e n all l0 s r l s' :
  acts e l0 (init n all) = Some s ->
  rec s = RDraining -> gated (phase_of r s) = true ->
  forallb (fun a => match a with ADrained _ => false | _ => true end) l = true ->
  acts e l s = Some s' ->
  rec s' = RDraining /\ 0 < load_ s' /\ act e (ADrained false) s' = None.
Proof.
  intros E0 Hr Hg Hl E. assert (inv e all s) as I by (eapply acts_inv; [apply init_inv|exact E0]).
  destruct (draining_run e all l r s s' I Hr Hg Hl E) as (I' & Hr' & Hg').
  assert (0 < load_ s') as Hp.
  { rewrite (i_load _ _ _ I').
    assert (phase_of r s' <> Free /\ counted (phase_of r s') = 1) as [Hf Hc] by (by destruct (phase_of r s')).
    pose proof (total_member counted s' r (phase_of r s') ltac:(by intros []) Hf eq_refl). lia. }
  split; [done|split; [done|]]. unfold act. destruct (exited s'); [done|].
  unfold Drained. rewrite option_guard_False; [done|]. intros [_ [?|?]]; [lia|done].
Qed.

Lemma drain_only_times_out_witness :
  rec (demo (enter 0 ++ [AWork WAllocate 0; ATrigger; AStopped])) = RDraining /\
  0 < load_ (demo (enter 0 ++ [AWork WAllocate 0; ATrigger; AStopped])) /\
  act demo_env (ADrained false) (demo (enter 0 ++ [AWork WAllocate 0; ATrigger; AStopped])) = None.
Proof.
  apply (drain_only_times_out demo_env 2 [(7, 0)] (enter 0 ++ [AWork WAllocate 0; ATrigger; AStopped])
    (demo (enter 0 ++ [AWork WAllocate 0; ATrigger; AStopped])) 0 []); vm_compute; reflexivity.
Defined.

End DeviceTaskRecovery.
