(* ===== verification/TaskData.v ===== *)
(** * Tasks: the memory layout of an NPU task

    [lib/task_data.cpp], [lib/ppu_binary_parser.cpp], [lib/util.cpp]: from the tensors
    of a compiled model to the sizes and offsets the device layer works with.
    [data_] and [hasPpuBinary] are the arguments of [set_from_npu].  Signed 64-bit
    sums are exact integers: their overflow is undefined in the source. *)

From Stdlib Require Import ZArith Lia.
From S2P Require Import Prelude.

Module TaskData.

(** [data_align(x, a)] on a [uint32_t] and on an [int]. *)
Definition data_align (x a : Z) : Z := u32 (u32 (a * (x / a)) + (if 0 <? x mod a then a else 0)).
Definition data_align_int (x a : Z) : Z :=
  i32 (a * Z.quot x a + (if 0 <? Z.rem x a then a else 0)).

(** ** Model description ([model.h]) *)

Definition DRAM : Z := 1.
Definition ARGMAX : Z := 2.
Definition PPU : Z := 3.

Definition BBOX : Z := 10.
Definition FACE : Z := 11.
Definition POSE : Z := 12.

Record Memory := mkMem { mem_offset : Z; mem_size : Z; mem_type : Z }.
Record TensorInfo := mkTensor {
  ti_dtype : Z; ti_dtype_encoded : Z; ti_shape : list Z; ti_layout : Z; ti_elem_size : Z;
  ti_memory : Memory
}.
Record rmapinfo := mkRmap {
  ri_inputs : list TensorInfo; ri_outputs : list TensorInfo;
  ri_model_input : Memory; ri_model_output : Memory;
  ri_cmd : Z; ri_op_mode : Z; ri_checkpoints : list Z; ri_npu_M1_8K : bool; ri_ppu_type : Z
}.

(** How [set_from_npu] ends other than by returning. *)
Inductive failure :=
| InvalidOutputBounds | InvalidOffsetNormalization | InvalidEncodedSize
| SizesDiffer | InvalidLastOffset
| ExitProcess      (** [exit(0)] of [GetDataSize_Datatype] *)
| OutOfRange.      (** [data_[0]] or [data_[1]] does not exist: undefined *)
Definition res (A : Type) : Type := (failure + A)%type.
#[export] Instance res_ret : MRet res := fun A x => inr x.
#[export] Instance res_bind : MBind res :=
  fun A B f x => match x with inl e => inl e | inr a => f a end.

Definition GetDataSize_Datatype (dType : Z) : res Z :=
  if bool_decide (dType ∈ [2; 3]) then mret 1
  else if bool_decide (dType ∈ [5; 4]) then mret 2
  else if bool_decide (dType ∈ [8; 6; 1]) then mret 4
  else if bool_decide (dType ∈ [9; 7]) then mret 8
  else if dType =? BBOX then mret 32
  else if dType =? FACE then mret 64
  else if dType =? POSE then mret 256
  else inl ExitProcess.

(** ** PPU binaries ([ppu_binary_parser.cpp]) *)

Definition GetPpuBoxDataSize (dataType : Z) : Z :=
  if dataType =? BBOX then 32 else if dataType =? FACE then 64
  else if dataType =? POSE then 256 else 0.

Record PpuOutputSizeInfo := mkPpuSize {
  max_box_count : Z; box_data_size : Z; total_output_size : Z
}.

(** The packed header is 4 bytes, a tensor configuration 16; [_PPU_GRID_WIDTH] and
    [_PPU_GRID_HEIGHT] are its bytes 13 and 14. *)
Definition byte_at (l : list Z) (i : Z) : Z := default 0 (l !! Z.to_nat i).
Definition tensor_boxes (l : list Z) (idx : Z) : Z :=
  byte_at l (4 + 16 * idx + 13) * byte_at l (4 + 16 * idx + 14).

Definition CalculatePpuOutputSize (ppuBinaryData : list Z) (outputDataType : Z) : PpuOutputSizeInfo :=
  let none := mkPpuSize 0 0 0 in
  let size := Z.of_nat (length ppuBinaryData) in
  let tensor_num := byte_at ppuBinaryData 1 in
  if size <? 4 then none
  else if tensor_num =? 0 then none
  else if size <? 4 + tensor_num * 16 then none
  else
    let total := foldl (fun n idx => u32 (n + tensor_boxes ppuBinaryData (Z.of_nat idx))) 0
                   (seq 0 (Z.to_nat tensor_num)) in
    let box := GetPpuBoxDataSize outputDataType in
    if box =? 0 then none else mkPpuSize total box (u32 (total * box)).

(** ** [calculate_total_size] *)

Definition product (l : list Z) : Z := foldr Z.mul 1 l.

Fixpoint total_sizes (dts : list Z) (shapes : list (list Z)) (total : Z) : res Z :=
  match dts, shapes with
  | dt :: dts, sh :: shapes =>
      es ← GetDataSize_Datatype dt;
      total_sizes dts shapes (u32 (total + u32 (u32 (product sh) * es)))
  | _, _ => mret total
  end.

Definition calculate_total_size (dataTypes : list Z) (shapes : list (list Z)) : res Z :=
  if decide (length dataTypes = length shapes) then total_sizes dataTypes shapes 0
  else inl SizesDiffer.

(** ** The task *)

Definition MODEL_TYPE_NORMAL : Z := 0.
Definition MODEL_TYPE_ARGMAX : Z := 1.
Definition MODEL_TYPE_PPU : Z := 2.
Definition MODEL_TYPE_PPCPU : Z := 3.

Record dxrt_model := mkModel {
  npu_id : Z; m_type : Z; m_format : Z; m_cmds : Z;
  rmap_size : Z; weight_size : Z;
  input_all_offset : Z; input_all_size : Z;
  output_all_offset : Z; output_all_size : Z;
  last_output_offset : Z; last_output_size : Z;
  m_checkpoints : list Z; m_op_mode : Z
}.

Record task_data := mkTask {
  t_inputOffsets : list Z; t_encodedInputOffsets : list Z;
  t_outputOffsets : list Z; t_encodedOutputOffsets : list Z;
  t_encodedInputSize : Z; t_encodedOutputSize : Z;
  t_encodedInputSizes : list Z; t_encodedOutputSizes : list Z;
  t_inputSize : Z; t_outputSize : Z; t_outputMemSize : Z; t_memUsage : Z;
  t_outputTensors : list (list Z * Z);      (** shape, data type *)
  t_npuModel : dxrt_model;
  t_isArgMax : bool; t_isPPU : bool; t_isPPCPU : bool
}.

(** [orginal_tensor_size], a [uint64_t]. *)
Definition tensor_bytes (ti : TensorInfo) : Z :=
  u64 (foldl (fun n d => u64 (n * d)) 1 (ti_shape ti) * ti_elem_size ti).

(** The offsets of tensors laid one after the other. *)
Fixpoint packed_offsets (start : Z) (l : list TensorInfo) : list Z :=
  match l with [] => [] | ti :: l => start :: packed_offsets (u64 (start + tensor_bytes ti)) l end.

Definition sum_sizes (l : list TensorInfo) : Z :=
  foldl (fun n ti => u32 (n + mem_size (ti_memory ti))) 0 l.

(** The loop over the outputs: bounds of the output region and encoded offsets. *)
Record output_loop := mkOut { lower : Z; upper : Z; enc_offsets : list Z }.

Definition widen (ti : TensorInfo) (o : output_loop) : output_loop :=
  let off := mem_offset (ti_memory ti) in
  let e := off + mem_size (ti_memory ti) in
  mkOut (if off <? lower o then off else lower o) (if upper o <? e then e else upper o) (enc_offsets o).

Definition push_offset (z : Z) (o : output_loop) : output_loop :=
  mkOut (lower o) (upper o) (enc_offsets o ++ [u64 z]).

Definition output_step (model_output_size : Z) (o : output_loop) (ti : TensorInfo) : output_loop :=
  let o := widen ti o in
  let t := mem_type (ti_memory ti) in
  if t =? ARGMAX then push_offset model_output_size o
  else if t =? PPU then push_offset 0 o
  else widen ti (push_offset (mem_offset (ti_memory ti)) o).

Definition INT64_MAX : Z := 2 ^ 63 - 1.

(** The checks after the loop; the offsets become relative to the lower bound. *)
Definition normalize (lo : Z) (offs : list Z) : res (list Z) :=
  if forallb (fun o => u64 lo <=? o) offs then mret (map (fun o => u64 (o - lo)) offs)
  else inl InvalidOffsetNormalization.

Definition output_layout (info : rmapinfo) : res output_loop :=
  let o := foldl (output_step (mem_size (ri_model_output info))) (mkOut INT64_MAX 0 []) (ri_outputs info) in
  let lo := if (Z.of_nat (length (ri_outputs info)) =? 0) || (lower o =? INT64_MAX) then 0 else lower o in
  if (lo <? 0) || (upper o <? lo) then inl InvalidOutputBounds
  else offs ← normalize lo (enc_offsets o); mret (mkOut lo (upper o) offs).

Definition dtypes_of (f : TensorInfo -> Z) (l : list TensorInfo) : list Z :=
  match l with [] => [0] | _ => map f l end.

(** ** Layouts and formats *)

Definition LayoutToLegacyFormat (layout : Z) : Z := if 0 <? layout then swrap 8 (layout - 1) else 0.
Definition PPU_YOLO : Z := 5.
Definition PPU_FD : Z := 6.
Definition PPU_POSE : Z := 7.
Definition LayoutFromPpuType (ppuType : Z) : Z :=
  if (ppuType =? 0) || (ppuType =? 1) then PPU_YOLO
  else if ppuType =? 3 then PPU_FD
  else if ppuType =? 2 then PPU_POSE else 0.

Definition set_kind (type format oas off size : Z) (m : dxrt_model) : dxrt_model :=
  mkModel (npu_id m) type format (m_cmds m) (rmap_size m) (weight_size m)
    (input_all_offset m) (input_all_size m) (output_all_offset m) oas off size
    (m_checkpoints m) (m_op_mode m).

(** What the second half of [set_from_npu] decides. *)
Record kind := mkKind {
  k_model : dxrt_model; k_outputSize : Z; k_encodedOutputSize : Z;
  k_tensors : list (list Z * Z); k_argmax : bool; k_ppu : bool; k_ppcpu : bool
}.

Definition first_output (info : rmapinfo) : TensorInfo :=
  default (mkTensor 0 0 [] 0 0 (mkMem 0 0 0)) (head (ri_outputs info)).

(** The branch of a model with a PPU binary. *)
Definition ppcpu_kind (info : rmapinfo) (data_ : list (list Z)) (encodedOutputSize : Z)
    (m : dxrt_model) : res kind :=
  let layout := LayoutFromPpuType (ri_ppu_type info) in
  let dataType :=
    if layout =? PPU_YOLO then BBOX else if layout =? PPU_FD then FACE
    else if layout =? PPU_POSE then POSE else ti_dtype (first_output info) in
  let format := if negb (layout =? 0) then LayoutToLegacyFormat layout
                else LayoutToLegacyFormat (ti_layout (first_output info)) in
  let parsed := match data_ !! 2%nat with
                | Some (_ :: _ as b) => total_output_size (CalculatePpuOutputSize b dataType)
                | _ => 0
                end in
  let ppuOutputSize := if 0 <? parsed then parsed else encodedOutputSize in
  es ← GetDataSize_Datatype dataType;
  mret (mkKind
    (set_kind MODEL_TYPE_PPCPU format
       (u32 (output_all_size m + data_align ppuOutputSize 64))
       (last_output_offset m) (last_output_size m) m)
    ppuOutputSize ppuOutputSize [([ppuOutputSize / es], dataType)] false true true).

Definition PPU_OUTPUT : Z := 128 * 1024.

Definition is_mem (t : Z) (ti : TensorInfo) : bool := mem_type (ti_memory ti) =? t.

(** The branch without a PPU binary. *)
Definition npu_kind (info : rmapinfo) (outputSize encodedOutputSize : Z)
    (tensors : list (list Z * Z)) (m : dxrt_model) : kind :=
  if forallb (is_mem ARGMAX) (ri_outputs info) then
    let type := match ri_outputs info with [] => m_type m | _ => MODEL_TYPE_ARGMAX end in
    mkKind (set_kind type (m_format m) (output_all_size m) (last_output_offset m) 2 m)
      2 2 tensors true false false
  else if is_mem PPU (first_output info) then
    let o := first_output info in
    mkKind
      (set_kind MODEL_TYPE_PPU (LayoutToLegacyFormat (ti_layout o))
         (u32 (output_all_size m + PPU_OUTPUT)) (output_all_size m) PPU_OUTPUT m)
      PPU_OUTPUT PPU_OUTPUT [(ti_shape o, ti_dtype o)] false true false
  else
    mkKind (set_kind MODEL_TYPE_NORMAL (m_format m) (output_all_size m)
              (last_output_offset m) (last_output_size m) m)
      outputSize encodedOutputSize tensors false false false.

(** The model as the first half leaves it; [format] is 0 by default. *)
Definition base_model (info : rmapinfo) (rs ws : Z) (o : output_loop) : dxrt_model :=
  mkModel 0 MODEL_TYPE_NORMAL 0 (i32 (ri_cmd info)) (u32 rs) (u32 ws)
    (u32 (mem_offset (ri_model_input info))) (u32 (mem_size (ri_model_input info)))
    (u32 (mem_offset (ri_model_output info))) (u32 (mem_size (ri_model_output info)))
    (u32 (mem_offset (ri_model_output info) + lower o)) (u32 (upper o - lower o))
    (ri_checkpoints info) (ri_op_mode info).

Definition set_npu_id (z : Z) (m : dxrt_model) : dxrt_model :=
  mkModel z (m_type m) (m_format m) (m_cmds m) (rmap_size m) (weight_size m)
    (input_all_offset m) (input_all_size m) (output_all_offset m) (output_all_size m)
    (last_output_offset m) (last_output_size m) (m_checkpoints m) (m_op_mode m).

Definition set_from_npu (bufferCount : Z) (info : rmapinfo) (data_ : list (list Z))
    (hasPpuBinary : bool) : res task_data :=
  let ins := ri_inputs info in
  let outs := ri_outputs info in
  o ← output_layout info;
  let encodedOutputSize := sum_sizes outs in
  _ ← (if negb (Z.of_nat (length outs) =? 0) && negb (existsb (is_mem PPU) outs)
          && (encodedOutputSize <=? 0)
       then inl InvalidEncodedSize else mret tt);
  inputSize ← calculate_total_size (dtypes_of ti_dtype ins) (map ti_shape ins);
  outputSize ← calculate_total_size (dtypes_of ti_dtype outs) (map ti_shape outs);
  '(rmap, weight) ← (match data_ with
                     | r :: w :: _ => mret (Z.of_nat (length r), Z.of_nat (length w))
                     | _ => inl OutOfRange
                     end : res (Z * Z));
  let last_offset_calc := mem_offset (ri_model_output info) + lower o in
  _ ← (if (last_offset_calc <? 0) || (UINT32_MAX <? last_offset_calc)
       then inl InvalidLastOffset else mret tt);
  let m := base_model info rmap weight o in
  let tensors := map (fun ti => (ti_shape ti, ti_dtype ti)) outs in
  k ← (if hasPpuBinary then ppcpu_kind info data_ encodedOutputSize m
       else mret (npu_kind info outputSize encodedOutputSize tensors m));
  let m := set_npu_id (if ri_npu_M1_8K info then 1 else 0) (k_model k) in
  let encodedInputSize := sum_sizes ins in
  let outputMemSize := Z.max 0 (output_all_size m) in
  mret (mkTask (packed_offsets 0 ins) (map (fun ti => u64 (mem_offset (ti_memory ti))) ins)
    (packed_offsets 0 outs) (enc_offsets o)
    encodedInputSize (k_encodedOutputSize k)
    (map (fun ti => u32 (mem_size (ti_memory ti))) ins)
    (map (fun ti => u32 (mem_size (ti_memory ti))) outs)
    inputSize (k_outputSize k) outputMemSize
    (u64 (rmap + weight + data_align encodedInputSize 64 * bufferCount + outputMemSize * bufferCount))
    (k_tensors k) m (k_argmax k) (k_ppu k) (k_ppcpu k)).

(** [NPU_block_size] *)
Definition NPU_block_size (t : task_data) : Z :=
  input_all_size (t_npuModel t) + output_all_size (t_npuModel t).

End TaskData.

(** * Tasks: lemmas on the layout

    Inversion of [set_from_npu], the invariant of the loop over the outputs, rounding
    to 64 bytes, and the exactness of the size of a PPU output. *)


Module TaskDataSpec.
Import TaskData.

(** ** Rounding *)

Definition align64 (x : Z) : Z := 64 * ((x + 63) / 64).

Lemma align64_bounds x : x <= align64 x < x + 64.
Proof. unfold align64. pose proof (Z.div_mod (x + 63) 64). pose proof (Z.mod_pos_bound (x + 63) 64). lia. Qed.

Lemma round_up x : 0 <= x -> 64 * (x / 64) + (if 0 <? x mod 64 then 64 else 0) = align64 x.
Proof.
  intros Hx. unfold align64. pose proof (Z.div_mod x 64). pose proof (Z.mod_pos_bound x 64).
  destruct (Z.ltb_spec 0 (x mod 64)).
  - replace ((x + 63) / 64) with (x / 64 + 1); [lia|].
    apply (Z.div_unique _ _ _ (x mod 64 - 1)); lia.
  - replace ((x + 63) / 64) with (x / 64); [lia|]. apply (Z.div_unique _ _ _ 63); lia.
Qed.

Lemma data_align_64 x : 0 <= x < 2 ^ 32 - 64 -> data_align x 64 = align64 x.
Proof.
  intros Hx. unfold data_align. pose proof (align64_bounds x). pose proof (round_up x ltac:(lia)) as R.
  assert (0 <= 64 * (x / 64)) by (pose proof (Z.div_pos x 64); lia).
  rewrite (uwrap_small 32 (64 * (x / 64))) by (destruct (0 <? x mod 64); lia).
  rewrite R. apply uwrap_small. lia.
Qed.

Lemma data_align_int_64 x : 0 <= x < 2 ^ 31 - 64 -> data_align_int (i32 x) 64 = align64 x.
Proof.
  intros Hx. rewrite swrap_small by lia. unfold data_align_int.
  rewrite Z.quot_div_nonneg, Z.rem_mod_nonneg, round_up by lia.
  pose proof (align64_bounds x). apply swrap_small; lia.
Qed.

(** ** The monad *)

Lemma bind_inr {A B} (x : res A) (f : A -> res B) b :
  x ≫= f = inr b -> exists a, x = inr a /\ f a = inr b.
Proof. destruct x as [e|a]; [done|]. by exists a. Qed.

Lemma if_inl_inr (c : bool) (e : failure) (u : unit) :
  (if c then inl e else mret tt : res unit) = inr u -> c = false.
Proof. by destruct c. Qed.

(** ** The loop over the outputs *)

(** Every output seen so far lies between the bounds. *)
Definition covered (o : output_loop) (l : list TensorInfo) : Prop :=
  Forall (fun ti => lower o <= mem_offset (ti_memory ti) /\
                    mem_offset (ti_memory ti) + mem_size (ti_memory ti) <= upper o) l.

Lemma covered_mono o o' l : lower o' <= lower o -> upper o <= upper o' -> covered o l -> covered o' l.
Proof. intros Hl Hu Hc. eapply Forall_impl; [exact Hc|]. intros ti. simpl. lia. Qed.

Lemma output_step_bounds mos o ti :
  let off := mem_offset (ti_memory ti) in
  let o' := output_step mos o ti in
  lower o' = Z.min (lower o) off /\ upper o' = Z.max (upper o) (off + mem_size (ti_memory ti)).
Proof.
  unfold output_step, widen, push_offset. simpl.
  destruct (mem_type (ti_memory ti) =? ARGMAX); [|destruct (mem_type (ti_memory ti) =? PPU)]; simpl;
    repeat match goal with
    | |- context [?a <? ?b] =>
        lazymatch constr:((a, b)) with context [if _ then _ else _] => fail | _ => idtac end;
        destruct (Z.ltb_spec a b)
    end; lia.
Qed.

(** The encoded offset an output gets, before normalisation. *)
Definition raw_offset (mos : Z) (ti : TensorInfo) : Z :=
  let t := mem_type (ti_memory ti) in
  if t =? ARGMAX then u64 mos else if t =? PPU then u64 0 else u64 (mem_offset (ti_memory ti)).

Lemma output_step_offsets mos o ti :
  enc_offsets (output_step mos o ti) = enc_offsets o ++ [raw_offset mos ti].
Proof.
  unfold output_step, raw_offset, widen, push_offset. simpl.
  by destruct (mem_type (ti_memory ti) =? ARGMAX), (mem_type (ti_memory ti) =? PPU).
Qed.

Lemma output_fold mos l o done_ :
  covered o done_ -> 0 <= upper o ->
  let o' := foldl (output_step mos) o l in
  covered o' (done_ ++ l) /\ lower o' <= lower o /\ upper o <= upper o' /\
  enc_offsets o' = enc_offsets o ++ map (raw_offset mos) l.
Proof.
  revert o done_. induction l as [|ti l IH]; intros o done_ Hc Hu; simpl.
  { rewrite !app_nil_r. split; [done|split; [lia|split; [lia|done]]]. }
  pose proof (output_step_bounds mos o ti) as [El Eu]. simpl in El, Eu.
  destruct (IH (output_step mos o ti) (done_ ++ [ti])) as (H1 & H2 & H3 & H4).
  - apply Forall_app. split; [eapply covered_mono; [| |exact Hc]; lia|]. constructor; [|constructor]. lia.
  - lia.
  - rewrite <- app_assoc in H1. split; [done|split; [lia|split; [lia|]]].
    rewrite H4, output_step_offsets, <- app_assoc. done.
Qed.

(** The lower bound is attained or the initial value; the upper one likewise. *)
Lemma output_fold_region mos l o R :
  Forall (fun ti => 0 <= mem_offset (ti_memory ti) /\
                    mem_offset (ti_memory ti) + mem_size (ti_memory ti) <= R) l ->
  upper o <= R -> 0 <= lower o ->
  upper (foldl (output_step mos) o l) <= R /\ 0 <= lower (foldl (output_step mos) o l).
Proof.
  revert o. induction l as [|ti l IH]; intros o Hl Hu Hlo; simpl; [done|].
  apply Forall_cons in Hl as [Ht Hl]. pose proof (output_step_bounds mos o ti) as [El Eu]. simpl in El, Eu.
  apply IH; [done|lia|lia].
Qed.

(** The outputs of the model lie in its output region of [R] bytes. *)
Definition in_region (R : Z) (l : list TensorInfo) : Prop :=
  Forall (fun ti => 0 <= mem_offset (ti_memory ti) /\ 0 <= mem_size (ti_memory ti) /\
                    mem_offset (ti_memory ti) + mem_size (ti_memory ti) <= R) l.

Record layout_facts (info : rmapinfo) (o : output_loop) : Prop := {
  lf_lower : 0 <= lower o;
  lf_upper : lower o <= upper o <= mem_size (ri_model_output info);
  lf_covered : covered o (ri_outputs info);
  lf_offsets : enc_offsets o =
    map (fun ti => u64 (raw_offset (mem_size (ri_model_output info)) ti - lower o)) (ri_outputs info);
  lf_above : Forall (fun ti => u64 (lower o) <= raw_offset (mem_size (ri_model_output info)) ti)
               (ri_outputs info)
}.

Lemma output_layout_facts info o :
  output_layout info = inr o -> 0 <= mem_size (ri_model_output info) < INT64_MAX ->
  in_region (mem_size (ri_model_output info)) (ri_outputs info) -> layout_facts info o.
Proof.
  set (mos := mem_size (ri_model_output info)). unfold output_layout. fold mos. intros E Hm Hr.
  destruct (output_fold mos (ri_outputs info) (mkOut INT64_MAX 0 []) []) as (Hc & Hl & Hu & Ho);
    [constructor|done|]. cbn [app lower upper enc_offsets] in *.
  destruct (output_fold_region mos (ri_outputs info) (mkOut INT64_MAX 0 []) mos) as [HuR Hlo];
    [eapply Forall_impl; [exact Hr|]; simpl; lia|simpl; lia|simpl; unfold INT64_MAX; lia|].
  set (o1 := foldl (output_step mos) (mkOut INT64_MAX 0 []) (ri_outputs info)) in *.
  set (lo := if _ : bool then 0 else lower o1) in E.
  assert (lo <= lower o1 /\ 0 <= lo) as [Hlo1 Hlo0] by (unfold lo; destruct (_ || _); lia).
  destruct ((lo <? 0) || (upper o1 <? lo)) eqn:Eb; [done|]. apply orb_false_iff in Eb as [_ Eb%Z.ltb_ge].
  apply bind_inr in E as (offs & En & [= <-]). unfold normalize in En.
  destruct (forallb (fun x => u64 lo <=? x) (enc_offsets o1)) eqn:Ef; [|done].
  injection En as <-. rewrite Ho in *. split; simpl; try done.
  - eapply covered_mono; [| |exact Hc]; simpl; lia.
  - by rewrite map_map.
  - rewrite Forall_forall. intros ti Hti.
    rewrite forallb_forall in Ef. apply Z.leb_le, Ef, in_map_iff. exists ti. split; [done|].
    by apply list_elem_of_In.
Qed.

(** ** Inversion of [set_from_npu] *)

Record npu_facts (info : rmapinfo) (data_ : list (list Z)) (ppu : bool) (t : task_data)
    (o : output_loop) (k : kind) (rs ws outputSize : Z) : Prop := {
  nf_layout : output_layout info = inr o;
  nf_last : 0 <= mem_offset (ri_model_output info) + lower o <= UINT32_MAX;
  nf_kind : (if ppu then ppcpu_kind info data_ (sum_sizes (ri_outputs info)) (base_model info rs ws o)
             else mret (npu_kind info outputSize (sum_sizes (ri_outputs info))
                    (map (fun ti => (ti_shape ti, ti_dtype ti)) (ri_outputs info))
                    (base_model info rs ws o))) = inr k;
  nf_model : exists z, t_npuModel t = set_npu_id z (k_model k);
  nf_memsize : t_outputMemSize t = Z.max 0 (output_all_size (k_model k));
  nf_outputSize : t_outputSize t = k_outputSize k;
  nf_encodedOutputSize : t_encodedOutputSize t = k_encodedOutputSize k;
  nf_ppcpu : t_isPPCPU t = k_ppcpu k;
  nf_inputs : t_encodedInputSize t = sum_sizes (ri_inputs info);
  nf_offsets : t_encodedOutputOffsets t = enc_offsets o
}.

Lemma set_from_npu_inv bc info data_ ppu t :
  set_from_npu bc info data_ ppu = inr t ->
  exists o k rs ws os, npu_facts info data_ ppu t o k rs ws os.
Proof.
  unfold set_from_npu. intros E.
  apply bind_inr in E as (o & Eo & E). apply bind_inr in E as ([] & _ & E).
  apply bind_inr in E as (isz & _ & E). apply bind_inr in E as (os & _ & E).
  apply bind_inr in E as ([rs ws] & _ & E). apply bind_inr in E as ([] & El & E).
  apply if_inl_inr in El. apply orb_false_iff in El as [E1%Z.ltb_ge E2%Z.ltb_ge].
  apply bind_inr in E as (k & Ek & E). injection E as <-.
  exists o, k, rs, ws, os. split; simpl; try done. by eexists.
Qed.

Lemma sum_sizes_range l : 0 <= sum_sizes l < 2 ^ 32.
Proof.
  unfold sum_sizes. assert (forall n, 0 <= n < 2 ^ 32 ->
    0 <= foldl (fun n ti => u32 (n + mem_size (ti_memory ti))) n l < 2 ^ 32) as Hl; [|by apply Hl].
  induction l as [|ti l IH]; intros n Hn; simpl; [done|]. apply IH. by apply uwrap_range.
Qed.

(** ** PPU output size *)

Definition bytes (l : list Z) : Prop := Forall (fun b => 0 <= b < 256) l.

Lemma byte_at_range l i : bytes l -> 0 <= byte_at l i < 256.
Proof.
  intros Hl. unfold byte_at. destruct (l !! Z.to_nat i) eqn:E; simpl; [|lia].
  by eapply (Forall_lookup_1 _ _ _ _ Hl).
Qed.

(** The total number of boxes, not reduced modulo 2^32. *)
Definition total_boxes (l : list Z) (n : nat) : Z :=
  sum_Z (map (fun idx => tensor_boxes l (Z.of_nat idx)) (seq 0 n)).

Lemma tensor_boxes_range l idx : bytes l -> 0 <= tensor_boxes l idx <= 255 * 255.
Proof.
  intros Hl. unfold tensor_boxes.
  pose proof (byte_at_range l (4 + 16 * idx + 13) Hl).
  pose proof (byte_at_range l (4 + 16 * idx + 14) Hl). nia.
Qed.

Lemma boxes_fold l ns n :
  bytes l -> 0 <= n -> n + 255 * 255 * Z.of_nat (length ns) < 2 ^ 32 ->
  let s := sum_Z (map (fun idx => tensor_boxes l (Z.of_nat idx)) ns) in
  foldl (fun n idx => u32 (n + tensor_boxes l (Z.of_nat idx))) n ns = n + s /\
  0 <= s <= 255 * 255 * Z.of_nat (length ns).
Proof.
  intros Hl. revert n. induction ns as [|i ns IH]; intros n Hn Hb; [simpl; lia|].
  cbn [length] in Hb. rewrite Nat2Z.inj_succ in Hb.
  pose proof (tensor_boxes_range l (Z.of_nat i) Hl) as Ht.
  cbn [map foldl sum_Z foldr length]. rewrite (uwrap_small 32 (n + _)) by lia.
  destruct (IH (n + tensor_boxes l (Z.of_nat i))) as [E Hs]; [lia|lia|].
  fold (sum_Z (map (fun idx => tensor_boxes l (Z.of_nat idx)) ns)). rewrite E. lia.
Qed.

Lemma total_boxes_range l n : bytes l -> (n <= 255)%nat -> 0 <= total_boxes l n <= 255 * 255 * 255.
Proof.
  intros Hl Hn. destruct (boxes_fold l (seq 0 n) 0 Hl) as [_ Hs]; [lia|rewrite length_seq; lia|].
  rewrite length_seq in Hs. unfold total_boxes. lia.
Qed.

End TaskDataSpec.

(** * Tasks: theorems on the layout

    Where the encoded outputs lie in the output region, the host buffer they are read
    into, and the size of a PPU output. *)


Module TaskDataThms.
Import TaskData TaskDataSpec.

(** The output region of the model. *)
Definition region (info : rmapinfo) : Z := mem_size (ri_model_output info).

(** A model whose outputs lie in its output region, of less than 4 GB. *)
Definition regular (info : rmapinfo) : Prop :=
  0 <= region info < 2 ^ 32 /\ in_region (region info) (ri_outputs info).

Lemma regular_layout info o :
  regular info -> output_layout info = inr o -> layout_facts info o.
Proof.
  intros [Hr Hi] E. eapply output_layout_facts; [done| |done].
  unfold region in *. unfold INT64_MAX. lia.
Qed.

(** The branch without a PPU binary keeps the region of a normal model. *)
Lemma normal_kind info outputSize es tensors m :
  m_type (k_model (npu_kind info outputSize es tensors m)) = MODEL_TYPE_NORMAL ->
  ri_outputs info <> [] ->
  npu_kind info outputSize es tensors m =
    mkKind (set_kind MODEL_TYPE_NORMAL (m_format m) (output_all_size m)
              (last_output_offset m) (last_output_size m) m)
      outputSize es tensors false false false.
Proof.
  unfold npu_kind. intros Ht Hn.
  destruct (forallb (is_mem ARGMAX) (ri_outputs info)); [by destruct (ri_outputs info)|].
  by destruct (is_mem PPU (first_output info)).
Qed.

Lemma ppcpu_kind_type info data_ es m k :
  ppcpu_kind info data_ es m = inr k -> m_type (k_model k) = MODEL_TYPE_PPCPU /\ k_ppcpu k = true.
Proof. unfold ppcpu_kind. intros E. by apply bind_inr in E as (s & _ & [= <-]). Qed.

Lemma npu_kind_ppcpu info os es tensors m : k_ppcpu (npu_kind info os es tensors m) = false.
Proof. unfold npu_kind. destruct (forallb _ _); [done|]. by destruct (is_mem _ _). Qed.

(** What a normal task keeps of the layout. *)
Lemma normal_task bc info data_ ppu t :
  set_from_npu bc info data_ ppu = inr t -> regular info ->
  m_type (t_npuModel t) = MODEL_TYPE_NORMAL -> ri_outputs info <> [] ->
  exists o, output_layout info = inr o /\ layout_facts info o /\
    last_output_offset (t_npuModel t) = mem_offset (ri_model_output info) + lower o /\
    last_output_size (t_npuModel t) = upper o - lower o /\
    t_encodedOutputOffsets t = enc_offsets o /\
    t_encodedOutputSize t = sum_sizes (ri_outputs info).
Proof.
  intros E Hr Ht Hn. destruct (set_from_npu_inv _ _ _ _ _ E) as (o & k & rs & ws & os & F).
  pose proof (regular_layout info o Hr (nf_layout _ _ _ _ _ _ _ _ _ F)) as L. exists o. split; [by eapply nf_layout|split; [done|]].
  pose proof (nf_kind _ _ _ _ _ _ _ _ _ F) as Ek. destruct (nf_model _ _ _ _ _ _ _ _ _ F) as [z Em].
  rewrite Em in *. simpl in Ht. destruct ppu.
  { apply ppcpu_kind_type in Ek as [Ek _]. by rewrite Ek in Ht. }
  injection Ek as Ek. rewrite <- Ek in Ht. apply normal_kind in Ht; [|done]. rewrite Ht in Ek. subst k.
  simpl. pose proof (nf_last _ _ _ _ _ _ _ _ _ F). pose proof (lf_lower _ _ L). pose proof (lf_upper _ _ L).
  destruct Hr as [Hr _]. unfold region, UINT32_MAX in *. split; [apply uwrap_small; lia|].
  split; [apply uwrap_small; lia|]. split; [by eapply nf_offsets|].
  by rewrite (nf_encodedOutputSize _ _ _ _ _ _ _ _ _ F).
Qed.

(** The encoded outputs of a normal task: in the [last_output_size] bytes that are
    read from the device for a request, tensor [i] starts at its entry of
    [_encodedOutputOffsets], ends inside, and is the tensor that the model places at its
    memory offset in the output region. *)
Theorem encoded_tensors_in_output bc info data_ ppu t i ti :
  set_from_npu bc info data_ ppu = inr t -> regular info ->
  m_type (t_npuModel t) = MODEL_TYPE_NORMAL ->
  ri_outputs info !! i = Some ti -> is_mem ARGMAX ti = false -> is_mem PPU ti = false ->
  exists e, t_encodedOutputOffsets t !! i = Some e /\ 0 <= e /\
    e + mem_size (ti_memory ti) <= last_output_size (t_npuModel t) /\
    last_output_offset (t_npuModel t) + e =
      mem_offset (ri_model_output info) + mem_offset (ti_memory ti).
Proof.
  intros E Hr Ht Hi Ha Hp. destruct (normal_task _ _ _ _ _ E Hr Ht) as (o & _ & L & E1 & E2 & E3 & _).
  { intros E0. by rewrite E0 in Hi. }
  exists (mem_offset (ti_memory ti) - lower o). rewrite E1, E2, E3, (lf_offsets _ _ L).
  pose proof (Forall_lookup_1 _ _ _ _ (lf_covered _ _ L) Hi) as [Hl Hu].
  pose proof (lf_lower _ _ L). pose proof (lf_upper _ _ L).
  destruct Hr as [Hr Hin]. pose proof (Forall_lookup_1 _ _ _ _ Hin Hi) as (Hi0 & Hi1 & Hi2).
  unfold region in *. split; [|lia].
  change (map ?f ?l) with (f <$> l). rewrite list_lookup_fmap, Hi. simpl. unfold raw_offset.
  unfold is_mem in Ha, Hp. rewrite Ha, Hp. f_equal.
  rewrite (uwrap_small 64 (mem_offset _)) by lia. apply uwrap_small. lia.
Qed.

(** Two outputs, 64-byte aligned, and one input of 100 bytes. *)
Definition tensor_at (off size : Z) : TensorInfo := mkTensor 2 2 [size] 0 1 (mkMem off size DRAM).
Definition demo_model (off2 : Z) : rmapinfo :=
  mkRmap [tensor_at 0 100] [tensor_at 0 100; tensor_at off2 50]
    (mkMem 0 128 0) (mkMem 0 192 0) 5 0 [] false 0.
Definition demo_task (off2 : Z) : task_data :=
  match set_from_npu 6 (demo_model off2) [[1]; [2]] false with
  | inr t => t
  | inl _ => mkTask [] [] [] [] 0 0 [] [] 0 0 0 0 []
               (mkModel 0 0 0 0 0 0 0 0 0 0 0 0 [] 0) false false false
  end.

Lemma demo_regular off2 : 0 <= off2 -> off2 + 50 <= 192 -> regular (demo_model off2).
Proof.
  intros H1 H2. unfold regular, region. simpl. split; [lia|].
  repeat constructor; simpl; lia.
Qed.

Lemma encoded_tensors_in_output_witness :
  exists e, t_encodedOutputOffsets (demo_task 128) !! 1%nat = Some e /\ 0 <= e /\
    e + 50 <= last_output_size (t_npuModel (demo_task 128)) /\
    last_output_offset (t_npuModel (demo_task 128)) + e = 0 + 128.
Proof.
  apply (encoded_tensors_in_output 6 (demo_model 128) [[1]; [2]] false (demo_task 128) 1 (tensor_at 128 50));
    [reflexivity|apply demo_regular; lia|reflexivity|reflexivity|reflexivity|reflexivity].
Defined.

(** The bounds of two outputs, the first one below the second. *)
Lemma two_outputs info a b o :
  output_layout info = inr o -> ri_outputs info = [a; b] ->
  0 <= mem_offset (ti_memory a) < INT64_MAX -> 0 <= mem_size (ti_memory a) -> 0 <= mem_size (ti_memory b) ->
  mem_offset (ti_memory a) + mem_size (ti_memory a) <= mem_offset (ti_memory b) ->
  lower o = mem_offset (ti_memory a) /\ upper o = mem_offset (ti_memory b) + mem_size (ti_memory b).
Proof.
  unfold output_layout. intros E Eo Ha Hsa Hsb Hab. rewrite Eo in E. cbn [foldl] in E.
  set (mos := mem_size (ri_model_output info)) in E.
  pose proof (output_step_bounds mos (mkOut INT64_MAX 0 []) a) as [L1 U1].
  pose proof (output_step_bounds mos (output_step mos (mkOut INT64_MAX 0 []) a) b) as [L2 U2].
  simpl in L1, U1, L2, U2. set (o2 := output_step mos (output_step _ _ a) b) in *.
  assert (lower o2 = mem_offset (ti_memory a)) as El by lia.
  destruct (Z.eqb_spec (lower o2) INT64_MAX); [lia|]. simpl in E.
  destruct (_ || _); [done|]. apply bind_inr in E as (offs & _ & [= <-]). simpl. lia.
Qed.

(** The host buffer of an encoded output holds the sizes of the tensors, the DMA
    from the device fills the span between the first and the last byte of the output
    region: a gap of [g] bytes between two outputs makes the transfer [g] bytes longer
    than the buffer ([encoded_output_size]). *)
Theorem encoded_output_gap bc info data_ ppu t a b g :
  set_from_npu bc info data_ ppu = inr t -> regular info ->
  m_type (t_npuModel t) = MODEL_TYPE_NORMAL -> ri_outputs info = [a; b] -> 0 <= g ->
  is_mem ARGMAX a = false -> is_mem PPU a = false -> is_mem ARGMAX b = false -> is_mem PPU b = false ->
  mem_offset (ti_memory a) + mem_size (ti_memory a) + g = mem_offset (ti_memory b) ->
  last_output_size (t_npuModel t) = t_encodedOutputSize t + g.
Proof.
  intros E Hr Ht Eo Hg Ha Hpa Hb Hpb Hgap.
  destruct (normal_task _ _ _ _ _ E Hr Ht) as (o & El & L & _ & E2 & _ & E4); [by rewrite Eo|].
  destruct Hr as [Hr Hin]. rewrite Eo in Hin. unfold in_region in Hin.
  apply Forall_cons in Hin as [Hia Hin]. apply Forall_cons in Hin as [Hib _].
  rewrite E4, Eo. unfold sum_sizes. simpl. unfold region in *.
  rewrite (uwrap_small 32 (0 + _)) by lia. rewrite uwrap_small by lia. rewrite E2.
  destruct (two_outputs info a b o El Eo) as [-> ->]; unfold INT64_MAX; lia.
Qed.

Lemma encoded_output_gap_witness :
  last_output_size (t_npuModel (demo_task 128)) = t_encodedOutputSize (demo_task 128) + 28.
Proof.
  apply (encoded_output_gap 6 (demo_model 128) [[1]; [2]] false (demo_task 128)
           (tensor_at 0 100) (tensor_at 128 50) 28);
    [reflexivity|apply demo_regular; lia|reflexivity|reflexivity|lia|reflexivity..].
Defined.

(** The size of a PPU output is exact: a parsed binary holds every configuration that
    is read, and its number of boxes and its number of bytes are those of the grids, with
    no 32-bit wrap-around (255 tensors of 255 x 255 boxes of 256 bytes stay below 2^32). *)
Theorem ppu_size_exact l dt :
  bytes l -> total_output_size (CalculatePpuOutputSize l dt) <> 0 ->
  let n := byte_at l 1 in
  4 + 16 * n <= Z.of_nat (length l) /\
  max_box_count (CalculatePpuOutputSize l dt) = total_boxes l (Z.to_nat n) /\
  total_output_size (CalculatePpuOutputSize l dt) = total_boxes l (Z.to_nat n) * GetPpuBoxDataSize dt /\
  0 < total_output_size (CalculatePpuOutputSize l dt) < 2 ^ 32.
Proof.
  intros Hl. unfold CalculatePpuOutputSize. pose proof (byte_at_range l 1 Hl) as Hb.
  destruct (Z.ltb_spec (Z.of_nat (length l)) 4); [done|].
  destruct (Z.eqb_spec (byte_at l 1) 0); [done|].
  destruct (Z.ltb_spec (Z.of_nat (length l)) (4 + byte_at l 1 * 16)); [done|].
  destruct (Z.eqb_spec (GetPpuBoxDataSize dt) 0); [done|]. simpl. intros Hn.
  destruct (boxes_fold l (seq 0 (Z.to_nat (byte_at l 1))) 0 Hl) as [E _]; [lia|rewrite length_seq; lia|].
  fold (total_boxes l (Z.to_nat (byte_at l 1))) in E. rewrite E in *.
  pose proof (total_boxes_range l (Z.to_nat (byte_at l 1)) Hl ltac:(lia)).
  assert (GetPpuBoxDataSize dt <= 256 /\ 0 <= GetPpuBoxDataSize dt) as [G0 G1].
  { unfold GetPpuBoxDataSize. destruct (dt =? BBOX), (dt =? FACE), (dt =? POSE); lia. }
  rewrite uwrap_small in * by nia. split; [lia|split; [lia|split; [lia|nia]]].
Qed.

(** One configuration with a grid of 3 x 2. *)
Definition demo_ppu : list Z := [1; 1; 16; 0] ++ repeat 0 13 ++ [3; 2; 0].

Lemma ppu_size_exact_witness :
  total_output_size (CalculatePpuOutputSize demo_ppu FACE) = total_boxes demo_ppu 1 * 64.
Proof.
  apply (ppu_size_exact demo_ppu FACE); [unfold demo_ppu, bytes; simpl; repeat constructor; lia|].
  vm_compute. discriminate.
Defined.

End TaskDataThms.
