(* ===== verification/Engine.v ===== *)
(** * The inference engine: loading a model

    [lib/inference_engine.cpp]: from the parsed model to the graph of tasks, the orders
    of the inputs and outputs of the model, the registry of its tensors and the
    offsets of the outputs in the buffer of the user, up to the engine a job
    ([InferenceJob]) runs on.  The NPU tasks are those of [TaskData].

    The text of an exception and the messages of the log are not modelled.  The
    ONNX session of a CPU task is not part of the source: [cpu_handle] is what
    [CpuHandle] reports for the bytes of a CPU model, [None] when it throws.  The
    tasks are taken as registered with their devices ([DeviceTask]). *)

From Stdlib Require Import ZArith Lia.
From stdpp Require Import strings.
From S2P Require Import Prelude TaskData InferenceJob.

Module Engine.

(** ** Tensors and the graph of the model file *)

Record Tensor := mkTensor { name : string; shape : list Z; elemSize : Z }.

(** Negative dimensions are skipped. *)
Definition size_in_bytes (t : Tensor) : Z :=
  u64 (foldl (fun n d => if d <? 0 then n else u64 (n * d)) 1 (shape t) * elemSize t).

(** A tensor of the graph information: [owner] is empty for an input of the model. *)
Record GraphTensor := mkGraphTensor { gt_name : string; owner : string; users : list string }.
Record SubGraph := mkSubGraph {
  sub_inputs : list GraphTensor; sub_outputs : list GraphTensor; sub_head : bool; sub_tail : bool
}.

(** An entry of the rmap section with its binaries; [r_info] is [None] when it is not
    initialized, [r_ppu] is [Some] when the section of PPU binaries has one for it. *)
Record Rmap := mkRmap {
  r_name : string; r_info : option TaskData.rmapinfo;
  r_inputs : list string; r_outputs : list string;
  r_rmap : list Z; r_weight : list Z; r_ppu : option (list Z)
}.

(** What the engine reads of a task. *)
Record TaskInfo := mkInfo {
  inputs : list Tensor; outputs : list Tensor; inputOffsets : list Z; output_size : Z;
  is_PPU : bool; is_NPU : bool; dynamic : bool; NPU_block_size : Z
}.

Record ModelData := mkModel {
  topoSort_order : list string;
  subgraphs : list (string * SubGraph);
  graph_inputs : list string; graph_outputs : list string;
  rmaps : list Rmap;
  cpu_models : list (string * list Z);
  version8 : bool;       (** the file format is version 8 *)
  supported : bool       (** [isSupporterModelVersion] of the compiler version *)
}.

(** [nexts] and [prevs] are positions in the list of tasks. *)
Record Task := mkTask {
  task_name : string; info : TaskInfo; is_head : bool; is_tail : bool;
  nexts : list nat; prevs : list nat; tailOffset : Z
}.

Inductive error :=
| InvalidModel | AssertFailed | InsufficientMemory
| TaskFailed (f : TaskData.failure)   (** [set_from_npu] threw *)
| CpuTaskFailed
| OutOfRange.                         (** an element that does not exist: undefined *)
Definition res (A : Type) : Type := (error + A)%type.
#[export] Instance engine_ret : MRet res := fun A x => inr x.
#[export] Instance engine_bind : MBind res :=
  fun A B f x => match x with inl e => inl e | inr a => f a end.

Definition lift {A} (x : TaskData.res A) : res A :=
  match x with inl f => inl (TaskFailed f) | inr a => inr a end.

(** ** The tasks *)

(** The maps from names to positions keep the first entry of a name. *)
Definition find_rmap (md : ModelData) (n : string) : option Rmap :=
  find (fun r => bool_decide (r_name r = n)) (rmaps md).
Definition find_cpu_model (md : ModelData) (n : string) : option (list Z) :=
  snd <$> find (fun c => bool_decide (c.1 = n)) (cpu_models md).
Definition subgraph (md : ModelData) (n : string) : SubGraph :=
  default (mkSubGraph [] [] false false) (snd <$> find (fun s => bool_decide (s.1 = n)) (subgraphs md)).

(** The constructor of a tensor; [GetDataSize_Datatype] can end the process. *)
Definition new_tensor (n : string) (sh : list Z) (dtype : Z) : res Tensor :=
  es ← lift (TaskData.GetDataSize_Datatype dtype); mret (mkTensor n sh es).

Fixpoint new_tensors (ns : list string) (l : list (list Z * Z)) : res (list Tensor) :=
  match ns, l with
  | n :: ns, (sh, dt) :: l => t ← new_tensor n sh dt; ts ← new_tensors ns l; mret (t :: ts)
  | _, _ => mret []
  end.

(** The name of the single output of a task with a PPU binary. *)
Definition ppu_tensor_name (i : TaskData.rmapinfo) : string :=
  let layout := TaskData.LayoutFromPpuType (TaskData.ri_ppu_type i) in
  if layout =? TaskData.PPU_YOLO then "BBOX"
  else if layout =? TaskData.PPU_FD then "FACE"
  else if layout =? TaskData.PPU_POSE then "POSE" else "NONE".

Definition hasPpuBinary (md : ModelData) (r : Rmap) : bool :=
  version8 md && (if r_ppu r then true else false).

(** The binaries handed to the task. *)
Definition task_binaries (md : ModelData) (r : Rmap) : list (list Z) :=
  [r_rmap r; r_weight r] ++ (if version8 md then match r_ppu r with Some b => [b] | None => [] end else []).

Definition npu_task (md : ModelData) (bufferCount : Z) (r : Rmap) (i : TaskData.rmapinfo) : res TaskInfo :=
  td ← lift (TaskData.set_from_npu bufferCount i (task_binaries md r) (hasPpuBinary md r));
  ins ← new_tensors (r_inputs r)
          (map (fun t => (TaskData.ti_shape t, TaskData.ti_dtype t)) (TaskData.ri_inputs i));
  let names := if hasPpuBinary md r then [ppu_tensor_name i] else r_outputs r in
  outs ← new_tensors names (TaskData.t_outputTensors td);
  mret (mkInfo ins outs (TaskData.t_inputOffsets td) (TaskData.t_outputSize td)
          (TaskData.t_isPPU td) true false (TaskData.NPU_block_size td)).

Section Load.
Context (cpu_handle : list Z -> option TaskInfo).
Context (md : ModelData) (useORT : bool).

Definition cpu_task (b : list Z) : res TaskInfo :=
  match cpu_handle b with Some i => mret i | None => inl CpuTaskFailed end.

Definition new_task (n : string) (i : TaskInfo) : Task :=
  mkTask n i (if useORT then sub_head (subgraph md n) else true)
    (if useORT then sub_tail (subgraph md n) else true) [] [] 0.

(** What is found under a name of the order: an NPU task, else a CPU task. *)
Definition construct (bufferCount : Z) (n : string) : res (option TaskInfo) :=
  match find_rmap md n with
  | Some r =>
      if negb (supported md) then inl InvalidModel
      else if bool_decide (r_rmap r = []) then inl InvalidModel
      else i ← match r_info r with
               | Some i => npu_task md bufferCount r i
               | None => cpu_task (r_rmap r)
               end;
           mret (Some i)
  | None =>
      if useORT then
        match find_cpu_model md n with
        | Some b => i ← cpu_task b; mret (Some i)
        | None => mret None
        end
      else mret None
  end.

(** The loop of [buildTasksAndSubgraphMap]; the flag is [found] of the last name. *)
Fixpoint build_tasks (bufferCount : Z) (order : list string) (acc : list Task) (found : bool)
    : res (list Task * bool) :=
  match order with
  | [] => mret (acc, found)
  | n :: order =>
      o ← construct bufferCount n;
      match o with
      | None => build_tasks bufferCount order acc false
      | Some i =>
          let acc := acc ++ [new_task n i] in
          if useORT then build_tasks bufferCount order acc true else mret (acc, true)
      end
  end.

(** The order of the graph information, or the single NPU task. *)
Definition task_order : res (list string) :=
  match topoSort_order md with
  | [] => match rmaps md with r :: _ => mret [r_name r] | [] => inl OutOfRange end
  | l => mret l
  end.

(** *** The number of buffers *)

Definition encoded_input_size (i : TaskData.rmapinfo) : Z := TaskData.sum_sizes (TaskData.ri_inputs i).

(** What a task of the order adds to the two costs. *)
Definition buffer_cost (n : string) : Z * Z :=
  match find_rmap md n with
  | Some r =>
      match r_info r with
      | Some i =>
          (Z.of_nat (length (r_rmap r)) + Z.of_nat (length (r_weight r)) +
             Z.of_nat (length (default [] (r_ppu r))),
           TaskData.data_align (encoded_input_size i) 64 +
             u32 (TaskData.mem_size (TaskData.ri_model_output i)))
      | None => (0, 0)
      end
  | None => (0, 0)
  end.

Definition total_cost (order : list string) : Z * Z :=
  foldl (fun c n => (u64 (c.1 + (buffer_cost n).1), u64 (c.2 + (buffer_cost n).2))) (0, 0) order.

Definition min_mem_size (mem_sizes : list Z) : Z :=
  foldl (fun m s => if s <? m then s else m) UINT64_MAX mem_sizes.

End Load.

(** The loop of [calculateMaxBufferCount]: it takes fewer rounds than [adjusted]. *)
Fixpoint shrink (fuel : nat) (npuMemSize totalFixedCost totalPerBufferCost adjusted : Z) : Z :=
  match fuel with
  | O => adjusted
  | S fuel =>
      if 1 <? adjusted then
        let total := u64 (totalFixedCost + u64 (totalPerBufferCost * adjusted)) in
        if total <=? npuMemSize then adjusted
        else shrink fuel npuMemSize totalFixedCost totalPerBufferCost (adjusted - 1)
      else adjusted
  end.

Definition calculateMaxBufferCount (npuMemSize totalFixedCost totalPerBufferCost initialCount : Z)
    : res Z :=
  let adjusted := shrink (Z.to_nat initialCount) npuMemSize totalFixedCost totalPerBufferCost initialCount in
  let final_total := u64 (totalFixedCost + totalPerBufferCost) in
  if npuMemSize <? final_total then inl InsufficientMemory else mret adjusted.

(** [mem_sizes]: the memories of the selected devices. *)
Definition adjustBufferCountForNpuMemory (md : ModelData) (bufferCount : Z) (mem_sizes : list Z)
    (order : list string) : res Z :=
  let c := total_cost md order in
  calculateMaxBufferCount (min_mem_size mem_sizes) c.1 c.2 bufferCount.


(** ** The graph *)

Definition names (l : list Tensor) : list string := name <$> l.

(** [_taskMap]: the last task of a name. *)
Definition taskMap (ts : list Task) : gmap string nat :=
  foldl (fun m kt => <[task_name kt.2 := kt.1]> m) ∅ (imap pair ts).

(** A link that is there already is not added again. *)
Definition add_link {A} `{EqDecision A} (l : list A) (x : A) : list A :=
  if decide (x ∈ l) then l else l ++ [x].

Definition link_names (m : gmap string nat) (l : list string) : list nat :=
  foldl (fun l n => match m !! n with Some k => add_link l k | None => l end) [] l.

Definition all_users (s : SubGraph) : list string := concat (users <$> sub_outputs s).
Definition all_owners (s : SubGraph) : list string :=
  filter (fun o => o <> "") (owner <$> sub_inputs s).

Definition link_task (md : ModelData) (m : gmap string nat) (t : Task) : Task :=
  mkTask (task_name t) (info t) (is_head t) (is_tail t)
    (link_names m (all_users (subgraph md (task_name t))))
    (link_names m (all_owners (subgraph md (task_name t)))) (tailOffset t).

Definition buildTaskGraph (md : ModelData) (ts : list Task) : list Task :=
  link_task md (taskMap ts) <$> ts.

Definition isPPU (ts : list Task) : bool := existsb (fun t => is_PPU (info t)) ts.

(** ** The orders of the inputs and outputs *)

Definition heads (ts : list Task) : list Task := filter is_head ts.
Definition tails (ts : list Task) : list Task := filter is_tail ts.

Definition modelInputOrder (md : ModelData) (useORT : bool) (ts : list Task) : list string :=
  if useORT then graph_inputs md else concat ((fun t => names (inputs (info t))) <$> heads ts).

Definition tail_outputs (ts : list Task) : list string :=
  concat ((fun t => names (outputs (info t))) <$> tails ts).

(** The order before the tasks with a PPU are looked at. *)
Definition firstOutputOrder (md : ModelData) (useORT : bool) (ts : list Task) : list string :=
  if useORT then graph_outputs md else tail_outputs ts.

Definition lastOutputOrder (md : ModelData) (useORT : bool) (ts : list Task) : list string :=
  if isPPU ts then tail_outputs ts else firstOutputOrder md useORT ts.

(** The tail tasks with the names of their outputs of the model. *)
Definition tailTaskOutputs (md : ModelData) (useORT : bool) (ts : list Task)
    : list (Task * list string) :=
  if useORT then
    filter (fun p => p.2 <> [])
      ((fun t => (t, filter (fun n => n ∈ graph_outputs md) (names (outputs (info t))))) <$> tails ts)
  else (fun t => (t, names (outputs (info t)))) <$> tails ts.

(** *** The offsets of the tail tasks *)

Definition set_tailOffset (z : Z) (t : Task) : Task :=
  mkTask (task_name t) (info t) (is_head t) (is_tail t) (nexts t) (prevs t) z.

(** A model with a PPU: the tail tasks one after the other. *)
Fixpoint ppu_tailOffsets (cumulative : Z) (ts : list Task) : list Task :=
  match ts with
  | [] => []
  | t :: ts =>
      if is_tail t
      then set_tailOffset cumulative t :: ppu_tailOffsets (i64 (cumulative + output_size (info t))) ts
      else t :: ppu_tailOffsets cumulative ts
  end.

(** The position of a name in the order, the last one when it is there twice. *)
Definition position (order : list string) (n : string) : option nat :=
  foldl (fun p kn => if bool_decide (kn.2 = n) then Some kn.1 else p) None (imap pair order).

Definition min_position (order ns : list string) : option nat :=
  foldl (fun p n => match position order n, p with
                    | Some k, Some q => Some (k `min` q)%nat
                    | Some k, None => Some k
                    | None, _ => p
                    end) None ns.

Definition find_output (n : string) (t : Task) : option Tensor :=
  find (fun o => bool_decide (name o = n)) (outputs (info t)).
Definition find_input (n : string) (t : Task) : option Tensor :=
  find (fun o => bool_decide (name o = n)) (inputs (info t)).

(** The sizes of the tensors before a position, once for each tail task that has them. *)
Definition preceding_size (tto : list (Task * list string)) (order : list string) (k : nat) : Z :=
  foldl (fun z n =>
    foldl (fun z p => match find_output n p.1 with
                      | Some o => i64 (z + size_in_bytes o)
                      | None => z
                      end) z tto) 0 (take k order).

Definition standard_tailOffset (tto : list (Task * list string)) (order : list string)
    (t : Task) (ns : list string) : res Task :=
  match min_position order ns with
  | None => inl InvalidModel
  | Some k => mret (set_tailOffset (preceding_size tto order k) t)
  end.

(** The tail tasks are visited in the order of the tasks; only their offsets change,
    and what is read of the other tasks does not depend on it. *)
Fixpoint standard_tailOffsets (tto : list (Task * list string)) (order : list string)
    (is_listed : Task -> option (list string)) (ts : list Task) : res (list Task) :=
  match ts with
  | [] => mret []
  | t :: ts =>
      t' ← match is_listed t with
           | Some ns => standard_tailOffset tto order t ns
           | None => mret t
           end;
      ts' ← standard_tailOffsets tto order is_listed ts; mret (t' :: ts')
  end.

Definition listed_outputs (md : ModelData) (useORT : bool) (t : Task) : option (list string) :=
  if is_tail t then
    let ns := names (outputs (info t)) in
    if useORT then
      match filter (fun n => n ∈ graph_outputs md) ns with [] => None | l => Some l end
    else Some ns
  else None.

Definition set_tailOffsets (md : ModelData) (useORT : bool) (ts : list Task) : res (list Task) :=
  if isPPU ts then
    mret (if bool_decide (tail_outputs ts = firstOutputOrder md useORT ts) then ts
          else ppu_tailOffsets 0 ts)
  else standard_tailOffsets (tailTaskOutputs md useORT ts) (firstOutputOrder md useORT ts)
         (listed_outputs md useORT) ts.

(** ** Which task takes an input of the model *)

(** One input of the order: the last task whose subgraph has it without an owner. *)
Definition map_input (md : ModelData) (ts : list Task) (st : gmap string string * list nat) (n : string)
    : gmap string string * list nat :=
  foldl (fun st kt =>
    if existsb (fun g => bool_decide (gt_name g = n) && bool_decide (owner g = ""))
         (sub_inputs (subgraph md (task_name kt.2)))
    then (<[n := task_name kt.2]> st.1, add_link st.2 kt.1) else st) st (imap pair ts).

Definition map_head (st : gmap string string * list nat) (kt : nat * Task)
    : gmap string string * list nat :=
  if is_head kt.2 then
    foldl (fun st n => (<[n := task_name kt.2]> st.1, add_link st.2 kt.1)) st (names (inputs (info kt.2)))
  else st.

(** [_inputTensorToTaskMap] and [_inputTasks]. *)
Definition buildInputTensorMapping (md : ModelData) (useORT : bool) (ts : list Task)
    : gmap string string * list nat :=
  if useORT then foldl (map_input md ts) (∅, []) (graph_inputs md)
  else foldl map_head (∅, []) (imap pair ts).

(** ** The registry of tensors *)

Record TensorDescriptor := mkDescriptor {
  producerTask : string; consumerTasks : list string;
  isModelInput : bool; isModelOutput : bool;
  sizeInBytes : Z; outputBufferOffset : Z
}.

(** The first task that has the output; a task without a name does not end the search. *)
Fixpoint find_producer (n : string) (ts : list Task) (d : string * Z) : string * Z :=
  match ts with
  | [] => d
  | t :: ts =>
      let d := match find_output n t with Some o => (task_name t, size_in_bytes o) | None => d end in
      if bool_decide (d.1 = "") then find_producer n ts d else d
  end.

Definition consumers (n : string) (ts : list Task) : list string :=
  concat ((fun t => (fun _ => task_name t) <$> filter (fun i => name i = n) (inputs (info t))) <$> ts).

Definition descriptor (ts : list Task) (ins outs : list string) (n : string) : TensorDescriptor :=
  let d := find_producer n ts ("", 0) in
  mkDescriptor d.1 (consumers n ts) (bool_decide (n ∈ ins)) (bool_decide (n ∈ outs)) d.2 0.

Definition allTensorNames (ts : list Task) : list string :=
  concat ((fun t => names (inputs (info t)) ++ names (outputs (info t))) <$> ts).

Definition buildTensorRegistry (ts : list Task) (ins outs : list string) : gmap string TensorDescriptor :=
  list_to_map ((fun n => (n, descriptor ts ins outs n)) <$> allTensorNames ts).

Definition set_offset (z : Z) (d : TensorDescriptor) : TensorDescriptor :=
  mkDescriptor (producerTask d) (consumerTasks d) (isModelInput d) (isModelOutput d) (sizeInBytes d) z.

(** The registry, [_cachedOutputOffsets] and [currentOffset]. *)
Definition place_output (st : gmap string TensorDescriptor * gmap string Z * Z) (n : string)
    : gmap string TensorDescriptor * gmap string Z * Z :=
  let '(reg, off, cur) := st in
  match reg !! n with
  | Some d => (<[n := set_offset cur d]> reg, <[n := cur]> off, u64 (cur + sizeInBytes d))
  | None => st
  end.

Definition calculateTensorOffsets (reg : gmap string TensorDescriptor) (order : list string)
    : gmap string TensorDescriptor * gmap string Z :=
  (foldl place_output (reg, ∅, 0) order).1.

(** ** The check of the loaded model

    Compiled with [CHECK_INPUT_OUTPUT_MISTMATCH] only. *)

Definition MAX_TENSOR_SIZE : Z := 4 * 1024 * 1024 * 1024.

Definition total_input_size (l : list Tensor) : Z := foldl (fun z i => u64 (z + size_in_bytes i)) 0 l.

(** One task of the order, with the names that are available before it. *)
Definition check_task (available : list string) (t : Task) : bool :=
  let i := info t in
  forallb (fun x => bool_decide (name x ∈ available) && (size_in_bytes x <=? MAX_TENSOR_SIZE)) (inputs i) &&
  forallb (fun x => size_in_bytes x <=? MAX_TENSOR_SIZE) (outputs i) &&
  negb (total_input_size (inputs i) =? 0) && negb (output_size i =? 0) &&
  (total_input_size (inputs i) <=? MAX_TENSOR_SIZE) &&
  (u64 (NPU_block_size i) <? MAX_TENSOR_SIZE).

Fixpoint check_order (ts : list Task) (m : gmap string nat) (order available : list string) : bool :=
  match order with
  | [] => true
  | n :: order =>
      match m !! n ≫= (fun k => ts !! k) with
      | None => false
      | Some t => check_task available t && check_order ts m order (available ++ names (outputs (info t)))
      end
  end.

(** [false] is the exception. *)
Definition checkInputOutputMistmatch (ts : list Task) (ins : list string) : bool :=
  check_order ts (taskMap ts) (task_name <$> ts) ins &&
  bool_decide (length ts = size (taskMap ts)).

(** ** The engine *)

Record InferenceEngine := mkEngine {
  e_tasks : list Task;
  e_inputOrder : list string;
  e_outputOrder : list string;
  e_inputTensorToTaskMap : gmap string string;
  e_inputTasks : list nat;
  e_tensorRegistry : gmap string TensorDescriptor;
  e_cachedOutputOffsets : gmap string Z
}.

Definition guard (b : bool) (e : error) : res unit := if b then mret tt else inl e.

(** [loadModelFromMemory] from the parsed model on; [checked] is whether the check is
    compiled in. *)
Definition loadModel (cpu_handle : list Z -> option TaskInfo) (checked useORT : bool) (md : ModelData)
    (bufferCount : Z) (mem_sizes : list Z) : res InferenceEngine :=
  order ← task_order md;
  count ← adjustBufferCountForNpuMemory md bufferCount mem_sizes order;
  '(ts0, found) ← build_tasks cpu_handle md useORT count order [] false;
  _ ← guard found AssertFailed;
  let ins := modelInputOrder md useORT ts0 in
  let mapping := buildInputTensorMapping md useORT ts0 in
  let ts1 := buildTaskGraph md ts0 in
  ts2 ← set_tailOffsets md useORT ts1;
  let outs := lastOutputOrder md useORT ts1 in
  _ ← guard (negb (bool_decide (outs = []))) AssertFailed;
  _ ← guard (negb (bool_decide (tailTaskOutputs md useORT ts1 = []))) AssertFailed;
  let placed := calculateTensorOffsets (buildTensorRegistry ts2 ins outs) outs in
  _ ← guard (negb checked || checkInputOutputMistmatch ts2 ins) InvalidModel;
  mret (mkEngine ts2 ins outs mapping.1 mapping.2 placed.1 placed.2).

(** [_isMultiInput] *)
Definition IsMultiInput (e : InferenceEngine) : bool := (1 <? length (e_inputOrder e))%nat.

(** The offsets are calculated once, when the model is loaded. *)
Definition GetOutputTensorOffset (e : InferenceEngine) (n : string) : Z :=
  default 0 (e_cachedOutputOffsets e !! n).

Definition HasDynamicOutput (e : InferenceEngine) : bool :=
  existsb (fun t => dynamic (info t) || existsb (fun o => size_in_bytes o =? 0) (outputs (info t)))
    (e_tasks e).

(** One name of the order: the tasks in turn, up to a task with a PPU ([inr]). *)
Fixpoint output_sizes (n : string) (ts : list Task) (z : Z) : Z + Z :=
  match ts with
  | [] => inl z
  | t :: ts =>
      if is_PPU (info t) then inr (output_size (info t))
      else output_sizes n ts
             (foldl (fun z o => if bool_decide (name o = n) then u64 (z + size_in_bytes o) else z)
                z (outputs (info t)))
  end.

Fixpoint sum_output_sizes (ts : list Task) (order : list string) (z : Z) : Z :=
  match order with
  | [] => z
  | n :: order =>
      match output_sizes n ts z with inr r => r | inl z => sum_output_sizes ts order z end
  end.

Definition GetOutputSize (e : InferenceEngine) : Z :=
  if HasDynamicOutput e then 0 else sum_output_sizes (e_tasks e) (e_outputOrder e) 0.

Definition isTensorModelOutput (e : InferenceEngine) (n : string) : bool :=
  match e_tensorRegistry e !! n with Some d => isModelOutput d | None => false end.
Definition isTensorModelInput (e : InferenceEngine) (n : string) : bool :=
  match e_tensorRegistry e !! n with Some d => isModelInput d | None => false end.
Definition supportsTensorCentricOffsets (e : InferenceEngine) : bool :=
  negb (bool_decide (e_tensorRegistry e = ∅)) && negb (bool_decide (e_outputOrder e = [])).

(** The size of an input, found through the task it is mapped to. *)
Definition input_size_of (e : InferenceEngine) (n : string) : option Z :=
  tn ← e_inputTensorToTaskMap e !! n;
  k ← taskMap (e_tasks e) !! tn;
  t ← e_tasks e !! k;
  size_in_bytes <$> find_input n t.

Definition GetInputTensorSizes (e : InferenceEngine) : list Z :=
  omap (input_size_of e) (e_inputOrder e).
Definition GetInputSize (e : InferenceEngine) : Z :=
  foldl (fun z s => u64 (z + s)) 0 (GetInputTensorSizes e).

(** The first task that is a PPU task or has the output. *)
Fixpoint tryGetOutputTensorSize (n : string) (ts : list Task) : option Z :=
  match ts with
  | [] => None
  | t :: ts =>
      if is_PPU (info t) then Some (output_size (info t))
      else match find_output n t with
           | Some o => Some (size_in_bytes o)
           | None => tryGetOutputTensorSize n ts
           end
  end.
Definition GetOutputTensorSizes (e : InferenceEngine) : list Z :=
  omap (fun n => tryGetOutputTensorSize n (e_tasks e)) (e_outputOrder e).

(** ** The engine a job runs on *)

Definition job_tensor (t : Tensor) : InferenceJob.Tensor :=
  InferenceJob.mkTensor (name t) (size_in_bytes t) None 0.
Definition job_task (t : Task) : InferenceJob.Task :=
  InferenceJob.mkTask (task_name t) (job_tensor <$> inputs (info t)) (inputOffsets (info t))
    (job_tensor <$> outputs (info t)) (nexts t) (is_tail t) (is_NPU (info t)).
Definition job_engine (e : InferenceEngine) : InferenceJob.engine :=
  InferenceJob.mkEngine (job_task <$> e_tasks e) (e_inputOrder e) (e_outputOrder e)
    (GetOutputTensorOffset e).

End Engine.
