(* ===== verification/EngineBuffers.v ===== *)
(** * The inference engine: the number of buffers

    [adjustBufferCountForNpuMemory] returns the largest count that fits the smallest
    device, and the memory it reckons with is the memory [TaskData] accounts for a task, but for the tasks
    with a PPU. *)

From Stdlib Require Import ZArith Lia.
From stdpp Require Import strings.
From S2P Require Import Prelude TaskData Engine.
Import Engine.

Section Fit.
Context (mem fixed per : Z).
Hypothesis fixed_pos : 0 <= fixed.
Hypothesis per_pos : 0 <= per.

Definition need (n : Z) : Z := fixed + per * n.

Lemma need_u64 n : 0 <= n -> need n < 2 ^ 64 -> u64 (fixed + u64 (per * n)) = need n.
Proof. unfold need. intros H1 H2. rewrite (uwrap_small 64 (per * n)) by nia. apply uwrap_small. nia. Qed.

Lemma need_mono n m : n <= m -> need n <= need m.
Proof. unfold need. nia. Qed.

(** The loop stops at one or at the largest count that fits. *)
Lemma shrink_spec fuel n :
  need n < 2 ^ 64 -> 1 <= n <= Z.of_nat fuel ->
  1 <= shrink fuel mem fixed per n <= n /\
  (need (shrink fuel mem fixed per n) <= mem \/ shrink fuel mem fixed per n = 1) /\
  forall m, shrink fuel mem fixed per n < m <= n -> mem < need m.
Proof.
  revert n. induction fuel as [|fuel IH]; intros n Hn Hf; [lia|]. cbn [shrink].
  destruct (Z.ltb_spec 1 n) as [H1|H1].
  - cbn zeta. rewrite need_u64 by lia. destruct (Z.leb_spec (need n) mem) as [H2|H2].
    { split; [lia|]. split; [by left|lia]. }
    pose proof (need_mono (n - 1) n).
    destruct (IH (n - 1)) as (A & B & C); [lia..|]. split; [lia|]. split; [done|].
    intros m Hm. destruct (decide (m = n)) as [->|]; [done|]. apply C. lia.
  - split; [lia|]. split; [right|]; lia.
Qed.
End Fit.

(** ** The memory of the tasks of a model *)

(** What the tasks of the order need with [n] buffers, as the engine reckons: the
    binaries of every NPU task, and for every buffer its input and its output. *)
Definition fixed_bytes (md : ModelData) (order : list string) : Z :=
  sum_Z (map (fun x => (buffer_cost md x).1) order).
Definition buffer_bytes (md : ModelData) (order : list string) : Z :=
  sum_Z (map (fun x => (buffer_cost md x).2) order).
Definition reckoned (md : ModelData) (order : list string) (n : Z) : Z :=
  need (fixed_bytes md order) (buffer_bytes md order) n.

Lemma buffer_cost_nonneg md x : 0 <= (buffer_cost md x).1 /\ 0 <= (buffer_cost md x).2.
Proof.
  unfold buffer_cost. destruct (find_rmap md x) as [r|]; [|done].
  destruct (r_info r) as [i|]; [|done]. cbn [fst snd].
  pose proof (uwrap_range 32 (TaskData.mem_size (TaskData.ri_model_output i)) ltac:(lia)).
  assert (0 <= TaskData.data_align (encoded_input_size i) 64) by (by apply uwrap_range). lia.
Qed.

Lemma reckoned_nonneg md order : 0 <= fixed_bytes md order /\ 0 <= buffer_bytes md order.
Proof.
  split; apply sum_Z_nonneg, Forall_forall; intros z (x & <- & _)%list_elem_of_In%in_map_iff;
    apply buffer_cost_nonneg.
Qed.

Lemma fold_costs md order a b :
  0 <= a -> 0 <= b -> a + fixed_bytes md order < 2 ^ 64 -> b + buffer_bytes md order < 2 ^ 64 ->
  foldl (fun c n => (u64 (c.1 + (buffer_cost md n).1), u64 (c.2 + (buffer_cost md n).2))) (a, b) order
  = (a + fixed_bytes md order, b + buffer_bytes md order).
Proof.
  unfold fixed_bytes, buffer_bytes. revert a b. induction order as [|x order IH]; intros a b Ha Hb H1 H2.
  { cbn. f_equal; lia. }
  cbn [foldl map sum_Z foldr fst snd] in *.
  change (foldr Z.add 0 ?l) with (sum_Z l) in *. destruct (buffer_cost_nonneg md x).
  destruct (reckoned_nonneg md order) as [P Q]. unfold fixed_bytes, buffer_bytes in P, Q.
  rewrite !uwrap_small by lia. rewrite IH by lia. f_equal; lia.
Qed.

Lemma total_cost_eq md order :
  fixed_bytes md order < 2 ^ 64 -> buffer_bytes md order < 2 ^ 64 ->
  total_cost md order = (fixed_bytes md order, buffer_bytes md order).
Proof. intros. apply fold_costs; lia. Qed.

(** The smallest memory of the devices. *)
Lemma min_mem_spec mems z :
  z <= UINT64_MAX -> z <= min_mem_size mems <-> Forall (fun s => z <= s) mems.
Proof.
  unfold min_mem_size. generalize UINT64_MAX as m. induction mems as [|s mems IH]; intros m Hm.
  - by split.
  - cbn [foldl]. rewrite Forall_cons. destruct (Z.ltb_spec s m).
    + split.
      * intros Hz. assert (z <= s); [|split; [done|by apply (IH s)]].
        clear - Hz. revert s Hz. induction mems as [|s' mems IH]; intros s; cbn [foldl]; [done|].
        destruct (Z.ltb_spec s' s); intros Hz%IH; lia.
      * intros [H1 H2]. by apply IH.
    + rewrite IH by done. split; [intros; split; [lia|done]|tauto].
Qed.

(** C33. The number of buffers chosen for a model: the largest one, up to the number asked
    for, with which every selected device has the memory the engine reckons its tasks
    need ([reckoned]: the binaries of the NPU tasks, and for every buffer the aligned
    input and the output region); the model is refused exactly when some device has too
    little of it for one buffer.  What the engine reckons is what the task of a model
    with one NPU task takes only when that task has no PPU region, [memory_estimate]:
    with one, the tasks may not fit with the number chosen ([memory_estimate_witness]). *)
Theorem buffer_count_maximal md initial mems order :
  1 <= initial <= INT32_MAX -> reckoned md order initial < 2 ^ 64 ->
  match adjustBufferCountForNpuMemory md initial mems order with
  | inr n => 1 <= n <= initial /\ Forall (fun s => reckoned md order n <= s) mems /\
             forall m, n < m <= initial -> ~ Forall (fun s => reckoned md order m <= s) mems
  | inl e => e = InsufficientMemory /\
             forall m, 1 <= m <= initial -> ~ Forall (fun s => reckoned md order m <= s) mems
  end.
Proof.
  intros Hi Hn. destruct (reckoned_nonneg md order) as [Hf Hp].
  unfold reckoned in *. set (fixed := fixed_bytes md order) in *.
  set (per := buffer_bytes md order) in *.
  assert (fixed < 2 ^ 64 /\ per < 2 ^ 64) as [H1 H2] by (unfold need in Hn; nia).
  assert (forall m, m <= initial ->
    (Forall (fun s => need fixed per m <= s) mems <-> need fixed per m <= min_mem_size mems)) as HM.
  { intros m Hm. symmetry. apply min_mem_spec. pose proof (need_mono fixed per Hp m initial Hm).
    unfold UINT64_MAX. lia. }
  unfold adjustBufferCountForNpuMemory, calculateMaxBufferCount.
  rewrite (total_cost_eq md order H1 H2). cbn zeta. cbn [fst snd]. fold fixed per.
  pose proof (need_mono fixed per Hp 1 initial).
  assert (u64 (fixed + per) = need fixed per 1) as ->
    by (unfold need in *; rewrite uwrap_small; lia).
  set (mem := min_mem_size mems) in *.
  destruct (shrink_spec mem fixed per Hf Hp (Z.to_nat initial) initial Hn) as (A & B & C); [lia|].
  destruct (Z.ltb_spec mem (need fixed per 1)) as [H3|H3].
  - split; [done|]. intros m Hm. rewrite HM by lia. pose proof (need_mono fixed per Hp 1 m). lia.
  - cbn. split; [done|]. rewrite HM by lia. split; [by destruct B as [B| ->]|].
    intros m Hm. rewrite HM by lia. specialize (C m Hm). lia.
Qed.

(** ** The estimate and the account of a task *)

Lemma isPPU_npu_kind i a b l m :
  TaskData.k_ppu (TaskData.npu_kind i a b l m) = true ->
  TaskData.output_all_size (TaskData.k_model (TaskData.npu_kind i a b l m)) =
    u32 (TaskData.output_all_size m + TaskData.PPU_OUTPUT).
Proof. unfold TaskData.npu_kind. by split_goal. Qed.

Lemma not_PPU_npu_kind i a b l m :
  TaskData.k_ppu (TaskData.npu_kind i a b l m) = false ->
  TaskData.output_all_size (TaskData.k_model (TaskData.npu_kind i a b l m)) = TaskData.output_all_size m.
Proof. unfold TaskData.npu_kind. by split_goal. Qed.

(** What a task without a PPU binary accounts for, by what it is. *)
Lemma set_from_npu_memory bc i r w t :
  TaskData.set_from_npu bc i [r; w] false = inr t ->
  exists out, TaskData.t_memUsage t =
      u64 (Z.of_nat (length r) + Z.of_nat (length w) +
           TaskData.data_align (encoded_input_size i) 64 * bc + Z.max 0 out * bc) /\
    out = (let m := u32 (TaskData.mem_size (TaskData.ri_model_output i)) in
           if TaskData.t_isPPU t then u32 (m + TaskData.PPU_OUTPUT) else m).
Proof.
  unfold TaskData.set_from_npu. intros E.
  apply TaskDataSpec.bind_inr in E as (o & _ & E). apply TaskDataSpec.bind_inr in E as ([] & _ & E).
  apply TaskDataSpec.bind_inr in E as (isz & _ & E). apply TaskDataSpec.bind_inr in E as (os & _ & E).
  apply TaskDataSpec.bind_inr in E as ([rs ws] & Er & E). injection Er as <- <-.
  apply TaskDataSpec.bind_inr in E as ([] & _ & E). apply TaskDataSpec.bind_inr in E as (k & Ek & E).
  injection Ek as <-. injection E as <-. eexists. split; [reflexivity|]. cbn -[TaskData.npu_kind].
  destruct (TaskData.k_ppu _) eqn:Ep.
  - by rewrite isPPU_npu_kind.
  - by rewrite not_PPU_npu_kind.
Qed.

Lemma total_cost_one md n rm i :
  find_rmap md n = Some rm -> r_info rm = Some i -> r_ppu rm = None ->
  Z.of_nat (length (r_rmap rm)) + Z.of_nat (length (r_weight rm)) < 2 ^ 64 ->
  total_cost md [n] = (Z.of_nat (length (r_rmap rm)) + Z.of_nat (length (r_weight rm)),
    TaskData.data_align (encoded_input_size i) 64 + u32 (TaskData.mem_size (TaskData.ri_model_output i))).
Proof.
  intros Hr Hi Hp Hs. unfold total_cost, buffer_cost. cbn [foldl]. rewrite Hr, Hi, Hp. cbn [fst snd].
  change (length (default [] None)) with 0%nat. rewrite Z.add_0_r, !Z.add_0_l.
  assert (0 <= TaskData.data_align (encoded_input_size i) 64 < 2 ^ 32) by (by apply uwrap_range).
  assert (0 <= u32 (TaskData.mem_size (TaskData.ri_model_output i)) < 2 ^ 32) by (by apply uwrap_range).
  rewrite !uwrap_small by lia. done.
Qed.

(** For a model of one NPU task the memory the number of buffers was chosen with is the
    memory the task then accounts for, so it fits the devices; for a task with a PPU
    region the estimate lacks that region, 128 KiB for every buffer. *)
Theorem memory_estimate md n rm i initial mems count t :
  find_rmap md n = Some rm -> r_info rm = Some i -> r_ppu rm = None ->
  let c := total_cost md [n] in
  Z.of_nat (length (r_rmap rm)) + Z.of_nat (length (r_weight rm)) < 2 ^ 48 ->
  1 <= initial <= 2 ^ 30 ->
  u32 (TaskData.mem_size (TaskData.ri_model_output i)) + TaskData.PPU_OUTPUT < 2 ^ 32 ->
  adjustBufferCountForNpuMemory md initial mems [n] = inr count ->
  TaskData.set_from_npu count i (task_binaries md rm) (hasPpuBinary md rm) = inr t ->
  need c.1 c.2 count <= min_mem_size mems /\
  TaskData.t_memUsage t =
    need c.1 c.2 count + (if TaskData.t_isPPU t then TaskData.PPU_OUTPUT * count else 0).
Proof.
  intros Hr Hi Hp c Hs Hin Hu Ha Ht.
  pose proof (total_cost_one md n rm i Hr Hi Hp ltac:(lia)) as Ec.
  set (al := TaskData.data_align (encoded_input_size i) 64) in *.
  set (mo := u32 (TaskData.mem_size (TaskData.ri_model_output i))) in *.
  assert (0 <= al < 2 ^ 32) as Hal by (by apply uwrap_range).
  assert (0 <= mo < 2 ^ 32) as Hmo by (by apply uwrap_range).
  assert (need c.1 c.2 initial < 2 ^ 64) as Hn by (unfold need, c; rewrite Ec; cbn; nia).
  unfold adjustBufferCountForNpuMemory, calculateMaxBufferCount in Ha. fold c in Ha. cbn zeta in Ha.
  destruct (Z.ltb_spec (min_mem_size mems) (u64 (c.1 + c.2))) as [H1|H1]; [done|]. injection Ha as <-.
  assert (0 <= c.1 /\ 0 <= c.2) as [H2 H3] by (unfold c; rewrite Ec; cbn; lia).
  destruct (shrink_spec (min_mem_size mems) c.1 c.2 H2 H3 (Z.to_nat initial) initial Hn) as (A & B & _); [lia|].
  set (count := shrink _ _ _ _ _) in *. split.
  { destruct B as [B|B]; [done|]. rewrite B. unfold need. rewrite uwrap_small in H1; [lia|].
    unfold c. rewrite Ec. cbn. lia. }
  unfold task_binaries, hasPpuBinary in Ht. rewrite Hp, andb_false_r in Ht.
  replace (if version8 md then [] else []) with (@nil (list Z)) in Ht by (by destruct (version8 md)).
  cbn [app] in Ht. destruct (set_from_npu_memory _ _ _ _ _ Ht) as (out & -> & Eo).
  fold mo in Eo. fold al. cbn zeta in Eo. unfold c. rewrite Ec. unfold need. cbn [fst snd].
  destruct (TaskData.t_isPPU t).
  - rewrite uwrap_small in Eo by (unfold TaskData.PPU_OUTPUT in *; lia).
    unfold TaskData.PPU_OUTPUT in *. subst out. rewrite Z.max_r by lia. rewrite uwrap_small by nia. nia.
  - subst out. rewrite Z.max_r by lia. rewrite uwrap_small by nia. nia.
Qed.

(** A model with a PPU on a device of 1 MB: the task does not fit with the number of
    buffers that was chosen. *)
Definition ppu_rmap : TaskData.rmapinfo :=
  TaskData.mkRmap [TaskData.mkTensor 2 2 [64] 0 1 (TaskData.mkMem 0 64 TaskData.DRAM)]
    [TaskData.mkTensor 10 10 [1] 6 32 (TaskData.mkMem 0 64 TaskData.PPU)]
    (TaskData.mkMem 0 64 0) (TaskData.mkMem 0 64 0) 0 0 [] false 0.
Definition ppu_entry : Rmap := mkRmap "npu_0" (Some ppu_rmap) ["in"] ["out"] [1] [2] None.
Definition ppu_model : ModelData := mkModel [] [] [] [] [ppu_entry] [] false true.
Definition ppu_task : TaskData.task_data :=
  Eval vm_compute in
    match TaskData.set_from_npu 32 ppu_rmap [[1]; [2]] false with
    | inr t => t
    | inl _ => TaskData.mkTask [] [] [] [] 0 0 [] [] 0 0 0 0 []
                 (TaskData.mkModel 0 0 0 0 0 0 0 0 0 0 0 0 [] 0) false false false
    end.

Lemma memory_estimate_witness :
  adjustBufferCountForNpuMemory ppu_model 32 [1048576] ["npu_0"] = inr 32 /\
  need 2 128 32 <= 1048576 /\ TaskData.t_memUsage ppu_task = 4098 + 128 * 1024 * 32 /\
  1048576 < TaskData.t_memUsage ppu_task.
Proof.
  assert (adjustBufferCountForNpuMemory ppu_model 32 [1048576] ["npu_0"] = inr 32) as E
    by (vm_compute; reflexivity).
  destruct (memory_estimate ppu_model "npu_0" ppu_entry ppu_rmap 32 [1048576] 32 ppu_task
    eq_refl eq_refl eq_refl) as [H1 H2].
  - vm_compute. reflexivity.
  - vm_compute. split; discriminate.
  - vm_compute. reflexivity.
  - exact E.
  - vm_compute. reflexivity.
  - split; [exact E|]. split; [exact H1|]. split; [exact H2|]. vm_compute. reflexivity.
Defined.

(** The same model on devices of 1 MB and 2 KB: the smaller one has the memory for
    fifteen buffers. *)
Lemma buffer_count_maximal_witness :
  adjustBufferCountForNpuMemory ppu_model 32 [1048576; 2048] ["npu_0"] = inr 15 /\
  reckoned ppu_model ["npu_0"] 15 = 1922 /\
  ~ Forall (fun s => reckoned ppu_model ["npu_0"] 16 <= s) [1048576; 2048].
Proof.
  assert (adjustBufferCountForNpuMemory ppu_model 32 [1048576; 2048] ["npu_0"] = inr 15) as E
    by (vm_compute; reflexivity).
  pose proof (buffer_count_maximal ppu_model 32 [1048576; 2048] ["npu_0"]) as H. rewrite E in H.
  destruct H as (_ & _ & H).
  - vm_compute. split; discriminate.
  - vm_compute. reflexivity.
  - split; [exact E|]. split; [vm_compute; reflexivity|]. apply H. lia.
Defined.
