(* ===== verification/EngineTyping.v ===== *)
(** * The inference engine: well-typed models and their graphs

    A model that passes the check of the engine is well typed: names are unique and a
    task reads inputs of the model or outputs of earlier tasks, with sizes the device
    can address.  The links of a well-typed model whose graph information agrees with
    its tasks are those a job needs to complete. *)

From Stdlib Require Import ZArith Lia.
From stdpp Require Import strings.
From S2P Require Import Prelude TaskData Engine InferenceJob JobInv.
Import Engine.

(** ** The map from names to tasks *)

Lemma taskMap_dom_aux (l : list (nat * Task)) (m : gmap string nat) :
  dom (foldl (fun m kt => <[task_name kt.2 := kt.1]> m) m l) =
  list_to_set ((fun kt => task_name kt.2) <$> l) ∪ dom m.
Proof.
  revert m. induction l as [|kt l IH]; intros m; cbn [foldl fmap list_fmap list_to_set]; [set_solver|].
  rewrite IH, dom_insert_L. set_solver.
Qed.

Lemma imap_pair_fst_snd (ts : list Task) : (fun kt : nat * Task => task_name kt.2) <$> imap pair ts = task_name <$> ts.
Proof. rewrite fmap_imap. apply imap_const. Qed.

Lemma taskMap_dom ts : dom (taskMap ts) = list_to_set (task_name <$> ts).
Proof. unfold taskMap. rewrite taskMap_dom_aux, imap_pair_fst_snd, dom_empty_L. set_solver. Qed.

Lemma taskMap_skip (l : list (nat * Task)) (m : gmap string nat) n :
  n ∉ (fun kt => task_name kt.2) <$> l ->
  foldl (fun m kt => <[task_name kt.2 := kt.1]> m) m l !! n = m !! n.
Proof.
  revert m. induction l as [|kt l IH]; intros m Hn; [done|]. cbn [foldl].
  cbn [fmap list_fmap] in Hn. apply not_elem_of_cons in Hn as [H1 H2].
  rewrite IH by done. by rewrite lookup_insert_ne.
Qed.

Lemma taskMap_lookup_aux (l : list (nat * Task)) (m : gmap string nat) k t :
  NoDup ((fun kt => task_name kt.2) <$> l) -> (k, t) ∈ l ->
  foldl (fun m kt => <[task_name kt.2 := kt.1]> m) m l !! task_name t = Some k.
Proof.
  revert m. induction l as [|kt l IH]; intros m Hn Hk; [by apply elem_of_nil in Hk|].
  cbn [fmap list_fmap] in Hn. apply NoDup_cons in Hn as [H1 H2]. cbn [foldl].
  apply elem_of_cons in Hk as [<-|Hk].
  - rewrite taskMap_skip by done. by rewrite lookup_insert_eq.
  - by apply IH.
Qed.

Lemma elem_of_imap_pair {A} (l : list A) k x : (k, x) ∈ imap pair l <-> l !! k = Some x.
Proof.
  rewrite list_elem_of_lookup. split.
  - intros [i Hi]. rewrite list_lookup_imap in Hi. destruct (l !! i) eqn:E; [|done].
    cbn in Hi. by injection Hi as <- <-.
  - intros H. exists k. by rewrite list_lookup_imap, H.
Qed.

Lemma taskMap_lookup ts k t :
  NoDup (task_name <$> ts) -> ts !! k = Some t -> taskMap ts !! task_name t = Some k.
Proof.
  intros Hn Hk. apply taskMap_lookup_aux; [by rewrite imap_pair_fst_snd|by apply elem_of_imap_pair].
Qed.

Lemma taskMap_inv_aux (l : list (nat * Task)) (m : gmap string nat) n k :
  foldl (fun m kt => <[task_name kt.2 := kt.1]> m) m l !! n = Some k ->
  m !! n = Some k \/ exists t, (k, t) ∈ l /\ task_name t = n.
Proof.
  revert m. induction l as [|[k1 t1] l IH]; intros m H; [by left|]. cbn [foldl fst snd] in H.
  destruct (IH _ H) as [H1|(t & H1 & H2)].
  - apply lookup_insert_Some in H1 as [[<- <-]|[_ H1]]; [|by left].
    right. exists t1. split; [by left|done].
  - right. exists t. split; [by right|done].
Qed.

Lemma taskMap_inv ts n k : taskMap ts !! n = Some k -> exists t, ts !! k = Some t /\ task_name t = n.
Proof.
  intros H. destruct (taskMap_inv_aux _ _ _ _ H) as [H1|(t & H1 & H2)]; [by rewrite lookup_empty in H1|].
  exists t. by rewrite <- elem_of_imap_pair.
Qed.

(** As many names as tasks: the names are different. *)
Lemma size_names (l : list string) : (size (list_to_set l : gset string) <= length l)%nat.
Proof.
  induction l as [|x l IH]; [done|]. cbn [list_to_set length].
  rewrite size_union_alt, size_singleton.
  assert (size (list_to_set l ∖ {[x]} : gset string) <= size (list_to_set l : gset string))%nat
    by (apply subseteq_size; set_solver). lia.
Qed.

Lemma size_NoDup (l : list string) : length l = size (list_to_set l : gset string) <-> NoDup l.
Proof.
  split.
  - induction l as [|x l IH]; intros H; [constructor|]. cbn [list_to_set length] in H.
    pose proof (size_names l). destruct (decide (x ∈ l)) as [Hx|Hx].
    + assert ({[x]} ∪ list_to_set l = (list_to_set l : gset string)) as E by set_solver.
      rewrite E in H. lia.
    + rewrite size_union, size_singleton in H by set_solver.
      constructor; [done|]. apply IH. lia.
  - intros Hn. symmetry. by apply size_list_to_set.
Qed.

Lemma taskMap_size ts : length ts = size (taskMap ts) <-> NoDup (task_name <$> ts).
Proof.
  rewrite <- size_NoDup, <- taskMap_dom, size_dom, length_fmap. done.
Qed.

(** ** What the check establishes *)

Definition well_sized (t : Tensor) : Prop := size_in_bytes t <= MAX_TENSOR_SIZE.

(** A task whose inputs are available and whose sizes are in range. *)
Record well_typed_task (available : string -> Prop) (i : TaskInfo) : Prop := {
  wt_inputs : Forall (fun x => available (name x) /\ well_sized x) (inputs i);
  wt_outputs : Forall well_sized (outputs i);
  wt_input_size : 0 < total_input_size (inputs i) <= MAX_TENSOR_SIZE;
  wt_output_size : output_size i <> 0;
  wt_block : u64 (NPU_block_size i) < MAX_TENSOR_SIZE
}.

(** The tensor is an output of a task before the [k]-th. *)
Definition produced_before (ts : list Task) (k : nat) (n : string) : Prop :=
  exists k' t', (k' < k)%nat /\ ts !! k' = Some t' /\ n ∈ names (outputs (info t')).

Record well_typed (ts : list Task) (ins : list string) : Prop := {
  wt_names : NoDup (task_name <$> ts);
  wt_tasks : forall k t, ts !! k = Some t ->
    well_typed_task (fun n => n ∈ ins \/ produced_before ts k n) (info t)
}.

Lemma total_input_size_pos l : 0 <= total_input_size l.
Proof.
  unfold total_input_size. assert (forall z, 0 <= z -> 0 <= foldl (fun z i => u64 (z + size_in_bytes i)) z l) as H;
    [|by apply H].
  induction l as [|x l IH]; intros z Hz; [done|]. cbn [foldl]. apply IH. by apply uwrap_range.
Qed.

Lemma forallb_Forall' {A} (f : A -> bool) (P : A -> Prop) l :
  (forall x, f x = true <-> P x) -> forallb f l = true <-> Forall P l.
Proof.
  intros H. induction l as [|x l IH]; cbn [forallb]; [split; [constructor|done]|].
  rewrite andb_true_iff, Forall_cons, IH, H. done.
Qed.

Lemma check_task_spec available t :
  check_task available t = true <-> well_typed_task (fun n => n ∈ available) (info t).
Proof.
  unfold check_task. cbn zeta. pose proof (total_input_size_pos (inputs (info t))) as Hp.
  rewrite !andb_true_iff, !negb_true_iff, !Z.eqb_neq, Z.leb_le, Z.ltb_lt.
  rewrite (forallb_Forall' _ (fun x => name x ∈ available /\ well_sized x))
    by (intros x; rewrite andb_true_iff, bool_decide_eq_true, Z.leb_le; done).
  rewrite (forallb_Forall' _ well_sized) by (intros x; rewrite Z.leb_le; done).
  split; [intros (((((? & ?) & ?) & ?) & ?) & ?)|intros []]; repeat split; try done; lia.
Qed.

Lemma well_typed_task_iff P Q i :
  (forall n, P n <-> Q n) -> well_typed_task P i <-> well_typed_task Q i.
Proof.
  intros H. split; intros [H1 ? ? ? ?]; split; try done; (eapply Forall_impl; [exact H1|]);
    intros x [Hx ?]; (split; [by apply H|done]).
Qed.

(** The check over the list of tasks itself, when their names are different. *)
Fixpoint check_list (available : list string) (ts : list Task) : bool :=
  match ts with
  | [] => true
  | t :: ts => check_task available t && check_list (available ++ names (outputs (info t))) ts
  end.

Lemma check_order_list ts m l available :
  Forall (fun t => m !! task_name t ≫= (fun k => ts !! k) = Some t) l ->
  check_order ts m (task_name <$> l) available = check_list available l.
Proof.
  revert available. induction l as [|t l IH]; intros available H; [done|].
  apply Forall_cons in H as [H1 H2]. cbn [fmap list_fmap check_order check_list]. by rewrite H1, IH.
Qed.

Lemma check_list_spec ts available :
  check_list available ts = true <->
  forall k t, ts !! k = Some t ->
    check_task (available ++ concat ((fun t => names (outputs (info t))) <$> take k ts)) t = true.
Proof.
  revert available. induction ts as [|t ts IH]; intros available; cbn [check_list]; [done|].
  rewrite andb_true_iff, IH. split.
  - intros [H1 H2] [|k] u Hu; cbn in Hu.
    + injection Hu as <-. cbn. by rewrite app_nil_r.
    + cbn [take fmap list_fmap concat]. rewrite app_assoc. by apply H2.
  - intros H. split.
    + specialize (H 0%nat t eq_refl). cbn in H. by rewrite app_nil_r in H.
    + intros k u Hu. specialize (H (S k) u Hu). cbn [take fmap list_fmap concat] in H.
      by rewrite app_assoc in H.
Qed.

Lemma elem_of_concat_fmap {A} (f : A -> list string) (l : list A) n :
  n ∈ concat (f <$> l) <-> exists x, x ∈ l /\ n ∈ f x.
Proof.
  induction l as [|x l IH]; cbn [fmap list_fmap concat].
  - split; [by intros ?%elem_of_nil|intros (x & ?%elem_of_nil & _); done].
  - rewrite elem_of_app, IH. setoid_rewrite elem_of_cons. naive_solver.
Qed.

Lemma available_before ts k ins n :
  n ∈ ins ++ concat ((fun t => names (outputs (info t))) <$> take k ts) <->
  n ∈ ins \/ produced_before ts k n.
Proof.
  rewrite elem_of_app, elem_of_concat_fmap. apply or_iff_compat_l. split.
  - intros (t & Ht & Hn). apply list_elem_of_lookup in Ht as [k' Hk].
    apply lookup_take_Some in Hk as [Hk Hl]. by exists k', t.
  - intros (k' & t & Hl & Hk & Hn). exists t. split; [|done].
    apply list_elem_of_lookup. exists k'. by apply lookup_take_Some.
Qed.

Lemma check_spec ts ins : checkInputOutputMistmatch ts ins = true <-> well_typed ts ins.
Proof.
  unfold checkInputOutputMistmatch. rewrite andb_true_iff, bool_decide_eq_true, taskMap_size.
  assert (NoDup (task_name <$> ts) -> check_order ts (taskMap ts) (task_name <$> ts) ins = true <->
    forall k t, ts !! k = Some t -> well_typed_task (fun n => n ∈ ins \/ produced_before ts k n) (info t)) as H.
  { intros Hn. rewrite check_order_list.
    - rewrite check_list_spec. apply forall_proper. intros k. apply forall_proper. intros t.
      rewrite check_task_spec. by rewrite (well_typed_task_iff _ _ _ (available_before ts k ins)).
    - apply Forall_lookup_2. intros k t Hk. rewrite (taskMap_lookup ts k t Hn Hk). exact Hk. }
  split; [intros [H1 H2]; split; [done|by apply H]|intros [H1 H2]; split; [by apply H|done]].
Qed.

(** ** Loading *)

Lemma res_bind_inr {A B} (x : res A) (f : A -> res B) b :
  x ≫= f = inr b -> exists a, x = inr a /\ f a = inr b.
Proof. destruct x as [e|a]; [done|]. by exists a. Qed.

Lemma guard_inr b e u : guard b e = inr u -> b = true.
Proof. by destruct b. Qed.

(** The engine of a load that succeeds, part by part. *)
Lemma load_inv cpu checked ort md bc mems e :
  loadModel cpu checked ort md bc mems = inr e ->
  exists ts0 ts, let ts1 := buildTaskGraph md ts0 in
    let ins := modelInputOrder md ort ts0 in let outs := lastOutputOrder md ort ts1 in
    let placed := calculateTensorOffsets (buildTensorRegistry ts ins outs) outs in
    set_tailOffsets md ort ts1 = inr ts /\ outs <> [] /\
    e = mkEngine ts ins outs (buildInputTensorMapping md ort ts0).1
          (buildInputTensorMapping md ort ts0).2 placed.1 placed.2.
Proof.
  unfold loadModel. intros E.
  apply res_bind_inr in E as (order & _ & E). apply res_bind_inr in E as (count & _ & E).
  apply res_bind_inr in E as ([ts0 found] & _ & E). apply res_bind_inr in E as ([] & _ & E).
  cbn zeta in E. apply res_bind_inr in E as (ts & Et & E).
  apply res_bind_inr in E as ([] & Ho%guard_inr & E). apply res_bind_inr in E as ([] & _ & E).
  apply res_bind_inr in E as ([] & _ & E). injection E as <-.
  exists ts0, ts. cbn zeta. split; [done|]. split; [|done].
  by apply negb_true_iff, bool_decide_eq_false in Ho.
Qed.

Ltac load_step := cbn [mbind engine_bind]; cbn zeta; try reflexivity.

(** Compiling the check in adds the check of the loaded tasks. *)
Lemma load_checked cpu ort md bc mems :
  loadModel cpu true ort md bc mems =
  (e ← loadModel cpu false ort md bc mems;
   _ ← guard (checkInputOutputMistmatch (e_tasks e) (e_inputOrder e)) InvalidModel; mret e).
Proof.
  unfold loadModel.
  destruct (task_order md); load_step. destruct (adjustBufferCountForNpuMemory _ _ _ _); load_step.
  destruct (build_tasks _ _ _ _ _ _ _) as [|[ts0 found]]; load_step.
  destruct (guard found _) as [|[]]; load_step. destruct (set_tailOffsets _ _ _); load_step.
  destruct (guard (negb (bool_decide (lastOutputOrder _ _ _ = _))) _) as [|[]]; load_step.
  by destruct (guard (negb (bool_decide (tailTaskOutputs _ _ _ = _))) _) as [|[]]; load_step.
Qed.

(** C29. Loading with the check of the engine compiled in succeeds exactly when loading
    without it does and the model is well typed: task names are unique, every input
    of a task is an input of the model or an output of an earlier task, and the
    tensors, the inputs of a task and the memory block of a task are within 4 GB. *)
Theorem checked_model_well_typed cpu ort md bc mems e :
  loadModel cpu true ort md bc mems = inr e <->
  loadModel cpu false ort md bc mems = inr e /\ well_typed (e_tasks e) (e_inputOrder e).
Proof.
  rewrite load_checked. destruct (loadModel cpu false ort md bc mems) as [err|e'].
  { split; [done|by intros [? _]]. }
  cbn [mbind engine_bind]. unfold guard. split.
  - destruct (checkInputOutputMistmatch _ _) eqn:E; [|done]. cbn. intros [= <-].
    split; [done|by apply check_spec].
  - intros [[= <-] H]. by rewrite (proj2 (check_spec _ _) H).
Qed.

(** ** The links of the tasks *)

Lemma elem_of_link_names m (l : list string) k :
  k ∈ link_names m l <-> exists n, n ∈ l /\ m !! n = Some k.
Proof.
  unfold link_names.
  assert (forall acc, k ∈ foldl (fun l n => match m !! n with Some k => add_link l k | None => l end) acc l
    <-> k ∈ acc \/ exists n, n ∈ l /\ m !! n = Some k) as H.
  - induction l as [|n l IH]; intros acc; cbn [foldl].
    { split; [by left|]. intros [?|(n & ?%elem_of_nil & _)]; done. }
    rewrite IH. setoid_rewrite elem_of_cons. destruct (m !! n) as [k'|] eqn:En.
    + unfold add_link. destruct (decide (k' ∈ acc)); [|rewrite elem_of_app, list_elem_of_singleton];
        naive_solver.
    + naive_solver.
  - rewrite H, elem_of_nil. naive_solver.
Qed.

(** Setting the offsets of the tail tasks changes nothing else. *)
Definition same_task (t t' : Task) : Prop := set_tailOffset 0 t = set_tailOffset 0 t'.

Lemma ppu_same ts z : Forall2 same_task ts (ppu_tailOffsets z ts).
Proof.
  revert z. induction ts as [|t ts IH]; intros z; [constructor|]. cbn [ppu_tailOffsets].
  destruct (is_tail t); by constructor.
Qed.

Lemma standard_same tto order f ts ts' :
  standard_tailOffsets tto order f ts = inr ts' -> Forall2 same_task ts ts'.
Proof.
  revert ts'. induction ts as [|t ts IH]; intros ts' E; cbn [standard_tailOffsets] in E.
  { injection E as <-. constructor. }
  apply res_bind_inr in E as (t' & Et & E). apply res_bind_inr in E as (ts1 & Es & E). injection E as <-.
  constructor; [|by apply IH]. destruct (f t) as [ns|]; [|by injection Et as <-].
  unfold standard_tailOffset in Et. destruct (min_position order ns); [|done]. by injection Et as <-.
Qed.

Lemma set_tailOffsets_same md ort ts ts' : set_tailOffsets md ort ts = inr ts' -> Forall2 same_task ts ts'.
Proof.
  unfold set_tailOffsets. destruct (isPPU ts).
  - intros [= <-]. destruct (bool_decide _); [by apply Forall_Forall2_diag, Forall_true|apply ppu_same].
  - apply standard_same.
Qed.

Lemma same_fmap {A} (f : Task -> A) ts ts' :
  Forall2 same_task ts ts' -> (forall t, f (set_tailOffset 0 t) = f t) -> f <$> ts' = f <$> ts.
Proof.
  intros H Hf. induction H as [|t t' l l' E _ IH]; [reflexivity|]. cbn [fmap list_fmap].
  f_equal; [|exact IH].
  by rewrite <- (Hf t), <- (Hf t'), E.
Qed.

Lemma same_lookup ts ts' k t' : Forall2 same_task ts ts' -> ts' !! k = Some t' ->
  exists t, ts !! k = Some t /\ task_name t = task_name t' /\ info t = info t' /\ nexts t = nexts t' /\
    is_tail t = is_tail t'.
Proof.
  intros H Hk. destruct (Forall2_lookup_r _ _ _ _ _ H Hk) as (t & Ht & E). exists t.
  split; [done|]. unfold same_task, set_tailOffset in E. by injection E as -> -> _ -> -> _.
Qed.

Lemma taskMap_names ts ts' : task_name <$> ts = task_name <$> ts' -> taskMap ts = taskMap ts'.
Proof.
  unfold taskMap. assert (forall (m : gmap string nat) (f : nat -> nat),
    task_name <$> ts = task_name <$> ts' ->
    foldl (fun m kt => <[task_name kt.2 := kt.1]> m) m (imap (fun k t => (f k, t)) ts) =
    foldl (fun m kt => <[task_name kt.2 := kt.1]> m) m (imap (fun k t => (f k, t)) ts')) as Hm;
    [|apply (Hm ∅ id)].
  revert ts'. induction ts as [|t ts IH]; intros [|t' ts'] m f E; try done.
  cbn [fmap list_fmap] in E. injection E as E1 E2. cbn [imap foldl fst snd]. rewrite E1.
  by apply (IH ts' _ (fun k => f (S k))).
Qed.

(** The links of a loaded task come from the graph information. *)
Lemma loaded_nexts cpu checked ort md bc mems e k t :
  loadModel cpu checked ort md bc mems = inr e -> e_tasks e !! k = Some t ->
  nexts t = link_names (taskMap (e_tasks e)) (all_users (subgraph md (task_name t))).
Proof.
  intros E Hk. destruct (load_inv _ _ _ _ _ _ _ E) as (ts0 & ts & Et & _ & ->). cbn [e_tasks] in *.
  pose proof (set_tailOffsets_same _ _ _ _ Et) as Hs.
  destruct (same_lookup _ _ k t Hs Hk) as (t1 & H1 & En & _ & <- & _).
  rewrite (taskMap_names ts ts0).
  - unfold buildTaskGraph in H1. rewrite list_lookup_fmap in H1.
    destruct (ts0 !! k) as [t0|]; [|done]. injection H1 as <-. cbn in *. by rewrite En.
  - rewrite (same_fmap _ _ _ Hs) by done. unfold buildTaskGraph.
    rewrite <- list_fmap_compose. by apply list_fmap_ext.
Qed.

(** ** Graph information that agrees with the tasks *)

Definition produced_names (ts : list Task) : list string :=
  concat ((fun t => names (outputs (info t))) <$> ts).

(** The users of the outputs of a task are the tasks that read one of them, every
    tensor has one producer, and the outputs of the model are produced. *)
Record graph_info_ok (md : ModelData) (e : InferenceEngine) : Prop := {
  gi_users : Forall (fun t => Forall (fun u => Forall (fun t' => task_name t' = u ->
      Exists (fun n => n ∈ names (inputs (info t'))) (names (outputs (info t)))) (e_tasks e))
    (all_users (subgraph md (task_name t)))) (e_tasks e);
  gi_complete : Forall (fun t => Forall (fun t' => Forall (fun n => n ∈ names (inputs (info t')) ->
      task_name t' ∈ all_users (subgraph md (task_name t))) (names (outputs (info t)))) (e_tasks e))
    (e_tasks e);
  gi_unique : NoDup (produced_names (e_tasks e));
  gi_inputs : Forall (fun n => n ∉ e_inputOrder e) (produced_names (e_tasks e));
  gi_outputs : Forall (fun n => n ∈ produced_names (e_tasks e)) (e_outputOrder e)
}.

Lemma elem_of_produced_names ts n :
  n ∈ produced_names ts <-> exists k t, ts !! k = Some t /\ n ∈ names (outputs (info t)).
Proof.
  unfold produced_names. rewrite elem_of_concat_fmap. setoid_rewrite list_elem_of_lookup. naive_solver.
Qed.

(** A name of the list is in one of its parts only. *)
Lemma unique_part {A} (f : A -> list string) (l : list A) k k' x x' n :
  NoDup (concat (f <$> l)) -> l !! k = Some x -> l !! k' = Some x' -> n ∈ f x -> n ∈ f x' -> k = k'.
Proof.
  revert k k'. induction l as [|y l IH]; intros k k' Hn Hk Hk' Hx Hx'; [done|].
  cbn [fmap list_fmap concat] in Hn. apply NoDup_app in Hn as (H1 & H2 & H3).
  assert (forall j z, l !! j = Some z -> n ∈ f z -> n ∉ f y) as Hno.
  { intros j z Hj Hz Hy. apply (H2 n Hy), elem_of_concat_fmap. exists z. split; [|done].
    apply list_elem_of_lookup. by exists j. }
  destruct k as [|k], k' as [|k']; cbn in Hk, Hk'; simplify_eq; try done.
  - by destruct (Hno k' x' Hk' Hx').
  - by destruct (Hno k x Hk Hx).
  - f_equal. by apply (IH k k').
Qed.

Lemma job_task_inputs t n : has_input (job_task t) n <-> n ∈ names (inputs (info t)).
Proof. unfold has_input, names. cbn. by rewrite <- list_fmap_compose. Qed.
Lemma job_task_outputs t n : has_output (job_task t) n <-> n ∈ names (outputs (info t)).
Proof. unfold has_output, names. cbn. by rewrite <- list_fmap_compose. Qed.

Lemma job_tasks_lookup e k t :
  InferenceJob.tasks (job_engine e) !! k = Some t <->
  exists u, e_tasks e !! k = Some u /\ t = job_task u.
Proof.
  unfold job_engine. cbn. rewrite list_lookup_fmap. destruct (e_tasks e !! k) as [u|]; cbn; naive_solver.
Qed.

Lemma produced_job e n : produced (job_engine e) n <-> n ∈ produced_names (e_tasks e).
Proof.
  rewrite elem_of_produced_names. unfold produced. split.
  - intros (k & t & (u & Hk & ->)%job_tasks_lookup & Hn%job_task_outputs). by exists k, u.
  - intros (k & u & Hk & Hn). exists k, (job_task u). rewrite job_task_outputs. split; [|done].
    apply job_tasks_lookup. by exists u.
Qed.

(** The graph of a well-typed model whose information agrees with its tasks: the tasks
    are in an order of the graph. *)
Lemma loaded_graph_ok cpu checked ort md bc mems e :
  loadModel cpu checked ort md bc mems = inr e ->
  well_typed (e_tasks e) (e_inputOrder e) -> graph_info_ok md e ->
  graph_ok (job_engine e) (fun k => k).
Proof.
  intros El Hw Hg.
  assert (forall k t u k', e_tasks e !! k = Some u -> t = job_task u -> k' ∈ InferenceJob.task_nexts t ->
    exists u', e_tasks e !! k' = Some u' /\ task_name u' ∈ all_users (subgraph md (task_name u))) as Hx.
  { intros k t u k' Hk -> Hn. cbn in Hn. rewrite (loaded_nexts _ _ _ _ _ _ _ _ _ El Hk) in Hn.
    apply elem_of_link_names in Hn as (n & Hn & Hm). destruct (taskMap_inv _ _ _ Hm) as (u' & Hu & <-).
    by exists u'. }
  pose proof (wt_names _ _ Hw) as Hnd. split.
  - unfold job_engine. cbn. by rewrite <- list_fmap_compose.
  - intros k t k' (u & Hk & Et)%job_tasks_lookup Hn. destruct (Hx _ _ _ _ Hk Et Hn) as (u' & Hu & _).
    exists (job_task u'). apply job_tasks_lookup. by exists u'.
  - intros k t n k' t' (u & Hk & ->)%job_tasks_lookup Ho%job_task_outputs (u' & Hk' & ->)%job_tasks_lookup
      Hi%job_task_inputs.
    cbn. rewrite (loaded_nexts _ _ _ _ _ _ _ _ _ El Hk). apply elem_of_link_names.
    exists (task_name u'). split; [|by apply taskMap_lookup].
    pose proof (gi_complete _ _ Hg) as Hc. rewrite Forall_lookup in Hc. specialize (Hc _ _ Hk).
    rewrite Forall_lookup in Hc. specialize (Hc _ _ Hk'). rewrite Forall_forall in Hc. by apply (Hc n).
  - intros k t k' (u & Hk & Et)%job_tasks_lookup Hn. destruct (Hx _ _ _ _ Hk Et Hn) as (u' & Hu & Hin).
    pose proof (gi_users _ _ Hg) as Hc. rewrite Forall_lookup in Hc. specialize (Hc _ _ Hk).
    rewrite Forall_forall in Hc. specialize (Hc _ Hin). rewrite Forall_lookup in Hc.
    specialize (Hc _ _ Hu eq_refl). apply Exists_exists in Hc as (n & Ho & Hi).
    apply list_elem_of_fmap in Hi as (x & -> & Hi).
    pose proof (wt_inputs _ _ (wt_tasks _ _ Hw _ _ Hu)) as Hf. rewrite Forall_forall in Hf.
    destruct (Hf x Hi) as [[Hmi|(k1 & u1 & Hlt & Hk1 & Ho1)] _].
    + pose proof (gi_inputs _ _ Hg) as Hno. rewrite Forall_forall in Hno. exfalso.
      apply (Hno (name x)); [|done]. apply elem_of_produced_names. by exists k, u.
    + pose proof (gi_unique _ _ Hg) as Hq.
      by rewrite (unique_part (fun t => names (outputs (info t))) _ k k1 u u1 (name x) Hq Hk Hk1 Ho Ho1).
Qed.

Lemma loaded_outputs md e n :
  graph_info_ok md e -> n ∈ InferenceJob.lastOutputOrder (job_engine e) -> produced (job_engine e) n.
Proof. intros Hg Hn. apply produced_job. pose proof (gi_outputs _ _ Hg) as H. rewrite Forall_forall in H. by apply H. Qed.

(** What a task of a well-typed model reads is produced or an input of the model. *)
Lemma loaded_consumed e n :
  well_typed (e_tasks e) (e_inputOrder e) -> consumed (job_engine e) n ->
  produced (job_engine e) n \/ n ∈ e_inputOrder e.
Proof.
  intros Hw (k & t & (u & Hk & ->)%job_tasks_lookup & Hn%job_task_inputs).
  apply list_elem_of_fmap in Hn as (x & -> & Hx).
  pose proof (wt_inputs _ _ (wt_tasks _ _ Hw _ _ Hk)) as Hf. rewrite Forall_forall in Hf.
  destruct (Hf x Hx) as [[?|(k1 & u1 & _ & Hk1 & Ho1)] _]; [by right|left].
  apply produced_job, elem_of_produced_names. by exists k1, u1.
Qed.

Lemma produced_names_ne ts : produced_names ts <> [] -> ts <> [].
Proof. by intros H ->. Qed.
