(* ===== verification/EngineRun.v ===== *)
(** * The inference engine: starting inferences

    [lib/inference_engine.cpp]: the entry points for models with several inputs, up to
    the job they start ([InferenceJob.startMultiInputJob]), and the splitting of one
    buffer into the inputs. *)

From Stdlib Require Import ZArith Lia.
From stdpp Require Import strings.
From S2P Require Import Prelude InferenceJob JobStart Engine.
From S2P Require Import TaskData JobInv JobThms EngineTyping.

Module EngineRun.
Import Engine.

Abbreviation ptr := InferenceJob.ptr.
Abbreviation heap := InferenceJob.heap.

Inductive run_error := InvalidOperation | InvalidArgument.

(** [RunMultiInput] and [RunAsyncMultiInput] on a map, up to the start of the job.
    [slot] is the job [pick] of the pool returned; the order in which a [std::map] is
    visited does not matter, its names are different. *)
Definition RunAsyncMultiInput (e : InferenceEngine) (disposed callback : bool)
    (inputTensors : gmap string ptr) (outputPtr : ptr) (slot : option InferenceJob.job)
    : run_error + InferenceJob.job :=
  if disposed then inl InvalidOperation
  else if negb (IsMultiInput e) then inl InvalidArgument
  else if existsb (fun p => if e_inputTensorToTaskMap e !! p.1 then false else true)
            (map_to_list inputTensors) then inl InvalidArgument
  else if negb (size inputTensors =? length (e_inputOrder e))%nat then inl InvalidArgument
  else match slot with
       | None => inl InvalidOperation
       | Some j0 =>
           inr (InferenceJob.startMultiInputJob (job_engine e) (map_to_list inputTensors) outputPtr
                  (prepared (job_engine e) (negb callback) j0))
       end.

(** The pointers in the order of the inputs; a name that is there twice keeps the last. *)
Definition input_map (order : list string) (ptrs : list ptr) : gmap string ptr :=
  foldl (fun m np => <[np.1 := np.2]> m) ∅ (zip order ptrs).

Definition RunAsyncMultiInput_vector (e : InferenceEngine) (disposed callback : bool)
    (inputPtrs : list ptr) (outputPtr : ptr) (slot : option InferenceJob.job)
    : run_error + InferenceJob.job :=
  if negb (length inputPtrs =? length (e_inputOrder e))%nat then inl InvalidArgument
  else RunAsyncMultiInput e disposed callback (input_map (e_inputOrder e) inputPtrs) outputPtr slot.

(** ** One buffer for all inputs *)

Definition shouldAutoSplitInput (e : InferenceEngine) : bool :=
  IsMultiInput e && (length (e_inputTasks e) =? 1)%nat.

(** The loop over the sizes: a vector of each size in a new block, with the bytes at the
    running offset; the data of an empty vector is null.  [None]: the copy reads
    outside the buffer.  [blocks] are the blocks the allocator returns. *)
Fixpoint split_buffer (h : heap) (src : Z * Z) (offset : Z) (sizes blocks : list Z)
    : option (heap * list ptr) :=
  match sizes, blocks with
  | s :: sizes, b :: blocks =>
      buf ← h !! src.1;
      if (0 <=? src.2 + offset) && (src.2 + offset + s <=? Z.of_nat (length buf)) then
        let bytes := take (Z.to_nat s) (drop (Z.to_nat (src.2 + offset)) buf) in
        '(h', ptrs) ← split_buffer (<[b := bytes]> h) src (u64 (offset + s)) sizes blocks;
        mret (h', (if s =? 0 then None else Some (b, 0)) :: ptrs)
      else None
  | _, _ => mret (h, [])
  end.

(** The vectors go out of scope. *)
Definition free_blocks (blocks : list Z) (h : heap) : heap := foldl (fun h b => delete b h) h blocks.

(** [RunAsync] on one buffer: the job it starts and the heap when it has returned; the
    second heap is the one the job starts with. *)
Definition RunAsync_split (e : InferenceEngine) (disposed callback : bool) (src : Z * Z)
    (outputPtr : ptr) (slot : option InferenceJob.job) (blocks : list Z) (h : heap)
    : option ((run_error + InferenceJob.job) * heap * heap) :=
  '(h1, ptrs) ← split_buffer h src 0 (GetInputTensorSizes e) blocks;
  mret (RunAsyncMultiInput_vector e disposed callback ptrs outputPtr slot, h1, free_blocks blocks h1).

End EngineRun.

(** * The inference engine: theorems on starting inferences

    What passes the guards of the entry points for several inputs is enough for the
    job of a loaded model to complete. *)


Import Engine EngineRun.

(** ** Only inputs of the model are mapped to tasks *)

Lemma dom_map_input md (l : list (nat * Task)) st n :
  dom (foldl (fun st kt =>
    if existsb (fun g => bool_decide (gt_name g = n) && bool_decide (owner g = ""))
         (sub_inputs (subgraph md (task_name kt.2)))
    then (<[n := task_name kt.2]> st.1, add_link st.2 kt.1) else st) st l).1 ⊆
  ({[n]} ∪ dom (st.1 : gmap string string) : gset string).
Proof.
  revert st. induction l as [|kt l IH]; intros st; cbn [foldl]; [set_solver|].
  destruct (existsb _ _); [|apply IH]. etrans; [apply IH|]. cbn [fst]. rewrite dom_insert_L. set_solver.
Qed.

Lemma dom_mapping_ort md ts (l : list string) st :
  dom (foldl (map_input md ts) st l).1 ⊆ (list_to_set l ∪ dom (st.1 : gmap string string) : gset string).
Proof.
  revert st. induction l as [|n l IH]; intros st; cbn [foldl list_to_set]; [set_solver|].
  etrans; [apply IH|]. pose proof (dom_map_input md (imap pair ts) st n). unfold map_input. set_solver.
Qed.

Lemma dom_map_names k tn (l : list string) (st : gmap string string * list nat) :
  dom (foldl (fun st n => (<[n := tn]> st.1, add_link st.2 k) : gmap string string * list nat) st l).1 ⊆
  (list_to_set l ∪ dom st.1 : gset string).
Proof.
  revert st. induction l as [|n l IH]; intros st; cbn [foldl list_to_set]; [set_solver|].
  etrans; [apply IH|]. cbn [fst]. rewrite dom_insert_L. set_solver.
Qed.

Lemma dom_mapping_heads (l : list (nat * Task)) st :
  dom (foldl map_head st l).1 ⊆
  (list_to_set (concat ((fun t => names (inputs (info t))) <$> heads (snd <$> l))) ∪
   dom (st.1 : gmap string string) : gset string).
Proof.
  revert st. induction l as [|[k t] l IH]; intros st; cbn [foldl fmap list_fmap snd]; [set_solver|].
  etrans; [apply IH|]. unfold heads. rewrite filter_cons. unfold map_head at 1. cbn [fst snd].
  destruct (is_head t) eqn:Eh.
  - rewrite decide_True by done. cbn [fmap list_fmap concat]. rewrite list_to_set_app_L.
    pose proof (dom_map_names k (task_name t) (names (inputs (info t))) st). set_solver.
  - rewrite decide_False by (by intros []). set_solver.
Qed.

Lemma snd_imap_pair {A} (l : list A) : snd <$> imap pair l = l.
Proof. rewrite fmap_imap. rewrite <- (list_fmap_id l) at 2. apply imap_const. Qed.

Lemma dom_mapping md ort ts :
  dom (buildInputTensorMapping md ort ts).1 ⊆ (list_to_set (modelInputOrder md ort ts) : gset string).
Proof.
  unfold buildInputTensorMapping, modelInputOrder. destruct ort.
  - pose proof (dom_mapping_ort md ts (graph_inputs md) (∅, [])). set_solver.
  - pose proof (dom_mapping_heads (imap pair ts) (∅, [])) as H. rewrite snd_imap_pair in H. set_solver.
Qed.

(** As many known names as the model has inputs are all its inputs. *)
Lemma all_inputs_given (m : gmap string ptr) (known : gset string) (order : list string) :
  known ⊆ list_to_set order -> dom m ⊆ known -> size m = length order ->
  forall n, n ∈ order -> n ∈ dom m.
Proof.
  intros H1 H2 Hs n Hn. rewrite <- size_dom in Hs.
  pose proof (size_names order) as Hl.
  assert (dom m = list_to_set order) as ->; [|by apply elem_of_list_to_set].
  apply set_subseteq_size_eq; [set_solver|]. lia.
Qed.

Lemma loaded_mapping cpu checked ort md bc mems e :
  loadModel cpu checked ort md bc mems = inr e ->
  dom (e_inputTensorToTaskMap e) ⊆ list_to_set (e_inputOrder e).
Proof.
  intros E. destruct (load_inv _ _ _ _ _ _ _ E) as (ts0 & ts & _ & _ & ->). apply dom_mapping.
Qed.

(** The entry point accepted the inputs: the start of the job finds what it needs. *)
Lemma accepted_inputs cpu checked ort md bc mems e callback inputs out j0 j :
  loadModel cpu checked ort md bc mems = inr e ->
  well_typed (e_tasks e) (e_inputOrder e) ->
  RunAsyncMultiInput e false callback inputs out (Some j0) = inr j ->
  map_Forall (fun _ d => is_Some d) inputs ->
  multi_ok (job_engine e) (map_to_list inputs) (seq 0 (length (e_tasks e))) /\
  j = InferenceJob.startMultiInputJob (job_engine e) (map_to_list inputs) out
        (prepared (job_engine e) (negb callback) j0).
Proof.
  intros El Hw Er Hd. unfold RunAsyncMultiInput in Er. cbn iota in Er.
  destruct (negb (IsMultiInput e)); [done|]. destruct (existsb _ _) eqn:Eu; [done|].
  destruct (negb (size inputs =? _)%nat) eqn:Es; [done|]. injection Er as <-. split; [|done].
  apply negb_false_iff, Nat.eqb_eq in Es.
  assert (dom inputs ⊆ dom (e_inputTensorToTaskMap e)) as Hk.
  { intros n [d Hn]%elem_of_dom. apply elem_of_dom.
    destruct (e_inputTensorToTaskMap e !! n) eqn:E1; [done|]. exfalso.
    assert (existsb (fun p : string * ptr => if e_inputTensorToTaskMap e !! p.1 then false else true)
              (map_to_list inputs) = true) as H; [|by rewrite H in Eu].
    apply existsb_exists. exists (n, d). split; [by apply list_elem_of_In, elem_of_map_to_list|].
    cbn. by rewrite E1. }
  split.
  - intros n Hc. destruct (loaded_consumed e n Hw Hc) as [?|Hn]; [by left|right].
    pose proof (all_inputs_given inputs _ _ (loaded_mapping _ _ _ _ _ _ _ El) Hk Es n Hn) as [d Hdn]%elem_of_dom.
    apply list_elem_of_fmap. exists (n, d). split; [done|by apply elem_of_map_to_list].
  - apply Forall_forall. intros [n d] Hn. by apply elem_of_map_to_list, Hd in Hn.
  - intros k. rewrite elem_of_seq. unfold job_engine. cbn. rewrite <- length_fmap with (f := job_task).
    rewrite <- lookup_lt_is_Some. cbn. rewrite lookup_lt_is_Some. lia.
Qed.

(** C30. On a model that was loaded with the check and whose graph information agrees with
    its tasks, a job that an entry point for several inputs accepts, with pointers that
    are not null, completes in every interleaving. *)
Theorem loaded_model_completes cpu ort md bc mems e callback inputs out j0 j heap :
  loadModel cpu true ort md bc mems = inr e -> graph_info_ok md e ->
  Z.of_nat (length (e_tasks e)) < 2 ^ 31 ->
  RunAsyncMultiInput e false callback inputs out (Some j0) = inr j ->
  map_Forall (fun _ d => is_Some d) inputs ->
  comes_to_an_end (job_engine e)
    (InferenceJob.started_multi j (seq 0 (length (e_tasks e))) heap).
Proof.
  intros El Hg Hl Er Hd. rewrite load_checked in El.
  apply res_bind_inr in El as (e' & El & E2). apply res_bind_inr in E2 as ([] & Hc%guard_inr & [= ->]).
  apply check_spec in Hc. destruct (accepted_inputs _ _ _ _ _ _ _ _ _ _ _ _ El Hc Er Hd) as [Hm ->].
  apply started_ends with (rank := fun k => k) (head := None).
  - by eapply loaded_graph_ok.
  - intros n. by apply loaded_outputs with md.
  - destruct (load_inv _ _ _ _ _ _ _ El) as (ts0 & ts & _ & Hne & Ee).
    pose proof (gi_outputs _ _ Hg) as Hf. intros E0%fmap_nil_inv.
    assert (e_outputOrder e <> []) as Ho by (by rewrite Ee).
    destruct (e_outputOrder e) as [|n l]; [done|]. apply Forall_cons in Hf as [Hn _].
    rewrite E0 in Hn. by apply elem_of_nil in Hn.
  - unfold job_engine. cbn. by rewrite length_fmap.
  - by constructor.
Qed.

(** Two CPU tasks: the second one reads the output of the first and an input of its own. *)
Definition byte_tensor (n : string) (size : Z) : Tensor := mkTensor n [1; size] 1.
Definition demo_cpu (b : list Z) : option TaskInfo :=
  match b with
  | [0] => Some (mkInfo [byte_tensor "x" 2] [byte_tensor "m" 4] [0] 4 false false false 0)
  | [1] => Some (mkInfo [byte_tensor "m" 4; byte_tensor "y" 3] [byte_tensor "out" 5] [0; 4] 5 false false false 0)
  | _ => None
  end.
Definition demo_md : ModelData :=
  mkModel ["A"; "B"]
    [("A", mkSubGraph [mkGraphTensor "x" "" ["A"]] [mkGraphTensor "m" "A" ["B"]] true false);
     ("B", mkSubGraph [mkGraphTensor "m" "A" ["B"]; mkGraphTensor "y" "" ["B"]]
             [mkGraphTensor "out" "B" []] false true)]
    ["x"; "y"] ["out"] [] [("A", [0]); ("B", [1])] true true.
Definition demo_engine : InferenceEngine :=
  Eval vm_compute in
    match loadModel demo_cpu true true demo_md 6 [] with
    | inr e => e
    | inl _ => mkEngine [] [] [] ∅ [] ∅ ∅
    end.

Lemma demo_loaded : loadModel demo_cpu true true demo_md 6 [] = inr demo_engine.
Proof. vm_compute. reflexivity. Qed.

Lemma demo_info : graph_info_ok demo_md demo_engine.
Proof. constructor; apply (bool_decide_unpack _); vm_compute; exact I. Qed.

Definition demo_job : InferenceJob.job :=
  InferenceJob.mkJob ∅ ∅ 0 0 [] 0 0 None false InferenceJob.REQ_IDLE [] [] false.
Definition demo_inputs : gmap string ptr := {[ "x" := Some (1, 0); "y" := Some (2, 0) ]}.
Definition demo_started : InferenceJob.job :=
  Eval vm_compute in
    match RunAsyncMultiInput demo_engine false false demo_inputs None (Some demo_job) with
    | inr j => j | inl _ => demo_job end.

Lemma loaded_model_completes_witness :
  InferenceJob.tensors demo_started !! "x" = Some (InferenceJob.mkTensor "x" 2 (Some (1, 0)) 0) /\
  comes_to_an_end (job_engine demo_engine) (InferenceJob.started_multi demo_started [0; 1]%nat ∅).
Proof.
  split; [vm_compute; reflexivity|].
  apply (loaded_model_completes demo_cpu true demo_md 6 [] demo_engine false demo_inputs None demo_job
    demo_started ∅ demo_loaded demo_info).
  - vm_compute. reflexivity.
  - vm_compute. reflexivity.
  - apply (bool_decide_unpack _). vm_compute. exact I.
Defined.

(** * The inference engine: splitting one buffer into the inputs

    What the parts are, and what is left of them when an asynchronous call returns. *)


Import Engine EngineRun.

(** Where the [i]-th part of the buffer starts. *)
Definition part_offset (sizes : list Z) (i : nat) : Z := sum_Z (take i sizes).
Definition part (buf : list Z) (start size : Z) : list Z := take (Z.to_nat size) (drop (Z.to_nat start) buf).

Lemma split_buffer_keeps h src off sizes blocks h' ptrs b :
  split_buffer h src off sizes blocks = Some (h', ptrs) -> b ∉ blocks -> h' !! b = h !! b.
Proof.
  revert h off blocks ptrs. induction sizes as [|s sizes IH]; intros h off [|b0 blocks] ptrs E Hb;
    cbn [split_buffer] in E; try by injection E as <- _.
  destruct (h !! src.1) as [buf|] eqn:Eb; [|done]. cbn in E.
  destruct (_ && _)%bool; [|done]. apply not_elem_of_cons in Hb as [H1 H2].
  destruct (split_buffer _ _ _ _ _) as [[h1 ps]|] eqn:E1; [|done]. injection E as <- _.
  rewrite (IH _ _ _ _ E1 H2). by rewrite lookup_insert_ne.
Qed.

Lemma split_buffer_spec h src off sizes blocks h' ptrs buf :
  split_buffer h src off sizes blocks = Some (h', ptrs) -> h !! src.1 = Some buf ->
  NoDup blocks -> src.1 ∉ blocks -> Forall (fun s => 0 <= s) sizes -> 0 <= off ->
  off + sum_Z sizes < 2 ^ 64 -> (length sizes <= length blocks)%nat ->
  length ptrs = length sizes /\
  forall i s b, sizes !! i = Some s -> blocks !! i = Some b ->
    ptrs !! i = Some (if s =? 0 then None else Some (b, 0)) /\
    h' !! b = Some (part buf (src.2 + off + part_offset sizes i) s).
Proof.
  revert h off blocks ptrs. induction sizes as [|s sizes IH];
    intros h off [|b0 blocks] ptrs E Hbuf Hn Hsrc Hs Ho Hl Hlen; cbn [length] in Hlen; try lia;
    cbn [split_buffer] in E.
  { injection E as <- <-. done. } { injection E as <- <-. done. }
  rewrite Hbuf in E. cbn [mbind option_bind] in E. destruct (_ && _)%bool; [|done].
  destruct (split_buffer _ _ _ _ _) as [[h1 ps]|] eqn:E1; [|done]. injection E as <- <-.
  apply NoDup_cons in Hn as [Hn1 Hn2]. apply not_elem_of_cons in Hsrc as [Hs1 Hs2].
  apply Forall_cons in Hs as [Hs0 Hs]. pose proof (sum_Z_nonneg sizes Hs). cbn [sum_Z foldr] in Hl.
  change (foldr Z.add 0 sizes) with (sum_Z sizes) in Hl. rewrite uwrap_small in E1 by lia.
  destruct (IH _ _ _ _ E1) as [L P]; try done; try lia; [by rewrite lookup_insert_ne|].
  split; [cbn; by rewrite L|]. intros [|i] s' b Hsi Hbi; cbn in Hsi, Hbi.
  - injection Hsi as ->. injection Hbi as ->. split; [done|].
    rewrite (split_buffer_keeps _ _ _ _ _ _ _ _ E1 Hn1), lookup_insert_eq.
    unfold part, part_offset. cbn. by rewrite Z.add_0_r.
  - destruct (P i s' b Hsi Hbi) as [P1 P2]. split; [done|]. rewrite P2. f_equal.
    unfold part, part_offset. cbn [take sum_Z foldr]. do 2 f_equal.
    change (foldr Z.add 0 (take i sizes)) with (sum_Z (take i sizes)). lia.
Qed.

Lemma input_map_skip (l : list (string * ptr)) (m : gmap string ptr) n :
  n ∉ l.*1 -> foldl (fun m np => <[np.1 := np.2]> m) m l !! n = m !! n.
Proof.
  revert m. induction l as [|[n1 d1] l IH]; intros m Hn; [done|]. cbn [foldl].
  cbn [fmap list_fmap fst] in Hn. apply not_elem_of_cons in Hn as [H1 H2].
  rewrite IH by done. cbn [fst snd]. by rewrite lookup_insert_ne.
Qed.

Lemma input_map_lookup order (ptrs : list ptr) i n d :
  NoDup order -> order !! i = Some n -> ptrs !! i = Some d -> input_map order ptrs !! n = Some d.
Proof.
  unfold input_map. generalize (∅ : gmap string ptr) as m. revert ptrs i.
  induction order as [|n0 order IH]; intros [|d0 ptrs] [|i] m Hn Hi Hd; try done;
    apply NoDup_cons in Hn as [Hn1 Hn2]; cbn in Hi, Hd; cbn [zip zip_with foldl fst snd].
  - injection Hi as ->. injection Hd as ->. rewrite input_map_skip; [by rewrite lookup_insert_eq|].
    intros Hin. apply Hn1. apply list_elem_of_fmap in Hin as ([n1 d1] & -> & H).
    by apply elem_of_zip_l in H.
  - by apply IH with i.
Qed.

(** The tensor of an input of a started job. *)
Lemma started_tensor e inputs out j0 n d :
  inputs !! n = Some d ->
  InferenceJob.tensors (InferenceJob.startMultiInputJob e (map_to_list inputs) out j0) !! n =
    match InferenceJob.tensors j0 !! n with
    | Some t => Some t
    | None => Some (InferenceJob.external_tensor e n d)
    end.
Proof.
  intros Hn. unfold InferenceJob.startMultiInputJob. cbn.
  apply elem_of_map_to_list in Hn. pose proof (NoDup_fst_map_to_list inputs) as Hd.
  generalize (InferenceJob.tensors j0) as m. revert Hn Hd.
  induction (map_to_list inputs) as [|[n1 d1] l IH]; intros Hn Hd m; [by apply elem_of_nil in Hn|].
  cbn [fmap list_fmap fst] in Hd. apply NoDup_cons in Hd as [H1 H2]. cbn [foldl].
  apply elem_of_cons in Hn as [[= -> ->]|Hn].
  - assert (forall m' : gmap string InferenceJob.Tensor, is_Some (m' !! n1) ->
      foldl (fun m '(n, d) => InferenceJob.insert_tensor n (InferenceJob.external_tensor e n d) m) m' l !! n1
      = m' !! n1) as Hk.
    { clear IH. induction l as [|[n2 d2] l IH]; intros m' Hm; [done|]. cbn [foldl].
      cbn [fmap list_fmap fst] in H1, H2. apply not_elem_of_cons in H1 as [H1 H3].
      apply NoDup_cons in H2 as [_ H2]. unfold InferenceJob.insert_tensor at 2.
      destruct (m' !! n2); [by apply IH|]. rewrite IH; rewrite ?lookup_insert_ne; done. }
    unfold InferenceJob.insert_tensor at 2. destruct (m !! n1) as [t|] eqn:Em.
    + rewrite Hk; by rewrite Em.
    + rewrite Hk; by rewrite lookup_insert_eq.
  - rewrite IH by done. assert (n <> n1) by (intros ->; apply H1, list_elem_of_fmap; by exists (n1, d)).
    unfold InferenceJob.insert_tensor. destruct (m !! n1); [done|]. by rewrite lookup_insert_ne.
Qed.

Lemma input_sizes_nonneg e : Forall (fun s => 0 <= s) (GetInputTensorSizes e).
Proof.
  apply Forall_forall. intros s (n & _ & Hs)%list_elem_of_omap.
  unfold input_size_of in Hs. destruct (_ !! n); [|done]. cbn in Hs.
  destruct (taskMap _ !! _); [|done]. cbn in Hs. destruct (_ !! _); [|done]. cbn in Hs.
  destruct (find_input _ _); [|done]. injection Hs as <-. by apply uwrap_range.
Qed.

Lemma free_blocks_None blocks h b : b ∈ blocks -> free_blocks blocks h !! b = None.
Proof.
  unfold free_blocks. assert (forall l (h : heap), h !! b = None -> foldl (fun h b => delete b h) h l !! b = None) as Hk.
  { induction l as [|b1 l IH]; intros h1 H; [done|]. cbn. apply IH.
    destruct (decide (b = b1)) as [->|]; [by rewrite lookup_delete_eq|by rewrite lookup_delete_ne]. }
  revert h. induction blocks as [|b1 l IH]; intros h Hb; [by apply elem_of_nil in Hb|].
  cbn [foldl]. apply elem_of_cons in Hb as [->|Hb]; [|by apply IH].
  apply Hk. by rewrite lookup_delete_eq.
Qed.

Lemma external_tensor_data e n d : InferenceJob.t_data (InferenceJob.external_tensor e n d) = d.
Proof. unfold InferenceJob.external_tensor. destruct (find _ _) as [t|]; [|done]. by destruct (InferenceJob.find_input n t). Qed.

(** [RunAsync] on one buffer of a model with several inputs starts a job whose inputs
    are the consecutive parts of the buffer, each in a vector of its own; when
    [RunAsync] returns, with the job under way, every one of them is freed. *)
Theorem split_inputs_dangle e callback src buf out j0 blocks h j h1 h2 :
  h !! src.1 = Some buf -> NoDup blocks -> src.1 ∉ blocks ->
  (length (GetInputTensorSizes e) <= length blocks)%nat -> NoDup (e_inputOrder e) ->
  sum_Z (GetInputTensorSizes e) < 2 ^ 64 ->
  RunAsync_split e false callback src out (Some j0) blocks h = Some (inr j, h1, h2) ->
  forall i n s b, e_inputOrder e !! i = Some n -> GetInputTensorSizes e !! i = Some s ->
    blocks !! i = Some b -> 0 < s ->
    exists t, InferenceJob.tensors j !! n = Some t /\ InferenceJob.t_data t = Some (b, 0) /\
      h1 !! b = Some (part buf (src.2 + part_offset (GetInputTensorSizes e) i) s) /\ h2 !! b = None.
Proof.
  intros Hbuf Hb Hsrc Hlen Hn Hsum E i n s b Hi Hs Hbi Hpos. unfold RunAsync_split in E.
  destruct (split_buffer _ _ _ _ _) as [[h1' ptrs]|] eqn:Es; [|done]. cbn in E.
  injection E as Er <- <-.
  destruct (split_buffer_spec _ _ _ _ _ _ _ _ Es Hbuf Hb Hsrc (input_sizes_nonneg e)) as [L P]; [lia..|].
  destruct (P i s b Hs Hbi) as [P1 P2]. rewrite Z.add_0_r in P2.
  replace (s =? 0) with false in P1 by (symmetry; apply Z.eqb_neq; lia).
  unfold RunAsyncMultiInput_vector in Er. destruct (negb _) in Er; [done|].
  unfold RunAsyncMultiInput in Er. destruct (negb _) in Er; [done|].
  destruct (existsb _ _); [done|]. destruct (negb _) in Er; [done|]. injection Er as <-.
  exists (InferenceJob.external_tensor (job_engine e) n (Some (b, 0))).
  split; [|split; [apply external_tensor_data|split; [done|]]].
  - rewrite (started_tensor _ _ _ _ n (Some (b, 0))); [done|]. by apply input_map_lookup with i.
  - apply free_blocks_None. apply list_elem_of_lookup. by exists i.
Qed.

Definition demo_buffer : heap := {[ 1 := [10; 11; 20; 21; 22] ]}.
Definition demo_split : InferenceJob.job :=
  Eval vm_compute in
    match RunAsync_split demo_engine false false (1, 0) None (Some demo_job) [7; 8] demo_buffer with
    | Some (inr j, _, _) => j | _ => demo_job end.

(** The inputs have two and three bytes; the job has started with the second at block 8. *)
Lemma split_inputs_dangle_witness :
  RunAsync_split demo_engine false false (1, 0) None (Some demo_job) [7; 8] demo_buffer
    = Some (inr demo_split, {[ 1 := [10; 11; 20; 21; 22]; 7 := [10; 11]; 8 := [20; 21; 22] ]}, demo_buffer) /\
  exists t, InferenceJob.tensors demo_split !! "y" = Some t /\ InferenceJob.t_data t = Some (8, 0) /\
    demo_buffer !! 8 = None.
Proof.
  assert (RunAsync_split demo_engine false false (1, 0) None (Some demo_job) [7; 8] demo_buffer
    = Some (inr demo_split, {[ 1 := [10; 11; 20; 21; 22]; 7 := [10; 11]; 8 := [20; 21; 22] ]}, demo_buffer)) as E
    by (vm_compute; reflexivity).
  split; [exact E|].
  destruct (split_inputs_dangle demo_engine false (1, 0) [10; 11; 20; 21; 22] None demo_job [7; 8]
    demo_buffer demo_split {[ 1 := [10; 11; 20; 21; 22]; 7 := [10; 11]; 8 := [20; 21; 22] ]}
    demo_buffer eq_refl) with (i := 1%nat) (n := "y") (s := 3) (b := 8)
    as (t & H1 & H2 & _ & H3).
  - apply (bool_decide_unpack _). vm_compute. exact I.
  - apply (bool_decide_unpack _). vm_compute. exact I.
  - vm_compute. repeat constructor.
  - apply (bool_decide_unpack _). vm_compute. exact I.
  - vm_compute. reflexivity.
  - exact E.
  - reflexivity.
  - vm_compute. reflexivity.
  - reflexivity.
  - reflexivity.
  - exists t. split; [exact H1|]. split; [exact H2|exact H3].
Defined.
