(* ===== verification/EngineOutputs.v ===== *)
(** * The inference engine: the outputs in the buffer of the user

    The offsets [calculateTensorOffsets] gives the outputs tile the buffer whose size
    [GetOutputSize] reports, and a job of the engine returns its outputs there. *)

From Stdlib Require Import ZArith Lia.
From stdpp Require Import strings.
From S2P Require Import Prelude FormatHandler FormatCopy InferenceJob JobOutputs JobThms Engine EngineTyping.
Import Engine.

(** All outputs of the tasks, and the size of the output of a name. *)
Definition all_outputs (ts : list Task) : list Tensor := concat ((fun t => outputs (info t)) <$> ts).
Definition find_name (n : string) (l : list Tensor) : option Tensor :=
  find (fun o => bool_decide (name o = n)) l.
Definition size_of (l : list Tensor) (n : string) : Z := default 0 (size_in_bytes <$> find_name n l).

Lemma all_outputs_names ts : names (all_outputs ts) = produced_names ts.
Proof.
  unfold all_outputs, produced_names, names. induction ts as [|t ts IH]; [done|].
  cbn [fmap list_fmap concat]. by rewrite fmap_app, IH.
Qed.

Lemma size_of_nonneg l n : 0 <= size_of l n.
Proof. unfold size_of. destruct (find_name n l); [|done]. cbn. by apply uwrap_range. Qed.

Lemma find_name_None n l : n ∉ names l -> find_name n l = None.
Proof.
  intros H. unfold find_name. induction l as [|o l IH]; [done|]. cbn [find].
  cbn [names fmap list_fmap] in H. apply not_elem_of_cons in H as [H1 H2].
  rewrite bool_decide_eq_false_2 by (intros E; by apply H1). by apply IH.
Qed.

Lemma find_name_Some n l : n ∈ names l -> exists o, find_name n l = Some o /\ name o = n.
Proof.
  intros H. unfold find_name. induction l as [|o l IH]; [by apply elem_of_nil in H|]. cbn [find].
  case_bool_decide as E; [by exists o|]. cbn [names fmap list_fmap] in H.
  apply elem_of_cons in H as [->|H]; [done|by apply IH].
Qed.

Lemma find_name_app n l1 l2 :
  find_name n (l1 ++ l2) = match find_name n l1 with Some o => Some o | None => find_name n l2 end.
Proof. unfold find_name. induction l1 as [|o l1 IH]; [done|]. cbn. by case_bool_decide. Qed.

(** ** The registry *)

Lemma lookup_list_to_map_fun {B} (f : string -> B) (l : list string) n :
  n ∈ l -> (list_to_map ((fun n => (n, f n)) <$> l) : gmap string B) !! n = Some (f n).
Proof.
  induction l as [|x l IH]; intros H; [by apply elem_of_nil in H|]. cbn.
  destruct (decide (x = n)) as [->|Hne]; [by rewrite lookup_insert_eq|].
  rewrite lookup_insert_ne by done. apply IH. apply elem_of_cons in H as [->|H]; done.
Qed.

Lemma find_producer_size n ts d :
  Forall (fun t => task_name t <> "") ts -> d.1 = "" -> n ∈ produced_names ts ->
  (find_producer n ts d).2 = size_of (all_outputs ts) n.
Proof.
  revert d. induction ts as [|t ts IH]; intros d Hn Hd H; [by apply elem_of_nil in H|].
  apply Forall_cons in Hn as [Hn1 Hn2]. cbn [find_producer].
  unfold all_outputs, size_of. cbn [fmap list_fmap concat]. rewrite find_name_app.
  change (find_output n t) with (find_name n (outputs (info t))).
  destruct (find_name n (outputs (info t))) as [o|] eqn:E.
  - cbn [fst]. by rewrite bool_decide_eq_false_2.
  - rewrite bool_decide_eq_true_2 by done. apply (IH d Hn2 Hd).
    unfold produced_names in H. cbn [fmap list_fmap concat] in H.
    apply elem_of_app in H as [H|H]; [|done].
    destruct (find_name_Some _ _ H) as (o & Eo & _). by rewrite Eo in E.
Qed.

Lemma registry_size ts ins outs n :
  Forall (fun t => task_name t <> "") ts -> n ∈ produced_names ts ->
  exists d, buildTensorRegistry ts ins outs !! n = Some d /\ sizeInBytes d = size_of (all_outputs ts) n.
Proof.
  intros Hn H. exists (descriptor ts ins outs n). split.
  - apply lookup_list_to_map_fun. unfold allTensorNames. apply elem_of_concat_fmap.
    unfold produced_names in H. apply elem_of_concat_fmap in H as (t & Ht & H).
    exists t. split; [done|]. apply elem_of_app. by right.
  - by apply find_producer_size.
Qed.

(** ** The offsets *)

Section Offsets.
Context (size : string -> Z).
Hypothesis size_nonneg : forall n, 0 <= size n.

Definition offset_at (order : list string) (i : nat) : Z := sum_Z (size <$> take i order).

Lemma sum_sizes_nonneg l : 0 <= sum_Z (size <$> l).
Proof. apply sum_Z_nonneg, Forall_fmap, Forall_true. done. Qed.

Lemma place_outputs order reg off cur :
  (forall n, n ∈ order -> exists d, reg !! n = Some d /\ sizeInBytes d = size n) ->
  NoDup order -> 0 <= cur -> cur + sum_Z (size <$> order) < 2 ^ 64 ->
  let '(_, off', _) := foldl place_output (reg, off, cur) order in
  (forall n, n ∉ order -> off' !! n = off !! n) /\
  (forall i n, order !! i = Some n -> off' !! n = Some (cur + offset_at order i)).
Proof.
  revert reg off cur. induction order as [|n order IH]; intros reg off cur Hr Hn Hc Ht; [done|].
  apply NoDup_cons in Hn as [Hn1 Hn2]. cbn [foldl fmap list_fmap sum_Z foldr] in *.
  change (foldr Z.add 0 (size <$> order)) with (sum_Z (size <$> order)) in Ht.
  pose proof (sum_sizes_nonneg order). pose proof (size_nonneg n).
  destruct (Hr n) as (d & Hd & Hs); [left|]. unfold place_output at 2. rewrite Hd, Hs, uwrap_small by lia.
  specialize (IH (<[n:=set_offset cur d]> reg) (<[n:=cur]> off) (cur + size n)).
  destruct (foldl _ _ _) as [[reg' off'] cur'] eqn:E. destruct IH as [I1 I2]; [|done|lia|lia|].
  { intros n' Hn'. destruct (decide (n' = n)) as [->|Hne]; [done|]. rewrite lookup_insert_ne by done.
    apply Hr. by right. }
  split.
  - intros n' [Hne Hno]%not_elem_of_cons. rewrite I1 by done. by rewrite lookup_insert_ne.
  - intros [|i] n' Hi; cbn in Hi.
    + injection Hi as <-. rewrite I1 by done. rewrite lookup_insert_eq. unfold offset_at. cbn. f_equal. lia.
    + rewrite (I2 i n' Hi). unfold offset_at. cbn [take fmap list_fmap sum_Z foldr]. f_equal.
      change (foldr Z.add 0 (size <$> take i order)) with (sum_Z (size <$> take i order)). lia.
Qed.

(** A prefix with its next element is within a longer prefix. *)
Lemma offset_next order i n : order !! i = Some n -> offset_at order (S i) = offset_at order i + size n.
Proof.
  intros Hi. unfold offset_at. rewrite (take_S_r _ _ _ Hi), fmap_app, sum_Z_app. cbn. lia.
Qed.

Lemma offset_mono order i k : (i <= k)%nat -> offset_at order i <= offset_at order k.
Proof.
  intros H. unfold offset_at. replace k with (i + (k - i))%nat by lia.
  rewrite <- take_take_drop, fmap_app, sum_Z_app. pose proof (sum_sizes_nonneg (take (k - i) (drop i order))). lia.
Qed.

Lemma offset_end order : offset_at order (length order) = sum_Z (size <$> order).
Proof. unfold offset_at. by rewrite take_ge. Qed.
End Offsets.

(** ** The size of the outputs *)

Lemma add_sizes_skip n l z :
  n ∉ names l -> foldl (fun z o => if bool_decide (name o = n) then u64 (z + size_in_bytes o) else z) z l = z.
Proof.
  revert z. induction l as [|o l IH]; intros z H; [done|]. cbn [names fmap list_fmap] in H.
  apply not_elem_of_cons in H as [H1 H2]. cbn [foldl].
  rewrite bool_decide_eq_false_2 by (intros E; by apply H1). by apply IH.
Qed.

Lemma add_sizes n l z :
  NoDup (names l) -> 0 <= z -> z + size_of l n < 2 ^ 64 ->
  foldl (fun z o => if bool_decide (name o = n) then u64 (z + size_in_bytes o) else z) z l = z + size_of l n.
Proof.
  revert z. induction l as [|o l IH]; intros z Hn Hz Hl; [cbn; lia|].
  cbn [names fmap list_fmap] in Hn. apply NoDup_cons in Hn as [H1 H2]. cbn [foldl].
  unfold size_of, find_name in Hl |- *. cbn [find] in Hl |- *. case_bool_decide as E.
  - cbn in *. rewrite uwrap_small.
    + apply add_sizes_skip. by rewrite <- E.
    + assert (0 <= size_in_bytes o) by (by apply uwrap_range). lia.
  - by apply IH.
Qed.

Lemma output_sizes_flat n ts z :
  isPPU ts = false ->
  output_sizes n ts z =
    inl (foldl (fun z o => if bool_decide (name o = n) then u64 (z + size_in_bytes o) else z) z (all_outputs ts)).
Proof.
  revert z. induction ts as [|t ts IH]; intros z H; [done|]. cbn in H. apply orb_false_iff in H as [H1 H2].
  cbn [output_sizes]. rewrite H1, (IH _ H2). unfold all_outputs. cbn [fmap list_fmap concat].
  by rewrite foldl_app.
Qed.

Lemma sum_output_sizes_spec ts order z :
  isPPU ts = false -> NoDup (produced_names ts) -> 0 <= z ->
  z + sum_Z (size_of (all_outputs ts) <$> order) < 2 ^ 64 ->
  sum_output_sizes ts order z = z + sum_Z (size_of (all_outputs ts) <$> order).
Proof.
  intros Hp Hn. rewrite <- all_outputs_names in Hn. revert z.
  induction order as [|n order IH]; intros z Hz Hl; [cbn; lia|].
  cbn [sum_output_sizes fmap list_fmap sum_Z foldr] in *.
  change (foldr Z.add 0 (size_of (all_outputs ts) <$> order)) with (sum_Z (size_of (all_outputs ts) <$> order)) in *.
  pose proof (size_of_nonneg (all_outputs ts) n).
  pose proof (sum_sizes_nonneg _ (size_of_nonneg (all_outputs ts)) order).
  rewrite output_sizes_flat, add_sizes by (done || lia). rewrite IH by lia. lia.
Qed.

(** ** The layout of the outputs of a loaded model *)

(** No task has a PPU, task names are not empty, tensors have one producer, the outputs
    of the model are different and produced, and their sizes are known and small. *)
Record plain_outputs (e : InferenceEngine) : Prop := {
  po_ppu : isPPU (e_tasks e) = false;
  po_static : HasDynamicOutput e = false;
  po_names : Forall (fun t => task_name t <> "") (e_tasks e);
  po_unique : NoDup (produced_names (e_tasks e));
  po_order : NoDup (e_outputOrder e);
  po_produced : Forall (fun n => n ∈ produced_names (e_tasks e)) (e_outputOrder e);
  po_total : sum_Z (size_of (all_outputs (e_tasks e)) <$> e_outputOrder e) < 2 ^ 64
}.

Section Layout.
Context (cpu : list Z -> option TaskInfo) (checked ort : bool) (md : ModelData) (bc : Z) (mems : list Z).
Context (e : InferenceEngine).
Hypothesis loaded : loadModel cpu checked ort md bc mems = inr e.
Hypothesis plain : plain_outputs e.
Abbreviation bytes_of := (size_of (all_outputs (e_tasks e))).

Lemma loaded_offset i n :
  e_outputOrder e !! i = Some n ->
  GetOutputTensorOffset e n = offset_at bytes_of (e_outputOrder e) i.
Proof.
  intros Hi. destruct (load_inv _ _ _ _ _ _ _ loaded) as (ts0 & ts & _ & _ & Ee). cbn zeta in Ee.
  destruct plain as [_ _ Hnm _ Ho Hp Ht]. unfold GetOutputTensorOffset.
  rewrite Ee in Hi, Hnm, Ho, Hp, Ht |- *. cbn [e_tasks e_outputOrder e_cachedOutputOffsets] in *.
  unfold calculateTensorOffsets.
  set (order := lastOutputOrder md ort (buildTaskGraph md ts0)) in *.
  set (reg := buildTensorRegistry ts _ order).
  pose proof (place_outputs (size_of (all_outputs ts)) (size_of_nonneg _) order reg ∅ 0) as H.
  destruct (foldl place_output (reg, ∅, 0) order) as [[reg' off'] cur'].
  destruct H as [_ H]; [|done|done|lia|].
  - intros x Hx. rewrite Forall_forall in Hp. apply registry_size; [done|by apply Hp].
  - cbn. by rewrite (H i n Hi).
Qed.

Lemma loaded_output_size : GetOutputSize e = sum_Z (bytes_of <$> e_outputOrder e).
Proof.
  destruct plain as [Hppu Hst _ Hu _ _ Ht]. unfold GetOutputSize. rewrite Hst.
  by rewrite sum_output_sizes_spec.
Qed.

Lemma loaded_slots n :
  n ∈ e_outputOrder e ->
  0 <= GetOutputTensorOffset e n /\ GetOutputTensorOffset e n + bytes_of n <= GetOutputSize e.
Proof.
  intros [i Hi]%list_elem_of_lookup. rewrite (loaded_offset i n Hi), loaded_output_size.
  pose proof (size_of_nonneg (all_outputs (e_tasks e))) as Hs.
  rewrite <- offset_end, <- (offset_next _ _ _ _ Hi). split.
  - apply sum_sizes_nonneg. apply Hs.
  - apply offset_mono; [apply Hs|]. by apply lookup_lt_Some in Hi.
Qed.

Lemma loaded_disjoint n n' :
  n ∈ e_outputOrder e -> n' ∈ e_outputOrder e -> n <> n' ->
  GetOutputTensorOffset e n + bytes_of n <= GetOutputTensorOffset e n' \/
  GetOutputTensorOffset e n' + bytes_of n' <= GetOutputTensorOffset e n.
Proof.
  intros [i Hi]%list_elem_of_lookup [k Hk]%list_elem_of_lookup Hne.
  rewrite (loaded_offset i n Hi), (loaded_offset k n' Hk).
  rewrite <- (offset_next _ _ _ _ Hi), <- (offset_next _ _ _ _ Hk).
  pose proof (size_of_nonneg (all_outputs (e_tasks e))) as Hs.
  destruct (decide (i = k)) as [->|]; [by rewrite Hi in Hk; injection Hk|].
  destruct (decide (i < k)%nat); [left|right]; apply offset_mono; (apply Hs || lia).
Qed.
End Layout.

(** C31. In a loaded model without a PPU and without dynamic outputs, the outputs tile the
    buffer of [GetOutputSize] bytes in the order of the model: each one lies in it, two
    do not overlap, and their sizes add up to the size of the buffer. *)
Theorem output_layout cpu checked ort md bc mems e :
  loadModel cpu checked ort md bc mems = inr e -> plain_outputs e ->
  (forall n, n ∈ e_outputOrder e -> 0 <= GetOutputTensorOffset e n /\
     GetOutputTensorOffset e n + size_of (all_outputs (e_tasks e)) n <= GetOutputSize e) /\
  (forall n n', n ∈ e_outputOrder e -> n' ∈ e_outputOrder e -> n <> n' ->
     GetOutputTensorOffset e n + size_of (all_outputs (e_tasks e)) n <= GetOutputTensorOffset e n' \/
     GetOutputTensorOffset e n' + size_of (all_outputs (e_tasks e)) n' <= GetOutputTensorOffset e n) /\
  GetOutputSize e = sum_Z (size_of (all_outputs (e_tasks e)) <$> e_outputOrder e).
Proof.
  intros El Hp. split; [|split].
  - intros n. by eapply loaded_slots.
  - intros n n'. by eapply loaded_disjoint.
  - by eapply loaded_output_size.
Qed.

(** ** The end of a job of the engine *)

(** A produced output: its size is the one of the model, and it lies in a block of its own
    or in its place of the buffer. *)
Definition output_ready (e : InferenceEngine) (j : InferenceJob.job) (h : InferenceJob.heap)
    (D base : Z) (n : string) : Prop :=
  exists t d, InferenceJob.tensors j !! n = Some t /\ InferenceJob.t_data t = Some d /\
    InferenceJob.t_size t = size_of (all_outputs (e_tasks e)) n /\
    (d = (D, base + GetOutputTensorOffset e n) \/
     (d.1 <> D /\ 0 <= d.2 /\ exists b, h !! d.1 = Some b /\ d.2 + InferenceJob.t_size t <= FormatHandler.len b)).

(** C32. The last step of a job ([onAllRequestComplete]) of a loaded model without a PPU
    and without dynamic outputs ([plain_outputs]), with a buffer of [GetOutputSize] bytes
    from the user and every output produced ([output_ready]: of the size the model has for
    it, in its place of the buffer or in a block of its own): the job ends with every
    output, byte for byte, at the offset [GetOutputTensorOffset] reports, and nothing is
    written outside the buffer.  With a PPU [GetOutputSize] is not the sum of the outputs
    that are copied and the buffer can be too small. *)
Theorem outputs_in_user_buffer cpu checked ort md bc mems e j h D base to :
  loadModel cpu checked ort md bc mems = inr e -> plain_outputs e ->
  InferenceJob.outputs j = e_outputOrder e -> InferenceJob.outputPtr j = Some (D, base) ->
  h !! D = Some to -> 0 <= base -> base + GetOutputSize e <= FormatHandler.len to ->
  Forall (output_ready e j h D base) (e_outputOrder e) ->
  exists cb j' to', InferenceJob.onAllRequestComplete (job_engine e) j h =
      (InferenceJob.Finished, cb, InferenceJob.requests j, j', <[D := to']> h) /\
    InferenceJob.status j' = InferenceJob.REQ_DONE /\ FormatHandler.len to' = FormatHandler.len to /\
    (forall n t i, n ∈ e_outputOrder e -> InferenceJob.tensors j !! n = Some t ->
       0 <= i < InferenceJob.t_size t ->
       byte to' (base + GetOutputTensorOffset e n + i) =
         content (InferenceJob.tensors j) h n i) /\
    (forall i, 0 <= i < base \/ base + GetOutputSize e <= i ->
       byte to' i = byte to i).
Proof.
  intros El Hp Ho Hout HD Hb Hl Hr. rewrite Forall_forall in Hr.
  destruct (returned_in_buffer (job_engine e) j h D base to Hout HD) as
    (cb & j' & to' & E & Hst & _ & _ & Hlen & Hc & Hrest).
  - rewrite Ho. by destruct Hp.
  - rewrite Ho. intros n n' i Hn Hn' Hne (t & Ht & Hi) (t' & Ht' & Hi').
    destruct (Hr n Hn) as (t1 & d & Ht1 & _ & Es & _). destruct (Hr n' Hn') as (t2 & d' & Ht2 & _ & Es' & _).
    simplify_eq. cbn in Hi, Hi'. rewrite Es in Hi. rewrite Es' in Hi'.
    destruct (loaded_disjoint _ _ _ _ _ _ e El Hp n n' Hn Hn' Hne); lia.
  - rewrite Ho. apply Forall_forall. intros n Hn.
    destruct (Hr n Hn) as (t & d & Ht & Hd & Es & Hor). exists t, d.
    destruct (loaded_slots _ _ _ _ _ _ e El Hp n Hn). cbn.
    pose proof (size_of_nonneg (all_outputs (e_tasks e)) n).
    repeat split; try done; lia.
  - exists cb, j', to'. split; [exact E|]. split; [done|]. split; [done|]. split.
    + intros n t i Hn. rewrite <- Ho in Hn. by apply Hc.
    + intros i Hi. pose proof (sum_sizes_nonneg _ (size_of_nonneg (all_outputs (e_tasks e))) (e_outputOrder e)).
      rewrite <- (loaded_output_size e Hp) in *. apply Hrest; [lia|].
      intros n Hn (t & Ht & Hin). rewrite Ho in Hn. destruct (Hr n Hn) as (t1 & d & Ht1 & _ & Es & _).
      simplify_eq. destruct (loaded_slots _ _ _ _ _ _ e El Hp n Hn). cbn in Hin.
      rewrite Es in Hin. lia.
Qed.

(** One CPU task with the outputs [p] and [q], returned as [q], [p]. *)
Definition pq_cpu (b : list Z) : option TaskInfo :=
  Some (mkInfo [mkTensor "x" [4] 1] [mkTensor "p" [2] 1; mkTensor "q" [1; 3] 1] [0] 5 false false false 0).
Definition pq_md : ModelData :=
  mkModel ["A"] [("A", mkSubGraph [mkGraphTensor "x" "" ["A"]]
                        [mkGraphTensor "p" "A" []; mkGraphTensor "q" "A" []] true true)]
    ["x"] ["q"; "p"] [] [("A", [0])] true true.
Definition pq_engine : InferenceEngine :=
  Eval vm_compute in
    match loadModel pq_cpu true true pq_md 6 [] with
    | inr e => e
    | inl _ => mkEngine [] [] [] ∅ [] ∅ ∅
    end.

Lemma pq_loaded : loadModel pq_cpu true true pq_md 6 [] = inr pq_engine.
Proof. vm_compute. reflexivity. Qed.

Lemma pq_plain : plain_outputs pq_engine.
Proof.
  constructor; try (vm_compute; reflexivity); apply (bool_decide_unpack _); vm_compute; exact I.
Qed.

Lemma output_layout_witness :
  GetOutputTensorOffset pq_engine "q" = 0 /\ GetOutputTensorOffset pq_engine "p" = 3 /\
  GetOutputSize pq_engine = 5 /\ GetOutputTensorOffset pq_engine "p" + 2 <= GetOutputSize pq_engine.
Proof.
  destruct (output_layout pq_cpu true true pq_md 6 [] pq_engine pq_loaded pq_plain) as (H1 & _ & H3).
  split; [vm_compute; reflexivity|]. split; [vm_compute; reflexivity|].
  split; [rewrite H3; vm_compute; reflexivity|].
  assert ("p" ∈ e_outputOrder pq_engine) as Hp by (apply (bool_decide_unpack _); vm_compute; exact I).
  exact (proj2 (H1 "p" Hp)).
Defined.

(** The output [q] was written in place, [p] is in a block of the task. *)
Definition pq_job : InferenceJob.job :=
  InferenceJob.mkJob
    {[ "p" := InferenceJob.mkTensor "p" 2 (Some (2, 1)) 0; "q" := InferenceJob.mkTensor "q" 3 (Some (1, 0)) 0 ]}
    ∅ 1 1 ["q"; "p"] 0 0 (Some (1, 0)) false InferenceJob.REQ_BUSY [] [] true.
Definition pq_heap : InferenceJob.heap := {[ 1 := [31; 32; 33; 0; 0; 99]; 2 := [0; 21; 22] ]}.

Lemma outputs_in_user_buffer_witness :
  exists cb j' h', InferenceJob.onAllRequestComplete (job_engine pq_engine) pq_job pq_heap
      = (InferenceJob.Finished, cb, [], j', h') /\
    h' !! 1 = Some [31; 32; 33; 21; 22; 99] /\ InferenceJob.status j' = InferenceJob.REQ_DONE.
Proof.
  destruct (outputs_in_user_buffer pq_cpu true true pq_md 6 [] pq_engine pq_job pq_heap 1 0
    [31; 32; 33; 0; 0; 99] pq_loaded pq_plain) as (cb & j' & to' & E & H1 & _).
  - reflexivity.
  - reflexivity.
  - reflexivity.
  - discriminate.
  - vm_compute. discriminate.
  - constructor; [|constructor; [|constructor]].
    + eexists _, _. split; [reflexivity|]. split; [reflexivity|]. split; [vm_compute; reflexivity|].
      left. vm_compute. reflexivity.
    + eexists _, _. split; [reflexivity|]. split; [reflexivity|]. split; [vm_compute; reflexivity|].
      right. repeat split; try discriminate. exists [0; 21; 22]. split; [reflexivity|]. vm_compute. discriminate.
  - vm_compute in E. injection E as <- <- _. do 3 eexists. split; [vm_compute; reflexivity|].
    split; [reflexivity|exact H1].
Defined.
