(* ===== verification/JobSlots.v ===== *)
(** * The slots of jobs

    [CircularDataPool] (lib/include/dxrt/circular_data_pool.h) and its use for the jobs of an
    engine (lib/inference_engine.cpp [runAsync], [Wait]; lib/inference_job.cpp
    [onAllRequestComplete]): a job object is taken from a ring of them, runs, is given back by
    the thread that completes its last task, and the caller waits on it by its index.

    A run is one call of [RunAsync] with the [Wait] for it, and the thread that ends its job.  An
    action is one access of a flag or of the status, or the part of a function between two of
    them; a pick holds the mutex of the pool, so one is under way at a time.  A thread that
    waits is one whose action is not enabled.  What the job does between its start and
    its end is in [InferenceJob]; the results are stored ([_storeResult]). *)

From Stdlib Require Import ZArith Lia.
From S2P Require Import Prelude.

Module JobSlots.

(** ** The ring *)

Record pool := mkPool { flags : list bool; headIndex : nat }.

Definition INFERENCE_JOB_MAX_COUNT : nat := 1024.
Definition new_pool (n : nat) : pool := mkPool (replicate n false) 0.

Definition next_index (p : pool) : nat :=
  if (S (headIndex p) =? length (flags p))%nat then 0%nat else S (headIndex p).

(** One round of the loop: the element at the head, if its flag was clear. *)
Definition probe (p : pool) : option nat * pool :=
  if default true (flags p !! headIndex p) then (None, mkPool (flags p) (next_index p))
  else (Some (headIndex p), mkPool (<[headIndex p := true]> (flags p)) (next_index p)).

(** The whole loop, when no flag changes meanwhile. *)
Fixpoint pick_loop (rounds : nat) (p : pool) : option nat * pool :=
  match rounds with
  | O => (None, p)
  | S rounds => match probe p with (Some i, p) => (Some i, p) | (None, p) => pick_loop rounds p end
  end.
Definition pick (p : pool) : option nat * pool := pick_loop (length (flags p)) p.

Definition clear_flag (i : nat) (p : pool) : pool := mkPool (<[i := false]> (flags p)) (headIndex p).

(** ** Jobs *)

Inductive Status := REQ_IDLE | REQ_BUSY | REQ_DONE.
#[export] Instance Status_eq_dec : EqDecision Status.
Proof. solve_decision. Defined.

(** A job object; the outputs stored in it are those of some run. *)
Record job := mkJob { status : Status; occupied : bool; returnOutputs : option nat }.
Definition new_job : job := mkJob REQ_IDLE false None.

(** Where the caller of a run is. *)
Inductive caller :=
| Sets            (** before [SetInferenceJob] *)
| Starts          (** before [startJob] *)
| Occupies        (** before [SetOccupiedJob(true)] *)
| Waits           (** in [Wait] *)
| Takes           (** before [getOutput] *)
| Took (o : option nat).
(** Where the thread that ends the job of a run is. *)
Inductive worker :=
| Unborn | Working
| Releases        (** before [ReleaseAllOutputBuffer] *)
| Finishes        (** before [setStatus(REQ_DONE)] *)
| Vacates         (** before [SetOccupiedJob(false)] *)
| Gone.

Record run := mkRun { slot : nat; caller_ : caller; worker_ : worker }.

(** [rounds]: what is left of the pick under way. *)
Record state := mkState { pool_ : pool; rounds : option nat; jobs : list job; runs : list run }.

Inductive action :=
| APick | AProbe
| ASet (r : nat) | AStart (r : nat) | AOccupy (r : nat) | AWait (r : nat) | ATake (r : nat)
| AStore (r : nat) | ARelease (r : nat) | ADone (r : nat) | AVacate (r : nat).

Definition with_jobs (l : list job) (s : state) := mkState (pool_ s) (rounds s) l (runs s).
Definition set_caller (r : nat) (c : caller) (s : state) :=
  mkState (pool_ s) (rounds s) (jobs s) (alter (fun x => mkRun (slot x) c (worker_ x)) r (runs s)).
Definition set_worker (r : nat) (w : worker) (s : state) :=
  mkState (pool_ s) (rounds s) (jobs s) (alter (fun x => mkRun (slot x) (caller_ x) w) r (runs s)).
Definition on_job (f : job -> job) (i : nat) (s : state) := with_jobs (alter f i (jobs s)) s.

(** [Clear] leaves the outputs of an earlier run. *)
Definition Clear (j : job) : job := mkJob REQ_IDLE false (returnOutputs j).
Definition setStatus (x : Status) (j : job) : job := mkJob x (occupied j) (returnOutputs j).
Definition SetOccupiedJob (b : bool) (j : job) : job := mkJob (status j) b (returnOutputs j).
Definition setReturnOutputs (r : nat) (j : job) : job := mkJob (status j) (occupied j) (Some r).
Definition getOutput (j : job) : option nat * job := (returnOutputs j, mkJob (status j) (occupied j) None).

Definition act (a : action) (s : state) : option state :=
  match a with
  | APick =>
      match rounds s with
      | None => Some (mkState (pool_ s) (Some (length (flags (pool_ s)))) (jobs s) (runs s))
      | Some _ => None
      end
  | AProbe =>
      match rounds s with
      | Some (S n) =>
          match probe (pool_ s) with
          | (Some i, p) => Some (mkState p None (jobs s) (runs s ++ [mkRun i Sets Unborn]))
          | (None, p) => Some (mkState p (Some n) (jobs s) (runs s))
          end
      | Some O => Some (mkState (pool_ s) None (jobs s) (runs s))     (** [nullptr]: an exception *)
      | None => None
      end
  | ASet r =>
      x ← runs s !! r;
      match caller_ x with Sets => Some (set_caller r Starts (on_job Clear (slot x) s)) | _ => None end
  | AStart r =>
      x ← runs s !! r;
      match caller_ x with
      | Starts => Some (set_worker r Working (set_caller r Occupies (on_job (setStatus REQ_BUSY) (slot x) s)))
      | _ => None
      end
  | AOccupy r =>
      x ← runs s !! r;
      match caller_ x with
      | Occupies => Some (set_caller r Waits (on_job (SetOccupiedJob true) (slot x) s))
      | _ => None
      end
  | AWait r =>
      x ← runs s !! r; j ← jobs s !! slot x;
      match caller_ x with
      | Waits => if decide (status j = REQ_BUSY) then None else Some (set_caller r Takes s)
      | _ => None
      end
  | ATake r =>
      x ← runs s !! r; j ← jobs s !! slot x;
      match caller_ x with
      | Takes => Some (set_caller r (Took (returnOutputs j)) (on_job (fun j => (getOutput j).2) (slot x) s))
      | _ => None
      end
  | AStore r =>
      x ← runs s !! r;
      match worker_ x with
      | Working => Some (set_worker r Releases (on_job (setReturnOutputs r) (slot x) s))
      | _ => None
      end
  | ARelease r =>
      x ← runs s !! r;
      match worker_ x with
      | Releases => Some (set_worker r Finishes (mkState (clear_flag (slot x) (pool_ s)) (rounds s) (jobs s) (runs s)))
      | _ => None
      end
  | ADone r =>
      x ← runs s !! r;
      match worker_ x with
      | Finishes => Some (set_worker r Vacates (on_job (setStatus REQ_DONE) (slot x) s))
      | _ => None
      end
  | AVacate r =>
      x ← runs s !! r;
      match worker_ x with
      | Vacates => Some (set_worker r Gone (on_job (SetOccupiedJob false) (slot x) s))
      | _ => None
      end
  end.

#[export] Instance action_eq_dec : EqDecision action.
Proof. solve_decision. Defined.

Fixpoint acts (l : list action) (s : state) : option state :=
  match l with [] => Some s | a :: l => s' ← act a s; acts l s' end.

Definition init (n : nat) : state := mkState (new_pool n) None (replicate n new_job) [].

(** ** The ring: lemmas *)

(** The element that is [j] rounds away. *)
Definition at_round (n h j : nat) : nat := if (h + j <? n)%nat then (h + j)%nat else (h + j - n)%nat.

Definition well_formed (p : pool) : Prop := (headIndex p < length (flags p))%nat.

Lemma at_round_0 n h : (h < n)%nat -> at_round n h 0 = h.
Proof. intros H. unfold at_round. destruct (Nat.ltb_spec (h + 0) n); lia. Qed.

Lemma next_at p j :
  well_formed p -> (S j < length (flags p))%nat ->
  at_round (length (flags p)) (next_index p) j = at_round (length (flags p)) (headIndex p) (S j).
Proof.
  unfold well_formed, next_index, at_round. intros H Hj.
  destruct (Nat.eqb_spec (S (headIndex p)) (length (flags p))).
  - destruct (Nat.ltb_spec (0 + j) (length (flags p))), (Nat.ltb_spec (headIndex p + S j) (length (flags p))); lia.
  - destruct (Nat.ltb_spec (S (headIndex p) + j) (length (flags p))), (Nat.ltb_spec (headIndex p + S j) (length (flags p))); lia.
Qed.

Lemma next_lt p : well_formed p -> (next_index p < length (flags p))%nat.
Proof. unfold well_formed, next_index. intros H. destruct (Nat.eqb_spec (S (headIndex p)) (length (flags p))); lia. Qed.

Lemma probe_wf p o p' :
  probe p = (o, p') -> well_formed p ->
  well_formed p' /\ length (flags p') = length (flags p) /\ headIndex p' = next_index p.
Proof.
  unfold probe. intros E H. pose proof (next_lt p H). destruct (default true _); injection E as <- <-; unfold well_formed; cbn.
  - done.
  - by rewrite length_insert.
Qed.

Lemma probe_some p i p' :
  probe p = (Some i, p') -> i = headIndex p /\ flags p !! i = Some false /\ flags p' = <[i := true]> (flags p).
Proof.
  unfold probe. destruct (flags p !! headIndex p) as [[]|] eqn:E; cbn; intros H; try done. by injection H as <- <-.
Qed.

Lemma probe_none p p' :
  well_formed p -> probe p = (None, p') -> flags p !! headIndex p = Some true /\ flags p' = flags p.
Proof.
  unfold probe, well_formed. intros Hp. destruct (flags p !! headIndex p) as [[]|] eqn:E; cbn; intros H; try done.
  - by injection H as <-.
  - apply lookup_ge_None in E. lia.
Qed.

Lemma pick_loop_spec rounds : forall p,
  well_formed p -> (rounds <= length (flags p))%nat ->
  match pick_loop rounds p with
  | (Some i, p') => exists k, (k < rounds)%nat /\ i = at_round (length (flags p)) (headIndex p) k /\
      flags p !! i = Some false /\ flags p' = <[i := true]> (flags p) /\
      forall j, (j < k)%nat -> flags p !! at_round (length (flags p)) (headIndex p) j = Some true
  | (None, p') => flags p' = flags p /\
      forall j, (j < rounds)%nat -> flags p !! at_round (length (flags p)) (headIndex p) j = Some true
  end.
Proof.
  induction rounds as [|n IH]; intros p Hp Hn; [cbn; by split; [|lia]|].
  cbn [pick_loop]. destruct (probe p) as [[i|] p'] eqn:E.
  - apply probe_some in E as (-> & Hf & Hp'). exists 0%nat. rewrite at_round_0 by done.
    split; [lia|]. do 3 (split; [done|]). lia.
  - destruct (probe_wf _ _ _ E Hp) as (Hp' & Hl & Hh). apply probe_none in E as [Hf Ef]; [|done].
    assert (forall j, (j < n)%nat -> at_round (length (flags p)) (headIndex p') j
              = at_round (length (flags p)) (headIndex p) (S j)) as Hat
      by (intros j Hj; rewrite Hh; apply next_at; [done|lia]).
    specialize (IH p' Hp' ltac:(lia)). rewrite Ef in IH.
    destruct (pick_loop n p') as [[i|] p''].
    + destruct IH as (k & Hk & -> & Hi & Hp'' & Hbefore). exists (S k). rewrite <- Hat by lia.
      do 4 (split; [done || lia|]). intros [|j] Hj; [by rewrite at_round_0|]. rewrite <- Hat by lia.
      apply Hbefore. lia.
    + destruct IH as [Hp'' Hall]. split; [done|]. intros [|j] Hj; [by rewrite at_round_0|].
      rewrite <- Hat by lia. apply Hall. lia.
Qed.

(** Every element is some rounds away. *)
Lemma at_round_onto n h i : (h < n)%nat -> (i < n)%nat -> exists j, (j < n)%nat /\ at_round n h j = i.
Proof.
  intros Hh Hi. exists (if (h <=? i)%nat then (i - h)%nat else (i + n - h)%nat). unfold at_round.
  destruct (Nat.leb_spec h i).
  - split; [lia|]. destruct (Nat.ltb_spec (h + (i - h)) n); lia.
  - split; [lia|]. destruct (Nat.ltb_spec (h + (i + n - h)) n); lia.
Qed.

(** [pick] takes the first free element from the head of the ring on, and fails exactly when
    no element is free. *)
Theorem pick_first_free p :
  well_formed p ->
  match pick p with
  | (Some i, p') => exists k, (k < length (flags p))%nat /\ i = at_round (length (flags p)) (headIndex p) k /\
      flags p !! i = Some false /\ flags p' = <[i := true]> (flags p) /\
      forall j, (j < k)%nat -> flags p !! at_round (length (flags p)) (headIndex p) j = Some true
  | (None, p') => flags p' = flags p /\ Forall (fun b => b = true) (flags p)
  end.
Proof.
  intros Hp. pose proof (pick_loop_spec (length (flags p)) p Hp (le_n _)) as H. unfold pick.
  destruct (pick_loop _ p) as [[i|] p']; [done|]. destruct H as [H1 H2]. split; [done|].
  apply Forall_lookup_2. intros i b Hb. destruct (at_round_onto (length (flags p)) (headIndex p) i Hp) as (j & Hj & E).
  { by eapply lookup_lt_Some. }
  specialize (H2 j Hj). rewrite E, Hb in H2. by injection H2.
Qed.

Lemma pick_first_free_witness :
  pick (mkPool [true; false; true] 2) = (Some 1%nat, mkPool [true; true; true] 2) /\
  match pick (mkPool [true; false; true] 2) with
  | (Some i, p') => exists k, (k < 3)%nat /\ i = at_round 3 2 k /\
      [true; false; true] !! i = Some false /\ flags p' = <[i := true]> [true; false; true] /\
      forall j, (j < k)%nat -> [true; false; true] !! at_round 3 2 j = Some true
  | (None, p') => flags p' = [true; false; true] /\ Forall (fun b => b = true) [true; false; true]
  end.
Proof. split; [reflexivity|]. apply (pick_first_free (mkPool [true; false; true] 2)). unfold well_formed. cbn. lia. Defined.

(** ** Runs of the system *)

(** No pick begins: the one under way, if any, goes on. *)
Definition same_pick (a : action) : Prop := a <> APick.

Lemma act_other a s s' :
  act a s = Some s' -> a <> AProbe -> a <> APick ->
  rounds s' = rounds s /\ headIndex (pool_ s') = headIndex (pool_ s) /\ length (flags (pool_ s')) = length (flags (pool_ s)) /\
  (forall i, flags (pool_ s) !! i = Some false -> flags (pool_ s') !! i = Some false) /\
  (forall i, flags (pool_ s') !! i = Some true -> flags (pool_ s) !! i = Some true) /\
  length (runs s') = length (runs s).
Proof.
  intros E H1 H2. destruct a; try done; cbn [act] in E;
    destruct (runs s !! r) as [x|]; cbn in E; try done;
    try (destruct (jobs s !! slot x) as [j|]; cbn in E; [|done]).
  4: destruct (caller_ x); try done; destruct (decide _); [done|]; injection E as <-; cbn; by rewrite length_alter.
  1-4: destruct (caller_ x); try done; injection E as <-; cbn; by rewrite ?length_alter.
  2: { destruct (worker_ x); try done. injection E as <-. cbn. rewrite length_insert, length_alter.
       do 3 (split; [done|]). split; [|split; [|done]]; intros i Hi.
       - destruct (decide (i = slot x)) as [->|]; [|by rewrite list_lookup_insert_ne].
         apply list_lookup_insert_eq. by eapply lookup_lt_Some.
       - destruct (decide (i = slot x)) as [->|]; [|by rewrite list_lookup_insert_ne in Hi].
         pose proof (lookup_lt_Some _ _ _ Hi) as Hlt. rewrite length_insert in Hlt.
         by rewrite list_lookup_insert_eq in Hi. }
  all: destruct (worker_ x); try done; injection E as <-; cbn; by rewrite ?length_alter.
Qed.

Lemma act_wf a s s' :
  act a s = Some s' -> well_formed (pool_ s) ->
  well_formed (pool_ s') /\ length (flags (pool_ s')) = length (flags (pool_ s)).
Proof.
  intros E Hp. destruct (decide (a = AProbe \/ a = APick)) as [[-> | ->]|Ha].
  - cbn in E. destruct (rounds s) as [[|n]|]; [by injection E as <-| |done].
    destruct (probe (pool_ s)) as [o p] eqn:Ep. destruct (probe_wf _ _ _ Ep Hp) as (? & ? & _).
    destruct o; by injection E as <-.
  - cbn in E. destruct (rounds s); [done|]. by injection E as <-.
  - destruct (act_other _ _ _ E) as (_ & Hh & Hl & _); [naive_solver..|]. unfold well_formed in *.
    rewrite Hh, Hl. done.
Qed.

(** A free element is met within the rounds that are left. *)
Definition meets (s : state) : Prop :=
  forall k, rounds s = Some k -> (k <= length (flags (pool_ s)))%nat /\
    exists j, (j < k)%nat /\
      flags (pool_ s) !! at_round (length (flags (pool_ s))) (headIndex (pool_ s)) j = Some false.

Lemma act_meets a s s' : act a s = Some s' -> same_pick a -> well_formed (pool_ s) -> meets s -> meets s'.
Proof.
  intros E Ha Hp H k Hk. destruct (decide (a = AProbe)) as [->|Hb].
  - cbn in E. destruct (rounds s) as [[|n]|] eqn:Er; [by injection E as <-| |done].
    destruct (H _ Er) as [Hn (j & Hj & Hf)].
    destruct (probe (pool_ s)) as [[i|] p] eqn:Ep; injection E as <-; cbn in *; [done|]. injection Hk as <-.
    destruct (probe_wf _ _ _ Ep Hp) as (_ & Hl & Hh). apply probe_none in Ep as [Ht Ef]; [|done].
    rewrite Hl. split; [lia|]. destruct j as [|j]; [by rewrite at_round_0, Ht in Hf|].
    exists j. split; [lia|]. rewrite Ef, Hh, next_at; [done..|lia].
  - destruct (act_other _ _ _ E Hb Ha) as (Er & Eh & El & Hf & _). rewrite Er in Hk.
    destruct (H _ Hk) as [Hn (j & Hj & Hfj)]. rewrite El, Eh. split; [done|]. exists j. split; [done|]. by apply Hf.
Qed.

Lemma acts_meets l : forall s s',
  acts l s = Some s' -> Forall same_pick l -> well_formed (pool_ s) -> meets s -> meets s'.
Proof.
  induction l as [|a l IH]; intros s s' E Hl Hp H; [by injection E as <-|].
  cbn in E. destruct (act a s) as [s1|] eqn:E1; [|done]. apply Forall_cons in Hl as [Ha Hl].
  apply (IH s1 s' E Hl); [by apply (act_wf _ _ _ E1)|by apply (act_meets _ _ _ E1)].
Qed.

(** A pick that begins while some element is free does not fail, however its rounds interleave
    with other threads that give elements back. *)
Theorem pick_never_misses s l s' i :
  well_formed (pool_ s) -> rounds s = None -> flags (pool_ s) !! i = Some false ->
  acts (APick :: l) s = Some s' -> Forall same_pick l -> rounds s' <> Some 0%nat.
Proof.
  intros Hp Hr Hi E Hl Hz. cbn in E. rewrite Hr in E. cbn in E.
  assert (meets s') as M.
  { apply (acts_meets l _ _ E Hl); [done|]. intros k [= <-]. cbn. split; [done|].
    destruct (at_round_onto (length (flags (pool_ s))) (headIndex (pool_ s)) i Hp) as (j & Hj & Ej);
      [by eapply lookup_lt_Some|]. exists j. split; [done|]. by rewrite Ej. }
  destruct (M 0%nat Hz) as [_ (j & Hj & _)]. lia.
Qed.

(** One of two elements is in use; its run gives it back while the pick goes on. *)
Definition busy_state : state := mkState (mkPool [true; false] 0) None [new_job; new_job]
  [mkRun 0 Waits Releases].
Lemma pick_never_misses_witness :
  match acts [APick; AProbe; ARelease 0] busy_state with
  | Some s' => rounds s' <> Some 0%nat
  | None => False
  end.
Proof.
  destruct (acts [APick; AProbe; ARelease 0] busy_state) as [s'|] eqn:E; [|by vm_compute in E].
  apply (pick_never_misses busy_state [AProbe; ARelease 0] s' 1); [unfold well_formed; cbn; lia|done|done|exact E|].
  by repeat constructor.
Defined.

(** *** When an element is used again *)

Definition count_true (l : list bool) : nat := length (filter (fun b => b = true) l).
Definition used (s : state) : nat := count_true (flags (pool_ s)).

Lemma count_true_app l l' : count_true (l ++ l') = (count_true l + count_true l')%nat.
Proof. unfold count_true. by rewrite filter_app, length_app. Qed.

Lemma count_true_step (l : list bool) j (b : bool) :
  l !! j = Some b -> count_true (take (S j) l) = (count_true (take j l) + if b then 1 else 0)%nat.
Proof. intros H. rewrite (take_S_r _ _ _ H), count_true_app. by destruct b. Qed.

(** The flags as the head meets them from [h] on. *)
Definition rotate (h : nat) (l : list bool) : list bool := drop h l ++ take h l.

Lemma rotate_lookup h (l : list bool) j :
  (h < length l)%nat -> (j < length l)%nat -> rotate h l !! j = l !! at_round (length l) h j.
Proof.
  intros Hh Hj. unfold rotate, at_round. destruct (Nat.ltb_spec (h + j) (length l)).
  - rewrite lookup_app_l by (rewrite length_drop; lia). by rewrite lookup_drop.
  - rewrite lookup_app_r by (rewrite length_drop; lia). rewrite length_drop, lookup_take_lt by lia.
    f_equal. lia.
Qed.

Lemma rotate_count h l : count_true (rotate h l) = count_true l.
Proof. unfold rotate. rewrite count_true_app, Nat.add_comm, <- count_true_app. by rewrite take_drop. Qed.

Lemma rotate_length h l : length (rotate h l) = length l.
Proof. unfold rotate. rewrite length_app, length_drop, length_take. lia. Qed.

Section Reuse.
Context (s0 : state) (h : nat).
Context (Hp0 : well_formed (pool_ s0)) (Hh0 : headIndex (pool_ s0) = h).

Definition size_ : nat := length (flags (pool_ s0)).
Definition met (d : nat) : nat := count_true (take d (rotate h (flags (pool_ s0)))).
Definition picks (s : state) : nat := (length (runs s) - length (runs s0))%nat.

(** The head has gone [d] elements from [h], each picked or found in use, and the elements before
    it are as they were or free; or it has been round. *)
Definition lap (s : state) : Prop :=
  (length (runs s0) <= length (runs s))%nat /\ length (flags (pool_ s)) = size_ /\
  ((size_ <= picks s + used s0)%nat \/
   exists d, (d < size_)%nat /\ headIndex (pool_ s) = at_round size_ h d /\ (d <= picks s + met d)%nat /\
     forall j, (d <= j < size_)%nat -> flags (pool_ s) !! at_round size_ h j = Some true ->
       flags (pool_ s0) !! at_round size_ h j = Some true).

Lemma h_lt : (h < size_)%nat.
Proof. unfold well_formed in Hp0. by rewrite Hh0 in Hp0. Qed.

Lemma at_round_inj j k : (j < size_)%nat -> (k < size_)%nat -> at_round size_ h j = at_round size_ h k -> j = k.
Proof.
  pose proof h_lt. unfold at_round. intros Hj Hk.
  destruct (Nat.ltb_spec (h + j) size_), (Nat.ltb_spec (h + k) size_); lia.
Qed.

(** The head goes one element on. *)
Lemma lap_next s d p' o l :
  (d < size_)%nat -> headIndex (pool_ s) = at_round size_ h d -> length (flags (pool_ s)) = size_ ->
  (forall j, (d <= j < size_)%nat -> flags (pool_ s) !! at_round size_ h j = Some true ->
     flags (pool_ s0) !! at_round size_ h j = Some true) ->
  (d <= picks s + met d)%nat -> probe (pool_ s) = (o, p') -> well_formed (pool_ s) ->
  (length (runs s0) <= length (runs s))%nat -> length l = (if o then 1 else 0)%nat ->
  lap (mkState p' None (jobs s) (runs s ++ l)).
Proof.
  intros Hd Hh Hl Hb Hm Ep Hp Hr Ho. destruct (probe_wf _ _ _ Ep Hp) as (Hp' & Hl' & Hh').
  split; [cbn; rewrite length_app; lia|]. split; [cbn; lia|].
  assert ((S d <= picks (mkState p' None (jobs s) (runs s ++ l)) + met (S d))%nat) as Hm'.
  { unfold picks in *. cbn. rewrite length_app, Ho. destruct o as [i|].
    - unfold met in *. pose proof (rotate_length h (flags (pool_ s0))) as Hrl.
      destruct (lookup_lt_is_Some_2 (rotate h (flags (pool_ s0))) d) as [b Hb']; [rewrite Hrl; exact Hd|].
      rewrite (count_true_step _ _ _ Hb'). lia.
    - apply probe_none in Ep as [Ht _]; [|done]. rewrite Hh in Ht. apply Hb in Ht; [|lia].
      unfold met in *. rewrite (count_true_step _ _ true); [lia|]. rewrite rotate_lookup; [exact Ht|apply h_lt|exact Hd]. }
  destruct (decide (S d < size_)%nat) as [Hd'|Hd'].
  - right. exists (S d). split; [done|]. cbn. split.
    + rewrite Hh'. pose proof (next_at (pool_ s) 0) as Hn. rewrite Hl in Hn.
      rewrite at_round_0 in Hn by (pose proof (next_lt _ Hp); lia). rewrite Hn; [|done|lia]. rewrite Hh.
      pose proof h_lt. unfold at_round.
      destruct (Nat.ltb_spec (h + d) size_), (Nat.ltb_spec (h + S d) size_);
        match goal with |- context [Nat.ltb ?a ?b] => destruct (Nat.ltb_spec a b) end; lia.
    + split; [done|]. intros j Hj Ht. apply Hb; [lia|]. destruct o as [i|].
      * apply probe_some in Ep as (-> & _ & Ef). rewrite Ef in Ht. rewrite list_lookup_insert_ne in Ht; [done|].
        rewrite Hh. intros E. apply at_round_inj in E; lia.
      * apply probe_none in Ep as [_ Ef]; [|done]. by rewrite Ef in Ht.
  - left. unfold used. rewrite <- (rotate_count h). unfold met in Hm'.
    rewrite take_ge in Hm' by (rewrite rotate_length; unfold size_ in *; lia). lia.
Qed.

Lemma lap_act a s s' : act a s = Some s' -> well_formed (pool_ s) -> lap s -> lap s'.
Proof.
  intros E Hp (H1 & H2 & H3). destruct (decide (a = AProbe)) as [->|Ha].
  - cbn in E. destruct (rounds s) as [[|n]|]; [by injection E as <-| |done].
    destruct (probe (pool_ s)) as [o p] eqn:Ep. destruct (probe_wf _ _ _ Ep Hp) as (_ & Hl & _).
    destruct H3 as [H3|(d & Hd & Hh & Hm & Hb)].
    + destruct o; injection E as <-; (split; [cbn; rewrite ?length_app; lia|]); (split; [cbn; lia|]); left;
        unfold picks in *; cbn; rewrite ?length_app; lia.
    + destruct o as [i|]; injection E as <-.
      * eapply (lap_next s d p (Some i) [_]); done.
      * pose proof (lap_next s d p None [] Hd Hh H2 Hb Hm Ep Hp H1 eq_refl) as L. by rewrite app_nil_r in L.
  - destruct (decide (a = APick)) as [->|Hb].
    + cbn in E. destruct (rounds s); [done|]. by injection E as <-.
    + destruct (act_other _ _ _ E Ha Hb) as (_ & Eh & El & _ & Ht & Er). split; [lia|]. split; [lia|].
      unfold picks in *. rewrite Er, Eh. destruct H3 as [H3|(d & Hd & Hh & Hm & Hbb)]; [by left|right].
      exists d. do 3 (split; [done|]). intros j Hj Hj'. apply Hbb; [done|]. by apply Ht.
Qed.

Lemma lap_acts l : forall s s', acts l s = Some s' -> well_formed (pool_ s) -> lap s -> lap s'.
Proof.
  induction l as [|a l IH]; intros s s' E Hp H; [by injection E as <-|].
  cbn in E. destruct (act a s) as [s1|] eqn:E1; [|done].
  apply (IH s1 s' E); [by apply (act_wf _ _ _ E1)|by apply (lap_act _ _ _ E1)].
Qed.
End Reuse.

(** A pick that succeeds. *)
Definition picks_slot (s s' : state) (i : nat) : Prop :=
  act AProbe s = Some s' /\ runs s' = runs s ++ [mkRun i Sets Unborn].

Lemma picks_slot_inv s s' i :
  well_formed (pool_ s) -> picks_slot s s' i ->
  i = headIndex (pool_ s) /\ flags (pool_ s) !! i = Some false /\ flags (pool_ s') !! i = Some true /\
  headIndex (pool_ s') = next_index (pool_ s) /\ rounds s' = None.
Proof.
  intros Hp [E Er]. cbn in E.
  destruct (rounds s) as [[|n]|]; [| |done].
  { injection E as <-. cbn in Er. apply (f_equal length) in Er. rewrite length_app in Er. cbn in Er. lia. }
  destruct (probe (pool_ s)) as [[k|] p] eqn:Ep; injection E as <-; cbn in Er.
  - apply app_inv_head in Er. injection Er as ->. destruct (probe_wf _ _ _ Ep Hp) as (_ & _ & Hh).
    apply probe_some in Ep as (-> & Hf & Ef). cbn. split; [done|]. split; [done|]. split; [|done].
    rewrite Ef. by apply list_lookup_insert_eq.
  - apply (f_equal length) in Er. rewrite length_app in Er. cbn in Er. lia.
Qed.

Lemma round_trip n i : (i < n)%nat -> at_round n (if (S i =? n)%nat then 0%nat else S i) (n - 1) = i.
Proof.
  intros H. unfold at_round. destruct (Nat.eqb_spec (S i) n).
  - destruct (Nat.ltb_spec (0 + (n - 1)) n); lia.
  - destruct (Nat.ltb_spec (S i + (n - 1)) n); lia.
Qed.

(** An element that was picked is picked again only after [n - k] or more other picks, [n] the number of elements
    and [k] how many were in use after the first pick, whatever is given back in between. *)
Theorem reuse_distance s0 s l s1 s2 i :
  well_formed (pool_ s0) -> picks_slot s0 s i -> acts l s = Some s1 -> picks_slot s1 s2 i ->
  (length (flags (pool_ s)) <= used s + (length (runs s1) - length (runs s)))%nat.
Proof.
  intros Hp0 H0 El H1. destruct (picks_slot_inv _ _ _ Hp0 H0) as (Ei & _ & Hf & Hh & _).
  destruct (act_wf _ _ _ (proj1 H0) Hp0) as [Hp Hlen].
  set (n := length (flags (pool_ s))) in *. set (h := headIndex (pool_ s)) in *.
  assert (lap s h s) as L0.
  { split; [done|]. split; [done|]. right. exists 0%nat. unfold well_formed in Hp. split; [unfold size_; lia|].
    rewrite at_round_0 by done. split; [done|]. split; [unfold met; rewrite take_0; cbn; lia|done]. }
  pose proof (lap_acts s h Hp eq_refl l s s1 El Hp L0) as (_ & Hl1 & [L|(d & Hd & Hhd & Hm & _)]).
  { unfold size_, picks in L. lia. }
  assert (forall l a b, acts l a = Some b -> well_formed (pool_ a) -> well_formed (pool_ b)) as Hw.
  { clear. induction l as [|a l IH]; intros x y E Hx; [by injection E as <-|]. cbn in E.
    destruct (act a x) as [z|] eqn:Ea; [|done]. apply (IH z y E). by apply (act_wf _ _ _ Ea). }
  destruct (picks_slot_inv _ _ _ (Hw _ _ _ El Hp) H1) as (Ei1 & _).
  assert (i < n)%nat as Hin by (by eapply lookup_lt_Some).
  assert (at_round n h (n - 1) = i) as Hlast.
  { etransitivity; [|apply (round_trip n i Hin)]. f_equal. rewrite Hh. unfold next_index. by rewrite <- Ei, <- Hlen. }
  assert (d = (n - 1)%nat) as ->.
  { apply (at_round_inj s h Hp eq_refl); [done|unfold size_; fold n; lia|]. unfold size_. fold n.
    rewrite Hlast, Ei1. exact (eq_sym Hhd). }
  assert (met s h (S (n - 1)) = (met s h (n - 1) + 1)%nat) as Hs.
  { unfold met. apply (count_true_step _ _ true). rewrite rotate_lookup; [|exact Hp|fold n; lia]. fold n. by rewrite Hlast. }
  replace (S (n - 1)) with n in Hs by lia.
  assert (met s h n = used s) as Hu.
  { unfold met, used. rewrite take_ge by (rewrite rotate_length; fold n; lia). apply rotate_count. }
  unfold picks in Hm. lia.
Qed.

Definition fresh_state : state := mkState (new_pool 2) (Some 2%nat) [new_job; new_job] [].
Definition picked_state : state := Eval vm_compute in default fresh_state (act AProbe fresh_state).
(** Run 0 gives element 0 back, run 1 is given element 1, and the head is at 0 again. *)
Definition reuse_run : list action :=
  [ASet 0; AStart 0; AStore 0; ARelease 0; APick; AProbe; APick].
Definition before_reuse : state := Eval vm_compute in default fresh_state (acts reuse_run picked_state).
Definition after_reuse : state := Eval vm_compute in default fresh_state (act AProbe before_reuse).

Lemma reuse_distance_witness :
  (length (flags (pool_ picked_state))
   <= used picked_state + (length (runs before_reuse) - length (runs picked_state)))%nat.
Proof.
  apply (reuse_distance fresh_state picked_state reuse_run before_reuse after_reuse 0).
  - unfold well_formed. cbn. lia.
  - split; reflexivity.
  - vm_compute. reflexivity.
  - split; reflexivity.
Defined.

(** ** Whose outputs a caller gets *)

(** The run is over: collected, and its thread has left the job. *)
Definition finished (x : run) : Prop := (exists o, caller_ x = Took o) /\ worker_ x = Gone.

(** No job is used by two runs that are not over. *)
Definition calm (s : state) : Prop :=
  forall r r' x x', r <> r' -> runs s !! r = Some x -> runs s !! r' = Some x' -> slot x = slot x' ->
    finished x \/ finished x'.

(** What the job of run [r] looks like. *)
Definition ok (r : nat) (x : run) (j : job) : Prop :=
  match caller_ x, worker_ x with
  | Sets, Unborn => True
  | Starts, Unborn => status j = REQ_IDLE
  | Occupies, Working | Waits, Working => status j = REQ_BUSY
  | Occupies, (Releases | Finishes) | Waits, (Releases | Finishes) =>
      status j = REQ_BUSY /\ returnOutputs j = Some r
  | Occupies, (Vacates | Gone) | Waits, (Vacates | Gone) | Takes, (Vacates | Gone) =>
      status j = REQ_DONE /\ returnOutputs j = Some r
  | Took o, (Vacates | Gone) => o = Some r
  | _, _ => False
  end.

Definition all_ok (s : state) : Prop :=
  (well_formed (pool_ s) /\ length (jobs s) = length (flags (pool_ s))) /\
  forall r x, runs s !! r = Some x -> exists j, jobs s !! slot x = Some j /\ ok r x j.

Lemma finished_ok r x j j' : finished x -> ok r x j -> ok r x j'.
Proof. intros [[o H1] H2]. unfold ok. by rewrite H1, H2. Qed.

(** A step of run [r0] that changes its phase and its job. *)
Lemma run_step_ok s s' r0 x0 x0' f :
  all_ok s -> calm s -> runs s !! r0 = Some x0 -> ~ finished x0 ->
  slot x0' = slot x0 -> runs s' = <[r0 := x0']> (runs s) -> jobs s' = alter f (slot x0) (jobs s) ->
  well_formed (pool_ s') -> length (flags (pool_ s')) = length (flags (pool_ s)) ->
  (forall j, ok r0 x0 j -> ok r0 x0' (f j)) -> all_ok s'.
Proof.
  intros [[Hp Hl] H] Hc H0 Hn Hs Er Ej Hp' Hl' Hok. split.
  { split; [done|]. by rewrite Ej, length_alter, Hl, Hl'. }
  intros r x Hx. rewrite Er in Hx. destruct (decide (r = r0)) as [->|Hr].
  - rewrite list_lookup_insert_eq in Hx by (by eapply lookup_lt_Some). injection Hx as <-.
    destruct (H r0 x0 H0) as (j & Hj & Hk). exists (f j). rewrite Hs, Ej. split; [|by apply Hok].
    by rewrite list_lookup_alter_eq, Hj.
  - rewrite list_lookup_insert_ne in Hx by done. destruct (H r x Hx) as (j & Hj & Hk).
    destruct (decide (slot x = slot x0)) as [Es|Es].
    + exists (f j). rewrite Ej, Es, list_lookup_alter_eq. rewrite Es in Hj. rewrite Hj. split; [done|].
      destruct (Hc r r0 x x0 Hr Hx H0 Es) as [Hf|Hf]; [by eapply finished_ok|done].
    + exists j. by rewrite Ej, list_lookup_alter_ne.
Qed.

Lemma alter_insert {A} (f : A -> A) (i : nat) (l : list A) (x : A) : l !! i = Some x -> alter f i l = <[i := f x]> l.
Proof. intros H. apply list_eq. intros k. destruct (decide (k = i)) as [->|].
  - rewrite list_lookup_alter_eq, H. symmetry. apply list_lookup_insert_eq. by eapply lookup_lt_Some.
  - by rewrite list_lookup_alter_ne, list_lookup_insert_ne.
Qed.

Lemma alter_id {A} (i : nat) (l : list A) : l = alter (fun x => x) i l.
Proof. apply list_eq. intros k. destruct (decide (k = i)) as [->|].
  - rewrite list_lookup_alter_eq. by destruct (l !! i).
  - by rewrite list_lookup_alter_ne.
Qed.

Lemma alter_twice {A} (f g : A -> A) (i : nat) (l : list A) : alter f i (alter g i l) = alter (fun x => f (g x)) i l.
Proof. apply list_eq. intros k. destruct (decide (k = i)) as [->|].
  - rewrite !list_lookup_alter_eq. by destruct (l !! i).
  - by rewrite !list_lookup_alter_ne.
Qed.

Lemma caller_step_ok s r x c f :
  all_ok s -> calm s -> runs s !! r = Some x -> (forall o, caller_ x <> Took o) ->
  (forall j, ok r x j -> ok r (mkRun (slot x) c (worker_ x)) (f j)) ->
  all_ok (set_caller r c (on_job f (slot x) s)).
Proof.
  intros Ha Hc Hx Hn Hok. eapply (run_step_ok s _ r x (mkRun (slot x) c (worker_ x)) f); try done.
  - intros [[o Ho] _]. by apply (Hn o).
  - cbn. by rewrite (alter_insert _ _ _ x).
  - apply Ha.
Qed.

Lemma worker_step_ok s r x w f p :
  all_ok s -> calm s -> runs s !! r = Some x -> worker_ x <> Gone ->
  well_formed p -> length (flags p) = length (flags (pool_ s)) ->
  (forall j, ok r x j -> ok r (mkRun (slot x) (caller_ x) w) (f j)) ->
  all_ok (set_worker r w (on_job f (slot x) (mkState p (rounds s) (jobs s) (runs s)))).
Proof.
  intros Ha Hc Hx Hn Hp Hl Hok. eapply (run_step_ok s _ r x (mkRun (slot x) (caller_ x) w) f); try done.
  - by intros [_ Ho].
  - cbn. by rewrite (alter_insert _ _ _ x).
Qed.

(** A pick gives the job to a run that has not set it up. *)
Lemma probe_ok s s' : act AProbe s = Some s' -> all_ok s -> all_ok s'.
Proof.
  intros E [[Hp Hl] H]. pose proof (act_wf _ _ _ E Hp) as [Hp' Hl'].
  split; [split; [done|]|]; cbn in E; (destruct (rounds s) as [[|n]|]; [by injection E as <-| |done]);
    destruct (probe (pool_ s)) as [[k|] p] eqn:Ep; injection E as <-; cbn in *; try (by rewrite Hl'); try done.
  intros r x Hx. apply lookup_app_Some in Hx as [Hx|[Hr Hx]]; [by apply H|].
  apply list_lookup_singleton_Some in Hx as [_ <-]. cbn.
  apply probe_some in Ep as (-> & _). destruct (lookup_lt_is_Some_2 (jobs s) (headIndex (pool_ s))) as [j Hj];
    [unfold well_formed in Hp; lia|]. by exists j.
Qed.

(** The actions of the caller. *)
Lemma caller_act_ok a r s s' :
  a ∈ [ASet r; AStart r; AOccupy r; AWait r; ATake r] -> act a s = Some s' -> calm s -> all_ok s -> all_ok s'.
Proof.
  intros Hin E Hc Ha. repeat (apply elem_of_cons in Hin as [-> | Hin]); [..|by apply elem_of_nil in Hin]; cbn [act] in E;
    (destruct (runs s !! r) as [x|] eqn:Hx; cbn in E; [|done]);
    try (destruct (jobs s !! slot x) as [j0|] eqn:Hj0; cbn in E; [|done]);
    destruct (caller_ x) eqn:Ex; try done; try (destruct (decide (status j0 = REQ_BUSY)) as [|Hb]; [done|]);
    injection E as <-.
  - apply caller_step_ok; [done..|by rewrite Ex|]. intros j. unfold ok. cbn. rewrite Ex. by destruct (worker_ x).
  - unfold set_worker, set_caller. cbn. rewrite alter_twice.
    eapply (run_step_ok s _ r x (mkRun (slot x) Occupies Working) (setStatus REQ_BUSY)); try done.
    + intros [[o Ho] _]. by rewrite Ex in Ho.
    + cbn. by rewrite (alter_insert _ _ _ x).
    + apply Ha.
  - apply caller_step_ok; [done..|by rewrite Ex|]. intros j. unfold ok. cbn. rewrite Ex. by destruct (worker_ x).
  - destruct (proj2 Ha r x Hx) as (j & Hj & Hk). rewrite Hj0 in Hj. injection Hj as <-.
    eapply (run_step_ok s _ r x (mkRun (slot x) Takes (worker_ x)) (fun j => j)); try done.
    + intros [[o Ho] _]. by rewrite Ex in Ho.
    + cbn. by rewrite (alter_insert _ _ _ x).
    + apply alter_id.
    + apply Ha.
    + unfold ok in *. rewrite Ex in *. intros j. cbn. destruct (worker_ x); try done; by destruct Hk.
  - destruct (proj2 Ha r x Hx) as (j & Hj & Hk). rewrite Hj0 in Hj. injection Hj as <-.
    apply caller_step_ok; [done..|by rewrite Ex|]. intros j. unfold ok in *. cbn. rewrite Ex in *.
    destruct (worker_ x); try done; by destruct Hk as [_ ->].
Qed.

(** The actions of the thread that ends the job. *)
Lemma worker_act_ok a r s s' :
  a ∈ [AStore r; ARelease r; ADone r; AVacate r] -> act a s = Some s' -> calm s -> all_ok s -> all_ok s'.
Proof.
  intros Hin E Hc Ha. repeat (apply elem_of_cons in Hin as [-> | Hin]); [..|by apply elem_of_nil in Hin]; cbn [act] in E;
    (destruct (runs s !! r) as [x|] eqn:Hx; cbn in E; [|done]); destruct (worker_ x) eqn:Ex; try done;
    injection E as <-; destruct s as [p k js rs].
  2: { pose proof (proj1 (proj1 Ha)) as Hp. cbn in Hp.
       replace js with (alter (fun j => j) (slot x) js) by (by rewrite <- alter_id).
       apply (worker_step_ok (mkState p k js rs) r x Finishes (fun j => j) (clear_flag (slot x) p)); [done..|by rewrite Ex| | |].
       - unfold well_formed. cbn. by rewrite length_insert.
       - cbn. by rewrite length_insert.
       - intros j. unfold ok. cbn. rewrite Ex. by destruct (caller_ x). }
  all: apply (worker_step_ok (mkState p k js rs)); [done..|by rewrite Ex|apply Ha|done|];
    intros j; unfold ok; cbn; rewrite Ex; destruct (caller_ x); try done; cbn; tauto.
Qed.

Lemma act_all_ok a s s' : act a s = Some s' -> calm s -> all_ok s -> all_ok s'.
Proof.
  intros E Hc Ha. destruct (decide (a = APick)) as [->|Hp].
  { cbn in E. destruct (rounds s); [done|]. by injection E as <-. }
  destruct (decide (a = AProbe)) as [->|Hq]; [by eapply probe_ok|].
  assert (exists r, a ∈ [ASet r; AStart r; AOccupy r; AWait r; ATake r] \/ a ∈ [AStore r; ARelease r; ADone r; AVacate r])
    as [r [H|H]] by (destruct a as [| |r|r|r|r|r|r|r|r|r]; try done; exists r; set_solver).
  - by eapply caller_act_ok.
  - by eapply worker_act_ok.
Qed.

(** All states along a run are calm. *)
Definition always_calm (l : list action) (s : state) : Prop :=
  forall l1 l2 s1, l = l1 ++ l2 -> acts l1 s = Some s1 -> calm s1.

Lemma acts_all_ok l : forall s s', acts l s = Some s' -> always_calm l s -> all_ok s -> all_ok s'.
Proof.
  induction l as [|a l IH]; intros s s' E Hc Ha; [by injection E as <-|].
  cbn in E. destruct (act a s) as [s1|] eqn:E1; [|done]. apply (IH s1 s' E).
  - intros l1 l2 s2 -> E2. apply (Hc (a :: l1) l2 s2); [done|]. cbn. by rewrite E1.
  - apply (act_all_ok a s s1 E1); [|done]. by apply (Hc [] (a :: l) s).
Qed.

Lemma init_all_ok n : (0 < n)%nat -> all_ok (init n).
Proof.
  intros Hn. split; [|by intros r x Hx]. unfold well_formed, init, new_pool. cbn. by rewrite !length_replicate.
Qed.

(** C37. When no job is picked again before its run is over ([Wait] has returned and the thread that ended the job
    has left it), every [Wait] returns the outputs of its own run, and it returns once
    the job is done. *)
Theorem wait_returns_own_outputs n l s r x :
  (0 < n)%nat -> acts l (init n) = Some s -> always_calm l (init n) -> runs s !! r = Some x ->
  (forall o, caller_ x = Took o -> o = Some r) /\
  (caller_ x = Waits -> worker_ x = Vacates \/ worker_ x = Gone -> is_Some (act (AWait r) s)).
Proof.
  intros Hn E Hc Hx. destruct (proj2 (acts_all_ok l _ _ E Hc (init_all_ok n Hn)) r x Hx) as (j & Hj & Hk).
  split.
  - intros o Ho. unfold ok in Hk. rewrite Ho in Hk. by destruct (worker_ x).
  - intros Hw Hd. cbn. rewrite Hx. cbn. rewrite Hj. cbn. rewrite Hw. unfold ok in Hk. rewrite Hw in Hk.
    destruct (decide (status j = REQ_BUSY)) as [Hb|]; [|done]. destruct Hd as [Hd|Hd]; rewrite Hd in Hk; destruct Hk as [Hk _]; by rewrite Hk in Hb.
Qed.

Definition finished_b (x : run) : bool :=
  match caller_ x, worker_ x with Took _, Gone => true | _, _ => false end.
Definition calm_b (s : state) : bool :=
  let all := seq 0 (length (runs s)) in
  forallb (fun r => forallb (fun r' =>
    (r =? r')%nat ||
    match runs s !! r, runs s !! r' with
    | Some x, Some x' => negb (slot x =? slot x')%nat || finished_b x || finished_b x'
    | _, _ => true
    end) all) all.
Fixpoint calm_along (l : list action) (s : state) : bool :=
  calm_b s && match l with
              | [] => true
              | a :: l => match act a s with Some s' => calm_along l s' | None => true end
              end.

Lemma finished_b_sound x : finished_b x = true -> finished x.
Proof. unfold finished_b, finished. destruct (caller_ x), (worker_ x); try done. by split; [eexists|]. Qed.

Lemma calm_b_sound s : calm_b s = true -> calm s.
Proof.
  intros H r r' x x' Hr Hx Hx' Hs. unfold calm_b in H. rewrite forallb_forall in H.
  specialize (H r). rewrite forallb_forall in H. specialize (fun A => H A r').
  rewrite !in_seq, Hx, Hx' in H. apply lookup_lt_Some in Hx, Hx'.
  specialize (H ltac:(lia) ltac:(lia)). rewrite (proj2 (Nat.eqb_neq _ _) Hr), Hs, Nat.eqb_refl in H. cbn in H.
  apply orb_true_iff in H as [H|H]; [left|right]; by apply finished_b_sound.
Qed.

Lemma calm_along_sound l : forall s, calm_along l s = true -> always_calm l s.
Proof.
  induction l as [|a l IH]; intros s H l1 l2 s1 El E1; cbn in H; apply andb_true_iff in H as [Hc H].
  - destruct l1; [|done]. injection E1 as <-. by apply calm_b_sound.
  - destruct l1 as [|b l1]; [injection E1 as <-; by apply calm_b_sound|]. injection El as <- ->.
    cbn in E1. destruct (act a s) as [s2|]; [|done]. by apply (IH s2 H l1 l2).
Qed.

(** Two runs, one after the other, in one job. *)
Definition orderly : list action :=
  [APick; AProbe; ASet 0; AStart 0; AStore 0; AOccupy 0; ARelease 0; ADone 0; AWait 0; AVacate 0; ATake 0;
   APick; AProbe; ASet 1; AStart 1; AOccupy 1; AStore 1; ARelease 1; ADone 1; AWait 1; ATake 1].
Lemma wait_returns_own_outputs_witness :
  exists s x, acts orderly (init 1) = Some s /\ runs s !! 1%nat = Some x /\ caller_ x = Took (Some 1%nat) /\
  ((forall o, caller_ x = Took o -> o = Some 1%nat) /\
   (caller_ x = Waits -> worker_ x = Vacates \/ worker_ x = Gone -> is_Some (act (AWait 1) s))).
Proof.
  eexists _, _. split; [vm_compute; reflexivity|]. split; [reflexivity|]. split; [reflexivity|].
  apply (wait_returns_own_outputs 1 orderly); [lia|vm_compute; reflexivity| |reflexivity].
  apply calm_along_sound. vm_compute. reflexivity.
Defined.

(** Run 0 has given its job back but not yet marked it done when run 2 gets it. *)
Definition overtaken : list action :=
  [APick; AProbe; APick; AProbe; ASet 0; AStart 0; AOccupy 0; AStore 0; ARelease 0;
   APick; AProbe; ASet 2; AStart 2; AOccupy 2; ADone 0; AWait 2; ATake 2].

(** [ReleaseAllOutputBuffer] gives the job back ([_use_flag]) before its status is set to [REQ_DONE]: a run that is
    given the job in between has its [Wait] ended by the other run, while its own inference is
    still working, with the outputs of the other run. *)
Theorem wait_returns_other_outputs :
  exists n l s x, acts l (init n) = Some s /\ runs s !! 2%nat = Some x /\
    worker_ x = Working /\ caller_ x = Took (Some 0%nat).
Proof. exists 2%nat, overtaken. eexists _, _. split; [vm_compute; reflexivity|]. done. Qed.

End JobSlots.
