(* ===== verification/CpuWorker.v ===== *)
(** * Workers of a CPU task

    [lib/cpu_handle_worker.cpp], class [CpuHandleWorker] on [Worker] (lib/worker.cpp): the
    queue of a CPU task, its threads, the dynamic threads that [request] starts and stops by
    load, and the destructor.  ONNX Runtime and what the end of a request leads to are the
    outcome of a step.

    A section under the mutex is one step.  A thread in [wait] sleeps, is woken by a
    notification or spuriously, and then takes the mutex and tests its predicate.  Whom
    [notify_one] wakes and whether the time limits of the thread control have passed are
    arguments of the action.  Statistics of the load are left out. *)

From Stdlib Require Import ZArith Lia.
From S2P Require Import Prelude.

Module CpuWorker.

Definition MIN_EACH_CPU_TASK_THREADS : Z := 1.
Definition MAX_EACH_CPU_TASK_THREADS : Z := 6.

(** [window]: [getBufferCount() * _device_num]. *)
Record env := mkEnv { numThreads : nat; initDynamicThreads : nat; dynamicCpuThread : bool; window : Z }.

Inductive pc :=
| Looping                 (** before the test of the loop *)
| Asleep
| Awake                   (** about to take the mutex and test the predicate *)
| Running (r : nat)       (** in [ProcessRequest] *)
| Exited.
#[export] Instance pc_eq_dec : EqDecision pc.
Proof. solve_decision. Defined.

(** A call of [request]; the request is named by the position of its call. *)
Inductive call := Entering | Relocking | Returned | Rejected.
#[export] Instance call_eq_dec : EqDecision call.
Proof. solve_decision. Defined.

(** The thread in the destructor, and the thread of the base class it waits for. *)
Inductive destroyer := Unborn | JoinDynamic | Base (i : nat) | Join (i : nat) | Destructed.
#[export] Instance destroyer_eq_dec : EqDecision destroyer.
Proof. solve_decision. Defined.

(** [Terminated]: an exception left a thread; [Undefined]: a member was used after its end. *)
Inductive fate := Alive | Terminated | Undefined.
#[export] Instance fate_eq_dec : EqDecision fate.
Proof. solve_decision. Defined.

(** [threads]: those of the base class, then [_dynamicThreads]; [completed]: the calls of
    [ProcessResponse]. *)
Record state := mkState {
  queue : list nat; stop : bool; threads : list pc; calls : list call;
  dynamicStopCnt : Z; loadHistory : list Z; slidingSum : Z; idleStarted : bool; totalNumThreads : Z;
  destroyer_ : destroyer; completed : list nat; flushed : list nat; fate_ : fate
}.

Definition set_threads (l : list pc) (s : state) : state :=
  mkState (queue s) (stop s) l (calls s) (dynamicStopCnt s) (loadHistory s) (slidingSum s) (idleStarted s)
    (totalNumThreads s) (destroyer_ s) (completed s) (flushed s) (fate_ s).
Definition set_calls (l : list call) (s : state) : state :=
  mkState (queue s) (stop s) (threads s) l (dynamicStopCnt s) (loadHistory s) (slidingSum s) (idleStarted s)
    (totalNumThreads s) (destroyer_ s) (completed s) (flushed s) (fate_ s).
Definition set_queue (q : list nat) (s : state) : state :=
  mkState q (stop s) (threads s) (calls s) (dynamicStopCnt s) (loadHistory s) (slidingSum s) (idleStarted s)
    (totalNumThreads s) (destroyer_ s) (completed s) (flushed s) (fate_ s).
Definition set_stop (s : state) : state :=
  mkState (queue s) true (threads s) (calls s) (dynamicStopCnt s) (loadHistory s) (slidingSum s) (idleStarted s)
    (totalNumThreads s) (destroyer_ s) (completed s) (flushed s) (fate_ s).
Definition set_stopCnt (n : Z) (s : state) : state :=
  mkState (queue s) (stop s) (threads s) (calls s) n (loadHistory s) (slidingSum s) (idleStarted s)
    (totalNumThreads s) (destroyer_ s) (completed s) (flushed s) (fate_ s).
Definition set_load (h : list Z) (sum : Z) (s : state) : state :=
  mkState (queue s) (stop s) (threads s) (calls s) (dynamicStopCnt s) h sum (idleStarted s)
    (totalNumThreads s) (destroyer_ s) (completed s) (flushed s) (fate_ s).
Definition set_idle (b : bool) (s : state) : state :=
  mkState (queue s) (stop s) (threads s) (calls s) (dynamicStopCnt s) (loadHistory s) (slidingSum s) b
    (totalNumThreads s) (destroyer_ s) (completed s) (flushed s) (fate_ s).
Definition set_total (n : Z) (s : state) : state :=
  mkState (queue s) (stop s) (threads s) (calls s) (dynamicStopCnt s) (loadHistory s) (slidingSum s) (idleStarted s)
    n (destroyer_ s) (completed s) (flushed s) (fate_ s).
Definition set_destroyer (d : destroyer) (s : state) : state :=
  mkState (queue s) (stop s) (threads s) (calls s) (dynamicStopCnt s) (loadHistory s) (slidingSum s) (idleStarted s)
    (totalNumThreads s) d (completed s) (flushed s) (fate_ s).
Definition complete (l : list nat) (s : state) : state :=
  mkState (queue s) (stop s) (threads s) (calls s) (dynamicStopCnt s) (loadHistory s) (slidingSum s) (idleStarted s)
    (totalNumThreads s) (destroyer_ s) (completed s ++ l) (flushed s) (fate_ s).
Definition flush (s : state) : state :=
  mkState [] (stop s) (threads s) (calls s) (dynamicStopCnt s) (loadHistory s) (slidingSum s) (idleStarted s)
    (totalNumThreads s) (destroyer_ s) (completed s) (flushed s ++ queue s) (fate_ s).
Definition set_fate (f : fate) (s : state) : state :=
  mkState (queue s) (stop s) (threads s) (calls s) (dynamicStopCnt s) (loadHistory s) (slidingSum s) (idleStarted s)
    (totalNumThreads s) (destroyer_ s) (completed s) (flushed s) f.

Definition goto (t : nat) (p : pc) (s : state) : state := set_threads (<[t := p]> (threads s)) s.
Definition returns (r : nat) (c : call) (s : state) : state := set_calls (<[r := c]> (calls s)) s.

Definition wake (p : pc) : pc := match p with Asleep => Awake | _ => p end.
Definition notify_all (s : state) : state := set_threads (wake <$> threads s) s.
(** [w] is the thread that is woken, [None] when none sleeps. *)
Definition notify_one (w : option nat) (s : state) : option state :=
  match w with
  | Some t => guard (threads s !! t = Some Asleep);; Some (goto t Awake s)
  | None => guard (Asleep ∉ threads s);; Some s
  end.

(** The members of [CpuHandleWorker] are gone. *)
Definition destroyed (s : state) : bool :=
  match destroyer_ s with Unborn | JoinDynamic => false | _ => true end.

Section Worker.
Context (e : env).

Definition isDynamic (t : nat) : bool := (numThreads e <=? t)%nat.
(** [_dynamicThreads.size()] *)
Definition dynamicThreads (s : state) : Z := Z.of_nat (length (threads s)) - Z.of_nat (numThreads e).

(** ** [ThreadWorkImpl] *)

Definition Loop (t : nat) (s : state) : state := goto t (if stop s then Exited else Awake) s.

(** The front of the queue, if there is one. *)
Definition take (t : nat) (s : state) : state :=
  match queue s with
  | [] => goto t Looping s
  | r :: q => goto t (Running r) (set_queue q s)
  end.

(** [HandleThreadStop], after the predicate was true. *)
Definition HandleThreadStop (t : nat) (s : state) : state :=
  if isDynamic t || negb (stop s) then take t s
  else goto t Exited (set_total (totalNumThreads s - 1) (flush s)).

(** From the mutex to its release or to sleep; the predicate counts a stop request down. *)
Definition Test (t : nat) (s : state) : state :=
  if destroyed s then set_fate Undefined s
  else if isDynamic t && (0 <? dynamicStopCnt s)
  then goto t Exited (set_total (totalNumThreads s - 1) (set_stopCnt (dynamicStopCnt s - 1) s))
  else if bool_decide (queue s = []) && negb (stop s) then goto t Asleep s
  else HandleThreadStop t s.

(** How [ProcessRequest] ends: [escapes] when [finishRequest] throws in the handler. *)
Inductive outcome := Ok | RunThrows (escapes : bool) | FinishThrows (escapes : bool).
#[export] Instance outcome_eq_dec : EqDecision outcome.
Proof. solve_decision. Defined.

Definition escapes (o : outcome) : bool := match o with Ok => false | RunThrows b | FinishThrows b => b end.
(** The calls of [finishRequest]. *)
Definition finishes (o : outcome) (r : nat) : list nat := match o with FinishThrows _ => [r; r] | _ => [r] end.

(** The base class catches what escapes a thread, the lambda of a dynamic thread does not. *)
Definition Finish (t r : nat) (o : outcome) (s : state) : state :=
  let s := complete (finishes o r) s in
  match o with
  | Ok => goto t Looping s
  | _ =>
      let s := goto t Exited s in
      if isDynamic t && escapes o then set_fate Terminated s else s
  end.

(** ** [request] *)

Definition push (r : nat) (w : option nat) (s : state) : option state :=
  notify_one w (returns r Returned (set_queue (queue s ++ [r]) s)).

(** The sliding window of the loads. *)
Definition record_load (s : state) : state :=
  let load := Z.of_nat (length (queue s)) in
  let h := loadHistory s ++ [load] in let sum := slidingSum s + load in
  if window e <? Z.of_nat (length h)
  then match h with x :: h => set_load h (sum - x) s | [] => s end
  else set_load h sum s.
Definition avgLoad (s : state) : Z := slidingSum s / Z.of_nat (length (loadHistory s)).

Definition StartDynamicThread (s : state) : state :=
  set_total (totalNumThreads s + 1) (set_threads (threads s ++ [Looping]) s).

(** An idle task gives one dynamic thread up; the mutex is released for a moment. *)
Definition shrink (r : nat) (s : state) : state :=
  let s := if dynamicStopCnt s <? dynamicThreads s then set_stopCnt (dynamicStopCnt s + 1) s else s in
  returns r Relocking (notify_all s).

(** [request] under the mutex. *)
Definition Enter (r : nat) (elapsed idle : bool) (w : option nat) (s : state) : option state :=
  if destroyed s then Some (set_fate Undefined s)
  else if negb (dynamicCpuThread e) then push r w s
  else
    let s := record_load s in
    if bool_decide (loadHistory s = []) then Some (set_fate Undefined s)     (** division by zero *)
    else if elapsed && (Z.of_nat (length (loadHistory s)) =? window e) then
      let n := Z.of_nat (length (threads s)) in
      if n <? avgLoad s then
        push r w (if n <? MAX_EACH_CPU_TASK_THREADS then StartDynamicThread s else s)
      else if avgLoad s =? 0 then
        let exceeded := idleStarted s && idle in
        let s := set_idle true s in
        if exceeded && ((0 <? dynamicThreads s) && (MIN_EACH_CPU_TASK_THREADS <? n)) then Some (shrink r s)
        else push r w s
      else push r w s
    else push r w s.

Definition Relock (r : nat) (w : option nat) (s : state) : option state :=
  if destroyed s then Some (set_fate Undefined s) else push r w (set_idle false s).

(** ** [Stop] and the destructor *)

Definition Stop (s : state) : state := if (numThreads e =? 0)%nat then s else set_stop s.

(** The base class sets the flag; then for each thread it notifies and joins. *)
Definition to_base (s : state) : state := set_destroyer (Base 0) (set_stop s).
Definition Destroy (s : state) : state :=
  if dynamicCpuThread e && (0 <? dynamicThreads s)
  then set_destroyer JoinDynamic (notify_all (set_stopCnt (dynamicThreads s) s))
  else to_base s.

Definition all_exited (l : list pc) : bool := forallb (fun p => bool_decide (p = Exited)) l.
Definition Joined (s : state) : option state :=
  match destroyer_ s with
  | JoinDynamic => guard (all_exited (drop (numThreads e) (threads s)) = true);; Some (to_base s)
  | Base i =>
      if (i <? numThreads e)%nat then Some (set_destroyer (Join i) (notify_all s))
      else Some (set_destroyer Destructed s)
  | Join i => guard (threads s !! i = Some Exited);; Some (set_destroyer (Base (S i)) s)
  | _ => None
  end.

(** ** Steps *)

Inductive action :=
| ALoop (t : nat) | ATest (t : nat) | AWake (t : nat) | AFinish (t : nat) (o : outcome)
| ACall | AEnter (r : nat) (elapsed idle : bool) (w : option nat) | ARelock (r : nat) (w : option nat)
| AStop | ADestroy | AJoined.

#[export] Instance action_eq_dec : EqDecision action.
Proof. solve_decision. Defined.

Definition act (a : action) (s : state) : option state :=
  guard (fate_ s = Alive);;
  match a with
  | ALoop t => guard (threads s !! t = Some Looping);; Some (Loop t s)
  | ATest t => guard (threads s !! t = Some Awake);; Some (Test t s)
  | AWake t => guard (threads s !! t = Some Asleep);; Some (goto t Awake s)
  | AFinish t o => match threads s !! t with Some (Running r) => Some (Finish t r o s) | _ => None end
  | ACall => Some (set_calls (calls s ++ [if stop s then Rejected else Entering]) s)
  | AEnter r elapsed idle w => guard (calls s !! r = Some Entering);; Enter r elapsed idle w s
  | ARelock r w => guard (calls s !! r = Some Relocking);; Relock r w s
  | AStop => Some (Stop s)
  | ADestroy => guard (destroyer_ s = Unborn);; Some (Destroy s)
  | AJoined => Joined s
  end.

Fixpoint acts (l : list action) (s : state) : option state :=
  match l with [] => Some s | a :: l => s' ← act a s; acts l s' end.

(** The constructor and [InitializeThreadCPUWorker]. *)
Definition init : state :=
  let n := (numThreads e + if dynamicCpuThread e then initDynamicThreads e else 0)%nat in
  mkState [] false (replicate n Looping) [] 0 [] 0 true (Z.of_nat (numThreads e + initDynamicThreads e))
    Unborn [] [] Alive.

End Worker.

End CpuWorker.

(** * Workers of a CPU task: theorems *)
Module CpuWorkerThms.
Import CpuWorker.

Section Thms.
Context (e : env).

(** ** Each request once *)

Definition runs (r : nat) (p : pc) : bool := match p with Running r' => (r =? r')%nat | _ => false end.
(** How often request [r] is in the queue, with a thread, completed or thrown away. *)
Definition times (r : nat) (s : state) : Z :=
  countb (Nat.eqb r) (queue s) + countb (runs r) (threads s) + countb (Nat.eqb r) (completed s)
  + countb (Nat.eqb r) (flushed s).
Definition once (s : state) : Prop :=
  forall r, times r s = Z.b2z (bool_decide (calls s !! r = Some Returned)).

Definition finish_throws (o : outcome) : bool := match o with FinishThrows _ => true | _ => false end.
(** The end of a request does not throw. *)
Definition finish_ok (a : action) : Prop := match a with AFinish _ o => finish_throws o = false | _ => True end.

Lemma runs_wake r l : countb (runs r) (wake <$> l) = countb (runs r) l.
Proof. induction l as [|p l IH]; [done|]. cbn. rewrite !countb_cons, IH. by destruct p. Qed.

Lemma times_notify_all r s : times r (notify_all s) = times r s.
Proof. unfold times. cbn. by rewrite runs_wake. Qed.

Lemma times_goto r t p q s :
  threads s !! t = Some q -> times r (goto t p s) = times r s - Z.b2z (runs r q) + Z.b2z (runs r p).
Proof. intros E. unfold times. cbn. rewrite (countb_insert _ _ _ q) by done. lia. Qed.

Lemma once_same s s' :
  calls s' = calls s -> (forall r, times r s' = times r s) -> once s -> once s'.
Proof. intros Ec Et H r. by rewrite Ec, Et. Qed.

Lemma once_goto s t p q :
  threads s !! t = Some q -> (forall r, q <> Running r) -> (forall r, p <> Running r) -> once s -> once (goto t p s).
Proof.
  intros E Hq Hp. apply once_same; [done|]. intros r. rewrite (times_goto _ _ _ q) by done.
  destruct q, p; cbn; try lia; exfalso; (by eapply Hq) || (by eapply Hp).
Qed.

Lemma times_single r r' : countb (Nat.eqb r) [r'] = Z.b2z (r =? r')%nat.
Proof. rewrite countb_cons. unfold countb. cbn. lia. Qed.

Lemma returned_insert (l : list call) r r' c :
  is_Some (l !! r') ->
  bool_decide (<[r' := c]> l !! r = Some Returned) =
  if (r =? r')%nat then bool_decide (c = Returned) else bool_decide (l !! r = Some Returned).
Proof.
  intros [x Hx]. destruct (Nat.eqb_spec r r') as [->|Hr].
  - rewrite list_lookup_insert_eq by (by eapply lookup_lt_Some). apply bool_decide_ext. naive_solver.
  - by rewrite list_lookup_insert_ne.
Qed.

(** A call that has not put its request into the queue goes on. *)
Lemma once_returns s r c c' :
  calls s !! r = Some c -> c <> Returned -> c' <> Returned -> once s -> once (returns r c' s).
Proof.
  intros E Hc Hc' H r'. cbn. rewrite returned_insert by (by eexists). change (times r' (returns r c' s)) with (times r' s).
  rewrite H. destruct (Nat.eqb_spec r' r) as [->|]; [|done]. rewrite E, (bool_decide_eq_false_2 (c' = _)), bool_decide_eq_false_2; [done| |done]. intros [= ->]. by apply Hc.
Qed.

Lemma notify_one_goto w s s' :
  notify_one w s = Some s' -> s' = s \/ exists t, threads s !! t = Some Asleep /\ s' = goto t Awake s.
Proof.
  destruct w as [t|]; cbn; intros E; apply guard_Some in E as [H [= <-]]; [right; by exists t|by left].
Qed.

Lemma once_push s s' r w c :
  calls s !! r = Some c -> c <> Returned -> push r w s = Some s' -> once s -> once s'.
Proof.
  intros E Hc Hp H. unfold push in Hp.
  assert (once (returns r Returned (set_queue (queue s ++ [r]) s))) as H1.
  { intros r'. cbn. rewrite returned_insert by (by eexists). unfold times. cbn. rewrite countb_app, times_single.
    specialize (H r'). unfold times in H. destruct (Nat.eqb_spec r' r) as [->|].
    - rewrite E, bool_decide_eq_false_2 in H by naive_solver. rewrite bool_decide_eq_true_2 by done. cbn [Z.b2z] in *. lia.
    - cbn [Z.b2z]. rewrite <- H. lia. }
  apply notify_one_goto in Hp as [->|(t & Ht & ->)]; [done|]. by eapply once_goto; [exact Ht|..].
Qed.

Lemma record_load_eq s :
  exists h n, record_load e s = set_load h n s /\ (0 < window e -> h <> []).
Proof.
  unfold record_load. destruct (Z.ltb_spec (window e) (Z.of_nat (length (loadHistory s ++ [Z.of_nat (length (queue s))])))).
  - destruct (loadHistory s ++ _) as [|x h] eqn:Eh.
    + by apply app_nil in Eh as [_ ?].
    + exists h, (slidingSum s + Z.of_nat (length (queue s)) - x). split; [done|]. intros Hw ->. cbn in H. lia.
  - eexists _, _. split; [reflexivity|]. intros _ Hh. by apply app_nil in Hh as [_ ?].
Qed.

(** The ways [Enter] ends. *)
Lemma Enter_cases r elapsed idle w s s' :
  Enter e r elapsed idle w s = Some s' ->
  (exists s0, s' = set_fate Undefined s0 /\ (destroyed s = true /\ s0 = s \/ window e <= 0) /\
     calls s0 = calls s /\ threads s0 = threads s /\ queue s0 = queue s /\ completed s0 = completed s /\ flushed s0 = flushed s) \/
  exists h n b, let s0 := set_load h n s in
    destroyed s = false /\
    (push r w (set_idle b s0) = Some s' \/
     (push r w (StartDynamicThread (set_idle b s0)) = Some s' /\ dynamicCpuThread e = true /\
       Z.of_nat (length (threads s)) < MAX_EACH_CPU_TASK_THREADS) \/
     (s' = shrink e r (set_idle b s0) /\ dynamicCpuThread e = true /\ 0 < dynamicThreads e s)).
Proof.
  unfold Enter. destruct (destroyed s) eqn:Ed; [intros [= <-]; left; exists s; naive_solver|].
  destruct (dynamicCpuThread e) eqn:Edyn; cbn [negb].
  2: { intros E. right. exists (loadHistory s), (slidingSum s), (idleStarted s). split; [done|]. left. by destruct s. }
  destruct (record_load_eq s) as (h & n & -> & Hh). cbn [loadHistory set_load threads idleStarted].
  case_bool_decide as Hn.
  { intros [= <-]. left. exists (set_load h n s). split; [done|]. split; [|done]. right. destruct (Z.le_gt_cases (window e) 0); [done|].
    exfalso. apply Hh; [lia|done]. }
  destruct (elapsed && _); [|intros E; right; exists h, n, (idleStarted s); split; [done|]; left; by destruct s].
  destruct (_ <? avgLoad _).
  - destruct (Z.ltb_spec (Z.of_nat (length (threads s))) MAX_EACH_CPU_TASK_THREADS); intros E; right;
      exists h, n, (idleStarted s); (split; [done|]).
    + right. left. split; [|done]. by destruct s.
    + left. by destruct s.
  - destruct (avgLoad _ =? 0); [|intros E; right; exists h, n, (idleStarted s); split; [done|]; left; by destruct s].
    destruct (idleStarted s && idle && _) eqn:Eb; intros E; right; exists h, n, true; (split; [done|]).
    + right. right. injection E as <-. split; [done|]. split; [done|]. bool_facts. done.
    + by left.
Qed.

Lemma once_Test t s : threads s !! t = Some Awake -> once s -> once (Test e t s).
Proof.
  intros Et H. unfold Test. destruct (destroyed s); [by eapply once_same; [..|exact H]|].
  destruct (isDynamic e t && _).
  { apply (once_goto (set_total (totalNumThreads s - 1) (set_stopCnt (dynamicStopCnt s - 1) s)) t Exited Awake); [done..|].
    by eapply once_same; [..|exact H]. }
  destruct (bool_decide _ && _); [by eapply once_goto; [exact Et|..]|].
  unfold HandleThreadStop. destruct (isDynamic e t || negb (stop s)).
  - unfold take. destruct (queue s) as [|r q] eqn:Eq; [by eapply once_goto; [exact Et|..]|].
    eapply once_same; [| |exact H]; [done|]. intros r'. rewrite (times_goto _ _ _ Awake) by done. unfold times. cbn.
    rewrite Eq, countb_cons. lia.
  - apply (once_goto (set_total (totalNumThreads s - 1) (flush s)) t Exited Awake); [done..|].
    eapply once_same; [| |exact H]; [done|]. intros r'. unfold times. cbn. rewrite countb_app. unfold countb. cbn. lia.
Qed.

Lemma once_Finish t r o s :
  threads s !! t = Some (Running r) -> finish_throws o = false -> once s -> once (Finish e t r o s).
Proof.
  intros Et Ho H. unfold Finish. assert (finishes o r = [r]) as -> by (by destruct o).
  assert (forall p, runs r p = false \/ True -> (forall r', p <> Running r') -> once (goto t p (complete [r] s))) as Hg.
  { intros p _ Hp. eapply once_same; [| |exact H]; [done|]. intros r'. rewrite (times_goto _ _ _ (Running r)) by done.
    unfold times. cbn. rewrite countb_app, times_single. destruct p; cbn; try lia. exfalso. by eapply Hp. }
  destruct o as [| b|b]; [by apply Hg; [right|]| |done].
  destruct (isDynamic e t && escapes (RunThrows b)); [|by apply Hg; [right|]].
  eapply once_same; [| |apply (Hg Exited); [by right|done]]; done.
Qed.

Lemma once_act a s s' : act e a s = Some s' -> finish_ok a -> once s -> once s'.
Proof.
  intros E Ho H. unfold act in E. apply guard_Some in E as [_ E]. destruct a as [t|t|t|t o| |r elapsed idle w|r w| | |].
  - apply guard_Some in E as [Et [= <-]]. unfold Loop. destruct (stop s); by eapply once_goto; [exact Et|..].
  - apply guard_Some in E as [Et [= <-]]. by apply once_Test.
  - apply guard_Some in E as [Et [= <-]]. by eapply once_goto; [exact Et|..].
  - destruct (threads s !! t) as [[| | |r|]|] eqn:Et; try done. injection E as <-. by apply once_Finish.
  - injection E as <-. intros r. cbn. change (times r _) with (times r s). rewrite H. f_equal. apply bool_decide_ext.
    rewrite lookup_app. destruct (calls s !! r) as [c|] eqn:Ec; [done|].
    destruct (stop s), (r - length (calls s))%nat; done.
  - apply guard_Some in E as [Ec E]. apply Enter_cases in E as
      [(s0 & -> & _ & E1 & E2 & E3 & E4 & E5)|(h & n & b & _ & [E|[(E & _)|(-> & _)]])].
    + eapply once_same; [| |exact H]; [done|]. intros r'. unfold times. cbn. by rewrite E2, E3, E4, E5.
    + by eapply once_push; [| |exact E|]; [exact Ec|..].
    + eapply once_push; [| |exact E|]; [exact Ec|done|]. intros r'. specialize (H r'). unfold times in *. cbn.
      rewrite countb_app, countb_cons. unfold countb at 3. cbn. rewrite <- H. lia.
    + unfold shrink. cbv zeta. apply (once_returns _ _ Entering); [by destruct (_ <? _)|done..|].
      eapply once_same; [| |exact H]; [by destruct (_ <? _)|]. intros r'. rewrite times_notify_all. by destruct (_ <? _).
  - apply guard_Some in E as [Ec E]. unfold Relock in E. destruct (destroyed s); [by injection E as <-|].
    by eapply once_push; [| |exact E|]; [exact Ec|..].
  - injection E as <-. unfold Stop. by destruct (_ =? _)%nat.
  - apply guard_Some in E as [_ [= <-]]. unfold Destroy. destruct (_ && _); [|done].
    eapply once_same; [| |exact H]; [done|]. intros r'. change (times r' (notify_all (set_stopCnt (dynamicThreads e s) s)) = times r' s).
    by rewrite times_notify_all.
  - unfold Joined in E. destruct (destroyer_ s); try done.
    + apply guard_Some in E as [_ [= <-]]. done.
    + destruct (_ <? _)%nat; injection E as <-; [|done]. eapply once_same; [| |exact H]; [done|]. intros r'.
      change (times r' (notify_all s) = times r' s). apply times_notify_all.
    + apply guard_Some in E as [_ [= <-]]. done.
Qed.

Lemma once_init : once (init e).
Proof.
  intros r'. unfold times, init. cbn [queue threads completed flushed calls].
  rewrite countb_replicate, lookup_nil, bool_decide_eq_false_2 by done. unfold countb. cbn. lia.
Qed.

(** C15. Whatever the threads do, as long as the end of a request does not throw: a request whose call
    returned 0 is at each moment in exactly one place: in the queue, with one thread, completed or
    thrown away by a stop; one whose call did not is nowhere. *)
Theorem requests_once l s r :
  acts e l (init e) = Some s -> Forall finish_ok l -> times r s = Z.b2z (bool_decide (calls s !! r = Some Returned)).
Proof.
  pose proof once_init as H0. revert H0. generalize (init e). intros s0 H0 E Hl. revert s0 H0 E. induction Hl as [|a l Ha _ IH]; intros s0 H0 E.
  - injection E as <-. apply H0.
  - cbn in E. destruct (act e a s0) as [s1|] eqn:E1; [|done]. apply (IH s1); [|done]. by eapply once_act.
Qed.

(** ** Every request is served *)

Definition pc_weight (p : pc) : Z := match p with Running _ => 3 | Looping => 2 | Awake => 1 | _ => 0 end.
Definition weight (l : list pc) : Z := sum_Z (pc_weight <$> l).
#[local] Arguments weight : simpl never.
Definition is_call (c c' : call) : bool := bool_decide (c = c').
Definition entering (s : state) : Z := countb (is_call Entering) (calls s).
Definition relocking (s : state) : Z := countb (is_call Relocking) (calls s).
(** What the threads and the calls under way can still do: a call may start a thread or wake all
    of them, and adds a request. *)
Definition work (s : state) : Z :=
  weight (threads s) + 3 * Z.of_nat (length (queue s)) + 5 * relocking s
  + (8 + Z.of_nat (length (threads s)) + entering s) * entering s.

(** The steps of the threads and of calls that have begun; no run fails. *)
Definition internal (a : action) : bool :=
  match a with ALoop _ | ATest _ | AFinish _ Ok | AEnter _ _ _ _ | ARelock _ _ => true | _ => false end.
(** No run fails, and the worker is not stopped. *)
Definition calm (a : action) : bool :=
  match a with AFinish _ o => bool_decide (o = Ok) | AStop | ADestroy | AJoined => false | _ => true end.

Definition open (s : state) : Prop := stop s = false /\ destroyer_ s = Unborn /\ fate_ s = Alive.
Definition active (p : pc) : bool := match p with Asleep | Exited => false | _ => true end.
Definition has_active (l : list pc) : Prop := exists t p, l !! t = Some p /\ active p = true.

(** No thread of the base class has ended; while a stop is requested no dynamic thread sleeps,
    and then a queued request has an active thread that will not stop. *)
Record served (s : state) : Prop := {
  sv_open : open s;
  sv_static t : (t < numThreads e)%nat -> exists p, threads s !! t = Some p /\ p <> Exited;
  sv_awake t : 0 < dynamicStopCnt s -> isDynamic e t = true -> threads s !! t <> Some Asleep;
  sv_queue : queue s <> [] ->
    (exists t p, (t < numThreads e)%nat /\ threads s !! t = Some p /\ active p = true) \/
    (dynamicStopCnt s <= 0 /\ has_active (threads s));
  sv_flushed : flushed s = [];
  sv_calls r : calls s !! r <> Some Rejected
}.

Lemma weight_cons p l : weight (p :: l) = pc_weight p + weight l.
Proof. done. Qed.

Lemma weight_of_insert l t p q : l !! t = Some q -> weight (<[t := p]> l) = weight l - pc_weight q + pc_weight p.
Proof.
  revert t. induction l as [|x l IH]; intros [|t] E; try done.
  - injection E as ->. unfold weight. cbn. lia.
  - change (<[S t := p]> (x :: l)) with (x :: <[t := p]> l). rewrite !weight_cons, (IH t E). lia.
Qed.

Lemma weight_wake l : weight (wake <$> l) <= weight l + Z.of_nat (length l).
Proof. induction l as [|p l IH]; [done|]. rewrite fmap_cons, !weight_cons. destruct p; cbn [wake pc_weight length]; lia. Qed.

Lemma weight_app l l' : weight (l ++ l') = weight l + weight l'.
Proof. unfold weight. by rewrite fmap_app, sum_Z_app. Qed.

Lemma weight_nonneg l : 0 <= weight l.
Proof. induction l as [|p l IH]; [done|]. rewrite weight_cons. destruct p; cbn [pc_weight]; lia. Qed.

Lemma call_counts s r c c' :
  calls s !! r = Some c ->
  entering (returns r c' s) = entering s - Z.b2z (is_call Entering c) + Z.b2z (is_call Entering c') /\
  relocking (returns r c' s) = relocking s - Z.b2z (is_call Relocking c) + Z.b2z (is_call Relocking c').
Proof. intros E. unfold entering, relocking. cbn. by rewrite !(countb_insert _ _ _ c) by done. Qed.

Ltac call_bits :=
  change (Z.b2z (is_call Entering Entering)) with 1 in *; change (Z.b2z (is_call Relocking Relocking)) with 1 in *;
  change (Z.b2z (is_call Entering Relocking)) with 0 in *; change (Z.b2z (is_call Relocking Entering)) with 0 in *;
  change (Z.b2z (is_call Entering Returned)) with 0 in *; change (Z.b2z (is_call Relocking Returned)) with 0 in *.

(** A request that is put into the queue. *)
Lemma work_push s s' r w c :
  push r w s = Some s' -> calls s !! r = Some c ->
  weight (threads s') <= weight (threads s) + 1 /\ length (threads s') = length (threads s) /\
  length (queue s') = S (length (queue s)) /\
  entering s' = entering s - Z.b2z (is_call Entering c) /\ relocking s' = relocking s - Z.b2z (is_call Relocking c).
Proof.
  intros E Ec. unfold push in E. destruct (call_counts (set_queue (queue s ++ [r]) s) r c Returned Ec) as [Hn Hr].
  change (entering (set_queue (queue s ++ [r]) s)) with (entering s) in Hn.
  change (relocking (set_queue (queue s ++ [r]) s)) with (relocking s) in Hr. call_bits.
  apply notify_one_goto in E as [->|(t & Ht & ->)].
  - split; [cbn; lia|]. split; [done|]. split; [cbn; rewrite length_app; cbn; lia|]. lia.
  - change (entering (goto t Awake ?x)) with (entering x). change (relocking (goto t Awake ?x)) with (relocking x).
    split; [cbn; rewrite (weight_of_insert _ _ _ Asleep) by done; cbn; lia|].
    split; [cbn; by rewrite length_insert|]. split; [cbn; rewrite length_app; cbn; lia|]. lia.
Qed.

Lemma entering_pos s r : calls s !! r = Some Entering -> 0 < entering s.
Proof. intros E. apply (countb_pos _ _ Entering); [by eapply list_elem_of_lookup_2|done]. Qed.

Lemma work_Enter s s' r elapsed idle w :
  open s -> 0 < window e -> calls s !! r = Some Entering -> Enter e r elapsed idle w s = Some s' -> work s' < work s.
Proof.
  intros (_ & Hd & _) Hw Ec E. pose proof (entering_pos _ _ Ec) as Hpos.
  apply Enter_cases in E as [(s0 & _ & [[Hx _]|Hx] & _)|(h & n & b & _ & [E|[(E & _)|(-> & _)]])].
  - unfold destroyed in Hx. by rewrite Hd in Hx.
  - lia.
  - destruct (work_push _ _ _ _ Entering E Ec) as (H1 & H2 & H3 & H4 & H5). unfold work. rewrite H2, H3, H4, H5.
    call_bits. change (entering (set_idle b _)) with (entering s). change (relocking (set_idle b _)) with (relocking s).
    cbn [threads queue set_idle set_load] in *. nia.
  - destruct (work_push _ _ _ _ Entering E Ec) as (H1 & H2 & H3 & H4 & H5). unfold work. rewrite H2, H3, H4, H5. call_bits.
    change (entering (StartDynamicThread _)) with (entering s). change (relocking (StartDynamicThread _)) with (relocking s).
    cbn [threads queue set_idle set_load StartDynamicThread set_total set_threads] in *. rewrite weight_app in H1. rewrite length_app.
    change (weight [Looping]) with 2 in H1. cbn [length]. nia.
  - unfold shrink. cbv zeta. match goal with |- context [notify_all ?x] => set (s1 := x) end.
    assert (calls s1 = calls s /\ threads s1 = threads s /\ queue s1 = queue s) as (E1 & E2 & E3) by (unfold s1; by destruct (_ <? _)).
    destruct (call_counts (notify_all s1) r Entering Relocking) as [Hn Hr]; [by rewrite <- Ec, <- E1|]. call_bits.
    unfold work. rewrite Hn, Hr. change (entering (notify_all s1)) with (entering s1). change (relocking (notify_all s1)) with (relocking s1).
    unfold entering, relocking in *. rewrite E1. cbn. rewrite E2, E3, length_fmap. pose proof (weight_wake (threads s)). nia.
Qed.

Lemma work_decreases s s' a :
  open s -> 0 < window e -> act e a s = Some s' -> internal a = true -> work s' < work s.
Proof.
  intros Ho Hw E Hi. pose proof Ho as (Hs & Hd & Hf). unfold act in E. apply guard_Some in E as [_ E].
  destruct a as [t|t|t|t o| |r elapsed idle w|r w| | |]; try done.
  - apply guard_Some in E as [Et [= <-]]. unfold Loop. rewrite Hs. unfold work. cbn.
    rewrite (weight_of_insert _ _ _ Looping), length_insert by done. cbn. unfold entering, relocking. cbn. lia.
  - apply guard_Some in E as [Et [= <-]]. unfold Test, destroyed. rewrite Hd. unfold HandleThreadStop, take.
    rewrite Hs. cbn [negb]. rewrite andb_true_r, orb_true_r.
    destruct (isDynamic e t && _); [|destruct (queue s) as [|x q] eqn:Eq; cbn [bool_decide]];
      [..|rewrite bool_decide_eq_false_2 by done]; [|rewrite bool_decide_eq_true_2 by done|];
      unfold work, entering, relocking; cbn; rewrite (weight_of_insert _ _ _ Awake), length_insert by done; cbn; rewrite ?Eq; cbn; lia.
  - destruct o; try done. destruct (threads s !! t) as [[| | |r|]|] eqn:Et; try done. injection E as <-.
    unfold Finish, work, entering, relocking. cbn. rewrite (weight_of_insert _ _ _ (Running r)), length_insert by done. cbn. lia.
  - apply guard_Some in E as [Ec E]. by eapply work_Enter.
  - apply guard_Some in E as [Ec E]. unfold Relock, destroyed in E. rewrite Hd in E.
    destruct (work_push _ _ _ _ Relocking E Ec) as (H1 & H2 & H3 & H4 & H5). unfold work. rewrite H2, H3, H4, H5. call_bits.
    change (entering (set_idle _ s)) with (entering s). change (relocking (set_idle _ s)) with (relocking s).
    cbn [threads queue set_idle] in *. lia.
Qed.

(** *** The invariant *)

(** A static thread that does not sleep keeps the queue from being forgotten. *)
Definition watched (s : state) : Prop :=
  (exists t p, (t < numThreads e)%nat /\ threads s !! t = Some p /\ active p = true) \/
  (dynamicStopCnt s <= 0 /\ has_active (threads s)).

Lemma lookup_goto (l : list pc) t p t' q :
  l !! t = Some q -> <[t := p]> l !! t' = if decide (t' = t) then Some p else l !! t'.
Proof.
  intros E. destruct (decide (t' = t)) as [->|]; [|by apply list_lookup_insert_ne].
  apply list_lookup_insert_eq. by eapply lookup_lt_Some.
Qed.

Lemma watched_goto s t p q : watched s -> threads s !! t = Some q -> active p = true -> watched (goto t p s).
Proof.
  intros [(t' & p' & Ht & E & Ha)|(Hd & t' & p' & E & Ha)] Eq Hp.
  - left. exists t', (if decide (t' = t) then p else p'). split; [done|]. cbn. rewrite (lookup_goto _ _ _ _ _ Eq).
    by destruct (decide (t' = t)).
  - right. split; [done|]. exists t', (if decide (t' = t) then p else p'). cbn. rewrite (lookup_goto _ _ _ _ _ Eq).
    by destruct (decide (t' = t)).
Qed.

(** A thread moves on without ending and without going to sleep. *)
Lemma served_goto s t p q : served s -> threads s !! t = Some q -> active p = true -> served (goto t p s).
Proof.
  intros [Ho Hst Haw Hq Hf Hc] Eq Hp. constructor; try done.
  - intros t' Ht. cbn. rewrite (lookup_goto _ _ _ _ _ Eq). destruct (decide (t' = t)); [|by apply Hst].
    exists p. split; [done|]. by intros ->.
  - intros t' Hd Hdyn. cbn. rewrite (lookup_goto _ _ _ _ _ Eq). destruct (decide (t' = t)); [|by apply Haw].
    intros [= ->]. done.
  - intros H. eapply (watched_goto s); [by apply Hq|done..].
Qed.

Lemma served_sleep s t :
  served s -> threads s !! t = Some Awake -> (isDynamic e t = true -> dynamicStopCnt s <= 0) -> queue s = [] ->
  served (goto t Asleep s).
Proof.
  intros [Ho Hst Haw Hq Hf Hc] Et Hd Eq. constructor; try done; cbn [threads dynamicStopCnt queue goto set_threads].
  - intros t' Ht. rewrite (lookup_goto _ _ _ _ _ Et). destruct (decide (t' = t)); [by exists Asleep|by apply Hst].
  - intros t' Hn Hdyn. rewrite (lookup_goto _ _ _ _ _ Et). destruct (decide (t' = t)) as [->|]; [|by apply Haw].
    specialize (Hd Hdyn). lia.
Qed.

Lemma served_Test s t : served s -> threads s !! t = Some Awake -> served (Test e t s).
Proof.
  intros Hs Et. pose proof Hs as [(Hst & Hd & Hf) Hstat Haw Hq Hfl Hc]. unfold Test, destroyed. rewrite Hd.
  destruct (isDynamic e t) eqn:Edyn; cbn [andb]; [destruct (Z.ltb_spec 0 (dynamicStopCnt s)) as [Hn|Hn]|].
  { constructor; try done; cbn [threads dynamicStopCnt queue goto set_threads set_total set_stopCnt].
    - intros t' Ht. unfold isDynamic in Edyn. apply Nat.leb_le in Edyn. rewrite list_lookup_insert_ne by lia. by apply Hstat.
    - intros t' Hn' Hdyn. rewrite (lookup_goto _ _ _ _ _ Et). destruct (decide (t' = t)); [done|]. by apply Haw.
    - intros Hne. destruct (Hq Hne) as [(t' & p & Ht & E & Ha)|[Hx _]]; [|lia]. left. exists t', p. split; [done|].
      unfold isDynamic in Edyn. apply Nat.leb_le in Edyn. by rewrite list_lookup_insert_ne by lia. }
  all: rewrite Hst; cbn [negb]; rewrite andb_true_r; unfold HandleThreadStop, take; rewrite Hst; cbn [negb]; rewrite orb_true_r;
    destruct (queue s) as [|r q] eqn:Eq; [rewrite bool_decide_eq_true_2 by done|rewrite bool_decide_eq_false_2 by done].
  1,3: apply served_sleep; [done..|lia || congruence|done].
  - assert (served (goto t (Running r) s)) as [? ? ? ? ? ?] by (by eapply served_goto).
    constructor; try done. intros _. right. split; [done|]. exists t, (Running r). split; [|done].
    cbn. apply list_lookup_insert_eq. by eapply lookup_lt_Some.
  - assert (served (goto t (Running r) s)) as [? ? ? ? ? ?] by (by eapply served_goto).
    constructor; try done. intros _. left. exists t, (Running r). unfold isDynamic in Edyn. apply Nat.leb_gt in Edyn.
    split; [done|]. split; [|done]. cbn. apply list_lookup_insert_eq. by eapply lookup_lt_Some.
Qed.

Lemma served_push s s' r w c :
  (0 < numThreads e)%nat -> calls s !! r = Some c -> served s -> push r w s = Some s' -> served s'.
Proof.
  intros Hpos Ec [Ho Hst Haw Hq Hf Hc] E. unfold push in E.
  set (s0 := returns r Returned (set_queue (queue s ++ [r]) s)) in *.
  assert (watched s' -> served s') as Hgo.
  { intros Hw. apply notify_one_goto in E as [->|(t & Et & ->)].
    - constructor; try done. intros r'. cbn. destruct (decide (r' = r)) as [->|]; [|by rewrite list_lookup_insert_ne].
      rewrite list_lookup_insert_eq; [done|by eapply lookup_lt_Some].
    - constructor; try done; cbn [threads dynamicStopCnt goto set_threads].
      + intros t' Ht. cbn in Et. rewrite (lookup_goto _ _ _ _ _ Et). destruct (decide (t' = t)); [by exists Awake|by apply Hst].
      + intros t' Hd Hdyn. cbn in Et. rewrite (lookup_goto _ _ _ _ _ Et). destruct (decide (t' = t)); [done|by apply Haw].
      + intros r'. cbn. destruct (decide (r' = r)) as [->|]; [|by rewrite list_lookup_insert_ne].
        rewrite list_lookup_insert_eq; [done|by eapply lookup_lt_Some]. }
  apply Hgo. destruct w as [t|]; cbn in E; apply guard_Some in E as [H [= <-]].
  - destruct (isDynamic e t) eqn:Edyn.
    + right. split; [|exists t, Awake; split; [|done]; cbn; apply list_lookup_insert_eq; by eapply lookup_lt_Some].
      cbn. destruct (Z.le_gt_cases (dynamicStopCnt s) 0); [done|]. exfalso. by apply (Haw t).
    + left. exists t, Awake. unfold isDynamic in Edyn. apply Nat.leb_gt in Edyn. split; [done|]. split; [|done].
      cbn. apply list_lookup_insert_eq. by eapply lookup_lt_Some.
  - left. destruct (Hst 0%nat Hpos) as (p & Ep & Hp). exists 0%nat, p. split; [done|]. split; [done|].
    destruct p; try done. exfalso. apply H. by eapply list_elem_of_lookup_2.
Qed.

Lemma served_fields s s' :
  threads s' = threads s -> queue s' = queue s -> calls s' = calls s -> dynamicStopCnt s' = dynamicStopCnt s ->
  flushed s' = flushed s -> open s' -> served s -> served s'.
Proof. intros E1 E2 E3 E4 E5 Ho [? ? ? ? ? ?]. constructor; rewrite ?E1, ?E2, ?E3, ?E4, ?E5; done. Qed.

Lemma served_start s : served s -> served (StartDynamicThread s).
Proof.
  intros [Ho Hst Haw Hq Hf Hc]. constructor; try done; cbn [threads dynamicStopCnt queue StartDynamicThread set_total set_threads].
  - intros t Ht. destruct (Hst t Ht) as (p & Ep & Hp). exists p. split; [|done]. by apply lookup_app_l_Some.
  - intros t Hd Hdyn Et. apply lookup_app_Some in Et as [Et|[_ Et]]; [by apply (Haw t)|].
    by apply list_lookup_singleton_Some in Et as [_ ?].
  - intros Hne. destruct (Hq Hne) as [(t & p & Ht & E & Ha)|(Hd & t & p & E & Ha)]; [left|right; split; [done|]];
      exists t, p; rewrite (lookup_app_l_Some _ _ _ _ E); done.
Qed.

Lemma threads_wake (l : list pc) t p : (wake <$> l) !! t = Some p -> p <> Asleep.
Proof. rewrite list_lookup_fmap. destruct (l !! t) as [q|]; [|done]. cbn. intros [= <-]. by destruct q. Qed.

Lemma served_shrink s r : (0 < numThreads e)%nat -> calls s !! r = Some Entering -> served s -> served (shrink e r s).
Proof.
  intros Hpos Ec [Ho Hst Haw Hq Hf Hc]. unfold shrink. cbv zeta. match goal with |- context [notify_all ?x] => set (s1 := x) end.
  assert (calls s1 = calls s /\ threads s1 = threads s /\ flushed s1 = flushed s /\ open s1) as (E1 & E2 & E3 & Ho1)
    by (unfold s1; by destruct (_ <? _)).
  assert (forall t, (t < numThreads e)%nat -> exists p, (wake <$> threads s1) !! t = Some p /\ p <> Exited) as Hst1.
  { intros t Ht. destruct (Hst t Ht) as (p & Ep & Hp). exists (wake p). rewrite list_lookup_fmap, E2, Ep. split; [done|]. by destruct p. }
  constructor; try done.
  - intros t _ _ Et. cbn in Et. by apply threads_wake in Et.
  - intros _. left. destruct (Hst1 0%nat Hpos) as (p & Ep & Hp). exists 0%nat, p. split; [done|]. split; [done|].
    pose proof (threads_wake _ _ _ Ep). by destruct p.
  - cbn. by rewrite E3.
  - intros r'. cbn. rewrite E1. destruct (decide (r' = r)) as [->|]; [|by rewrite list_lookup_insert_ne].
    rewrite list_lookup_insert_eq; [done|by eapply lookup_lt_Some].
Qed.

Lemma served_act a s s' :
  (0 < numThreads e)%nat -> 0 < window e -> act e a s = Some s' -> calm a = true -> served s -> served s'.
Proof.
  intros Hpos Hw E Ha Hs. pose proof Hs as [(Hst & Hd & Hfa) _ _ _ _ _]. unfold act in E. apply guard_Some in E as [_ E].
  destruct a as [t|t|t|t o| |r elapsed idle w|r w| | |]; try done.
  - apply guard_Some in E as [Et [= <-]]. unfold Loop. rewrite Hst. by eapply served_goto.
  - apply guard_Some in E as [Et [= <-]]. by apply served_Test.
  - apply guard_Some in E as [Et [= <-]]. by eapply served_goto.
  - cbn in Ha. apply bool_decide_eq_true in Ha as ->. destruct (threads s !! t) as [[| | |r|]|] eqn:Et; try done.
    injection E as <-. unfold Finish. eapply served_goto; [|exact Et|done]. by eapply served_fields; [..|exact Hs].
  - injection E as <-. rewrite Hst. destruct Hs as [? ? ? ? ? Hc]. constructor; try done. intros r Er. cbn in Er.
    apply lookup_app_Some in Er as [Er|[_ Er]]; [by apply (Hc r)|]. by apply list_lookup_singleton_Some in Er as [_ ?].
  - apply guard_Some in E as [Ec E]. apply Enter_cases in E as [(s0 & _ & [[Hx _]|Hx] & _)|(h & n & b & _ & Hcase)].
    + unfold destroyed in Hx. by rewrite Hd in Hx.
    + lia.
    + assert (served (set_idle b (set_load h n s))) as Hs1 by (by eapply served_fields; [..|exact Hs]).
      destruct Hcase as [E|[(E & _)|(-> & _)]].
      * by eapply served_push; [| |exact Hs1|exact E].
      * eapply served_push; [| |apply served_start, Hs1|exact E]; done.
      * by apply served_shrink.
  - apply guard_Some in E as [Ec E]. unfold Relock, destroyed in E. rewrite Hd in E.
    eapply (served_push (set_idle false s)); [done|exact Ec|by eapply served_fields; [..|exact Hs]|exact E].
Qed.

Lemma served_init : (0 < numThreads e)%nat -> served (init e).
Proof.
  intros Hpos. constructor; try done; cbn [threads init].
  intros t Ht. exists Looping. split; [|done]. apply lookup_replicate_2. lia.
Qed.

(** *** Progress *)

Lemma push_possible s r : exists w, is_Some (push r w s).
Proof.
  unfold push. set (s0 := returns r _ _). destruct (decide (Asleep ∈ threads s0)) as [Hin|Hn].
  - apply list_elem_of_lookup in Hin as [t Ht]. exists (Some t). cbn. rewrite (option_guard_True _ _ Ht). by eexists.
  - exists None. cbn. rewrite (option_guard_True _ _ Hn). by eexists.
Qed.

Lemma step_possible s :
  0 < window e -> served s ->
  has_active (threads s) \/ (exists r c, calls s !! r = Some c /\ (c = Entering \/ c = Relocking)) ->
  exists a, internal a = true /\ is_Some (act e a s).
Proof.
  intros Hw [(Hst & Hd & Hf) _ _ _ _ _] H.
  destruct H as [(t & p & Ep & Ha)|(r & c & Ec & [->| ->])].
  - destruct p as [| | |r|]; try done.
    + exists (ALoop t). unfold act. rewrite (option_guard_True _ _ Hf), (option_guard_True _ _ Ep). by split; [|eexists].
    + exists (ATest t). unfold act. rewrite (option_guard_True _ _ Hf), (option_guard_True _ _ Ep). by split; [|eexists].
    + exists (AFinish t Ok). unfold act. rewrite (option_guard_True _ _ Hf), Ep. by split; [|eexists].
  - destruct (push_possible (if negb (dynamicCpuThread e) then s else record_load e s) r) as [w Hp].
    exists (AEnter r false false w). split; [done|]. unfold act. rewrite (option_guard_True _ _ Hf), (option_guard_True _ _ Ec). unfold Enter, destroyed. rewrite Hd.
    destruct (dynamicCpuThread e); cbn [negb] in *; [|done]. destruct (record_load_eq s) as (h & n & E & Hh). rewrite E in *.
    rewrite bool_decide_eq_false_2; [done|]. cbn. auto.
  - destruct (push_possible (set_idle false s) r) as [w Hp]. exists (ARelock r w). split; [done|].
    unfold act. rewrite (option_guard_True _ _ Hf), (option_guard_True _ _ Ec). unfold Relock, destroyed. by rewrite Hd.
Qed.

Lemma calm_finish_ok a : calm a = true -> finish_ok a.
Proof. destruct a as [t|t|t|t o| |r el idle w|r w| | |]; try done. cbn. intros H. by apply bool_decide_eq_true in H as ->. Qed.
Lemma internal_calm a : internal a = true -> calm a = true.
Proof. by destruct a as [t|t|t|t [| |]| |r el idle w|r w| | |]. Qed.

Lemma served_acts l : forall s s',
  (0 < numThreads e)%nat -> 0 < window e -> acts e l s = Some s' -> Forall (fun a => calm a = true) l ->
  served s -> once s -> served s' /\ once s'.
Proof.
  induction l as [|a l IH]; intros s s' Hpos Hw E Hl Hs Ho; [by injection E as <-|].
  cbn in E. destruct (act e a s) as [s1|] eqn:E1; [|done]. apply Forall_cons in Hl as [Ha Hl].
  apply (IH s1 s' Hpos Hw E Hl); [by eapply served_act|]. eapply once_act; [done|by apply calm_finish_ok|done].
Qed.

Lemma work_bound l : forall s s',
  (0 < numThreads e)%nat -> 0 < window e -> acts e l s = Some s' -> Forall (fun a => internal a = true) l ->
  served s -> work s' + Z.of_nat (length l) <= work s.
Proof.
  induction l as [|a l IH]; intros s s' Hpos Hw E Hl Hs; [injection E as <-; cbn; lia|].
  cbn in E. destruct (act e a s) as [s1|] eqn:E1; [|done]. apply Forall_cons in Hl as [Ha Hl].
  pose proof (work_decreases _ _ _ (sv_open _ Hs) Hw E1 Ha).
  assert (served s1) as Hs1 by (eapply served_act; [done..|by apply internal_calm|done]).
  pose proof (IH _ _ Hpos Hw E Hl Hs1). cbn [length]. lia.
Qed.

Lemma work_nonneg s : 0 <= work s.
Proof.
  unfold work, entering, relocking. pose proof (weight_nonneg (threads s)).
  pose proof (countb_nonneg (is_call Entering) (calls s)). pose proof (countb_nonneg (is_call Relocking) (calls s)). nia.
Qed.

(** When no step is left every request has been completed once. *)
Lemma all_completed s :
  (0 < numThreads e)%nat -> 0 < window e -> served s -> once s ->
  (forall a, internal a = true -> act e a s = None) ->
  forall r, (r < length (calls s))%nat -> countb (Nat.eqb r) (completed s) = 1.
Proof.
  intros Hpos Hw Hs Ho Hstuck r Hr. pose proof Hs as [_ _ _ Hq Hf Hc].
  assert (~ (has_active (threads s) \/ (exists r c, calls s !! r = Some c /\ (c = Entering \/ c = Relocking)))) as Hno.
  { intros H. destruct (step_possible s Hw Hs H) as (a & Hi & Ha). rewrite (Hstuck a Hi) in Ha. by destruct Ha. }
  assert (queue s = []) as Eq.
  { destruct (queue s) as [|x q]; [done|]. exfalso. apply Hno. left.
    destruct Hq as [(t & p & _ & E & Ha)|[_ H]]; [done|by exists t, p|done]. }
  destruct (lookup_lt_is_Some_2 _ _ Hr) as [c Ec]. assert (c = Returned) as ->.
  { destruct c; try done; [exfalso; apply Hno; right; eauto..|]. by edestruct Hc. }
  specialize (Ho r). unfold times in Ho. rewrite Eq, Hf, bool_decide_eq_true_2 in Ho by done.
  rewrite (countb_zero (runs r)) in Ho; [unfold countb in *; cbn in *; lia|].
  intros p Hp. destruct p as [| | |r'|]; try done. exfalso. apply Hno. left. apply list_elem_of_lookup in Hp as [t Ht].
  by exists t, (Running r').
Qed.

(** C14. While no run fails and the worker is not stopped, every request is completed exactly once,
    in every interleaving: from every reachable state, dynamic threads being started and stopped, the
    threads and the calls that have begun make at most [work s] more steps, and when none is
    left the request of every call has been completed once. *)
Theorem requests_served l s l' s' :
  (0 < numThreads e)%nat -> 0 < window e ->
  acts e l (init e) = Some s -> Forall (fun a => calm a = true) l ->
  acts e l' s = Some s' -> Forall (fun a => internal a = true) l' ->
  Z.of_nat (length l') <= work s /\
  ((forall a, internal a = true -> act e a s' = None) ->
   forall r, (r < length (calls s'))%nat -> countb (Nat.eqb r) (completed s') = 1).
Proof.
  intros Hpos Hw E Hl E' Hl'.
  destruct (served_acts l _ _ Hpos Hw E Hl (served_init Hpos) once_init) as [Hs Ho].
  split; [pose proof (work_bound _ _ _ Hpos Hw E' Hl' Hs); pose proof (work_nonneg s'); lia|].
  destruct (served_acts l' s s' Hpos Hw E') as [Hs' Ho']; [|done..|by apply all_completed].
  eapply Forall_impl; [exact Hl'|]. intros a. apply internal_calm.
Qed.

(** ** The counters of the threads *)

Definition alive (p : pc) : bool := match p with Exited => false | _ => true end.
(** The threads that have not ended. *)
Definition live (s : state) : Z := countb alive (threads s).

(** [_dynamicThreads] never shrinks: what it counts stays within the limit, but is not the number
    of the threads that run. *)
Record counted (s : state) : Prop := {
  co_static : (numThreads e <= length (threads s))%nat;
  co_most : Z.of_nat (length (threads s)) <= Z.max (Z.of_nat (numThreads e + initDynamicThreads e)) MAX_EACH_CPU_TASK_THREADS;
  co_fixed : dynamicCpuThread e = false -> length (threads s) = numThreads e;
  co_stop : 0 <= dynamicStopCnt s <= dynamicThreads e s;
  co_live : live s <= totalNumThreads s
}.

Lemma live_goto t p q s : threads s !! t = Some q -> live (goto t p s) = live s - Z.b2z (alive q) + Z.b2z (alive p).
Proof. intros E. unfold live. cbn. by rewrite (countb_insert _ _ _ q). Qed.

Lemma live_notify_all s : live (notify_all s) = live s.
Proof.
  unfold live. cbn. induction (threads s) as [|p l IH]; [done|]. cbn. rewrite !countb_cons, IH. by destruct p.
Qed.

(** A thread moves; only one that ends is taken off the total. *)
Lemma counted_move s s' t p q :
  counted s -> threads s !! t = Some q -> threads s' = <[t := p]> (threads s) ->
  0 <= dynamicStopCnt s' <= dynamicStopCnt s -> alive q = true ->
  totalNumThreads s - (1 - Z.b2z (alive p)) <= totalNumThreads s' -> counted s'.
Proof.
  intros [H1 H2 H3 H4 H5] Eq E Hs Ha Ht. assert (length (threads s') = length (threads s)) as El by (by rewrite E, length_insert).
  constructor; unfold dynamicThreads in *; rewrite ?El; try done; [lia|].
  assert (live s' = live (goto t p s)) as -> by (unfold live; by rewrite E).
  rewrite (live_goto _ _ _ _ Eq), Ha. cbn [Z.b2z]. lia.
Qed.

Lemma counted_same s s' :
  threads s' = threads s -> dynamicStopCnt s' = dynamicStopCnt s -> totalNumThreads s' = totalNumThreads s ->
  counted s -> counted s'.
Proof. intros E1 E2 E3 [? ? ? ? ?]. constructor; unfold dynamicThreads, live in *; rewrite ?E1, ?E2, ?E3; done. Qed.

Lemma counted_notify s : counted s -> counted (notify_all s).
Proof.
  intros [H1 H2 H3 H4 H5]. constructor; unfold dynamicThreads in *; cbn; rewrite ?length_fmap; try done.
  by rewrite live_notify_all.
Qed.

Lemma counted_push s s' r w : push r w s = Some s' -> counted s -> counted s'.
Proof.
  intros E H. unfold push in E. set (s0 := returns r Returned (set_queue (queue s ++ [r]) s)) in *.
  assert (counted s0) as H0 by (by eapply counted_same; [..|exact H]).
  apply notify_one_goto in E as [->|(t & Ht & ->)]; [done|].
  eapply (counted_move s0); [done|exact Ht|done| |done|]; [|cbn; lia]. pose proof (co_stop _ H0). cbn in *. lia.
Qed.

Lemma counted_start s :
  counted s -> dynamicCpuThread e = true -> Z.of_nat (length (threads s)) < MAX_EACH_CPU_TASK_THREADS ->
  counted (StartDynamicThread s).
Proof.
  intros [H1 H2 H3 H4 H5] Hd Hn. constructor; unfold dynamicThreads, live in *; cbn; rewrite ?length_app; cbn [length].
  - lia.
  - lia.
  - congruence.
  - lia.
  - rewrite countb_app, countb_cons. unfold countb at 2. cbn. lia.
Qed.

Lemma counted_stopCnt s n : counted s -> 0 <= n <= dynamicThreads e s -> counted (set_stopCnt n s).
Proof. intros [? ? ? ? ?] Hn. by constructor. Qed.

Lemma counted_Test t s : threads s !! t = Some Awake -> counted s -> counted (Test e t s).
Proof.
  intros Et H. pose proof (co_stop _ H). unfold Test. destruct (destroyed s); [by eapply counted_same; [..|exact H]|].
  destruct (isDynamic e t && _) eqn:Ed.
  { bool_facts. eapply counted_move; [exact H|exact Et|done|cbn|done|cbn]; lia. }
  destruct (bool_decide _ && _); [eapply counted_move; [exact H|exact Et|done|cbn; lia|done|cbn; lia]|].
  unfold HandleThreadStop. destruct (isDynamic e t || negb (stop s)).
  - unfold take. destruct (queue s); (eapply counted_move; [exact H|exact Et|done|cbn; lia|done|cbn; lia]).
  - eapply counted_move; [exact H|exact Et|done|cbn; lia|done|cbn; lia].
Qed.

Lemma counted_act a s s' : act e a s = Some s' -> 0 < window e -> counted s -> counted s'.
Proof.
  intros E Hw H. pose proof (co_stop _ H) as Hst. unfold act in E. apply guard_Some in E as [_ E].
  destruct a as [t|t|t|t o| |r elapsed idle w|r w| | |].
  - apply guard_Some in E as [Et [= <-]]. unfold Loop.
    eapply counted_move; [exact H|exact Et|done|cbn; lia|done|]. cbn. destruct (stop s); cbn; lia.
  - apply guard_Some in E as [Et [= <-]]. by apply counted_Test.
  - apply guard_Some in E as [Et [= <-]]. eapply counted_move; [exact H|exact Et|done|cbn; lia|done|cbn; lia].
  - destruct (threads s !! t) as [[| | |r|]|] eqn:Et; try done. injection E as <-. unfold Finish.
    destruct o as [|b|b]; [|destruct (isDynamic e t && _)..];
      (eapply counted_move; [exact H|exact Et|done|cbn; lia|done|cbn; lia]).
  - injection E as <-. by eapply counted_same; [..|exact H].
  - apply guard_Some in E as [Ec E]. apply Enter_cases in E as [(s0 & -> & [[_ ->]|Hx] & _)|(h & n & b & _ & Hcase)]; [|lia|].
    + by eapply counted_same; [..|exact H].
    + assert (counted (set_idle b (set_load h n s))) as H1 by (by eapply counted_same; [..|exact H]).
      destruct Hcase as [E|[(E & Hd & Hn)|(-> & Hd & Hn)]]; [by eapply counted_push| |].
      * eapply counted_push; [exact E|]. by apply counted_start.
      * unfold shrink. cbv zeta. match goal with |- context [notify_all ?x] => set (s1 := x) end.
        eapply (counted_same (notify_all s1)); [done..|]. apply counted_notify. unfold s1.
        destruct (Z.ltb_spec (dynamicStopCnt (set_idle b (set_load h n s))) (dynamicThreads e (set_idle b (set_load h n s)))); [|done].
        apply counted_stopCnt; [done|]. cbn in *. lia.
  - apply guard_Some in E as [Ec E]. unfold Relock in E. destruct (destroyed s).
    + injection E as <-. by eapply counted_same; [..|exact H].
    + eapply counted_push; [exact E|]. by eapply counted_same; [..|exact H].
  - injection E as <-. unfold Stop. destruct (_ =? _)%nat; [done|]. by eapply counted_same; [..|exact H].
  - apply guard_Some in E as [_ [= <-]]. unfold Destroy. destruct (dynamicCpuThread e && _) eqn:Ed; [|by eapply counted_same; [..|exact H]].
    bool_facts. eapply (counted_same (notify_all (set_stopCnt (dynamicThreads e s) s))); [done..|].
    apply counted_notify, counted_stopCnt; [done|lia].
  - unfold Joined in E. destruct (destroyer_ s); try done.
    + apply guard_Some in E as [_ [= <-]]. by eapply counted_same; [..|exact H].
    + destruct (_ <? _)%nat; injection E as <-; [|by eapply counted_same; [..|exact H]].
      eapply (counted_same (notify_all s)); [done..|]. by apply counted_notify.
    + apply guard_Some in E as [_ [= <-]]. by eapply counted_same; [..|exact H].
Qed.

Lemma counted_acts l : forall s s', acts e l s = Some s' -> 0 < window e -> counted s -> counted s'.
Proof.
  induction l as [|a l IH]; intros s s' E Hw H; [by injection E as <-|].
  cbn in E. destruct (act e a s) as [s1|] eqn:E1; [|done]. apply (IH s1); [done..|]. by eapply counted_act.
Qed.

Lemma counted_init : counted (init e).
Proof.
  assert (forall n, countb alive (replicate n Looping) = Z.of_nat n) as Hr.
  { induction n as [|n IH]; [done|]. cbn [replicate]. rewrite countb_cons, IH. cbn. lia. }
  constructor; unfold dynamicThreads, live, init; cbn [threads dynamicStopCnt totalNumThreads];
    rewrite ?length_replicate, ?Hr; destruct (dynamicCpuThread e); lia || done.
Qed.

(** Whatever happens the counters bound the threads: no thread of the base class is lost; a
    worker that may start threads keeps at most six or what it was created with, one that may not
    has those of the base class; no more stops are requested than there are entries in the list of
    dynamic threads; and the total counts at least the threads that have not ended. *)
Theorem counters_bounded l s :
  acts e l (init e) = Some s -> 0 < window e ->
  (numThreads e <= length (threads s))%nat /\
  Z.of_nat (length (threads s)) <= Z.max (Z.of_nat (numThreads e + initDynamicThreads e)) MAX_EACH_CPU_TASK_THREADS /\
  (dynamicCpuThread e = false -> length (threads s) = numThreads e) /\
  0 <= dynamicStopCnt s <= dynamicThreads e s /\ live s <= totalNumThreads s.
Proof. intros E Hw. by destruct (counted_acts l _ _ E Hw counted_init). Qed.

(** ** A run that fails *)

Lemma not_dynamic_threads a s s' :
  act e a s = Some s' -> 0 < window e -> counted s -> dynamicCpuThread e = false -> numThreads e = 1%nat ->
  threads s = [Exited] -> threads s' = [Exited] /\ completed s' = completed s.
Proof.
  intros E Hw H Hd Hn Ht. unfold act in E. apply guard_Some in E as [_ E].
  assert (forall t p, threads s !! t = Some p -> p = Exited) as Hex.
  { intros t p. rewrite Ht. destruct t as [|[|t]]; cbn; naive_solver. }
  assert (forall s1 s2 r w, threads s1 = [Exited] -> push r w s1 = Some s2 -> threads s2 = [Exited] /\ completed s2 = completed s1) as Hp.
  { intros s1 s2 r w Ht1 E1. unfold push in E1. apply notify_one_goto in E1 as [->|(t & Et & ->)]; [done|].
    cbn in Et. rewrite Ht1 in Et. by destruct t as [|[|t]]. }
  destruct a as [t|t|t|t o| |r elapsed idle w|r w| | |].
  1-3: apply guard_Some in E as [Et _]; by apply Hex in Et.
  - destruct (threads s !! t) as [[| | |r|]|] eqn:Et; try done. by apply Hex in Et.
  - by injection E as <-.
  - apply guard_Some in E as [_ E]. unfold Enter in E. rewrite Hd in E. cbn [negb] in E. destruct (destroyed s); [by injection E as <-|]. by eapply Hp.
  - apply guard_Some in E as [_ E]. unfold Relock in E. destruct (destroyed s); [by injection E as <-|].
    by eapply (Hp (set_idle false s)).
  - injection E as <-. unfold Stop. by destruct (_ =? _)%nat.
  - apply guard_Some in E as [_ [= <-]]. unfold Destroy. by rewrite Hd.
  - unfold Joined in E. destruct (destroyer_ s); try done.
    + apply guard_Some in E as [_ [= <-]]. done.
    + destruct (_ <? _)%nat; injection E as <-; [|done]. cbn. by rewrite Ht.
    + apply guard_Some in E as [_ [= <-]]. done.
Qed.

Lemma stays_ended l : forall s s',
  acts e l s = Some s' -> 0 < window e -> counted s -> dynamicCpuThread e = false -> numThreads e = 1%nat ->
  threads s = [Exited] -> threads s' = [Exited] /\ completed s' = completed s.
Proof.
  induction l as [|a l IH]; intros s s' E Hw H Hd Hn Ht; [by injection E as <-|].
  cbn in E. destruct (act e a s) as [s1|] eqn:E1; [|done].
  destruct (not_dynamic_threads _ _ _ E1 Hw H Hd Hn Ht) as [Ht1 <-].
  eapply (IH s1); [done|done| |done..]. by eapply counted_act.
Qed.

(** A run that throws ends the service of its task for good: as created, the worker has one thread,
    which completes the failed request and ends; whatever happens then, no other request is ever
    completed, while a call of [request] still puts its own into the queue and returns 0. *)
Theorem failed_run_ends_service l s t r b s1 l' s' :
  numThreads e = 1%nat -> dynamicCpuThread e = false -> 0 < window e ->
  acts e l (init e) = Some s -> threads s !! t = Some (Running r) -> act e (AFinish t (RunThrows b)) s = Some s1 ->
  acts e l' s1 = Some s' ->
  completed s' = completed s ++ [r] /\
  (forall k elapsed idle, fate_ s' = Alive -> destroyed s' = false -> calls s' !! k = Some Entering ->
   exists s2, act e (AEnter k elapsed idle None) s' = Some s2 /\ calls s2 !! k = Some Returned /\ queue s2 = queue s' ++ [k]).
Proof.
  intros Hn Hd Hw E Et E1 E2. pose proof (counted_acts l _ _ E Hw counted_init) as H. pose proof (co_fixed _ H Hd) as Hl.
  assert (threads s1 = [Exited] /\ completed s1 = completed s ++ [r]) as [Ht1 Hc1].
  { unfold act in E1. apply guard_Some in E1 as [_ E1]. rewrite Et in E1. injection E1 as <-. rewrite Hn in Hl.
    destruct (threads s) as [|p [|]] eqn:Eth; try done. destruct t as [|t]; [|by destruct t]. injection Et as ->.
    unfold Finish. destruct (isDynamic e 0 && _); cbn; by rewrite Eth. }
  destruct (stays_ended l' s1 s' E2 Hw (counted_act _ _ _ E1 Hw H) Hd Hn Ht1) as [Ht' Hc']. split; [by rewrite Hc', Hc1|].
  intros k elapsed idle Hf Hdes Ek. eexists. unfold act. rewrite (option_guard_True _ _ Hf), (option_guard_True _ _ Ek).
  unfold Enter. rewrite Hdes, Hd. cbn [negb]. unfold push, notify_one. rewrite option_guard_True.
  - split; [done|]. split; [|done]. cbn. apply list_lookup_insert_eq. by eapply lookup_lt_Some.
  - cbn. rewrite Ht'. intros Hin. by apply list_elem_of_singleton in Hin.
Qed.

(** ** The destructor *)

(** Thread [t] has not seen the flag, and will test its predicate. *)
Definition doomed (t : nat) (s : state) : Prop :=
  (fate_ s = Undefined /\ destroyer_ s <> Destructed) \/
  ((t < numThreads e)%nat /\ (threads s !! t = Some Asleep \/ threads s !! t = Some Awake) /\
   (exists i, (i <= t)%nat /\ (destroyer_ s = Base i \/ destroyer_ s = Join i))).

Lemma doomed_destroyed t s : doomed t s -> fate_ s = Undefined \/ destroyed s = true.
Proof. intros [[? _]|(_ & _ & i & _ & [E|E])]; [by left|right; unfold destroyed; by rewrite E..]. Qed.

Lemma doomed_act a t s s' : act e a s = Some s' -> doomed t s -> doomed t s'.
Proof.
  intros E Hdm. pose proof (doomed_destroyed _ _ Hdm) as Hx. unfold act in E. apply guard_Some in E as [Hf E].
  destruct Hdm as [[? _]|(Ht & Hp & i & Hi & Hb)]; [congruence|]. destruct Hx as [?|Hx]; [congruence|].
  assert (forall t' q p, t' <> t -> threads s !! t' = Some q -> doomed t (goto t' p s)) as Hmove.
  { intros t' q p Hne _. right. split; [done|]. split; [|by exists i]. cbn. by rewrite list_lookup_insert_ne. }
  assert (forall s1, fate_ s1 = Undefined -> destroyer_ s1 = destroyer_ s -> doomed t s1) as Hundef.
  { intros s1 H1 H2. left. split; [done|]. rewrite H2. destruct Hb as [Hb|Hb]; by rewrite Hb. }
  assert (doomed t (notify_all s)) as Hall.
  { right. split; [done|]. split; [|by exists i]. right. cbn. rewrite list_lookup_fmap. by destruct Hp as [-> | ->]. }
  destruct a as [t'|t'|t'|t' o| |r elapsed idle w|r w| | |].
  - apply guard_Some in E as [Et [= <-]]. destruct (decide (t' = t)) as [->|Hne]; [by destruct Hp as [Hp|Hp]; rewrite Hp in Et|]. by eapply Hmove.
  - apply guard_Some in E as [Et [= <-]]. apply Hundef; unfold Test; by rewrite Hx.
  - apply guard_Some in E as [Et [= <-]]. destruct (decide (t' = t)) as [->|Hne]; [|by eapply Hmove].
    right. split; [done|]. split; [|by exists i]. right. cbn. apply list_lookup_insert_eq. by eapply lookup_lt_Some.
  - destruct (threads s !! t') as [[| | |r|]|] eqn:Et; try done. injection E as <-.
    assert (t' <> t) as Hne by (intros ->; destruct Hp as [Hp|Hp]; rewrite Hp in Et; done).
    right. split; [done|]. split; [|exists i; split; [done|]; unfold Finish; by destruct o as [|b|b]; [|destruct (_ && _)..]].
    unfold Finish. destruct o as [|b|b]; [|destruct (_ && _)..]; cbn; by rewrite list_lookup_insert_ne.
  - injection E as <-. right. split; [done|]. split; [done|]. by exists i.
  - apply guard_Some in E as [_ E]. unfold Enter in E. rewrite Hx in E. injection E as <-. by apply Hundef.
  - apply guard_Some in E as [_ E]. unfold Relock in E. rewrite Hx in E. injection E as <-. by apply Hundef.
  - injection E as <-. right. unfold Stop. destruct (_ =? _)%nat; (split; [done|]; split; [done|]; by exists i).
  - apply guard_Some in E as [Eu _]. rewrite Eu in Hb. by destruct Hb.
  - unfold Joined in E. destruct Hb as [Hb|Hb]; rewrite Hb in E.
    + destruct (Nat.ltb_spec i (numThreads e)); injection E as <-; [|lia]. destruct Hall as [[Hal _]|(_ & Hal & _)]; [cbn in Hal; congruence|].
      right. split; [done|]. split; [exact Hal|]. exists i. split; [done|]. by right.
    + apply guard_Some in E as [Ej [= <-]]. right. split; [done|]. split; [done|]. exists (S i). split; [|by left].
      destruct (decide (i = t)) as [->|]; [|lia]. by destruct Hp as [Hp|Hp]; rewrite Hp in Ej.
Qed.

Lemma doomed_acts l t : forall s s', acts e l s = Some s' -> doomed t s -> doomed t s'.
Proof.
  induction l as [|a l IH]; intros s s' E H; [by injection E as <-|].
  cbn in E. destruct (act e a s) as [s1|] eqn:E1; [|done]. apply (IH s1); [done|]. by eapply doomed_act.
Qed.

Lemma destroyer_push s s' r w : push r w s = Some s' -> destroyer_ s' = destroyer_ s.
Proof. intros E. unfold push in E. by apply notify_one_goto in E as [->|(t & _ & ->)]. Qed.

(** Only the destructor moves the destructor on. *)
Lemma destroyer_act a s s' :
  act e a s = Some s' -> a <> ADestroy -> a <> AJoined -> destroyer_ s' = destroyer_ s.
Proof.
  intros E Ha Hj. unfold act in E. apply guard_Some in E as [_ E].
  destruct a as [t|t|t|t o| |r elapsed idle w|r w| | |]; try done.
  1-3: apply guard_Some in E as [_ [= <-]]; try done.
  - unfold Test, HandleThreadStop, take. destruct (destroyed s); [done|].
    destruct (_ && _); [done|]. destruct (_ && _); [done|]. destruct (_ || _); [by destruct (queue s)|done].
  - destruct (threads s !! t) as [[| | |r|]|]; try done. injection E as <-. unfold Finish.
    by destruct o as [|b|b]; [|destruct (_ && _)..].
  - by injection E as <-.
  - apply guard_Some in E as [_ E]. unfold Enter in E. destruct (destroyed s); [by injection E as <-|].
    assert (destroyer_ (record_load e s) = destroyer_ s) as Er by (destruct (record_load_eq s) as (h & n & -> & _); done).
    destruct (negb _); [by apply destroyer_push in E|]. case_bool_decide; [injection E as <-; done|].
    destruct (elapsed && _); [|apply destroyer_push in E; congruence].
    destruct (_ <? avgLoad _); [apply destroyer_push in E; destruct (_ <? _) in E; cbn in E; congruence|].
    destruct (avgLoad _ =? 0); [|apply destroyer_push in E; congruence].
    destruct (_ && _ && _); [|apply destroyer_push in E; cbn in E; congruence]. injection E as <-. unfold shrink. cbv zeta. by destruct (_ <? _).
  - apply guard_Some in E as [_ E]. unfold Relock in E. destruct (destroyed s); [by injection E as <-|]. by apply destroyer_push in E.
  - injection E as <-. unfold Stop. by destruct (_ =? _)%nat.
Qed.

(** The members of the worker end before its threads are told to: if a thread of the base class
    waits for work, as it does whenever there is none, when the destructor of the derived class
    is through, then the destruction never completes: the destructor waits for that thread, and the thread
    cannot take its next step but by a use of the queue, which is gone. *)
Theorem destroyed_while_waiting a s s1 t l' s' :
  act e a s = Some s1 -> destroyed s = false -> destroyed s1 = true ->
  (t < numThreads e)%nat -> threads s !! t = Some Asleep \/ threads s !! t = Some Awake ->
  acts e l' s1 = Some s' ->
  destroyer_ s' <> Destructed /\
  (fate_ s' = Alive ->
   (threads s' !! t = Some Asleep \/ threads s' !! t = Some Awake) /\
   forall s2, act e (ATest t) s' = Some s2 -> fate_ s2 = Undefined).
Proof.
  intros E Hd Hd1 Ht Hp E'. assert (doomed t s1) as H.
  { pose proof E as E0. unfold act in E. apply guard_Some in E as [_ E].
    assert (doomed t (to_base s)) as Hb by (right; split; [done|]; split; [done|]; exists 0%nat; split; [lia|by left]).
    destruct (decide (a = ADestroy)) as [->|Ha]; [|destruct (decide (a = AJoined)) as [->|Ha']].
    - apply guard_Some in E as [Eu [= <-]]. unfold Destroy in *. by destruct (_ && _).
    - unfold Joined in E. unfold destroyed in Hd. destruct (destroyer_ s); try done. by apply guard_Some in E as [_ [= <-]].
    - exfalso. assert (destroyer_ s1 = destroyer_ s) as Eq by (by eapply destroyer_act).
      unfold destroyed in *. by rewrite Eq, Hd in Hd1. }
  pose proof (doomed_acts l' t _ _ E' H) as H'. pose proof (doomed_destroyed _ _ H') as Hx. split.
  - destruct H' as [[_ ?]|(_ & _ & i & _ & [Eb|Eb])]; congruence.
  - intros Hf. destruct H' as [[? _]|(_ & Hp' & _)]; [congruence|]. split; [done|]. intros s2 E2. unfold act in E2.
    apply guard_Some in E2 as [_ E2]. apply guard_Some in E2 as [_ [= <-]]. unfold Test. destruct Hx as [?|Hx]; [congruence|]. by rewrite Hx.
Qed.

End Thms.
End CpuWorkerThms.

(** ** Concrete runs *)
Module CpuWorkerRuns.
Import CpuWorker CpuWorkerThms.

Definition one : env := mkEnv 1 0 false 6.
Definition elastic : env := mkEnv 1 1 true 1.

(** Two requests; the thread sleeps, is woken by the first and completes it. *)
Definition served_run : list action :=
  [ALoop 0; ATest 0; ACall; AEnter 0 false false (Some 0%nat); ACall; AEnter 1 false false None;
   ATest 0; AFinish 0 Ok].
Definition failing_run : list action :=
  [ALoop 0; ATest 0; ACall; ACall; AEnter 0 false false (Some 0%nat); ATest 0].
Definition waiting_run : list action := [ALoop 0; ATest 0].

(** The state a run leads to. *)
Definition after (e : env) (l : list action) : state := default (init e) (acts e l (init e)).

Ltac computed := first [ vm_compute; reflexivity | cbn; lia | by repeat constructor ].

Lemma requests_once_witness :
  acts one served_run (init one) = Some (after one served_run) /\
  queue (after one served_run) = [1%nat] /\ completed (after one served_run) = [0%nat] /\
  times 0 (after one served_run) = Z.b2z (bool_decide (calls (after one served_run) !! 0%nat = Some Returned)).
Proof. do 3 (split; [computed|]). apply (requests_once one served_run); computed. Defined.

Definition serve : list action := [ALoop 0; ATest 0; AFinish 0 Ok].
Lemma requests_served_witness :
  completed (after one (served_run ++ serve)) = [0; 1]%nat /\
  Z.of_nat (length serve) <= work (after one served_run) /\
  ((forall a, internal a = true -> act one a (after one (served_run ++ serve)) = None) ->
   forall r, (r < length (calls (after one (served_run ++ serve))))%nat ->
     countb (Nat.eqb r) (completed (after one (served_run ++ serve))) = 1).
Proof. split; [computed|]. apply (requests_served one served_run _ serve); computed. Defined.

(** The idle worker asks its dynamic thread to stop; the call waits for the mutex again. *)
Definition shrinking_run : list action :=
  [ALoop 0; ATest 0; ALoop 1; ATest 1; ACall; AEnter 0 true true None; ATest 1; ARelock 0 None].
Lemma counters_bounded_witness :
  threads (after elastic shrinking_run) = [Awake; Exited] /\ totalNumThreads (after elastic shrinking_run) = 1 /\
  ((numThreads elastic <= length (threads (after elastic shrinking_run)))%nat /\
  Z.of_nat (length (threads (after elastic shrinking_run))) <=
     Z.max (Z.of_nat (numThreads elastic + initDynamicThreads elastic)) MAX_EACH_CPU_TASK_THREADS /\
  (dynamicCpuThread elastic = false -> length (threads (after elastic shrinking_run)) = numThreads elastic) /\
  0 <= dynamicStopCnt (after elastic shrinking_run) <= dynamicThreads elastic (after elastic shrinking_run) /\
  live (after elastic shrinking_run) <= totalNumThreads (after elastic shrinking_run)).
Proof. do 2 (split; [computed|]). apply (counters_bounded elastic shrinking_run); computed. Defined.

Definition fail : action := AFinish 0 (RunThrows false).
Lemma failed_run_ends_service_witness :
  completed (after one (failing_run ++ [fail; AEnter 1 false false None])) = completed (after one failing_run) ++ [0%nat] /\
  (forall k elapsed idle, fate_ (after one (failing_run ++ [fail; AEnter 1 false false None])) = Alive ->
   destroyed (after one (failing_run ++ [fail; AEnter 1 false false None])) = false ->
   calls (after one (failing_run ++ [fail; AEnter 1 false false None])) !! k = Some Entering ->
   exists s2, act one (AEnter k elapsed idle None) (after one (failing_run ++ [fail; AEnter 1 false false None])) = Some s2 /\
  calls s2 !! k = Some Returned /\
  queue s2 = queue (after one (failing_run ++ [fail; AEnter 1 false false None])) ++ [k]).
Proof.
  apply (failed_run_ends_service one failing_run _ 0 0 false (after one (failing_run ++ [fail])) [AEnter 1 false false None]); computed.
Defined.

Lemma destroyed_while_waiting_witness :
  fate_ (after one (waiting_run ++ [ADestroy; AJoined])) = Alive /\
  destroyer_ (after one (waiting_run ++ [ADestroy; AJoined])) <> Destructed /\
  (fate_ (after one (waiting_run ++ [ADestroy; AJoined])) = Alive ->
   (threads (after one (waiting_run ++ [ADestroy; AJoined])) !! 0%nat = Some Asleep \/
    threads (after one (waiting_run ++ [ADestroy; AJoined])) !! 0%nat = Some Awake) /\
  forall s2, act one (ATest 0) (after one (waiting_run ++ [ADestroy; AJoined])) = Some s2 -> fate_ s2 = Undefined).
Proof.
  split; [computed|]. apply (destroyed_while_waiting one ADestroy (after one waiting_run) (after one (waiting_run ++ [ADestroy])) 0 [AJoined]);
    first [left; vm_compute; reflexivity | computed].
Defined.

End CpuWorkerRuns.
