(* ===== verification/MonitorShm.v ===== *)
(** * Shared memory of the monitor

    [lib/device_shm]: the process of the writer publishes the state of the devices to any
    number of readers in other processes through a sequence lock.  A step is one access of
    the shared memory by one thread: a word of 4 bytes of a device, a field of the header or
    the sequence counter.  Memory accesses are sequentially consistent; the orders
    [memory_order_acquire] and [memory_order_release] of the code are weaker.

    Any thread of the writer's process may call [SharedMemoryWriter], which has no lock: the
    thread of [SharedMemoryWritingThread] in the service, but without a service the monitor
    thread of [NoServiceLayer] and a response thread for each device.  Their accesses
    interleave.

    A device is its 100 words ([sizeof(MonitorDeviceData) == 400]). *)

From Stdlib Require Import ZArith Lia.
From S2P Require Import Prelude.

Module MonitorShm.

Definition MONITOR_SHM_MAGIC : Z := 0x44585254.
Definition MONITOR_SHM_VERSION : Z := 2.
Definition MAX_MONITOR_DEVICES : nat := 32.
Definition MAX_SEQLOCK_RETRIES : Z := 1000.

(** ** The layout of a device, in words *)

Definition DEVICE_WORDS : nat := 100.
Definition DEVICE_ID : nat := 0.
Definition SPEC : nat := 2.                 (** 28 words *)
Definition DEV_INFO : nat := 30.            (** 25 words *)
Definition STATUS : nat := 55.              (** 31 words *)
Definition VOLTAGE : nat := 55.
Definition CLOCK : nat := 59.
Definition TEMPERATURE : nat := 63.
Definition UTILIZATION : nat := 86.         (** three doubles *)
Definition MEMORY_TOTAL : nat := 92.
Definition MEMORY_USED : nat := 94.
Definition MEMORY_FREE : nat := 96.
Definition IS_ACTIVE : nat := 98.
Definition INFERENCE_COUNT : nat := 99.

Record shm := mkShm {
  sequence : Z; magic : Z; version : Z; writer_pid : Z;
  update_count : Z; last_update_timestamp : Z;
  device_count : nat; devices : list (list Z)
}.

Definition no_device : list Z := replicate DEVICE_WORDS 0.
(** [MonitorSharedMemory()] *)
Definition new_shm : shm :=
  mkShm 0 MONITOR_SHM_MAGIC MONITOR_SHM_VERSION 0 0 0 0 (replicate MAX_MONITOR_DEVICES no_device).
(** The pages of a new segment. *)
Definition zero_shm : shm := mkShm 0 0 0 0 0 0 0 (replicate MAX_MONITOR_DEVICES no_device).

Definition set_sequence (z : Z) (m : shm) : shm :=
  mkShm z (magic m) (version m) (writer_pid m) (update_count m) (last_update_timestamp m)
    (device_count m) (devices m).
Definition set_pid (z : Z) (m : shm) : shm :=
  mkShm (sequence m) (magic m) (version m) z (update_count m) (last_update_timestamp m)
    (device_count m) (devices m).
Definition set_stamp (t : Z) (m : shm) : shm :=
  mkShm (sequence m) (magic m) (version m) (writer_pid m) (update_count m) t (device_count m) (devices m).
Definition set_updates (n : Z) (m : shm) : shm :=
  mkShm (sequence m) (magic m) (version m) (writer_pid m) n (last_update_timestamp m) (device_count m) (devices m).
Definition set_count (n : nat) (m : shm) : shm :=
  mkShm (sequence m) (magic m) (version m) (writer_pid m) (update_count m) (last_update_timestamp m) n (devices m).
Definition set_word (i w : nat) (v : Z) (m : shm) : shm :=
  mkShm (sequence m) (magic m) (version m) (writer_pid m) (update_count m) (last_update_timestamp m)
    (device_count m) (alter (fun d => <[w := v]> d) i (devices m)).

Definition word (m : shm) (i w : nat) : Z := default 0 (devices m !! i ≫= (fun d => d !! w)).

(** ** The writer *)

(** An access of a call between [BeginWrite] and [EndWrite]; a thread has one register, for
    the increments and the copy of [memory_total]. *)
Inductive access :=
| SWord (i w : nat) (v : Z)
| SPid (v : Z) | SStamp (t : Z)
| LWord (i w : nat) | SCopy (i w : nat)           (** a word is copied *)
| SIncrement (i w : nat)                          (** [++] of a word that was loaded *)
| LUpdates | SUpdates.                            (** [update_count++] *)

(** The register and the memory after an access. *)
Definition apply_access (x : access) (reg : Z) (m : shm) : Z * shm :=
  match x with
  | SWord i w v => (reg, set_word i w v m)
  | SPid v => (reg, set_pid v m)
  | SStamp t => (reg, set_stamp t m)
  | LWord i w => (word m i w, m)
  | SCopy i w => (reg, set_word i w reg m)
  | SIncrement i w => (reg, set_word i w (u32 (reg + 1)) m)
  | LUpdates => (update_count m, m)
  | SUpdates => (reg, set_updates (u64 (reg + 1)) m)
  end.

Definition store_words (i w : nat) (l : list Z) : list access := imap (fun k v => SWord i (w + k) v) l.

Inductive call :=
| UpdateDeviceUtilization (id : Z) (words : list Z)          (** six words *)
| UpdateDeviceMemory (id : Z) (total used free : list Z)     (** two words each *)
| UpdateDeviceSpec (id : Z) (spec devInfo : list Z)
| UpdateDeviceFullStatus (id : Z) (status : list Z)
| UpdateDeviceCoreStats (id : Z) (voltage clock temperature : list Z)
| SetDeviceActive (id : Z) (active : bool)
| IncrementInferenceCount (id : Z).

Definition call_device (c : call) : Z :=
  match c with
  | UpdateDeviceUtilization id _ | UpdateDeviceMemory id _ _ _ | UpdateDeviceSpec id _ _
  | UpdateDeviceFullStatus id _ | UpdateDeviceCoreStats id _ _ _ | SetDeviceActive id _
  | IncrementInferenceCount id => u32 id
  end.

(** What a call does to device [i] between [BeginWrite] and [EndWrite]; the last three
    accesses are [UpdateTimestamp]. *)
Definition call_accesses (c : call) (timestamp : Z) (i : nat) : list access :=
  match c with
  | UpdateDeviceUtilization _ l => store_words i UTILIZATION (take 6 l)
  | UpdateDeviceMemory _ t u f =>
      store_words i MEMORY_TOTAL (take 2 t) ++ store_words i MEMORY_USED (take 2 u) ++
      store_words i MEMORY_FREE (take 2 f)
  | UpdateDeviceSpec _ s d => store_words i SPEC (take 28 s) ++ store_words i DEV_INFO (take 25 d)
  | UpdateDeviceFullStatus _ s => store_words i STATUS (take 31 s)
  | UpdateDeviceCoreStats _ v c t =>
      store_words i VOLTAGE (take 3 v) ++ store_words i CLOCK (take 3 c) ++
      store_words i TEMPERATURE (take 3 t) ++
      [SWord i (VOLTAGE + 3) 0; SWord i (CLOCK + 3) 0; SWord i (TEMPERATURE + 3) 0]
  | SetDeviceActive _ b => [SWord i IS_ACTIVE (Z.b2z b)]
  | IncrementInferenceCount _ => [LWord i INFERENCE_COUNT; SIncrement i INFERENCE_COUNT]
  end ++ [SStamp timestamp; LUpdates; SUpdates].

(** [Cleanup]: what it does to one device. *)
Definition reset_accesses (i : nat) : list access :=
  [SWord i IS_ACTIVE 0] ++ store_words i UTILIZATION (replicate 6 0) ++
  store_words i MEMORY_USED [0; 0] ++
  [LWord i MEMORY_TOTAL; SCopy i MEMORY_FREE; LWord i (S MEMORY_TOTAL); SCopy i (S MEMORY_FREE)] ++
  store_words i SPEC (replicate 28 0) ++ store_words i DEV_INFO (replicate 25 0) ++
  store_words i STATUS (replicate 31 0).

(** What a thread of the writer's process does next.  The accesses of [GetDeviceData]
    precede [BeginWrite]. *)
Inductive writer :=
| WIdle
| WScan (c : call) (t : Z) (i : nat)        (** the test of the loop over the devices *)
| WMatch (c : call) (t : Z) (i : nat)       (** the test of the id *)
| WSpace (c : call) (t : Z)                 (** is there space for a new device? *)
| WSlot (c : call) (t : Z)                  (** the address of the new device *)
| WNewId (c : call) (t : Z) (k : nat)       (** its id *)
| WNewActive (c : call) (t : Z) (k : nat)   (** its flag *)
| WCountLoad (c : call) (t : Z) (k : nat)   (** [device_count++] *)
| WCountStore (c : call) (t : Z) (k n : nat)
| WBegin (body : list access)
| WBody (last : bool) (body : list access) (reg : Z)   (** the empty list: [EndWrite] *)
| WCleanup (t : Z)                                     (** [BeginWrite] of [Cleanup] *)
| WReset (t : Z) (i : nat)                             (** the test of its loop *)
| WResetDevice (t : Z) (i : nat) (body : list access) (reg : Z)
| WOut                                      (** an element beyond the array, or the segment
                                                after it was unmapped: undefined *)
| WDead.                                    (** no process, or not initialized *)

(** [timestamp] is the clock. *)
Definition Start (c : call) (timestamp : Z) : writer := WScan c timestamp 0.

(** The next access of a thread. *)
Definition write (w : writer) (m : shm) : option (writer * shm) :=
  match w with
  | WIdle | WDead | WOut => None
  | WScan c t i => Some (if (i <? device_count m)%nat then WMatch c t i else WSpace c t, m)
  | WMatch c t i =>
      Some (if (i <? MAX_MONITOR_DEVICES)%nat then
              if word m i DEVICE_ID =? call_device c then WBegin (call_accesses c t i)
              else WScan c t (S i)
            else WOut, m)
  | WSpace c t => Some (if (device_count m <? MAX_MONITOR_DEVICES)%nat then WSlot c t else WIdle, m)
  | WSlot c t =>
      Some (if (device_count m <? MAX_MONITOR_DEVICES)%nat then WNewId c t (device_count m)
            else WOut, m)
  | WNewId c t k => Some (WNewActive c t k, set_word k DEVICE_ID (call_device c) m)
  | WNewActive c t k => Some (WCountLoad c t k, set_word k IS_ACTIVE 1 m)
  | WCountLoad c t k => Some (WCountStore c t k (device_count m), m)
  | WCountStore c t k n => Some (WBegin (call_accesses c t k), set_count (S n) m)
  | WBegin body => Some (WBody false body 0, set_sequence (u64 (sequence m + 1)) m)
  | WBody last (x :: body) reg =>
      let '(reg, m) := apply_access x reg m in Some (WBody last body reg, m)
  | WBody last [] _ => Some (if last then WDead else WIdle, set_sequence (u64 (sequence m + 1)) m)
  | WCleanup t => Some (WReset t 0, set_sequence (u64 (sequence m + 1)) m)
  | WReset t i =>
      Some (if (i <? device_count m)%nat then
              if (i <? MAX_MONITOR_DEVICES)%nat then WResetDevice t i (reset_accesses i) 0 else WOut
            else WBody true [SPid 0; SStamp t] 0, m)
  | WResetDevice t i (x :: body) reg =>
      let '(reg, m) := apply_access x reg m in Some (WResetDevice t i body reg, m)
  | WResetDevice t i [] _ => Some (WReset t (S i), m)
  end.

(** The segment is unmapped: a thread outside of a call does nothing from now on, and the
    next access of any other is beyond it. *)
Definition unmapped (w : writer) : writer :=
  match w with WIdle | WDead => WDead | _ => WOut end.

(** [Initialize] of a new process [pid]: [alive] is what [kill(writer_pid, 0)] says of the
    process that is noted in the segment. *)
Definition Initialize (pid : Z) (alive : bool) (m : shm) : shm :=
  let m :=
    if negb (magic m =? MONITOR_SHM_MAGIC) || negb (version m =? MONITOR_SHM_VERSION) then new_shm
    else if negb (writer_pid m =? 0) && negb alive then new_shm
    else m in
  set_pid pid m.

(** ** Readers *)

Inductive query :=
| ReadDeviceData (id : Z)
| GetAllDevices (maxCount : nat)
| GetDeviceCount.

Inductive result :=
| Failed                               (** [false], or the count 0: too many retries *)
| Found (d : option (list Z))
| All (l : list (list Z))
| Count (n : nat).

Inductive reader :=
| RIdle
| RSequence (q : query) (retries : Z) (seq2 : Z) (count : nat)   (** the first load *)
| RScan (id seq1 : Z) (i : nat)                    (** the test of the loop over the devices *)
| RMatch (id seq1 : Z) (i : nat)                   (** the test of the id *)
| RDevice (id seq1 : Z) (i : nat) (got : list Z)   (** the copy *)
| RCount (seq1 : Z) (maxCount : nat)
| RAll (seq1 : Z) (maxCount count : nat) (done : list (list Z)) (got : list Z)
| RCountOnly (seq1 : Z)
| RCheck (q : query) (seq1 : Z) (r : result)       (** the second load *)
| RDone (r : result)
| ROut.                                (** an element beyond the array: undefined *)

Definition after_sequence (q : query) (seq1 : Z) : reader :=
  match q with
  | ReadDeviceData id => RScan id seq1 0
  | GetAllDevices n => RCount seq1 n
  | GetDeviceCount => RCountOnly seq1
  end.

(** [continue] goes to the condition of the loop, which is [true] but in
    [GetDeviceCount]. *)
Definition continues (q : query) (seq1 seq2 : Z) : bool :=
  match q with GetDeviceCount => negb (seq1 =? seq2) | _ => true end.

Definition copy_all (seq1 : Z) (maxCount count : nat) (done : list (list Z)) (got : list Z) : reader :=
  if (length done =? count)%nat then RCheck (GetAllDevices maxCount) seq1 (All done)
  else RAll seq1 maxCount count done got.

(** One step of a reader; [None] when it has nothing to do. *)
Definition read (r : reader) (m : shm) : option reader :=
  match r with
  | RIdle | RDone _ | ROut => None
  | RSequence q retries seq2 count =>
      let seq1 := sequence m in
      Some (if Z.odd seq1 then
              if MAX_SEQLOCK_RETRIES <? retries + 1 then RDone Failed
              else if continues q seq1 seq2 then RSequence q (retries + 1) seq2 count
              else RDone (Count count)
            else after_sequence q seq1)
  | RScan id seq1 i =>
      Some (if (i <? device_count m)%nat then RMatch id seq1 i
            else RCheck (ReadDeviceData id) seq1 (Found None))
  | RMatch id seq1 i =>
      Some (if (i <? MAX_MONITOR_DEVICES)%nat then
              if word m i DEVICE_ID =? u32 id then RDevice id seq1 i [] else RScan id seq1 (S i)
            else ROut)
  | RDevice id seq1 i got =>
      let got := got ++ [word m i (length got)] in
      Some (if (length got =? DEVICE_WORDS)%nat then RCheck (ReadDeviceData id) seq1 (Found (Some got))
            else RDevice id seq1 i got)
  | RCount seq1 maxCount =>
      Some (copy_all seq1 maxCount (device_count m `min` maxCount) [] [])
  | RAll seq1 maxCount count done got =>
      if (MAX_MONITOR_DEVICES <=? length done)%nat then Some ROut else
      let got := got ++ [word m (length done) (length got)] in
      Some (if (length got =? DEVICE_WORDS)%nat then copy_all seq1 maxCount count (done ++ [got]) []
            else RAll seq1 maxCount count done got)
  | RCountOnly seq1 => Some (RCheck GetDeviceCount seq1 (Count (device_count m)))
  | RCheck q seq1 r =>
      Some (if seq1 =? sequence m then RDone r
            else RSequence q 0 (sequence m) (match r with Count n => n | _ => 0%nat end))
  end.

(** ** Processes *)

(** [writers]: the threads of the writer's process. *)
Record state := mkState { mem : shm; writers : list writer; readers : list reader }.

Inductive action :=
| ACall (t : nat) (c : call) (timestamp : Z)       (** thread [t] calls the writer *)
| ACleanup (t : nat) (timestamp : Z)
| AWrite (t : nat)
| AQuery (r : nat) (q : query)
| ARead (r : nat)
| ACrash                              (** the writer process dies *)
| AInitialize (pid : Z) (alive : bool).

Definition act (a : action) (s : state) : option state :=
  match a with
  | ACall t c z =>
      match writers s !! t with
      | Some WIdle => Some (mkState (mem s) (<[t := Start c z]> (writers s)) (readers s))
      | _ => None
      end
  | ACleanup t z =>
      match writers s !! t with
      | Some WIdle => Some (mkState (mem s) (<[t := WCleanup z]> (writers s)) (readers s))
      | _ => None
      end
  | AWrite t =>
      w ← writers s !! t; '(w, m) ← write w (mem s);
      Some (mkState m (match w with
                       | WDead => unmapped <$> <[t := WDead]> (writers s)
                       | _ => <[t := w]> (writers s)
                       end) (readers s))
  | AQuery r q =>
      match readers s !! r with
      | Some RIdle | Some (RDone _) =>
          Some (mkState (mem s) (writers s) (<[r := RSequence q 0 0 0]> (readers s)))
      | _ => None
      end
  | ARead r =>
      x ← readers s !! r; x ← read x (mem s);
      Some (mkState (mem s) (writers s) (<[r := x]> (readers s)))
  | ACrash => Some (mkState (mem s) ((fun _ => WDead) <$> writers s) (readers s))
  | AInitialize pid alive =>
      if forallb (fun w => match w with WDead => true | _ => false end) (writers s)
      then Some (mkState (Initialize pid alive (mem s)) ((fun _ => WIdle) <$> writers s) (readers s))
      else None
  end.

Fixpoint acts (l : list action) (s : state) : option state :=
  match l with [] => Some s | a :: l => s' ← act a s; acts l s' end.

(** A new segment, no writer yet; [t] threads of the writer, [n] readers. *)
Definition init (t n : nat) : state := mkState zero_shm (replicate t WDead) (replicate n RIdle).

End MonitorShm.
