(* ===== verification/MonitorShmThms.v ===== *)
(** * Shared memory of the monitor: theorems

    What a reader returns is the state of the devices at one instant of its call, unless
    the segment is taken over by a new writer or two threads of the writer are in a call at
    once; and what happens then. *)

From Stdlib Require Import ZArith Lia.
From S2P Require Import Prelude MonitorShm.
Import MonitorShm.

(** ** One step *)

(** What holds of the one thread of the writer that may be in a call: between [BeginWrite]
    and [EndWrite] the sequence is odd, and the slot of a new device is the next one. *)
Definition sound (w : writer) (m : shm) : Prop :=
  match w with
  | WIdle | WScan _ _ _ | WSpace _ _ | WBegin _ | WCleanup _ => Z.odd (sequence m) = false
  | WMatch _ _ i => Z.odd (sequence m) = false /\ (i < device_count m)%nat
  | WSlot _ _ => Z.odd (sequence m) = false /\ (device_count m < MAX_MONITOR_DEVICES)%nat
  | WNewId _ _ k | WNewActive _ _ k | WCountLoad _ _ k =>
      Z.odd (sequence m) = false /\ k = device_count m /\ (k < MAX_MONITOR_DEVICES)%nat
  | WCountStore _ _ k n =>
      Z.odd (sequence m) = false /\ k = device_count m /\ n = k /\ (k < MAX_MONITOR_DEVICES)%nat
  | WBody _ _ _ | WReset _ _ | WResetDevice _ _ _ _ => Z.odd (sequence m) = true
  | WOut | WDead => False
  end.

(** Not in a call. *)
Definition quiet (w : writer) : bool := match w with WIdle | WDead => true | _ => false end.

(** The process of the writer is gone, or all its threads but one are not in a call. *)
Definition healthy (s : state) : Prop :=
  (device_count (mem s) <= MAX_MONITOR_DEVICES)%nat /\
  (Forall (eq WDead) (writers s) \/
   exists t w, writers s !! t = Some w /\ sound w (mem s) /\
     forall u v, u <> t -> writers s !! u = Some v -> quiet v = true).

(** The calls of the writer come one after the other: none starts while another is under way. *)
Definition one_by_one_at (a : action) (s : state) : Prop :=
  match a with ACall _ _ _ | ACleanup _ _ => forallb quiet (writers s) = true | _ => True end.
Fixpoint one_by_one (l : list action) (s : state) : Prop :=
  match l with
  | [] => True
  | a :: l => match act a s with Some s' => one_by_one_at a s /\ one_by_one l s' | None => True end
  end.

Definition no_initialize (a : action) : Prop := match a with AInitialize _ _ => False | _ => True end.

(** The devices that are counted are the same and stay counted. *)
Definition kept (m m' : shm) : Prop :=
  (device_count m <= device_count m')%nat /\
  forall i w, (i < device_count m)%nat -> word m' i w = word m i w.

Lemma kept_refl m : kept m m.
Proof. done. Qed.

Lemma kept_trans m1 m2 m3 : kept m1 m2 -> kept m2 m3 -> kept m1 m3.
Proof. intros [A B] [C D]. split; [lia|]. intros i w H. rewrite D by lia. by apply B. Qed.

Lemma word_set_word m i w v j u : j <> i -> word (set_word i w v m) j u = word m j u.
Proof. intros H. unfold word, set_word. cbn. by rewrite list_lookup_alter_ne. Qed.

Lemma odd_next z : Z.odd (z + 1) = negb (Z.odd z).
Proof. rewrite Z.odd_add. by destruct (Z.odd z). Qed.

Lemma access_frame x reg m :
  sequence (apply_access x reg m).2 = sequence m /\
  device_count (apply_access x reg m).2 = device_count m.
Proof. by destruct x. Qed.

(** An access of the writer: the counter moves by at most one; while it stays at an even
    value the counted devices are kept. *)
Lemma write_window w m w' m' :
  write w m = Some (w', m') -> 0 <= sequence m < 2 ^ 64 - 1 ->
  (device_count m <= MAX_MONITOR_DEVICES)%nat -> sound w m ->
  (sequence m' = sequence m \/ sequence m' = sequence m + 1) /\
  (device_count m' <= MAX_MONITOR_DEVICES)%nat /\ (w' = WDead \/ sound w' m') /\
  (sequence m' = sequence m -> Z.odd (sequence m) = false -> kept m m').
Proof.
  intros E Hs Hc Hw.
  assert (forall i u v, (device_count m <= i)%nat -> kept m (set_word i u v m)) as Hk.
  { intros i u v Hi. split; [done|]. intros j w0 Hj. apply word_set_word. lia. }
  assert (u64 (sequence m + 1) = sequence m + 1) as Eu by (apply uwrap_small; lia).
  assert (forall x reg, sequence (apply_access x reg m).2 = sequence m /\
    device_count (apply_access x reg m).2 = device_count m) as Hf by (intros; apply access_frame).
  destruct w as [|c t i|c t i|c t|c t|c t k|c t k|c t k|c t k n|body|last [|x body] reg|t|t i|t i [|x body] reg| |];
    cbn [write sound] in *; try done; destruct_and?.
  11, 15: specialize (Hf x reg); destruct (apply_access x reg m) as [reg' m1]; cbn [snd] in Hf;
    destruct Hf as [F1 F2]; injection E as <- <-; rewrite F1, F2; cbn [sound]; rewrite F1;
    split; [by left|]; split; [done|]; split; [by right|]; by rewrite Hw.
  9, 10, 11: injection E as <- <-; cbn [sequence set_sequence device_count]; rewrite Eu;
    split; [by right|]; split; [done|]; split; [|lia];
    try destruct last; (by left) || (right; cbn; by rewrite ?Eu, odd_next, Hw).
  all: injection E as <- <-; (split; [by left|]); (split; [cbn; lia|]).
  - split; [|done]. right. by destruct (Nat.ltb_spec i (device_count m)).
  - split; [|done]. right. rewrite (proj2 (Nat.ltb_lt _ _)) by lia. by destruct (_ =? _).
  - split; [|done]. right. by destruct (Nat.ltb_spec (device_count m) MAX_MONITOR_DEVICES).
  - split; [|done]. right. by rewrite (proj2 (Nat.ltb_lt _ _)) by done.
  - split; [by right|]. intros _ _. apply Hk. lia.
  - split; [by right|]. intros _ _. apply Hk. lia.
  - split; [by right|]. done.
  - split; [by right|]. intros _ _. split; [cbn; lia|done].
  - split; [|by rewrite Hw]. right. destruct (Nat.ltb_spec i (device_count m)); [|done].
    by rewrite (proj2 (Nat.ltb_lt _ _)) by lia.
  - split; [by right|]. by rewrite Hw.
Qed.

(** *** The threads of the writer *)

Lemma all_quiet s : forallb quiet (writers s) = true ->
  forall u v, writers s !! u = Some v -> quiet v = true.
Proof.
  intros H u v Hu. rewrite forallb_forall in H. apply H, list_elem_of_In. by eapply list_elem_of_lookup_2.
Qed.

(** A thread that may start a call when all threads are out of one: the counter is even. *)
Lemma healthy_idle s t :
  healthy s -> forallb quiet (writers s) = true -> writers s !! t = Some WIdle ->
  Z.odd (sequence (mem s)) = false.
Proof.
  intros [_ [Hd|(t0 & w & Hw & Hs & _)]] Hq Ht.
  - rewrite Forall_forall in Hd. by apply list_elem_of_lookup_2, Hd in Ht.
  - pose proof (all_quiet s Hq t0 w Hw) as Q. by destruct w.
Qed.

(** Another thread than the one in a call has no next access. *)
Lemma healthy_writer s t w x :
  healthy s -> writers s !! t = Some w -> write w (mem s) = Some x ->
  sound w (mem s) /\ forall u v, u <> t -> writers s !! u = Some v -> quiet v = true.
Proof.
  intros [_ [Hd|(t0 & w0 & Hw & Hs & Hq)]] Ht E.
  - rewrite Forall_forall in Hd. apply list_elem_of_lookup_2, Hd in Ht. by subst.
  - destruct (decide (t = t0)) as [->|Hne]; [by simplify_eq|].
    pose proof (Hq t w Hne Ht) as Q. by destruct w.
Qed.

Lemma started_healthy s t w m' :
  (device_count (mem s) <= MAX_MONITOR_DEVICES)%nat -> is_Some (writers s !! t) -> sound w m' ->
  (device_count m' <= MAX_MONITOR_DEVICES)%nat ->
  (forall u v, u <> t -> writers s !! u = Some v -> quiet v = true) ->
  healthy (mkState m' (<[t := w]> (writers s)) (readers s)).
Proof.
  intros Hc [x Hx] Hw Hc' Hq. split; [done|]. right. exists t, w. cbn [writers mem].
  split; [apply list_lookup_insert_eq; by eapply lookup_lt_Some|]. split; [done|].
  intros u v Hu E. rewrite list_lookup_insert_ne in E by done. by apply (Hq u v).
Qed.

Lemma unmapped_healthy s t m' :
  (device_count m' <= MAX_MONITOR_DEVICES)%nat ->
  (forall u v, u <> t -> writers s !! u = Some v -> quiet v = true) ->
  healthy (mkState m' (unmapped <$> <[t := WDead]> (writers s)) (readers s)).
Proof.
  intros Hc Hq. split; [done|]. left. apply Forall_fmap, Forall_lookup. intros u v Hu.
  apply list_lookup_insert_Some in Hu as [(-> & <- & _)|[Hne Hu]]; [done|].
  pose proof (Hq u v ltac:(done) Hu) as Q. by destruct v.
Qed.

(** One action: the same for a state. *)
Lemma act_window a s s' :
  no_initialize a -> act a s = Some s' -> one_by_one_at a s -> healthy s ->
  0 <= sequence (mem s) < 2 ^ 64 - 1 ->
  (sequence (mem s') = sequence (mem s) \/ sequence (mem s') = sequence (mem s) + 1) /\
  healthy s' /\
  (sequence (mem s') = sequence (mem s) -> Z.odd (sequence (mem s)) = false -> kept (mem s) (mem s')).
Proof.
  intros Ha E Ho Hh Hs. pose proof (proj1 Hh) as Hc.
  destruct a as [t c z|t z|t|r q|r| |pid alive]; cbn [act] in E; try done; cbn [one_by_one_at] in Ho.
  - destruct (writers s !! t) as [[]|] eqn:Ew; try done. injection E as <-. cbn.
    split; [by left|]. split; [|done]. apply started_healthy; try done.
    + by eapply healthy_idle.
    + intros u v _. by apply all_quiet.
  - destruct (writers s !! t) as [[]|] eqn:Ew; try done. injection E as <-. cbn.
    split; [by left|]. split; [|done]. apply started_healthy; try done.
    + by eapply healthy_idle.
    + intros u v _. by apply all_quiet.
  - destruct (writers s !! t) as [w|] eqn:Ew; [|done]. cbn in E.
    destruct (write w (mem s)) as [[w' m]|] eqn:Ex; [|done]. cbn in E. injection E as <-. cbn [mem].
    destruct (healthy_writer s t w _ Hh Ew Ex) as [Hw Hq].
    destruct (write_window _ _ _ _ Ex Hs Hc Hw) as (A1 & A2 & A3 & A4). split; [done|]. split; [|done].
    destruct A3 as [->|A3]; [by apply unmapped_healthy|].
    assert (w' <> WDead) as Hn by (by intros ->).
    destruct w'; try done; by apply started_healthy.
  - destruct (readers s !! r) as [[]|]; try done; injection E as <-; cbn; (split; [by left|]); done.
  - destruct (readers s !! r) as [x|]; [|done]. cbn in E. destruct (read x (mem s)); [|done].
    cbn in E. injection E as <-. cbn. split; [by left|]. done.
  - injection E as <-. cbn. split; [by left|]. split; [|done]. split; [done|]. left. cbn.
    by apply Forall_fmap, Forall_true.
Qed.

(** ** What a reader knows *)

Definition view (m : shm) (i : nat) : list Z := word m i <$> seq 0 DEVICE_WORDS.

(** The answer of a query on a memory. *)
Definition agrees (q : query) (r : result) (m : shm) : Prop :=
  match q, r with
  | ReadDeviceData id, Found (Some d) =>
      exists i, (i < device_count m)%nat /\ d = view m i /\ word m i DEVICE_ID = u32 id /\
        forall j, (j < i)%nat -> word m j DEVICE_ID <> u32 id
  | ReadDeviceData id, Found None =>
      forall j, (j < device_count m)%nat -> word m j DEVICE_ID <> u32 id
  | GetAllDevices n, All l => l = view m <$> seq 0 (device_count m `min` n)
  | GetDeviceCount, Count n => n = device_count m
  | _, _ => False
  end.

Section Run.
Context (s0 : state).

(** A state of the run whose memory has the property. *)
Definition seen (l : list action) (P : shm -> Prop) : Prop :=
  exists l1 l2 s1, l = l1 ++ l2 /\ acts l1 s0 = Some s1 /\ P (mem s1).

Lemma seen_snoc l a P : seen l P -> seen (l ++ [a]) P.
Proof. intros (l1 & l2 & s1 & -> & H1 & H2). exists l1, (l2 ++ [a]), s1. by rewrite app_assoc. Qed.

Lemma seen_now l s (P : shm -> Prop) : acts l s0 = Some s -> P (mem s) -> seen l P.
Proof. intros H1 H2. exists l, [], s. by rewrite app_nil_r. Qed.

Lemma seen_impl l (P Q : shm -> Prop) : seen l P -> (forall m, P m -> Q m) -> seen l Q.
Proof. intros (l1 & l2 & s1 & -> & H1 & H2) H. exists l1, l2, s1. auto. Qed.

Definition stable (P : shm -> Prop) (m : shm) : Prop := Z.odd (sequence m) = false /\ P m.

(** Inside the window: the counter is still at the value that was read. *)
Definition window (seq1 : Z) (m : shm) (P : Prop) : Prop :=
  Z.odd seq1 = false /\ seq1 <= sequence m /\ (sequence m = seq1 -> P).

(** None of the first [i] devices has the id. *)
Definition unmatched (m : shm) (id : Z) (i : nat) : Prop :=
  forall j, (j < i)%nat -> word m j DEVICE_ID <> u32 id.

(** The first words of a device. *)
Definition partial (m : shm) (i : nat) (got : list Z) : Prop :=
  got = word m i <$> seq 0 (length got) /\ (length got < DEVICE_WORDS)%nat.

Definition knows (q : query) (l : list action) (m : shm) (r : reader) : Prop :=
  match r with
  | RIdle | ROut => False
  | RSequence q' _ seq2 n => q' = q /\ (q = GetDeviceCount -> seq2 = 0 \/ seen l (fun m => n = device_count m))
  | RScan id seq1 i => q = ReadDeviceData id /\
      window seq1 m ((i <= device_count m)%nat /\ unmatched m id i)
  | RMatch id seq1 i => q = ReadDeviceData id /\ (i < MAX_MONITOR_DEVICES)%nat /\
      window seq1 m ((i < device_count m)%nat /\ unmatched m id i)
  | RDevice id seq1 i got => q = ReadDeviceData id /\ (length got < DEVICE_WORDS)%nat /\
      window seq1 m ((i < device_count m)%nat /\ unmatched m id i /\ word m i DEVICE_ID = u32 id /\
        got = word m i <$> seq 0 (length got))
  | RCount seq1 n => q = GetAllDevices n /\ window seq1 m True
  | RAll seq1 n count done got => q = GetAllDevices n /\
      (length done < count <= MAX_MONITOR_DEVICES)%nat /\
      (length got < DEVICE_WORDS)%nat /\
      window seq1 m ((count <= device_count m)%nat /\ done = view m <$> seq 0 (length done) /\
        got = word m (length done) <$> seq 0 (length got) /\
        seen l (stable (fun m1 => count = (device_count m1 `min` n)%nat /\ kept m1 m)))
  | RCountOnly seq1 => q = GetDeviceCount /\ window seq1 m True
  | RCheck q' seq1 res => q' = q /\ window seq1 m (seen l (stable (agrees q res))) /\
      (q = GetDeviceCount -> exists n, res = Count n /\ seen l (fun m => n = device_count m))
  | RDone res => res = Failed \/
      seen l (fun m => (Z.odd (sequence m) = false \/ q = GetDeviceCount) /\ agrees q res m)
  end.

Lemma window_step seq1 m m' (P P' : Prop) :
  window seq1 m P -> (sequence m' = sequence m \/ sequence m' = sequence m + 1) ->
  (sequence m' = sequence m -> Z.odd (sequence m) = false -> kept m m') ->
  (kept m m' -> P -> P') -> window seq1 m' P'.
Proof.
  intros (H1 & H2 & H3) Hs Hk HP. split; [done|]. split; [lia|]. intros E.
  assert (sequence m = seq1) as Em by lia. apply HP; [|by apply H3].
  apply Hk; [lia|by rewrite Em].
Qed.

Lemma kept_view m m' i : kept m m' -> (i < device_count m)%nat -> view m' i = view m i.
Proof. intros [_ H] Hi. unfold view. apply list_fmap_ext. intros k w _. by apply H. Qed.

Lemma kept_views m m' n : kept m m' -> (n <= device_count m)%nat -> view m' <$> seq 0 n = view m <$> seq 0 n.
Proof.
  intros H Hn. apply list_fmap_ext. intros k i Hk%lookup_seq. apply kept_view; [done|lia].
Qed.

Lemma kept_words m m' i n :
  kept m m' -> (i < device_count m)%nat -> word m' i <$> seq 0 n = word m i <$> seq 0 n.
Proof. intros [_ H] Hi. apply list_fmap_ext. intros k w _. by apply H. Qed.

Lemma kept_unmatched m m' id i :
  kept m m' -> (i <= device_count m)%nat -> unmatched m id i -> unmatched m' id i.
Proof. intros [_ H] Hi Hu j Hj. rewrite H by lia. by apply Hu. Qed.

(** An action of another process leaves what the reader knows. *)
Lemma knows_step q l a m m' r :
  (sequence m' = sequence m \/ sequence m' = sequence m + 1) ->
  (sequence m' = sequence m -> Z.odd (sequence m) = false -> kept m m') ->
  knows q l m r -> knows q (l ++ [a]) m' r.
Proof.
  intros Hs Hk H. destruct r; cbn [knows] in *; try done.
  - destruct H as [? H]. split; [done|]. intros E. destruct (H E); [by left|right]. by apply seen_snoc.
  - destruct H as [? H]. split; [done|]. eapply window_step; [exact H|done|done|].
    intros K [A1 A2]. split; [destruct K; lia|by eapply kept_unmatched].
  - destruct H as (? & ? & H). do 2 (split; [done|]). eapply window_step; [exact H|done|done|].
    intros K [A1 A2]. split; [destruct K; lia|eapply kept_unmatched; [done|lia|done]].
  - destruct H as (? & ? & H). split; [done|]. split; [done|]. eapply window_step; [exact H|done|done|].
    intros K (A1 & A2 & A3 & A4). split; [destruct K; lia|]. split; [eapply kept_unmatched; [done|lia|done]|].
    split; [by rewrite (proj2 K)|]. by rewrite (kept_words m m').
  - destruct H as [? H]. split; [done|]. by eapply window_step.
  - destruct H as (? & ? & ? & H). do 3 (split; [done|]). eapply window_step; [exact H|done|done|].
    intros K (A1 & A2 & A3 & A4). split; [destruct K; lia|]. split; [rewrite (kept_views m m'); [done|done|lia]|].
    split; [rewrite (kept_words m m'); [done|done|lia]|]. apply seen_snoc.
    eapply seen_impl; [exact A4|]. intros m1 (Ho & Hc & K1). split; [done|]. split; [done|].
    by apply kept_trans with m.
  - destruct H as [? H]. split; [done|]. by eapply window_step.
  - destruct H as (? & H & Hc). split; [done|]. split.
    + eapply window_step; [exact H|done|done|]. intros _. apply seen_snoc.
    + intros E. destruct (Hc E) as (n & ? & Hn). exists n. split; [done|]. by apply seen_snoc.
  - destruct H as [->|H]; [by left|right]. by apply seen_snoc.
Qed.

(** *** The steps of the reader itself *)

Lemma partial_next m i got :
  got = word m i <$> seq 0 (length got) ->
  got ++ [word m i (length got)] = word m i <$> seq 0 (length (got ++ [word m i (length got)])).
Proof.
  intros E. rewrite length_app. cbn [length]. rewrite Nat.add_1_r, seq_S, fmap_app. cbn. by rewrite <- E.
Qed.

Lemma views_next m (done : list (list Z)) got :
  done = view m <$> seq 0 (length done) -> got = view m (length done) ->
  done ++ [got] = view m <$> seq 0 (length (done ++ [got])).
Proof.
  intros E ->. rewrite length_app. cbn [length]. rewrite Nat.add_1_r, seq_S, fmap_app. cbn. by rewrite <- E.
Qed.

Lemma window_open m (P : Prop) : Z.odd (sequence m) = false -> P -> window (sequence m) m P.
Proof. intros H1 H2. split; [done|]. split; [lia|done]. Qed.

Lemma window_impl seq1 m (P Q : Prop) : window seq1 m P -> (sequence m = seq1 -> P -> Q) -> window seq1 m Q.
Proof. intros (H1 & H2 & H3) H. split; [done|]. split; [done|]. intros E. by apply H, H3. Qed.

(** The window has been open at the moment of a step in it. *)
Lemma window_stable seq1 m (P : shm -> Prop) (Q : Prop) :
  window seq1 m Q -> sequence m = seq1 -> P m -> stable P m.
Proof. intros (H1 & _ & _) <- H. by split. Qed.

Lemma read_after_sequence q l m :
  Z.odd (sequence m) = false -> knows q l m (after_sequence q (sequence m)).
Proof.
  intros Ho. destruct q; cbn; (split; [done|]); apply window_open; try done.
  split; [lia|]. intros j Hj. lia.
Qed.

(** Copying goes on, or all devices are copied. *)
Lemma knows_copy_all n l m seq1 count done :
  (length done <= count <= MAX_MONITOR_DEVICES)%nat ->
  window seq1 m ((count <= device_count m)%nat /\ done = view m <$> seq 0 (length done) /\
    seen l (stable (fun m1 => count = (device_count m1 `min` n)%nat /\ kept m1 m))) ->
  knows (GetAllDevices n) l m (copy_all seq1 n count done []).
Proof.
  intros Hl H. unfold copy_all. destruct (Nat.eqb_spec (length done) count) as [E|E]; cbn [knows].
  - split; [done|]. split; [|by intros].
    eapply window_impl; [exact H|]. intros _ (A1 & A2 & A3). eapply seen_impl; [exact A3|].
    intros m1 (B1 & B2 & B3). split; [done|]. cbn. rewrite A2, E, B2.
    apply kept_views; [done|lia].
  - split; [done|]. split; [lia|]. split; [cbn; unfold DEVICE_WORDS; lia|].
    eapply window_impl; [exact H|]. intros _ (A1 & A2 & A3). done.
Qed.

(** The reader looks for a device. *)
Lemma knows_scan id seq1 i l s r' :
  acts l s0 = Some s -> (device_count (mem s) <= MAX_MONITOR_DEVICES)%nat ->
  knows (ReadDeviceData id) l (mem s) (RScan id seq1 i) ->
  read (RScan id seq1 i) (mem s) = Some r' -> knows (ReadDeviceData id) l (mem s) r'.
Proof.
  intros Hl Hm [_ K] E. injection E as <-.
  destruct (Nat.ltb_spec i (device_count (mem s))) as [Hi|Hi]; cbn [knows]; (split; [done|]).
  - split; [lia|]. eapply window_impl; [exact K|]. intros _ [A1 A2]. done.
  - split; [|by intros]. eapply window_impl; [exact K|]. intros Eq [A1 A2].
    apply seen_now with s; [done|]. eapply window_stable; [exact K|done|].
    cbn [agrees]. intros j Hj. apply A2. lia.
Qed.

Lemma knows_match id seq1 i l m r' :
  knows (ReadDeviceData id) l m (RMatch id seq1 i) ->
  read (RMatch id seq1 i) m = Some r' -> knows (ReadDeviceData id) l m r'.
Proof.
  intros (_ & Hi & K) E. cbn [read] in E. rewrite (proj2 (Nat.ltb_lt _ _)) in E by done.
  injection E as <-.
  destruct (Z.eqb_spec (word m i DEVICE_ID) (u32 id)) as [Ei|Ei]; cbn [knows]; (split; [done|]).
  - split; [unfold DEVICE_WORDS; cbn; lia|]. eapply window_impl; [exact K|].
    intros _ [A1 A2]. done.
  - eapply window_impl; [exact K|]. intros _ [A1 A2]. split; [lia|].
    intros j Hj. destruct (decide (j = i)) as [->|]; [done|]. apply A2. lia.
Qed.

(** It copies the device it has found. *)
Lemma knows_device id seq1 i got l s r' :
  acts l s0 = Some s -> knows (ReadDeviceData id) l (mem s) (RDevice id seq1 i got) ->
  read (RDevice id seq1 i got) (mem s) = Some r' -> knows (ReadDeviceData id) l (mem s) r'.
Proof.
  intros Hl (_ & Hlen & K) E. injection E as <-. set (g := got ++ _).
  assert (length g = S (length got)) as Hg by (unfold g; rewrite length_app; cbn; lia).
  destruct (Nat.eqb_spec (length g) DEVICE_WORDS) as [El|El]; cbn [knows]; (split; [done|]).
  - split; [|by intros]. eapply window_impl; [exact K|]. intros Eq (A1 & A2 & A3 & A4).
    apply seen_now with s; [done|]. eapply window_stable; [exact K|done|]. cbn [agrees].
    exists i. split; [done|]. split; [|done]. unfold view. rewrite <- El. by apply partial_next.
  - split; [lia|]. eapply window_impl; [exact K|].
    intros Eq (A1 & A2 & A3 & A4). do 3 (split; [done|]). by apply partial_next.
Qed.

(** It copies one device after another. *)
Lemma knows_all n seq1 count done got l m r' :
  knows (GetAllDevices n) l m (RAll seq1 n count done got) ->
  read (RAll seq1 n count done got) m = Some r' -> knows (GetAllDevices n) l m r'.
Proof.
  intros (_ & Hd & Hlen & K) E. cbn [read] in E. rewrite (proj2 (Nat.leb_gt _ _)) in E by lia.
  injection E as <-. set (g := got ++ _).
  assert (length g = S (length got)) as Hg by (unfold g; rewrite length_app; cbn; lia).
  destruct (Nat.eqb_spec (length g) DEVICE_WORDS) as [El|El]; cbn [knows].
  - apply knows_copy_all; [rewrite length_app; cbn; lia|]. eapply window_impl; [exact K|].
    intros Eq (A1 & A2 & A3 & A4). split; [done|]. split; [|done]. apply views_next; [done|].
    unfold view. rewrite <- El. by apply partial_next.
  - do 3 (split; [done || lia|]). eapply window_impl; [exact K|].
    intros Eq (A1 & A2 & A3 & A4). do 2 (split; [done|]). split; [by apply partial_next|done].
Qed.

(** It compares the counter with the first load. *)
Lemma knows_check q seq1 res l m r' :
  knows q l m (RCheck q seq1 res) -> read (RCheck q seq1 res) m = Some r' -> knows q l m r'.
Proof.
  intros (_ & K & Kc) E. injection E as <-.
  destruct (Z.eqb_spec seq1 (sequence m)) as [Eq|Eq]; cbn [knows].
  - right. destruct K as (A1 & A2 & A3). eapply seen_impl; [by apply A3|].
    intros m1 [B1 B2]. split; [by left|done].
  - split; [done|]. intros ->. right. by destruct (Kc eq_refl) as (n & -> & Hn).
Qed.

Lemma knows_sequence q retries seq2 n l m r' :
  knows q l m (RSequence q retries seq2 n) -> read (RSequence q retries seq2 n) m = Some r' ->
  knows q l m r'.
Proof.
  intros [_ K] E. injection E as <-.
  destruct (Z.odd (sequence m)) eqn:Eo; [|by apply read_after_sequence].
  destruct (MAX_SEQLOCK_RETRIES <? retries + 1); [by left|].
  destruct (continues q (sequence m) seq2) eqn:Ec; [done|].
  destruct q; try done. cbn in Ec. apply negb_false_iff, Z.eqb_eq in Ec. cbn [knows].
  destruct (K eq_refl) as [E0|Hn]; [by rewrite Ec, E0 in Eo|].
  right. eapply seen_impl; [exact Hn|]. intros m1 Hm. split; [by right|done].
Qed.

Lemma knows_read q l s r r' :
  acts l s0 = Some s -> (device_count (mem s) <= MAX_MONITOR_DEVICES)%nat ->
  knows q l (mem s) r -> read r (mem s) = Some r' -> knows q l (mem s) r'.
Proof.
  intros Hl Hm K E. destruct r; try done.
  - pose proof (proj1 K) as ->. by eapply knows_sequence.
  - pose proof (proj1 K) as ->. by eapply knows_scan.
  - pose proof (proj1 K) as ->. by eapply knows_match.
  - pose proof (proj1 K) as ->. by eapply knows_device.
  - pose proof (proj1 K) as ->. destruct K as [_ K]. injection E as <-.
    apply knows_copy_all; [cbn [length]; lia|]. eapply window_impl; [exact K|].
    intros Eq _. split; [lia|]. split; [done|]. apply seen_now with s; [done|].
    eapply window_stable; [exact K|done|]. done.
  - pose proof (proj1 K) as ->. by eapply knows_all.
  - pose proof (proj1 K) as ->. destruct K as [_ K]. injection E as <-. cbn [knows]. split; [done|]. split.
    + eapply window_impl; [exact K|]. intros Eq _. apply seen_now with s; [done|]. by eapply window_stable.
    + intros _. eexists. split; [done|]. by apply seen_now with s.
  - pose proof (proj1 K) as ->. by eapply knows_check.
Qed.
End Run.

Lemma shm_acts_app l1 l2 s : acts (l1 ++ l2) s = (s1 ← acts l1 s; acts l2 s1).
Proof.
  revert s. induction l1 as [|a l1 IH]; intros s; [done|]. cbn. destruct (act a s); [apply IH|done].
Qed.

Lemma one_by_one_app l1 l2 s s1 :
  acts l1 s = Some s1 -> one_by_one (l1 ++ l2) s -> one_by_one l1 s /\ one_by_one l2 s1.
Proof.
  revert s. induction l1 as [|a l1 IH]; intros s; cbn; [by intros [= ->]|].
  destruct (act a s) as [s2|]; [|done]. cbn. intros E [H1 H2]. by destruct (IH s2 E H2).
Qed.

(** One thread can only call one after the other. *)
Lemma act_one_thread a s s' : act a s = Some s' -> length (writers s') = length (writers s).
Proof.
  destruct a as [t c z|t z|t|r q|r| |pid alive]; cbn [act].
  - destruct (writers s !! t) as [[]|]; try done. intros [= <-]. cbn. apply length_insert.
  - destruct (writers s !! t) as [[]|]; try done. intros [= <-]. cbn. apply length_insert.
  - destruct (writers s !! t) as [w|]; [|done]. cbn. destruct (write w (mem s)) as [[w' m]|]; [|done].
    intros [= <-]. destruct w'; cbn; rewrite ?length_fmap; apply length_insert.
  - destruct (readers s !! r) as [[]|]; try done; by intros [= <-].
  - destruct (readers s !! r) as [x|]; [|done]. cbn. destruct (read x (mem s)); [|done]. by intros [= <-].
  - intros [= <-]. cbn. apply length_fmap.
  - destruct (forallb _ _); [|done]. intros [= <-]. cbn. apply length_fmap.
Qed.

Lemma one_thread_one_by_one l : forall s, (length (writers s) <= 1)%nat -> one_by_one l s.
Proof.
  induction l as [|a l IH]; intros s Hl; [done|]. cbn. destruct (act a s) as [s'|] eqn:E; [|done].
  split; [|apply IH; by rewrite (act_one_thread _ _ _ E)].
  destruct a as [t c z|t z| | | | |]; try done; cbn in E |- *;
    destruct (writers s) as [|w [|]]; cbn in *; try lia; try done; destruct t; cbn in E; try done; by destruct w.
Qed.

(** The action is not a takeover of the segment, nor a new query of reader [r]. *)
Definition during (r : nat) (a : action) : Prop :=
  no_initialize a /\ match a with AQuery r' _ => r' <> r | _ => True end.

Lemma act_reader r a s s' x :
  during r a -> act a s = Some s' -> readers s !! r = Some x ->
  readers s' !! r = Some x \/
  (mem s' = mem s /\ exists x', read x (mem s) = Some x' /\ readers s' !! r = Some x').
Proof.
  intros [Hi Hd] E Hx. destruct a as [t c z|t z|t|r' q|r'| |pid alive]; cbn [act] in E; try done.
  1,2: destruct (writers s !! t) as [[]|]; try done; injection E as <-; by left.
  - destruct (writers s !! t) as [w|]; [|done]. cbn in E. destruct (write _ _) as [[w' m]|]; [|done].
    injection E as <-. by left.
  - destruct (readers s !! r') as [[]|]; try done; injection E as <-; left; cbn; by rewrite list_lookup_insert_ne.
  - destruct (decide (r' = r)) as [->|Hr].
    + rewrite Hx in E. cbn in E. destruct (read x (mem s)) as [x'|] eqn:Ex; [|done]. injection E as <-.
      right. split; [done|]. exists x'. split; [done|]. cbn. apply list_lookup_insert_eq.
      by eapply lookup_lt_Some.
    + destruct (readers s !! r') as [y|]; [|done]. cbn in E. destruct (read y (mem s)); [|done].
      injection E as <-. left. cbn. by rewrite list_lookup_insert_ne.
  - injection E as <-. by left.
Qed.

(** What the reader knows along a run. *)
Lemma knows_run s0 q r l : forall s,
  acts (AQuery r q :: l) s0 = Some s -> Forall (during r) l -> one_by_one (AQuery r q :: l) s0 ->
  healthy s0 -> 0 <= sequence (mem s0) -> sequence (mem s0) + Z.of_nat (length l) < 2 ^ 64 - 1 ->
  (healthy s /\ sequence (mem s0) <= sequence (mem s) <= sequence (mem s0) + Z.of_nat (length l)) /\
  exists x, readers s !! r = Some x /\ knows s0 q (AQuery r q :: l) (mem s) x.
Proof.
  induction l as [|a l IH] using rev_ind; intros s E Hl Ho Hh H0 Hb.
  - cbn in E. destruct (readers s0 !! r) as [x|] eqn:Hx; [|done].
    assert (s = mkState (mem s0) (writers s0) (<[r := RSequence q 0 0 0]> (readers s0))) as ->
      by (destruct x; try done; by injection E as <-).
    split; [split; [done|cbn; lia]|]. exists (RSequence q 0 0 0). cbn.
    split; [apply list_lookup_insert_eq; by eapply lookup_lt_Some|]. split; [done|]. by left.
  - rewrite app_comm_cons, shm_acts_app in E. destruct (acts _ s0) as [s1|] eqn:E1; [|done].
    rewrite app_comm_cons in Ho. destruct (one_by_one_app _ _ _ _ E1 Ho) as [Ho1 Hoa].
    cbn [one_by_one mbind option_bind acts] in E, Hoa.
    destruct (act a s1) as [s2|] eqn:E2; [|done]. injection E as <-. destruct Hoa as [Hoa _].
    rewrite length_app in *. cbn [length] in *. apply Forall_app in Hl as [Hl [Ha _]%Forall_cons].
    destruct (IH s1 eq_refl Hl Ho1 Hh H0) as [[Hh1 Hs1] (x & Hx & K)]; [lia|].
    destruct (act_window a s1 s2 (proj1 Ha) E2 Hoa Hh1) as (A1 & A2 & A3); [lia|].
    split; [split; [done|lia]|]. rewrite app_comm_cons.
    destruct (act_reader r a s1 s2 x Ha E2 Hx) as [H|(Em & x' & Ex & H)].
    + exists x. split; [done|]. by apply knows_step with (mem s1).
    + exists x'. split; [done|]. apply knows_step with (mem s1); [done..|].
      eapply knows_read; [done|apply Hh1|done|done].
Qed.

(** A run of [k] steps of reader [r]. *)
Definition alone (r k : nat) : list action := replicate k (ARead r).

(** The states a reader is in when nobody writes during its call. *)
Definition undisturbed (x : reader) (m : shm) : Prop :=
  if Z.odd (sequence m) then
    match x with RSequence _ _ z2 _ => z2 <> sequence m | RDone r => r = Failed | _ => False end
  else
    match x with
    | RIdle | ROut => False
    | RSequence _ _ _ _ => True
    | RScan _ z _ | RCount z _ | RCountOnly z => z = sequence m
    | RMatch _ z i => z = sequence m /\ (i < device_count m)%nat
    | RDevice _ z _ got => z = sequence m /\ (length got < DEVICE_WORDS)%nat
    | RAll z _ count done got =>
        z = sequence m /\ (count <= device_count m)%nat /\ (length done < count)%nat /\
        (length got < DEVICE_WORDS)%nat
    | RCheck _ z r => z = sequence m /\ r <> Failed
    | RDone r => r <> Failed
    end.

(** How many steps it still makes at most. *)
Definition remaining (x : reader) (m : shm) : nat :=
  match x with
  | RIdle | RDone _ | ROut => 0
  | RSequence _ n _ _ => if Z.odd (sequence m) then 1 + Z.to_nat (MAX_SEQLOCK_RETRIES - n)
                         else 105 + 102 * device_count m
  | RScan _ _ i => 103 + 2 * (device_count m - i)
  | RMatch _ _ i => 102 + 2 * (device_count m - i)
  | RDevice _ _ _ got => 101 - length got
  | RCount _ _ => 3 + 100 * device_count m
  | RAll _ _ count done got => 2 + 100 * (count - length done) - length got
  | RCountOnly _ => 2
  | RCheck _ _ _ => 1
  end.

Lemma remaining_copy_all z n count done m :
  Z.odd (sequence m) = false -> z = sequence m -> (count <= device_count m)%nat -> (length done <= count)%nat ->
  undisturbed (copy_all z n count done []) m /\
  (remaining (copy_all z n count done []) m <= 2 + 100 * (count - length done))%nat.
Proof.
  intros Eo Hz Hc Hd. unfold copy_all, undisturbed. rewrite Eo.
  destruct (Nat.eqb_spec (length done) count); cbn; [by split; [|lia]|].
  unfold DEVICE_WORDS. split; [|lia]. repeat split; [done|lia..].
Qed.

(** An undisturbed step makes progress: a writer is in the middle of a call, ... *)
Lemma progress_odd x m :
  Z.odd (sequence m) = true -> undisturbed x m -> (forall r, x <> RDone r) ->
  exists x', read x m = Some x' /\ undisturbed x' m /\ (remaining x' m < remaining x m)%nat.
Proof.
  unfold undisturbed. intros Eo Hu Hd. rewrite Eo in *.
  destruct x as [|q n z2 c| | | | | | | |r|]; try done; [|by destruct (Hd r)].
  cbn [read remaining]. rewrite Eo. eexists. split; [done|].
  destruct (Z.ltb_spec MAX_SEQLOCK_RETRIES (n + 1)); [cbn; split; [done|lia]|].
  destruct (continues q _ z2) eqn:Ec; cbn [remaining]; [rewrite Eo; split; [done|lia]|].
  destruct q; try done. cbn in Ec. apply negb_false_iff, Z.eqb_eq in Ec. by destruct Hu.
Qed.

(** ... or not. *)
Lemma progress_even x m :
  (device_count m <= MAX_MONITOR_DEVICES)%nat ->
  Z.odd (sequence m) = false -> undisturbed x m -> (forall r, x <> RDone r) ->
  exists x', read x m = Some x' /\ undisturbed x' m /\ (remaining x' m < remaining x m)%nat.
Proof.
  intros Hm Eo Hu Hd. pose proof (remaining_copy_all (sequence m)) as Hcopy.
  unfold undisturbed in *. rewrite Eo in *.
  destruct x as [|q n z2 c|id z i|id z i|id z i got|z n|z n count ds got|z|q z r|r|];
    [done|..|by destruct (Hd r)|done]; cbn [read];
    try rewrite (proj2 (Nat.ltb_lt i MAX_MONITOR_DEVICES)) by (destruct Hu; lia);
    try rewrite (proj2 (Nat.leb_gt MAX_MONITOR_DEVICES (length ds))) by (destruct Hu as (? & ? & ? & ?); lia);
    (eexists; split; [done|]).
  - cbn [remaining]. rewrite Eo. destruct q; cbn; (split; [done|lia]).
  - destruct (Nat.ltb_spec i (device_count m)); cbn; (split; [done|lia]).
  - destruct (word m i DEVICE_ID =? u32 id); cbn [remaining length].
    + split; [split; [by destruct Hu|unfold DEVICE_WORDS; lia]|lia].
    + split; [by destruct Hu|]. lia.
  - destruct Hu as [-> Hl]. rewrite length_app. cbn [length].
    destruct (Nat.eqb_spec (length got + 1) DEVICE_WORDS); cbn [remaining].
    + unfold DEVICE_WORDS in *. split; [done|lia].
    + rewrite length_app. cbn [length]. unfold DEVICE_WORDS in *. split; [split; [done|lia]|lia].
  - subst z. destruct (Hcopy n (device_count m `min` n)%nat [] m) as [A B]; [done..|lia|cbn; lia|].
    rewrite Eo in A. split; [done|]. cbn [length] in B. cbn [remaining]. lia.
  - destruct Hu as (-> & Hc & Hn & Hl). rewrite length_app. cbn [length].
    destruct (Nat.eqb_spec (length got + 1) DEVICE_WORDS) as [E|E].
    + set (g := got ++ _). destruct (Hcopy n count (ds ++ [g]) m) as [A B];
        [done..|rewrite length_app; cbn; lia|]. rewrite Eo in A. split; [done|].
      rewrite length_app in B. cbn [length] in B. cbn [remaining]. unfold DEVICE_WORDS in E. lia.
    + cbn [remaining]. rewrite length_app. cbn [length]. unfold DEVICE_WORDS in *.
      split; [repeat split; lia|lia].
  - cbn. split; [done|lia].
  - destruct Hu as [Hz Hr]. cbn. rewrite Hz, Z.eqb_refl. cbn. split; [done|lia].
Qed.

Lemma alone_returns r n : forall s x,
  (device_count (mem s) <= MAX_MONITOR_DEVICES)%nat ->
  readers s !! r = Some x -> undisturbed x (mem s) -> (remaining x (mem s) <= n)%nat ->
  exists k s' res, (k <= n)%nat /\ acts (alone r k) s = Some s' /\ mem s' = mem s /\
    readers s' !! r = Some (RDone res) /\ undisturbed (RDone res) (mem s).
Proof.
  induction n as [n IH] using lt_wf_ind. intros s x Hm Hx Hu Hn.
  assert ({res | x = RDone res} + {forall r, x <> RDone r}) as [[res ->]|Hd]
    by (destruct x; try (by right); left; by eexists).
  { exists 0%nat, s, res. split; [lia|done]. }
  assert (exists x', read x (mem s) = Some x' /\ undisturbed x' (mem s) /\
    (remaining x' (mem s) < remaining x (mem s))%nat) as (x' & Ex & Hu' & Hlt)
    by (destruct (Z.odd (sequence (mem s))) eqn:Eo; [by apply progress_odd|by apply progress_even]).
  destruct (IH (remaining x' (mem s)) ltac:(lia) (mkState (mem s) (writers s) (<[r := x']> (readers s))) x')
    as (k & s' & res & Hk & Hs & H); [done| |done|cbn; lia|].
  { apply list_lookup_insert_eq. by eapply lookup_lt_Some. }
  exists (S k), s', res. split; [lia|]. split; [|done].
  change (alone r (S k)) with (ARead r :: alone r k). cbn [acts act]. rewrite Hx. cbn [mbind option_bind].
  by rewrite Ex.
Qed.

(** ** The properties *)

(** Readers do not write. *)
Definition reads (a : action) : Prop := match a with AQuery _ _ | ARead _ => True | _ => False end.

Lemma reads_mem l s s' : Forall reads l -> acts l s = Some s' -> mem s' = mem s.
Proof.
  revert s. induction l as [|a l IH]; intros s Hl E; [by injection E as <-|].
  apply Forall_cons in Hl as [Ha Hl]. cbn in E. destruct (act a s) as [s1|] eqn:E1; [|done].
  rewrite (IH _ Hl E). destruct a as [| | |r q|r| |]; try done; cbn in E1.
  - destruct (readers s !! r) as [[]|]; try done; by injection E1 as <-.
  - destruct (readers s !! r) as [x|]; [|done]. cbn in E1. destruct (read x (mem s)); [|done].
    by injection E1 as <-.
Qed.

(** C34. The answer of a reader ([ReadDeviceData], [GetAllDevices], [GetDeviceCount]) is
    the state of the devices at one instant of its call, at which no call of the writer
    was between [BeginWrite] and [EndWrite] ([GetDeviceCount] may answer with the count at
    an instant when one was), or [Failed]: whatever the calls of the writer, the crash of its
    process and its accesses in between, provided that no other process takes the segment over
    and that no two calls of the writer are under way at once ([one_by_one]).  The last condition
    always holds for one thread, as in the service; [SharedMemoryWriter] does not enforce it,
    and without a service several threads break it: [unlocked_writers_tear_reads]. *)
Theorem seqlock_snapshot s0 r q l s res :
  healthy s0 -> 0 <= sequence (mem s0) -> sequence (mem s0) + Z.of_nat (length l) < 2 ^ 64 - 1 ->
  acts (AQuery r q :: l) s0 = Some s -> Forall (during r) l ->
  (length (writers s0) <= 1)%nat \/ one_by_one (AQuery r q :: l) s0 ->
  readers s !! r = Some (RDone res) ->
  res = Failed \/
  exists l1 l2 s1, AQuery r q :: l = l1 ++ l2 /\ acts l1 s0 = Some s1 /\
    (Z.odd (sequence (mem s1)) = false \/ q = GetDeviceCount) /\ agrees q res (mem s1).
Proof.
  intros Hh H0 Hb E Hl Ho Hr. assert (one_by_one (AQuery r q :: l) s0) as Ho1
    by (destruct Ho; [by apply one_thread_one_by_one|done]).
  destruct (knows_run s0 q r l s E Hl Ho1 Hh H0 Hb) as (_ & x & Hx & K).
  rewrite Hr in Hx. injection Hx as <-. destruct K as [|(l1 & l2 & s1 & E1 & E2 & H)]; [by left|right].
  by exists l1, l2, s1.
Qed.

(** One device, two threads of the writer, and a reader. *)
Definition shm_state : state := Eval vm_compute in
  default (init 2 1) (acts ([AInitialize 5 false; ACall 0 (UpdateDeviceMemory 0 [8; 0] [0; 0] [8; 0]) 1] ++
                          replicate 18 (AWrite 0)) (init 2 1)).
(** A call of the other thread of the writer while the reader copies the device. *)
Definition disturbance : list action :=
  replicate 40 (ARead 0) ++ [ACall 1 (UpdateDeviceMemory 0 [8; 0] [6; 0] [2; 0]) 2] ++
  replicate 13 (AWrite 1) ++ replicate 168 (ARead 0).
Definition disturbed_state : state := Eval vm_compute in
  default (init 2 1) (acts (AQuery 0 (ReadDeviceData 0) :: disturbance) shm_state).
Definition read_device : list Z := Eval vm_compute in view (mem disturbed_state) 0.

Lemma shm_state_healthy : healthy shm_state.
Proof.
  split; [cbn; unfold MAX_MONITOR_DEVICES; lia|]. right. exists 0%nat, WIdle. split; [reflexivity|]. split; [reflexivity|].
  intros [|[|u]] v Hu; cbn; [lia|by intros [= <-]|done].
Qed.

Lemma seqlock_snapshot_witness :
  readers disturbed_state !! 0%nat = Some (RDone (Found (Some read_device))) /\
  (Found (Some read_device) = Failed \/
   exists l1 l2 s1, AQuery 0 (ReadDeviceData 0) :: disturbance = l1 ++ l2 /\ acts l1 shm_state = Some s1 /\
    (Z.odd (sequence (mem s1)) = false \/ ReadDeviceData 0 = GetDeviceCount) /\
    agrees (ReadDeviceData 0) (Found (Some read_device)) (mem s1)).
Proof.
  split; [reflexivity|]. apply (seqlock_snapshot shm_state 0 (ReadDeviceData 0) disturbance disturbed_state).
  - apply shm_state_healthy.
  - cbn. lia.
  - vm_compute. reflexivity.
  - vm_compute. reflexivity.
  - repeat constructor.
  - right. vm_compute. tauto.
  - reflexivity.
Defined.

Lemma reads_one_by_one l : forall s, Forall reads l -> one_by_one l s.
Proof.
  induction l as [|a l IH]; intros s Hl; [done|]. apply Forall_cons in Hl as [Ha Hl]. cbn.
  destruct (act a s); [|done]. split; [by destruct a|by apply IH].
Qed.

(** A reader that no store of the writer disturbs returns after finitely many steps:
    [false] when a write has begun and not ended (its writer may have crashed), after the
    1001 loads of the limit, and the devices of the segment otherwise. *)
Theorem reader_returns s r q :
  readers s !! r = Some RIdle -> healthy s -> 0 <= sequence (mem s) < 2 ^ 64 - 100000 ->
  (device_count (mem s) <= MAX_MONITOR_DEVICES)%nat ->
  exists k s' res, (k <= 3369)%nat /\ acts (AQuery r q :: alone r k) s = Some s' /\
    mem s' = mem s /\ readers s' !! r = Some (RDone res) /\
    if Z.odd (sequence (mem s)) then res = Failed else agrees q res (mem s).
Proof.
  intros Hr Hh Hs Hc. set (s1 := mkState (mem s) (writers s) (<[r := RSequence q 0 0 0]> (readers s))).
  assert (act (AQuery r q) s = Some s1) as E1 by (cbn; by rewrite Hr).
  destruct (alone_returns r 3369 s1 (RSequence q 0 0 0)) as (k & s' & res & Hk & Es & Em & Hd & Hu).
  - done.
  - cbn. apply list_lookup_insert_eq. by eapply lookup_lt_Some.
  - cbn [mem s1]. unfold undisturbed. destruct (Z.odd (sequence (mem s))) eqn:Eo; [|done]. intros E0. by rewrite <- E0 in Eo.
  - cbn [mem s1 remaining]. unfold MAX_MONITOR_DEVICES, MAX_SEQLOCK_RETRIES in *. destruct (Z.odd _); lia.
  - cbn [mem s1] in *. exists k, s', res. split; [done|]. split; [cbn [acts]; by rewrite E1|].
    split; [done|]. split; [done|]. unfold undisturbed in Hu. cbn [mem s1] in Hu.
    destruct (Z.odd (sequence (mem s))) eqn:Eo; [done|].
    assert (Forall reads (AQuery r q :: alone r k)) as HF
      by (constructor; [done|by apply Forall_replicate]).
    destruct (knows_run s q r (alone r k) s') as (_ & x & Hx & K).
    + cbn [acts]. by rewrite E1.
    + unfold alone. apply Forall_replicate. by split.
    + by apply reads_one_by_one.
    + done.
    + lia.
    + unfold alone. rewrite length_replicate. lia.
    + rewrite Hd in Hx. injection Hx as <-. destruct K as [->|(l1 & l2 & s2 & E2 & E3 & _ & H)]; [done|].
      rewrite <- (reads_mem l1 s s2); [done| |done].
      rewrite E2 in HF. by apply Forall_app in HF as [? _].
Qed.

Lemma reader_returns_witness :
  exists k s' res, (k <= 3369)%nat /\ acts (AQuery 0 (GetAllDevices 32) :: alone 0 k) shm_state = Some s' /\
    mem s' = mem shm_state /\ readers s' !! 0%nat = Some (RDone res) /\
    if Z.odd (sequence (mem shm_state)) then res = Failed
    else agrees (GetAllDevices 32) res (mem shm_state).
Proof.
  apply reader_returns; [reflexivity|apply shm_state_healthy|cbn; lia|cbn; unfold MAX_MONITOR_DEVICES; lia].
Defined.

(** The values of [UpdateDeviceMemory] add up. *)
Definition adds_up (a : action) : Prop :=
  match a with
  | ACall _ (UpdateDeviceMemory _ [t; 0] [u; 0] [f; 0]) _ => (t = u + f)%Z
  | ACall _ (UpdateDeviceMemory _ _ _ _) _ => False
  | _ => True
  end.

(** Thread [t] of the writer registers device 0 with 8 bytes of free memory. *)
Definition registered (t : nat) : list action :=
  [AInitialize 5 false; ACall t (UpdateDeviceMemory 0 [8; 0] [0; 0] [8; 0]) 1] ++ replicate 18 (AWrite t).

(** A write of device 0 is cut short by a crash; the new process takes the segment over as
    its predecessor's pid is in use; it writes while the counter is even. *)
Definition takeover : list action :=
  registered 0 ++ [ACall 0 (UpdateDeviceMemory 0 [8; 0] [1; 0] [7; 0]) 2] ++ replicate 3 (AWrite 0) ++
  [ACrash; AInitialize 6 true; ACall 0 (UpdateDeviceMemory 0 [8; 0] [6; 0] [2; 0]) 3] ++
  replicate 7 (AWrite 0) ++ [AQuery 0 (ReadDeviceData 0)] ++ alone 0 104.

(** The sequence lock does not survive a writer that dies between [BeginWrite] and
    [EndWrite] when [Initialize] reuses the segment ([kill(writer_pid, 0)] finds some
    process with that pid): the counter stays odd and from then on is even exactly while
    the writer stores.  There is a run in which every [UpdateDeviceMemory] has used + free =
    total and a reader returns, with success, total 8, used 6 and free 8. *)
Theorem takeover_tears_reads :
  exists l s d, acts l (init 1 1) = Some s /\ Forall adds_up l /\
    readers s !! 0%nat = Some (RDone (Found (Some d))) /\
    d !! MEMORY_TOTAL = Some 8 /\ d !! MEMORY_USED = Some 6 /\ d !! MEMORY_FREE = Some 8.
Proof.
  destruct (acts takeover (init 1 1)) as [s|] eqn:E; [|by vm_compute in E].
  vm_compute in E. injection E as <-. eexists takeover, _, _. split; [by vm_compute|].
  split; [by repeat constructor|]. split; [reflexivity|]. done.
Qed.

(** [addUsage] of a response thread calls [IncrementInferenceCount] while the monitor thread
    is between [BeginWrite] and [EndWrite]: its [BeginWrite] makes the counter even. *)
Definition two_writers : list action :=
  registered 0 ++ [ACall 0 (UpdateDeviceMemory 0 [8; 0] [6; 0] [2; 0]) 2] ++ replicate 7 (AWrite 0) ++
  [ACall 1 (IncrementInferenceCount 0) 2] ++ replicate 3 (AWrite 1) ++
  [AQuery 0 (ReadDeviceData 0)] ++ alone 0 104.

(** Nor does it survive two threads of one process, neither of which crashes: without a
    service the threads of [NoServiceLayer] call [SharedMemoryWriter] unlocked, and a reader
    returns, with success, total 8, used 6 and free 8. *)
Theorem unlocked_writers_tear_reads :
  exists l s d, acts (AInitialize 5 false :: l) (init 2 1) = Some s /\ Forall adds_up l /\
    Forall (fun a => a <> ACrash /\ no_initialize a) l /\
    readers s !! 0%nat = Some (RDone (Found (Some d))) /\
    d !! MEMORY_TOTAL = Some 8 /\ d !! MEMORY_USED = Some 6 /\ d !! MEMORY_FREE = Some 8.
Proof.
  destruct (acts two_writers (init 2 1)) as [s|] eqn:E; [|by vm_compute in E].
  vm_compute in E. injection E as <-. eexists (tail two_writers), _, _. split; [by vm_compute|].
  split; [by repeat constructor|]. split; [by repeat (constructor; [by split|])|].
  split; [reflexivity|]. done.
Qed.
