(* ===== verification/ModelParser.v ===== *)
(** * Model files of version 8

    [lib/parsers/v8_model_parser.cpp], [parser_common_util.cpp], [model_parser.cpp],
    [lib/model_parser_factory.cpp], [lib/model.cpp] and the tables of [lib/include/dxrt/model.h]:
    from the bytes of a file to the model the engine is built from.

    The JSON library is not part of the source: [Parse] is [Document::Parse] on a text,
    [None] for a parse error, and [json] a parsed value.  Its assertions (a member of what
    is no object, a number of another kind) and reads outside the file are [Undefined].  A
    text is read up to its first zero byte.  [char] is signed; the build with [USE_ORT] is
    modelled; memory that cannot be allocated is not. *)

From Stdlib Require Import ZArith Lia Ascii.
From stdpp Require Import strings.
From S2P Require Import Prelude TaskData Engine.

Module ModelParser.

(** ** Values and failures *)

(** A number is an integer or a [double]: then its [float], if it is in range. *)
Inductive json :=
| Null | Bool (b : bool) | Num (n : Z) | Dbl (f : option Z) | Str (s : string)
| Arr (l : list json) | Obj (l : list (string * json)).

Inductive failure :=
| FileTooSmall | NotDXNN | NotSupported | HeaderError | ConversionError | RmapError | InvalidPpu | InvalidShape
| StdException      (** thrown by the standard library *)
| ExitProcess       (** [exit(0)] of [GetDataSize_Datatype] *)
| Undefined.
Definition res (A : Type) : Type := (failure + A)%type.
#[export] Instance parser_ret : MRet res := fun A x => inr x.
#[export] Instance parser_bind : MBind res :=
  fun A B f x => match x with inl e => inl e | inr a => f a end.

Fixpoint fold_res {A B} (f : A -> B -> res A) (a : A) (l : list B) : res A :=
  match l with [] => mret a | b :: l => a' ← f a b; fold_res f a' l end.

Definition bytes := list Z.

(** [c_str()] *)
Fixpoint c_str (b : bytes) : bytes :=
  match b with [] => [] | c :: b => if c =? 0 then [] else c :: c_str b end.
Fixpoint c_string (s : string) : string :=
  match s with
  | EmptyString => EmptyString
  | String c s => if (N_of_ascii c =? 0)%N then EmptyString else String c (c_string s)
  end.

(** [n] bytes at [off]. *)
Definition read_at (buf : bytes) (off n : Z) : res bytes :=
  if (0 <=? off) && (off + n <=? Z.of_nat (length buf))
  then mret (take (Z.to_nat n) (drop (Z.to_nat off) buf)) else inl Undefined.

(** ** Members of an object *)

Definition members (v : json) : res (list (string * json)) :=
  match v with Obj l => mret l | _ => inl Undefined end.
Definition member (l : list (string * json)) (k : string) : option json :=
  snd <$> find (fun m => bool_decide (m.1 = k)) l.

(** [HasMember(k)] together with the test of the kind. *)
Definition get_str l k := match member l k with Some (Str s) => Some (c_string s) | _ => None end.
Definition is_int64 (n : Z) : bool := (- 2 ^ 63 <=? n) && (n <? 2 ^ 63).
Definition is_int (n : Z) : bool := (- 2 ^ 31 <=? n) && (n <? 2 ^ 31).
Definition get_int64 l k := match member l k with Some (Num n) => if is_int64 n then Some n else None | _ => None end.
Definition get_int l k := match member l k with Some (Num n) => if is_int n then Some n else None | _ => None end.
Definition get_bool l k := match member l k with Some (Bool b) => Some b | _ => None end.
Definition get_float l k := match member l k with Some (Dbl f) => f | _ => None end.
Definition get_obj l k := match member l k with Some (Obj o) => Some o | _ => None end.
Definition get_arr l k := match member l k with Some (Arr a) => Some a | _ => None end.

(** [GetInt64()] *)
Definition GetInt64 (v : json) : res Z :=
  match v with Num n => if is_int64 n then mret n else inl Undefined | _ => inl Undefined end.

(** ** [std::stoll], [std::stoi] *)

Definition is_space (c : ascii) : bool :=
  let n := Z.of_N (N_of_ascii c) in (n =? 32) || ((9 <=? n) && (n <=? 13)).
Definition digit (c : ascii) : option Z :=
  let n := Z.of_N (N_of_ascii c) in if (48 <=? n) && (n <=? 57) then Some (n - 48) else None.
Fixpoint skip_space (s : string) : string :=
  match s with String c s' => if is_space c then skip_space s' else s | _ => s end.
Fixpoint digits (acc : option Z) (s : string) : option Z :=
  match s with
  | String c s => match digit c with Some d => digits (Some (10 * default 0 acc + d)) s | None => acc end
  | EmptyString => acc
  end.
Definition stol (in_range : Z -> bool) (s : string) : res Z :=
  let s := skip_space s in
  let n := match s with
           | String "-" s => Z.opp <$> digits None s
           | String "+" s => digits None s
           | _ => digits None s
           end in
  match n with Some n => if in_range n then mret n else inl StdException | None => inl StdException end.
Definition stoll := stol is_int64.
Definition stoi := stol is_int.

(** ** The databases ([model.h]) *)

Record Models := mkModels {
  npu : string; name : string; str : bytes; buffer : bytes; offset : Z; size : Z
}.
Definition no_models : Models := mkModels "" "" [] [] 0 0.
Definition with_buffer (b : bytes) (m : Models) := mkModels (npu m) (name m) (str m) b (offset m) (size m).
Definition with_str (s : bytes) (m : Models) := mkModels (npu m) (name m) s (buffer m) (offset m) (size m).

Record BinaryInfoDatabase := mkBinary {
  cpu_models : list Models; graph_info : Models; rmap : list Models; weight : list Models;
  rmap_info : list Models; bitmatch_mask : list Models; ppu : list Models;
  dxnnFileFormatVersion : Z; compilerVersion : string; ppuType : Z
}.
Definition new_binary : BinaryInfoDatabase := mkBinary [] no_models [] [] [] [] [] 0 "" (-1).

Record Tensor := mkTensor { t_name : string; t_owner : string; t_users : list string }.
Record SubGraph := mkSubGraph {
  sg_name : string; sg_device : string; sg_inputs : list Tensor; sg_outputs : list Tensor;
  sg_head : bool; sg_tail : bool
}.
Record GraphInfoDatabase := mkGraph {
  use_offloading : bool; topoSort_order : list string; g_inputs : list string; g_outputs : list string;
  subgraphs : list SubGraph
}.
Definition new_graph : GraphInfoDatabase := mkGraph false [] [] [] [].

Record Memory := mkMemory { mem_name : string; mem_offset : Z; mem_size : Z; mem_type : Z }.
Definition no_memory : Memory := mkMemory "" 0 0 0.
Record ModelMemory := mkModelMemory {
  model_memory_size : Z; mm_rmap : Memory; mm_weight : Memory; mm_input : Memory; mm_output : Memory;
  mm_temp : Memory
}.
Definition no_model_memory : ModelMemory := mkModelMemory 0 no_memory no_memory no_memory no_memory no_memory.

(** [dtype] and [dtype_encoded] have no initial value: [None]. *)
Record TensorInfo := mkTensorInfo {
  ti_name : string; dtype : option Z; shape : list Z;
  name_encoded : string; dtype_encoded : option Z; shape_encoded : list Z;
  layout : Z; align_unit : Z; transpose : Z;
  scale : option Z; bias : option Z; use_quantization : bool;      (** [None]: 0.0 *)
  memory : Memory; elem_size : Z
}.

Record RegisterInfoDatabase := mkRegister {
  v_npu : string; v_rmap : string; v_rmap_info : string; v_opt_level : string;
  r_name : string; mode : string; mac : Z; r_size : Z;
  layer : Z; cmd : Z; op_mode : Z; checkpoints : list Z;
  model_memory : ModelMemory; inputs : list TensorInfo; outputs : list TensorInfo; ppu_type : Z
}.

Record ModelDataBase := mkData {
  deepx_graph : GraphInfoDatabase; deepx_binary : BinaryInfoDatabase; deepx_rmap : list RegisterInfoDatabase
}.

(** ** Names of kinds *)

Definition to_upper (c : ascii) : ascii :=
  let n := N_of_ascii c in if (97 <=? n)%N && (n <=? 122)%N then ascii_of_N (n - 32) else c.
Fixpoint ToUpperCopy (s : string) : string :=
  match s with String c s => String (to_upper c) (ToUpperCopy s) | EmptyString => EmptyString end.
Definition table (l : list (string * Z)) (s : string) : Z :=
  default 0 (snd <$> find (fun e => bool_decide (e.1 = ToUpperCopy s)) l).

Definition GetDataTypeNum : string -> Z :=
  table [("TYPE_NONE", 0); ("UINT8", 2); ("UINT16", 4); ("UINT32", 8); ("UINT64", 9);
         ("INT8", 3); ("INT16", 5); ("INT32", 6); ("INT64", 7); ("FLOAT32", 1)]%string.
Definition GetMemoryTypeNum : string -> Z :=
  table [("MEMORYTYPE_NONE", 0); ("DRAM", 1); ("ARGMAX", 2); ("PPU", 3)]%string.
Definition GetLayoutNum : string -> Z :=
  table [("LAYOUT_NONE", 0); ("PRE_FORMATTER", 1); ("PRE_IM2COL", 2); ("FORMATTED", 3); ("ALIGNED", 4);
         ("PPU_YOLO", 5); ("PPU_FD", 6); ("PPU_POSE", 7)]%string.
Definition GetTransposeNum : string -> Z :=
  table [("TRANSPOSE_NONE", 0); ("CHANNEL_FIRST_TO_LAST", 1); ("CHANNEL_LAST_TO_FIRST", 2)]%string.

Definition getElementSize (t : Z) : Z :=
  if bool_decide (t ∈ [2; 3; 0]) then 1 else if bool_decide (t ∈ [4; 5]) then 2
  else if bool_decide (t ∈ [8; 6; 1]) then 4 else if bool_decide (t ∈ [9; 7]) then 8 else 1.

(** ** [parser_common_util.cpp] *)

Definition parseInt64FromValue (v : json) : res Z :=
  match v with
  | Num n => mret (if is_int64 n then n else 0)
  | Str s => stoll (c_string s)
  | _ => mret 0
  end.

Definition parseStringArray (a : list json) : list string :=
  omap (fun v => match v with Str s => Some (c_string s) | _ => None end) a.

Definition parse_member (l : list (string * json)) (k : string) (d : Z) : res Z :=
  match member l k with Some v => parseInt64FromValue v | None => mret d end.

Definition parseModelsOffsetSize (o : list (string * json)) (m : Models) : res Models :=
  off ← parse_member o "offset" (offset m);
  n ← parse_member o "size" (size m);
  mret (mkModels (npu m) (name m) (str m) (buffer m) off n).

(** The bytes of a section; a negative size is a [std::length_error]. *)
Definition section (buf : bytes) (off n : Z) : res bytes :=
  if n <? 0 then inl StdException else if n =? 0 then mret [] else read_at buf off n.

Definition copyBinaryDataToModels (models : list Models) (buf : bytes) (off : Z) : res (list Models) :=
  mapM (fun m => b ← section buf (off + offset m) (size m); mret (with_buffer b m)) models.
Definition copyStringDataToModels (models : list Models) (buf : bytes) (off : Z) : res (list Models) :=
  mapM (fun m => b ← section buf (off + offset m) (size m); mret (with_str b m)) models.

Definition parseCpuModels (o : list (string * json)) (models : list Models) : res (list Models) :=
  fold_res (fun ms e =>
    v ← members e.2;
    m ← parseModelsOffsetSize v (mkModels "" (c_string e.1) [] [] 0 0);
    mret (ms ++ [m])) models o.

Definition GetUint64 (v : json) : res Z :=
  match v with Num n => if (0 <=? n) && (n <? 2 ^ 64) then mret n else inl Undefined | _ => inl Undefined end.

Definition MAX_CHECKPOINT_COUNT : nat := 3.
(** The checkpoints; those that the list lacks stay 0. *)
Definition parseCheckpoints (l : list json) : res (list Z) :=
  cs ← mapM (fun v => n ← GetUint64 v; mret (u32 n)) (take MAX_CHECKPOINT_COUNT l);
  mret (cs ++ replicate (MAX_CHECKPOINT_COUNT - length cs) 0).

Definition parseMemoryObject (o : list (string * json)) : Memory :=
  mkMemory (default "" (get_str o "name")) (default 0 (get_int64 o "offset"))
    (default 0 (get_int64 o "size")) (default 0 (GetMemoryTypeNum <$> get_str o "type")).

(** The total is an [int64_t]; [size * taskBufferCount] is unsigned. *)
Definition assignMemoryToModelMemory (m : Memory) (mm : ModelMemory) (taskBufferCount : Z) : ModelMemory :=
  let total := model_memory_size mm in
  let once := i64 (total + mem_size m) in
  let buffers := i64 (total + u64 (mem_size m * u64 taskBufferCount)) in
  if bool_decide (mem_name m = "RMAP")
  then mkModelMemory once m (mm_weight mm) (mm_input mm) (mm_output mm) (mm_temp mm)
  else if bool_decide (mem_name m = "WEIGHT")
  then mkModelMemory once (mm_rmap mm) m (mm_input mm) (mm_output mm) (mm_temp mm)
  else if bool_decide (mem_name m = "INPUT")
  then mkModelMemory buffers (mm_rmap mm) (mm_weight mm) m (mm_output mm) (mm_temp mm)
  else if bool_decide (mem_name m = "OUTPUT")
  then mkModelMemory buffers (mm_rmap mm) (mm_weight mm) (mm_input mm) m (mm_temp mm)
  else if bool_decide (mem_name m = "TEMP")
  then mkModelMemory once (mm_rmap mm) (mm_weight mm) (mm_input mm) (mm_output mm) m
  else mm.

Definition parseGraphInfoTensor (v : json) : res Tensor :=
  o ← members v;
  mret (mkTensor (default "" (get_str o "name")) (default "" (get_str o "owner"))
          (parseStringArray (default [] (get_arr o "users")))).
Definition parseTensorArray (a : list json) : res (list Tensor) := mapM parseGraphInfoTensor a.

(** ** [GetAlign] *)

(** [GetAlign(size)] and [GetAlign(size, align)] on a [uint64_t]. *)
Definition round_up (n a : Z) : Z := if n mod a =? 0 then n else u64 (n + a - n mod a).
Definition GetAlign1 (n : Z) : Z := if n <? 64 then round_up n 16 else round_up n 64.
Definition GetAlign (n align : Z) : Z := if align <=? 0 then GetAlign1 n else round_up n align.

(** ** [v8_model_parser.cpp] *)

Section V8.
Context (Parse : bytes -> option json).

Definition push_rmap (m : Models) (p : BinaryInfoDatabase) : BinaryInfoDatabase :=
  mkBinary (cpu_models p) (graph_info p) (rmap p ++ [m]) (weight p) (rmap_info p) (bitmatch_mask p) (ppu p)
    (dxnnFileFormatVersion p) (compilerVersion p) (ppuType p).
Definition push_weight (m : Models) (p : BinaryInfoDatabase) : BinaryInfoDatabase :=
  mkBinary (cpu_models p) (graph_info p) (rmap p) (weight p ++ [m]) (rmap_info p) (bitmatch_mask p) (ppu p)
    (dxnnFileFormatVersion p) (compilerVersion p) (ppuType p).
Definition push_rmap_info (m : Models) (p : BinaryInfoDatabase) : BinaryInfoDatabase :=
  mkBinary (cpu_models p) (graph_info p) (rmap p) (weight p) (rmap_info p ++ [m]) (bitmatch_mask p) (ppu p)
    (dxnnFileFormatVersion p) (compilerVersion p) (ppuType p).
Definition push_bitmatch (m : Models) (p : BinaryInfoDatabase) : BinaryInfoDatabase :=
  mkBinary (cpu_models p) (graph_info p) (rmap p) (weight p) (rmap_info p) (bitmatch_mask p ++ [m]) (ppu p)
    (dxnnFileFormatVersion p) (compilerVersion p) (ppuType p).
Definition push_ppu (m : Models) (p : BinaryInfoDatabase) : BinaryInfoDatabase :=
  mkBinary (cpu_models p) (graph_info p) (rmap p) (weight p) (rmap_info p) (bitmatch_mask p)
    (if 0 <? size m then ppu p ++ [m] else ppu p)
    (dxnnFileFormatVersion p) (compilerVersion p) (ppuType p).

(** One kind of binary of a task, if the object has it. *)
Definition parse_section (o : list (string * json)) (k : string) (m : Models)
    (push : Models -> BinaryInfoDatabase -> BinaryInfoDatabase) (p : BinaryInfoDatabase) : res BinaryInfoDatabase :=
  match get_obj o k with
  | Some s => m ← parseModelsOffsetSize s m; mret (push m p)
  | None => mret p
  end.

Definition parse_task (npuName : string) (p : BinaryInfoDatabase) (e : string * json) : res BinaryInfoDatabase :=
  o ← members e.2;
  let m := mkModels npuName (c_string e.1) [] [] 0 0 in
  p ← parse_section o "rmap" m push_rmap p;
  p ← parse_section o "weight" m push_weight p;
  p ← parse_section o "rmap_info" m push_rmap_info p;
  p ← parse_section o "bitmatch" m push_bitmatch p;
  parse_section o "ppu" m push_ppu p.

Definition parseCompiledDataForNpu (v : json) (npuName : string) (p : BinaryInfoDatabase) : res BinaryInfoDatabase :=
  o ← members v; fold_res (parse_task npuName) p o.

(** The version of the compiler and the PPU type, from the text of [compile_config]. *)
Definition parse_compile_config (buf : bytes) (off : Z) (o : list (string * json)) (p : BinaryInfoDatabase)
    : res BinaryInfoDatabase :=
  cc_offset ← parse_member o "offset" 0;
  cc_size ← parse_member o "size" 0;
  text ← section buf (cc_offset + off) cc_size;
  match Parse (c_str text) with
  | None => inl Undefined                     (** [HasMember] of a null document *)
  | Some d =>
      c ← members d;
      mret (mkBinary (cpu_models p) (graph_info p) (rmap p) (weight p) (rmap_info p) (bitmatch_mask p) (ppu p)
              (dxnnFileFormatVersion p) (default (compilerVersion p) (get_str c "compile_version"))
              (default (ppuType p) (get_obj c "ppu" ≫= fun o => get_int o "type")))
  end.

Definition set_cpu_models (l : list Models) (p : BinaryInfoDatabase) : BinaryInfoDatabase :=
  mkBinary l (graph_info p) (rmap p) (weight p) (rmap_info p) (bitmatch_mask p) (ppu p)
    (dxnnFileFormatVersion p) (compilerVersion p) (ppuType p).
Definition set_graph_info (m : Models) (p : BinaryInfoDatabase) : BinaryInfoDatabase :=
  mkBinary (cpu_models p) m (rmap p) (weight p) (rmap_info p) (bitmatch_mask p) (ppu p)
    (dxnnFileFormatVersion p) (compilerVersion p) (ppuType p).

Definition parseDataSection (o : list (string * json)) (p : BinaryInfoDatabase) (buf : bytes) (off : Z)
    : res BinaryInfoDatabase :=
  p ← match get_obj o "cpu_models" with
      | Some c => l ← parseCpuModels c (cpu_models p); mret (set_cpu_models l p)
      | None => mret p
      end;
  p ← match get_obj o "compile_config" with
      | Some c => parse_compile_config buf off c p
      | None => mret p
      end;
  p ← match get_obj o "graph_info" with
      | Some g => m ← parseModelsOffsetSize g (graph_info p); mret (set_graph_info m p)
      | None => mret p
      end;
  match get_obj o "compiled_data" with
  | Some c => fold_res (fun p e => parseCompiledDataForNpu e.2 (c_string e.1) p) p c
  | None => mret p
  end.

Definition SIZE_INFO : Z := 8192.
Definition DXNN : bytes := [68; 88; 78; 78].

(** The four bytes of the version, sign-extended. *)
Definition file_version (b : bytes) : Z :=
  let c i := swrap 8 (TaskData.byte_at b i) in
  Z.lor (Z.lor (c 4) (Z.shiftl (c 5) 8)) (Z.lor (Z.shiftl (c 6) 16) (Z.shiftl (c 7) 24)).

Definition set_version (v : Z) (p : BinaryInfoDatabase) : BinaryInfoDatabase :=
  mkBinary (cpu_models p) (graph_info p) (rmap p) (weight p) (rmap_info p) (bitmatch_mask p) (ppu p)
    v (compilerVersion p) (ppuType p).

(** The sections of the file, after the header was read into [p]. *)
Definition load_sections (p : BinaryInfoDatabase) (buf : bytes) (off : Z) : res BinaryInfoDatabase :=
  cpu ← copyBinaryDataToModels (cpu_models p) buf off;
  text ← section buf (off + offset (graph_info p)) (size (graph_info p));
  rm ← copyBinaryDataToModels (rmap p) buf off;
  w ← copyBinaryDataToModels (weight p) buf off;
  ri ← copyStringDataToModels (rmap_info p) buf off;
  bm ← copyBinaryDataToModels (bitmatch_mask p) buf off;
  pp ← copyBinaryDataToModels (ppu p) buf off;
  mret (mkBinary cpu (with_str text (graph_info p)) rm w ri bm pp
          (dxnnFileFormatVersion p) (compilerVersion p) (ppuType p)).

Definition loadBinaryInfo (p : BinaryInfoDatabase) (buf : bytes) : res BinaryInfoDatabase :=
  sign ← read_at buf 0 4;
  if negb (bool_decide (sign = DXNN)) then inl NotDXNN
  else
    _ ← read_at buf 4 4;
    let v := file_version buf in
    let p := set_version v p in
    if (v <? 6) || (8 <? v) then inl NotSupported
    else if negb (v =? 8) then inl NotSupported
    else
      header ← read_at buf 8 (SIZE_INFO - 8);
      match Parse (c_str header) with
      | None => inl HeaderError
      | Some d =>
          h ← members d;
          p ← match get_obj h "data" with
              | Some o => parseDataSection o p buf SIZE_INFO
              | None => mret p
              end;
          load_sections p buf SIZE_INFO
      end.

(** *** The graph *)

Definition parseSubGraph (v : json) : res SubGraph :=
  o ← members v;
  ins ← match get_arr o "inputs" with Some a => parseTensorArray a | None => mret [] end;
  outs ← match get_arr o "outputs" with Some a => parseTensorArray a | None => mret [] end;
  mret (mkSubGraph (default "" (get_str o "name")) (default "" (get_str o "device")) ins outs
          (default false (get_bool o "head")) (default false (get_bool o "tail"))).

(** Without a graph the function returns -1, which its caller ignores. *)
Definition loadGraphInfo (g : GraphInfoDatabase) (b : BinaryInfoDatabase) : res GraphInfoDatabase :=
  match Parse (c_str (str (graph_info b))) with
  | None => mret g
  | Some d =>
      o ← members d;
      let strings k d := match get_arr o k with Some a => parseStringArray a | None => d end in
      subs ← match get_arr o "graphs" with Some a => mapM parseSubGraph a | None => mret (subgraphs g) end;
      mret (mkGraph (default (use_offloading g) (get_bool o "offloading"))
              (strings "toposort_order" (topoSort_order g)) (strings "inputs" (g_inputs g))
              (strings "outputs" (g_outputs g)) subs)
  end%string.

(** *** The register maps *)

Definition int64s (a : list json) : list Z :=
  omap (fun v => match v with Num n => if is_int64 n then Some n else None | _ => None end) a.

Definition data_size (t : Z) : res Z :=
  match TaskData.GetDataSize_Datatype t with inr n => mret n | inl _ => inl ExitProcess end.

Definition parseTensorInfoFields (o : list (string * json)) : res TensorInfo :=
  let dt := GetDataTypeNum <$> get_str o "dtype" in
  es ← match dt with Some d => data_size d | None => mret 0 end;
  let sc := get_float o "scale" in
  let bi := if sc then get_float o "bias" else None in
  mret (mkTensorInfo (default "" (get_str o "name")) dt (int64s (default [] (get_arr o "shape")))
          (default "" (get_str o "name_encoded")) (GetDataTypeNum <$> get_str o "dtype_encoded")
          (int64s (default [] (get_arr o "shape_encoded")))
          (default 0 (GetLayoutNum <$> get_str o "layout")) (default 0 (get_int o "align_unit"))
          (default 0 (GetTransposeNum <$> get_str o "transpose"))
          sc bi (if bi then true else false)
          (default no_memory (parseMemoryObject <$> get_obj o "memory")) es).

(** The name, the shape and the data type of an output of the PPU. *)
Definition processPpuOutput (t : TensorInfo) : res TensorInfo :=
  n ← (if layout t =? 5 then mret "BBOX"%string else if layout t =? 6 then mret "FACE"%string
       else if layout t =? 7 then mret "POSE"%string else inl InvalidPpu);
  mret (mkTensorInfo n (Some (TaskData.BBOX + layout t - 5)) [1; -1] (name_encoded t) (dtype_encoded t)
          (shape_encoded t) (layout t) (align_unit t) (transpose t) (scale t) (bias t) (use_quantization t)
          (memory t) (elem_size t)).

(** The size of an element of the encoded tensor; its type may not be set. *)
Definition encoded_element (t : TensorInfo) : res Z :=
  match dtype_encoded t with Some d => mret (getElementSize d) | None => inl Undefined end.

Definition validateArgmaxOutputShape (o : list (string * json)) (t : TensorInfo) : res () :=
  match get_arr o "shape_encoded" with
  | None => mret ()
  | Some a =>
      d ← match a with v :: _ => GetInt64 v | [] => inl Undefined end;
      e ← encoded_element t;
      if i64 (d * e) =? mem_size (memory t) then mret () else inl InvalidShape
  end.

(** The product of the dimensions, the last one aligned: an [int64_t], which wraps. *)
Fixpoint aligned_product (a : list json) (align product : Z) : res Z :=
  match a with
  | [] => mret product
  | v :: a =>
      d ← GetInt64 v;
      let d := match a with [] => i64 (GetAlign (u64 d) align) | _ => d end in
      aligned_product a align (i64 (product * d))
  end.

Definition validateDefaultOutputShape (o : list (string * json)) (t : TensorInfo) : res () :=
  match get_arr o "shape_encoded" with
  | None => mret ()
  | Some a =>
      p ← aligned_product a (align_unit t) 1;
      e ← encoded_element t;
      if i64 (p * e) =? mem_size (memory t) then mret () else inl InvalidShape
  end.

Definition processOutputTensor (o : list (string * json)) (t : TensorInfo) : res TensorInfo :=
  if mem_type (memory t) =? TaskData.PPU then processPpuOutput t
  else if mem_type (memory t) =? TaskData.ARGMAX then _ ← validateArgmaxOutputShape o t; mret t
  else _ ← validateDefaultOutputShape o t; mret t.

Definition parse_input (v : json) : res TensorInfo := o ← members v; parseTensorInfoFields o.
Definition parse_output (v : json) : res TensorInfo :=
  o ← members v; t ← parseTensorInfoFields o; processOutputTensor o t.

(** The object format of the memory: offset and size only. *)
Definition memory_member (o : list (string * json)) (k : string) (d : Memory) : Memory :=
  match get_obj o k with
  | Some m => mkMemory "" (default 0 (get_int64 m "offset")) (default 0 (get_int64 m "size")) 0
  | None => d
  end.
Definition parseModelMemoryObject (o : list (string * json)) (mm : ModelMemory) : ModelMemory :=
  mkModelMemory (model_memory_size mm) (memory_member o "rmap" (mm_rmap mm))
    (memory_member o "weight" (mm_weight mm)) (memory_member o "input" (mm_input mm))
    (memory_member o "output" (mm_output mm)) (mm_temp mm).

Definition parse_memory_entry (taskBufferCount : Z) (mm : ModelMemory) (v : json) : res ModelMemory :=
  o ← members v;
  mret (match get_str o "name" with
        | Some _ => assignMemoryToModelMemory (parseMemoryObject o) mm taskBufferCount
        | None => mm
        end).

Definition parse_model_memory (d : list (string * json)) (taskBufferCount : Z) : res ModelMemory :=
  match get_obj d "model_memory" with
  | Some o => mret (parseModelMemoryObject o no_model_memory)
  | None =>
      match get_arr d "memory" with
      | Some a => fold_res (parse_memory_entry taskBufferCount) no_model_memory a
      | None => mret no_model_memory
      end
  end.

(** The counts: layer, cmd, the mode and the checkpoints. *)
Definition parse_counts (d : list (string * json)) : res (Z * Z * Z * list Z) :=
  match get_obj d "counts" with
  | None => mret (0, 0, 0, [0; 0; 0])
  | Some c =>
      cs ← match get_arr c "checkpoints" with
           | Some a => l ← parseCheckpoints a; mret (1, l)
           | None => mret (0, [0; 0; 0])
           end;
      mret (default 0 (get_int64 c "layer"), default 0 (get_int64 c "cmd"), cs.1, cs.2)
  end.

Definition parseSingleRmapInfo (d : list (string * json)) (taskBufferCount ppuType : Z)
    : res RegisterInfoDatabase :=
  let vers := default [] (get_obj d "version") in
  let ver k := default "" (get_str vers k) in
  c ← parse_counts d;
  mm ← parse_model_memory d taskBufferCount;
  ins ← match get_arr d "inputs" with Some a => mapM parse_input a | None => mret [] end;
  outs ← match get_arr d "outputs" with Some a => mapM parse_output a | None => mret [] end;
  mret (mkRegister (ver "npu") (ver "rmap") (ver "rmapInfo") (ver "opt_level")
          (default "" (get_str d "name")) (default "" (get_str d "mode"))
          (default 0 (get_obj d "npu" ≫= fun o => get_int64 o "mac"))
          (default 0 (get_int64 d "size")) (c.1.1.1) (c.1.1.2) (c.1.2) (c.2) mm ins outs ppuType)%string.

(** One register map after the other; the mode is that of the last one that has it. *)
Definition load_rmap (taskBufferCount ppuType : Z) (acc : list RegisterInfoDatabase * string) (m : Models)
    : res (list RegisterInfoDatabase * string) :=
  match Parse (c_str (str m)) with
  | None => inl RmapError
  | Some v =>
      d ← members v;
      r ← parseSingleRmapInfo d taskBufferCount ppuType;
      mret (acc.1 ++ [r], default acc.2 (get_str d "mode"))
  end.

Definition to_lower (c : ascii) : ascii :=
  let n := N_of_ascii c in if (65 <=? n)%N && (n <=? 90)%N then ascii_of_N (n + 32) else c.
Fixpoint lower (s : string) : string :=
  match s with String c s => String (to_lower c) (lower s) | EmptyString => EmptyString end.

Definition loadRmapInfo (l : list RegisterInfoDatabase) (b : BinaryInfoDatabase) (taskBufferCount : Z)
    : res (list RegisterInfoDatabase * string) :=
  r ← fold_res (load_rmap taskBufferCount (ppuType b)) (l, ""%string) (rmap_info b);
  mret (r.1, lower r.2).

(** *** [IModelParser::ParseModel] and the factory *)

Definition ParseModel (buf : bytes) (taskBufferCount : Z) : res (ModelDataBase * string) :=
  b ← loadBinaryInfo new_binary buf;
  g ← loadGraphInfo new_graph b;
  r ← loadRmapInfo [] b taskBufferCount;
  mret (mkData g b r.1, r.2).

Definition GetFileFormatVersion (buf : bytes) : res Z :=
  if Z.of_nat (length buf) <? 8 then inl FileTooSmall
  else if negb (bool_decide (take 4 buf = DXNN)) then inl NotDXNN
  else mret (file_version buf).

(** The parsers of versions 6 and 7 are [other]; that of version 7 is in [ModelParserV7]. *)
Definition LoadModelParam (other : Z -> bytes -> res (ModelDataBase * string)) (buf : bytes) (bufferCount : Z)
    : res (ModelDataBase * string) :=
  v ← GetFileFormatVersion buf;
  if bool_decide (v = 6 \/ v = 7) then other v buf
  else if v =? 8 then ParseModel buf bufferCount
  else inl NotSupported.

End V8.

(** ** What the engine takes from the model ([lib/inference_engine.cpp], [lib/model.cpp]) *)

(** [std::getline] up to the dots. *)
Fixpoint split_dots (cur s : string) : list string :=
  match s with
  | EmptyString => if bool_decide (cur = "")%string then [] else [cur]
  | String "." s => cur :: split_dots "" s
  | String c s => split_dots (String.append cur (String c "")) s
  end.
Definition convertVersion (vers : string) : res (Z * Z * Z) :=
  match split_dots "" vers with
  | a :: b :: c :: _ => a ← stoi a; b ← stoi b; c ← stoi c; mret (a, b, c)
  | _ => inl Undefined
  end.

(** At least 1.18.1. *)
Definition isSupporterModelVersion (vers : string) : res bool :=
  '(a, b, c) ← convertVersion vers;
  mret ((1 <? a) || ((a =? 1) && ((18 <? b) || ((b =? 18) && (1 <=? c))))).

Definition engine_memory (m : Memory) : TaskData.Memory := TaskData.mkMem (mem_offset m) (mem_size m) (mem_type m).
(** A data type that is not set is some number; 0 stands for it. *)
Definition engine_tensor (t : TensorInfo) : TaskData.TensorInfo :=
  TaskData.mkTensor (default 0 (dtype t)) (default 0 (dtype_encoded t)) (shape t) (layout t) (elem_size t)
    (engine_memory (memory t)).
Definition engine_info (r : RegisterInfoDatabase) : TaskData.rmapinfo :=
  TaskData.mkRmap (engine_tensor <$> inputs r) (engine_tensor <$> outputs r)
    (engine_memory (mm_input (model_memory r))) (engine_memory (mm_output (model_memory r)))
    (cmd r) (op_mode r) (checkpoints r) (bool_decide (v_npu r = "M1_8K"%string)) (ppu_type r).

(** The binaries at position [j]: all lists are indexed with the position of the name in
    [rmap_info]. *)
Definition ppu_at (b : BinaryInfoDatabase) (j : nat) : option bytes :=
  match ppu b !! j with Some m => if 0 <? size m then Some (buffer m) else None | None => None end.
Definition engine_rmap (db : ModelDataBase) (j : nat) (m : Models) : option Engine.Rmap :=
  let b := deepx_binary db in
  r ← deepx_rmap db !! j;
  rm ← rmap b !! j;
  w ← weight b !! j;
  mret (Engine.mkRmap (name m) (if r_size r =? -1 then None else Some (engine_info r))
          (ti_name <$> inputs r) (ti_name <$> outputs r) (buffer rm) (buffer w) (ppu_at b j)).

Fixpoint engine_rmaps (db : ModelDataBase) (j : nat) (l : list Models) : option (list Engine.Rmap) :=
  match l with
  | [] => Some []
  | m :: l => r ← engine_rmap db j m; rs ← engine_rmaps db (S j) l; mret (r :: rs)
  end.

Definition engine_subgraph (g : SubGraph) : string * Engine.SubGraph :=
  let ts l := (fun t => Engine.mkGraphTensor (t_name t) (t_owner t) (t_users t)) <$> l in
  (sg_name g, Engine.mkSubGraph (ts (sg_inputs g)) (ts (sg_outputs g)) (sg_head g) (sg_tail g)).

(** The model as [Engine] takes it; [None] when a register map has no binary at its position,
    where a task that uses it reads outside the vectors. *)
Definition engine_model (db : ModelDataBase) (supported : bool) : option Engine.ModelData :=
  let b := deepx_binary db in let g := deepx_graph db in
  rs ← engine_rmaps db 0 (rmap_info b);
  mret (Engine.mkModel (topoSort_order g) (engine_subgraph <$> subgraphs g) (g_inputs g) (g_outputs g) rs
          ((fun m => (name m, buffer m)) <$> cpu_models b) (dxnnFileFormatVersion b =? 8) supported).

End ModelParser.
