(* ===== verification/ModelParserThms.v ===== *)
(** * Model files of version 8: theorems

    What a file that loads contains, what a file that is cut short does, and which task gets
    which binary. *)

From Stdlib Require Import ZArith Lia Ascii.
From stdpp Require Import strings.
From S2P Require Import Prelude TaskData Engine ModelParser.
Import ModelParser.

(** ** The monad *)

Lemma parser_bind_inr {A B} (x : res A) (f : A -> res B) b :
  (x ≫= f) = inr b -> exists a, x = inr a /\ f a = inr b.
Proof. destruct x as [e|a]; [done|]. by exists a. Qed.

Ltac parse_step H :=
  let a := fresh "a" in let E := fresh "E" in
  apply parser_bind_inr in H as (a & E & H).

Lemma fold_res_inv {A B} (f : A -> B -> res A) (P : A -> Prop) l : forall a a',
  (forall a b a', b ∈ l -> P a -> f a b = inr a' -> P a') -> P a -> fold_res f a l = inr a' -> P a'.
Proof.
  induction l as [|b l IH]; intros a a' Hf Ha E; [by injection E as <-|].
  cbn in E. parse_step E. eapply IH; [|eapply Hf; [apply list_elem_of_here|exact Ha|exact E0]|exact E].
  intros x y z Hy. apply Hf. by apply list_elem_of_further.
Qed.

Lemma mapM_res_Forall2 {A B} (f : A -> res B) l : forall l',
  mapM f l = inr l' -> Forall2 (fun a b => f a = inr b) l l'.
Proof.
  induction l as [|a l IH]; intros l' E; [by injection E as <-|].
  cbn in E. parse_step E. parse_step E. injection E as <-. constructor; [done|by apply IH].
Qed.

(** ** Sections *)

(** The section lies in the file. *)
Definition inside (buf : bytes) (off : Z) (m : Models) : Prop :=
  0 <= size m /\ (0 < size m -> 0 <= off + offset m /\ off + offset m + size m <= Z.of_nat (length buf)).

Definition bytes_of (buf : bytes) (off : Z) (m : Models) : bytes :=
  take (Z.to_nat (size m)) (drop (Z.to_nat (off + offset m)) buf).

(** The outcome of reading a section. *)
Lemma section_spec buf off m :
  match section buf (off + offset m) (size m) with
  | inr b => inside buf off m /\ b = bytes_of buf off m
  | inl StdException => size m < 0
  | inl Undefined => 0 < size m /\ ~ inside buf off m
  | inl _ => False
  end.
Proof.
  unfold section, inside, bytes_of, read_at. destruct (Z.ltb_spec (size m) 0); [done|].
  destruct (Z.eqb_spec (size m) 0) as [->|Hn]; [split; [split; lia|done]|].
  destruct (Z.leb_spec 0 (off + offset m)); cbn [andb]; [|split; [lia|intros [? Hi]; lia]].
  destruct (Z.leb_spec (off + offset m + size m) (Z.of_nat (length buf))); cbn.
  - split; [split; lia|done].
  - split; [lia|intros [? Hi]; lia].
Qed.

Definition loaded (set_ : bytes -> Models -> Models) (buf : bytes) (off : Z) (l : list Models) : list Models :=
  (fun m => set_ (bytes_of buf off m) m) <$> l.

(** The outcome of loading the sections of a list. *)
Definition outcome (buf : bytes) (off : Z) (l : list Models) (e : failure) : Prop :=
  match e with
  | StdException => exists m, m ∈ l /\ size m < 0
  | Undefined => exists m, m ∈ l /\ 0 < size m /\ ~ inside buf off m
  | _ => False
  end.

Lemma outcome_cons buf off m l e : outcome buf off l e -> outcome buf off (m :: l) e.
Proof.
  destruct e; try done; intros (x & Hx & H); exists x; (split; [by apply list_elem_of_further|done]).
Qed.

Lemma copy_sections set_ buf off l :
  match mapM (fun m => b ← section buf (off + offset m) (size m); mret (set_ b m)) l : res (list Models) with
  | inr l' => Forall (inside buf off) l /\ l' = loaded set_ buf off l
  | inl e => outcome buf off l e
  end.
Proof.
  induction l as [|m l IH]; [done|]. cbn [mapM]. pose proof (section_spec buf off m) as Hs.
  destruct (section buf (off + offset m) (size m)) as [e|b]; cbn.
  - destruct e; try done; exists m; (split; [apply list_elem_of_here|done]).
  - destruct Hs as [Hi ->]. destruct (mapM _ l) as [e|l']; cbn; [by apply outcome_cons|].
    destruct IH as [HF ->]. split; [by constructor|done].
Qed.

(** All sections of the database. *)
Definition sections (p : BinaryInfoDatabase) : list Models :=
  cpu_models p ++ [graph_info p] ++ rmap p ++ weight p ++ rmap_info p ++ bitmatch_mask p ++ ppu p.

Lemma outcome_sub buf off l l' e : (forall m, m ∈ l -> m ∈ l') -> outcome buf off l e -> outcome buf off l' e.
Proof. intros H. destruct e; try done; intros (m & Hm & Ho); exists m; (split; [by apply H|done]). Qed.

(** What a database holds after its sections were loaded. *)
Definition loaded_sections (buf : bytes) (off : Z) (p : BinaryInfoDatabase) : BinaryInfoDatabase :=
  mkBinary (loaded with_buffer buf off (cpu_models p))
    (with_str (bytes_of buf off (graph_info p)) (graph_info p))
    (loaded with_buffer buf off (rmap p)) (loaded with_buffer buf off (weight p))
    (loaded with_str buf off (rmap_info p)) (loaded with_buffer buf off (bitmatch_mask p))
    (loaded with_buffer buf off (ppu p)) (dxnnFileFormatVersion p) (compilerVersion p) (ppuType p).

Definition load_outcome (buf : bytes) (off : Z) (p : BinaryInfoDatabase) (r : res BinaryInfoDatabase) : Prop :=
  match r with
  | inr b => Forall (inside buf off) (sections p) /\ b = loaded_sections buf off p
  | inl e => outcome buf off (sections p) e
  end.

Lemma copy_then set_ buf off p l k :
  (forall m, m ∈ l -> m ∈ sections p) ->
  (Forall (inside buf off) l -> load_outcome buf off p (k (loaded set_ buf off l))) ->
  load_outcome buf off p
    ((mapM (fun m => b ← section buf (off + offset m) (size m); mret (set_ b m)) l : res (list Models)) ≫= k).
Proof.
  intros Hl Hk. pose proof (copy_sections set_ buf off l) as H.
  destruct (mapM _ l) as [e|l']; cbn [mbind parser_bind load_outcome]; [by eapply outcome_sub|].
  destruct H as [HF ->]. by apply Hk.
Qed.

(** All sections are loaded exactly when all of them lie in the file. *)
Lemma load_sections_outcome p buf : load_outcome buf SIZE_INFO p (load_sections p buf SIZE_INFO).
Proof.
  unfold load_sections, copyBinaryDataToModels, copyStringDataToModels.
  apply (copy_then with_buffer); [unfold sections; set_solver|intros H1].
  pose proof (section_spec buf SIZE_INFO (graph_info p)) as Hs.
  destruct (section buf _ _) as [e|t]; cbn [mbind parser_bind].
  { destruct e; try done; exists (graph_info p); (split; [unfold sections; set_solver|done]). }
  destruct Hs as [H2 ->].
  apply (copy_then with_buffer); [unfold sections; set_solver|intros H3].
  apply (copy_then with_buffer); [unfold sections; set_solver|intros H4].
  apply (copy_then with_str); [unfold sections; set_solver|intros H5].
  apply (copy_then with_buffer); [unfold sections; set_solver|intros H6].
  apply (copy_then with_buffer); [unfold sections; set_solver|intros H7].
  split; [|done]. unfold sections. by rewrite !Forall_app, Forall_singleton.
Qed.

(** ** The header *)

Lemma read_at_in buf off n :
  0 <= off -> off + n <= Z.of_nat (length buf) ->
  read_at buf off n = inr (take (Z.to_nat n) (drop (Z.to_nat off) buf)).
Proof. intros H1 H2. unfold read_at. by rewrite (proj2 (Z.leb_le 0 off)), (proj2 (Z.leb_le _ _)). Qed.

Lemma read_at_out buf off n : Z.of_nat (length buf) < off + n -> read_at buf off n = inl Undefined.
Proof. intros H. unfold read_at. by rewrite (proj2 (Z.leb_gt (off + n) _)), andb_false_r. Qed.

(** A file with the magic number and the version. *)
Definition is_v8 (buf : bytes) : Prop :=
  take 4 buf = DXNN /\ file_version buf = 8 /\ 8 <= Z.of_nat (length buf).

Lemma load_v8 Parse other count buf :
  is_v8 buf -> LoadModelParam Parse other buf count = ParseModel Parse buf count.
Proof.
  intros (Hm & Hv & Hl). unfold LoadModelParam, GetFileFormatVersion.
  by rewrite (proj2 (Z.ltb_ge _ _)), Hm, bool_decide_eq_true_2, Hv.
Qed.

(** The data section of the header is read next. *)
Definition read_header (Parse : bytes -> option json) (p : BinaryInfoDatabase) (buf : bytes) : res BinaryInfoDatabase :=
  header ← read_at buf 8 (SIZE_INFO - 8);
  match Parse (c_str header) with
  | None => inl HeaderError
  | Some d =>
      h ← members d;
      match get_obj h "data" with Some o => parseDataSection Parse o p buf SIZE_INFO | None => mret p end
  end.

Lemma load_header Parse p buf :
  is_v8 buf ->
  loadBinaryInfo Parse p buf = (p' ← read_header Parse (set_version 8 p) buf; load_sections p' buf SIZE_INFO).
Proof.
  intros (Hm & Hv & Hl). unfold loadBinaryInfo, read_header. rewrite (read_at_in buf 0 4), (read_at_in buf 4 4) by lia.
  cbn [mbind parser_bind]. change (take (Z.to_nat 4) (drop (Z.to_nat 0) buf)) with (take 4 buf).
  rewrite Hm, bool_decide_eq_true_2, Hv by done. cbn [negb Z.ltb Z.eqb Z.compare orb Pos.compare Pos.compare_cont Pos.eqb].
  destruct (read_at buf 8 _) as [e|header]; [done|]. cbn [mbind parser_bind].
  destruct (Parse (c_str header)) as [d|]; [|done]. by destruct (members d).
Qed.

(** *** A file with two tasks *)

Definition demo_section (off n : Z) : json := Obj [("offset", Num off); ("size", Num n)]%string.
Definition demo_task (rm w : Z) (pp : list (string * json)) : json :=
  Obj ([("rmap", demo_section rm 1); ("weight", demo_section w 1); ("rmap_info", demo_section 2 1)]%string ++ pp).
(** The header: task [b] has a PPU binary, task [a] may have one. *)
Definition demo_header (pp_a : list (string * json)) : json :=
  Obj [("data", Obj [("graph_info", demo_section 7 1);
                     ("compiled_data", Obj [("npu_0", Obj [("a", demo_task 0 1 pp_a);
                        ("b", demo_task 3 4 [("ppu", demo_section 5 2)])])])])]%string.
(** The register map of both. *)
Definition demo_rmap : json :=
  Obj [("outputs", Arr [Obj [("name", Str "y"); ("dtype", Str "FLOAT32"); ("dtype_encoded", Str "int8");
         ("shape", Arr [Num 1; Num 10]); ("shape_encoded", Arr [Num 1; Num 10]); ("align_unit", Num 64);
         ("memory", Obj [("name", Str "OUTPUT"); ("type", Str "DRAM"); ("size", Num 64)])]])]%string.
Definition demo_parse (pp_a : list (string * json)) (text : bytes) : option json :=
  if bool_decide (text = [72]) then Some (demo_header pp_a)
  else if bool_decide (text = [82]) then Some demo_rmap
  else if bool_decide (text = [71]) then Some (Obj []) else None.
Definition demo_file : bytes := Eval vm_compute in
  DXNN ++ [8; 0; 0; 0; 72] ++ replicate 8183 0 ++ [1; 2; 82; 3; 4; 5; 6; 71].

Lemma demo_is_v8 : is_v8 demo_file.
Proof. split; [reflexivity|]. split; [reflexivity|]. by vm_compute. Qed.

(** What [loadBinaryInfo] does with the sections the header of a version 8 file names: it loads
    all of them, each with the bytes of the file it is said to be, exactly when all of them lie in
    the file; a negative size is an exception of the standard library, and otherwise some
    section is read beyond the file. *)
Theorem loaded_file_sections Parse buf :
  is_v8 buf ->
  match read_header Parse (set_version 8 new_binary) buf with
  | inl e => loadBinaryInfo Parse new_binary buf = inl e
  | inr p => load_outcome buf SIZE_INFO p (loadBinaryInfo Parse new_binary buf)
  end.
Proof.
  intros H8. rewrite load_header by done. destruct (read_header _ _ _) as [e|p]; [done|].
  apply load_sections_outcome.
Qed.

Lemma loaded_file_sections_witness :
  match read_header (demo_parse []) (set_version 8 new_binary) demo_file with
  | inl e => loadBinaryInfo (demo_parse []) new_binary demo_file = inl e
  | inr p => load_outcome demo_file SIZE_INFO p (loadBinaryInfo (demo_parse []) new_binary demo_file)
  end.
Proof. exact (loaded_file_sections (demo_parse []) demo_file demo_is_v8). Defined.

(** A version 8 file that is shorter than its header of 8192 bytes is not refused: the
    header is copied from beyond the end of the buffer ([fileSize] is ignored). *)
Theorem truncated_file_overread Parse other count buf :
  is_v8 buf -> Z.of_nat (length buf) < SIZE_INFO -> LoadModelParam Parse other buf count = inl Undefined.
Proof.
  intros H8 Hl. rewrite load_v8 by done. unfold ParseModel. rewrite load_header by done.
  unfold read_header. by rewrite read_at_out.
Qed.

Lemma truncated_file_overread_witness :
  LoadModelParam (demo_parse []) (fun _ _ => inl NotSupported) (take 100 demo_file) 4 = inl Undefined.
Proof.
  apply truncated_file_overread; [|by vm_compute].
  split; [reflexivity|]. split; [reflexivity|]. by vm_compute.
Defined.

(** ** Tensors *)

(** The product of the dimensions, the last one aligned. *)
Fixpoint aligned_dims (l : list Z) (align : Z) : Z :=
  match l with
  | [] => 1
  | [d] => i64 (GetAlign (u64 d) align)
  | d :: l => d * aligned_dims l align
  end.

Lemma GetInt64_int64s v a d : GetInt64 v = inr d -> int64s (v :: a) = d :: int64s a.
Proof.
  destruct v as [| |n| | | |]; try done. unfold GetInt64, int64s. cbn [omap list_omap].
  destruct (is_int64 n); [|done]. by intros [= ->].
Qed.

Lemma i64_mul a b : i64 (i64 a * b) = i64 (a * b).
Proof.
  rewrite <- (swrap_uwrap 64 (i64 a * b)), <- (swrap_uwrap 64 (a * b)) by lia. f_equal.
  unfold uwrap at 1. rewrite <- Zmult_mod_idemp_l. fold (uwrap 64 (i64 a)).
  rewrite uwrap_swrap by lia. apply Zmult_mod_idemp_l.
Qed.

Lemma aligned_product_dims a align : forall acc p,
  aligned_product a align (i64 acc) = inr p ->
  p = i64 (acc * aligned_dims (int64s a) align) /\ length (int64s a) = length a.
Proof.
  induction a as [|v a IH]; intros acc p E; [injection E as <-; cbn; split; [f_equal; lia|done]|].
  cbn [aligned_product] in E. parse_step E. rewrite (GetInt64_int64s _ _ _ E0).
  rewrite i64_mul in E. apply IH in E as [-> Hl]. split; [|cbn; lia]. f_equal.
  destruct a as [|v' a]; [cbn; lia|]. destruct (int64s (v' :: a)) as [|d l] eqn:Ed; [done|].
  cbn [aligned_dims]. lia.
Qed.

(** The element size is that of the data type, a known one, or 0 when the file gives none. *)
Definition typed_tensor (t : TensorInfo) : Prop :=
  match dtype t with
  | Some d => TaskData.GetDataSize_Datatype d = inr (elem_size t)
  | None => elem_size t = 0
  end.

(** The memory of an output is what its encoded shape takes, modulo 2^64: exactly that
    when it is below 2^63. *)
Definition checked_output (t : TensorInfo) : Prop :=
  if mem_type (memory t) =? TaskData.PPU
  then 5 <= layout t <= 7 /\ dtype t = Some (TaskData.BBOX + layout t - 5) /\ shape t = [1; -1]
  else typed_tensor t /\
    (shape_encoded t <> [] -> exists e, dtype_encoded t = Some e /\
      let taken := getElementSize e *
        (if mem_type (memory t) =? TaskData.ARGMAX then default 0 (head (shape_encoded t))
         else aligned_dims (shape_encoded t) (align_unit t)) in
      mem_size (memory t) = i64 taken /\ (0 <= taken < 2 ^ 63 -> mem_size (memory t) = taken)).

Lemma taken_exact x y : x = i64 y -> x = i64 y /\ (0 <= y < 2 ^ 63 -> x = y).
Proof. intros ->. split; [done|]. intros Hy. apply swrap_small; lia. Qed.

Lemma fields_typed o t : parseTensorInfoFields o = inr t -> typed_tensor t.
Proof.
  unfold parseTensorInfoFields. intros E. parse_step E. injection E as <-. unfold typed_tensor. cbn [dtype elem_size].
  destruct (GetDataTypeNum <$> _) as [d|]; [|by injection E0 as <-].
  unfold data_size in E0. destruct (TaskData.GetDataSize_Datatype d); [done|]. by injection E0 as <-.
Qed.

Lemma fields_shape o t :
  parseTensorInfoFields o = inr t -> shape_encoded t = int64s (default [] (get_arr o "shape_encoded")).
Proof. unfold parseTensorInfoFields. intros E. parse_step E. by injection E as <-. Qed.

Lemma ppu_checked t t' :
  mem_type (memory t) = TaskData.PPU -> processPpuOutput t = inr t' -> checked_output t'.
Proof.
  intros Hm E. unfold processPpuOutput in E. parse_step E. injection E as <-.
  unfold checked_output. cbn [memory layout dtype shape]. rewrite Hm. cbn [Z.eqb].
  split; [|done]. destruct (Z.eqb_spec (layout t) 5); [lia|]. destruct (Z.eqb_spec (layout t) 6); [lia|].
  destruct (Z.eqb_spec (layout t) 7); [lia|done].
Qed.

Lemma argmax_checked o t :
  shape_encoded t = int64s (default [] (get_arr o "shape_encoded")) ->
  validateArgmaxOutputShape o t = inr () -> shape_encoded t <> [] ->
  exists e, dtype_encoded t = Some e /\ mem_size (memory t) = i64 (getElementSize e * default 0 (head (shape_encoded t))).
Proof.
  intros Hs E Hne. unfold validateArgmaxOutputShape in E. destruct (get_arr o _) as [[|v l]|]; [done| |by rewrite Hs in Hne].
  change (default [] (Some (v :: l))) with (v :: l) in Hs. parse_step E. parse_step E.
  rewrite (GetInt64_int64s _ _ _ E0) in Hs.
  unfold encoded_element in E1. destruct (dtype_encoded t) as [e|]; [|done]. injection E1 as <-.
  exists e. split; [done|]. rewrite Hs. cbn. rewrite Z.mul_comm.
  by destruct (Z.eqb_spec (i64 (a * getElementSize e)) (mem_size (memory t))).
Qed.

Lemma default_checked o t :
  shape_encoded t = int64s (default [] (get_arr o "shape_encoded")) ->
  validateDefaultOutputShape o t = inr () -> shape_encoded t <> [] ->
  exists e, dtype_encoded t = Some e /\
    mem_size (memory t) = i64 (getElementSize e * aligned_dims (shape_encoded t) (align_unit t)).
Proof.
  intros Hs E Hne. unfold validateDefaultOutputShape in E. destruct (get_arr o _) as [a|]; [|by rewrite Hs in Hne].
  change (default [] (Some a)) with a in Hs. parse_step E. parse_step E.
  change 1 with (i64 1) in E0. apply aligned_product_dims in E0 as [-> _].
  unfold encoded_element in E1. destruct (dtype_encoded t) as [e|]; [|done]. injection E1 as <-.
  exists e. split; [done|]. rewrite Hs. rewrite i64_mul, Z.mul_1_l, Z.mul_comm in E.
  by destruct (Z.eqb_spec (i64 (getElementSize e * aligned_dims (int64s a) (align_unit t))) (mem_size (memory t))).
Qed.

Lemma parse_output_checked v t : parse_output v = inr t -> checked_output t.
Proof.
  unfold parse_output. intros E. parse_step E. rename a into o. parse_step E. rename a into t0.
  pose proof (fields_typed _ _ E1) as Ht. pose proof (fields_shape _ _ E1) as Hs.
  unfold processOutputTensor in E. destruct (Z.eqb_spec (mem_type (memory t0)) TaskData.PPU) as [Hm|Hm];
    [by eapply ppu_checked|].
  assert (mem_type (memory t0) =? TaskData.PPU = false) as Em by (by apply Z.eqb_neq).
  destruct (mem_type (memory t0) =? TaskData.ARGMAX) eqn:Ea; parse_step E; injection E as <-;
    unfold checked_output; rewrite Em, Ea; (split; [done|]); intros Hne; destruct a.
  - destruct (argmax_checked o t0 Hs E2 Hne) as (e & He & Hx). exists e. split; [done|]. by apply taken_exact.
  - destruct (default_checked o t0 Hs E2 Hne) as (e & He & Hx). exists e. split; [done|]. by apply taken_exact.
Qed.

Lemma parse_input_typed v t : parse_input v = inr t -> typed_tensor t.
Proof. unfold parse_input. intros E. parse_step E. by eapply fields_typed. Qed.

Definition typed_register (r : RegisterInfoDatabase) : Prop :=
  Forall typed_tensor (inputs r) /\ Forall checked_output (outputs r).

Lemma mapM_all {A B} (f : A -> res B) (P : B -> Prop) l l' :
  (forall a b, f a = inr b -> P b) -> mapM f l = inr l' -> Forall P l'.
Proof. intros H E. apply mapM_res_Forall2 in E. induction E; constructor; [by eapply H|done]. Qed.

Lemma register_typed d n p r : parseSingleRmapInfo d n p = inr r -> typed_register r.
Proof.
  unfold parseSingleRmapInfo. intros E. parse_step E. parse_step E. parse_step E. parse_step E.
  injection E as <-. split; cbn [inputs outputs].
  - destruct (get_arr d "inputs"); [|by injection E2 as <-]. eapply mapM_all; [apply parse_input_typed|exact E2].
  - destruct (get_arr d "outputs"); [|by injection E3 as <-]. eapply mapM_all; [apply parse_output_checked|exact E3].
Qed.

(** C35. The tensors of a model that loads are well typed.  The data type of an input or
    output, when the file gives one, is a known one and the element size is that of the type
    (without one the element size is 0).  The memory of every output with an encoded shape
    is what this shape takes in elements of the encoded data type, the last dimension
    aligned: exactly when this is below 2^63, and modulo 2^64 in general, as the product is an
    [int64_t] that wraps ([wrapped_shape_accepted]).  An output of the PPU has the type and the
    shape of its boxes, and nothing is said of its memory. *)
Theorem parsed_tensors_typed Parse buf n db mode :
  ParseModel Parse buf n = inr (db, mode) -> Forall typed_register (deepx_rmap db).
Proof.
  unfold ParseModel. intros E. parse_step E. parse_step E. parse_step E. injection E as <- _. cbn [deepx_rmap].
  unfold loadRmapInfo in E2. parse_step E2. injection E2 as <-. cbn [fst].
  apply (fold_res_inv _ (fun acc => Forall typed_register acc.1)) in E; [done| |by constructor].
  intros acc m acc' _ Ha E4. unfold load_rmap in E4. destruct (Parse _); [|done].
  parse_step E4. parse_step E4. injection E4 as <-. cbn [fst]. apply Forall_app. split; [done|].
  constructor; [by eapply register_typed|done].
Qed.

(** A shape of 2^64 bytes passes the check with a memory of no bytes. *)
Definition wrapped_output : list (string * json) :=
  [("name", Str "y"); ("dtype", Str "FLOAT32"); ("dtype_encoded", Str "int8"); ("align_unit", Num 64);
   ("shape_encoded", Arr [Num 4294967296; Num 4294967296]);
   ("memory", Obj [("name", Str "OUTPUT"); ("type", Str "DRAM"); ("size", Num 0)])]%string.

Example wrapped_shape_accepted :
  exists t, parse_output (Obj wrapped_output) = inr t /\ mem_size (memory t) = 0 /\
    getElementSize (GetDataTypeNum "int8") * aligned_dims (shape_encoded t) (align_unit t) = 2 ^ 64.
Proof. eexists. split; [vm_compute; reflexivity|]. split; vm_compute; reflexivity. Qed.

(** ** Which task gets which binary *)

Definition names (l : list Models) : list string := name <$> l.

(** The lists hold the binaries of the same tasks at the same positions; those of the PPU are of
    all tasks or of none. *)
Definition aligned (all_ppu : bool) (p : BinaryInfoDatabase) : Prop :=
  names (rmap p) = names (rmap_info p) /\ names (weight p) = names (rmap_info p) /\
  names (ppu p) = (if all_ppu then names (rmap_info p) else []) /\ Forall (fun q => 0 < size q) (ppu p).

(** A section object names bytes. *)
Definition has_bytes (s : option (list (string * json))) : bool :=
  match s with Some s => match parse_member s "size" 0 with inr n => 0 <? n | inl _ => false end | None => false end.

(** A task with the three binaries every task has, and with a PPU binary or not. *)
Definition complete_task (all_ppu : bool) (e : string * json) : Prop :=
  exists o, e.2 = Obj o /\ is_Some (get_obj o "rmap") /\ is_Some (get_obj o "weight") /\
    is_Some (get_obj o "rmap_info") /\ has_bytes (get_obj o "ppu") = all_ppu.
Definition complete_npu (all_ppu : bool) (e : string * json) : Prop :=
  exists o, e.2 = Obj o /\ Forall (complete_task all_ppu) o.

Lemma models_inv s m m' :
  parseModelsOffsetSize s m = inr m' -> name m' = name m /\ parse_member s "size" (size m) = inr (size m').
Proof. unfold parseModelsOffsetSize. intros E. parse_step E. parse_step E. by injection E as <-. Qed.

Lemma parse_section_inv o k m push p p' :
  is_Some (get_obj o k) -> parse_section o k m push p = inr p' ->
  exists m', name m' = name m /\ p' = push m' p.
Proof.
  intros [s Hs] E. unfold parse_section in E. rewrite Hs in E. parse_step E. injection E as <-.
  apply models_inv in E0 as [? _]. by exists a.
Qed.

Lemma parse_bitmatch_inv o m p p' :
  parse_section o "bitmatch" m push_bitmatch p = inr p' ->
  rmap p' = rmap p /\ weight p' = weight p /\ rmap_info p' = rmap_info p /\ ppu p' = ppu p.
Proof. unfold parse_section. destruct (get_obj _ _); intros E; [parse_step E|]; by injection E as <-. Qed.

Lemma parse_ppu_inv o m p p' :
  size m = 0 -> parse_section o "ppu" m push_ppu p = inr p' ->
  rmap p' = rmap p /\ weight p' = weight p /\ rmap_info p' = rmap_info p /\
  names (ppu p') = names (ppu p) ++ (if has_bytes (get_obj o "ppu") then [name m] else []) /\
  (Forall (fun q => 0 < size q) (ppu p) -> Forall (fun q => 0 < size q) (ppu p')).
Proof.
  intros Hm. unfold parse_section, has_bytes. destruct (get_obj _ _) as [s|]; intros E.
  - parse_step E. injection E as <-. apply models_inv in E0 as [Hn Hs]. rewrite Hm in Hs. rewrite Hs.
    cbn [push_ppu rmap weight rmap_info ppu]. do 3 (split; [done|]).
    destruct (Z.ltb_spec 0 (size a)); [|by rewrite app_nil_r]. unfold names. rewrite fmap_app. cbn.
    rewrite Hn. split; [done|]. intros HF. apply Forall_app. split; [done|by constructor].
  - injection E as <-. do 3 (split; [done|]). by rewrite app_nil_r.
Qed.

Lemma parse_task_aligned b npuName p e p' :
  complete_task b e -> parse_task npuName p e = inr p' -> aligned b p -> aligned b p'.
Proof.
  intros (o & Eo & H1 & H2 & H3 & H4) E (A1 & A2 & A3 & A4). unfold parse_task in E. rewrite Eo in E.
  cbn [members mret parser_ret mbind parser_bind] in E. set (m := mkModels npuName _ _ _ _ _) in E.
  parse_step E. destruct (parse_section_inv _ _ _ _ _ _ H1 E0) as (m1 & N1 & ->).
  parse_step E. destruct (parse_section_inv _ _ _ _ _ _ H2 E1) as (m2 & N2 & ->).
  parse_step E. destruct (parse_section_inv _ _ _ _ _ _ H3 E2) as (m3 & N3 & ->).
  parse_step E. apply parse_bitmatch_inv in E3 as (B1 & B2 & B3 & B4).
  apply parse_ppu_inv in E as (C1 & C2 & C3 & C4 & C5); [|done].
  cbn [push_rmap push_weight push_rmap_info rmap weight rmap_info ppu] in *.
  unfold aligned. rewrite C1, C2, C3, C4, B1, B2, B3, B4, H4. unfold names in *.
  rewrite !fmap_app. cbn. rewrite A1, A2, A3, N1, N2, N3.
  split; [done|]. split; [done|]. split; [by destruct b|]. apply C5. by rewrite B4.
Qed.

Lemma compiled_data_aligned b c : forall p p',
  Forall (complete_npu b) c -> fold_res (fun p e => parseCompiledDataForNpu e.2 (c_string e.1) p) p c = inr p' ->
  aligned b p -> aligned b p'.
Proof.
  intros p p' Hc E Ha. eapply (fold_res_inv _ (aligned b)); [|exact Ha|exact E].
  intros q e q' He Hq E1. rewrite Forall_forall in Hc. destruct (Hc e He) as (o & Eo & Ho).
  unfold parseCompiledDataForNpu in E1. rewrite Eo in E1. cbn [members mret parser_ret mbind parser_bind] in E1.
  eapply (fold_res_inv _ (aligned b)); [|exact Hq|exact E1].
  intros x t x' Ht Hx E2. rewrite Forall_forall in Ho. by eapply parse_task_aligned; [apply Ho|..].
Qed.

Lemma data_section_aligned Parse b o p p' buf :
  Forall (complete_npu b) (default [] (get_obj o "compiled_data")) ->
  parseDataSection Parse o p buf SIZE_INFO = inr p' -> aligned b p -> aligned b p'.
Proof.
  intros Hc E Ha. unfold parseDataSection in E. parse_step E. parse_step E. parse_step E.
  assert (aligned b a) as A1 by (destruct (get_obj o "cpu_models"); [parse_step E0|]; by injection E0 as <-).
  assert (aligned b a0) as A2.
  { destruct (get_obj o "compile_config"); [|by injection E1 as <-]. unfold parse_compile_config in E1.
    parse_step E1. parse_step E1. parse_step E1. destruct (Parse _); [|done]. parse_step E1. by injection E1 as <-. }
  assert (aligned b a1) as A3 by (destruct (get_obj o "graph_info"); [parse_step E2|]; by injection E2 as <-).
  destruct (get_obj o "compiled_data") as [c|]; [|by injection E as <-].
  by eapply compiled_data_aligned.
Qed.

(** Loading the sections changes no name and no size. *)
Lemma loaded_names set_ buf off l :
  (forall b m, name (set_ b m) = name m) -> names (loaded set_ buf off l) = names l.
Proof.
  intros H. unfold names, loaded. rewrite <- list_fmap_compose. apply list_fmap_ext. intros i m _. apply H.
Qed.

Lemma loaded_aligned b buf off p : aligned b p -> aligned b (loaded_sections buf off p).
Proof.
  intros (A1 & A2 & A3 & A4). unfold aligned, loaded_sections. cbn [rmap weight rmap_info ppu].
  rewrite !loaded_names by done. split; [done|]. split; [done|]. split; [done|].
  unfold loaded. apply Forall_fmap. eapply Forall_impl; [exact A4|]. by intros m.
Qed.

Lemma names_lookup l l' j m :
  names l = names l' -> l' !! j = Some m -> exists m', l !! j = Some m' /\ name m' = name m.
Proof.
  intros E Hm. assert (names l !! j = Some (name m)) as H by (rewrite E; unfold names; by rewrite list_lookup_fmap, Hm).
  unfold names in H. rewrite list_lookup_fmap in H. destruct (l !! j) as [m'|]; [|done].
  injection H as H. by exists m'.
Qed.

Lemma engine_rmaps_lookup db : forall l k rs j r,
  engine_rmaps db k l = Some rs -> rs !! j = Some r ->
  exists m, l !! j = Some m /\ engine_rmap db (k + j)%nat m = Some r.
Proof.
  induction l as [|m l IH]; intros k rs j r E Hr; cbn in E; [by injection E as <-|].
  destruct (engine_rmap db k m) as [r0|] eqn:E0; [|done]. cbn in E.
  destruct (engine_rmaps db (S k) l) as [rs0|] eqn:E1; [|done]. injection E as <-.
  destruct j as [|j]; cbn in Hr.
  - injection Hr as <-. exists m. by rewrite Nat.add_0_r.
  - destruct (IH _ _ _ _ E1 Hr) as (m' & Hm & He). exists m'. split; [done|]. by rewrite Nat.add_succ_r.
Qed.

(** The binary of a task in a list: at its position and under its name. *)
Definition binary_of (l : list Models) (j : nat) (n : string) (b : bytes) : Prop :=
  exists m, l !! j = Some m /\ name m = n /\ b = buffer m.

Lemma aligned_engine b db sup md j r :
  aligned b (deepx_binary db) -> engine_model db sup = Some md -> Engine.rmaps md !! j = Some r ->
  binary_of (rmap (deepx_binary db)) j (Engine.r_name r) (Engine.r_rmap r) /\
  binary_of (weight (deepx_binary db)) j (Engine.r_name r) (Engine.r_weight r) /\
  match Engine.r_ppu r with
  | Some q => b = true /\ binary_of (ppu (deepx_binary db)) j (Engine.r_name r) q
  | None => b = false
  end.
Proof.
  intros (A1 & A2 & A3 & A4) E Hr. unfold engine_model in E.
  destruct (engine_rmaps db 0 _) as [rs|] eqn:Ers; [|done]. injection E as <-. cbn in Hr.
  destruct (engine_rmaps_lookup _ _ _ _ _ _ Ers Hr) as (m & Hm & He). cbn [Nat.add] in He.
  unfold engine_rmap in He. destruct (deepx_rmap db !! j) as [ri|]; [|done]. cbn in He.
  destruct (names_lookup _ _ _ _ A1 Hm) as (m1 & L1 & N1), (names_lookup _ _ _ _ A2 Hm) as (m2 & L2 & N2).
  rewrite L1, L2 in He. injection He as <-. cbn. split; [by exists m1|]. split; [by exists m2|].
  unfold ppu_at. destruct b.
  - destruct (names_lookup _ _ _ _ A3 Hm) as (q & L3 & N3). rewrite L3.
    pose proof (Forall_lookup_1 _ _ _ _ A4 L3) as Hq. cbn in Hq. rewrite (proj2 (Z.ltb_lt _ _) Hq).
    split; [done|]. by exists q.
  - destruct (ppu (deepx_binary db)); [done|]. by cbn in A3.
Qed.

(** The text of the header. *)
Definition header_text (buf : bytes) : bytes :=
  c_str (take (Z.to_nat (SIZE_INFO - 8)) (drop (Z.to_nat 8) buf)).

(** In a file whose header gives every task its three binaries, and a PPU binary to all tasks or to
    none, every task of the engine gets the binaries that carry its name. *)
Theorem tasks_get_their_binaries Parse buf n db mode sup md all_ppu h o j r :
  is_v8 buf -> ParseModel Parse buf n = inr (db, mode) -> engine_model db sup = Some md ->
  Parse (header_text buf) = Some (Obj h) -> get_obj h "data" = Some o ->
  Forall (complete_npu all_ppu) (default [] (get_obj o "compiled_data")) ->
  Engine.rmaps md !! j = Some r ->
  binary_of (rmap (deepx_binary db)) j (Engine.r_name r) (Engine.r_rmap r) /\
  binary_of (weight (deepx_binary db)) j (Engine.r_name r) (Engine.r_weight r) /\
  match Engine.r_ppu r with
  | Some q => all_ppu = true /\ binary_of (ppu (deepx_binary db)) j (Engine.r_name r) q
  | None => all_ppu = false
  end.
Proof.
  intros H8 E Em Hp Hd Hc Hr. apply (aligned_engine all_ppu db sup md); [|done..].
  unfold ParseModel in E. parse_step E. rename a into bi. parse_step E. parse_step E. injection E as <- _.
  cbn [deepx_binary]. rewrite load_header in E0 by done. parse_step E0. rename a1 into p.
  unfold read_header in E. parse_step E. unfold read_at in E3. destruct (_ && _)%bool; [|done]. injection E3 as <-.
  fold (header_text buf) in E. rewrite Hp in E. cbn [members mret parser_ret mbind parser_bind] in E. rewrite Hd in E.
  pose proof (load_sections_outcome p buf) as Hs. rewrite E0 in Hs. destruct Hs as [_ ->].
  apply loaded_aligned. eapply data_section_aligned; [done..|]. by destruct all_ppu.
Qed.

Definition demo_load (pp_a : list (string * json)) : option (ModelDataBase * string) :=
  match ParseModel (demo_parse pp_a) demo_file 4 with inr x => Some x | inl _ => None end.
Definition demo_db : ModelDataBase := Eval vm_compute in
  default (mkData new_graph new_binary []) (fst <$> demo_load []).

Lemma parsed_tensors_typed_witness :
  length (deepx_rmap demo_db) = 2%nat /\ Forall typed_register (deepx_rmap demo_db).
Proof.
  split; [reflexivity|].
  apply (parsed_tensors_typed (demo_parse []) demo_file 4 demo_db ""). vm_compute. reflexivity.
Defined.

(** Both tasks have a PPU binary. *)
Definition demo_ppu : list (string * json) := [("ppu", demo_section 6 1)]%string.
Definition demo_db2 : ModelDataBase := Eval vm_compute in
  default (mkData new_graph new_binary []) (fst <$> demo_load demo_ppu).
Definition demo_engine (db : ModelDataBase) : Engine.ModelData :=
  default (Engine.mkModel [] [] [] [] [] [] false false) (engine_model db true).
Definition demo_entry (db : ModelDataBase) (j : nat) : Engine.Rmap :=
  default (Engine.mkRmap "" None [] [] [] [] None) (Engine.rmaps (demo_engine db) !! j).

Lemma tasks_get_their_binaries_witness :
  binary_of (rmap (deepx_binary demo_db2)) 1 "b" [3] /\ binary_of (weight (deepx_binary demo_db2)) 1 "b" [4] /\
  (true = true /\ binary_of (ppu (deepx_binary demo_db2)) 1 "b" [5; 6]).
Proof.
  apply (tasks_get_their_binaries (demo_parse demo_ppu) demo_file 4 demo_db2 "" true (demo_engine demo_db2) true
    (match demo_header demo_ppu with Obj h => h | _ => [] end)
    (match demo_header demo_ppu with Obj [(_, Obj o)] => o | _ => [] end) 1 (demo_entry demo_db2 1)).
  - exact demo_is_v8.
  - vm_compute. reflexivity.
  - vm_compute. reflexivity.
  - vm_compute. reflexivity.
  - reflexivity.
  - constructor; [|constructor]. eexists. split; [reflexivity|].
    repeat (constructor; [eexists; split; [reflexivity|repeat split; by eexists]|]). constructor.
  - reflexivity.
Defined.

(** The PPU binaries of a file are kept in a list of their own, without the tasks that have none, and
    taken with the position of the task: when task [a] has no PPU binary and task [b] has one,
    the engine gives the binary of [b] to [a], and none to [b]. *)
Theorem ppu_binary_of_another_task :
  exists Parse buf n db mode md ra rb q,
    ParseModel Parse buf n = inr (db, mode) /\ engine_model db true = Some md /\
    Engine.find_rmap md "a" = Some ra /\ Engine.find_rmap md "b" = Some rb /\
    names (ppu (deepx_binary db)) = ["b"%string] /\ buffer <$> ppu (deepx_binary db) = [q] /\
    Engine.r_ppu ra = Some q /\ Engine.r_ppu rb = None.
Proof.
  exists (demo_parse []), demo_file, 4, demo_db, ""%string, (demo_engine demo_db), (demo_entry demo_db 0),
    (demo_entry demo_db 1), [5; 6].
  repeat split; vm_compute; reflexivity.
Qed.
