(* ===== verification/ModelParserV7.v ===== *)
(** * Model files of version 7

    [lib/parsers/v7_model_parser.cpp]: what differs from version 8.  There are no PPU
    binaries, no [model_memory] object, the elements of a shape must be numbers, and the flags
    of the heads and tails of the graph, which older compilers left out, are inferred.  The
    functions that the two files have in common are those of [ModelParser].  The theorems are
    that a file without the members only version 8 has loads as it would under version 8, and
    what is inferred. *)

From Stdlib Require Import ZArith Lia Ascii.
From stdpp Require Import strings.
From S2P Require Import Prelude TaskData Engine ModelParser ModelParserThms.

Module ModelParserV7.
Import ModelParser.

(** ** The graph *)

Definition bump (k : string) (m : gmap string Z) : gmap string Z := <[k := default 0 (m !! k) + 1]> m.

Definition count_tensor (acc : gmap string Z * gmap string Z) (t : Tensor) : gmap string Z * gmap string Z :=
  (bump (t_name t) acc.1, foldl (fun m u => bump u m) acc.2 (t_users t)).
(** The producers by the name of the tensor, the consumers by the name of the user. *)
Definition buildTensorUsageMaps (subs : list SubGraph) : gmap string Z * gmap string Z :=
  foldl (fun acc sg => foldl count_tensor acc (sg_outputs sg)) (∅, ∅) subs.

Definition counted (m : gmap string Z) (k : string) : bool :=
  match m !! k with Some n => 0 <? n | None => false end.

Definition shouldBeHead (sg : SubGraph) (modelInputs : list string) (producerCount : gmap string Z) : bool :=
  if sg_head sg then false
  else existsb (fun t => bool_decide (t_name t ∈ modelInputs)) (sg_inputs sg) ||
       forallb (fun t => bool_decide (t_owner t = "")%string && negb (counted producerCount (t_name t))) (sg_inputs sg).

Definition shouldBeTail (sg : SubGraph) (modelOutputs : list string) (consumerCount : gmap string Z) : bool :=
  if sg_tail sg then false
  else existsb (fun t => bool_decide (t_name t ∈ modelOutputs)) (sg_outputs sg) ||
       forallb (fun t => negb (counted consumerCount (t_name t)) && bool_decide (t_users t = [])) (sg_outputs sg).

Definition infer_flags (g : GraphInfoDatabase) (counts : gmap string Z * gmap string Z) (sg : SubGraph) : SubGraph :=
  mkSubGraph (sg_name sg) (sg_device sg) (sg_inputs sg) (sg_outputs sg)
    (if shouldBeHead sg (g_inputs g) counts.1 then true else sg_head sg)
    (if shouldBeTail sg (g_outputs g) counts.2 then true else sg_tail sg).

Definition inferHeadTailFlags (g : GraphInfoDatabase) : GraphInfoDatabase :=
  match subgraphs g with
  | [] => g
  | subs =>
      mkGraph (use_offloading g) (topoSort_order g) (g_inputs g) (g_outputs g)
        (infer_flags g (buildTensorUsageMaps subs) <$> subs)
  end.

(** ** The register maps *)

(** Every element of a shape must be a number. *)
Definition dims (o : list (string * json)) (k : string) : res (list Z) :=
  match get_arr o k with Some a => mapM GetInt64 a | None => mret [] end.

Definition parseTensorInfoFields (o : list (string * json)) : res TensorInfo :=
  let dt := GetDataTypeNum <$> get_str o "dtype" in
  es ← match dt with Some d => data_size d | None => mret 0 end;
  sh ← dims o "shape";
  se ← dims o "shape_encoded";
  let sc := get_float o "scale" in
  let bi := if sc then get_float o "bias" else None in
  mret (mkTensorInfo (default "" (get_str o "name")) dt sh
          (default "" (get_str o "name_encoded")) (GetDataTypeNum <$> get_str o "dtype_encoded") se
          (default 0 (GetLayoutNum <$> get_str o "layout")) (default 0 (get_int o "align_unit"))
          (default 0 (GetTransposeNum <$> get_str o "transpose"))
          sc bi (if bi then true else false)
          (default no_memory (parseMemoryObject <$> get_obj o "memory")) es)%string.

Definition parse_input (v : json) : res TensorInfo := o ← members v; parseTensorInfoFields o.
Definition parse_output (v : json) : res TensorInfo :=
  o ← members v; t ← parseTensorInfoFields o; processOutputTensor o t.

Definition parseSingleRmapInfo (d : list (string * json)) (taskBufferCount : Z) : res RegisterInfoDatabase :=
  let vers := default [] (get_obj d "version") in
  let ver k := default "" (get_str vers k) in
  c ← parse_counts d;
  mm ← match get_arr d "memory" with
       | Some a => fold_res (parse_memory_entry taskBufferCount) no_model_memory a
       | None => mret no_model_memory
       end;
  ins ← match get_arr d "inputs" with Some a => mapM parse_input a | None => mret [] end;
  outs ← match get_arr d "outputs" with Some a => mapM parse_output a | None => mret [] end;
  mret (mkRegister (ver "npu") (ver "rmap") (ver "rmapInfo") (ver "opt_level")
          (default "" (get_str d "name")) (default "" (get_str d "mode"))
          (default 0 (get_obj d "npu" ≫= fun o => get_int64 o "mac"))
          (default 0 (get_int64 d "size")) (c.1.1.1) (c.1.1.2) (c.1.2) (c.2) mm ins outs (-1))%string.

(** ** The header *)

Definition parse_task (npuName : string) (p : BinaryInfoDatabase) (e : string * json) : res BinaryInfoDatabase :=
  o ← members e.2;
  let m := mkModels npuName (c_string e.1) [] [] 0 0 in
  p ← parse_section o "rmap" m push_rmap p;
  p ← parse_section o "weight" m push_weight p;
  p ← parse_section o "rmap_info" m push_rmap_info p;
  parse_section o "bitmatch" m push_bitmatch p.

Definition parseCompiledDataForNpu (v : json) (npuName : string) (p : BinaryInfoDatabase) : res BinaryInfoDatabase :=
  o ← members v; fold_res (parse_task npuName) p o.

Section V7.
Context (Parse : bytes -> option json).

Definition parse_compile_config (buf : bytes) (off : Z) (o : list (string * json)) (p : BinaryInfoDatabase)
    : res BinaryInfoDatabase :=
  cc_offset ← parse_member o "offset" 0;
  cc_size ← parse_member o "size" 0;
  text ← section buf (cc_offset + off) cc_size;
  match Parse (c_str text) with
  | None => inl Undefined                     (** [HasMember] of a null document *)
  | Some d =>
      c ← members d;
      mret (mkBinary (cpu_models p) (graph_info p) (rmap p) (weight p) (rmap_info p) (bitmatch_mask p) (ppu p)
              (dxnnFileFormatVersion p) (default (compilerVersion p) (get_str c "compile_version")) (ppuType p))
  end.

Definition parseDataSection (o : list (string * json)) (p : BinaryInfoDatabase) (buf : bytes) (off : Z)
    : res BinaryInfoDatabase :=
  p ← match get_obj o "cpu_models" with
      | Some c => l ← parseCpuModels c (cpu_models p); mret (set_cpu_models l p)
      | None => mret p
      end;
  p ← match get_obj o "compile_config" with
      | Some c => parse_compile_config buf off c p
      | None => mret p
      end;
  p ← match get_obj o "graph_info" with
      | Some g => m ← parseModelsOffsetSize g (graph_info p); mret (set_graph_info m p)
      | None => mret p
      end;
  match get_obj o "compiled_data" with
  | Some c => fold_res (fun p e => parseCompiledDataForNpu e.2 (c_string e.1) p) p c
  | None => mret p
  end.

Definition load_sections (p : BinaryInfoDatabase) (buf : bytes) (off : Z) : res BinaryInfoDatabase :=
  cpu ← copyBinaryDataToModels (cpu_models p) buf off;
  text ← section buf (off + offset (graph_info p)) (size (graph_info p));
  rm ← copyBinaryDataToModels (rmap p) buf off;
  w ← copyBinaryDataToModels (weight p) buf off;
  ri ← copyStringDataToModels (rmap_info p) buf off;
  bm ← copyBinaryDataToModels (bitmatch_mask p) buf off;
  mret (mkBinary cpu (with_str text (graph_info p)) rm w ri bm (ppu p)
          (dxnnFileFormatVersion p) (compilerVersion p) (ppuType p)).

Definition loadBinaryInfo (p : BinaryInfoDatabase) (buf : bytes) : res BinaryInfoDatabase :=
  sign ← read_at buf 0 4;
  if negb (bool_decide (sign = DXNN)) then inl NotDXNN
  else
    _ ← read_at buf 4 4;
    let v := file_version buf in
    let p := set_version v p in
    if (v <? 6) || (8 <? v) then inl NotSupported
    else if negb (v =? 7) then inl NotSupported
    else
      header ← read_at buf 8 (SIZE_INFO - 8);
      match Parse (c_str header) with
      | None => inl HeaderError
      | Some d =>
          h ← members d;
          p ← match get_obj h "data" with
              | Some o => parseDataSection o p buf SIZE_INFO
              | None => mret p
              end;
          load_sections p buf SIZE_INFO
      end.

(** Without a graph the function returns before the inference. *)
Definition loadGraphInfo (g : GraphInfoDatabase) (b : BinaryInfoDatabase) : res GraphInfoDatabase :=
  match Parse (c_str (str (graph_info b))) with
  | None => mret g
  | Some d =>
      o ← members d;
      let strings k d := match get_arr o k with Some a => parseStringArray a | None => d end in
      subs ← match get_arr o "graphs" with Some a => mapM parseSubGraph a | None => mret (subgraphs g) end;
      mret (inferHeadTailFlags
             (mkGraph (default (use_offloading g) (get_bool o "offloading"))
                (strings "toposort_order" (topoSort_order g)) (strings "inputs" (g_inputs g))
                (strings "outputs" (g_outputs g)) subs))
  end%string.

Definition load_rmap (taskBufferCount : Z) (acc : list RegisterInfoDatabase * string) (m : Models)
    : res (list RegisterInfoDatabase * string) :=
  match Parse (c_str (str m)) with
  | None => inl RmapError
  | Some v =>
      d ← members v;
      r ← parseSingleRmapInfo d taskBufferCount;
      mret (acc.1 ++ [r], default acc.2 (get_str d "mode"))
  end.

Definition loadRmapInfo (l : list RegisterInfoDatabase) (b : BinaryInfoDatabase) (taskBufferCount : Z)
    : res (list RegisterInfoDatabase * string) :=
  r ← fold_res (load_rmap taskBufferCount) (l, ""%string) (rmap_info b);
  mret (r.1, lower r.2).

Definition ParseModel (buf : bytes) (taskBufferCount : Z) : res (ModelDataBase * string) :=
  b ← loadBinaryInfo new_binary buf;
  g ← loadGraphInfo new_graph b;
  r ← loadRmapInfo [] b taskBufferCount;
  mret (mkData g b r.1, r.2).

(** The parser of version 6 is [other]. *)
Definition LoadModelParam (other : bytes -> res (ModelDataBase * string)) (buf : bytes) (bufferCount : Z)
    : res (ModelDataBase * string) :=
  ModelParser.LoadModelParam Parse (fun v buf => if v =? 7 then ParseModel buf bufferCount else other buf) buf bufferCount.

End V7.

(** ** Register maps: what loads here loads the same under version 8 *)

Lemma mapM_agree {A B} (f g : A -> res B) l :
  (forall a b, f a = inr b -> g a = inr b) -> forall l', mapM f l = inr l' -> mapM g l = inr l'.
Proof.
  intros H. induction l as [|a l IH]; intros l' E; [done|]. cbn in E |- *. parse_step E. parse_step E.
  rewrite (H _ _ E0). cbn. by rewrite (IH _ E1).
Qed.

Lemma mapM_GetInt64 a : forall l, mapM GetInt64 a = inr l -> int64s a = l.
Proof.
  induction a as [|v a IH]; intros l E; [by injection E as <-|]. cbn in E. parse_step E. parse_step E. injection E as <-.
  by rewrite (GetInt64_int64s _ _ _ E0), (IH _ E1).
Qed.

Lemma dims_agree o k l : dims o k = inr l -> int64s (default [] (get_arr o k)) = l.
Proof. unfold dims. destruct (get_arr o k); [apply mapM_GetInt64|by intros [= <-]]. Qed.

Lemma fields_agree o t : parseTensorInfoFields o = inr t -> ModelParser.parseTensorInfoFields o = inr t.
Proof.
  unfold parseTensorInfoFields, ModelParser.parseTensorInfoFields. intros E. parse_step E. parse_step E. parse_step E.
  injection E as <-. rewrite E0. cbn. by rewrite (dims_agree _ _ _ E1), (dims_agree _ _ _ E2).
Qed.

Lemma input_agree v t : parse_input v = inr t -> ModelParser.parse_input v = inr t.
Proof. unfold parse_input, ModelParser.parse_input. intros E. parse_step E. rewrite E0. by apply fields_agree. Qed.

Lemma output_agree v t : parse_output v = inr t -> ModelParser.parse_output v = inr t.
Proof.
  unfold parse_output, ModelParser.parse_output. intros E. parse_step E. parse_step E. rewrite E0. cbn.
  by rewrite (fields_agree _ _ E1).
Qed.

Lemma register_agree d n r :
  get_obj d "model_memory" = None -> parseSingleRmapInfo d n = inr r -> ModelParser.parseSingleRmapInfo d n (-1) = inr r.
Proof.
  unfold parseSingleRmapInfo, ModelParser.parseSingleRmapInfo, parse_model_memory. intros Hm E. rewrite Hm.
  parse_step E. rewrite E0. cbn. parse_step E. rewrite E1. cbn. parse_step E. parse_step E.
  assert (match get_arr d "inputs" with Some a => mapM ModelParser.parse_input a | None => mret [] end = inr a1) as ->
    by (destruct (get_arr d "inputs"); [by eapply mapM_agree; [apply input_agree|]|done]).
  assert (match get_arr d "outputs" with Some a => mapM ModelParser.parse_output a | None => mret [] end = inr a2) as ->
    by (destruct (get_arr d "outputs"); [by eapply mapM_agree; [apply output_agree|]|done]).
  exact E.
Qed.

(** ** Headers *)

(** No task has a PPU binary. *)
Definition no_ppu_npu (npu_ : string * json) : Prop :=
  forall tasks, npu_.2 = Obj tasks -> Forall (fun t => forall o, t.2 = Obj o -> get_obj o "ppu" = None) tasks.
(** A document without the members that only version 8 reads. *)
Definition portable_doc (h : list (string * json)) : Prop :=
  get_obj h "model_memory" = None /\ get_obj h "ppu" = None /\
  forall d, get_obj h "data" = Some d ->
    (forall c n, get_obj d "compile_config" = Some c -> parse_member c "offset" 0 = inr n -> 0 <= n) /\
    (forall c, get_obj d "compiled_data" = Some c -> Forall no_ppu_npu c).
(** The texts in the file are such documents. *)
Definition portable (Parse : bytes -> option json) (buf : bytes) : Prop :=
  forall off n text h, section buf off n = inr text -> Parse (c_str text) = Some (Obj h) -> portable_doc h.

Definition plain (p : BinaryInfoDatabase) : Prop := ppu p = [] /\ ppuType p = -1.
(** A step of the two parsers, on databases that differ in the version only. *)
Definition same_step (r7 r8 : res BinaryInfoDatabase) : Prop :=
  forall p', r7 = inr p' -> plain p' /\ r8 = inr (set_version 8 p').

Lemma same_ret p : plain p -> same_step (mret p) (mret (set_version 8 p)).
Proof. by intros H p' [= <-]. Qed.

Lemma same_bind r7 r8 f7 f8 :
  same_step r7 r8 -> (forall p, plain p -> same_step (f7 p) (f8 (set_version 8 p))) ->
  same_step (r7 ≫= f7) (r8 ≫= f8).
Proof. intros H Hf p' E. parse_step E. destruct (H _ E0) as [Hp ->]. cbn. by apply Hf. Qed.

Lemma same_section o k m push p :
  plain p -> (forall m p, plain p -> plain (push m p) /\ push m (set_version 8 p) = set_version 8 (push m p)) ->
  same_step (parse_section o k m push p) (parse_section o k m push (set_version 8 p)).
Proof.
  intros Hp Hpush p' E. unfold parse_section in *. destruct (get_obj o k) as [s|]; [|by injection E as <-].
  parse_step E. injection E as <-. rewrite E0. cbn [mbind parser_bind]. by destruct (Hpush a p Hp) as [? ->].
Qed.

Lemma same_task npuName p e :
  plain p -> (forall o, e.2 = Obj o -> get_obj o "ppu" = None) ->
  same_step (parse_task npuName p e) (ModelParser.parse_task npuName (set_version 8 p) e).
Proof.
  intros Hp Ho. unfold parse_task, ModelParser.parse_task. destruct (e.2) as [| | | | | |o]; try done.
  specialize (Ho o eq_refl). cbn [members mret parser_ret mbind parser_bind].
  apply same_bind; [by apply same_section|]. intros p1 H1.
  apply same_bind; [by apply same_section|]. intros p2 H2.
  apply same_bind; [by apply same_section|]. intros p3 H3.
  intros p' E. destruct (same_section _ _ _ push_bitmatch _ H3 ltac:(done) _ E) as [Hp' ->].
  split; [done|]. cbn. unfold parse_section. by rewrite Ho.
Qed.

Lemma same_fold {A} (f7 f8 : BinaryInfoDatabase -> A -> res BinaryInfoDatabase) l : forall p,
  plain p -> Forall (fun e => forall p, plain p -> same_step (f7 p e) (f8 (set_version 8 p) e)) l ->
  same_step (fold_res f7 p l) (fold_res f8 (set_version 8 p) l).
Proof.
  induction l as [|e l IH]; intros p Hp Hl; [by apply same_ret|]. apply Forall_cons in Hl as [He Hl].
  cbn. apply same_bind; [by apply He|]. intros p1 H1. by apply IH.
Qed.

Lemma same_npu v npuName p :
  plain p -> no_ppu_npu (npuName, v) ->
  same_step (parseCompiledDataForNpu v npuName p) (ModelParser.parseCompiledDataForNpu v npuName (set_version 8 p)).
Proof.
  intros Hp Ho. unfold parseCompiledDataForNpu, ModelParser.parseCompiledDataForNpu. destruct v as [| | | | | |o]; try done.
  cbn. apply same_fold; [done|]. eapply Forall_impl; [exact (Ho o eq_refl)|]. intros e He q Hq. by apply same_task.
Qed.

(** *** The version byte *)

Definition as_version_8 (buf : list Z) : list Z := <[4%nat := 8]> buf.

Lemma read_past_version (buf : list Z) off n : 5 <= off -> read_at (as_version_8 buf) off n = read_at buf off n.
Proof.
  intros H. unfold read_at, as_version_8. rewrite length_insert. destruct (_ && _); [|done].
  by rewrite drop_insert_lt by lia.
Qed.

Lemma section_past_version buf off n : 5 <= off -> section (as_version_8 buf) off n = section buf off n.
Proof. intros H. unfold section. by rewrite read_past_version. Qed.

Lemma copy_past_version set_ buf l :
  Forall (fun m => 0 <= offset m) l ->
  mapM (fun m => b ← section (as_version_8 buf) (SIZE_INFO + offset m) (size m); (mret (set_ b m) : res Models)) l =
  mapM (fun m => b ← section buf (SIZE_INFO + offset m) (size m); mret (set_ b m)) l.
Proof.
  induction l as [|m l IH]; [done|]. intros Hl. apply Forall_cons in Hl as [Hm Hl]. cbn.
  rewrite section_past_version by (unfold SIZE_INFO; lia). by rewrite IH.
Qed.

(** *** The whole header *)

Lemma same_config Parse buf c p :
  plain p -> portable Parse buf ->
  (forall n, parse_member c "offset" 0 = inr n -> 0 <= n) ->
  same_step (parse_compile_config Parse buf SIZE_INFO c p)
    (ModelParser.parse_compile_config Parse (as_version_8 buf) SIZE_INFO c (set_version 8 p)).
Proof.
  intros Hp Ht Hn p' E. unfold parse_compile_config, ModelParser.parse_compile_config in *.
  parse_step E. parse_step E. parse_step E. rewrite E0, E1. cbn [mbind parser_bind].
  rewrite section_past_version by (specialize (Hn _ E0); unfold SIZE_INFO; lia). rewrite E2. cbn [mbind parser_bind].
  destruct (Parse (c_str a1)) as [d|] eqn:Ed; [|done]. destruct d as [| | | | | |c']; try done.
  injection E as <-. cbn. destruct (Ht _ _ _ _ E2 Ed) as (_ & -> & _). done.
Qed.

Lemma same_data_section Parse buf o p :
  plain p -> portable Parse buf ->
  (forall c n, get_obj o "compile_config" = Some c -> parse_member c "offset" 0 = inr n -> 0 <= n) ->
  (forall c, get_obj o "compiled_data" = Some c -> Forall no_ppu_npu c) ->
  same_step (parseDataSection Parse o p buf SIZE_INFO)
    (ModelParser.parseDataSection Parse o (set_version 8 p) (as_version_8 buf) SIZE_INFO).
Proof.
  intros Hp Ht Hc Hd. unfold parseDataSection, ModelParser.parseDataSection.
  apply same_bind.
  { destruct (get_obj o "cpu_models") as [c|]; [|by apply same_ret]. intros p' E. parse_step E. injection E as <-.
    cbn. by rewrite E0. }
  intros p1 H1. apply same_bind.
  { destruct (get_obj o "compile_config") as [c|] eqn:Ec; [|by apply same_ret]. apply same_config; [done..|].
    intros n. by apply Hc. }
  intros p2 H2. apply same_bind.
  { destruct (get_obj o "graph_info") as [c|]; [|by apply same_ret]. intros p' E. parse_step E. injection E as <-.
    cbn. by rewrite E0. }
  intros p3 H3. destruct (get_obj o "compiled_data") as [c|] eqn:Ec; [|by apply same_ret].
  apply same_fold; [done|]. eapply Forall_impl; [by apply Hd|]. intros e He q Hq. apply same_npu; [done|].
  by intros tasks Et; apply He.
Qed.

(** The sections of the file begin after the header. *)
Definition nonneg (p : BinaryInfoDatabase) : Prop :=
  Forall (fun m => 0 <= offset m)
    (graph_info p :: cpu_models p ++ rmap p ++ weight p ++ rmap_info p ++ bitmatch_mask p).

Lemma copy_offsets set_ buf l l' :
  (forall b m, offset (set_ b m) = offset m) ->
  mapM (fun m => b ← section buf (SIZE_INFO + offset m) (size m); (mret (set_ b m) : res Models)) l = inr l' ->
  Forall (fun m => 0 <= offset m) l' -> Forall (fun m => 0 <= offset m) l.
Proof.
  intros Hs E. apply mapM_res_Forall2 in E. induction E as [|m m' l l' Hm _ IH]; [done|]. intros Hl.
  apply Forall_cons in Hl as [H0 Hl]. constructor; [|by apply IH]. parse_step Hm. injection Hm as <-. by rewrite Hs in H0.
Qed.

Lemma copied set_ buf l l' :
  (forall b m, offset (set_ b m) = offset m) ->
  mapM (fun m => b ← section buf (SIZE_INFO + offset m) (size m); (mret (set_ b m) : res Models)) l = inr l' ->
  Forall (fun m => 0 <= offset m) l' ->
  mapM (fun m => b ← section (as_version_8 buf) (SIZE_INFO + offset m) (size m); (mret (set_ b m) : res Models)) l = inr l'.
Proof. intros Hs E Hl. rewrite copy_past_version; [done|]. by eapply copy_offsets. Qed.

Lemma same_sections buf p p' :
  plain p -> load_sections p buf SIZE_INFO = inr p' -> nonneg p' ->
  plain p' /\ ModelParser.load_sections (set_version 8 p) (as_version_8 buf) SIZE_INFO = inr (set_version 8 p').
Proof.
  intros [Hp Ht] E Hn. unfold load_sections in E. do 6 parse_step E. injection E as <-. split; [done|].
  unfold nonneg in Hn. cbn [graph_info cpu_models rmap weight rmap_info bitmatch_mask] in Hn.
  rewrite Forall_cons, !Forall_app in Hn. destruct Hn as (Hg & Hc & Hr & Hw & Hi & Hb).
  unfold ModelParser.load_sections, copyBinaryDataToModels, copyStringDataToModels in *.
  cbn [cpu_models graph_info rmap weight rmap_info bitmatch_mask ppu set_version].
  rewrite (copied with_buffer buf _ _ (fun _ _ => eq_refl) E0 Hc). cbn [mbind parser_bind].
  rewrite section_past_version, E1 by (cbn in Hg; unfold SIZE_INFO; lia). cbn [mbind parser_bind].
  rewrite (copied with_buffer buf _ _ (fun _ _ => eq_refl) E2 Hr). cbn [mbind parser_bind].
  rewrite (copied with_buffer buf _ _ (fun _ _ => eq_refl) E3 Hw). cbn [mbind parser_bind].
  rewrite (copied with_str buf _ _ (fun _ _ => eq_refl) E4 Hi). cbn [mbind parser_bind].
  rewrite (copied with_buffer buf _ _ (fun _ _ => eq_refl) E5 Hb). cbn [mbind parser_bind].
  by rewrite Hp.
Qed.

(** A file of version 7. *)
Definition is_v7 (buf : list Z) : Prop := take 8 buf = DXNN ++ [7; 0; 0; 0].

Lemma v7_version buf : is_v7 buf -> take 4 buf = DXNN /\ file_version buf = 7 /\ 8 <= Z.of_nat (length buf).
Proof.
  unfold is_v7. intros H. do 8 (destruct buf as [|? buf]; [done|]). cbn in H. injection H as -> -> -> -> -> -> -> ->.
  split; [done|]. split; [done|]. cbn. lia.
Qed.
Lemma v7_as_version_8 buf : is_v7 buf -> is_v8 (as_version_8 buf).
Proof.
  unfold is_v7. intros H. do 8 (destruct buf as [|? buf]; [done|]). cbn in H. injection H as -> -> -> -> -> -> -> ->.
  split; [done|]. split; [done|]. cbn. lia.
Qed.

Lemma same_binary Parse buf b :
  is_v7 buf -> portable Parse buf -> loadBinaryInfo Parse new_binary buf = inr b -> nonneg b ->
  plain b /\ ModelParser.loadBinaryInfo Parse new_binary (as_version_8 buf) = inr (set_version 8 b).
Proof.
  intros H7 Ht E Hn. destruct (v7_version _ H7) as (Hm & Hv & Hl). rewrite load_header by (by apply v7_as_version_8).
  unfold loadBinaryInfo in E. rewrite (read_at_in buf 0 4), (read_at_in buf 4 4) in E by lia.
  cbn [mbind parser_bind] in E. change (take (Z.to_nat 4) (drop (Z.to_nat 0) buf)) with (take 4 buf) in E.
  rewrite Hm, bool_decide_eq_true_2, Hv in E by done.
  cbn [negb Z.ltb Z.eqb Z.compare orb Pos.compare Pos.compare_cont Pos.eqb] in E.
  parse_step E. unfold read_header. rewrite read_past_version, E0 by lia. cbn [mbind parser_bind].
  destruct (Parse (c_str a)) as [d|] eqn:Ed; [|done]. destruct d as [| | | | | |h]; try done.
  cbn [members mret parser_ret mbind parser_bind] in E |- *.
  assert (portable_doc h) as (_ & _ & Hd) by (apply (Ht 8 (SIZE_INFO - 8) a h); [exact E0|done]).
  parse_step E. assert (plain a0 /\ match get_obj h "data" with
      | Some o => ModelParser.parseDataSection Parse o (set_version 8 new_binary) (as_version_8 buf) SIZE_INFO
      | None => mret (set_version 8 new_binary) end = inr (set_version 8 a0)) as [Hp ->].
  { destruct (get_obj h "data") as [o|]; [|by injection E1 as <-]. destruct (Hd o eq_refl) as [Hc Hdata].
    by apply (same_data_section Parse buf o (set_version 7 new_binary)). }
  by apply same_sections.
Qed.

(** *** The texts *)

Lemma same_graph Parse b g :
  loadGraphInfo Parse new_graph b = inr g ->
  exists g8, ModelParser.loadGraphInfo Parse new_graph (set_version 8 b) = inr g8 /\ g = inferHeadTailFlags g8.
Proof.
  unfold loadGraphInfo, ModelParser.loadGraphInfo. cbn [graph_info set_version]. intros E.
  destruct (Parse _) as [d|]; [|injection E as <-; by exists new_graph].
  parse_step E. rewrite E0. cbn [mbind parser_bind]. parse_step E. rewrite E1. cbn. injection E as <-. by eexists.
Qed.

Lemma same_rmaps Parse n l : forall acc r,
  (forall m h, m ∈ l -> Parse (c_str (str m)) = Some (Obj h) -> get_obj h "model_memory" = None) ->
  fold_res (load_rmap Parse n) acc l = inr r -> fold_res (ModelParser.load_rmap Parse n (-1)) acc l = inr r.
Proof.
  induction l as [|m l IH]; intros acc r Hm E; [done|]. cbn in E |- *. parse_step E.
  assert (ModelParser.load_rmap Parse n (-1) acc m = inr a) as ->.
  { unfold load_rmap, ModelParser.load_rmap in *. destruct (Parse _) as [d|] eqn:Ed; [|done].
    destruct d as [| | | | | |h]; try done. cbn in E0 |- *. parse_step E0. injection E0 as <-.
    by rewrite (register_agree _ _ _ (Hm m h (list_elem_of_here _ _) Ed) E1). }
  cbn. apply IH; [|done]. intros m' h Hin. apply Hm. by apply list_elem_of_further.
Qed.

Lemma loaded_texts Parse p buf b :
  loadBinaryInfo Parse p buf = inr b -> forall m, m ∈ rmap_info b -> exists off n, section buf off n = inr (str m).
Proof.
  intros E m Hm. unfold loadBinaryInfo in E. parse_step E. destruct (negb _); [done|]. parse_step E.
  destruct (_ || _); [done|]. destruct (negb _); [done|]. parse_step E. destruct (Parse _); [|done]. parse_step E.
  parse_step E. unfold load_sections in E. do 6 parse_step E. injection E as <-. cbn in Hm.
  unfold copyStringDataToModels in *.
  match goal with H : mapM (fun m => b ← _; mret (with_str b m)) _ = inr ?l |- _ =>
    apply mapM_res_Forall2 in H; apply list_elem_of_lookup in Hm as [i Hi];
    destruct (Forall2_lookup_r _ _ _ _ _ H Hi) as (m0 & _ & H0) end.
  parse_step H0. injection H0 as <-. by eexists _, _.
Qed.

(** C36. A version 7 file without the members only version 8 has (PPU binaries and types,
    [model_memory]) that loads gives the model the same bytes give with version number 8: the same
    binaries, graph and register maps, up to the flags of heads and tails that are inferred. *)
Theorem v7_loads_like_v8 Parse buf n db mode :
  is_v7 buf -> portable Parse buf -> ParseModel Parse buf n = inr (db, mode) -> nonneg (deepx_binary db) ->
  exists g, ModelParser.ParseModel Parse (as_version_8 buf) n
    = inr (mkData g (set_version 8 (deepx_binary db)) (deepx_rmap db), mode) /\
    deepx_graph db = inferHeadTailFlags g.
Proof.
  intros H7 Ht E Hn. unfold ParseModel in E. parse_step E. parse_step E. parse_step E. injection E as <- <-.
  cbn [deepx_binary deepx_graph deepx_rmap] in *. destruct (same_binary _ _ _ H7 Ht E0 Hn) as [[_ Hp] E8].
  destruct (same_graph _ _ _ E1) as (g & Eg & Hg). exists g. split; [|done].
  unfold ModelParser.ParseModel. rewrite E8. cbn [mbind parser_bind]. rewrite Eg. cbn [mbind parser_bind].
  unfold loadRmapInfo in E2. parse_step E2. injection E2 as <-.
  unfold ModelParser.loadRmapInfo. cbn [rmap_info ppuType set_version]. rewrite Hp.
  erewrite same_rmaps; [reflexivity| |exact E].
  intros m h Hm Eh. destruct (loaded_texts _ _ _ _ E0 m Hm) as (off & k & Es).
  by destruct (Ht _ _ _ _ Es Eh) as (Hmem & _).
Qed.

(** A file with one task of two graph nodes; [demo_rmap] is its register map. *)
Definition demo7_header : json :=
  Obj [("data", Obj [("graph_info", demo_section 3 1);
                     ("compiled_data", Obj [("npu_0", Obj [("a", demo_task 0 1 [])])])])]%string.
Definition demo7_graph : json :=
  Obj [("inputs", Arr [Str "x"]); ("outputs", Arr [Str "z"]);
       ("graphs", Arr [Obj [("name", Str "a"); ("inputs", Arr [Obj [("name", Str "x")]]);
                            ("outputs", Arr [Obj [("name", Str "y"); ("owner", Str "a"); ("users", Arr [Str "b"])]])];
                       Obj [("name", Str "b"); ("inputs", Arr [Obj [("name", Str "y"); ("owner", Str "a")]]);
                            ("outputs", Arr [Obj [("name", Str "z"); ("owner", Str "b")]])]])]%string.
Definition demo7_parse (text : bytes) : option json :=
  if bool_decide (text = [72]) then Some demo7_header
  else if bool_decide (text = [82]) then Some demo_rmap
  else if bool_decide (text = [71]) then Some demo7_graph else None.
Definition demo7_file : list Z := Eval vm_compute in
  DXNN ++ [7; 0; 0; 0; 72] ++ replicate 8183 0 ++ [1; 2; 82; 71].
Definition demo7_model : ModelDataBase * string := Eval vm_compute in
  match ParseModel demo7_parse demo7_file 4 with inr r => r | inl _ => (mkData new_graph new_binary [], ""%string) end.

Lemma demo7_portable : portable demo7_parse demo7_file.
Proof.
  intros off n text h _ E. unfold demo7_parse in E.
  repeat (destruct (bool_decide _) in E; [injection E as <-|]); [| | |done];
    (split; [done|]); (split; [done|]); intros d Hd; try done.
  injection Hd as <-. split; [done|]. intros c Hc. injection Hc as <-. constructor; [|done].
  intros tasks Ht. cbn in Ht. injection Ht as <-. constructor; [|done]. intros o Ho. cbn in Ho. by injection Ho as <-.
Qed.

(** The heads and tails of the graph after the inference. *)
Definition ends (g : GraphInfoDatabase) : list (bool * bool) := (fun sg => (sg_head sg, sg_tail sg)) <$> subgraphs g.

Lemma v7_loads_like_v8_witness :
  ends (deepx_graph demo7_model.1) = [(true, false); (false, true)] /\
  exists g, ModelParser.ParseModel demo7_parse (as_version_8 demo7_file) 4
    = inr (mkData g (set_version 8 (deepx_binary demo7_model.1)) (deepx_rmap demo7_model.1), demo7_model.2) /\
    deepx_graph demo7_model.1 = inferHeadTailFlags g.
Proof.
  split; [reflexivity|]. apply (v7_loads_like_v8 demo7_parse demo7_file 4); [reflexivity|apply demo7_portable|by vm_compute|].
  unfold nonneg. cbn. repeat constructor; cbn; lia.
Defined.

(** ** What is inferred *)

Lemma foldl_concat {A B C} (f : A -> B -> A) (g : C -> list B) l : forall a,
  foldl (fun acc x => foldl f acc (g x)) a l = foldl f a (concat (g <$> l)).
Proof. induction l as [|x l IH]; intros a; [done|]. cbn. by rewrite IH, foldl_app. Qed.

(** All counts are positive. *)
Definition counts_ok (m : gmap string Z) : Prop := forall k n, m !! k = Some n -> 0 < n.

Lemma bump_spec k m :
  counts_ok m -> counts_ok (bump k m) /\ forall j, counted (bump k m) j = bool_decide (j = k) || counted m j.
Proof.
  intros Hm. unfold bump, counted. split.
  - intros j n Hj. destruct (decide (j = k)) as [->|]; [|rewrite lookup_insert_ne in Hj by done; by eapply Hm].
    rewrite lookup_insert_eq in Hj. injection Hj as <-. destruct (m !! k) eqn:E; cbn; [apply Hm in E|]; lia.
  - intros j. destruct (decide (j = k)) as [->|Hj].
    + rewrite lookup_insert_eq, bool_decide_eq_true_2 by done. cbn [orb]. apply Z.ltb_lt.
      destruct (m !! k) eqn:E; cbn; [apply Hm in E|]; lia.
    + by rewrite lookup_insert_ne, bool_decide_eq_false_2.
Qed.

Lemma bumps_spec ks : forall m,
  counts_ok m -> counts_ok (foldl (fun m k => bump k m) m ks) /\
    forall j, counted (foldl (fun m k => bump k m) m ks) j = true <-> j ∈ ks \/ counted m j = true.
Proof.
  induction ks as [|k ks IH]; intros m Hm; [split; [done|]; intros j; by rewrite elem_of_nil; naive_solver|].
  destruct (bump_spec k m Hm) as [Hb Hc]. destruct (IH _ Hb) as [H1 H2]. split; [done|]. intros j. cbn [foldl].
  rewrite H2, Hc, elem_of_cons, orb_true_iff, bool_decide_eq_true. tauto.
Qed.

Lemma count_tensors ts : forall acc,
  foldl count_tensor acc ts =
    (foldl (fun m k => bump k m) acc.1 (t_name <$> ts), foldl (fun m k => bump k m) acc.2 (concat (t_users <$> ts))).
Proof. induction ts as [|t ts IH]; intros [a b]; [done|]. cbn. by rewrite IH, foldl_app. Qed.

(** A subgraph has an output of that name; a subgraph of that name uses an output. *)
Definition produced (subs : list SubGraph) (k : string) : Prop :=
  exists sg t, sg ∈ subs /\ t ∈ sg_outputs sg /\ t_name t = k.
Definition uses (subs : list SubGraph) (k : string) : Prop :=
  exists sg t, sg ∈ subs /\ t ∈ sg_outputs sg /\ k ∈ t_users t.

Lemma elem_of_concat {A} (x : A) (ll : list (list A)) : x ∈ concat ll <-> exists l, x ∈ l /\ l ∈ ll.
Proof. rewrite list_elem_of_In, in_concat. setoid_rewrite list_elem_of_In. naive_solver. Qed.

Lemma elem_of_outputs subs t :
  t ∈ concat (sg_outputs <$> subs) <-> exists sg, sg ∈ subs /\ t ∈ sg_outputs sg.
Proof.
  rewrite elem_of_concat. split.
  - intros (l & Ht & Hl). apply list_elem_of_fmap in Hl as (sg & -> & Hs). by exists sg.
  - intros (sg & Hs & Ht). exists (sg_outputs sg). split; [done|]. by apply list_elem_of_fmap_2.
Qed.

Lemma usage_maps subs k :
  (counted (buildTensorUsageMaps subs).1 k = true <-> produced subs k) /\
  (counted (buildTensorUsageMaps subs).2 k = true <-> uses subs k).
Proof.
  unfold buildTensorUsageMaps. rewrite foldl_concat, count_tensors. cbn [fst snd].
  assert (counts_ok ∅) as H0 by (intros j n Hj; by rewrite lookup_empty in Hj).
  assert (counted ∅ k = true <-> False) as He by (unfold counted; by rewrite lookup_empty).
  rewrite (proj2 (bumps_spec _ _ H0) k), (proj2 (bumps_spec (concat _) _ H0) k), He. split.
  - rewrite list_elem_of_fmap. setoid_rewrite elem_of_outputs. unfold produced. naive_solver.
  - rewrite elem_of_concat. setoid_rewrite list_elem_of_fmap. setoid_rewrite elem_of_outputs. unfold uses. naive_solver.
Qed.

(** What makes a head and a tail of a subgraph that is not marked. *)
Definition reads_from_outside (g : GraphInfoDatabase) (sg : SubGraph) : Prop :=
  (exists t, t ∈ sg_inputs sg /\ t_name t ∈ g_inputs g) \/
  (forall t, t ∈ sg_inputs sg -> t_owner t = ""%string /\ ~ produced (subgraphs g) (t_name t)).
Definition writes_to_outside (g : GraphInfoDatabase) (sg : SubGraph) : Prop :=
  (exists t, t ∈ sg_outputs sg /\ t_name t ∈ g_outputs g) \/
  (forall t, t ∈ sg_outputs sg -> t_users t = [] /\ ~ uses (subgraphs g) (t_name t)).

Lemma existsb_elem {A} (f : A -> bool) (P : A -> Prop) l :
  (forall a, f a = true <-> P a) -> existsb f l = true <-> exists a, a ∈ l /\ P a.
Proof. intros H. rewrite existsb_exists. setoid_rewrite H. by setoid_rewrite list_elem_of_In. Qed.
Lemma forallb_elem {A} (f : A -> bool) (P : A -> Prop) l :
  (forall a, f a = true <-> P a) -> forallb f l = true <-> forall a, a ∈ l -> P a.
Proof. intros H. rewrite forallb_forall. setoid_rewrite H. by setoid_rewrite list_elem_of_In. Qed.

Lemma head_spec g sg :
  (if shouldBeHead sg (g_inputs g) (buildTensorUsageMaps (subgraphs g)).1 then true else sg_head sg) = true <->
  sg_head sg = true \/ reads_from_outside g sg.
Proof.
  unfold shouldBeHead, reads_from_outside. destruct (sg_head sg); [naive_solver|].
  match goal with |- (if ?b then true else false) = true <-> _ => transitivity (b = true); [by destruct b|] end.
  rewrite orb_true_iff, (existsb_elem _ (fun t => t_name t ∈ g_inputs g)), (forallb_elem _ (fun t => t_owner t = ""%string /\ ~ produced (subgraphs g) (t_name t))).
  - naive_solver.
  - intros t. by rewrite andb_true_iff, bool_decide_eq_true, negb_true_iff, <- not_true_iff_false, (proj1 (usage_maps _ _)).
  - intros t. by rewrite bool_decide_eq_true.
Qed.

Lemma tail_spec g sg :
  (if shouldBeTail sg (g_outputs g) (buildTensorUsageMaps (subgraphs g)).2 then true else sg_tail sg) = true <->
  sg_tail sg = true \/ writes_to_outside g sg.
Proof.
  unfold shouldBeTail, writes_to_outside. destruct (sg_tail sg); [naive_solver|].
  match goal with |- (if ?b then true else false) = true <-> _ => transitivity (b = true); [by destruct b|] end.
  rewrite orb_true_iff, (existsb_elem _ (fun t => t_name t ∈ g_outputs g)), (forallb_elem _ (fun t => t_users t = [] /\ ~ uses (subgraphs g) (t_name t))).
  - naive_solver.
  - intros t. rewrite andb_true_iff, bool_decide_eq_true, negb_true_iff, <- not_true_iff_false, (proj2 (usage_maps _ _)). tauto.
  - intros t. by rewrite bool_decide_eq_true.
Qed.

Lemma inferred_subgraphs g :
  subgraphs (inferHeadTailFlags g) = infer_flags g (buildTensorUsageMaps (subgraphs g)) <$> subgraphs g.
Proof. unfold inferHeadTailFlags. by destruct (subgraphs g) eqn:E; [rewrite E|]. Qed.

(** The inference marks as heads the subgraphs that read an input of the model or nothing that
    another one produces, and as tails those that write an output of the model or nothing that is
    used; marks are never removed and nothing else changes. *)
Theorem flags_inferred g i sg :
  subgraphs g !! i = Some sg ->
  exists hd tl, subgraphs (inferHeadTailFlags g) !! i
      = Some (mkSubGraph (sg_name sg) (sg_device sg) (sg_inputs sg) (sg_outputs sg) hd tl) /\
    (hd = true <-> sg_head sg = true \/ reads_from_outside g sg) /\
    (tl = true <-> sg_tail sg = true \/ writes_to_outside g sg).
Proof.
  intros Hi. rewrite inferred_subgraphs, list_lookup_fmap, Hi. eexists _, _. split; [reflexivity|].
  by rewrite head_spec, tail_spec.
Qed.

Lemma extremal {A} (l : list A) (rank : A -> Z) : l <> [] -> exists a, a ∈ l /\ forall b, b ∈ l -> rank a <= rank b.
Proof.
  induction l as [|a [|b l] IH]; [done| |]; intros _.
  - exists a. split; [apply list_elem_of_here|]. intros c Hc. by apply list_elem_of_singleton in Hc as ->.
  - destruct (IH ltac:(done)) as (c & Hc & Hmin). destruct (Z.le_gt_cases (rank a) (rank c)).
    + exists a. split; [apply list_elem_of_here|]. intros d Hd. apply elem_of_cons in Hd as [->|Hd]; [done|].
      specialize (Hmin d Hd). lia.
    + exists c. split; [by apply list_elem_of_further|]. intros d Hd. apply elem_of_cons in Hd as [->|Hd]; [lia|]. by apply Hmin.
Qed.

(** In a graph without cycles in which no tensor has the name of a subgraph that uses one,
    the inference leaves at least one head and one tail, which the engine requires. *)
Theorem acyclic_graph_has_ends g (rank : SubGraph -> Z) :
  subgraphs g <> [] ->
  (forall sg t, sg ∈ subgraphs g -> t ∈ sg_inputs sg -> t_owner t <> ""%string \/ produced (subgraphs g) (t_name t) ->
    exists sg', sg' ∈ subgraphs g /\ rank sg' < rank sg) ->
  (forall sg t, sg ∈ subgraphs g -> t ∈ sg_outputs sg -> t_users t <> [] ->
    exists sg', sg' ∈ subgraphs g /\ rank sg < rank sg') ->
  (forall k, produced (subgraphs g) k -> ~ uses (subgraphs g) k) ->
  Exists (fun sg => sg_head sg = true) (subgraphs (inferHeadTailFlags g)) /\
  Exists (fun sg => sg_tail sg = true) (subgraphs (inferHeadTailFlags g)).
Proof.
  intros Hne Hin Hout Hnames. rewrite inferred_subgraphs, !Exists_fmap. split; apply Exists_exists.
  - destruct (extremal _ rank Hne) as (sg & Hs & Hmin). exists sg. split; [done|]. apply head_spec. right. right.
    intros t Ht. assert (~ (t_owner t <> ""%string \/ produced (subgraphs g) (t_name t))) as Hno.
    { intros Ho. destruct (Hin sg t Hs Ht Ho) as (sg' & Hs' & Hlt). specialize (Hmin sg' Hs'). lia. }
    destruct (decide (t_owner t = ""%string)); naive_solver.
  - destruct (extremal _ (fun sg => - rank sg) Hne) as (sg & Hs & Hmin). exists sg. split; [done|].
    apply tail_spec. right. right. intros t Ht. split; [|by apply Hnames; exists sg, t].
    destruct (decide (t_users t = [])) as [|Hu]; [done|]. destruct (Hout sg t Hs Ht Hu) as (sg' & Hs' & Hlt).
    specialize (Hmin sg' Hs'). cbn in Hmin. lia.
Qed.
Definition tensor (n owner : string) (users : list string) : Tensor := mkTensor n owner users.
(** Two subgraphs in a row; the tensor between them, and what the second one writes. *)
Definition chain (out : string) : GraphInfoDatabase :=
  mkGraph false [] ["x"] []
    [mkSubGraph "a" "npu" [tensor "x" "" []] [tensor "y" "a" ["b"]] false false;
     mkSubGraph "b" "cpu" [tensor "y" "a" []] [tensor out "b" []] false false]%string.

Lemma acyclic_graph_has_ends_witness :
  Exists (fun sg => sg_head sg = true) (subgraphs (inferHeadTailFlags (chain "z"))) /\
  Exists (fun sg => sg_tail sg = true) (subgraphs (inferHeadTailFlags (chain "z"))).
Proof.
  apply (acyclic_graph_has_ends _ (fun sg => if bool_decide (sg_name sg = "a")%string then 0 else 1)).
  - done.
  - intros sg t Hs Ht Ho. exists (mkSubGraph "a" "npu" [tensor "x" "" []] [tensor "y" "a" ["b"]] false false)%string.
    split; [apply list_elem_of_here|]. repeat (apply elem_of_cons in Hs as [-> | Hs]); [| |by apply elem_of_nil in Hs].
    + apply list_elem_of_singleton in Ht as ->. destruct Ho as [Ho|(sg' & t' & Hs' & Ht' & Hn)]; [done|].
      repeat (apply elem_of_cons in Hs' as [-> | Hs']); [| |by apply elem_of_nil in Hs'];
        apply list_elem_of_singleton in Ht' as ->; done.
    + by vm_compute.
  - intros sg t Hs Ht Hu. exists (mkSubGraph "b" "cpu" [tensor "y" "a" []] [tensor "z" "b" []] false false)%string.
    split; [apply list_elem_of_further, list_elem_of_here|].
    repeat (apply elem_of_cons in Hs as [-> | Hs]); [| |by apply elem_of_nil in Hs].
    + by vm_compute.
    + by apply list_elem_of_singleton in Ht as ->.
  - intros k (sg & t & Hs & Ht & <-) (sg' & t' & Hs' & Ht' & Hk).
    repeat (apply elem_of_cons in Hs as [-> | Hs]); [| |by apply elem_of_nil in Hs];
    repeat (apply elem_of_cons in Hs' as [-> | Hs']); try (by apply elem_of_nil in Hs');
    apply list_elem_of_singleton in Ht as ->; apply list_elem_of_singleton in Ht' as ->; set_solver.
Defined.

(** The consumers are counted by the names of the subgraphs and looked up by the names of the
    tensors: when the last tensor has the name of the subgraph that writes it, the same graph
    is left without a tail. *)
Theorem tensor_named_like_its_subgraph :
  ends (inferHeadTailFlags (chain "z")) = [(true, false); (false, true)] /\
  ends (inferHeadTailFlags (chain "b")) = [(true, false); (false, false)].
Proof. split; reflexivity. Qed.

End ModelParserV7.
