(* ===== verification/ModelParserV6.v ===== *)
(** * Model files of version 6

    [lib/parsers/v6_model_parser.cpp].  The texts of such a file have another form: they are
    converted to that of version 7, written as JSON texts into the database, and read back.  The
    JSON library is [Parse] and [Write]; [AddMember] moves a value, which is null afterwards.

    The theorems are that converting and loading a graph is one function of the document,
    and what the outputs of a register map are made of. *)

From Stdlib Require Import ZArith Lia Ascii.
From stdpp Require Import strings.
From S2P Require Import Prelude TaskData Engine ModelParser ModelParserThms ModelParserV7.

Module ModelParserV6.
Import ModelParser.

(** ** Values *)

(** [HasMember], which asserts an object; [GetString], which asserts a string. *)
Definition has (v : json) (k : string) : res (option json) := o ← members v; mret (member o k).
Definition GetString (v : json) : res string := match v with Str s => mret (c_string s) | _ => inl Undefined end.

(** A member of an object that was moved away. *)
Fixpoint moved (k : string) (l : list (string * json)) : list (string * json) :=
  match l with
  | [] => []
  | (k', v) :: l => if bool_decide (k' = k) then (k', Null) :: l else (k', v) :: moved k l
  end.

(** A member, when there is one, under another name. *)
Definition copied (k : string) (o : option json) : list (string * json) :=
  match o with Some v => [(k, v)] | None => [] end.

(** ** [ConvertGraphInfoV6ToV7] *)

Definition source_of (v : json) : string :=
  match v with Obj o => default "" (get_str o "source") | _ => "" end.
Definition users_of (v : json) : list string :=
  match v with Obj o => parseStringArray (default [] (get_arr o "next_layers")) | _ => [] end.

(** An input of the graph [g], and whether it makes the task a head. *)
Definition convert_input (modelInputs : list string) (g : list (string * json)) (e : string * json) : json * bool :=
  let inputName := c_string e.1 in
  let isTensorHead := bool_decide (inputName ∈ modelInputs) in
  (Obj [("name", Str inputName); ("owner", Str (source_of e.2)); ("head", Bool isTensorHead); ("tail", Bool false);
        ("users", Arr (match get_str g "name" with Some t => [Str t] | None => [] end))],
   bool_decide (source_of e.2 = "") && isTensorHead)%string.

Definition convert_output (modelOutputs : list string) (g : list (string * json)) (e : string * json) : json * bool :=
  let outputName := c_string e.1 in
  let isModelOutput := bool_decide (outputName ∈ modelOutputs) in
  (Obj ([("name", Str outputName)] ++ copied "owner" (Str <$> get_str g "name") ++
        [("head", Bool false); ("tail", Bool isModelOutput); ("users", Arr (Str <$> users_of e.2))]),
   isModelOutput)%string.

Definition convert_graph (modelInputs modelOutputs : list string) (v : json) : res json :=
  g ← members v;
  _ ← match member g "name" with Some n => _ ← GetString n; mret () | None => mret () end;
  let name := copied "name" (member g "name") in
  let g := moved "name" g in
  let device := copied "device" (member g "type") in
  let g := moved "type" g in
  let ins := (fun l => convert_input modelInputs g <$> l) <$> get_obj g "inputs" in
  let outs := (fun l => convert_output modelOutputs g <$> l) <$> get_obj g "outputs" in
  let isHead := existsb snd (default [] ins) in
  let isTail := existsb snd (default [] outs) in
  mret (Obj (name ++ device ++ copied "inputs" ((fun l => Arr (fst <$> l)) <$> ins) ++
             copied "outputs" ((fun l => Arr (fst <$> l)) <$> outs) ++ [("head", Bool isHead); ("tail", Bool isTail)]))%string.

Definition strings_of (d : list (string * json)) (k : string) : list string :=
  parseStringArray (default [] (get_arr d k)).

Definition convert_graphs (d : list (string * json)) : res json :=
  graphs ← match get_arr d "graphs" with
           | Some a => l ← mapM (convert_graph (strings_of d "origin_input") (strings_of d "origin_output")) a; mret (Some (Arr l))
           | None => mret None
           end;
  mret (Obj (copied "offloading" (member d "offloading") ++ copied "inputs" (member d "origin_input") ++
             copied "outputs" (member d "origin_output") ++ copied "toposort_order" (member d "toposort_order") ++
             copied "graphs" graphs))%string.

(** ** What a register map takes from the graph *)

Definition is_npu_0 (o : list (string * json)) : bool := bool_decide (get_str o "name" = Some "npu_0")%string.

(** The first graph for which [f] has a result; [Some None] ends the search. *)
Fixpoint search {A} (f : list (string * json) -> res (option (option A))) (l : list json) : res (option A) :=
  match l with
  | [] => mret None
  | v :: l =>
      o ← members v;
      r ← (if is_npu_0 o then f o else mret None);
      match r with Some x => mret x | None => search f l end
  end.
Definition search_graphs {A} (d : list (string * json)) (f : list (string * json) -> res (option (option A))) : res (option A) :=
  search f (default [] (get_arr d "graphs")).

Definition ExtractInputNameFromV6Graph (d : list (string * json)) : res string :=
  r ← search_graphs d (fun o =>
        match get_obj o "inputs" with Some (e :: _) => mret (Some (Some (c_string e.1))) | _ => mret None end);
  mret (default "input" r)%string.

Definition ExtractInputShapeFromV6Graph (d : list (string * json)) : res (list json) :=
  r ← search_graphs d (fun o =>
        match get_obj o "inputs" with
        | Some (e :: _) => t ← members e.2; mret (Some <$> get_arr t "shape")
        | _ => mret None
        end);
  mret (default [Num 1] r).

(** Only the first [npu_0] is looked at. *)
Definition ExtractOutputShapeFromV6Graph (d : list (string * json)) (outputName : string) : res (list json) :=
  r ← search_graphs d (fun o =>
        mret (Some (outs ← get_obj o "outputs"; t ← get_obj outs outputName; get_arr t "shape")));
  mret (default [Num 1] r).

(** [version(level)] *)
Fixpoint split_paren (s : string) : string * option string :=
  match s with
  | EmptyString => (EmptyString, None)
  | String c s' =>
      if bool_decide (c = "("%char) then (EmptyString, Some s')
      else (String c (split_paren s').1, (split_paren s').2)
  end.
Fixpoint drop_paren (s : string) : string :=
  match s with
  | String ")" EmptyString => EmptyString
  | String c s => String c (drop_paren s)
  | EmptyString => EmptyString
  end.
Definition ParseV6Version (s : string) : string * string :=
  let p := split_paren s in (p.1, match p.2 with Some l => drop_paren l | None => EmptyString end).

(** ** [ConvertRmapInfoV6ToV7] *)

Definition convert_version (d : list (string * json)) : list (string * json) :=
  match get_obj d "version" with
  | None => []
  | Some o =>
      [("version", Obj (copied "npu" (Str <$> get_str o "npu") ++ copied "rmap" (Str <$> get_str o "rmap") ++
         match get_str o "rmapInfo" with
         | Some s => [("rmapInfo", Str (ParseV6Version s).1); ("opt_level", Str (ParseV6Version s).2)]
         | None => []
         end))]
  end%string.

Definition convert_npu (d : list (string * json)) : list (string * json) :=
  match get_obj d "npu" with Some o => [("npu", Obj (copied "mac" (Num <$> get_int64 o "mac")))] | None => [] end%string.

Definition convert_size (d : list (string * json)) : res (list (string * json)) :=
  match member d "size" with
  | Some (Str s) => n ← stoll (c_string s); mret [("size", Num n)]
  | Some (Num n) => mret (if is_int64 n then [("size", Num n)] else [])
  | _ => mret []
  end%string.

(** A member that [f] reads, if it is there. *)
Definition converted (o : list (string * json)) (k : string) (f : json -> res json) : res (list (string * json)) :=
  match member o k with Some v => w ← f v; mret [(k, w)] | None => mret [] end.
Definition as_num (v : json) : res json := n ← parseInt64FromValue v; mret (Num n).
Definition as_str (v : json) : res json := s ← GetString v; mret (Str s).

(** The memory object of the inputs or of the outputs. *)
Definition convert_memory (nm : string) (v : json) : res json :=
  o ← members v;
  off ← converted o "offset" as_num;
  sz ← converted o "size" as_num;
  ty ← converted o "type" as_str;
  mret (Obj (("name", Str nm) :: off ++ sz ++ ty))%string.
Definition convert_other_memory (v : json) : res json :=
  o ← members v;
  nm ← converted o "name" as_str;
  off ← converted o "offset" as_num;
  sz ← converted o "size" as_num;
  mret (Obj (nm ++ off ++ sz ++ [("type", Str "DRAM")]))%string.

(** [d[k][k']], if there are such members. *)
Definition nested (d : list (string * json)) (k k' : string) : res (option json) :=
  match member d k with Some v => has v k' | None => mret None end.
Definition list_of {A B} (f : A -> res B) (o : option A) : res (list B) :=
  match o with Some a => b ← f a; mret [b] | None => mret [] end.

Definition convert_memories (d : list (string * json)) : res (list json) :=
  i ← nested d "input" "memory";
  i ← list_of (convert_memory "INPUT") i;
  o ← nested d "outputs" "memory";
  o ← list_of (convert_memory "OUTPUT") o;
  m ← nested d "memorys" "memory";
  m ← match m with Some (Arr a) => mapM convert_other_memory a | _ => mret [] end;
  mret (i ++ o ++ m).

(** The memory of a tensor: its offset, size and type have defaults. *)
Definition tensor_memory (nm : string) (o : list (string * json)) : res json :=
  m ← match get_obj o "memory" with
      | Some m => off ← parse_member m "offset" 0; sz ← parse_member m "size" 0; mret (off, sz, default "DRAM" (get_str m "type"))
      | None => mret (0, 0, "DRAM")
      end;
  mret (Obj [("name", Str nm); ("offset", Num m.1.1); ("size", Num m.1.2); ("type", Str m.2)])%string.

(** The alignment by the last dimension. *)
Definition alignment (shape : list json) : res Z :=
  match last shape with Some v => n ← GetInt64 v; mret (if n <? 64 then 16 else 64) | None => mret 64 end.

Definition types_of (o : list (string * json)) : res (list (string * json)) :=
  match member o "type" with
  | Some v => s ← GetString v; mret [("dtype", Str s); ("dtype_encoded", Str s)]
  | None => mret []
  end%string.

Definition nulls : list (string * json) := [("transpose", Null); ("scale", Null); ("bias", Null)]%string.

Definition convert_input_tensor (input_name : string) (input_shape : list json) (v : json) : res json :=
  o ← members v;
  ts ← types_of o;
  a ← alignment input_shape;
  m ← tensor_memory "INPUT" o;
  mret (Obj ([("name", Str input_name)] ++ ts ++
             [("shape", Arr input_shape); ("shape_encoded", Arr input_shape); ("name_encoded", Str input_name);
              ("layout", Str "NONE"); ("align_unit", Num a)] ++ nulls ++ [("memory", m)]))%string.

Definition is_ppu (s : string) : bool := String.prefix "PPU_" s.

Definition convert_output_tensor (graph : list (string * json)) (v : json) : res json :=
  o ← members v;
  nm ← match member o "name" with Some n => s ← GetString n; mret (Some s) | None => mret None end;
  let outputName := default "" nm in
  ts ← types_of o;
  let format := get_str o "format" in
  let isPPUOutput := match format with Some f => is_ppu f | None => false end in
  s ← (if isPPUOutput then mret ([Num 1; Num (-1)], 64)
       else shape ← ExtractOutputShapeFromV6Graph graph outputName; a ← alignment shape; mret (shape, a));
  m ← tensor_memory "OUTPUT" o;
  mret (Obj (copied "name" (Str <$> nm) ++ copied "name_encoded" (Str <$> nm) ++ ts ++
             [("layout", Str (if isPPUOutput then default "" format else "NONE")); ("shape", Arr s.1);
              ("shape_encoded", Arr s.1); ("align_unit", Num s.2)] ++ nulls ++ [("memory", m)]))%string.

Definition convert_inputs (d graph : list (string * json)) : res (list json) :=
  input_name ← ExtractInputNameFromV6Graph graph;
  input_shape ← ExtractInputShapeFromV6Graph graph;
  list_of (convert_input_tensor input_name input_shape) (member d "input").

(** [outputs.outputList.output] *)
Definition output_list (d : list (string * json)) : res (list json) :=
  match member d "outputs" with
  | None => mret []
  | Some v =>
      l ← has v "outputList";
      match l with
      | None => mret []
      | Some l => a ← has l "output"; mret (match a with Some (Arr a) => a | _ => [] end)
      end
  end.

(** The name and the shape of the input are taken from the graph first. *)
Definition convert_rmap (d graph : list (string * json)) : res json :=
  _ ← ExtractInputNameFromV6Graph graph;
  _ ← ExtractInputShapeFromV6Graph graph;
  sz ← convert_size d;
  ms ← convert_memories d;
  ins ← convert_inputs d graph;
  ol ← output_list d;
  outs ← mapM (convert_output_tensor graph) ol;
  mret (Obj (convert_version d ++ copied "name" (Str <$> get_str d "model") ++ copied "mode" (Str <$> get_str d "mode") ++
             convert_npu d ++ sz ++ copied "counts" (Obj <$> get_obj d "counts") ++
             [("memory", Arr ms); ("inputs", Arr ins); ("outputs", Arr outs)]))%string.

(** ** Reading the file *)

(** The last dimension aligned. *)
Fixpoint align_last (l : list Z) : list Z :=
  match l with
  | [] => []
  | [v] => [i64 (GetAlign1 (u64 v))]
  | v :: l => v :: align_last l
  end.

Definition parseTensorInfoFields (isOutput : bool) (o : list (string * json)) : res TensorInfo :=
  t ← ModelParserV7.parseTensorInfoFields o;
  if isOutput then
    let se := align_last (shape_encoded t) in
    let unit := match last se with Some v => if v <? 64 then 16 else align_unit t | None => align_unit t end in
    mret (mkTensorInfo (ti_name t) (dtype t) (shape t) (name_encoded t) (dtype_encoded t) se (layout t) unit
            (transpose t) (scale t) (bias t) (use_quantization t) (memory t) (elem_size t))
  else mret t.

Definition ppu_output (t : TensorInfo) : res TensorInfo :=
  t ← processPpuOutput t;
  mret (mkTensorInfo (ti_name t) (dtype t) (shape t) (name_encoded t) (dtype_encoded t) [1; -1] (layout t) (align_unit t)
          (transpose t) (scale t) (bias t) (use_quantization t) (memory t) (elem_size t)).

Definition parse_input (v : json) : res TensorInfo := o ← members v; parseTensorInfoFields false o.
Definition parse_output (v : json) : res TensorInfo :=
  o ← members v;
  t ← parseTensorInfoFields true o;
  if mem_type (memory t) =? TaskData.PPU then ppu_output t else mret t.

Definition parseSingleRmapInfo (d : list (string * json)) (taskBufferCount : Z) : res RegisterInfoDatabase :=
  let vers := default [] (get_obj d "version") in
  let ver k := default "" (get_str vers k) in
  c ← parse_counts d;
  mm ← match get_arr d "memory" with
       | Some a => fold_res (parse_memory_entry taskBufferCount) no_model_memory a
       | None => mret no_model_memory
       end;
  ins ← match get_arr d "inputs" with Some a => mapM parse_input a | None => mret [] end;
  outs ← match get_arr d "outputs" with Some a => mapM parse_output a | None => mret [] end;
  mret (mkRegister (ver "npu") (ver "rmap") (ver "rmapInfo") (ver "opt_level")
          (default "" (get_str d "name")) (default "" (get_str d "mode"))
          (default 0 (get_obj d "npu" ≫= fun o => get_int64 o "mac"))
          (default 0 (get_int64 d "size")) (c.1.1.1) (c.1.1.2) (c.1.2) (c.2) mm ins outs (-1))%string.

(** The flags of the file are not read; heads and tails are found again. *)
Definition parse_subgraph (v : json) : res SubGraph :=
  o ← members v;
  ins ← match get_arr o "inputs" with Some a => parseTensorArray a | None => mret [] end;
  outs ← match get_arr o "outputs" with Some a => parseTensorArray a | None => mret [] end;
  mret (mkSubGraph (default "" (get_str o "name")) (default "" (get_str o "device")) ins outs false false)%string.

Definition mark_ends (modelInputs modelOutputs : list string) (sg : SubGraph) : SubGraph :=
  mkSubGraph (sg_name sg) (sg_device sg) (sg_inputs sg) (sg_outputs sg)
    (if existsb (fun t => bool_decide (t_owner t = "") && bool_decide (t_name t ∈ modelInputs)) (sg_inputs sg)
     then true else sg_head sg)
    (if existsb (fun t => bool_decide (t_name t ∈ modelOutputs)) (sg_outputs sg) then true else sg_tail sg)%string.

Definition find_ends (g : GraphInfoDatabase) : GraphInfoDatabase :=
  if existsb sg_tail (subgraphs g) then g
  else mkGraph (use_offloading g) (topoSort_order g) (g_inputs g) (g_outputs g)
         (mark_ends (g_inputs g) (g_outputs g) <$> subgraphs g).

Section V6.
Context (Parse : bytes -> option json) (Write : json -> bytes).

Definition ConvertGraphInfoV6ToV7 (text : bytes) : res bytes :=
  match Parse (c_str text) with
  | None => inl ConversionError
  | Some v => d ← members v; g ← convert_graphs d; mret (Write g)
  end.

Definition ConvertRmapInfoV6ToV7 (text graph : bytes) : res bytes :=
  match Parse (c_str text), Parse (c_str graph) with
  | Some v, Some g => g ← members g; d ← members v; r ← convert_rmap d g; mret (Write r)
  | _, _ => inl ConversionError
  end.

Definition set_texts (g : Models) (l : list Models) (p : BinaryInfoDatabase) : BinaryInfoDatabase :=
  mkBinary (cpu_models p) g (rmap p) (weight p) l (bitmatch_mask p) (ppu p)
    (dxnnFileFormatVersion p) (compilerVersion p) (ppuType p).

Definition PreProcessModel (p : BinaryInfoDatabase) : res BinaryInfoDatabase :=
  let v6 := str (graph_info p) in
  g ← ConvertGraphInfoV6ToV7 v6;
  l ← mapM (fun m => s ← ConvertRmapInfoV6ToV7 (str m) v6; (mret (with_str s m) : res Models)) (rmap_info p);
  mret (set_texts (with_str g (graph_info p)) l p).

(** As in version 7. *)
Definition parseDataSection (o : list (string * json)) (p : BinaryInfoDatabase) (buf : bytes) (off : Z)
    : res BinaryInfoDatabase := ModelParserV7.parseDataSection Parse o p buf off.
Definition load_sections (p : BinaryInfoDatabase) (buf : bytes) (off : Z) : res BinaryInfoDatabase :=
  ModelParserV7.load_sections p buf off.

Definition loadBinaryInfo (p : BinaryInfoDatabase) (buf : bytes) : res BinaryInfoDatabase :=
  sign ← read_at buf 0 4;
  if negb (bool_decide (sign = DXNN)) then inl NotDXNN
  else
    _ ← read_at buf 4 4;
    let v := file_version buf in
    let p := set_version v p in
    if negb (v =? 6) then inl NotSupported
    else
      header ← read_at buf 8 (SIZE_INFO - 8);
      match Parse (c_str header) with
      | None => inl HeaderError
      | Some d =>
          h ← members d;
          p ← match get_obj h "data" with
              | Some o => parseDataSection o p buf SIZE_INFO
              | None => mret p
              end;
          load_sections p buf SIZE_INFO
      end.

Definition loadGraphInfo (g : GraphInfoDatabase) (b : BinaryInfoDatabase) : res GraphInfoDatabase :=
  match Parse (c_str (str (graph_info b))) with
  | None => mret g
  | Some d =>
      o ← members d;
      let strings k d := match get_arr o k with Some a => parseStringArray a | None => d end in
      subs ← match get_arr o "graphs" with Some a => mapM parse_subgraph a | None => mret (subgraphs g) end;
      mret (find_ends
             (mkGraph (default (use_offloading g) (get_bool o "offloading"))
                (strings "toposort_order" (topoSort_order g)) (strings "inputs" (g_inputs g))
                (strings "outputs" (g_outputs g)) subs))
  end%string.

Definition load_rmap (taskBufferCount : Z) (acc : list RegisterInfoDatabase * string) (m : Models)
    : res (list RegisterInfoDatabase * string) :=
  match Parse (c_str (str m)) with
  | None => inl RmapError
  | Some v =>
      d ← members v;
      r ← parseSingleRmapInfo d taskBufferCount;
      mret (acc.1 ++ [r], default acc.2 (get_str d "mode"))
  end.

Definition loadRmapInfo (l : list RegisterInfoDatabase) (b : BinaryInfoDatabase) (taskBufferCount : Z)
    : res (list RegisterInfoDatabase * string) :=
  r ← fold_res (load_rmap taskBufferCount) (l, ""%string) (rmap_info b);
  mret (r.1, lower r.2).

Definition ParseModel (buf : bytes) (taskBufferCount : Z) : res (ModelDataBase * string) :=
  b ← loadBinaryInfo new_binary buf;
  b ← PreProcessModel b;
  g ← loadGraphInfo new_graph b;
  r ← loadRmapInfo [] b taskBufferCount;
  mret (mkData g b r.1, r.2).

End V6.

(** All versions. *)
Definition LoadModelParam (Parse : bytes -> option json) (Write : json -> bytes) (buf : bytes) (bufferCount : Z)
    : res (ModelDataBase * string) :=
  ModelParserV7.LoadModelParam Parse (fun buf => ParseModel Parse Write buf bufferCount) buf bufferCount.

(** ** Members of what is written *)

Lemma member_cons k v l k' : member ((k, v) :: l) k' = if bool_decide (k = k') then Some v else member l k'.
Proof. unfold member. cbn. by destruct (bool_decide (k = k')). Qed.

Lemma member_copied k o l k' :
  member (copied k o ++ l) k' =
  if bool_decide (k = k') then match o with Some v => Some v | None => member l k' end else member l k'.
Proof. destruct o as [v|]; cbn [copied app]; [by rewrite member_cons|]. by destruct (bool_decide _). Qed.

Lemma member_copied1 k o k' : member (copied k o) k' = if bool_decide (k = k') then o else None.
Proof. rewrite <- (app_nil_r (copied k o)), member_copied. by destruct o, (bool_decide _). Qed.

Lemma member_moved k l k' : k <> k' -> member (moved k l) k' = member l k'.
Proof.
  intros Hk. induction l as [|[j v] l IH]; [done|]. cbn [moved]. destruct (decide (j = k)) as [->|Hj].
  - rewrite bool_decide_eq_true_2 by done. by rewrite !member_cons, bool_decide_eq_false_2.
  - rewrite bool_decide_eq_false_2 by done. by rewrite !member_cons, IH.
Qed.

Lemma member_moved_same k l : member (moved k l) k = (fun _ => Null) <$> member l k.
Proof.
  induction l as [|[j v] l IH]; [done|]. cbn [moved]. destruct (decide (j = k)) as [->|Hj].
  - rewrite bool_decide_eq_true_2 by done. by rewrite !member_cons, bool_decide_eq_true_2.
  - rewrite bool_decide_eq_false_2 by done. by rewrite !member_cons, bool_decide_eq_false_2, IH.
Qed.

(** Looks members up in an object that is written out. *)
Ltac keys :=
  rewrite ?member_copied, ?member_copied1, ?member_cons;
  repeat match goal with
  | |- context [@bool_decide (@eq string ?a ?b) ?D] =>
      let v := eval vm_compute in (@bool_decide (@eq string a b) D) in
      match v with
      | true => change (@bool_decide (@eq string a b) D) with true
      | false => change (@bool_decide (@eq string a b) D) with false
      end
  end; cbv iota.

(** A member that was moved away is no string any more. *)
Lemma get_str_moved k l : get_str (moved k l) k = None.
Proof. unfold get_str. rewrite member_moved_same. by destruct (member l k). Qed.

Lemma c_string_twice s : c_string (c_string s) = c_string s.
Proof. induction s as [|c s IH]; [done|]. cbn. destruct (N.eqb_spec (N_of_ascii c) 0) as [|H]; [done|]. cbn. by rewrite (proj2 (N.eqb_neq _ _) H), IH. Qed.

Lemma strings_written l : parseStringArray (Str <$> l) = c_string <$> l.
Proof. unfold parseStringArray. induction l as [|s l IH]; [done|]. cbn. by rewrite IH. Qed.

Lemma strings_twice a : c_string <$> parseStringArray a = parseStringArray a.
Proof.
  induction a as [|v a IH]; [done|]. unfold parseStringArray in *. destruct v; cbn; try done. by rewrite c_string_twice, IH.
Qed.

Lemma source_twice v : c_string (source_of v) = source_of v.
Proof.
  unfold source_of, get_str. destruct v as [| | | | | |o]; try done. destruct (member o "source") as [[]|]; try done.
  cbn. apply c_string_twice.
Qed.

(** ** The graph in one step *)

(** The tensors keep no trace of their own task: it was moved away before it was copied. *)
Definition graph_input (e : string * json) : Tensor := mkTensor (c_string e.1) (source_of e.2) [].
Definition graph_output (e : string * json) : Tensor := mkTensor (c_string e.1) "" (users_of e.2).

Definition graph_task (modelInputs modelOutputs : list string) (v : json) : res SubGraph :=
  g ← members v;
  _ ← match member g "name" with Some n => _ ← GetString n; mret () | None => mret () end;
  let ins := graph_input <$> default [] (get_obj g "inputs") in
  let outs := graph_output <$> default [] (get_obj g "outputs") in
  mret (mkSubGraph (default "" (get_str g "name")) (default "" (get_str g "type")) ins outs
          (existsb (fun t => bool_decide (t_owner t = "") && bool_decide (t_name t ∈ modelInputs)) ins)
          (existsb (fun t => bool_decide (t_name t ∈ modelOutputs)) outs))%string.

(** What a version 6 graph means. *)
Definition v6_graph (d : list (string * json)) : res GraphInfoDatabase :=
  let modelInputs := strings_of d "origin_input" in
  let modelOutputs := strings_of d "origin_output" in
  subs ← match get_arr d "graphs" with Some a => mapM (graph_task modelInputs modelOutputs) a | None => mret [] end;
  mret (mkGraph (default false (get_bool d "offloading")) (strings_of d "toposort_order") modelInputs modelOutputs subs).

Definition unmarked (sg : SubGraph) : SubGraph := mkSubGraph (sg_name sg) (sg_device sg) (sg_inputs sg) (sg_outputs sg) false false.

Lemma converted_input mi g e : get_str g "name" = None -> parseGraphInfoTensor (convert_input mi g e).1 = inr (graph_input e).
Proof.
  intros Hg. unfold convert_input, parseGraphInfoTensor, graph_input. rewrite Hg. unfold get_str, get_arr. cbn [fst].
  cbn [members mret parser_ret mbind parser_bind]. keys. cbn. by rewrite c_string_twice, source_twice.
Qed.

Lemma converted_output mo g e : get_str g "name" = None -> parseGraphInfoTensor (convert_output mo g e).1 = inr (graph_output e).
Proof.
  intros Hg. unfold convert_output, parseGraphInfoTensor, graph_output. rewrite Hg. unfold get_str, get_arr. cbn [fst app copied fmap option_fmap option_map].
  cbn [members mret parser_ret mbind parser_bind]. keys. cbn. rewrite c_string_twice, strings_written. unfold users_of. destruct e.2 as [| | | | | |o]; try done. cbn.
  by rewrite strings_twice.
Qed.

Lemma mapM_map_inr {A B C} (f : B -> res C) (g : A -> B) (h : A -> C) l :
  (forall a, f (g a) = inr (h a)) -> mapM f (g <$> l) = inr (h <$> l).
Proof. intros H. induction l as [|a l IH]; [done|]. cbn. rewrite H. cbn. by rewrite IH. Qed.

Lemma converted_tensors (o : option (list (string * json))) (f : string * json -> json * bool) (h : string * json -> Tensor) k :
  (forall e, parseGraphInfoTensor (f e).1 = inr (h e)) ->
  match
    match match (fun l => Arr (fst <$> l)) <$> ((fun l => f <$> l) <$> o) with Some v => Some v | None => member [] k end with
    | Some (Arr a) => Some a
    | _ => None
    end
  with Some a => parseTensorArray a | None => mret [] end = inr (h <$> default [] o).
Proof.
  intros Hf. destruct o as [l|]; [|done]. cbn. unfold parseTensorArray. rewrite <- list_fmap_compose. by apply mapM_map_inr.
Qed.

Lemma converted_task mi mo v :
  match convert_graph mi mo v with
  | inl e => graph_task mi mo v = inl e
  | inr j => exists t, graph_task mi mo v = inr t /\ parse_subgraph j = inr (unmarked t)
  end.
Proof.
  unfold convert_graph, graph_task. destruct v as [| | | | | |g]; try done. cbn [members mret parser_ret mbind parser_bind].
  destruct (match member g "name" with Some n => _ | None => _ end) as [e|u] eqn:En; [done|].
  cbn [mbind parser_bind]. eexists. split; [reflexivity|].
  set (g2 := moved "type" (moved "name" g)).
  assert (get_str g2 "name" = None) as Hn by (unfold get_str, g2; rewrite member_moved by done; apply (get_str_moved "name" g)).
  assert (forall k, k <> "name"%string -> k <> "type"%string -> get_obj g2 k = get_obj g k) as Hk
    by (intros k H1 H2; unfold get_obj, g2; by rewrite !member_moved by congruence).
  rewrite !Hk by done. unfold parse_subgraph, unmarked. cbn [sg_name sg_device sg_inputs sg_outputs members mret parser_ret mbind parser_bind].
  unfold get_arr at 1 2, get_str at 1 2. keys. rewrite (member_moved "name" g "type") by done.
  rewrite (converted_tensors _ (convert_input mi g2) graph_input) by (intros e; by apply converted_input). cbn [mbind parser_bind].
  rewrite (converted_tensors _ (convert_output mo g2) graph_output) by (intros e; by apply converted_output). cbn [mbind parser_bind].
  unfold get_str. do 2 f_equal; [by destruct (member g "name")|by destruct (member g "type")].
Qed.


Lemma converted_tasks mi mo a :
  match mapM (convert_graph mi mo) a with
  | inl e => mapM (graph_task mi mo) a = inl e
  | inr l => exists ts, mapM (graph_task mi mo) a = inr ts /\ mapM parse_subgraph l = inr (unmarked <$> ts)
  end.
Proof.
  induction a as [|v a IH]; [by exists []|]. cbn. pose proof (converted_task mi mo v) as Hv.
  destruct (convert_graph mi mo v) as [e|j]; cbn [mbind parser_bind]; [by rewrite Hv|].
  destruct Hv as (t & -> & Hj). cbn [mbind parser_bind]. destruct (mapM (convert_graph mi mo) a) as [e|l]; cbn [mbind parser_bind]; [by rewrite IH|].
  destruct IH as (ts & -> & Hl). exists (t :: ts). split; [done|]. cbn. rewrite Hj. cbn. by rewrite Hl.
Qed.

Lemma task_marks mi mo v t : graph_task mi mo v = inr t -> mark_ends mi mo (unmarked t) = t.
Proof.
  unfold graph_task. intros E. parse_step E. parse_step E. injection E as <-. unfold mark_ends, unmarked.
  cbn [sg_name sg_device sg_inputs sg_outputs sg_head sg_tail]. by destruct (existsb _ _), (existsb _ _).
Qed.

Lemma tasks_marked mi mo a : forall ts, mapM (graph_task mi mo) a = inr ts -> mark_ends mi mo <$> (unmarked <$> ts) = ts.
Proof.
  intros ts E. apply mapM_res_Forall2 in E. induction E as [|v t a ts Hv _ IH]; [done|].
  cbn. by rewrite (task_marks _ _ _ _ Hv), IH.
Qed.

Lemma unmarked_tails ts : existsb sg_tail (unmarked <$> ts) = false.
Proof. by induction ts. Qed.

Lemma strings_copied (o : option json) :
  match match match o with Some v => Some v | None => None end with Some (Arr a) => Some a | _ => None end with
  | Some a => parseStringArray a
  | None => []
  end = parseStringArray (default [] match o with Some (Arr a) => Some a | _ => None end).
Proof. by destruct o as [[]|]. Qed.

Lemma loaded_conversion Parse b d j :
  convert_graphs d = inr j -> Parse (c_str (str (graph_info b))) = Some j ->
  loadGraphInfo Parse new_graph b = v6_graph d.
Proof.
  intros Ej Ep. unfold loadGraphInfo, v6_graph. rewrite Ep. unfold convert_graphs in Ej. parse_step Ej. injection Ej as <-.
  cbn [members mret parser_ret mbind parser_bind]. unfold get_arr at 1 2 3 4, get_bool at 1. keys.
  pose proof (converted_tasks (strings_of d "origin_input") (strings_of d "origin_output") (default [] (get_arr d "graphs"))) as Ht.
  assert (exists ts, match get_arr d "graphs" with Some a => mapM (graph_task (strings_of d "origin_input") (strings_of d "origin_output")) a | None => mret [] end = inr ts /\
    match a with Some (Arr l) => mapM parse_subgraph l | _ => mret [] end = inr (unmarked <$> ts) /\
    mark_ends (strings_of d "origin_input") (strings_of d "origin_output") <$> (unmarked <$> ts) = ts) as (ts & -> & Hl & Hm).
  { destruct (get_arr d "graphs") as [l|]; [|injection E as <-; by exists []]. parse_step E. injection E as <-.
    cbn [from_option] in Ht. unfold id in Ht. rewrite E0 in Ht. destruct Ht as (ts & Hts & Hl). exists ts. split; [done|]. split; [done|]. by eapply tasks_marked. }
  assert (match match a with Some (Arr l) => Some l | _ => None end with
    Some l => mapM parse_subgraph l | None => mret (subgraphs new_graph) end = inr (unmarked <$> ts)) as ->
    by (rewrite <- Hl; by destruct a as [[]|]).
  cbn [mbind parser_bind]. unfold find_ends. cbn [subgraphs g_inputs g_outputs topoSort_order use_offloading new_graph].
  rewrite unmarked_tails. rewrite !strings_copied. unfold strings_of, get_arr in *. rewrite Hm. unfold get_bool. do 2 f_equal.
  by destruct (member d "offloading").
Qed.

(** C38. Converting the graph of a version 6 file to a text of version 7 and loading that text is one
    function of the document, failures included, whenever the JSON library reads back what it wrote: each
    task has its inputs with their sources and its outputs with their users; it is a head when it has
    an input of the model without a source, a tail when it has an output of the model.  What the
    tensors should say of their own task is lost. *)
Theorem v6_graph_loads_directly Parse Write b d :
  Parse (c_str (str (graph_info b))) = Some (Obj d) ->
  (forall j, convert_graphs d = inr j -> Parse (c_str (Write j)) = Some j) ->
  (text ← ConvertGraphInfoV6ToV7 Parse Write (str (graph_info b));
   loadGraphInfo Parse new_graph (set_texts (with_str text (graph_info b)) (rmap_info b) b)) = v6_graph d.
Proof.
  intros Ep Hw. unfold ConvertGraphInfoV6ToV7. rewrite Ep. cbn [members mret parser_ret mbind parser_bind].
  destruct (convert_graphs d) as [e|j] eqn:Ej; cbn [mbind parser_bind].
  - unfold convert_graphs in Ej. unfold v6_graph. destruct (get_arr d "graphs") as [l|]; [|done].
    pose proof (converted_tasks (strings_of d "origin_input") (strings_of d "origin_output") l) as Ht.
    destruct (mapM (convert_graph _ _) l); [|done]. injection Ej as ->. by rewrite Ht.
  - by eapply loaded_conversion; [exact Ej|by apply Hw].
Qed.


(** ** The outputs of a register map *)

(** The unit of the alignment by the last dimension. *)
Definition unit_of (dims : list Z) : Z :=
  match last dims with Some d => if (d <? 64) || (i64 (GetAlign1 (u64 d)) <? 64) then 16 else 64 | None => 64 end.

Definition format_is_ppu (o : list (string * json)) : bool :=
  match get_str o "format" with Some f => is_ppu f | None => false end.

(** The dimensions a graph document has for an output name: those of the first graph called
    [npu_0], and [1] when there is no such graph or it has none for the name.  The graphs
    before it are objects with another name. *)
Definition other_graph (v : json) : Prop :=
  exists o, v = Obj o /\ get_str o "name" <> Some "npu_0"%string.
Definition output_dims (o : list (string * json)) (n : string) (dims : list json) : Prop :=
  exists outs t, member o "outputs" = Some (Obj outs) /\ member outs n = Some (Obj t) /\
    member t "shape" = Some (Arr dims).

Inductive graph_dims (g : list (string * json)) (n : string) : list json -> Prop :=
| dims_found pre o post dims :
    member g "graphs" = Some (Arr (pre ++ Obj o :: post)) -> Forall other_graph pre ->
    get_str o "name" = Some "npu_0"%string -> output_dims o n dims -> graph_dims g n dims
| dims_missing pre o post :
    member g "graphs" = Some (Arr (pre ++ Obj o :: post)) -> Forall other_graph pre ->
    get_str o "name" = Some "npu_0"%string -> (forall dims, ~ output_dims o n dims) ->
    graph_dims g n [Num 1]
| dims_no_graph :
    (forall l, member g "graphs" = Some (Arr l) -> Forall other_graph l) -> graph_dims g n [Num 1].

Lemma search_dims n l : forall r,
  search (fun o => mret (Some (outs ← get_obj o "outputs"; t ← get_obj outs n; get_arr t "shape"))) l = inr r ->
  (exists pre o post, l = pre ++ Obj o :: post /\ Forall other_graph pre /\
     get_str o "name" = Some "npu_0"%string /\
     match r with Some dims => output_dims o n dims | None => forall dims, ~ output_dims o n dims end) \/
  (r = None /\ Forall other_graph l).
Proof.
  induction l as [|v l IH]; intros r E; [injection E as <-; by right|].
  cbn [search] in E. parse_step E. rename a into o. destruct v as [| | | | | |o']; try done.
  injection E0 as <-. unfold is_npu_0 in E. case_bool_decide as Hn.
  - cbn in E. left. exists [], o', l. split; [done|]. split; [constructor|]. split; [done|].
    unfold get_obj, get_arr in E. unfold output_dims.
    destruct (member o' "outputs") as [[| | | | | |outs]|]; cbn in E;
      try (injection E as <-; intros dims (? & ? & ? & _); congruence).
    destruct (member outs n) as [[| | | | | |t]|] eqn:En; cbn in E;
      try (injection E as <-; intros dims (? & ? & [= <-] & ? & _); congruence).
    destruct (member t "shape") as [[| | | | |dims|]|] eqn:Es; cbn in E; injection E as <-;
      try (intros dims' (? & ? & [= <-] & H1 & ?); congruence).
    by exists outs, t.
  - cbn in E. assert (other_graph (Obj o')) as Ho by (by exists o').
    destruct (IH r E) as [(pre & o & post & -> & Hp & H)|[-> Hl]].
    + left. exists (Obj o' :: pre), o, post. split; [done|]. split; [by constructor|done].
    + right. split; [done|by constructor].
Qed.

Lemma extracted_dims g n sh : ExtractOutputShapeFromV6Graph g n = inr sh -> graph_dims g n sh.
Proof.
  unfold ExtractOutputShapeFromV6Graph, search_graphs. intros E. parse_step E. injection E as <-.
  apply search_dims in E0 as [(pre & o & post & E & Hp & Hn & Hd)|[-> Hl]].
  - assert (member g "graphs" = Some (Arr (pre ++ Obj o :: post))) as Eg.
    { unfold get_arr in E. destruct (member g "graphs") as [[]|]; cbn in E; try (by destruct pre). by subst. }
    destruct a as [dims|]; [by eapply dims_found|by eapply dims_missing].
  - apply dims_no_graph. intros l El. unfold get_arr in Hl. by rewrite El in Hl.
Qed.

(** What an output [v] of a version 6 register map becomes: an output in the memory of the PPU
    has the type of its boxes and a shape that is not known; any other one whose format is
    not that of a PPU has the shape that the graph [g] has for its name, and one with such a format
    has the shape [1, -1], its last dimension aligned when encoded. *)
Definition output_of (g : list (string * json)) (v : json) (t : TensorInfo) : Prop :=
  exists o, v = Obj o /\
  if mem_type (memory t) =? TaskData.PPU
  then 5 <= layout t <= 7 /\ dtype t = Some (TaskData.BBOX + layout t - 5) /\ shape t = [1; -1] /\ shape_encoded t = [1; -1]
  else ti_name t = name_encoded t /\ name_encoded t = default "" (get_str o "name") /\ dtype t = dtype_encoded t /\
    typed_tensor t /\
    if format_is_ppu o then shape t = [1; -1] /\ shape_encoded t = align_last [1; -1]
    else layout t = 0 /\
      exists sh dims, graph_dims g (ti_name t) sh /\ mapM GetInt64 sh = inr dims /\
        shape t = dims /\ shape_encoded t = align_last dims /\ align_unit t = unit_of dims.

Lemma last_align l : last (align_last l) = (fun d => i64 (GetAlign1 (u64 d))) <$> last l.
Proof.
  induction l as [|v l IH]; [done|]. destruct l as [|v' l]; [done|].
  change (align_last (v :: v' :: l)) with (v :: align_last (v' :: l)). rewrite last_cons_cons, <- IH.
  destruct (align_last (v' :: l)) as [|x y] eqn:E; [|by rewrite last_cons_cons].
  by destruct l.
Qed.

Lemma mapM_last a : forall l, mapM GetInt64 a = inr l ->
  match last a with Some v => exists d, GetInt64 v = inr d /\ last l = Some d | None => l = [] end.
Proof.
  intros l E. apply mapM_res_Forall2 in E. induction E as [|v d a l Hv E IH]; [done|].
  destruct E as [|v' d' a l Hv' E]; [by exists d|]. rewrite !last_cons_cons. by destruct (last (v' :: a)).
Qed.

Lemma alignment_unit shape_ dims u :
  mapM GetInt64 shape_ = inr dims -> alignment shape_ = inr u ->
  match last (align_last dims) with Some v => if v <? 64 then 16 else u | None => u end = unit_of dims.
Proof.
  intros E Eu. apply mapM_last in E. unfold alignment in Eu. unfold unit_of. rewrite last_align. destruct (last shape_) as [v|].
  - destruct E as (d & Ed & ->). rewrite Ed in Eu. cbn in Eu. injection Eu as <-. cbn [fmap option_fmap option_map].
    destruct (d <? 64), (_ <? 64); done.
  - injection Eu as <-. by subst.
Qed.

Lemma get_int_unit shape_ u : alignment shape_ = inr u -> is_int u = true.
Proof.
  unfold alignment. destruct (last shape_) as [v|]; [|by intros [= <-]]. intros E. parse_step E. injection E as <-.
  by destruct (_ <? _).
Qed.

Lemma converted_memory nm o j : tensor_memory nm o = inr j -> exists l, j = Obj l.
Proof. unfold tensor_memory. intros E. parse_step E. injection E as <-. by eexists. Qed.

Lemma types_written o ts : types_of o = inr ts -> exists s, ts = copied "dtype" (Str <$> s) ++ copied "dtype_encoded" (Str <$> s).
Proof.
  unfold types_of. destruct (member o "type") as [v|]; [|intros [= <-]; by exists None].
  intros E. parse_step E. injection E as <-. by exists (Some a).
Qed.

Lemma output_written g o j :
  convert_output_tensor g (Obj o) = inr j ->
  exists nm s shape_ u m, j = Obj (copied "name" (Str <$> nm) ++ copied "name_encoded" (Str <$> nm) ++
      copied "dtype" (Str <$> s) ++ copied "dtype_encoded" (Str <$> s) ++
      [("layout", Str (if format_is_ppu o then default "" (get_str o "format") else "NONE")); ("shape", Arr shape_);
       ("shape_encoded", Arr shape_); ("align_unit", Num u)] ++ nulls ++ [("memory", Obj m)]) /\
    default "" nm = default "" (get_str o "name") /\ c_string (default "" nm) = default "" nm /\
    (if format_is_ppu o then shape_ = [Num 1; Num (-1)]
     else graph_dims g (default "" nm) shape_ /\ alignment shape_ = inr u).
Proof.
  unfold convert_output_tensor. cbn [members mret parser_ret mbind parser_bind]. intros E. parse_step E. parse_step E.
  fold (format_is_ppu o) in E. parse_step E. parse_step E. destruct (converted_memory _ _ _ E3) as [l ->].
  destruct (types_written _ _ E1) as [s ->]. injection E as <-. exists a, s, (a1.1), (a1.2), l. split; [by rewrite <- app_assoc|].
  assert (a = get_str o "name" /\ c_string (default "" a) = default "" a)%string as [-> Hc].
  { unfold get_str. destruct (member o "name") as [n|]; [|by injection E0 as <-]. parse_step E0. injection E0 as <-.
    destruct n; try done. injection E as <-. split; [done|]. apply c_string_twice. }
  split; [done|]. split; [done|]. destruct (format_is_ppu o); [by injection E2 as <-|].
  parse_step E2. parse_step E2. injection E2 as <-. split; [by apply extracted_dims|done].
Qed.

Lemma fields_read o t :
  ModelParserV7.parseTensorInfoFields o = inr t ->
  typed_tensor t /\ ti_name t = default "" (get_str o "name") /\ name_encoded t = default "" (get_str o "name_encoded") /\
  dtype t = GetDataTypeNum <$> get_str o "dtype" /\ dtype_encoded t = GetDataTypeNum <$> get_str o "dtype_encoded" /\
  ModelParserV7.dims o "shape" = inr (shape t) /\ ModelParserV7.dims o "shape_encoded" = inr (shape_encoded t) /\
  layout t = default 0 (GetLayoutNum <$> get_str o "layout") /\ align_unit t = default 0 (get_int o "align_unit").
Proof.
  intros E. split; [by eapply fields_typed, ModelParserV7.fields_agree|].
  unfold ModelParserV7.parseTensorInfoFields in E. parse_step E. parse_step E. parse_step E. injection E as <-. done.
Qed.

Lemma output_parsed g v j t : convert_output_tensor g v = inr j -> parse_output j = inr t -> output_of g v t.
Proof.
  intros E E'. destruct v as [| | | | | |o]; try done. exists o. split; [done|].
  destruct (output_written _ _ _ E) as (nm & s & shape_ & u & m & -> & Hnm & Hc & Hs). clear E.
  unfold parse_output in E'. cbn [members mret parser_ret mbind parser_bind] in E'. parse_step E'.
  unfold parseTensorInfoFields in E. parse_step E. apply fields_read in E0 as (Ht & H1 & H2 & H3 & H4 & H5 & H6 & H7 & H8).
  unfold get_str, get_int, ModelParserV7.dims, get_arr in H1, H2, H3, H4, H5, H6, H7, H8.
  unfold nulls in *. cbn [app] in H1, H2, H3, H4, H5, H6, H7, H8.
  revert H1. keys. intros H1. revert H2. keys. intros H2. revert H3. keys. intros H3. revert H4. keys. intros H4.
  revert H5. keys. intros H5. revert H6. keys. intros H6. revert H7. keys. intros H7. revert H8. keys. intros H8.
  assert (ti_name a0 = default "" nm /\ name_encoded a0 = default "" nm)%string as [Hn He].
  { rewrite H1, H2. clear -Hc. destruct nm as [n|]; [|done]. cbn in *. by rewrite Hc. }
  assert (dtype a0 = dtype_encoded a0) as Hd by (rewrite H3, H4; by destruct s).
  injection E as <-. cbn [mem_type memory] in E'. destruct (Z.eqb_spec (mem_type (memory a0)) TaskData.PPU) as [Hp|Hp].
  - unfold ppu_output in E'. parse_step E'. injection E' as <-. unfold processPpuOutput in E. parse_step E. injection E as <-.
    cbn [memory layout dtype shape shape_encoded]. rewrite Hp. cbn [Z.eqb TaskData.PPU Pos.eqb]. cbn [layout] in E0.
    split; [|done]. destruct (Z.eqb_spec (layout a0) 5); [lia|]. destruct (Z.eqb_spec (layout a0) 6); [lia|].
    destruct (Z.eqb_spec (layout a0) 7); [lia|done].
  - injection E' as <-. cbn [memory ti_name name_encoded dtype dtype_encoded layout shape shape_encoded align_unit].
    rewrite (proj2 (Z.eqb_neq _ _) Hp). split; [congruence|]. split; [by rewrite He|]. split; [done|].
    split; [exact Ht|]. rewrite H5 in H6. injection H6 as <-. destruct (format_is_ppu o).
    { rewrite Hs in H5. injection H5 as <-. done. }
    destruct Hs as [Hx Ha]. split; [by rewrite H7|].
    exists shape_, (shape a0). rewrite Hn. do 4 (split; [done|]).
    assert (align_unit a0 = u) as -> by (rewrite H8; cbn [default from_option]; by rewrite (get_int_unit _ _ Ha)).
    by apply alignment_unit with (shape_ := shape_).
Qed.


Lemma round_up_spec n a : 0 < a <= 64 -> 0 <= n < 2 ^ 63 - 64 -> (a | round_up n a) /\ n <= round_up n a < n + a.
Proof.
  intros Ha Hn. unfold round_up. pose proof (Z.mod_pos_bound n a ltac:(lia)). pose proof (Z.div_mod n a ltac:(lia)).
  destruct (Z.eqb_spec (n mod a) 0) as [E|E].
  - split; [by apply Z.mod_divide; [lia|]|lia].
  - rewrite uwrap_small by lia. split; [|lia]. exists (n / a + 1). lia.
Qed.

(** The last dimension is rounded up to the unit of the alignment. *)
Lemma last_aligned dims d :
  last dims = Some d -> 0 <= d < 2 ^ 63 - 64 ->
  exists e, last (align_last dims) = Some e /\ (unit_of dims | e) /\ d <= e < d + unit_of dims.
Proof.
  intros El Hd. unfold unit_of. rewrite last_align, El. cbn [fmap option_fmap option_map]. eexists. split; [reflexivity|].
  assert (u64 d = d) as -> by (apply uwrap_small; lia).
  assert (forall x, 0 <= x < 2 ^ 63 -> i64 x = x) as Hi.
  { intros x Hx. apply swrap_small; lia. }
  unfold GetAlign1. destruct (Z.ltb_spec d 64) as [Hs|Hs]; cbn [orb].
  - destruct (round_up_spec d 16 ltac:(lia) Hd) as [Hdiv Hr]. rewrite Hi by lia. by split.
  - destruct (round_up_spec d 64 ltac:(lia) Hd) as [Hdiv Hr]. rewrite Hi by lia. by rewrite (proj2 (Z.ltb_ge _ _)) by lia.
Qed.

Lemma outputs_parsed g ol : forall outs ts,
  mapM (convert_output_tensor g) ol = inr outs -> mapM parse_output outs = inr ts -> Forall2 (output_of g) ol ts.
Proof.
  induction ol as [|v ol IH]; intros outs ts E E'; [injection E as <-; by injection E' as <-|].
  cbn in E. parse_step E. parse_step E. injection E as <-. cbn in E'. parse_step E'. parse_step E'. injection E' as <-.
  constructor; [by eapply output_parsed|by eapply IH].
Qed.

Lemma size_written d l : convert_size d = inr l -> exists n, l = copied "size" n.
Proof.
  unfold convert_size. destruct (member d "size") as [[| |n| |s| |]|]; try (intros [= <-]; by exists None).
  - destruct (is_int64 n); intros [= <-]; [by exists (Some (Num n))|by exists None].
  - intros E. parse_step E. injection E as <-. by exists (Some (Num a)).
Qed.

Lemma version_written d : exists v, convert_version d = copied "version" v.
Proof. unfold convert_version. destruct (get_obj d "version") as [o|]; [by eexists (Some _)|by exists None]. Qed.
Lemma npu_written d : exists v, convert_npu d = copied "npu" v.
Proof. unfold convert_npu. destruct (get_obj d "npu") as [o|]; [by eexists (Some _)|by exists None]. Qed.

Lemma rmap_outputs d g j n r :
  convert_rmap d g = inr j -> (o ← members j; parseSingleRmapInfo o n) = inr r ->
  exists ol, output_list d = inr ol /\ Forall2 (output_of g) ol (outputs r).
Proof.
  unfold convert_rmap. intros E E'. do 7 parse_step E. injection E as <-. exists a4. split; [done|].
  cbn [members mret parser_ret mbind parser_bind] in E'. unfold parseSingleRmapInfo in E'. do 4 parse_step E'. injection E' as <-. cbn [outputs].
  destruct (size_written _ _ E2) as [sz ->], (version_written d) as [vs Hv], (npu_written d) as [np Hn]. rewrite Hv, Hn in *.
  match goal with H : match get_arr _ "outputs" with _ => _ end = inr _ |- _ => rename H into Ho end.
  unfold get_arr in Ho. revert Ho. keys. intros Ho. by eapply outputs_parsed.
Qed.

(** C39. The outputs of a version 6 register map, converted with the graph [g], written and read back: one
    tensor for each entry of the list of outputs ([output_of]); an output in the memory of the PPU has
    the type of its boxes and the shape [1, -1]; any other has its name and one data type, and, when its
    format is not one of the PPU, the dimensions the document [g] has for this name, looked up in the first
    graph called npu_0 and [1] when there are none ([graph_dims]), the last one rounded up to its
    unit, 16 below 64 and 64 from there on; with a format of the PPU it has the shape [1, -1]. *)
Theorem v6_outputs_from_graph Parse Write text gtext d g text' m n acc acc' :
  Parse (c_str text) = Some (Obj d) -> Parse (c_str gtext) = Some (Obj g) ->
  (forall j, convert_rmap d g = inr j -> Parse (c_str (Write j)) = Some j) ->
  ConvertRmapInfoV6ToV7 Parse Write text gtext = inr text' -> load_rmap Parse n acc (with_str text' m) = inr acc' ->
  exists r ol, acc'.1 = acc.1 ++ [r] /\ output_list d = inr ol /\ Forall2 (output_of g) ol (outputs r) /\
    forall dims x, last dims = Some x -> 0 <= x < 2 ^ 63 - 64 ->
      exists e, last (align_last dims) = Some e /\ (unit_of dims | e) /\ x <= e < x + unit_of dims.
Proof.
  intros Ep Eg Hw E El. unfold ConvertRmapInfoV6ToV7 in E. rewrite Ep, Eg in E. cbn [members mret parser_ret mbind parser_bind] in E.
  parse_step E. injection E as <-. unfold load_rmap in El. cbn [str with_str] in El. rewrite (Hw _ E0) in El.
  parse_step El. parse_step El. injection El as <-.
  destruct (rmap_outputs d g a n a1 E0) as (ol & Hol & Ho); [by rewrite E|]. exists a1, ol. do 3 (split; [done|]).
  apply last_aligned.
Qed.

(** *** A file *)

Definition demo6_graph : json :=
  Obj [("origin_input", Arr [Str "x"]); ("origin_output", Arr [Str "y"]); ("toposort_order", Arr [Str "npu_0"]);
       ("graphs", Arr [Obj [("name", Str "npu_0"); ("type", Str "npu");
          ("inputs", Obj [("x", Obj [("source", Str ""); ("shape", Arr [Num 1; Num 50])])]);
          ("outputs", Obj [("y", Obj [("shape", Arr [Num 1; Num 50])])])]])]%string.
(** The memory of the output has 7 bytes, the tensor 256. *)
Definition demo6_rmap : json :=
  Obj [("version", Obj [("rmapInfo", Str "1.0.0(O2)")]); ("model", Str "demo"); ("input", Obj [("type", Str "UINT8")]);
       ("outputs", Obj [("outputList", Obj [("output",
          Arr [Obj [("name", Str "y"); ("type", Str "FLOAT32"); ("memory", Obj [("size", Num 7)])]])])])]%string.
Definition demo6_members (v : json) : list (string * json) := match v with Obj l => l | _ => [] end.
Definition demo6_graph7 : json := Eval vm_compute in
  match convert_graphs (demo6_members demo6_graph) with inr j => j | inl _ => Null end.
Definition demo6_rmap7 : json := Eval vm_compute in
  match convert_rmap (demo6_members demo6_rmap) (demo6_members demo6_graph) with inr j => j | inl _ => Null end.
Definition demo6_parse (text : bytes) : option json :=
  if bool_decide (text = [72]) then Some ModelParserV7.demo7_header
  else if bool_decide (text = [82]) then Some demo6_rmap
  else if bool_decide (text = [71]) then Some demo6_graph
  else if bool_decide (text = [1]) then Some demo6_graph7
  else if bool_decide (text = [2]) then Some demo6_rmap7 else None.
Definition demo6_write (v : json) : bytes :=
  match member (demo6_members v) "graphs" with Some _ => [1] | None => [2] end.
Definition demo6_file : list Z := Eval vm_compute in
  DXNN ++ [6; 0; 0; 0; 72] ++ replicate 8183 0 ++ [1; 2; 82; 71].
Definition demo6_binary : BinaryInfoDatabase := Eval vm_compute in
  match loadBinaryInfo demo6_parse new_binary demo6_file with inr b => b | inl _ => new_binary end.

Lemma v6_graph_loads_directly_witness :
  (g ← v6_graph (demo6_members demo6_graph); mret (ModelParserV7.ends g)) = inr [(true, true)] /\
  (text ← ConvertGraphInfoV6ToV7 demo6_parse demo6_write (str (graph_info demo6_binary));
   loadGraphInfo demo6_parse new_graph (set_texts (with_str text (graph_info demo6_binary)) (rmap_info demo6_binary) demo6_binary))
  = v6_graph (demo6_members demo6_graph).
Proof.
  split; [reflexivity|]. apply v6_graph_loads_directly; [reflexivity|]. intros j E. vm_compute in E. by injection E as <-.
Defined.

Lemma v6_outputs_from_graph_witness :
  exists r ol, (match load_rmap demo6_parse 4 ([], ""%string) (with_str [2] no_models) with inr a => a.1 | inl _ => [] end) = [] ++ [r] /\
    output_list (demo6_members demo6_rmap) = inr ol /\ Forall2 (output_of (demo6_members demo6_graph)) ol (outputs r) /\
    forall dims x, last dims = Some x -> 0 <= x < 2 ^ 63 - 64 ->
      exists e, last (align_last dims) = Some e /\ (unit_of dims | e) /\ x <= e < x + unit_of dims.
Proof.
  apply (v6_outputs_from_graph demo6_parse demo6_write [82] [71] (demo6_members demo6_rmap) (demo6_members demo6_graph)
           [2] no_models 4 ([], ""%string) (match load_rmap demo6_parse 4 ([], ""%string) (with_str [2] no_models) with inr a => a | inl _ => ([], ""%string) end));
    [reflexivity|reflexivity| |vm_compute; reflexivity|vm_compute; reflexivity].
  intros j E. vm_compute in E. by injection E as <-.
Defined.

(** The memory of an output is not compared with its tensor: this file loads, with a memory of 7
    bytes for a tensor of 50 numbers, although the parser of version 7 would refuse the register
    map it was converted to. *)
Theorem v6_output_memory_unchecked :
  (exists db mode, ParseModel demo6_parse demo6_write demo6_file 4 = inr (db, mode) /\
     (fun r => (fun t => (mem_size (memory t), shape_encoded t, elem_size t)) <$> outputs r) <$> deepx_rmap db
       = [[(7, [1; 64], 4)]]) /\
  ModelParserV7.parseSingleRmapInfo (demo6_members demo6_rmap7) 4 = inl InvalidShape.
Proof. split; [|reflexivity]. eexists _, _. split; [vm_compute; reflexivity|reflexivity]. Qed.
End ModelParserV6.
