(* ===== verification/DeviceTables.v ===== *)
(** * Tables of the service: bounds, tasks and shared memory

    [lib/dxrt_service/bound_manager.cpp], [process_with_device_info.cpp],
    [process_task_info_store.hpp] and [lib/dynamic_ipc/shm/memfd_service.cpp]: how many
    tasks of a device use each bound, the tasks of each process on each device, and
    the blocks of memory shared with the clients.  The driver and the system calls
    answer by arguments. *)

From Stdlib Require Import ZArith Lia.
From S2P Require Import Prelude IpcServer.

Module BoundManager.

(** [_bound_count]: one counter for each [npu_bound_op]; an index outside the array is
    undefined behaviour, [None]. *)
Definition BOUND_NUM : Z := 7.
Definition new_counts : list Z := replicate (Z.to_nat BOUND_NUM) 0.

Definition count_at (b : Z) (s : list Z) : option Z :=
  if b <? 0 then None else s !! Z.to_nat b.
Definition set_count (b c : Z) (s : list Z) : list Z := <[Z.to_nat b := c]> s.

(** [answer]: what the driver returns for the command, if it is sent. *)
Definition AddBound (answer : Z) (b : Z) (s : list Z) : option (Z * list Z) :=
  c ← count_at b s;
  if 0 <? c then mret (0, set_count b (c + 1) s)
  else if answer =? 0 then mret (answer, set_count b (c + 1) s)
  else mret (answer, s).

Definition DeleteBound (answer : Z) (b : Z) (s : list Z) : option (Z * list Z) :=
  c ← count_at b s;
  if 1 <? c then mret (0, set_count b (c - 1) s)
  else if answer =? 0 then mret (answer, set_count b (c - 1) s)
  else mret (answer, s).

Definition GetBoundTypeCount (s : list Z) : Z :=
  Z.of_nat (length (filter (fun c => 0 < c) s)).

Definition CanAcceptBound (b : Z) (s : list Z) : option bool :=
  c ← count_at b s;
  mret (if 0 <? c then true else GetBoundTypeCount s <? 3).

End BoundManager.

Module TaskStore.

(** [eachTaskInfo] *)
Record task_info := mkTaskInfo {
  bound : Z; mem_usage : Z; inferenceContext : IpcServer.TaskStaticConfig
}.

(** [_taskInfoMap]: by process and device, then by task. *)
Abbreviation store := (gmap (Z * Z) (gmap Z task_info)).

Definition hasTask (pid d t : Z) (s : store) : bool :=
  bool_decide (is_Some (s !! (pid, d) ≫= (.!! t))).

Definition addTask (pid d t : Z) (i : task_info) (s : store) : bool * store :=
  let info := default ∅ (s !! (pid, d)) in
  match info !! t with
  | Some _ => (false, s)
  | None => (true, <[(pid, d) := <[t := i]> info]> s)
  end.

(** The bound of the task removed, and the table without it. *)
Definition removeTask (pid d t : Z) (s : store) : option Z * store :=
  match s !! (pid, d) with
  | None => (None, s)
  | Some info =>
      match info !! t with
      | None => (None, s)
      | Some i =>
          let info' := delete t info in
          (Some (bound i), if decide (info' = ∅) then delete (pid, d) s
                           else <[(pid, d) := info']> s)
      end
  end.

Definition extractTaskIdsWithBound (pid d : Z) (s : store) : list (Z * Z) * store :=
  match s !! (pid, d) with
  | None => ([], s)
  | Some info =>
      (omap (fun t => (fun i => (t, bound i)) <$> info !! t) (keys info), delete (pid, d) s)
  end.

(** [getTaskIdByIndex] on the tasks in the order of the table: the guard is true for
    every index that exists; past the end the iterator is undefined, [None]. *)
Definition getTaskIdByIndex (index : Z) (ids : list Z) : option Z :=
  if index <? 0 then Some (-1)
  else if index <=? Z.of_nat (length ids) then Some (-1)
  else ids !! Z.to_nat index.
Definition firstTaskNumber (ids : list Z) : option Z := getTaskIdByIndex 0 ids.

Definition getBoundCounts (info : gmap Z task_info) : option (list Z) :=
  foldl (fun r t => r ← r; i ← info !! t; c ← BoundManager.count_at (bound i) r;
                    mret (BoundManager.set_count (bound i) (c + 1) r))
    (Some BoundManager.new_counts) (keys info).

End TaskStore.

Module MemFd.

Record SharedMemoryInfo := mkInfo {
  block_id : Z; i_size : Z; i_ptr : Z; phys_addr_base : Z; phys_addr_offset : Z; i_fd : Z
}.
Definition phys_addr (i : SharedMemoryInfo) : Z := u64 (phys_addr_base i + phys_addr_offset i).

Record memfd := mkMemfd {
  block_id_counter : Z;                       (* 64-bit, atomic *)
  memories : gmap Z SharedMemoryInfo;
  block_id_to_fd : gmap Z Z
}.
Definition new_memfd : memfd := mkMemfd 1 ∅ ∅.

(** What the system calls of [CreateSharedMemory] do: the step that fails, with its
    [MemFDErrorCode], or the descriptor and the address of the mapping. *)
Inductive os_result := Fails (code : Z) | Mapped (fd ptr : Z).

Definition CreateSharedMemory (os : os_result) (size : Z) (s : memfd)
    : (Z + SharedMemoryInfo) * memfd :=
  if size =? 0 then (inl 3, s)
  else
    let blockId := i32 (block_id_counter s) in
    let s1 := mkMemfd (u64 (block_id_counter s + 1)) (memories s) (block_id_to_fd s) in
    match os with
    | Fails code => (inl code, s1)
    | Mapped fd ptr =>
        let info := mkInfo blockId size ptr 0 0 fd in
        (inr info, mkMemfd (block_id_counter s1) (<[fd := info]> (memories s1))
                     (<[blockId := fd]> (block_id_to_fd s1)))
    end.

Definition ReleaseSharedMemory (fd : Z) (s : memfd) : bool * memfd :=
  match memories s !! fd with
  | None => (false, s)
  | Some i =>
      (true, mkMemfd (block_id_counter s) (delete fd (memories s))
               (delete (block_id i) (block_id_to_fd s)))
  end.

Definition GetMemoryInfoByBlockId (b : Z) (s : memfd) : option SharedMemoryInfo :=
  fd ← block_id_to_fd s !! b; memories s !! fd.

End MemFd.
