(* ===== verification/TaskMemory.v ===== *)
(** * Device memory of a task without a service

    [lib/device_pool/no_service_layer.cpp] ([AllocateInfo], [DeAllocateInfo]),
    [lib/include/dxrt/service_abstract_layer.h] ([DeAllocate]),
    [lib/npu_memory_cache.cpp] (registration of a task's slices) and
    [RegisterTask] and [Release] of [AccDeviceTaskLayer]: who allocates, records and
    frees the regions of a task on one device.  The allocator of a device is any
    implementation of [AllocatorClass.AllocOps]; the outcome of DMA transfers is an
    argument; a failed [DXRT_ASSERT] ends the process. *)

From Stdlib Require Import ZArith Lia.
From S2P Require Import Prelude AllocatorClass DeviceTables.

Module TaskMemory.
Import MemFd.

Inductive MemoryType := Normal | Model_rmap | Model_weight | Input_output | Model_ppu_binary.

Section Layer.
Context {A : Type} `{AllocOps A}.

(** [NoServiceLayer] *)
Record layer := mkLayer {
  mems : gmap Z A; nextNoServiceBlockId : Z; blockIdToAddr : gmap Z Z
}.

Definition ShouldUseBackwardAllocation (t : MemoryType) : bool :=
  match t with Model_weight | Model_rmap | Model_ppu_binary => true | _ => false end.

Definition AllocateInfo (d : Z) (t : MemoryType) (size : Z) (s : layer)
    : option (SharedMemoryInfo * layer) :=
  m ← mems s !! d;
  '(r, m') ← (if ShouldUseBackwardAllocation t then da_backward_allocate size m else da_allocate size m);
  let addr := u64 r in
  let blockId := nextNoServiceBlockId s in
  Some (mkInfo (i64 blockId) size 0 0 addr (-1),
        mkLayer (<[d := m']> (mems s)) (u64 (blockId + 1)) (<[blockId := addr]> (blockIdToAddr s))).

Definition DeAllocateInfo (d : Z) (info : SharedMemoryInfo) (s : layer) : option layer :=
  let id := u64 (block_id info) in
  let '(addr, ids) :=
    match (if id =? 0 then None else blockIdToAddr s !! id) with
    | Some a => (a, delete id (blockIdToAddr s))
    | None => (phys_addr info, blockIdToAddr s)
    end in
  if negb (addr =? UINT64_MAX) && negb (addr =? 0) then
    m ← mems s !! d;
    m' ← da_deallocate addr m;
    Some (mkLayer (<[d := m']> (mems s)) (nextNoServiceBlockId s) ids)
  else Some (mkLayer (mems s) (nextNoServiceBlockId s) ids).

(** [DeAllocate(deviceId, addr)]: the argument is both the block and the address. *)
Definition DeAllocate (d addr : Z) (s : layer) : option layer :=
  DeAllocateInfo d (mkInfo (i64 addr) 0 0 0 (u64 addr) (-1)) s.

(** ** One device *)

Record ModelMemoryInfos := mkMemInfos {
  rmapMemInfo : SharedMemoryInfo; weightMemInfo : SharedMemoryInfo; ppuMemInfo : SharedMemoryInfo
}.
Definition no_info : SharedMemoryInfo := mkInfo 0 0 0 0 0 0.
Definition no_infos : ModelMemoryInfos := mkMemInfos no_info no_info no_info.
Definition with_block (b : Z) (i : SharedMemoryInfo) : SharedMemoryInfo :=
  mkInfo b (i_size i) (i_ptr i) (phys_addr_base i) (phys_addr_offset i) (i_fd i).

Record device := mkDevice {
  lay : layer;
  memInfos : gmap Z ModelMemoryInfos;
  caches : gmap Z SharedMemoryInfo;         (** [NpuMemoryCacheManager] *)
  ppuBinaryOffsets : gmap Z Z;
  offsets : gmap Z (Z * Z)                  (** command and weight offset of [taskStaticConfigs] *)
}.
Definition set_lay (l : layer) (s : device) : device :=
  mkDevice l (memInfos s) (caches s) (ppuBinaryOffsets s) (offsets s).
Definition set_infos (t : Z) (i : ModelMemoryInfos) (s : device) : device :=
  mkDevice (lay s) (<[t := i]> (memInfos s)) (caches s) (ppuBinaryOffsets s) (offsets s).

Definition alloc (d : Z) (ty : MemoryType) (size : Z) (s : device) : option (SharedMemoryInfo * device) :=
  '(i, l) ← AllocateInfo d ty size (lay s); Some (i, set_lay l s).
Definition free_info (d : Z) (i : SharedMemoryInfo) (s : device) : option device :=
  l ← DeAllocateInfo d i (lay s); Some (set_lay l s).
Definition free_addr (d a : Z) (s : device) : option device :=
  l ← DeAllocate d a (lay s); Some (set_lay l s).
(** [if (info.block_id > 0) DeAllocateInfo(...)] *)
Definition free_if (d : Z) (i : SharedMemoryInfo) (s : device) : option device :=
  if 0 <? block_id i then free_info d i s else Some s.

(** [NpuMemoryCacheManager::registerMemoryCache] and [unRegisterMemoryCache] *)
Definition registerMemoryCache (d t size count : Z) (s : device) : option (bool * device) :=
  '(i, s) ← alloc d Input_output (size * count) s;
  if (0 <=? i_fd i) || (0 <=? block_id i) then
    Some (true, mkDevice (lay s) (memInfos s)
                  (match caches s !! t with Some _ => caches s | None => <[t := i]> (caches s) end)
                  (ppuBinaryOffsets s) (offsets s))
  else Some (false, s).
Definition unRegisterMemoryCache (d t : Z) (s : device) : option device :=
  match caches s !! t with
  | None => Some s
  | Some i =>
      s ← free_info d i s;
      Some (mkDevice (lay s) (memInfos s) (delete t (caches s)) (ppuBinaryOffsets s) (offsets s))
  end.

(** The loop that asks for fewer slices after a failure. *)
Fixpoint register_slices (d t size : Z) (count : nat) (s : device) : option (Z * device) :=
  match count with
  | O => Some (0, s)
  | S c =>
      '(ok, s) ← registerMemoryCache d t size (Z.of_nat count) s;
      if (ok : bool) then Some (Z.of_nat count, s) else register_slices d t size c s
  end.

Definition rollbackTaskRegistration (d t : Z) (s : device) : option device :=
  let i := default no_infos (memInfos s !! t) in
  s ← (match ppuBinaryOffsets s !! t with
       | Some _ => s ← free_if d (ppuMemInfo i) s;
                   Some (mkDevice (lay s) (memInfos s) (caches s) (delete t (ppuBinaryOffsets s)) (offsets s))
       | None => Some s
       end);
  s ← free_if d (weightMemInfo i) s;
  s ← free_if d (rmapMemInfo i) s;
  let drop i := if 0 <? block_id i then with_block 0 i else i in
  let s := set_infos t (mkMemInfos (drop (rmapMemInfo i)) (drop (weightMemInfo i)) (ppuMemInfo i)) s in
  unRegisterMemoryCache d t s.

(** What a call of [RegisterTask] gives: its result, or a failed assertion. *)
Inductive outcome := Ret (r : Z) | Aborts.

(** Sizes of the model, of the PPU binary if the task has one, and of its slices; what
    the transfers return and whether the read-back agrees. *)
Record task_sizes := mkSizes {
  z_rmap : Z; z_weight : Z; z_ppu : option Z; z_block : Z; z_count : nat
}.
Record dma_result := mkDma { dma_rmap : Z; dma_weight : Z; dma_ppu : Z; verified : bool }.

(** From the PPU binary on, inside the [try] block and after it. *)
Definition register_rest (d t : Z) (z : task_sizes) (x : dma_result) (r w : SharedMemoryInfo)
    (s : device) : option (outcome * device) :=
  if negb (verified x) && (0 <? z_rmap z) && (0 <? z_weight z) then Some (Aborts, s)
  else
    '(n, s) ← register_slices d t (z_block z) (z_count z) s;
    if n <? 1 then s ← rollbackTaskRegistration d t s; Some (Ret (-1), s)
    else Some (Ret (match z_ppu z with Some _ => dma_ppu x | None => dma_weight x end),
               mkDevice (lay s) (memInfos s) (caches s) (ppuBinaryOffsets s)
                 (<[t := (u32 (phys_addr_offset r), u32 (phys_addr_offset w))]> (offsets s))).

Definition register_ppu (d t : Z) (z : task_sizes) (x : dma_result) (r w : SharedMemoryInfo)
    (s : device) : option (outcome * device) :=
  match z_ppu z with
  | None => register_rest d t z x r w s
  | Some size =>
      '(p, s) ← alloc d Model_ppu_binary size s;
      if block_id p <=? 0 then s ← rollbackTaskRegistration d t s; Some (Ret (-1), s)
      else if negb (dma_ppu x =? 0) then Some (Aborts, s)
      else
        let s := mkDevice (lay s) (<[t := mkMemInfos r w p]> (memInfos s)) (caches s)
                   (<[t := u32 (phys_addr_offset p)]> (ppuBinaryOffsets s)) (offsets s) in
        register_rest d t z x r w s
  end.

(** The allocation of weights and commands: [inl] when the call returns -1. *)
Definition allocate_model (d t : Z) (z : task_sizes) (s : device)
    : option ((SharedMemoryInfo * SharedMemoryInfo + unit) * device) :=
  let old := default no_infos (memInfos s !! t) in
  '(w, s) ← alloc d Model_weight (z_weight z) s;
  '(r, s) ← alloc d Model_rmap (z_rmap z) s;
  let s := set_infos t (mkMemInfos r w (ppuMemInfo old)) s in
  '(r, s, ok) ← (if phys_addr_offset w <? phys_addr_offset r then
                   '(r2, s) ← alloc d Model_rmap (z_rmap z) s;
                   let s := set_infos t (mkMemInfos r2 w (ppuMemInfo old)) s in
                   if block_id r2 <=? 0 then
                     s ← free_if d w s; s ← free_if d r s; Some (r2, s, false)
                   else s ← free_if d r s; Some (r2, s, true)
                 else Some (r, s, true));
  if negb ok then Some (inr tt, s)
  else if block_id r <=? 0 then s ← free_if d w s; Some (inr tt, s)
  else if block_id w <=? 0 then s ← free_info d r s; Some (inr tt, s)
  else Some (inl (r, w), s).

Definition RegisterTask (d t : Z) (z : task_sizes) (x : dma_result) (s : device)
    : option (outcome * device) :=
  '(rw, s) ← allocate_model d t z s;
  match rw with
  | inr _ => Some (Ret (-1), s)
  | inl (r, w) =>
      if negb (dma_rmap x =? 0) then Some (Aborts, s)
      else if negb (dma_weight x =? 0) then Some (Aborts, s)
      else register_ppu d t z x r w s
  end.

Definition Release (d t : Z) (s : device) : option device :=
  let '(cmd, weight) := default (0, 0) (offsets s !! t) in
  let s := mkDevice (lay s) (memInfos s) (caches s) (ppuBinaryOffsets s) (delete t (offsets s)) in
  s ← unRegisterMemoryCache d t s;
  s ← (match memInfos s !! t with
       | Some i =>
           s ← (if 0 <? block_id (rmapMemInfo i) then free_addr d (block_id (rmapMemInfo i)) s else Some s);
           s ← (if 0 <? block_id (weightMemInfo i) then free_addr d (block_id (weightMemInfo i)) s else Some s);
           s ← (if (0 <? i_size (ppuMemInfo i)) && (0 <? block_id (ppuMemInfo i))
                then free_addr d (block_id (ppuMemInfo i)) s else Some s);
           Some (mkDevice (lay s) (delete t (memInfos s)) (caches s) (ppuBinaryOffsets s) (offsets s))
       | None => s ← free_addr d cmd s; free_addr d weight s
       end);
  match ppuBinaryOffsets s !! t with
  | None => Some s
  | Some off =>
      let s := mkDevice (lay s) (memInfos s) (caches s) (delete t (ppuBinaryOffsets s)) (offsets s) in
      if negb (off =? 0) && negb (off =? UINT32_MAX) then free_addr d off s else Some s
  end.

End Layer.
Arguments layer : clear implicits.
Arguments device : clear implicits.

End TaskMemory.
