(* ===== verification/TaskMemoryThms.v ===== *)
(** * Device memory of a task: registration and release

    [RegisterTask] followed by [Release], against the laws of the allocator.  The
    state of the layer is tracked by the blocks that are outstanding: every operation
    allocates one, frees one, or leaves them. *)

From Stdlib Require Import ZArith Lia.
From S2P Require Import Prelude Memory MemorySpec AllocatorClass MemoryInstance DeviceTables TaskMemory.

Module TaskMemoryThms.
Import MemFd TaskMemory.

Section Laws.
Context {A : Type} `{AllocLaws A}.
(** The device, its memory before, the other devices, the table of blocks and the next
    block number before. *)
Context (d : Z) (m0 : A) (ms0 : gmap Z A) (ids0 : gmap Z Z) (n0 : Z).

Definition real (a : Z) : Prop := a <> UINT64_MAX.

(** [O]: address of each outstanding block.  [L]: addresses given up without being
    returned to the allocator. *)
Record owns (O : gmap Z Z) (L : gset Z) (l : layer A) (m : A) : Prop := mkOwns {
  ow_mems : mems l = <[d := m]> ms0;
  ow_ok : da_ok m;
  ow_next : 0 < n0 <= nextNoServiceBlockId l;
  ow_table : blockIdToAddr l = O ∪ ids0;
  ow_old i a : ids0 !! i = Some a -> i < n0;
  ow_block i a : O !! i = Some a -> n0 <= i < nextNoServiceBlockId l;
  ow_addr i a : O !! i = Some a -> real a -> 0 <= a < 2 ^ 63 /\ a ∉ da_live m0 /\ a ∉ L;
  ow_inj i j a : O !! i = Some a -> O !! j = Some a -> real a -> i = j;
  ow_live a : a ∈ da_live m <-> a ∈ da_live m0 \/ a ∈ L \/ exists i, O !! i = Some a /\ real a
}.

Definition returned (a : Z) : gset Z := {[a]} ∩ {[0]}.

Lemma owns_nothing l :
  mems l = <[d := m0]> ms0 -> da_ok m0 -> blockIdToAddr l = ids0 -> nextNoServiceBlockId l = n0 ->
  0 < n0 -> (forall i a, ids0 !! i = Some a -> i < n0) ->
  owns ∅ ∅ l m0.
Proof.
  intros Em Hm Et En Hn Ho. constructor; try done.
  - lia.
  - by rewrite Et, (left_id_L ∅ (∪)).
  - intros a. split; [by left|]. intros [Ha|[Ha|(i & Hi & _)]]; [done| |]; set_solver.
Qed.

(** The address an allocation gives. *)
Definition gives (ty : MemoryType) (size a : Z) (m m' : A) : Prop :=
  exists r, (if ShouldUseBackwardAllocation ty then da_backward_allocate size m else da_allocate size m)
            = Some (r, m') /\ a = u64 r.

Lemma gives_effect ty size m :
  da_ok m -> 0 < size <= max_request ->
  exists a m', gives ty size a m m' /\ da_ok m' /\
    ((a = UINT64_MAX /\ da_live m' = da_live m) \/
     (0 <= a < 2 ^ 63 /\ a ∉ da_live m /\ da_live m' = {[a]} ∪ da_live m)).
Proof.
  intros Hm Hs.
  assert (exists r m', (if ShouldUseBackwardAllocation ty then da_backward_allocate size m
                        else da_allocate size m) = Some (r, m') /\ da_ok m' /\
                       alloc_effect (da_live m) (da_live m') r) as (r & m' & E & Hm' & He).
  { destruct (ShouldUseBackwardAllocation ty); [by apply da_backward_law|apply da_allocate_law; [done|lia]]. }
  exists (u64 r), m'. split; [by exists r|]. split; [done|].
  destruct He as [[-> ->]|(Hr & Hf & ->)]; [left|right].
  - split; [by vm_compute|done].
  - by rewrite uwrap_small by lia.
Qed.

Lemma alloc_owns ty size O L l m :
  owns O L l m -> 0 < size <= max_request -> nextNoServiceBlockId l + 1 < 2 ^ 63 ->
  exists a l' m', AllocateInfo d ty size l = Some (mkInfo (nextNoServiceBlockId l) size 0 0 a (-1), l') /\
    owns (<[nextNoServiceBlockId l := a]> O) L l' m' /\ gives ty size a m m' /\
    nextNoServiceBlockId l' = nextNoServiceBlockId l + 1.
Proof.
  intros I Hs Hn. destruct (gives_effect ty size m (ow_ok _ _ _ _ I) Hs) as (a & m' & G & Hm' & He).
  pose proof G as (r & E & Ea). pose proof (ow_next _ _ _ _ I) as Hn0. pose proof (ow_block _ _ _ _ I) as Hb.
  eexists a, _, m'. split; [|split; [|split; [done|]]].
  - unfold AllocateInfo. rewrite (ow_mems _ _ _ _ I), lookup_insert_eq. simpl. rewrite E. simpl.
    rewrite <-Ea, (swrap_small 64), (uwrap_small 64 (_ + 1)) by lia. reflexivity.
  - constructor; simpl.
    + by rewrite insert_insert_eq.
    + done.
    + lia.
    + by rewrite (ow_table _ _ _ _ I), insert_union_l.
    + apply (ow_old _ _ _ _ I).
    + intros i b [[<- _]|[_ Hi]]%lookup_insert_Some; [lia|]. specialize (Hb i b Hi). lia.
    + intros i b [[<- <-]|[_ Hi]]%lookup_insert_Some Hr; [|by apply (ow_addr _ _ _ _ I i b)].
      destruct He as [[-> _]|(? & Hf & _)]; [done|]. rewrite (ow_live _ _ _ _ I) in Hf. naive_solver.
    + assert (forall i, O !! i = Some a -> real a -> False) as Hfr.
      { intros i Hi Hr. destruct He as [[-> _]|(_ & Hf & _)]; [done|]. apply Hf, (ow_live _ _ _ _ I). eauto. }
      intros i j b [[<- <-]|[_ Hi]]%lookup_insert_Some [[<- E2]|[_ Hj]]%lookup_insert_Some Hr; try done.
      * by destruct (Hfr j).
      * subst. by destruct (Hfr i).
      * by apply (ow_inj _ _ _ _ I i j b).
    + assert (O !! nextNoServiceBlockId l = None) as Hnone.
      { destruct (O !! _) as [b|] eqn:Eb; [|done]. specialize (Hb _ _ Eb). lia. }
      intros b. trans (b ∈ da_live m \/ (b = a /\ real a)).
      * destruct He as [[Ha ->]|(Ha & _ & ->)].
        { split; [by left|]. by intros [Hb'|[_ Hr]]. }
        assert (real a) by (unfold real, UINT64_MAX; lia). set_solver.
      * rewrite (ow_live _ _ _ _ I). setoid_rewrite lookup_insert_Some. naive_solver.
  - reflexivity.
Qed.

Lemma owns_delete b L L' O l m m' :
  owns O L l m -> is_Some (O !! b) -> da_ok m' ->
  (forall j x, j <> b -> O !! j = Some x -> real x -> x ∉ L') ->
  (forall x, x ∈ da_live m' <-> x ∈ da_live m0 \/ x ∈ L' \/ exists j, delete b O !! j = Some x /\ real x) ->
  owns (delete b O) L' (mkLayer (<[d := m']> (mems l)) (nextNoServiceBlockId l) (delete b (blockIdToAddr l))) m'.
Proof.
  intros I [a Hb] Hm' HL Hlive. pose proof (ow_block _ _ _ _ I b a Hb) as Hbn.
  pose proof (ow_next _ _ _ _ I) as Hn0.
  constructor; simpl; try done.
  - by rewrite (ow_mems _ _ _ _ I), insert_insert_eq.
  - rewrite (ow_table _ _ _ _ I), delete_union. rewrite (delete_id ids0); [done|].
    destruct (ids0 !! b) as [a'|] eqn:E; [|done]. pose proof (ow_old _ _ _ _ I _ _ E). lia.
  - apply (ow_old _ _ _ _ I).
  - intros j x [_ Hj]%lookup_delete_Some. by apply (ow_block _ _ _ _ I j x).
  - intros j x [Hne Hj]%lookup_delete_Some Hr. destruct (ow_addr _ _ _ _ I j x Hj Hr) as (? & ? & _). by eauto.
  - intros j k x [_ Hj]%lookup_delete_Some [_ Hk]%lookup_delete_Some. by apply (ow_inj _ _ _ _ I).
Qed.

Lemma free_owns i b a O L l m :
  owns O L l m -> O !! b = Some a -> u64 (block_id i) = b ->
  exists l' m', DeAllocateInfo d i l = Some l' /\ owns (delete b O) (L ∪ returned a) l' m' /\
    nextNoServiceBlockId l' = nextNoServiceBlockId l /\ ((0 ∈ da_live m') <-> (0 ∈ da_live m)).
Proof.
  intros I Hb Eb. pose proof (ow_block _ _ _ _ I b a Hb) as Hbn. pose proof (ow_next _ _ _ _ I) as Hn0.
  assert (O !! b = Some a -> blockIdToAddr l !! b = Some a) as Htab.
  { intros Hx. rewrite (ow_table _ _ _ _ I). by apply lookup_union_Some_l. }
  pose proof (fun m' L' => owns_delete b L L' O l m m' I (mk_is_Some _ _ Hb)) as build.
  assert (forall j x, j <> b -> O !! j = Some x -> real x -> x <> a) as Hother.
  { intros j x Hj Ex Hr ->. by apply Hj, (ow_inj _ _ _ _ I j b a). }
  unfold DeAllocateInfo. rewrite Eb. replace (b =? 0) with false by (symmetry; apply Z.eqb_neq; lia).
  rewrite (Htab Hb). cbv beta iota zeta.
  destruct (negb (a =? UINT64_MAX) && negb (a =? 0)) eqn:Ea; bool_facts.
  - destruct (ow_addr _ _ _ _ I b a Hb) as (Ha & Ha0 & HaL); [done|].
    destruct (da_deallocate_law m a (ow_ok _ _ _ _ I)) as (m' & E & Hm' & Hl).
    { apply (ow_live _ _ _ _ I). eauto. }
    rewrite (ow_mems _ _ _ _ I), lookup_insert_eq. simpl. rewrite E. simpl.
    eexists _, m'. split; [reflexivity|]. split; [|split; [done|rewrite Hl; set_solver]].
    rewrite <-(ow_mems _ _ _ _ I). replace (L ∪ returned a) with L by (unfold returned; set_solver).
    apply build; [done|intros j x _ Hj Hr; by apply (ow_addr _ _ _ _ I j x)|].
    intros x. rewrite Hl, elem_of_difference, elem_of_singleton, (ow_live _ _ _ _ I).
    setoid_rewrite lookup_delete_Some. split; [|naive_solver].
    intros [[?|[?|(j & Hj & Hr)]] Hx]; [by left|by right; left|]. right; right. exists j.
    split; [|done]. split; [|done]. intros <-. congruence.
  - assert (a = UINT64_MAX \/ a = 0) as Ha by (apply andb_false_iff in Ea as [Ea|Ea]; bool_facts; auto).
    eexists _, m. split; [reflexivity|]. split; [|done].
    replace (mems l) with (<[d := m]> (mems l)) by (rewrite (ow_mems _ _ _ _ I); by rewrite insert_insert_eq).
    apply build; [apply (ow_ok _ _ _ _ I)| |].
    + intros j x Hj Ex Hr. destruct (ow_addr _ _ _ _ I j x Ex Hr) as (_ & _ & HxL).
      specialize (Hother j x Hj Ex Hr). unfold returned. set_solver.
    + intros x. rewrite (ow_live _ _ _ _ I). setoid_rewrite lookup_delete_Some. unfold returned, real.
      split; [|intros [?|[?|?]]; [by left| |naive_solver]].
      * intros [?|[?|(j & Hj & Hr)]]; [by left|right; left; set_solver|].
        destruct (decide (b = j)) as [->|?]; [|right; right; eauto].
        right; left. destruct Ha as [->| ->]; [congruence|]. assert (x = 0) as -> by congruence. set_solver.
      * destruct (decide (x ∈ L)); [by right; left|]. right; right. exists b.
        assert (x = a /\ a = 0) as [-> ->] by set_solver. split; [done|]. by vm_compute.
Qed.

(** ** On the device *)

Lemma gives_range ty size a m m' : gives ty size a m m' -> 0 <= a < 2 ^ 64.
Proof. intros (r & _ & ->). by apply uwrap_range. Qed.

Lemma alloc_dev ty size O L s m :
  owns O L (lay s) m -> 0 < size <= max_request -> nextNoServiceBlockId (lay s) + 1 < 2 ^ 63 ->
  exists a l' m', alloc d ty size s = Some (mkInfo (nextNoServiceBlockId (lay s)) size 0 0 a (-1), set_lay l' s) /\
    owns (<[nextNoServiceBlockId (lay s) := a]> O) L l' m' /\ gives ty size a m m' /\
    nextNoServiceBlockId l' = nextNoServiceBlockId (lay s) + 1.
Proof.
  intros I Hs Hn. destruct (alloc_owns ty size O L (lay s) m I Hs Hn) as (a & l' & m' & E & Hrest).
  exists a, l', m'. split; [|done]. unfold alloc. by rewrite E.
Qed.

Lemma free_info_dev i a O L s m :
  owns O L (lay s) m -> O !! block_id i = Some a -> nextNoServiceBlockId (lay s) < 2 ^ 63 ->
  exists l' m', free_info d i s = Some (set_lay l' s) /\ owns (delete (block_id i) O) (L ∪ returned a) l' m' /\
    nextNoServiceBlockId l' = nextNoServiceBlockId (lay s) /\ ((0 ∈ da_live m') <-> (0 ∈ da_live m)).
Proof.
  intros I Hi Hn. pose proof (ow_block _ _ _ _ I _ _ Hi). pose proof (ow_next _ _ _ _ I).
  destruct (free_owns i (block_id i) a O L (lay s) m I Hi) as (l' & m' & E & Hrest).
  { apply uwrap_small. lia. }
  exists l', m'. split; [|done]. unfold free_info. by rewrite E.
Qed.

Lemma free_if_dev i a O L s m :
  owns O L (lay s) m -> O !! block_id i = Some a -> nextNoServiceBlockId (lay s) < 2 ^ 63 ->
  free_if d i s = free_info d i s.
Proof.
  intros I Hi Hn. pose proof (ow_block _ _ _ _ I _ _ Hi). pose proof (ow_next _ _ _ _ I).
  unfold free_if. by replace (0 <? block_id i) with true by (symmetry; apply Z.ltb_lt; lia).
Qed.

Lemma free_addr_dev b a O L s m :
  owns O L (lay s) m -> O !! b = Some a -> nextNoServiceBlockId (lay s) < 2 ^ 63 ->
  exists l' m', (if 0 <? b then free_addr d b s else Some s) = Some (set_lay l' s) /\
    owns (delete b O) (L ∪ returned a) l' m' /\
    nextNoServiceBlockId l' = nextNoServiceBlockId (lay s) /\ ((0 ∈ da_live m') <-> (0 ∈ da_live m)).
Proof.
  intros I Hi Hn. pose proof (ow_block _ _ _ _ I _ _ Hi). pose proof (ow_next _ _ _ _ I).
  destruct (free_owns (mkInfo (i64 b) 0 0 0 (u64 b) (-1)) b a O L (lay s) m I Hi) as (l' & m' & E & Hrest).
  { simpl. rewrite (swrap_small 64), uwrap_small by lia. done. }
  exists l', m'. split; [|done]. replace (0 <? b) with true by (symmetry; apply Z.ltb_lt; lia).
  unfold free_addr, DeAllocate. by rewrite E.
Qed.

(** ** Registration *)

(** The state after [allocate_model] and the two blocks it leaves to the task. *)
Definition model_regions (t : Z) (s : device A) (r w : SharedMemoryInfo) (l : layer A) : device A :=
  mkDevice l (<[t := mkMemInfos r w (ppuMemInfo (default no_infos (memInfos s !! t)))]> (memInfos s))
    (caches s) (ppuBinaryOffsets s) (offsets s).
Definition pair_of (r w : SharedMemoryInfo) : gmap Z Z :=
  <[block_id r := phys_addr_offset r]> (<[block_id w := phys_addr_offset w]> ∅).

Definition sizes_ok (z : task_sizes) : Prop :=
  0 < z_rmap z <= max_request /\ 0 < z_weight z <= max_request /\
  (exists c, z_count z = S c) /\ 0 < z_block z * Z.of_nat (z_count z) <= max_request.

Lemma allocate_model_owns t z s :
  owns ∅ ∅ (lay s) m0 -> nextNoServiceBlockId (lay s) = n0 -> n0 + 4 < 2 ^ 63 -> sizes_ok z ->
  exists r w l m mw, allocate_model d t z s = Some (inl (r, w), model_regions t s r w l) /\
    owns (pair_of r w) ∅ l m /\ w = mkInfo n0 (z_weight z) 0 0 (phys_addr_offset w) (-1) /\ n0 < block_id r < nextNoServiceBlockId l /\
    nextNoServiceBlockId l <= n0 + 3 /\ gives Model_weight (z_weight z) (phys_addr_offset w) m0 mw.
Proof.
  intros I En Hn (Hr & Hw & _). pose proof (ow_next _ _ _ _ I) as Hn0.
  destruct (alloc_dev Model_weight (z_weight z) ∅ ∅ s m0 I Hw) as (aw & l1 & m1 & E1 & I1 & G1 & N1); [lia|].
  destruct (alloc_dev Model_rmap (z_rmap z) _ ∅ (set_lay l1 s) m1 I1 Hr) as (ar & l2 & m2 & E2 & I2 & G2 & N2);
    [simpl; lia|]. simpl in E2, I2, N2.
  unfold allocate_model. rewrite E1. cbn [mbind option_bind]. rewrite E2. cbn [mbind option_bind].
  rewrite En in *. rewrite N1 in *. cbn [phys_addr_offset]. destruct (aw <? ar) eqn:Ec; bool_facts.
  - set (s2 := set_infos t _ _).
    destruct (alloc_dev Model_rmap (z_rmap z) _ ∅ s2 m2 I2 Hr) as (a3 & l3 & m3 & E3 & I3 & _ & N3); [simpl; lia|].
    cbn [s2 set_infos lay set_lay] in E3, I3, N3. rewrite N2 in *.
    set (s3 := set_infos t (mkMemInfos (mkInfo (n0 + 1 + 1) (z_rmap z) 0 0 a3 (-1)) (mkInfo n0 (z_weight z) 0 0 aw (-1))
                 (ppuMemInfo (default no_infos (memInfos s !! t)))) (set_lay l3 s2)).
    set (tmp := mkInfo (n0 + 1) (z_rmap z) 0 0 ar (-1)).
    assert ((<[n0 + 1 + 1 := a3]> (<[n0 + 1 := ar]> (<[n0 := aw]> (∅ : gmap Z Z)))) !! block_id tmp = Some ar) as Hl.
    { simpl. rewrite lookup_insert_ne by lia. by rewrite lookup_insert_eq. }
    destruct (free_info_dev tmp ar _ ∅ s3 m3 I3 Hl) as (l4 & m4 & E4 & I4 & N4 & _); [simpl; lia|].
    exists (mkInfo (n0 + 1 + 1) (z_rmap z) 0 0 a3 (-1)), (mkInfo n0 (z_weight z) 0 0 aw (-1)), l4, m4, m1.
    rewrite E3. cbn [mbind option_bind block_id].
    replace (n0 + 1 + 1 <=? 0) with false by (symmetry; apply Z.leb_gt; lia).
    fold s3. rewrite (free_if_dev tmp ar _ ∅ s3 m3 I3 Hl) by (simpl; lia). rewrite E4.
    cbn [mbind option_bind negb block_id].
    replace (n0 + 1 + 1 <=? 0) with false by (symmetry; apply Z.leb_gt; lia).
    replace (n0 <=? 0) with false by (symmetry; apply Z.leb_gt; lia).
    split; [|split; [|simpl in N4 |- *; repeat split; (done || lia)]].
    + unfold model_regions, s3, s2, set_lay, set_infos; simpl. by rewrite insert_insert_eq.
    + apply gives_range in G1. simpl in I4.
      replace (∅ ∪ returned ar) with (∅ : gset Z) in I4 by (unfold returned; set_solver by lia).
      rewrite delete_insert_ne, delete_insert_eq, delete_id in I4; [done| |lia].
      rewrite lookup_insert_ne by lia. apply lookup_empty.
  - exists (mkInfo (n0 + 1) (z_rmap z) 0 0 ar (-1)), (mkInfo n0 (z_weight z) 0 0 aw (-1)), l2, m2, m1.
    cbn [negb block_id mbind option_bind].
    replace (n0 + 1 <=? 0) with false by (symmetry; apply Z.leb_gt; lia).
    replace (n0 <=? 0) with false by (symmetry; apply Z.leb_gt; lia).
    split; [done|]. split; [exact I2|]. simpl. repeat split; (done || lia).
Qed.

Lemma register_slices_dev t z O L s m :
  owns O L (lay s) m -> nextNoServiceBlockId (lay s) + 1 < 2 ^ 63 -> sizes_ok z -> caches s !! t = None ->
  exists c l' m', register_slices d t (z_block z) (z_count z) s =
      Some (Z.of_nat (z_count z), mkDevice l' (memInfos s) (<[t := c]> (caches s)) (ppuBinaryOffsets s) (offsets s)) /\
    owns (<[block_id c := phys_addr_offset c]> O) L l' m' /\
    block_id c = nextNoServiceBlockId (lay s) /\ nextNoServiceBlockId l' = nextNoServiceBlockId (lay s) + 1.
Proof.
  intros I Hn (_ & _ & (k & Ek) & Hs) Ec. pose proof (ow_next _ _ _ _ I).
  destruct (alloc_dev Input_output _ O L s m I Hs Hn) as (a & l' & m' & E & I' & _ & N).
  exists (mkInfo (nextNoServiceBlockId (lay s)) (z_block z * Z.of_nat (z_count z)) 0 0 a (-1)), l', m'.
  split; [|done]. rewrite Ek in E |- *. cbn [register_slices]. unfold registerMemoryCache. rewrite E.
  cbn [mbind option_bind i_fd block_id].
  replace (0 <=? nextNoServiceBlockId (lay s)) with true by (symmetry; apply Z.leb_le; lia).
  rewrite orb_true_r. simpl. by rewrite Ec.
Qed.

Definition transferred (x : dma_result) : Prop :=
  dma_rmap x = 0 /\ dma_weight x = 0 /\ verified x = true.

(** What a successful registration of a task without a PPU leaves. *)
Definition registered (t : Z) (s : device A) (r w c : SharedMemoryInfo) (l : layer A) : device A :=
  mkDevice l (<[t := mkMemInfos r w (ppuMemInfo (default no_infos (memInfos s !! t)))]> (memInfos s))
    (<[t := c]> (caches s)) (ppuBinaryOffsets s)
    (<[t := (u32 (phys_addr_offset r), u32 (phys_addr_offset w))]> (offsets s)).

Lemma RegisterTask_owns t z x s :
  owns ∅ ∅ (lay s) m0 -> nextNoServiceBlockId (lay s) = n0 -> n0 + 4 < 2 ^ 63 -> sizes_ok z ->
  z_ppu z = None -> transferred x -> caches s !! t = None ->
  exists r w c l m mw, RegisterTask d t z x s = Some (Ret 0, registered t s r w c l) /\
    owns (<[block_id c := phys_addr_offset c]> (pair_of r w)) ∅ l m /\
    NoDup [block_id c; block_id r; block_id w] /\ nextNoServiceBlockId l < 2 ^ 63 /\
    w = mkInfo n0 (z_weight z) 0 0 (phys_addr_offset w) (-1) /\
    gives Model_weight (z_weight z) (phys_addr_offset w) m0 mw.
Proof.
  intros I En Hn Hz Ep (Dr & Dw & Dv) Ec.
  destruct (allocate_model_owns t z s I En Hn Hz) as (r & w & l & m & mw & E & I1 & Hw & Hr & Hl & G).
  destruct (register_slices_dev t z _ ∅ (model_regions t s r w l) m I1) as (c & l' & m' & E' & I' & Bc & N');
    [simpl; lia|done|done|]. simpl in Bc, N'.
  exists r, w, c, l', m', mw. split; [|split; [done|split; [|split; [lia|split; [exact Hw|done]]]]].
  - unfold RegisterTask. rewrite E. cbn [mbind option_bind]. rewrite Dr, Dw. cbn [Z.eqb negb].
    unfold register_ppu, register_rest. rewrite Ep, Dv, Dw. cbn [negb andb]. rewrite E'. cbn [mbind option_bind].
    destruct Hz as (_ & _ & (k & ->) & _).
    replace (Z.of_nat (S k) <? 1) with false by (symmetry; apply Z.ltb_ge; lia). reflexivity.
  - repeat apply NoDup_cons_2; try apply NoDup_nil_2; rewrite Hw; simpl; rewrite ?elem_of_cons, ?list_elem_of_singleton; set_solver by lia.
Qed.

Lemma zero_kept (m m' : A) : ((0 ∈ da_live m') <-> (0 ∈ da_live m)) -> da_live m' ∩ {[0]} = da_live m ∩ {[0]}.
Proof. intros Hz. apply set_eq. intros x. rewrite !elem_of_intersection, elem_of_singleton. naive_solver. Qed.

Lemma Release_owns t s r w c l m :
  owns (<[block_id c := phys_addr_offset c]> (pair_of r w)) ∅ l m ->
  NoDup [block_id c; block_id r; block_id w] -> nextNoServiceBlockId l < 2 ^ 63 ->
  memInfos s !! t = None -> caches s !! t = None -> ppuBinaryOffsets s !! t = None -> offsets s !! t = None ->
  exists L l' m', Release d t (registered t s r w c l) =
      Some (mkDevice l' (memInfos s) (caches s) (ppuBinaryOffsets s) (offsets s)) /\
    owns ∅ L l' m' /\ L ⊆ {[0]} /\ ((0 ∈ da_live m') <-> (0 ∈ da_live m)).
Proof.
  intros I Hnd Hn Em Ec Ep Eo.
  assert (block_id c <> block_id r /\ block_id c <> block_id w /\ block_id r <> block_id w) as (Hcr & Hcw & Hrw).
  { rewrite !NoDup_cons in Hnd. set_solver. }
  assert (forall O, delete (block_id c) (<[block_id c := phys_addr_offset c]> (pair_of r w)) = O -> pair_of r w = O)
    as Hd.
  { intros O <-. rewrite delete_insert_id; [done|]. unfold pair_of. by rewrite !lookup_insert_ne, lookup_empty. }
  set (s1 := mkDevice l (<[t := mkMemInfos r w no_info]> (memInfos s)) (<[t := c]> (caches s)) (ppuBinaryOffsets s) (offsets s)).
  destruct (free_info_dev c (phys_addr_offset c) _ ∅ s1 m I (lookup_insert_eq _ _ _) Hn) as (l2 & m2 & E2 & I2 & N2 & Z2).
  rewrite <-(Hd _ eq_refl) in I2.
  set (s2 := mkDevice l2 (<[t := mkMemInfos r w no_info]> (memInfos s)) (caches s) (ppuBinaryOffsets s) (offsets s)).
  destruct (free_addr_dev (block_id r) _ _ _ s2 m2 I2 (lookup_insert_eq _ _ _)) as (l3 & m3 & E3 & I3 & N3 & Z3);
    [simpl in N2 |- *; lia|].
  unfold pair_of in I3. rewrite delete_insert_id in I3 by (by rewrite lookup_insert_ne, lookup_empty).
  destruct (free_addr_dev (block_id w) _ _ _ (set_lay l3 s2) m3 I3 (lookup_insert_eq _ _ _))
    as (l4 & m4 & E4 & I4 & N4 & Z4); [simpl in N2, N3 |- *; lia|].
  rewrite delete_insert_id in I4 by apply lookup_empty.
  eexists _, l4, m4. split; [|split; [exact I4|split; [unfold returned; set_solver|naive_solver]]].
  unfold Release, registered. cbn [offsets lay memInfos caches ppuBinaryOffsets]. rewrite lookup_insert_eq.
  cbn [default]. unfold unRegisterMemoryCache. cbn [caches]. rewrite lookup_insert_eq.
  rewrite delete_insert_id, Em by done. cbn [default option_map ppuMemInfo no_infos from_option]. fold s1. rewrite E2.
  cbn [mbind option_bind set_lay lay memInfos caches ppuBinaryOffsets offsets s1].
  rewrite delete_insert_id, lookup_insert_eq by done. cbn [rmapMemInfo weightMemInfo ppuMemInfo]. fold s2.
  rewrite E3. cbn [mbind option_bind]. rewrite E4. cbn. rewrite Ep. by rewrite delete_insert_id.
Qed.

End Laws.

Section Theorems.
Context {A : Type} `{AllocLaws A}.

(** The device [d] is set up, its block table is within the counter, and nothing is
    recorded for task [t]. *)
Definition ready_for (d t : Z) (s : device A) (m : A) : Prop :=
  mems (lay s) !! d = Some m /\ da_ok m /\
  0 < nextNoServiceBlockId (lay s) /\ nextNoServiceBlockId (lay s) + 4 < 2 ^ 63 /\
  map_Forall (fun i _ => i < nextNoServiceBlockId (lay s)) (blockIdToAddr (lay s)) /\
  memInfos s !! t = None /\ caches s !! t = None /\ ppuBinaryOffsets s !! t = None /\ offsets s !! t = None.

Lemma ready_owns d t s m :
  ready_for d t s m ->
  owns d m (mems (lay s)) (blockIdToAddr (lay s)) (nextNoServiceBlockId (lay s)) ∅ ∅ (lay s) m.
Proof.
  intros (Em & Hm & Hn & _ & Hids & _). apply owns_nothing; [by rewrite insert_id|done|done|done|done|].
  intros i a Hi. exact (Hids i a Hi).
Qed.

(** A task without a PPU that is registered on a device and then released leaves the
    device as it was: the allocator holds the offsets it held before, and offset 0
    besides if the registration was given it (it is never handed back); other devices,
    the block table and the tables of the tasks are unchanged.  The rmap and weight
    regions may have been allocated in any order. *)
Theorem register_release (d t : Z) (z : task_sizes) (x : dma_result) (s : device A) (m : A) :
  ready_for d t s m -> sizes_ok z -> z_ppu z = None -> transferred x ->
  exists s1 m1 s2 m2,
    RegisterTask d t z x s = Some (Ret 0, s1) /\ mems (lay s1) !! d = Some m1 /\
    Release d t s1 = Some s2 /\ mems (lay s2) = <[d := m2]> (mems (lay s)) /\ da_ok m2 /\
    da_live m2 = da_live m ∪ (da_live m1 ∩ {[0]}) /\
    blockIdToAddr (lay s2) = blockIdToAddr (lay s) /\ memInfos s2 = memInfos s /\
    caches s2 = caches s /\ ppuBinaryOffsets s2 = ppuBinaryOffsets s /\ offsets s2 = offsets s.
Proof.
  intros R Hz Hp Hx. pose proof (ready_owns d t s m R) as I.
  destruct R as (Em & Hm & Hn & Hn4 & Hids & Ei & Ec & Epp & Eo).
  destruct (RegisterTask_owns d m _ _ _ t z x s I eq_refl Hn4 Hz Hp Hx Ec)
    as (r & w & c & l1 & m1 & _ & E1 & I1 & Hnd & Hl1 & _ & _).
  destruct (Release_owns d m _ _ _ t s r w c l1 m1 I1 Hnd Hl1 Ei Ec Epp Eo) as (L & l2 & m2 & E2 & I2 & HL & Hzero).
  exists (registered t s r w c l1), m1,
    (mkDevice l2 (memInfos s) (caches s) (ppuBinaryOffsets s) (offsets s)), m2. split; [exact E1|].
  split; [simpl; rewrite (ow_mems _ _ _ _ _ _ _ _ _ I1); apply lookup_insert_eq|].
  split; [exact E2|]. split; [apply (ow_mems _ _ _ _ _ _ _ _ _ I2)|].
  split; [apply (ow_ok _ _ _ _ _ _ _ _ _ I2)|].
  split; [|simpl; split; [by rewrite (ow_table _ _ _ _ _ _ _ _ _ I2), (left_id_L ∅ (∪))|done]].
  rewrite <-(zero_kept _ _ Hzero). pose proof (ow_live _ _ _ _ _ _ _ _ _ I2) as Hlive.
  apply set_eq. intros a. rewrite Hlive, elem_of_union, elem_of_intersection, elem_of_singleton, Hlive.
  setoid_rewrite lookup_empty. set_solver.
Qed.

(** An exhausted device is not noticed: when the allocator has no room for the
    weights and answers -1, the block number is positive all the same, the test "0 or
    negative means allocation failed" lets the call continue, and if the driver accepts
    the transfers the call returns 0 with the weights at address 2^64-1 and the weight
    offset 2^32-1 in the configuration that inference requests use. *)
Theorem register_ignores_exhaustion (d t : Z) (z : task_sizes) (x : dma_result) (s : device A) (m m' : A) :
  ready_for d t s m -> sizes_ok z -> z_ppu z = None -> transferred x ->
  da_backward_allocate (z_weight z) m = Some (-1, m') ->
  exists s1 i cmd, RegisterTask d t z x s = Some (Ret 0, s1) /\
    memInfos s1 !! t = Some i /\ 0 < block_id (weightMemInfo i) /\
    phys_addr (weightMemInfo i) = UINT64_MAX /\
    offsets s1 !! t = Some (cmd, UINT32_MAX).
Proof.
  intros R Hz Hp Hx Ef. pose proof (ready_owns d t s m R) as I.
  destruct R as (Em & Hm & Hn & Hn4 & Hids & Ei & Ec & Epp & Eo).
  destruct (RegisterTask_owns d m _ _ _ t z x s I eq_refl Hn4 Hz Hp Hx Ec)
    as (r & w & c & l1 & m1 & mw & E1 & _ & _ & _ & Hw & (a & Ea & Ew)).
  simpl in Ea. assert (a = -1) as -> by congruence. rewrite Ew in Hw.
  exists (registered t s r w c l1),
    (mkMemInfos r w (ppuMemInfo (default no_infos (memInfos s !! t)))), (u32 (phys_addr_offset r)). split; [exact E1|]. simpl.
  split; [apply lookup_insert_eq|]. simpl. rewrite Hw. simpl.
  split; [lia|]. split; [by vm_compute|]. by rewrite lookup_insert_eq.
Qed.

End Theorems.

(** ** Witnesses: 1 MB of device memory, and a device with one page *)

Definition demo_device (mem : Memory.memory) : device Memory.memory :=
  mkDevice (mkLayer {[0 := mem]} 1 ∅) ∅ ∅ ∅ ∅.
Definition demo_mem (size : Z) : Memory.memory := Memory.new_memory 0 size 0.
Definition demo_sizes : task_sizes := mkSizes 5000 20000 None 8192 6.
Definition demo_dma : dma_result := mkDma 0 0 0 true.

Lemma demo_ready size :
  da_ok (demo_mem size) -> ready_for 0 7 (demo_device (demo_mem size)) (demo_mem size).
Proof.
  intros Hm. unfold ready_for, demo_device. simpl.
  split; [apply lookup_singleton_eq|]. split; [done|]. split; [done|]. split; [done|].
  split; [|by rewrite !lookup_empty]. intros i a Hi. by rewrite lookup_empty in Hi.
Qed.

Lemma demo_sizes_ok : sizes_ok demo_sizes.
Proof. unfold sizes_ok, max_request. simpl. repeat split; try lia. by exists 5%nat. Qed.

Lemma register_release_witness :
  exists s1 s2, RegisterTask 0 7 demo_sizes demo_dma (demo_device (demo_mem 1048576)) = Some (Ret 0, s1) /\
    Release 0 7 s1 = Some s2 /\ blockIdToAddr (lay s2) = ∅.
Proof.
  destruct (register_release 0 7 demo_sizes demo_dma (demo_device (demo_mem 1048576)) (demo_mem 1048576))
    as (s1 & m1 & s2 & m2 & E1 & _ & E2 & _ & _ & _ & Et & _).
  - apply demo_ready, wf_new_memory; [lia|exists 256; reflexivity].
  - apply demo_sizes_ok.
  - reflexivity.
  - by repeat split.
  - exists s1, s2. split; [exact E1|]. split; [exact E2|]. rewrite Et. reflexivity.
Defined.

(** The weights do not fit in one page. *)
Lemma register_ignores_exhaustion_witness :
  exists s1 cmd, RegisterTask 0 7 demo_sizes demo_dma (demo_device (demo_mem 4096)) = Some (Ret 0, s1) /\
    offsets s1 !! 7 = Some (cmd, UINT32_MAX).
Proof.
  destruct (register_ignores_exhaustion 0 7 demo_sizes demo_dma (demo_device (demo_mem 4096))
              (demo_mem 4096) (demo_mem 4096)) as (s1 & i & cmd & E1 & _ & _ & _ & Eo).
  - apply demo_ready, wf_new_memory; [lia|exists 1; reflexivity].
  - apply demo_sizes_ok.
  - reflexivity.
  - by repeat split.
  - vm_compute. reflexivity.
  - exists s1, cmd. split; [exact E1|exact Eo].
Defined.

End TaskMemoryThms.
