(* ===== verification/StdDevice.v ===== *)
(** * The standalone device layer

    [lib/device_pool/std_device_task_layer.cpp], class [StdDeviceTaskLayer]: the two blocks of
    device memory of a task, how a request is given to one of them, the outputs after a response,
    and the release of a task.  Memory comes from the layer of [TaskMemory]; what the driver
    answers is an argument.  A failed [DXRT_ASSERT] ends the process, an exception leaves the
    state as it is, an index outside a vector and a copy to a null pointer are [Undefined]. *)

From Stdlib Require Import ZArith Lia.
From S2P Require Import Prelude AllocatorClass DeviceTables TaskMemory Memory MemorySpec MemoryInstance.

Module StdDevice.
Import MemFd TaskMemory.

Definition DEVICE_NUM_BUF : Z := 2.

(** [dxrt_model_t] and the sizes of a task. *)
Record model := mkModel {
  rmap_size : Z; weight_size : Z; output_all_offset : Z; output_all_size : Z; last_output_offset : Z;
  m_type : Z; m_format : Z; m_cmds : Z
}.
Record task := mkTask { t_id : Z; input_size : Z; output_size : Z; npuModel : model }.

(** [dxrt_request_t] *)
Record inference := mkInf {
  req_id : Z; in_data : Z; in_base : Z; in_offset : Z; in_size : Z;
  out_data : Z; out_base : Z; out_offset : Z; out_size : Z;
  model_type : Z; model_format : Z; model_cmds : Z; cmd_offset : Z; weight_offset : Z; inf_last_output_offset : Z
}.
Definition with_req (r : Z) (i : inference) : inference :=
  mkInf r (in_data i) (in_base i) (in_offset i) (in_size i) (out_data i) (out_base i) (out_offset i) (out_size i)
    (model_type i) (model_format i) (model_cmds i) (cmd_offset i) (weight_offset i) (inf_last_output_offset i).

(** How a call ends when it does not return a value. *)
Inductive failure := Thrown | Asserted | Undefined.

(** [memcmp] *)
Fixpoint memcmp (a b : list Z) : Z :=
  match a, b with
  | x :: a, y :: b => if x =? y then memcmp a b else x - y
  | _, _ => 0
  end.

(** A tensor: name, shape, type and data. *)
Record tensor := mkTensor { tn_name : Z; tn_shape : list Z; tn_type : Z; tn_data : Z }.
Definition MODEL_TYPE_ARGMAX : Z := 1.
Definition MODEL_TYPE_PPU : Z := 2.

Section Device.
Context {A : Type} `{AllocOps A}.
(** The device, [mem_addr] of its information and [_memoryMapBuffer]. *)
Context (d base memoryMap : Z).

(** [npuModels] has the offsets of the register map and the weights. *)
Record state := mkState {
  lay : layer A; npuModels : gmap Z (Z * Z); bufIdx : gmap Z Z; npuInference : gmap Z (list inference);
  inputTensors : gmap Z (list (Z * Z)); outputTensors : gmap Z (list (Z * Z)); ongoing : gmap Z inference
}.
Definition set_lay (l : layer A) (s : state) : state :=
  mkState l (npuModels s) (bufIdx s) (npuInference s) (inputTensors s) (outputTensors s) (ongoing s).
Definition set_bufIdx (t b : Z) (s : state) : state :=
  mkState (lay s) (npuModels s) (<[t := b]> (bufIdx s)) (npuInference s) (inputTensors s) (outputTensors s) (ongoing s).
Definition set_inferences (t : Z) (l : list inference) (s : state) : state :=
  mkState (lay s) (npuModels s) (bufIdx s) (<[t := l]> (npuInference s)) (inputTensors s) (outputTensors s) (ongoing s).
Definition set_tensors (t : Z) (i o : list (Z * Z)) (s : state) : state :=
  mkState (lay s) (npuModels s) (bufIdx s) (npuInference s) (<[t := i]> (inputTensors s)) (<[t := o]> (outputTensors s)) (ongoing s).
Definition set_ongoing (r : Z) (i : inference) (s : state) : state :=
  mkState (lay s) (npuModels s) (bufIdx s) (npuInference s) (inputTensors s) (outputTensors s) (<[r := i]> (ongoing s)).
Definition drop_model (t : Z) (s : state) : state :=
  mkState (lay s) (delete t (npuModels s)) (bufIdx s) (npuInference s) (inputTensors s) (outputTensors s) (ongoing s).

(** A call; [None]: the allocator does not return. *)
Definition M (X : Type) : Type := state -> option ((failure + X) * state).
#[export] Instance std_ret : MRet M := fun X x s => Some (inr x, s).
#[export] Instance std_bind : MBind M :=
  fun X Y f m s =>
    match m s with
    | Some (inr x, s') => f x s'
    | Some (inl e, s') => Some (inl e, s')
    | None => None
    end.
Definition fails {X} (e : failure) : M X := fun s => Some (inl e, s).
Definition modify (f : state -> state) : M () := fun s => Some (inr tt, f s).
Definition gets {X} (f : state -> X) : M X := fun s => Some (inr (f s), s).
Definition assert_ (b : bool) : M () := if b then mret tt else fails Asserted.

(** [Allocate]: an exception when there is no memory. *)
Definition Allocate (size : Z) : M Z := fun s =>
  '(i, l) ← AllocateInfo d Normal size (lay s);
  Some (if phys_addr i =? UINT64_MAX then inl Thrown else inr (phys_addr i), set_lay l s).
Definition DeAllocate (a : Z) : M () := fun s => l ← TaskMemory.DeAllocate d a (lay s); Some (inr tt, set_lay l s).

(** ** [RegisterTask] *)

Definition input_block (t : task) : Z :=
  if output_all_offset (npuModel t) =? 0 then Z.land (u64 (input_size t + 63)) (Z.lnot 63) else output_all_offset (npuModel t).

Definition new_inference (t : task) (r w ioff ooff : Z) : inference :=
  let m := npuModel t in
  mkInf 0 (if memoryMap =? 0 then 0 else u64 (memoryMap + ioff)) base ioff (input_size t)
    (if memoryMap =? 0 then 0 else u64 (memoryMap + ooff + last_output_offset m)) base ooff (output_all_size m)
    (m_type m) (m_format m) (m_cmds m) r w (last_output_offset m).

(** One block; [writes]: the driver takes the register map and the weights. *)
Definition register_block (t : task) (r w : Z) (writes : bool) : M () :=
  ioff ← Allocate (input_block t);
  ooff ← Allocate (output_all_size (npuModel t));
  modify (fun s => set_inferences (t_id t) (default [] (npuInference s !! t_id t) ++ [new_inference t r w (u32 ioff) (u32 ooff)]) s);;
  assert_ writes.

(** The parameters are read back, [None] when the driver fails; they are compared with the
    buffer they were read to. *)
Definition compare (read : option (list Z)) : Z := match read with Some b => memcmp b b | None => 0 end.

Definition input_tensors (i : inference) : Z * Z := (in_data i, u64 (in_base i + in_offset i)).
Definition output_tensors (i : inference) : Z * Z := (out_data i, u64 (out_base i + out_offset i)).

Definition RegisterTask (t : task) (writes : bool) (cmd_read weight_read : option (list Z)) : M Z :=
  modify (fun s => set_inferences (t_id t) [] (set_bufIdx (t_id t) 0 s));;
  assert_ (0 <? input_size t);;
  assert_ (0 <? output_size t);;
  r ← Allocate (rmap_size (npuModel t));
  w ← Allocate (weight_size (npuModel t));
  r ← (if u32 w <? u32 r then Allocate (rmap_size (npuModel t)) else mret r);
  register_block t (u32 r) (u32 w) writes;;
  register_block t (u32 r) (u32 w) writes;;
  let ret := compare cmd_read + compare weight_read in
  assert_ (ret =? 0);;
  modify (fun s =>
    let infs := default [] (npuInference s !! t_id t) in
    set_tensors (t_id t) (default [] (inputTensors s !! t_id t) ++ (input_tensors <$> infs))
      (default [] (outputTensors s !! t_id t) ++ (output_tensors <$> infs)) s);;
  mret ret.

(** ** [InferenceRequest] *)

(** A request: its task, the size to copy and the data of its first input. *)
Record request := mkRequest { rq_id : Z; rq_task : Z; rq_encoded : Z; rq_input : option Z }.
(** What it leads to: its outputs, a copy (to, from, size), and what is written to the driver. *)
Record served := mkServed { sv_outputs : Z * Z; sv_copy : option (Z * Z * Z); sv_written : inference }.

Definition at_index {X} (l : list X) (i : nat) : M X :=
  match l !! i with Some x => mret x | None => fails Undefined end.

Definition InferenceRequest (q : request) : M served :=
  let t := rq_task q in
  bufId ← gets (fun s => default 0 (bufIdx s !! t));
  modify (set_bufIdx t ((bufId + 1) mod DEVICE_NUM_BUF));;
  infs ← gets (fun s => default [] (npuInference s !! t));
  outs ← gets (fun s => default [] (outputTensors s !! t));
  let reqInputPtr := default 0 (rq_input q) in
  '(pick, copy) ←
    match list_find (fun i => in_data i = reqInputPtr) infs with
    | Some (i, _) => mret (i, None)
    | None =>
        let pick := Z.to_nat bufId in
        inf ← at_index infs pick;
        if reqInputPtr =? 0 then mret (pick, None)
        else if in_data inf =? 0 then fails Undefined
        else mret (pick, Some (in_data inf, reqInputPtr, rq_encoded q))
    end;
  o ← at_index outs pick;
  inf ← at_index infs pick;
  modify (set_ongoing (rq_id q) (with_req (rq_id q) inf));;
  mret (mkServed o copy (with_req (rq_id q) inf)).

(** ** [Release] *)

Fixpoint release_blocks (l : list inference) : M () :=
  match l with
  | [] => mret tt
  | i :: l => DeAllocate (in_offset i);; DeAllocate (out_offset i);; release_blocks l
  end.
Definition Release (t : Z) : M Z :=
  m ← gets (fun s => default (0, 0) (npuModels s !! t));
  DeAllocate m.1;;
  DeAllocate m.2;;
  infs ← gets (fun s => default [] (npuInference s !! t));
  release_blocks infs;;
  modify (drop_model t);;
  mret 0.

End Device.
Arguments state : clear implicits.
Arguments M : clear implicits.

(** ** The outputs after a response ([ThreadImpl]) *)

(** The new outputs, and what is stored at the data of the first one. *)
Definition outputs_after (model_type argmax ppu_filter_num : Z) (outs : list tensor)
    : failure + (list tensor * option (Z * Z)) :=
  if model_type =? MODEL_TYPE_ARGMAX then
    match outs with o :: _ => inr (outs, Some (tn_data o, argmax)) | [] => inl Undefined end
  else if model_type =? MODEL_TYPE_PPU then
    match outs with
    | o :: os => inr (mkTensor (tn_name o) [1; ppu_filter_num] (tn_type o) (tn_data o) :: os, None)
    | [] => inl Undefined
    end
  else inr (outs, None).

(** A response is taken when the read succeeded and it names a request that lives. *)
Definition takes_response (ret id : Z) (lives : bool) : bool := (ret =? 0) && negb (id =? UINT32_MAX) && lives.

End StdDevice.

(** * The standalone device layer: theorems *)
Module StdDeviceThms.
Import MemFd TaskMemory StdDevice.

Section Thms.
Context {A : Type} `{AllocLaws A} (d base memoryMap : Z).
#[local] Abbreviation state := (StdDevice.state A).

(** ** Calls *)

Lemma call_done {X Y} (m : M A X) (f : X -> M A Y) s y s' :
  (m ≫= f) s = Some (inr y, s') -> exists x s1, m s = Some (inr x, s1) /\ f x s1 = Some (inr y, s').
Proof.
  change ((m ≫= f) s) with (match m s with Some (inr x, s') => f x s' | Some (inl e, s') => Some (inl e, s') | None => None end).
  destruct (m s) as [[[e|x] s1]|]; try done. by exists x, s1.
Qed.

Lemma call_inr {X Y} (m : M A X) (f : X -> M A Y) s x s1 : m s = Some (inr x, s1) -> (m ≫= f) s = f x s1.
Proof.
  change ((m ≫= f) s) with (match m s with Some (inr x, s') => f x s' | Some (inl e, s') => Some (inl e, s') | None => None end).
  by intros ->.
Qed.

Lemma assert_done b (s : state) x s' : assert_ b s = Some (inr x, s') -> b = true /\ s' = s.
Proof. unfold assert_. destruct b; [|done]. by intros [= _ <-]. Qed.

Ltac call_step H :=
  let x := fresh "x" in let s := fresh "s" in let E := fresh "E" in
  apply call_done in H as (x & s & E & H).

(** Everything but the layer of the memory is as before. *)
Definition same_tables (s s' : state) : Prop :=
  npuModels s' = npuModels s /\ bufIdx s' = bufIdx s /\ npuInference s' = npuInference s /\
  inputTensors s' = inputTensors s /\ outputTensors s' = outputTensors s /\ ongoing s' = ongoing s.

Lemma Allocate_tables size (s : state) a s' : Allocate d size s = Some (inr a, s') -> same_tables s s'.
Proof.
  unfold Allocate. destruct (AllocateInfo d Normal size (lay s)) as [[i l]|]; [|done]. cbn.
  destruct (_ =? _); [done|]. by intros [= _ <-].
Qed.

(** ** A task and its two blocks *)

(** The blocks of task [t], and the tensors of each. *)
Definition registered (t : Z) (bs : list inference) (s : state) : Prop :=
  npuInference s !! t = Some bs /\ length bs = 2%nat /\ outputTensors s !! t = Some (output_tensors <$> bs) /\
  (bufIdx s !! t = Some 0 \/ bufIdx s !! t = Some 1).

Lemma register_block_done (t : task) r w ok (s : state) u s' :
  register_block d base memoryMap t r w ok s = Some (inr u, s') ->
  exists ioff ooff, npuModels s' = npuModels s /\ bufIdx s' = bufIdx s /\ outputTensors s' = outputTensors s /\
    inputTensors s' = inputTensors s /\
    npuInference s' = <[t_id t := default [] (npuInference s !! t_id t) ++ [new_inference base memoryMap t r w (u32 ioff) (u32 ooff)]]> (npuInference s).
Proof.
  unfold register_block. intros E. call_step E. call_step E. call_step E. apply assert_done in E as [_ ->].
  apply Allocate_tables in E0 as (E01 & E02 & E03 & E04 & E05 & _). apply Allocate_tables in E1 as (E11 & E12 & E13 & E14 & E15 & _).
  injection E2 as _ <-. exists x, x0. cbn. rewrite E11, E12, E13, E14, E15, E01, E02, E03, E04, E05. done.
Qed.

Lemma RegisterTask_done (t : task) ok cr wr (s : state) ret s' :
  RegisterTask d base memoryMap t ok cr wr s = Some (inr ret, s') ->
  exists r w i0 o0 i1 o1, let bs := [new_inference base memoryMap t r w (u32 i0) (u32 o0); new_inference base memoryMap t r w (u32 i1) (u32 o1)] in
    npuInference s' = <[t_id t := bs]> (npuInference s) /\ bufIdx s' = <[t_id t := 0]> (bufIdx s) /\ npuModels s' = npuModels s /\
    outputTensors s' = <[t_id t := default [] (outputTensors s !! t_id t) ++ (output_tensors <$> bs)]> (outputTensors s).
Proof.
  unfold RegisterTask. intros E. call_step E. injection E0 as _ <-. call_step E. apply assert_done in E0 as [_ ->].
  call_step E. apply assert_done in E0 as [_ ->]. call_step E. call_step E. call_step E. call_step E. call_step E. call_step E.
  call_step E. apply assert_done in E5 as [_ ->]. injection E6 as _ <-. injection E as _ <-.
  apply Allocate_tables in E0 as (A1 & A2 & A3 & A4 & A5 & _). apply Allocate_tables in E1 as (B1 & B2 & B3 & B4 & B5 & _).
  assert (same_tables s1 s2) as (C1 & C2 & C3 & C4 & C5 & _)
    by (destruct (_ <? _); [by eapply Allocate_tables|by injection E2 as _ <-]).
  apply register_block_done in E3 as (i0 & o0 & D1 & D2 & D3 & D4 & D5).
  apply register_block_done in E4 as (i1 & o1 & F1 & F2 & F3 & F4 & F5).
  exists (u32 x4), (u32 x3), i0, o0, i1, o1. cbv zeta.
  assert (npuInference s2 !! t_id t = Some []) as E0 by (rewrite C3, B3, A3; cbn; apply lookup_insert_eq).
  rewrite E0 in D5. assert (npuInference s3 !! t_id t = Some [new_inference base memoryMap t (u32 x4) (u32 x3) (u32 i0) (u32 o0)]) as E1
    by (rewrite D5; cbn; apply lookup_insert_eq).
  rewrite E1 in F5. cbn [default from_option app] in F5. unfold id in F5. cbn [npuInference bufIdx npuModels outputTensors set_tensors].
  rewrite F5, F2, F1, F3, D3, D2, D1, D5, C1, C2, C3, C5, B1, B2, B3, B5, A1, A2, A3, A5.
  cbn [npuInference bufIdx npuModels outputTensors set_inferences set_bufIdx]. rewrite lookup_insert_eq. cbn [default from_option]. unfold id.
  rewrite !insert_insert_eq. done.
Qed.

(** ** Requests *)

(** What a request of a registered task leads to. *)
Definition serves (q : request) (bs : list inference) (v : served) : Prop :=
  exists b, b ∈ bs /\ sv_outputs v = output_tensors b /\ sv_written v = with_req (rq_id q) b /\
    ((in_data b = default 0 (rq_input q) /\ sv_copy v = None) \/
     ((forall b', b' ∈ bs -> in_data b' <> default 0 (rq_input q)) /\
      sv_copy v = if default 0 (rq_input q) =? 0 then None else Some (in_data b, default 0 (rq_input q), rq_encoded q))).

Lemma InferenceRequest_registered q bs (s : state) :
  registered (rq_task q) bs s -> (forall b, b ∈ bs -> in_data b <> 0) ->
  exists v s', InferenceRequest q s = Some (inr v, s') /\ registered (rq_task q) bs s' /\ serves q bs v.
Proof.
  intros (Hi & Hl & Ho & Hb) Hd. unfold InferenceRequest.
  assert (exists b : Z, bufIdx s !! rq_task q = Some b /\ (b = 0 \/ b = 1)) as (b & Eb & Hb01)
    by (destruct Hb as [Hb|Hb]; eauto).
  assert (exists x0 x1, bs = [x0; x1]) as (x0 & x1 & ->) by (destruct bs as [|x0 [|x1 [|]]]; try done; eauto).
  rewrite (call_inr _ _ _ b s) by (unfold gets; by rewrite Eb).
  rewrite (call_inr _ _ _ tt _ eq_refl). set (s1 := set_bufIdx (rq_task q) ((b + 1) mod DEVICE_NUM_BUF) s).
  rewrite (call_inr _ _ _ [x0; x1] s1) by (unfold gets, s1; cbn; by rewrite Hi).
  rewrite (call_inr _ _ _ (output_tensors <$> [x0; x1]) s1) by (unfold gets, s1; cbn; by rewrite Ho).
  assert (registered (rq_task q) [x0; x1] s1) as H1.
  { split; [done|]. split; [done|]. split; [done|]. unfold s1. cbn. rewrite lookup_insert_eq. destruct Hb01 as [-> | ->]; [by right|by left]. }
  cbv zeta. assert (forall (pick : nat) copy, (pick < 2)%nat ->
    (forall x, [x0; x1] !! pick = Some x -> serves q [x0; x1] (mkServed (output_tensors x) copy (with_req (rq_id q) x))) ->
    exists v s', (o ← at_index (output_tensors <$> [x0; x1]) pick; inf ← at_index [x0; x1] pick;
      modify (set_ongoing (rq_id q) (with_req (rq_id q) inf));; mret (mkServed o copy (with_req (rq_id q) inf))) s1 = Some (inr v, s') /\
      registered (rq_task q) [x0; x1] s' /\ serves q [x0; x1] v) as Hend.
  { intros pick copy Hp Hs. assert (exists x, [x0; x1] !! pick = Some x) as (x & Ex) by (destruct pick as [|[|]]; [by exists x0|by exists x1|lia]).
    specialize (Hs x Ex). unfold at_index. rewrite list_lookup_fmap, Ex. cbn [fmap option_fmap option_map].
    rewrite (call_inr _ _ _ _ _ eq_refl), (call_inr _ _ _ _ _ eq_refl), (call_inr _ _ _ _ _ eq_refl). by eexists _, _. }
  destruct (list_find (fun i => in_data i = default 0 (rq_input q)) [x0; x1]) as [[i x]|] eqn:Ef.
  - apply list_find_Some in Ef as (Ei & Hx & _). rewrite (call_inr _ _ _ _ _ eq_refl). apply Hend; [by apply lookup_lt_Some in Ei|].
    intros x' Ex'. assert (x' = x) as -> by congruence. exists x. split; [by eapply list_elem_of_lookup_2|]. split; [done|]. split; [done|]. by left.
  - apply list_find_None in Ef. rewrite Forall_forall in Ef.
    assert ((Z.to_nat b < 2)%nat) as Hp by (destruct Hb01 as [-> | ->]; cbn; lia).
    assert (exists x, [x0; x1] !! Z.to_nat b = Some x) as (x & Ex) by (destruct Hb01 as [-> | ->]; [by exists x0|by exists x1]).
    rewrite (call_inr _ _ _ (Z.to_nat b, if default 0 (rq_input q) =? 0 then None else Some (in_data x, default 0 (rq_input q), rq_encoded q)) s1).
    + apply Hend; [done|]. intros x' Ex'. assert (x' = x) as -> by congruence. exists x. split; [by eapply list_elem_of_lookup_2|].
      split; [done|]. split; [done|]. right. done.
    + rewrite (call_inr _ _ _ x s1) by (unfold at_index; by rewrite Ex). destruct (_ =? 0); [done|].
      assert (in_data x <> 0) as Hn by (apply Hd; by eapply list_elem_of_lookup_2). by rewrite (proj2 (Z.eqb_neq _ _) Hn).
Qed.

Fixpoint serve_all (l : list request) : M A (list served) :=
  match l with [] => mret [] | q :: l => v ← InferenceRequest q; vs ← serve_all l; mret (v :: vs) end.

Lemma serve_all_registered t bs l : forall s : state,
  registered t bs s -> (forall b, b ∈ bs -> in_data b <> 0) -> Forall (fun q => rq_task q = t) l ->
  exists vs s', serve_all l s = Some (inr vs, s') /\ Forall2 (fun q v => serves q bs v) l vs.
Proof.
  induction l as [|q l IH]; intros s Hr Hd Hl; [by exists [], s|]. apply Forall_cons in Hl as [Hq Hl].
  rewrite <- Hq in Hr. destruct (InferenceRequest_registered q bs s Hr Hd) as (v & s1 & E & Hr1 & Hv). rewrite Hq in Hr1.
  destruct (IH s1 Hr1 Hd Hl) as (vs & s2 & E2 & Hvs). exists (v :: vs), s2. split; [|by constructor].
  cbn [serve_all]. by rewrite (call_inr _ _ _ _ _ E), (call_inr _ _ _ _ _ E2).
Qed.

(** C40. Once a task is registered, under a number that has no blocks from an earlier registration ([outputTensors] has no
    entry for it) and on a device whose memory is mapped ([memoryMap] is not null and leaves room for 32-bit offsets), every
    sequence of requests for it is served: each request is given one of its two blocks, its outputs are those of this block,
    the driver is told of this block under the number of the request, and the input is either already there or copied there.
    A task number that is registered again is served with the outputs of an old block, [registered_again_reads_old_block];
    without a memory map the address of a block is null. *)
Theorem std_requests_served (t : task) ok cr wr (s : state) ret s1 l :
  0 < memoryMap <= 2 ^ 64 - 2 ^ 32 -> outputTensors s !! t_id t = None ->
  RegisterTask d base memoryMap t ok cr wr s = Some (inr ret, s1) -> Forall (fun q => rq_task q = t_id t) l ->
  exists bs vs s2, npuInference s1 !! t_id t = Some bs /\ length bs = 2%nat /\
    serve_all l s1 = Some (inr vs, s2) /\ Forall2 (fun q v => serves q bs v) l vs.
Proof.
  intros Hm Ho E Hl. destruct (RegisterTask_done _ _ _ _ _ _ _ E) as (r & w & i0 & o0 & i1 & o1 & E1 & E2 & _ & E3).
  rewrite Ho in E3. cbn [default from_option app] in E3. unfold id in E3. cbn [app] in E3.
  set (bs := [new_inference base memoryMap t r w (u32 i0) (u32 o0); new_inference base memoryMap t r w (u32 i1) (u32 o1)]) in *.
  assert (registered (t_id t) bs s1) as Hr.
  { unfold registered. rewrite E1, E2, E3, !lookup_insert_eq. do 3 (split; [done|]). by left. }
  assert (forall b, b ∈ bs -> in_data b <> 0) as Hd.
  { assert (forall i o, in_data (new_inference base memoryMap t r w (u32 i) o) <> 0) as Hi.
    { intros i o. cbn. rewrite (proj2 (Z.eqb_neq memoryMap 0)) by lia. pose proof (uwrap_range 32 i ltac:(lia)).
      rewrite uwrap_small by lia. lia. }
    intros b Hb. repeat (apply elem_of_cons in Hb as [-> | Hb]; [apply Hi|]). by apply elem_of_nil in Hb. }
  destruct (serve_all_registered (t_id t) bs l s1 Hr Hd Hl) as (vs & s2 & Es & Hvs).
  exists bs, vs, s2. rewrite E1, lookup_insert_eq. done.
Qed.

(** ** Memory *)

(** The addresses [l] have been allocated since [m0]. *)
Record grown (m0 : A) (l : list Z) (m : A) : Prop := {
  gr_ok : da_ok m;
  gr_nodup : NoDup l;
  gr_new a : a ∈ l -> (a ∉ da_live m0) /\ 0 <= a < 2 ^ 63;
  gr_live : da_live m = (list_to_set l ∪ da_live m0)
}.

Lemma Allocate_grown size m0 l m (s : state) a s' :
  Allocate d size s = Some (inr a, s') -> 0 <= size <= max_request -> mems (lay s) !! d = Some m -> grown m0 l m ->
  exists m', mems (lay s') !! d = Some m' /\ grown m0 (l ++ [a]) m'.
Proof.
  unfold Allocate, AllocateInfo. intros E Hs Em [Hok Hnd Hnew Hlive]. rewrite Em in E. cbn [mbind option_bind ShouldUseBackwardAllocation] in E.
  destruct (da_allocate_law m size Hok Hs) as (r & m' & Ea & Hok' & He). rewrite Ea in E. cbn [mbind option_bind] in E.
  unfold phys_addr in E. cbn [phys_addr_base phys_addr_offset] in E. rewrite Z.add_0_l, uwrap_uwrap in E.
  destruct He as [[-> _]|(Hr & Hf & Hl)]; [done|]. rewrite (uwrap_small 64 r) in E by lia.
  destruct (_ =? _); [done|]. injection E as <- <-. exists m'. cbn. rewrite lookup_insert_eq. split; [done|]. rewrite Hlive in Hf.
  constructor.
  - done.
  - apply NoDup_app. split; [done|]. split; [|apply NoDup_singleton]. intros x Hx Hx'. apply list_elem_of_singleton in Hx' as ->. set_solver.
  - intros x Hx. apply elem_of_app in Hx as [Hx|Hx]; [by apply Hnew|]. apply list_elem_of_singleton in Hx as ->. split; [set_solver|lia].
  - rewrite Hl, Hlive, list_to_set_app_L. set_solver.
Qed.

Lemma register_block_grown (t : task) r w ok (s : state) u s' m0 l m :
  register_block d base memoryMap t r w ok s = Some (inr u, s') ->
  0 <= input_block t <= max_request -> 0 <= output_all_size (npuModel t) <= max_request ->
  mems (lay s) !! d = Some m -> grown m0 l m ->
  exists i o m', mems (lay s') !! d = Some m' /\ grown m0 (l ++ [i; o]) m' /\
    npuInference s' = <[t_id t := default [] (npuInference s !! t_id t) ++ [new_inference base memoryMap t r w (u32 i) (u32 o)]]> (npuInference s).
Proof.
  unfold register_block. intros E Hi Ho Em Hg. call_step E. call_step E. call_step E. apply assert_done in E as [_ ->].
  pose proof (Allocate_tables _ _ _ _ E0) as (_ & _ & E03 & _). pose proof (Allocate_tables _ _ _ _ E1) as (_ & _ & E13 & _).
  destruct (Allocate_grown _ _ _ _ _ _ _ E0 Hi Em Hg) as (m1 & Em1 & Hg1).
  destruct (Allocate_grown _ _ _ _ _ _ _ E1 Ho Em1 Hg1) as (m2 & Em2 & Hg2). rewrite <- app_assoc in Hg2.
  injection E2 as _ <-. exists x, x0, m2. split; [done|]. split; [done|]. cbn. by rewrite E13, E03.
Qed.

(** The addresses a registration takes: the register map and the weights, an address that may be given up, and
    those of the blocks. *)
Lemma RegisterTask_grown (t : task) ok cr wr (s : state) ret s' m0 :
  RegisterTask d base memoryMap t ok cr wr s = Some (inr ret, s') -> da_ok m0 -> mems (lay s) !! d = Some m0 ->
  (forall z, z ∈ [rmap_size (npuModel t); weight_size (npuModel t); input_block t; output_all_size (npuModel t)] -> 0 <= z <= max_request) ->
  exists r w x i0 o0 i1 o1 m', mems (lay s') !! d = Some m' /\ grown m0 ([r; w] ++ x ++ [i0; o0; i1; o1]) m' /\
    npuInference s' !! t_id t = Some [new_inference base memoryMap t (u32 (default r (last x))) (u32 w) (u32 i0) (u32 o0);
                                      new_inference base memoryMap t (u32 (default r (last x))) (u32 w) (u32 i1) (u32 o1)].
Proof.
  unfold RegisterTask. intros E Hok Em Hz.
  assert (0 <= rmap_size (npuModel t) <= max_request /\ 0 <= weight_size (npuModel t) <= max_request /\
    0 <= input_block t <= max_request /\ 0 <= output_all_size (npuModel t) <= max_request) as (Z1 & Z2 & Z3 & Z4)
    by (repeat split; apply Hz; set_solver). clear Hz. call_step E. injection E0 as _ <-. call_step E. apply assert_done in E0 as [_ ->].
  call_step E. apply assert_done in E0 as [_ ->]. call_step E. call_step E. call_step E. call_step E. call_step E. call_step E.
  call_step E. apply assert_done in E5 as [_ ->]. injection E6 as _ <-. injection E as _ <-.
  assert (grown m0 [] m0) as Hg0 by (constructor; [done|apply NoDup_nil_2|intros a Ha; by apply elem_of_nil in Ha|cbn; set_solver]).
  destruct (Allocate_grown _ _ _ _ _ _ _ E0 Z1 Em Hg0) as (m1 & Em1 & Hg1).
  destruct (Allocate_grown _ _ _ _ _ _ _ E1 Z2 Em1 Hg1) as (m2 & Em2 & Hg2).
  pose proof (Allocate_tables _ _ _ _ E0) as (_ & _ & A3 & _). pose proof (Allocate_tables _ _ _ _ E1) as (_ & _ & B3 & _).
  assert (exists xs m3, mems (lay s2) !! d = Some m3 /\ grown m0 ([x2; x3] ++ xs) m3 /\ x4 = default x2 (last xs) /\ npuInference s2 = npuInference s1)
    as (xs & m3 & Em3 & Hg3 & Hx & C3).
  { destruct (_ <? _).
    - destruct (Allocate_grown _ _ _ _ _ _ _ E2 Z1 Em2 Hg2) as (m3 & Em3 & Hg3).
      pose proof (Allocate_tables _ _ _ _ E2) as (_ & _ & C3 & _). exists [x4], m3. done.
    - injection E2 as <- <-. exists [], m2. done. }
  assert (npuInference s2 !! t_id t = Some []) as Ei by (rewrite C3, B3, A3; cbn; apply lookup_insert_eq).
  destruct (register_block_grown _ _ _ _ _ _ _ _ _ _ E3 Z3 Z4 Em3 Hg3) as (i0 & o0 & m4 & Em4 & Hg4 & D3).
  destruct (register_block_grown _ _ _ _ _ _ _ _ _ _ E4 Z3 Z4 Em4 Hg4) as (i1 & o1 & m5 & Em5 & Hg5 & F3).
  exists x2, x3, xs, i0, o0, i1, o1, m5. split; [done|]. split; [by rewrite <- !app_assoc in Hg5|].
  cbn [npuInference set_tensors]. rewrite F3, lookup_insert_eq, D3, lookup_insert_eq, Ei. cbn. by rewrite Hx.
Qed.

(** Nothing happens to the address 0. *)
Lemma DeAllocate_live a (s : state) m :
  mems (lay s) !! d = Some m -> da_ok m -> a ∈ da_live m -> (a <> 0 -> blockIdToAddr (lay s) !! a = None) ->
  exists s' m', DeAllocate d a s = Some (inr tt, s') /\ mems (lay s') !! d = Some m' /\ da_ok m' /\
    da_live m' = da_live m ∖ ({[a]} ∖ {[0]}) /\ blockIdToAddr (lay s') = blockIdToAddr (lay s) /\ same_tables s s'.
Proof.
  intros Em Hok Ha Hid. pose proof (da_live_range m a Hok Ha) as Hr. unfold DeAllocate, TaskMemory.DeAllocate, DeAllocateInfo.
  cbn [block_id phys_addr]. unfold phys_addr. cbn [phys_addr_base phys_addr_offset]. rewrite uwrap_swrap by lia.
  rewrite Z.add_0_l, uwrap_uwrap, (uwrap_small 64 a) by lia. destruct (Z.eqb_spec a 0) as [->|Ha0].
  - cbn [negb]. rewrite andb_false_r. cbn. exists (set_lay (mkLayer (mems (lay s)) (nextNoServiceBlockId (lay s)) (blockIdToAddr (lay s))) s), m.
    cbn. do 3 (split; [done|]). split; [set_solver|]. done.
  - rewrite (Hid Ha0). assert (a =? UINT64_MAX = false) as -> by (apply Z.eqb_neq; unfold UINT64_MAX; lia).
    rewrite (proj2 (Z.eqb_neq a 0) Ha0). cbn [negb andb]. rewrite Em. cbn [mbind option_bind]. destruct (da_deallocate_law m a Hok Ha) as (m' & E & Hok' & Hl). rewrite E.
    cbn [mbind option_bind]. eexists _, m'. split; [reflexivity|]. cbn. rewrite lookup_insert_eq. do 2 (split; [done|]). split; [rewrite Hl; set_solver|]. done.
Qed.

Lemma DeAllocate_zero (s : state) : DeAllocate d 0 s = Some (inr tt, s).
Proof. destruct s as [[ms n ids] ? ? ? ? ? ?]. reflexivity. Qed.

(** The blocks of a task that are released one after the other. *)
Definition freed (a : Z) : gset Z := {[a]} ∖ {[0]}.

Lemma release_two i (s : state) m :
  mems (lay s) !! d = Some m -> da_ok m -> in_offset i ∈ da_live m -> out_offset i ∈ da_live m -> in_offset i <> out_offset i ->
  (forall a, a ∈ da_live m -> a <> 0 -> blockIdToAddr (lay s) !! a = None) ->
  exists s' m', (forall l, release_blocks d (i :: l) s = release_blocks d l s') /\ mems (lay s') !! d = Some m' /\ da_ok m' /\
    da_live m' = da_live m ∖ (freed (in_offset i) ∪ freed (out_offset i)) /\
    blockIdToAddr (lay s') = blockIdToAddr (lay s) /\ same_tables s s'.
Proof.
  intros Em Hok Hi Ho Hne Hid.
  destruct (DeAllocate_live (in_offset i) s m Em Hok Hi) as (s1 & m1 & E1 & Em1 & Hok1 & Hl1 & Hb1 & Ht1); [by apply Hid|].
  destruct (DeAllocate_live (out_offset i) s1 m1 Em1 Hok1) as (s2 & m2 & E2 & Em2 & Hok2 & Hl2 & Hb2 & Ht2).
  { rewrite Hl1. set_solver. }
  { intros Hn. rewrite Hb1. by apply Hid. }
  exists s2, m2. split; [|split; [done|split; [done|split; [unfold freed; rewrite Hl2, Hl1; set_solver|split; [congruence|]]]]].
  - intros l. cbn [release_blocks]. by rewrite (call_inr _ _ _ _ _ E1), (call_inr _ _ _ _ _ E2).
  - unfold same_tables in *. destruct_and!. repeat split; congruence.
Qed.

Lemma kept (X : gset Z) a i o : a ∈ X -> a ∉ [i; o] -> a ∈ X ∖ (freed i ∪ freed o).
Proof. unfold freed. set_solver. Qed.

Lemma addresses_apart r w (x : list Z) c i0 o0 i1 o1 :
  c ∈ r :: x -> NoDup ([r; w] ++ x ++ [i0; o0; i1; o1]) ->
  c <> w /\ (forall a, a ∈ [c; w] -> a ∉ [i0; o0; i1; o1]) /\ i0 <> o0 /\ i1 <> o1 /\ i1 ∉ [i0; o0] /\ o1 ∉ [i0; o0].
Proof.
  intros Hc Hnd. cbn [app] in Hnd. apply NoDup_cons in Hnd as [Hr Hnd]. apply NoDup_cons in Hnd as [Hw Hnd].
  apply NoDup_app in Hnd as (_ & Hx & Hb). rewrite !NoDup_cons in Hb. destruct Hb as (B0 & B1 & B2 & _).
  split; [set_solver|]. split; [|set_solver]. intros a Ha Hin. apply elem_of_cons in Ha as [-> | Ha]; [|set_solver].
  apply elem_of_cons in Hc as [-> | Hc]; [set_solver|]. by apply (Hx c Hc).
Qed.

Lemma addresses_of r w (x : list Z) c i0 o0 i1 o1 : let addrs := [r; w] ++ x ++ [i0; o0; i1; o1] in
  c ∈ r :: x -> c ∈ addrs /\ w ∈ addrs /\ i0 ∈ addrs /\ o0 ∈ addrs /\ i1 ∈ addrs /\ o1 ∈ addrs.
Proof. intros addrs Hc. unfold addrs. set_solver. Qed.

(** What a task takes is not given back by its release: the model is never entered into the table that [Release] looks it up in,
    so that of what the registration allocated at least the register map and the weights stay allocated for ever. *)
Theorem std_release_leaks (t : task) ok cr wr (s : state) ret s1 m0 m1 :
  mems (lay s) !! d = Some m0 -> da_ok m0 -> npuModels s !! t_id t = None ->
  (forall z, z ∈ [rmap_size (npuModel t); weight_size (npuModel t); input_block t; output_all_size (npuModel t)] -> 0 <= z <= max_request) ->
  RegisterTask d base memoryMap t ok cr wr s = Some (inr ret, s1) -> mems (lay s1) !! d = Some m1 ->
  (forall a, a ∈ da_live m1 -> a < 2 ^ 32 /\ (a <> 0 -> blockIdToAddr (lay s1) !! a = None)) ->
  exists bs s2 m2 lost, npuInference s1 !! t_id t = Some bs /\ Release d (t_id t) s1 = Some (inr 0, s2) /\
    mems (lay s2) !! d = Some m2 /\ lost ## da_live m0 /\ da_live m2 = (lost ∪ da_live m0) /\
    (forall b, b ∈ bs -> cmd_offset b ∈ lost /\ weight_offset b ∈ lost /\ cmd_offset b <> weight_offset b).
Proof.
  intros Em Hok Hmod Hz E Em1 Hsmall.
  destruct (RegisterTask_grown _ _ _ _ _ _ _ _ E Hok Em Hz) as (r & w & x & i0 & o0 & i1 & o1 & m1' & Em1' & Hg & Hbs).
  assert (m1' = m1) as -> by congruence. destruct Hg as [Hok1 Hnd Hnew Hlive].
  destruct (RegisterTask_done _ _ _ _ _ _ _ E) as (? & ? & ? & ? & ? & ? & _ & _ & Hnm & _).
  set (addrs := [r; w] ++ x ++ [i0; o0; i1; o1]) in *.
  assert (forall a, a ∈ addrs -> u32 a = a /\ a ∈ da_live m1) as Hu.
  { intros a Ha. assert (a ∈ da_live m1) as Hin by (rewrite Hlive; apply elem_of_union; left; by apply elem_of_list_to_set).
    split; [apply uwrap_small; split; [apply (Hnew a Ha)|by apply Hsmall]|done]. }
  set (c := default r (last x)) in *.
  assert (c ∈ r :: x) as Hc.
  { unfold c. destruct (last x) as [y|] eqn:Ey; [|by left]. right. apply last_Some in Ey as (x' & ->). apply elem_of_app. right. by left. }
  destruct (addresses_of r w x c i0 o0 i1 o1 Hc) as (Ac & Aw & Ai0 & Ao0 & Ai1 & Ao1). fold addrs in Ac, Aw, Ai0, Ao0, Ai1, Ao1.
  assert (c <> w /\ (forall a, a ∈ [c; w] -> a ∉ [i0; o0; i1; o1]) /\ i0 <> o0 /\ i1 <> o1 /\ i1 ∉ [i0; o0] /\ o1 ∉ [i0; o0])
    as (Hcw & Hcb & Hio0 & Hio1 & Hi1 & Ho1) by (by eapply addresses_apart; [exact Hc|exact Hnd]).
  rewrite (proj1 (Hu c Ac)), (proj1 (Hu w Aw)), (proj1 (Hu i0 Ai0)), (proj1 (Hu o0 Ao0)), (proj1 (Hu i1 Ai1)), (proj1 (Hu o1 Ao1)) in Hbs.
  set (b0 := new_inference base memoryMap t c w i0 o0) in *. set (b1 := new_inference base memoryMap t c w i1 o1) in *.
  destruct (release_two b0 s1 m1 Em1 Hok1) as (s2 & m2 & E2 & Em2 & Hok2 & Hl2 & Hb2 & Ht2);
    [by apply Hu|by apply Hu|done|intros a Ha; by apply Hsmall|].
  change (in_offset b0) with i0 in Hl2. change (out_offset b0) with o0 in Hl2.
  destruct (release_two b1 s2 m2 Em2 Hok2) as (s3 & m3 & E3 & Em3 & Hok3 & Hl3 & Hb3 & Ht3).
  { rewrite Hl2. apply kept; [by apply Hu|done]. }
  { rewrite Hl2. apply kept; [by apply Hu|done]. }
  { done. }
  { intros a Ha. rewrite Hb2. apply Hsmall. rewrite Hl2 in Ha. by apply elem_of_difference in Ha as [? _]. }
  change (in_offset b1) with i1 in Hl3. change (out_offset b1) with o1 in Hl3.
  assert (forall a, a ∈ da_live m0 -> a ∈ da_live m3) as Hkeep.
  { intros a Ha. assert (forall b, b ∈ addrs -> a <> b) as Hn
      by (intros b Hb ->; destruct (Hnew b Hb) as [Hx _]; by apply Hx).
    rewrite Hl3, Hl2, Hlive. repeat (apply kept; [|rewrite !not_elem_of_cons; split_and!; [by apply Hn..|apply not_elem_of_nil]]).
    apply elem_of_union. by right. }
  assert (forall a, a ∈ [c; w] -> a ∈ da_live m3 ∖ da_live m0) as Hlost.
  { intros a Ha. specialize (Hcb a Ha). assert (a ∈ addrs) as Haa by (repeat (apply elem_of_cons in Ha as [-> | Ha]; [done|]); by apply elem_of_nil in Ha).
    apply elem_of_difference. split; [|by apply (Hnew a Haa)].
    rewrite Hl3, Hl2. rewrite !not_elem_of_cons in Hcb. destruct Hcb as (? & ? & ? & ? & ?).
    repeat (apply kept; [|rewrite !not_elem_of_cons; split_and!; done]). by apply Hu. }
  exists [b0; b1], (drop_model (t_id t) s3), m3, (da_live m3 ∖ da_live m0). split; [done|]. split.
  - unfold Release. rewrite (call_inr _ _ _ (0, 0) s1) by (unfold gets; by rewrite Hnm, Hmod).
    cbn [fst snd]. rewrite !(call_inr _ _ _ _ _ (DeAllocate_zero s1)).
    rewrite (call_inr _ _ _ [b0; b1] s1) by (unfold gets; by rewrite Hbs).
    rewrite (call_inr _ _ _ tt s3) by (by rewrite E2, E3). reflexivity.
  - split; [done|]. split; [set_solver|]. split.
    + apply set_eq. intros a. rewrite elem_of_union, elem_of_difference. specialize (Hkeep a).
      destruct (decide (a ∈ da_live m0)); naive_solver.
    + intros b Hb. assert (cmd_offset b = c /\ weight_offset b = w) as [-> ->]
        by (repeat (apply elem_of_cons in Hb as [-> | Hb]; [done|]); by apply elem_of_nil in Hb).
      split; [apply Hlost; by left|]. split; [apply Hlost; right; by left|done].
Qed.

(** ** What goes wrong *)

(** The read-back compares a buffer with itself: the check of the data never fails. *)
Lemma compare_nothing read : compare read = 0.
Proof.
  destruct read as [b|]; [|done]. cbn. induction b as [|x b IH]; [done|]. cbn. by rewrite Z.eqb_refl.
Qed.

(** A task number that is registered again keeps the tensors of its first blocks in front: a request
    that is copied to the new block is given the outputs of the old one. *)
Theorem registered_again_reads_old_block (t : task) ok cr wr bs (s : state) ret s1 q :
  registered (t_id t) bs s -> RegisterTask d base memoryMap t ok cr wr s = Some (inr ret, s1) ->
  0 < memoryMap <= 2 ^ 64 - 2 ^ 32 -> rq_task q = t_id t -> default 0 (rq_input q) = 0 ->
  exists b b' v s2, bs !! 0%nat = Some b /\ default [] (npuInference s1 !! t_id t) !! 0%nat = Some b' /\
    InferenceRequest q s1 = Some (inr v, s2) /\ sv_outputs v = output_tensors b /\ sv_written v = with_req (rq_id q) b'.
Proof.
  intros (Hi & Hl & Ho & _) E Hm Hq Hz.
  destruct (RegisterTask_done _ _ _ _ _ _ _ E) as (r & w & i0 & o0 & i1 & o1 & E1 & E2 & _ & E3).
  destruct bs as [|b [|b2 [|]]]; try done. rewrite Ho in E3.
  set (b0 := new_inference base memoryMap t r w (u32 i0) (u32 o0)) in *. set (b1 := new_inference base memoryMap t r w (u32 i1) (u32 o1)) in *.
  assert (forall i o, in_data (new_inference base memoryMap t r w (u32 i) o) <> 0) as Hn.
  { intros i o. cbn. rewrite (proj2 (Z.eqb_neq memoryMap 0)) by lia. pose proof (uwrap_range 32 i ltac:(lia)).
    rewrite uwrap_small by lia. lia. }
  unfold InferenceRequest. rewrite Hq, Hz.
  rewrite (call_inr _ _ _ 0 s1) by (unfold gets; by rewrite E2, lookup_insert_eq).
  rewrite (call_inr _ _ _ tt _ eq_refl). set (s2 := set_bufIdx (t_id t) ((0 + 1) mod DEVICE_NUM_BUF) s1).
  rewrite (call_inr _ _ _ [b0; b1] s2) by (unfold gets, s2; cbn; by rewrite E1, lookup_insert_eq).
  rewrite (call_inr _ _ _ (output_tensors <$> [b; b2; b0; b1]) s2) by (unfold gets, s2; cbn; by rewrite E3, lookup_insert_eq).
  rewrite E1, lookup_insert_eq.
  destruct (list_find (fun i => in_data i = 0) [b0; b1]) as [[i x]|] eqn:Ef.
  { apply list_find_Some in Ef as (Ei & Hx & _). exfalso. destruct i as [|[|]]; [| |done]; injection Ei as <-; by eapply Hn. }
  cbv zeta. cbn [Z.to_nat]. rewrite (call_inr _ _ _ (0%nat, None) s2) by done. repeat rewrite (call_inr _ _ _ _ _ eq_refl). by eexists b, b0, _, _.
Qed.

End Thms.
End StdDeviceThms.

(** * The standalone device layer: concrete runs *)
Module StdDeviceRuns.
Import MemFd TaskMemory StdDevice StdDeviceThms.

Definition demo_task : task := mkTask 7 5000 8000 (mkModel 4096 20000 8192 16384 8192 0 0 12).
Definition demo_mem : Memory.memory := Memory.new_memory 0 1048576 0.
Definition demo_state : state Memory.memory := mkState (mkLayer {[0 := demo_mem]} 1 ∅) ∅ ∅ ∅ ∅ ∅ ∅.
Definition demo_registered : state Memory.memory :=
  match RegisterTask 0 0 65536 demo_task true (Some [1; 2]) None demo_state with Some (_, s) => s | None => demo_state end.
Definition demo_left : Memory.memory := default demo_mem (mems (lay demo_registered) !! 0).
Definition demo_requests : list request :=
  [mkRequest 40 7 5000 (Some 99); mkRequest 41 7 5000 None; mkRequest 42 7 5000 (Some 70000); mkRequest 43 7 5000 (Some 114688)].

Lemma demo_registers :
  RegisterTask 0 0 65536 demo_task true (Some [1; 2]) None demo_state = Some (inr 0, demo_registered).
Proof. vm_compute. reflexivity. Qed.

Lemma std_requests_served_witness :
  exists bs vs s2, npuInference demo_registered !! 7 = Some bs /\ length bs = 2%nat /\
    serve_all demo_requests demo_registered = Some (inr vs, s2) /\ Forall2 (fun q v => serves q bs v) demo_requests vs.
Proof.
  apply (std_requests_served 0 0 65536 demo_task true (Some [1; 2]) None demo_state 0 demo_registered demo_requests).
  - lia.
  - reflexivity.
  - exact demo_registers.
  - repeat constructor.
Defined.

Lemma std_release_leaks_witness :
  exists bs s2 m2 lost, npuInference demo_registered !! 7 = Some bs /\ Release 0 7 demo_registered = Some (inr 0, s2) /\
    mems (lay s2) !! 0 = Some m2 /\ lost ## da_live demo_mem /\ da_live m2 = (lost ∪ da_live demo_mem) /\
    (forall b, b ∈ bs -> cmd_offset b ∈ lost /\ weight_offset b ∈ lost /\ cmd_offset b <> weight_offset b).
Proof.
  apply (std_release_leaks 0 0 65536 demo_task true (Some [1; 2]) None demo_state 0 demo_registered demo_mem demo_left).
  - reflexivity.
  - apply wf_new_memory; [lia|exists 256; reflexivity].
  - reflexivity.
  - intros z Hz. repeat (apply elem_of_cons in Hz as [-> | Hz]; [vm_compute; split; discriminate|]). by apply elem_of_nil in Hz.
  - exact demo_registers.
  - vm_compute. reflexivity.
  - intros a Ha. assert (da_live demo_left = list_to_set [0; 4096; 24576; 32768; 49152; 57344]) as E by (vm_compute; reflexivity). rewrite E in Ha. clear E.
    apply elem_of_list_to_set in Ha.
    repeat (apply elem_of_cons in Ha as [-> | Ha]; [split; [lia|intros _; vm_compute; reflexivity]|]). by apply elem_of_nil in Ha.
Defined.

(** What the requests above lead to: a copy, nothing, a copy, the data of the second block. *)
Example demo_served :
  match serve_all demo_requests demo_registered with
  | Some (inr vs, _) => (fun v => (sv_copy v, req_id (sv_written v), in_offset (sv_written v))) <$> vs
  | _ => []
  end = [(Some (90112, 99, 5000), 40, 24576); (None, 41, 49152); (Some (90112, 70000, 5000), 42, 24576); (None, 43, 49152)].
Proof. vm_compute. reflexivity. Qed.

End StdDeviceRuns.
