(* ===== verification/IoSlice.v ===== *)
(** * Input and output of a request: slices and driver requests

    [lib/include/dxrt/npu_memory_cache.h], [lib/npu_memory_cache.cpp],
    [lib/dynamic_ipc/shm/shm.h] ([SharedMemoryView]), [lib/device_pool/inference_context.cpp]
    and the places of [lib/device_pool/] that compute where a request's data lives:
    registration, [InferenceRequestACC], [PrepareZeroCopyIo], the input and the output
    handler, and the DMA calls of the layer without a service. *)

From Stdlib Require Import ZArith Lia.
From S2P Require Import Prelude DeviceTables TaskData.

Module IoSlice.
Import TaskData MemFd.

(** ** Views and slices *)

Record SharedMemoryView := mkView { v_info : SharedMemoryInfo; v_offset : Z; v_size : Z }.

Definition deviceAddress (v : SharedMemoryView) : Z := u64 (phys_addr (v_info v) + v_offset v).
Definition hostPtr (v : SharedMemoryView) : Z :=
  if i_ptr (v_info v) =? 0 then 0 else u64 (i_ptr (v_info v) + v_offset v).
Definition isValid (v : SharedMemoryView) : bool :=
  (0 <? v_size v) && (v_offset v <=? i_size (v_info v))
  && (v_size v <=? u64 (i_size (v_info v) - v_offset v)).
Definition ofWhole (i : SharedMemoryInfo) : SharedMemoryView := mkView i 0 (i_size i).

(** The slices of a task, [TaskNpuMemoryCacheManager]. *)
Definition new_slices (size : Z) (count : nat) (info : SharedMemoryInfo) : list SharedMemoryView :=
  map (fun i => mkView info (u64 (size * Z.of_nat i)) (u64 size)) (seq 0 count).

(** ** Registration *)

Record TaskStaticConfig := mkConfig {
  c_model_type : Z; c_model_format : Z; c_model_cmds : Z; c_op_mode : Z;
  c_cmd_offset : Z; c_weight_offset : Z; c_custom_offset : Z;
  c_input_size : Z; c_output_size : Z; c_last_output_offset : Z; c_output_all_offset : Z;
  c_datas : list Z; c_memory_base : Z
}.

(** [RegisterTask]: where the model lies is an argument. *)
Definition static_config (t : task_data) (rmap weight custom base : Z) : TaskStaticConfig :=
  let m := t_npuModel t in
  mkConfig (m_type m) (m_format m) (u32 (m_cmds m)) (m_op_mode m) (u32 rmap) (u32 weight)
    custom (u32 (i32 (t_encodedInputSize t))) (last_output_size m) (last_output_offset m)
    (output_all_offset m) (m_checkpoints m) base.

(** [RegisterTask]: the size of a slice. *)
Definition block_size (t : task_data) : Z :=
  let m := t_npuModel t in
  let aligned_input_size := data_align_int (i32 (t_encodedInputSize t)) 64 in
  let output_delta :=
    if negb (output_all_offset m =? 0) then output_all_offset m else aligned_input_size in
  Z.max (aligned_input_size + t_outputMemSize t)
        (output_delta + last_output_offset m + last_output_size m).

(** ** [BuildDriverRequest] *)

Record meminfo := mkMeminfo { d_data : Z; d_base : Z; d_offset : Z; d_size : Z }.
Record InferenceSlimRequest := mkSlim {
  s_req_id : Z; s_task_id : Z; s_input_host_addr : Z; s_output_host_addr : Z;
  s_input_device_offset : Z; s_bound : Z; s_prior : Z; s_prior_level : Z;
  s_bandwidth : Z; s_queue : Z
}.
Record request_acc := mkAcc {
  a_task_id : Z; a_req_id : Z; a_input : meminfo; a_output : meminfo;
  a_model_type : Z; a_model_format : Z; a_model_cmds : Z;
  a_cmd_offset : Z; a_weight_offset : Z; a_custom_offset : Z; a_op_mode : Z;
  a_datas : list Z; a_proc_id : Z; a_bound : Z; a_prior : Z; a_prior_level : Z;
  a_bandwidth : Z; a_queue : Z
}.

Definition BuildDriverRequest (pid : Z) (c : TaskStaticConfig) (s : InferenceSlimRequest) : request_acc :=
  let aligned_input := data_align (c_input_size c) 64 in
  let output_delta :=
    if negb (c_output_all_offset c =? 0) then c_output_all_offset c else aligned_input in
  mkAcc (s_task_id s) (s_req_id s)
    (mkMeminfo (s_input_host_addr s) (c_memory_base c) (u32 (s_input_device_offset s)) (c_input_size c))
    (mkMeminfo (s_output_host_addr s) (c_memory_base c)
       (u32 (u32 (s_input_device_offset s) + output_delta + c_last_output_offset c)) (c_output_size c))
    (c_model_type c) (c_model_format c) (c_model_cmds c)
    (c_cmd_offset c) (c_weight_offset c) (c_custom_offset c) (c_op_mode c)
    (c_datas c) pid (s_bound s) (s_prior s) (s_prior_level s) (s_bandwidth s) (s_queue s).

(** ** A request at the device layer *)

(** [InferenceRequestACC]: the size asked for when a task has no slices. *)
Definition cacheSliceBytes (t : task_data) (c : TaskStaticConfig) : Z :=
  let alignedInputBytes := data_align (t_encodedInputSize t) 64 in
  let outputDelta :=
    if negb (c_output_all_offset c =? 0) then c_output_all_offset c else alignedInputBytes in
  Z.max (u64 (alignedInputBytes + t_outputMemSize t))
        (u64 (outputDelta + c_last_output_offset c + c_output_size c)).

(** [InferenceRequestACC]: the driver request of a request and its slice. *)
Definition acc_request (pid : Z) (t : task_data) (c : TaskStaticConfig) (reqId taskId bound : Z)
    (input_ptr output_ptr : Z) (slice : SharedMemoryView) : request_acc :=
  let c' := if t_isPPCPU t then c else
    mkConfig (c_model_type c) (c_model_format c) (c_model_cmds c) (c_op_mode c)
      (c_cmd_offset c) (c_weight_offset c) 0 (c_input_size c) (c_output_size c)
      (c_last_output_offset c) (c_output_all_offset c) (c_datas c) (c_memory_base c) in
  BuildDriverRequest pid c'
    (mkSlim reqId (u32 taskId) input_ptr output_ptr (deviceAddress slice) (u32 bound) 0 0 0 0).

(** [PrepareZeroCopyIo] and [OutputHandler]: offset of the output in the slice. *)
Definition zero_copy_output_offset (c : TaskStaticConfig) : Z :=
  u64 ((if negb (c_output_all_offset c =? 0) then c_output_all_offset c
        else data_align (c_input_size c) 64) + c_last_output_offset c).
Definition outputOffsetInSlice (t : task_data) (c : TaskStaticConfig) : Z :=
  u64 ((if negb (c_output_all_offset c =? 0) then c_output_all_offset c
        else data_align (t_encodedInputSize t) 64) + c_last_output_offset c).

(** [PrepareZeroCopyIo]: the encoded pointers of the request. *)
Definition PrepareZeroCopyIo (c : TaskStaticConfig) (slice : SharedMemoryView) : option (Z * Z) :=
  if negb (isValid slice) || (hostPtr slice =? 0) then None
  else Some (hostPtr slice, u64 (hostPtr slice + zero_copy_output_offset c)).

(** [InputHandler]: the view written and whether the input is staged first. *)
Definition inputView (slice : SharedMemoryView) (a : request_acc) : SharedMemoryView :=
  mkView (v_info slice) (v_offset slice) (d_size (a_input a)).
Definition input_staged (slice : SharedMemoryView) (a : request_acc) : bool :=
  negb (hostPtr slice =? 0) && (0 <? d_size (a_input a)) && negb (hostPtr slice =? d_data (a_input a)).

(** [OutputHandler]: the view read, and the one of the filtered boxes of a PPCPU task. *)
Definition outputView (t : task_data) (c : TaskStaticConfig) (slice : SharedMemoryView)
    (a : request_acc) : SharedMemoryView :=
  mkView (v_info slice) (u64 (v_offset slice + outputOffsetInSlice t c)) (d_size (a_output a)).

Definition validated_filter_num (t : task_data) (unit_size ppu_filter_num : Z) : Z :=
  let expected_max_boxes := u64 (i32 (t_outputSize t)) / unit_size in
  if expected_max_boxes <? ppu_filter_num then u32 expected_max_boxes else ppu_filter_num.

(** [SetMemInfo_PPCPU] *)
Definition SetMemInfo_PPCPU (rmap_output : meminfo) (ppu_filter_num unit_size output_ptr : Z) : meminfo :=
  mkMeminfo output_ptr (d_base rmap_output) (u32 (d_offset rmap_output + d_size rmap_output))
    (u32 (u64 (unit_size * ppu_filter_num))).

Definition ppcpuOutputView (t : task_data) (c : TaskStaticConfig) (slice : SharedMemoryView)
    (a : request_acc) (unit_size ppu_filter_num output_ptr : Z) : SharedMemoryView :=
  mkView (v_info slice)
    (u64 (v_offset slice + outputOffsetInSlice t c + d_size (a_output a)))
    (d_size (SetMemInfo_PPCPU (a_output a)
       (validated_filter_num t unit_size ppu_filter_num) unit_size output_ptr)).

(** ** The DMA calls without a service *)

(** [MakeDMAInfo] *)
Definition MakeDMAInfo (hostAddress devAddress size : Z) : SharedMemoryInfo :=
  mkInfo 0 size hostAddress 0 devAddress 0.

(** [NoServiceLayer::DMAWrite] and [DMARead] of a view: what the driver is given;
    [deviceBase] is [mem_addr] of the device. *)
Definition no_service_dma (deviceBase : Z) (v : SharedMemoryView) : option meminfo :=
  if (hostPtr v =? 0) || negb (isValid v) then None
  else
    let a := deviceAddress v in
    Some (mkMeminfo (hostPtr v) deviceBase
            (if deviceBase <=? a then u32 (u64 (a - deviceBase)) else u32 a) (u32 (v_size v))).

(** [DMAWrite(id, source, destination, size)] and [DMARead(id, source, destination, size)] *)
Definition DMAWrite4 (deviceBase source destination size : Z) : option meminfo :=
  no_service_dma deviceBase (ofWhole (MakeDMAInfo source destination size)).
Definition DMARead4 (deviceBase source destination size : Z) : option meminfo :=
  no_service_dma deviceBase (ofWhole (MakeDMAInfo destination source size)).

(** [InputHandler] and [OutputHandler] without a service. *)
Definition write_input (deviceBase : Z) (a : request_acc) : option meminfo :=
  DMAWrite4 deviceBase (d_data (a_input a)) (u64 (d_base (a_input a) + d_offset (a_input a)))
    (d_size (a_input a)).
Definition read_output (deviceBase : Z) (t : task_data) (c : TaskStaticConfig)
    (slice : SharedMemoryView) (a : request_acc) : option meminfo :=
  DMARead4 deviceBase (deviceAddress (outputView t c slice a)) (d_data (a_output a)) (d_size (a_output a)).

(** [MakeDMAMemoryView]: the write of a model region by [RegisterTask]. *)
Definition MakeDMAMemoryView (deviceMemory : SharedMemoryInfo) (ptr size : Z) : SharedMemoryInfo :=
  mkInfo (block_id deviceMemory) size ptr (phys_addr_base deviceMemory)
    (phys_addr_offset deviceMemory) (i_fd deviceMemory).
Definition write_model (deviceBase : Z) (deviceMemory : SharedMemoryInfo) (ptr size : Z) : option meminfo :=
  no_service_dma deviceBase (ofWhole (MakeDMAMemoryView deviceMemory ptr size)).

End IoSlice.

(** * Input and output of a request: theorems

    The input, the output and the filtered boxes of a request lie in its slice, the
    slices of a task are disjoint, and the three computations of the output address
    agree.  Without a service the addresses of views are ambiguous. *)


Module IoSliceThms.
Import TaskData TaskDataSpec TaskDataThms MemFd IoSlice.

(** ** The sizes of a task *)

Record model_ranges (m : dxrt_model) : Prop := {
  mr_all_off : 0 <= output_all_offset m < 2 ^ 32;
  mr_all_size : 0 <= output_all_size m < 2 ^ 32;
  mr_last_off : 0 <= last_output_offset m < 2 ^ 32;
  mr_last_size : 0 <= last_output_size m < 2 ^ 32
}.

Lemma base_model_ranges info rs ws o : model_ranges (base_model info rs ws o).
Proof. split; simpl; by apply uwrap_range. Qed.

Lemma set_kind_ranges ty f oas off size m :
  model_ranges m -> 0 <= oas < 2 ^ 32 -> 0 <= off < 2 ^ 32 -> 0 <= size < 2 ^ 32 ->
  model_ranges (set_kind ty f oas off size m).
Proof. intros [] **. by split. Qed.

Lemma kind_ranges info data_ ppu t o k rs ws os :
  npu_facts info data_ ppu t o k rs ws os -> model_ranges (t_npuModel t) /\
  t_outputMemSize t = output_all_size (t_npuModel t).
Proof.
  intros F. pose proof (base_model_ranges info rs ws o) as B. pose proof B as [B1 B2 B3 B4].
  assert (model_ranges (k_model k)) as K.
  { pose proof (nf_kind _ _ _ _ _ _ _ _ _ F) as Ek. destruct ppu.
    - apply bind_inr in Ek as (s & _ & [= <-]). apply set_kind_ranges; [done| |done|done].
      by apply uwrap_range.
    - injection Ek as <-. unfold npu_kind.
      destruct (forallb _ _); [apply set_kind_ranges; [done|done|done|lia]|].
      destruct (is_mem _ _); apply set_kind_ranges; try done; try by apply uwrap_range. }
  rewrite (nf_memsize _ _ _ _ _ _ _ _ _ F). destruct (nf_model _ _ _ _ _ _ _ _ _ F) as [z ->].
  destruct K. split; [by split|]. simpl. lia.
Qed.

(** The filtered boxes fit behind the output of a PPCPU task. *)
Lemma ppcpu_room bc info data_ t :
  set_from_npu bc info data_ true = inr t -> regular info ->
  region info + t_outputSize t + 64 < 2 ^ 32 -> 0 <= t_outputSize t ->
  mem_offset (ri_model_output info) = 0 ->
  output_all_offset (t_npuModel t) = 0 /\
  last_output_offset (t_npuModel t) + last_output_size (t_npuModel t) + t_outputSize t
    <= output_all_size (t_npuModel t).
Proof.
  intros E Hr Hs Hp Hm. destruct (set_from_npu_inv _ _ _ _ _ E) as (o & k & rs & ws & os & F).
  pose proof (regular_layout info o Hr (nf_layout _ _ _ _ _ _ _ _ _ F)) as L.
  pose proof (nf_kind _ _ _ _ _ _ _ _ _ F) as Ek. apply bind_inr in Ek as (s & _ & [= <-]).
  rewrite (nf_outputSize _ _ _ _ _ _ _ _ _ F) in *. destruct (nf_model _ _ _ _ _ _ _ _ _ F) as [z Em].
  rewrite Em in *. simpl in *. pose proof (lf_lower _ _ L). pose proof (lf_upper _ _ L).
  destruct Hr as [Hr _]. unfold region in *. rewrite Hm.
  split; [done|]. set (p := if 0 <? _ : bool then _ else _) in *.
  rewrite (uwrap_small 32 (0 + lower o)), (uwrap_small 32 (upper o - lower o)),
    (uwrap_small 32 (mem_size (ri_model_output info))) by lia.
  rewrite data_align_64 by lia. pose proof (align64_bounds p). rewrite uwrap_small; lia.
Qed.

(** ** Slices *)

Definition input_fits (t : task_data) : Prop := 0 <= t_encodedInputSize t < 2 ^ 31 - 64.

(** The offset of the output in a slice. *)
Definition out_delta (t : task_data) : Z :=
  let m := t_npuModel t in
  (if negb (output_all_offset m =? 0) then output_all_offset m else align64 (t_encodedInputSize t))
  + last_output_offset m.

Lemma config_input_size t rmap weight custom base :
  input_fits t -> c_input_size (static_config t rmap weight custom base) = t_encodedInputSize t.
Proof. intros Hi. unfold input_fits in Hi. simpl. rewrite swrap_small by lia. apply uwrap_small. lia. Qed.

Lemma block_size_eq t : input_fits t ->
  block_size t = Z.max (align64 (t_encodedInputSize t) + t_outputMemSize t)
                       (out_delta t + last_output_size (t_npuModel t)).
Proof. intros Hi. unfold block_size, out_delta. rewrite data_align_int_64 by done. done. Qed.

Lemma out_offset_eq t c rmap weight custom base :
  input_fits t -> model_ranges (t_npuModel t) -> c = static_config t rmap weight custom base ->
  outputOffsetInSlice t c = out_delta t /\ zero_copy_output_offset c = out_delta t.
Proof.
  intros Hi [] ->. unfold outputOffsetInSlice, zero_copy_output_offset, out_delta.
  rewrite config_input_size by done. unfold input_fits in Hi. simpl. rewrite data_align_64 by lia.
  pose proof (align64_bounds (t_encodedInputSize t)).
  destruct (output_all_offset (t_npuModel t) =? 0); simpl; rewrite uwrap_small; lia.
Qed.

(** Device memory of [count] slices of [bs] bytes below 4 GB. *)
Record pool_fits (bs : Z) (count : nat) (info : SharedMemoryInfo) : Prop := {
  pf_base : 0 <= phys_addr_base info; pf_offset : 0 <= phys_addr_offset info;
  pf_size : bs * Z.of_nat count <= i_size info < 2 ^ 63;
  pf_below : phys_addr_base info + phys_addr_offset info + bs * Z.of_nat count < 2 ^ 32
}.

Lemma slice_address bs count info i s :
  0 <= bs -> pool_fits bs count info -> new_slices bs count info !! i = Some s ->
  v_info s = info /\ v_size s = bs /\ v_offset s = bs * Z.of_nat i /\ (i < count)%nat /\
  deviceAddress s = phys_addr_base info + phys_addr_offset info + bs * Z.of_nat i.
Proof.
  intros Hb [P1 P2 P3 P4] E. unfold new_slices in E. change (map ?f ?l) with (f <$> l) in E.
  rewrite list_lookup_fmap in E. apply fmap_Some in E as (j & Ej & ->).
  apply lookup_seq in Ej as [-> Hj]. simpl in *.
  assert (bs * Z.of_nat i + bs <= bs * Z.of_nat count) by nia.
  assert (0 <= bs * Z.of_nat i) by nia.
  rewrite !uwrap_small by lia. split; [done|split; [done|split; [done|split; [done|]]]].
  unfold deviceAddress, phys_addr. simpl.
  rewrite (uwrap_small 64 (phys_addr_base _ + _)), uwrap_small by lia. lia.
Qed.

(** Where the driver request places input and output. *)
Lemma acc_addresses pid t c reqId taskId bound ip op slice rmap weight custom base :
  input_fits t -> model_ranges (t_npuModel t) -> c = static_config t rmap weight custom base ->
  0 <= deviceAddress slice -> deviceAddress slice + out_delta t < 2 ^ 32 ->
  let a := acc_request pid t c reqId taskId bound ip op slice in
  d_offset (a_input a) = deviceAddress slice /\ d_size (a_input a) = t_encodedInputSize t /\
  d_offset (a_output a) = deviceAddress slice + out_delta t /\
  d_size (a_output a) = last_output_size (t_npuModel t).
Proof.
  intros Hi [M1 M2 M3 M4] -> H0 H1. pose proof (config_input_size t rmap weight custom base Hi) as Es.
  unfold input_fits in Hi. pose proof (align64_bounds (t_encodedInputSize t)).
  unfold acc_request, BuildDriverRequest, out_delta in *. simpl in Es.
  destruct (t_isPPCPU t); simpl; rewrite ?Es, data_align_64 by lia;
    destruct (output_all_offset (t_npuModel t) =? 0); simpl in *;
    rewrite (uwrap_small 32 (deviceAddress slice)), uwrap_small by lia; lia.
Qed.

(** ** The theorem *)

Lemma u32_u64_small z : 0 <= z < 2 ^ 32 -> u32 (u64 z) = z.
Proof. intros Hz. rewrite (uwrap_small 64) by lia. by apply uwrap_small. Qed.

(** The filtered boxes that are read fit the output. *)
Lemma filtered_size t unit n :
  0 < unit -> 0 <= n < 2 ^ 32 -> 0 <= t_outputSize t < 2 ^ 31 ->
  0 <= u32 (u64 (unit * validated_filter_num t unit n)) <= t_outputSize t.
Proof.
  intros Hu Hn Ht. unfold validated_filter_num. rewrite swrap_small by lia.
  rewrite (uwrap_small 64 (t_outputSize t)) by lia.
  pose proof (Z.mul_div_le (t_outputSize t) unit Hu).
  assert (0 <= t_outputSize t / unit) by (apply Z.div_pos; lia).
  assert (t_outputSize t / unit <= t_outputSize t) by (apply Z.div_le_upper_bound; nia).
  destruct (Z.ltb_spec (t_outputSize t / unit) n).
  - rewrite (uwrap_small 32 (_ / _)) by lia. rewrite u32_u64_small; nia.
  - assert (unit * n <= t_outputSize t) by nia. rewrite u32_u64_small; nia.
Qed.

(** The output view and the one behind it are addressed from the slice. *)
Lemma view_address bs count info i s x size :
  0 <= bs -> pool_fits bs count info -> new_slices bs count info !! i = Some s -> 0 <= x <= bs ->
  deviceAddress (mkView (v_info s) (u64 (v_offset s + x)) size) = deviceAddress s + x.
Proof.
  intros Hb P E Hx. destruct (slice_address bs count info i s Hb P E) as (Ei & _ & Eo & Hi & Ea).
  rewrite Ea. destruct P as [P1 P2 P3 P4]. rewrite Ei, Eo.
  assert (bs * Z.of_nat i + bs <= bs * Z.of_nat count) by nia.
  assert (0 <= bs * Z.of_nat i) by nia.
  unfold deviceAddress, phys_addr. simpl.
  rewrite (uwrap_small 64 (phys_addr_base _ + _)), (uwrap_small 64 (bs * _ + _)), uwrap_small by lia. lia.
Qed.

(** What the sizes of a slice cover. *)
Record slice_facts (t : task_data) (bs : Z) : Prop := {
  sf_ranges : model_ranges (t_npuModel t);
  sf_input : t_encodedInputSize t <= align64 (t_encodedInputSize t) <= bs;
  sf_delta : 0 <= out_delta t;
  sf_output : out_delta t + last_output_size (t_npuModel t) <= bs;
  sf_room : align64 (t_encodedInputSize t) + output_all_size (t_npuModel t) <= bs
}.

Lemma block_size_facts bc model data_ ppu t :
  set_from_npu bc model data_ ppu = inr t -> input_fits t -> slice_facts t (block_size t).
Proof.
  intros E Hi. destruct (set_from_npu_inv _ _ _ _ _ E) as (o & k & rs & ws & os & F).
  destruct (kind_ranges _ _ _ _ _ _ _ _ _ F) as [M Em]. pose proof M as [M1 M2 M3 M4].
  rewrite block_size_eq by done. unfold input_fits, out_delta in *.
  pose proof (align64_bounds (t_encodedInputSize t)).
  split; [done|lia| | |lia]; unfold out_delta; destruct (negb _); lia.
Qed.

Lemma slices_disjoint bs count info i j s s' :
  0 <= bs -> pool_fits bs count info -> new_slices bs count info !! i = Some s ->
  new_slices bs count info !! j = Some s' -> j <> i ->
  deviceAddress s + bs <= deviceAddress s' \/ deviceAddress s' + bs <= deviceAddress s.
Proof.
  intros Hb P E E' Hn. destruct (slice_address bs count info i s Hb P E) as (_ & _ & _ & _ & ->).
  destruct (slice_address bs count info j s' Hb P E') as (_ & _ & _ & _ & ->).
  assert (i < j \/ j < i)%nat as [|] by lia; [left|right]; nia.
Qed.

(** C25. The data of a request stays in its slice.  For a task made from a regular model
    and a slice of its pool: the driver request has the input at the start of the slice
    and the output at the address that the output handler reads and the zero-copy
    pointers use; both end inside the slice, the output behind the input unless the model
    fixes its place; the other slices of the pool are disjoint from this one.  The
    filtered boxes of a PPCPU task lie behind the output and inside the slice when the
    output region of the model starts at offset 0 ([mem_offset (ri_model_output model) =
    0]); with another offset they can leave it: see [filtered_boxes_leave_slice]. *)
Theorem io_in_slice bc model data_ ppu t c rmap weight custom base count info i slice
    pid reqId taskId bound ip op :
  set_from_npu bc model data_ ppu = inr t -> regular model -> input_fits t ->
  c = static_config t rmap weight custom base -> pool_fits (block_size t) count info ->
  new_slices (block_size t) count info !! i = Some slice ->
  let m := t_npuModel t in
  let a := acc_request pid t c reqId taskId bound ip op slice in
  let lo := deviceAddress slice in
  let hi := lo + block_size t in
  d_offset (a_input a) = lo /\ lo + d_size (a_input a) <= hi /\
  d_offset (a_output a) = deviceAddress (outputView t c slice a) /\
  d_offset (a_output a) = lo + zero_copy_output_offset c /\
  d_offset (a_output a) + d_size (a_output a) <= hi /\
  (output_all_offset m = 0 -> lo + d_size (a_input a) <= d_offset (a_output a)) /\
  (forall unit n out_ptr, ppu = true -> mem_offset (ri_model_output model) = 0 ->
     0 < unit -> 0 <= n < 2 ^ 32 -> 0 <= t_outputSize t < 2 ^ 31 ->
     region model + t_outputSize t + 64 < 2 ^ 32 ->
     let v := ppcpuOutputView t c slice a unit n out_ptr in
     deviceAddress v = d_offset (a_output a) + d_size (a_output a) /\ deviceAddress v + v_size v <= hi) /\
  (forall j slice', j <> i -> new_slices (block_size t) count info !! j = Some slice' ->
     hi <= deviceAddress slice' \/ deviceAddress slice' + block_size t <= lo).
Proof.
  intros E Hr Hi Hc P Es m a lo hi. pose proof (block_size_facts _ _ _ _ _ E Hi) as [M S1 S2 S3 S4].
  pose proof M as [M1 M2 M3 M4]. pose proof (align64_bounds (t_encodedInputSize t)) as Hal.
  assert (0 <= t_encodedInputSize t) as Hin by apply Hi. assert (0 <= block_size t) as Hb by lia.
  destruct (slice_address _ count info i slice Hb P Es) as (Ei & _ & Eo & Hic & Ea).
  destruct (out_offset_eq t c rmap weight custom base Hi M Hc) as [Eo1 Eo2].
  assert (0 <= lo /\ hi < 2 ^ 32) as [Hlo Hhi].
  { unfold lo, hi. rewrite Ea. destruct P as [P1 P2 P3 P4].
    assert (block_size t * Z.of_nat i + block_size t <= block_size t * Z.of_nat count) by nia. nia. }
  destruct (acc_addresses pid t c reqId taskId bound ip op slice rmap weight custom base Hi M Hc)
    as (A1 & A2 & A3 & A4); [done|unfold lo, hi in *; lia|]. fold a lo in A1, A2, A3, A4.
  assert (forall x size, 0 <= x <= block_size t ->
    deviceAddress (mkView (v_info slice) (u64 (v_offset slice + x)) size) = lo + x) as Hv
    by (intros x size Hx; exact (view_address _ count info i slice x size Hb P Es Hx)).
  rewrite A1, A2, A3, A4, Eo2. unfold outputView. rewrite Eo1.
  split; [done|split; [unfold hi; lia|split; [symmetry; apply Hv; lia|split; [done|split; [unfold hi; lia|]]]]].
  split; [|split].
  - intros E0. unfold out_delta, m in *. rewrite E0 in *. simpl. lia.
  - intros unit n out_ptr -> Hm0 Hu Hn Ht Hreg. unfold ppcpuOutputView.
    destruct (ppcpu_room _ _ _ _ E Hr Hreg (proj1 Ht) Hm0) as [E0 Hroom].
    assert (out_delta t = align64 (t_encodedInputSize t) + last_output_offset (t_npuModel t)) as Ed
      by (unfold out_delta; by rewrite E0).
    pose proof (filtered_size t unit n Hu Hn Ht) as Hf.
    rewrite Eo1, A4, <- (Z.add_assoc (v_offset slice)), Hv by lia. cbn [v_size SetMemInfo_PPCPU d_size].
    unfold hi. lia.
  - intros j s' Hj Es'. by eapply slices_disjoint.
Qed.

(** A pool of two slices for the task of [TaskDataThms.demo_task]. *)
Definition demo_pool : SharedMemoryInfo := mkInfo 1 (2 * block_size (demo_task 128)) 0 0 4096 (-1).
Definition demo_slice : SharedMemoryView :=
  default (ofWhole demo_pool) (new_slices (block_size (demo_task 128)) 2 demo_pool !! 1%nat).
Definition demo_config (base : Z) : TaskStaticConfig := static_config (demo_task 128) 8192 12288 0 base.
Definition demo_acc (base : Z) : request_acc :=
  acc_request 1 (demo_task 128) (demo_config base) 0 0 0 65536 131072 demo_slice.

Lemma demo_pool_fits : pool_fits (block_size (demo_task 128)) 2 demo_pool.
Proof. split; vm_compute; (split || idtac); discriminate || reflexivity. Defined.

Lemma io_in_slice_witness :
  d_offset (a_output (demo_acc 0)) = deviceAddress (outputView (demo_task 128) (demo_config 0) demo_slice (demo_acc 0)).
Proof.
  destruct (io_in_slice 6 (demo_model 128) [[1]; [2]] false (demo_task 128) (demo_config 0) 8192 12288 0 0
    2 demo_pool 1 demo_slice 1 0 0 0 65536 131072) as (_ & _ & H3 & _);
    [reflexivity|apply demo_regular; lia|vm_compute; split; (discriminate || reflexivity)
    |reflexivity|apply demo_pool_fits|reflexivity|exact H3].
Defined.

(** A PPCPU task whose model places its outputs at offset 4096: the one box that is read
    starts where the slice ends. *)
Definition demo_ppu (base : Z) : rmapinfo :=
  mkRmap [tensor_at 0 100] [tensor_at 0 100; tensor_at 128 50]
    (mkMem 0 128 0) (mkMem base 192 0) 5 0 [] false 1.

Example filtered_boxes_leave_slice t c info slice :
  set_from_npu 6 (demo_ppu 4096) [[1]; [2]; repeat 0 8] true = inr t ->
  c = static_config t 8192 12288 0 0 -> info = mkInfo 1 (block_size t) 0 0 0 (-1) ->
  new_slices (block_size t) 1 info = [slice] ->
  let a := acc_request 1 t c 0 0 0 65536 131072 slice in
  let v := ppcpuOutputView t c slice a 32 1 262144 in
  deviceAddress v = deviceAddress slice + block_size t /\ v_size v = 32.
Proof.
  intros E -> -> Es. vm_compute in E. injection E as <-. vm_compute in Es.
  injection Es as <-. split; vm_compute; reflexivity.
Qed.

(** ** DMA without a service *)

(** A four-argument DMA call. *)
Lemma dma4 b host dev size :
  0 < host < 2 ^ 64 -> 0 <= b <= dev + b -> 0 <= dev < 2 ^ 64 -> 0 < size < 2 ^ 32 ->
  no_service_dma b (ofWhole (MakeDMAInfo host dev size)) =
    Some (mkMeminfo host b (if b <=? dev then u32 (dev - b) else u32 dev) size).
Proof.
  intros Hh Hb Hd Hs. unfold no_service_dma, hostPtr, isValid, deviceAddress, phys_addr. simpl.
  destruct (Z.eqb_spec host 0); [lia|]. rewrite ?Z.add_0_r, ?Z.add_0_l, Z.sub_0_r.
  rewrite ?Z.add_0_r, !(uwrap_small 64 host), !(uwrap_small 64 dev), (uwrap_small 64 size) by lia.
  rewrite ?Z.add_0_r, ?(uwrap_small 64 dev) by lia.
  destruct (Z.eqb_spec host 0); [lia|]. destruct (Z.ltb_spec 0 size), (Z.leb_spec 0 size), (Z.leb_spec size size);
    try lia. simpl. rewrite (uwrap_small 32 size) by lia.
  destruct (Z.leb_spec b dev); [rewrite (uwrap_small 64) by lia|]; done.
Qed.

(** Without a service an address of the pool is taken for an absolute one as soon as it
    reaches [mem_addr] of the device: the input of a request is written to its place, base
    plus offset of the driver request, but the output is read [mem_addr] bytes below the
    place the driver request names when the slice lies that high, and so is a model
    region written below the place it was allocated at. *)
Theorem pool_address_misread bc model data_ ppu t c rmap weight custom b count info i slice
    pid reqId taskId bound ip op :
  set_from_npu bc model data_ ppu = inr t -> input_fits t ->
  c = static_config t rmap weight custom b -> pool_fits (block_size t) count info ->
  new_slices (block_size t) count info !! i = Some slice ->
  0 < b < 2 ^ 32 -> 0 < ip < 2 ^ 64 -> 0 < op < 2 ^ 64 ->
  0 < t_encodedInputSize t -> 0 < last_output_size (t_npuModel t) ->
  let a := acc_request pid t c reqId taskId bound ip op slice in
  let A := d_offset (a_output a) in
  write_input b a = Some (mkMeminfo ip b (d_offset (a_input a)) (d_size (a_input a))) /\
  read_output b t c slice a =
    Some (mkMeminfo op b (if b <=? A then A - b else A) (d_size (a_output a))) /\
  forall region ptr size, 0 < ptr < 2 ^ 64 -> 0 < size < 2 ^ 32 -> phys_addr_base region = 0 ->
    b <= phys_addr_offset region < 2 ^ 32 ->
    write_model b region ptr size = Some (mkMeminfo ptr b (phys_addr_offset region - b) size).
Proof.
  intros E Hi Hc P Es Hb Hip Hop Hin Hout a A.
  pose proof (block_size_facts _ _ _ _ _ E Hi) as [M S1 S2 S3 S4]. pose proof M as [M1 M2 M3 M4].
  assert (0 <= block_size t) as Hbs by lia.
  destruct (slice_address _ count info i slice Hbs P Es) as (_ & _ & _ & Hic & Ea).
  destruct (out_offset_eq t c rmap weight custom b Hi M Hc) as [Eo1 _].
  assert (0 <= deviceAddress slice /\ deviceAddress slice + block_size t < 2 ^ 32) as [Hlo Hhi].
  { rewrite Ea. destruct P as [P1 P2 P3 P4].
    assert (block_size t * Z.of_nat i + block_size t <= block_size t * Z.of_nat count) by nia. nia. }
  destruct (acc_addresses pid t c reqId taskId bound ip op slice rmap weight custom b Hi M Hc)
    as (A1 & A2 & A3 & A4); [done|lia|]. fold a in A1, A2, A3, A4.
  assert (d_data (a_input a) = ip /\ d_base (a_input a) = b /\ d_data (a_output a) = op) as (D1 & D2 & D3)
    by (unfold a, acc_request; rewrite Hc; by destruct (t_isPPCPU t)).
  unfold input_fits in Hi. split; [|split].
  - unfold write_input, DMAWrite4. rewrite D1, D2, A1, A2, (uwrap_small 64) by lia.
    rewrite dma4 by lia. destruct (Z.leb_spec b (b + deviceAddress slice)); [|lia].
    rewrite (uwrap_small 32); [do 2 f_equal; lia|lia].
  - unfold read_output, DMARead4, outputView, A. rewrite D3, Eo1, A3, A4.
    rewrite (view_address _ count info i slice _ _ Hbs P Es) by lia.
    rewrite dma4 by lia. destruct (Z.leb_spec b (deviceAddress slice + out_delta t));
      rewrite (uwrap_small 32); (done || lia).
  - intros region ptr size Hp Hs Hr0 Hr. pose proof (dma4 b ptr (phys_addr_offset region) size) as D.
    unfold write_model, MakeDMAMemoryView, ofWhole in *. simpl in *. rewrite Hr0.
    unfold no_service_dma, deviceAddress, phys_addr, hostPtr, isValid in *. simpl in *.
    rewrite D by lia. destruct (Z.leb_spec b (phys_addr_offset region)); [|lia].
    rewrite (uwrap_small 32) by lia. done.
Qed.

Lemma pool_address_misread_witness :
  read_output 4096 (demo_task 128) (demo_config 4096) demo_slice (demo_acc 4096) =
    Some (mkMeminfo 131072 4096 (d_offset (a_output (demo_acc 4096)) - 4096) 178).
Proof.
  destruct (pool_address_misread 6 (demo_model 128) [[1]; [2]] false (demo_task 128) (demo_config 4096)
    8192 12288 0 4096 2 demo_pool 1 demo_slice 1 0 0 0 65536 131072) as (_ & H2 & _);
    [reflexivity|vm_compute; split; (discriminate || reflexivity)|reflexivity|apply demo_pool_fits
    |reflexivity|lia|lia|lia|reflexivity|reflexivity|exact H2].
Defined.

End IoSliceThms.
