(* ===== verification/DxrtService.v ===== *)
(** * The service: definitions

    [lib/dxrt_service/dxrt_service_v2.cpp], class [DxrtServiceV2]: the requests of the
    clients act on the scheduler, on the memory service of each device, on the
    bounds of each device and on the tables of tasks and shared memory; the
    scheduler calls back when a task has no request left.

    A handler is one step: the requests of all clients go through one queue with one
    thread ([_ipcHandlerQueue]).  The completion of a request and the end of a
    client, which other threads run, are steps as well.  The service's own threads
    and the polling of sockets are not modelled; the recovery of devices is in [ServiceRecovery].

    An operation is [None] where the code indexes an array out of range, or where the
    scheduler or the allocator does not return. *)

From Stdlib Require Import ZArith Lia.
From S2P Require Import Prelude AllocatorClass MemoryService Scheduler IpcServer DeviceTables.

Module DxrtService.
Import MemFd.

(** [SharedMemHandle] *)
Record SharedMemHandle := mkHandle { h_fd : Z; h_ptr : Z; h_size : Z; physAddrOffset : Z }.

(** The devices and the system: [boundCommand] is the answer of the driver to adding
    ([true]) or deleting a bound of a device. *)
Record system := {
  devices : Z;                                  (** [_devices.size()] *)
  mem_addr : Z -> Z;
  deviceBlocked : nat -> Z -> bool;
  boundCommand : nat -> Z -> bool -> Z -> Z;
  osCreate : nat -> Z -> os_result;
  dmaChannels : Z -> Z;
  npuRunReq : nat -> Z -> Scheduler.request_acc -> Z
}.

(** What a handler hands to a device. *)
Record dma := mkDma { is_read : bool; dma_ptr : Z; dma_offset : Z; dma_size : Z; dma_pid : Z; dma_seq : Z }.

Section Service.
Context {A Q : Type} `{!AllocOps A} `{!Scheduler.Policy Q}.
Context (sys : system).

Record service := mkService {
  scheduler : Scheduler.sched Q;
  memoryServices : gmap Z (MemoryService.service A);
  boundCounts : list (list Z);                  (** per device *)
  taskInfoStore : TaskStore.store;
  memfdService : memfd;
  pidSet : gset Z;
  pendingTaskFree : gmap (Z * Z) Z;             (** process and task to device *)
  sharedMemoryHandles : gmap (Z * Z) (gmap Z SharedMemHandle);  (** device and process *)
  recoveryInProgress : bool;
  pendingDmaOperations : Z;
  clock : nat
}.

Definition set_scheduler (x : Scheduler.sched Q) (s : service) : service :=
  mkService x (memoryServices s) (boundCounts s) (taskInfoStore s) (memfdService s) (pidSet s)
    (pendingTaskFree s) (sharedMemoryHandles s) (recoveryInProgress s) (pendingDmaOperations s) (clock s).
Definition set_memoryServices (x : gmap Z (MemoryService.service A)) (s : service) : service :=
  mkService (scheduler s) x (boundCounts s) (taskInfoStore s) (memfdService s) (pidSet s)
    (pendingTaskFree s) (sharedMemoryHandles s) (recoveryInProgress s) (pendingDmaOperations s) (clock s).
Definition set_boundCounts (x : list (list Z)) (s : service) : service :=
  mkService (scheduler s) (memoryServices s) x (taskInfoStore s) (memfdService s) (pidSet s)
    (pendingTaskFree s) (sharedMemoryHandles s) (recoveryInProgress s) (pendingDmaOperations s) (clock s).
Definition set_taskInfoStore (x : TaskStore.store) (s : service) : service :=
  mkService (scheduler s) (memoryServices s) (boundCounts s) x (memfdService s) (pidSet s)
    (pendingTaskFree s) (sharedMemoryHandles s) (recoveryInProgress s) (pendingDmaOperations s) (clock s).
Definition set_memfdService (x : memfd) (s : service) : service :=
  mkService (scheduler s) (memoryServices s) (boundCounts s) (taskInfoStore s) x (pidSet s)
    (pendingTaskFree s) (sharedMemoryHandles s) (recoveryInProgress s) (pendingDmaOperations s) (clock s).
Definition set_pidSet (x : gset Z) (s : service) : service :=
  mkService (scheduler s) (memoryServices s) (boundCounts s) (taskInfoStore s) (memfdService s) x
    (pendingTaskFree s) (sharedMemoryHandles s) (recoveryInProgress s) (pendingDmaOperations s) (clock s).
Definition set_pendingTaskFree (x : gmap (Z * Z) Z) (s : service) : service :=
  mkService (scheduler s) (memoryServices s) (boundCounts s) (taskInfoStore s) (memfdService s)
    (pidSet s) x (sharedMemoryHandles s) (recoveryInProgress s) (pendingDmaOperations s) (clock s).
Definition set_handles (x : gmap (Z * Z) (gmap Z SharedMemHandle)) (s : service) : service :=
  mkService (scheduler s) (memoryServices s) (boundCounts s) (taskInfoStore s) (memfdService s)
    (pidSet s) (pendingTaskFree s) x (recoveryInProgress s) (pendingDmaOperations s) (clock s).
Definition set_pendingDma (x : Z) (s : service) : service :=
  mkService (scheduler s) (memoryServices s) (boundCounts s) (taskInfoStore s) (memfdService s)
    (pidSet s) (pendingTaskFree s) (sharedMemoryHandles s) (recoveryInProgress s) x (clock s).
(** The driver or the system answers a call. *)
Definition tick (s : service) : service :=
  mkService (scheduler s) (memoryServices s) (boundCounts s) (taskInfoStore s) (memfdService s)
    (pidSet s) (pendingTaskFree s) (sharedMemoryHandles s) (recoveryInProgress s)
    (pendingDmaOperations s) (S (clock s)).

Definition in_devices (d : Z) : bool := (0 <=? d) && (d <? devices sys).
Definition GetMemoryService (d : Z) (s : service) : option (MemoryService.service A) :=
  memoryServices s !! d.
Definition put_memory (d : Z) (m : MemoryService.service A) (s : service) : service :=
  set_memoryServices (<[d := m]> (memoryServices s)) s.

(** ** Tasks *)

Definition IsTaskValid (pid d t : Z) (s : service) : bool :=
  TaskStore.hasTask pid d t (taskInfoStore s) &&
  match GetMemoryService d s with
  | Some m => (MemoryService.IsTaskValid pid t m).1
  | None => false
  end.

(** [_devices[d]->AddBound] and [DeleteBound], under [_deviceMutex]. *)
Definition AddBound (d b : Z) (s : service) : option (Z * service) :=
  c ← boundCounts s !! Z.to_nat d;
  '(r, c') ← BoundManager.AddBound (boundCommand sys (clock s) d true b) b c;
  mret (r, tick (set_boundCounts (<[Z.to_nat d := c']> (boundCounts s)) s)).
Definition DeleteBound (d b : Z) (s : service) : option service :=
  c ← boundCounts s !! Z.to_nat d;
  '(_, c') ← BoundManager.DeleteBound (boundCommand sys (clock s) d false b) b c;
  mret (tick (set_boundCounts (<[Z.to_nat d := c']> (boundCounts s)) s)).

Definition TaskInit (pid d t b modelMemorySize : Z) (config : IpcServer.TaskStaticConfig)
    (s : service) : option (bool * service) :=
  if negb (in_devices d) then mret (false, s)
  else
    match GetMemoryService d s with
    | None => mret (false, s)
    | Some m =>
        m1 ← (if MemoryService.free_size m <? modelMemorySize then MemoryService.OptimizeMemory m
              else mret m);
        let s1 := put_memory d m1 s in
        if MemoryService.free_size m1 <? modelMemorySize then mret (false, s1)
        else if deviceBlocked sys (clock s1) d then mret (false, s1)
        else
          c ← boundCounts s1 !! Z.to_nat d;
          can ← BoundManager.CanAcceptBound b c;
          if negb can then mret (false, s1)
          else
            '(r, s2) ← AddBound d b s1;
            if negb (r =? 0) then mret (false, s2)
            else
              match TaskStore.addTask pid d t (TaskStore.mkTaskInfo b modelMemorySize config)
                      (taskInfoStore s2) with
              | (true, store) => mret (true, set_taskInfoStore store s2)
              | (false, _) => s3 ← DeleteBound d b s2; mret (false, s3)
              end
    end.

Definition TaskDeInit (d t pid : Z) (s : service) : option service :=
  match TaskStore.removeTask pid d t (taskInfoStore s) with
  | (None, _) => mret s
  | (Some b, store) =>
      let s1 := set_taskInfoStore store s in
      let s2 := set_scheduler (Scheduler.StopTaskInference pid d t (scheduler s1)) s1 in
      if in_devices d then DeleteBound d b s2 else mret s2
  end.

(** ** The listener of the scheduler *)

Definition onTaskDrained (pid t : Z) (s : service) : option service :=
  match pendingTaskFree s !! (pid, t) with
  | None => mret s
  | Some d =>
      let s1 := set_pendingTaskFree (delete (pid, t) (pendingTaskFree s)) s in
      match GetMemoryService d s1 with
      | None => mret s1
      | Some m => '(_, m') ← MemoryService.DeallocateTask pid t m; mret (put_memory d m' s1)
      end
  end.

(** What the scheduler asks of the service and of the devices. *)
Definition sched_env (s : service) : Scheduler.environment := {|
  Scheduler.has_listener := true;
  Scheduler.validateTask := fun _ pid d t => IsTaskValid pid d t s;
  Scheduler.isBlocked := fun n d => deviceBlocked sys n d;
  Scheduler.num_dma_ch := dmaChannels sys;
  Scheduler.npu_run_req := npuRunReq sys
|}.

Definition drained_of (e : Scheduler.event) : option (Z * Z) :=
  match e with Scheduler.onTaskDrained p t => Some (p, t) | _ => None end.

(** A call of the scheduler and its notifications that a task is drained; the results
    it delivers to clients stay in its trace. *)
Definition with_scheduler (o : Scheduler.outcome (Scheduler.sched Q)) (s : service)
    : option service :=
  match o with
  | Scheduler.Ret x =>
      foldl (fun s pt => s ← s; onTaskDrained pt.1 pt.2 s) (Some (set_scheduler x s))
        (omap drained_of (drop (length (Scheduler.trace (scheduler s))) (Scheduler.trace x)))
  | _ => None
  end.

(** The callback of a device: [_scheduler->FinishJobs(id, response)]. *)
Definition device_response (d : Z) (resp : Scheduler.response) (s : service) : option service :=
  with_scheduler (Scheduler.FinishJobs (sched_env s) d resp (scheduler s)) s.

Definition EALREADY : Z := 114.

Definition HandleInferenceRequest (pid d : Z) (r : Scheduler.request_acc) (s : service)
    : option (Z * service) :=
  if negb (IsTaskValid pid d (i32 (Scheduler.task_id r)) s) then mret (-1, s)
  else if Scheduler.HasPendingRequest pid (i32 (Scheduler.req_id r)) (scheduler s)
  then mret (- EALREADY, s)
  else if recoveryInProgress s then mret (- Scheduler.EAGAIN, s)
  else if negb (in_devices d) then None
  else if deviceBlocked sys (clock s) d then mret (-1, s)
  else
    s' ← with_scheduler (Scheduler.AddScheduler (sched_env s) r d (scheduler s)) s;
    mret (0, s').

(** ** Shared memory *)

Definition handles_of (d pid : Z) (s : service) : gmap Z SharedMemHandle :=
  default ∅ (sharedMemoryHandles s !! (d, pid)).

(** The handle under its absolute address, its offset and its block number. *)
Definition TrackSharedMemoryHandle (d pid : Z) (i : SharedMemoryInfo) (s : service) : service :=
  let h := mkHandle (i_fd i) (i_ptr i) (i_size i) (phys_addr_offset i) in
  let m1 := <[phys_addr_offset i := h]> (<[phys_addr i := h]> (handles_of d pid s)) in
  let m2 := if 0 <? block_id i then <[block_id i := h]> m1 else m1 in
  set_handles (<[(d, pid) := m2]> (sharedMemoryHandles s)) s.

Definition TryGetSharedMemoryHandle (d pid address : Z) (s : service) : option SharedMemHandle :=
  sharedMemoryHandles s !! (d, pid) ≫= (.!! address).

(** The handle, and the table without its aliases. *)
Definition TryResolveSharedMemoryHandle (d pid address : Z) (s : service)
    : option (SharedMemHandle * service) :=
  match sharedMemoryHandles s !! (d, pid) with
  | None => None
  | Some m =>
      h ← m !! address;
      let m' := filter (fun kv : Z * SharedMemHandle => physAddrOffset kv.2 <> physAddrOffset h) m in
      mret (h, set_handles (if decide (m' = ∅) then delete (d, pid) (sharedMemoryHandles s)
                            else <[(d, pid) := m']> (sharedMemoryHandles s)) s)
  end.

Definition ReleaseSharedMemoryHandle (fd : Z) (s : service) : service :=
  if 0 <=? fd then set_memfdService (ReleaseSharedMemory fd (memfdService s)).2 s else s.

Definition ReleaseAllSharedMemoryHandlesForProcess (d pid : Z) (s : service) : service :=
  match sharedMemoryHandles s !! (d, pid) with
  | None => s
  | Some m =>
      foldl (fun s k => match m !! k with
                        | Some h => ReleaseSharedMemoryHandle (h_fd h) s
                        | None => s
                        end)
        (set_handles (delete (d, pid) (sharedMemoryHandles s)) s) (keys m)
  end.

Definition onClientConnected (pid : Z) (s : service) : service := set_pidSet ({[pid]} ∪ pidSet s) s.

Definition invalid_info (code : Z) : SharedMemoryInfo :=
  mkInfo code 0 0 0 MemoryService.NO_ADDRESS (-1).

Definition allocation (t : Z) (forModel : bool) (size pid : Z)
    : MemoryService.service A -> option (Z * MemoryService.service A) :=
  if negb (t =? -1) then
    if forModel then MemoryService.BackwardAllocateForTask size pid t
    else MemoryService.AllocateForTask size pid t
  else if forModel then MemoryService.BackwardAllocate size pid
  else MemoryService.Allocate size pid.

Definition HandleAllocate (pid d t size : Z) (forModel : bool) (s : service)
    : option (SharedMemoryInfo * service) :=
  match GetMemoryService d s with
  | None => mret (invalid_info 0, s)
  | Some m =>
      '(off, m1) ← allocation t forModel size pid m;
      let s1 := put_memory d m1 s in
      if off =? MemoryService.NO_ADDRESS then mret (invalid_info 0, s1)
      else
        let '(r, f) := CreateSharedMemory (osCreate sys (clock s1) size) size (memfdService s1) in
        let s2 := tick (set_memfdService f s1) in
        match r with
        | inl code =>
            '(_, m2) ← MemoryService.DeallocateAddress off pid m1;
            mret (invalid_info code, put_memory d m2 s2)
        | inr i =>
            let i' := mkInfo (block_id i) (i_size i) (i_ptr i) (mem_addr sys d) off (i_fd i) in
            let s3 := TrackSharedMemoryHandle d pid i' s2 in
            mret (i', if i_fd i' =? -1 then s3 else onClientConnected pid s3)
        end
  end.

Definition HandleDeallocate (pid d address : Z) (s : service) : option (Z * service) :=
  match GetMemoryService d s with
  | None => mret (-1, s)
  | Some m =>
      let '(offset, s1) :=
        match TryResolveSharedMemoryHandle d pid address s with
        | Some (h, s1) => (physAddrOffset h, ReleaseSharedMemoryHandle (h_fd h) s1)
        | None =>
            (if mem_addr sys d <=? address then address - mem_addr sys d else address, s)
        end in
      '(ok, m') ← MemoryService.DeallocateAddress offset pid m;
      mret (if ok : bool then 0 else -1, put_memory d m' s1)
  end.

(** ** DMA *)

Definition EINVAL : Z := 22.

(** [HandleDMARead] and [HandleDMAWrite]; the driver's 32-bit fields are truncated. *)
Definition HandleDMA (read : bool) (pid seqId d blockId blockOffset size : Z) (s : service)
    : Z * option dma * service :=
  if size =? 0 then (0, None, s)
  else if negb (in_devices d) then (- EINVAL, None, s)
  else if recoveryInProgress s then (- Scheduler.EAGAIN, None, s)
  else
    match TryGetSharedMemoryHandle d pid (u64 blockId) s with
    | None => (- EINVAL, None, s)
    | Some h =>
        if (h_ptr h =? 0) || (h_size h <? u64 (blockOffset + size)) then (- EINVAL, None, s)
        else
          (0, Some (mkDma read (u64 (h_ptr h + blockOffset))
                      (u32 (u64 (physAddrOffset h + blockOffset))) (u32 size) pid seqId),
           set_pendingDma (pendingDmaOperations s + 1) s)
    end.

Definition DecrementPendingDMA (s : service) : service :=
  if 0 <? pendingDmaOperations s then set_pendingDma (pendingDmaOperations s - 1) s else s.

(** ** The end of a client *)

(** The requests of the process are stopped and its tasks taken out of the table. *)
Definition stop_process (pid d : Z) (s : service) : list (Z * Z) * service :=
  let running := Scheduler.GetRunningTaskIds pid (scheduler s) in
  let s1 := set_pendingTaskFree
              (foldl (fun m t => <[(pid, t) := d]> m) (pendingTaskFree s) running) s in
  let s2 := set_scheduler (Scheduler.StopAllInferenceForProcess pid d (scheduler s1)) s1 in
  let '(entries, store) := TaskStore.extractTaskIdsWithBound pid d (taskInfoStore s2) in
  let s3 := set_taskInfoStore store s2 in
  (entries,
   set_scheduler
     (Scheduler.ClearRunningRequests pid d
        (foldl (fun x tb => Scheduler.StopTaskInference pid d tb.1 x) (scheduler s3) entries))
     s3).

(** One task taken out: its memory, unless it runs, and its bound. *)
Definition free_entry (running : list Z) (pid d : Z) (s : service) (tb : Z * Z) : option service :=
  s' ← (match GetMemoryService d s with
        | Some m =>
            if bool_decide (tb.1 ∈ running) then mret s
            else '(_, m') ← MemoryService.DeallocateTask pid tb.1 m; mret (put_memory d m' s)
        | None => mret s
        end);
  if in_devices d then DeleteBound d tb.2 s' else mret s'.

Definition HandleProcessDeInit (pid d : Z) (s : service) : option service :=
  let running := Scheduler.GetRunningTaskIds pid (scheduler s) in
  let '(entries, s4) := stop_process pid d s in
  s5 ← foldl (fun s tb => s ← s; free_entry running pid d s tb) (Some s4) entries;
  let s6 := ReleaseAllSharedMemoryHandlesForProcess d pid s5 in
  mret (set_pidSet (pidSet s6 ∖ {[pid]}) s6).

Definition onClientDisconnected (pid : Z) (s : service) : option service :=
  s' ← foldl (fun s d => s ← s; HandleProcessDeInit pid d s) (Some s) (seqZ 0 (devices sys));
  mret (set_pidSet (pidSet s' ∖ {[pid]}) s').

(** ** Queries *)

Definition HandleViewMemory (d : Z) (viewUsedMemory : bool) (s : service) : Z * Z :=
  match GetMemoryService d s with
  | None => (-1, 0)
  | Some m => (0, if viewUsedMemory then MemoryService.used_size m else MemoryService.free_size m)
  end.

Definition HandleViewAvailableDevice (s : service) : Z :=
  foldl (fun mask d => if deviceBlocked sys (clock s) d then mask
                       else Z.lor mask (u64 (Z.shiftl 1 d))) 0 (seqZ 0 (devices sys)).

(** ** The requests of clients *)

(** The handler of an inference request writes the task and the process of the packet
    into the request. *)
Definition inferenceRequest (pid t : Z) (r : Scheduler.request_acc) : Scheduler.request_acc :=
  Scheduler.mkReq (Scheduler.req_id r) (u32 t) (Scheduler.input r) (Scheduler.output r)
    (Scheduler.npu_id r) (Scheduler.model_type r) (Scheduler.model_format r)
    (Scheduler.model_cmds r) (Scheduler.cmd_offset r) (Scheduler.weight_offset r)
    (Scheduler.datas r) (Scheduler.dma_ch r) (Scheduler.op_mode r) (Scheduler.custom_offset r)
    (u32 pid) (Scheduler.prior r) (Scheduler.prior_level r) (Scheduler.bandwidth r)
    (Scheduler.bound r) (Scheduler.queue_ r).

Inductive request :=
| Allocate (pid d t size : Z) (forModel : bool)
| FreeBuffer (pid d address : Z)
| Inference (pid d t : Z) (r : Scheduler.request_acc)
| TaskInitRequest (pid d t b modelMemorySize : Z) (config : IpcServer.TaskStaticConfig)
| TaskDeInitRequest (pid d t : Z)
| DMARequest (read : bool) (pid seqId d blockId blockOffset size : Z)
| Response (d : Z) (resp : Scheduler.response)       (* from a device *)
| DMACompleted
| Disconnected (pid : Z).

Definition perform (q : request) (s : service) : option service :=
  match q with
  | Allocate pid d t size forModel => snd <$> HandleAllocate pid d t size forModel s
  | FreeBuffer pid d address => snd <$> HandleDeallocate pid d address s
  | Inference pid d t r => snd <$> HandleInferenceRequest pid d (inferenceRequest pid t r) s
  | TaskInitRequest pid d t b size config => snd <$> TaskInit pid d t b size config s
  | TaskDeInitRequest pid d t => TaskDeInit d t pid s
  | DMARequest read pid seqId d blockId blockOffset size =>
      Some (HandleDMA read pid seqId d blockId blockOffset size s).2
  | Response d resp => device_response d resp s
  | DMACompleted => Some (DecrementPendingDMA s)
  | Disconnected pid => onClientDisconnected pid s
  end.

Fixpoint performs (l : list request) (s : service) : option service :=
  match l with [] => Some s | q :: l => s' ← perform q s; performs l s' end.

(** The service at its start, with the services of the devices' memory. *)
Definition new_service (q : Q) (mems : gmap Z (MemoryService.service A)) : service :=
  mkService (Scheduler.new_sched (Z.to_nat (devices sys)) q) mems
    (replicate (Z.to_nat (devices sys)) BoundManager.new_counts) ∅ new_memfd ∅ ∅ ∅ false 0 0.

End Service.
Arguments service : clear implicits.

End DxrtService.
