(* ===== verification/DxrtServiceInv.v ===== *)
(** * The service: what its tables say of the bounds

    The counters of bounds of every device against the table of tasks: a relation
    [covers] that adding and deleting a bound preserve, and the table of tasks as one
    map from process, device and task. *)

From Stdlib Require Import ZArith Lia.
From S2P Require Import Prelude AllocatorClass MemoryService Scheduler IpcServer DeviceTables DxrtService.
Import DxrtService BoundManager TaskStore.

(** ** Counters *)

Lemma count_at_lookup b (row : list Z) c : count_at b row = Some c -> 0 <= b /\ row !! Z.to_nat b = Some c.
Proof. unfold count_at. destruct (Z.ltb_spec b 0); [done|]. auto. Qed.

Lemma count_at_set b c row x b' :
  count_at b row = Some c -> count_at b' (set_count b x row) = if decide (b' = b) then Some x else count_at b' row.
Proof.
  intros [Hb E]%count_at_lookup. unfold count_at, set_count. destruct (decide (b' = b)) as [->|Hne].
  - destruct (Z.ltb_spec b 0); [lia|]. apply list_lookup_insert_eq. by eapply lookup_lt_Some.
  - destruct (Z.ltb_spec b' 0); [done|]. apply list_lookup_insert_ne. lia.
Qed.

Lemma positive_insert (row : list Z) i c x :
  row !! i = Some c ->
  GetBoundTypeCount (<[i := x]> row) =
  GetBoundTypeCount row - (if 0 <? c then 1 else 0) + (if 0 <? x then 1 else 0).
Proof.
  intros E. unfold GetBoundTypeCount.
  rewrite (insert_take_drop row i x) by (by eapply lookup_lt_Some).
  pose proof (take_drop_middle row i c E) as M.
  generalize dependent (take i row). generalize (drop (S i) row). intros l2 l1 <-.
  rewrite !filter_app, !filter_cons, !length_app.
  destruct (Z.ltb_spec 0 c), (Z.ltb_spec 0 x); repeat case_decide; simpl in *; lia.
Qed.

(** [used b]: the tasks of the device that use the bound [b]. *)
Definition row_ok (exact : Prop) (row : list Z) (used : Z -> Z) : Prop :=
  length row = Z.to_nat BOUND_NUM /\ GetBoundTypeCount row <= 3 /\
  forall b c, count_at b row = Some c -> 0 <= used b <= c /\ (exact -> c = used b).

Definition bump (b x : Z) (used : Z -> Z) (b' : Z) : Z := used b' + (if decide (b' = b) then x else 0).

Lemma AddBound_row exact answer b row used r row' :
  row_ok exact row used -> CanAcceptBound b row = Some true ->
  AddBound answer b row = Some (r, row') ->
  row_ok exact row' (if r =? 0 then bump b 1 used else used).
Proof.
  intros (Hl & Hn & Hc). unfold CanAcceptBound, AddBound.
  destruct (count_at b row) as [c|] eqn:E; [|done]. simpl. destruct (Hc b c E) as [Hu Hx].
  destruct (count_at_lookup b row c E) as [Hb El].
  assert (forall y, (if 0 <? c then True else GetBoundTypeCount row < 3) -> y = 0 ->
    row_ok exact (set_count b (c + 1) row) (if y =? 0 then bump b 1 used else used)) as Hadd.
  { intros y Hlt ->. simpl. split_and!.
    - unfold set_count. by rewrite length_insert.
    - unfold set_count. rewrite (positive_insert row _ c) by done.
      destruct (Z.ltb_spec 0 c), (Z.ltb_spec 0 (c + 1)); lia.
    - intros b' c'. rewrite (count_at_set b c) by done. unfold bump.
      destruct (decide (b' = b)) as [->|]; [intros [= <-]; split; [lia|intros; specialize (Hx ltac:(done)); lia]|].
      intros E'. destruct (Hc b' c' E'). split; [lia|]. intros. rewrite Z.add_0_r. auto. }
  destruct (Z.ltb_spec 0 c).
  - intros _ [= <- <-]. by apply Hadd.
  - intros [= Hlt%Z.ltb_lt]. destruct (Z.eqb_spec answer 0) as [Ha|Ha]; intros [= <- <-].
    + by apply Hadd.
    + rewrite (proj2 (Z.eqb_neq _ _) Ha). by split_and!.
Qed.

Lemma DeleteBound_row (exact : Prop) answer b row used r row' :
  row_ok exact row used -> 0 < used b -> (exact -> answer = 0) ->
  DeleteBound answer b row = Some (r, row') -> row_ok exact row' (bump b (-1) used).
Proof.
  intros (Hl & Hn & Hc) Hp Ha. unfold DeleteBound.
  destruct (count_at b row) as [c|] eqn:E; [|done]. simpl. destruct (Hc b c E) as [Hu Hx].
  destruct (count_at_lookup b row c E) as [Hb El].
  assert (row_ok exact (set_count b (c - 1) row) (bump b (-1) used)) as Hdel.
  { split_and!.
    - unfold set_count. by rewrite length_insert.
    - unfold set_count. rewrite (positive_insert row _ c) by done.
      destruct (Z.ltb_spec 0 c), (Z.ltb_spec 0 (c - 1)); lia.
    - intros b' c'. rewrite (count_at_set b c) by done. unfold bump.
      destruct (decide (b' = b)) as [->|]; [intros [= <-]; split; [lia|intros; specialize (Hx ltac:(done)); lia]|].
      intros E'. destruct (Hc b' c' E'). split; [lia|]. intros. rewrite Z.add_0_r. auto. }
  destruct (Z.ltb_spec 1 c); [by intros [= <- <-]|].
  destruct (Z.eqb_spec answer 0) as [H0|H0]; intros [= <- <-]; [done|].
  split_and!; [done..|]. intros b' c' E'. unfold bump. destruct (Hc b' c' E') as [? X].
  destruct (decide (b' = b)) as [->|]; split; try lia; intros He; specialize (X He); [|lia].
  by specialize (Ha He).
Qed.

Lemma row_ok_ext exact row u u' : (forall b, u b = u' b) -> row_ok exact row u -> row_ok exact row u'.
Proof. intros E (? & ? & Hc). split_and!; [done..|]. intros b c Eb. rewrite <- E. by apply Hc. Qed.

(** ** The table of tasks as one map *)

Definition flat (s : store) : gmap (Z * Z * Z) task_info :=
  map_uncurry (M1 := gmap (Z * Z)) (M2 := gmap Z) (M12 := gmap (Z * Z * Z)) s.

Lemma flat_lookup (s : store) (pid d t : Z) : flat s !! (pid, d, t) = s !! (pid, d) ≫= (.!! t).
Proof. unfold flat. apply lookup_map_uncurry. Qed.

(** The number of registered tasks of the device that use the bound. *)
Definition uses (d b : Z) (m : gmap (Z * Z * Z) task_info) : Z :=
  Z.of_nat (size (filter (fun kv : Z * Z * Z * task_info => kv.1.1.2 = d /\ bound kv.2 = b) m)).

Lemma uses_insert d b m k i :
  m !! k = None ->
  uses d b (<[k := i]> m) = uses d b m + (if decide (k.1.2 = d /\ bound i = b) then 1 else 0).
Proof.
  intros E. unfold uses. rewrite map_filter_insert. simpl.
  assert (filter (fun kv : Z * Z * Z * task_info => kv.1.1.2 = d /\ bound kv.2 = b) m !! k = None) as N.
  { by apply map_lookup_filter_None_2; left. }
  destruct (decide _).
  - rewrite map_size_insert_None by done. lia.
  - rewrite map_filter_delete, delete_id by done. lia.
Qed.

Lemma uses_delete d b m k i :
  m !! k = Some i ->
  uses d b (delete k m) = uses d b m - (if decide (k.1.2 = d /\ bound i = b) then 1 else 0).
Proof.
  intros E. rewrite <- (insert_id m k i) at 2 by done. rewrite <- insert_delete_eq.
  rewrite uses_insert by apply lookup_delete_eq. lia.
Qed.

Lemma uses_pos d b m pid t i : m !! (pid, d, t) = Some i -> bound i = b -> 0 < uses d b m.
Proof.
  intros E Hb. pose proof (uses_delete d b m (pid, d, t) i E) as D. simpl in D.
  rewrite decide_True in D by done. unfold uses in *. lia.
Qed.

Lemma flat_addTask pid d t i s s' :
  addTask pid d t i s = (true, s') -> flat s !! (pid, d, t) = None /\ flat s' = <[(pid, d, t) := i]> (flat s).
Proof.
  unfold addTask. destruct (default ∅ (s !! (pid, d)) !! t) eqn:E; intros [= <-]. split.
  { rewrite flat_lookup. by destruct (s !! (pid, d)). }
  apply map_eq. intros [[p' d'] t']. rewrite flat_lookup.
  destruct (decide ((p', d') = (pid, d))) as [[= -> ->]|Hne].
  - rewrite lookup_insert_eq. simpl. destruct (decide (t' = t)) as [->|].
    + by rewrite !lookup_insert_eq.
    + rewrite !lookup_insert_ne by congruence. rewrite flat_lookup. by destruct (s !! (pid, d)).
  - rewrite !lookup_insert_ne by congruence. by rewrite flat_lookup.
Qed.

Lemma addTask_false pid d t i s s' : addTask pid d t i s = (false, s') -> s' = s.
Proof. unfold addTask. by destruct (_ !! t); intros [= <-]. Qed.

Lemma flat_removeTask pid d t s b s' :
  removeTask pid d t s = (Some b, s') ->
  exists i, flat s !! (pid, d, t) = Some i /\ bound i = b /\ flat s' = delete (pid, d, t) (flat s).
Proof.
  unfold removeTask. destruct (s !! (pid, d)) as [info|] eqn:E; [|done].
  destruct (info !! t) as [i|] eqn:Ei; [|done]. intros [= <- <-]. exists i.
  rewrite flat_lookup, E. split_and!; [done..|]. apply map_eq. intros [[p' d'] t'].
  rewrite flat_lookup.
  assert ((if decide (delete t info = ∅) then delete (pid, d) s else <[(pid, d) := delete t info]> s)
    !! (p', d') ≫= (.!! t') = (if decide ((p', d') = (pid, d)) then delete t info !! t' else s !! (p', d') ≫= (.!! t'))) as ->.
  { destruct (decide (delete t info = ∅)) as [Z|], (decide ((p', d') = (pid, d))) as [[= -> ->]|].
    - by rewrite lookup_delete_eq, Z.
    - by rewrite lookup_delete_ne by congruence.
    - by rewrite lookup_insert_eq.
    - by rewrite lookup_insert_ne by congruence. }
  destruct (decide _) as [[= -> ->]|].
  - destruct (decide (t' = t)) as [->|]; [by rewrite !lookup_delete_eq|].
    rewrite !lookup_delete_ne by congruence. by rewrite flat_lookup, E.
  - rewrite lookup_delete_ne by congruence. by rewrite flat_lookup.
Qed.

(** Deleting the tasks one by one. *)
Definition forget (pid d : Z) (ts : list Z) (m : gmap (Z * Z * Z) task_info) :=
  foldl (fun m t => delete (pid, d, t) m) m ts.

Lemma forget_lookup pid d ts m p' d' t' :
  forget pid d ts m !! (p', d', t') =
  if decide ((p', d') = (pid, d) /\ t' ∈ ts) then None else m !! (p', d', t').
Proof.
  revert m. induction ts as [|t ts IH]; intros m; simpl.
  - rewrite decide_False; [done|]. by intros [_ ?%not_elem_of_nil].
  - rewrite IH. destruct (decide ((p', d') = (pid, d) /\ t' ∈ ts)) as [[E Hin]|Hn].
    + rewrite decide_True; [done|]. split; [done|by right].
    + destruct (decide ((p', d') = (pid, d) /\ t' = t)) as [[[= -> ->] ->]|Hn'].
      * rewrite decide_True by (split; [done|left]). apply lookup_delete_eq.
      * rewrite lookup_delete_ne by (intros [= <- <- <-]; tauto).
        rewrite decide_False; [done|]. rewrite elem_of_cons. tauto.
Qed.

(** The entries taken out are the tasks with their bounds, each once. *)
Lemma extract_facts (pid d : Z) (s : store) es s' :
  extractTaskIdsWithBound pid d s = (es, s') ->
  NoDup es.*1 /\ flat s' = forget pid d es.*1 (flat s) /\
  (forall t b, (t, b) ∈ es -> exists i, flat s !! (pid, d, t) = Some i /\ bound i = b) /\
  (forall t i, flat s !! (pid, d, t) = Some i -> (t, bound i) ∈ es).
Proof.
  unfold extractTaskIdsWithBound. destruct (s !! (pid, d)) as [info|] eqn:E.
  2: { intros [= <- <-]. split_and!; [constructor|done|by intros ? ? ?%not_elem_of_nil|].
       intros t i. by rewrite flat_lookup, E. }
  intros [= <- <-].
  assert ((omap (fun t => (fun i => (t, bound i)) <$> info !! t) (keys info)).*1 = keys info) as K.
  { assert (Forall (fun t => is_Some (info !! t)) (keys info)) as F
      by (apply Forall_forall; intros t; apply elem_of_keys).
    induction F as [|t ts [i Hi] F IH]; [done|]. simpl. rewrite Hi. simpl. by f_equal. }
  assert (forall t b, (t, b) ∈ omap (fun t => (fun i => (t, bound i)) <$> info !! t) (keys info) <->
            exists i, info !! t = Some i /\ bound i = b) as M.
  { intros t b. rewrite list_elem_of_omap. split.
    - intros (t' & _ & (i & Ei & [= -> ->])%fmap_Some). by exists i.
    - intros (i & Ei & <-). exists t. split; [apply elem_of_keys; by exists i|]. by rewrite Ei. }
  rewrite K. split_and!; [apply NoDup_keys| | |].
  - apply map_eq. intros [[p' d'] t']. rewrite forget_lookup, !flat_lookup.
    destruct (decide ((p', d') = (pid, d))) as [[= -> ->]|].
    + rewrite lookup_delete_eq, E. simpl. case_decide as Hd; [done|].
      destruct (info !! t') eqn:Ei; [|done]. destruct Hd. split; [done|].
      apply elem_of_keys. by eexists.
    + rewrite lookup_delete_ne by congruence. by rewrite decide_False by tauto.
  - intros t b (i & Ei & Hb)%M. exists i. rewrite flat_lookup, E. done.
  - intros t i. rewrite flat_lookup, E. simpl. intros Ei. apply M. by exists i.
Qed.
