(* ===== verification/DxrtServiceBounds.v ===== *)
(** * The service: bounds match the registered tasks

    Every request keeps the relation between the counters of bounds and the table of
    tasks. *)

From Stdlib Require Import ZArith Lia.
From S2P Require Import Prelude AllocatorClass MemoryService Scheduler IpcServer DeviceTables DxrtService.
From S2P Require Import DxrtServiceInv.
Import DxrtService MemFd.

(** A loop that may stop, and a relation between its states. *)
Lemma foldl_option {B S} (f : S -> B -> option S) (R : S -> S -> Prop) l o s' :
  (forall s, R s s) -> (forall s1 s2 s3, R s1 s2 -> R s2 s3 -> R s1 s3) ->
  (forall s x s', x ∈ l -> f s x = Some s' -> R s s') ->
  foldl (fun s x => s ← s; f s x) o l = Some s' -> exists s, o = Some s /\ R s s'.
Proof.
  intros Hr Ht. revert o. induction l as [|x l IH]; intros o Hf; simpl.
  - intros ->. by exists s'.
  - intros (s1 & E1 & R1)%IH.
    + destruct o as [s|]; [|done]. exists s. split; [done|]. eapply Ht; [|exact R1].
      eapply Hf; [left|exact E1].
    + intros s y s2 Hy. apply Hf. by right.
Qed.

Section Bounds.
Context {A Q : Type} `{!AllocOps A} `{!Scheduler.Policy Q}.
Context (sys : system).
Implicit Types (s : service A Q) (pid d t b : Z).

(** The driver accepts to delete a bound. *)
Definition deletes_accepted : Prop := forall n d b, boundCommand sys n d false b = 0.

(** ** Requests that do not touch the tables *)

Definition same_tables s s' : Prop :=
  boundCounts s' = boundCounts s /\ taskInfoStore s' = taskInfoStore s.

Lemma same_tables_refl s : same_tables s s.
Proof. done. Qed.
Lemma same_tables_trans s1 s2 s3 : same_tables s1 s2 -> same_tables s2 s3 -> same_tables s1 s3.
Proof. intros [E1 E2] [E3 E4]. split; congruence. Qed.

Lemma onTaskDrained_tables pid t s s' : onTaskDrained pid t s = Some s' -> same_tables s s'.
Proof.
  unfold onTaskDrained. destruct (pendingTaskFree s !! (pid, t)) as [d|]; [|by intros [= <-]].
  destruct (GetMemoryService _ _) as [m|]; [|by intros [= <-]].
  intros ([b m'] & _ & [= <-])%bind_Some. done.
Qed.

Lemma with_scheduler_tables o s s' : with_scheduler o s = Some s' -> same_tables s s'.
Proof.
  unfold with_scheduler. destruct o as [x| | |]; try done. intros (s1 & [= <-] & R)%(foldl_option _ same_tables).
  - done.
  - apply same_tables_refl.
  - apply same_tables_trans.
  - intros s0 [p t] s1 _. apply onTaskDrained_tables.
Qed.

Lemma HandleInferenceRequest_tables pid d r s x :
  HandleInferenceRequest sys pid d r s = Some x -> same_tables s x.2.
Proof.
  unfold HandleInferenceRequest. intros Hq. repeat case_match; try (by injection Hq as <-); try done.
  apply bind_Some in Hq as (s' & E & [= <-]). by eapply with_scheduler_tables.
Qed.

Lemma HandleAllocate_tables pid d t size fm s x :
  HandleAllocate sys pid d t size fm s = Some x -> same_tables s x.2.
Proof.
  unfold HandleAllocate. destruct (GetMemoryService d s) as [m|]; [|by intros [= <-]].
  intros ([off m1] & _ & Hq)%bind_Some. destruct (off =? _); [by injection Hq as <-|].
  destruct (CreateSharedMemory _ _ _) as [[c|i] f].
  - apply bind_Some in Hq as ([b m2] & _ & [= <-]). done.
  - injection Hq as <-. simpl. by destruct (_ =? -1).
Qed.

Lemma ReleaseSharedMemoryHandle_tables fd s : same_tables s (ReleaseSharedMemoryHandle fd s).
Proof. unfold ReleaseSharedMemoryHandle. by destruct (0 <=? fd). Qed.

Lemma HandleDeallocate_tables pid d a s x :
  HandleDeallocate sys pid d a s = Some x -> same_tables s x.2.
Proof.
  unfold HandleDeallocate. destruct (GetMemoryService d s) as [m|]; [|by intros [= <-]].
  unfold TryResolveSharedMemoryHandle. destruct (sharedMemoryHandles s !! (d, pid)) as [hm|]; simpl.
  - destruct (hm !! a) as [h|]; simpl; intros ([ok m'] & _ & [= <-])%bind_Some; [|done].
    simpl. eapply same_tables_trans; [|apply ReleaseSharedMemoryHandle_tables]. done.
  - intros ([ok m'] & _ & [= <-])%bind_Some. done.
Qed.

Lemma HandleDMA_tables rd pid seq d bk off size s :
  same_tables s (HandleDMA sys rd pid seq d bk off size s).2.
Proof. unfold HandleDMA. repeat case_match; done. Qed.

Lemma ReleaseAll_tables d pid s : same_tables s (ReleaseAllSharedMemoryHandlesForProcess d pid s).
Proof.
  unfold ReleaseAllSharedMemoryHandlesForProcess.
  destruct (sharedMemoryHandles s !! (d, pid)) as [hm|]; [|done].
  assert (forall l s0, same_tables s0 (foldl (fun s k => match hm !! k with
    | Some h => ReleaseSharedMemoryHandle (h_fd h) s | None => s end) s0 l)) as F.
  { induction l as [|k l IH]; intros s0; [done|]. simpl. eapply same_tables_trans; [|apply IH].
    destruct (hm !! k); [apply ReleaseSharedMemoryHandle_tables|done]. }
  eapply same_tables_trans; [|apply F]. done.
Qed.

(** ** The relation *)

Definition covers s (used : Z -> Z -> Z) : Prop :=
  forall d row, in_devices sys d = true -> boundCounts s !! Z.to_nat d = Some row ->
    row_ok deletes_accepted row (used d).

Definition used_by (m : gmap (Z * Z * Z) TaskStore.task_info) (d b : Z) : Z := uses d b m.

Definition bump_at (d b x : Z) (used : Z -> Z -> Z) (d' : Z) : Z -> Z :=
  if decide (d' = d) then bump b x (used d') else used d'.

Definition bounds_ok s : Prop := covers s (used_by (flat (taskInfoStore s))).

Lemma covers_ext s used used' : (forall d b, used d b = used' d b) -> covers s used -> covers s used'.
Proof. intros E C d row Hd El. eapply row_ok_ext; [|by apply C]. intros b. apply E. Qed.

Lemma same_tables_bounds s s' : same_tables s s' -> bounds_ok s -> bounds_ok s'.
Proof. intros [E1 E2]. unfold bounds_ok, covers. by rewrite E1, E2. Qed.

Lemma covers_set s s' used used' d row row' :
  covers s used -> in_devices sys d = true -> boundCounts s !! Z.to_nat d = Some row ->
  boundCounts s' = <[Z.to_nat d := row']> (boundCounts s) ->
  row_ok deletes_accepted row' (used' d) -> (forall d', d' <> d -> used' d' = used d') ->
  covers s' used'.
Proof.
  intros C Hd El E Hr Hu d' row1 Hd'. rewrite E. unfold in_devices in *. bool_facts.
  destruct (decide (d' = d)) as [->|Hne].
  - rewrite list_lookup_insert_eq by (by eapply lookup_lt_Some). by intros [= <-].
  - rewrite list_lookup_insert_ne by lia. rewrite Hu by done. apply C.
    unfold in_devices. apply andb_true_iff. split; [by apply Z.leb_le|by apply Z.ltb_lt].
Qed.

Lemma AddBound_covers d b s row used r s' :
  covers s used -> in_devices sys d = true -> boundCounts s !! Z.to_nat d = Some row ->
  BoundManager.CanAcceptBound b row = Some true -> AddBound sys d b s = Some (r, s') ->
  covers s' (if r =? 0 then bump_at d b 1 used else used) /\ taskInfoStore s' = taskInfoStore s.
Proof.
  intros C Hd El Hca. unfold AddBound. rewrite El. simpl.
  intros ([r0 c'] & E & [= <- <-])%bind_Some. split; [|done].
  pose proof (AddBound_row _ _ _ _ _ _ _ (C d row Hd El) Hca E) as R.
  eapply (covers_set s _ used _ d row c'); [done..| |].
  - destruct (r0 =? 0); [|done]. unfold bump_at. by rewrite decide_True.
  - intros d' Hne. destruct (r0 =? 0); [|done]. unfold bump_at. by rewrite decide_False.
Qed.

Lemma DeleteBound_covers d b s used s' :
  covers s used -> in_devices sys d = true -> 0 < used d b -> DeleteBound sys d b s = Some s' ->
  covers s' (bump_at d b (-1) used) /\ taskInfoStore s' = taskInfoStore s.
Proof.
  intros C Hd Hp. unfold DeleteBound. destruct (boundCounts s !! Z.to_nat d) as [row|] eqn:El; [|done].
  simpl. intros ([r0 c'] & E & [= <-])%bind_Some. split; [|done].
  eapply (covers_set s _ used _ d row c'); [done..| |].
  - unfold bump_at. rewrite decide_True by done.
    eapply (DeleteBound_row _ _ _ _ _ _ _ (C d row Hd El) Hp); [|exact E]. intros Ha. apply Ha.
  - intros d' Hne. unfold bump_at. by rewrite decide_False.
Qed.

Lemma used_insert m pid d t i :
  m !! (pid, d, t) = None ->
  forall d' b', bump_at d (TaskStore.bound i) 1 (used_by m) d' b' = used_by (<[(pid, d, t) := i]> m) d' b'.
Proof.
  intros E d' b'. unfold bump_at, bump, used_by. rewrite uses_insert by done. simpl.
  destruct (decide (d' = d)); repeat case_decide; try lia; intuition congruence.
Qed.

Lemma used_delete m pid d t i :
  m !! (pid, d, t) = Some i ->
  forall d' b', bump_at d (TaskStore.bound i) (-1) (used_by m) d' b' = used_by (delete (pid, d, t) m) d' b'.
Proof.
  intros E d' b'. unfold bump_at, bump, used_by. rewrite (uses_delete _ _ _ _ i) by done. simpl.
  destruct (decide (d' = d)); repeat case_decide; try lia; intuition congruence.
Qed.

(** ** The requests that touch the tables *)

Lemma TaskInit_bounds pid d t b size config s x :
  bounds_ok s -> TaskInit sys pid d t b size config s = Some x -> bounds_ok x.2.
Proof.
  intros C. unfold TaskInit. destruct (in_devices sys d) eqn:Hd; simpl; [|by intros [= <-]].
  destruct (GetMemoryService d s) as [m|]; [|by intros [= <-]].
  intros (m1 & _ & Hq)%bind_Some. set (s1 := put_memory d m1 s) in *.
  destruct (_ <? _); [by injection Hq as <-|].
  destruct (deviceBlocked _ _ _); [by injection Hq as <-|].
  apply bind_Some in Hq as (c & El & (can & Ec & Hq)%bind_Some).
  destruct can; simpl in Hq; [|by injection Hq as <-].
  apply bind_Some in Hq as ([r s2] & Ea & Hq).
  destruct (AddBound_covers d b s1 c _ r s2 C Hd El Ec Ea) as [C2 Et].
  destruct (r =? 0); simpl in Hq; [|injection Hq as <-; unfold bounds_ok; simpl; by rewrite Et].
  destruct (TaskStore.addTask _ _ _ _ _) as [[|] store] eqn:E.
  - injection Hq as <-. apply flat_addTask in E as [N E]. rewrite Et in N, E.
    eapply covers_ext; [|exact C2]. simpl. intros d' b'. rewrite E. by rewrite <- used_insert.
  - apply bind_Some in Hq as (s3 & E3 & [= <-]).
    assert (0 < bump_at d b 1 (used_by (flat (taskInfoStore s1))) d b) as Hp.
    { unfold bump_at, bump, used_by, uses. repeat case_decide; try congruence; lia. }
    destruct (DeleteBound_covers d b s2 _ s3 C2 Hd Hp E3) as [C3 Et3]. unfold bounds_ok.
    simpl. rewrite Et3, Et. change (taskInfoStore s1) with (taskInfoStore s). eapply covers_ext; [|exact C3]. intros d' b'. unfold bump_at, bump.
    repeat case_decide; lia.
Qed.

Lemma TaskDeInit_bounds d t pid s s' :
  bounds_ok s -> TaskDeInit sys d t pid s = Some s' -> bounds_ok s'.
Proof.
  intros C. unfold TaskDeInit.
  destruct (TaskStore.removeTask pid d t (taskInfoStore s)) as [[b|] store] eqn:E; [|by intros [= <-]].
  apply flat_removeTask in E as (i & Ei & <- & E). set (s2 := set_scheduler _ _).
  destruct (in_devices sys d) eqn:Hd.
  - intros Hq. destruct (DeleteBound_covers d (TaskStore.bound i) s2 _ s' C Hd) as [C' Et]; [|done|].
    { by eapply uses_pos. }
    unfold bounds_ok. rewrite Et. simpl. rewrite E. eapply covers_ext; [|exact C'].
    by apply used_delete.
  - intros [= <-] d' row Hd' El. eapply row_ok_ext; [|by apply (C d' row)]. intros b. simpl. rewrite E.
    rewrite <- (used_delete _ _ _ _ i) by done. unfold bump_at.
    by rewrite decide_False by congruence.
Qed.

Lemma free_entry_bounds running pid d t i s m s' :
  in_devices sys d = true -> covers s (used_by m) -> m !! (pid, d, t) = Some i ->
  free_entry sys running pid d s (t, TaskStore.bound i) = Some s' ->
  covers s' (used_by (delete (pid, d, t) m)) /\ taskInfoStore s' = taskInfoStore s.
Proof.
  intros Hd C Em. unfold free_entry. rewrite Hd. intros (s1 & E1 & E2)%bind_Some.
  assert (same_tables s s1) as [B T].
  { destruct (GetMemoryService d s) as [ms|]; [|by injection E1 as <-].
    case_bool_decide; [by injection E1 as <-|]. apply bind_Some in E1 as ([ok m'] & _ & [= <-]). done. }
  rewrite <- T. assert (covers s1 (used_by m)) as C1 by (unfold covers; by rewrite B).
  destruct (DeleteBound_covers d (TaskStore.bound i) s1 _ s' C1 Hd) as [C' Et]; [by eapply uses_pos|done|].
  split; [|done]. eapply covers_ext; [|exact C']. by apply used_delete.
Qed.

Lemma free_entries_bounds running pid d es s m s' :
  in_devices sys d = true -> NoDup es.*1 ->
  (forall t b, (t, b) ∈ es -> exists i, m !! (pid, d, t) = Some i /\ TaskStore.bound i = b) ->
  covers s (used_by m) ->
  foldl (fun o tb => s ← o; free_entry sys running pid d s tb) (Some s) es = Some s' ->
  covers s' (used_by (forget pid d es.*1 m)) /\ taskInfoStore s' = taskInfoStore s.
Proof.
  intros Hd. revert s m. induction es as [|[t b] es IH]; intros s m Hn Hm C; simpl.
  { by intros [= <-]. }
  apply NoDup_cons in Hn as [Hni Hn]. destruct (Hm t b) as (i & Ei & <-); [left|].
  destruct (free_entry sys running pid d s (t, TaskStore.bound i)) as [s1|] eqn:E1.
  - destruct (free_entry_bounds running pid d t i s m s1) as [C1 T1]; [done..|].
    intros Hq. apply (IH s1 (delete (pid, d, t) m)) in Hq as [C' T']; [|done| |done].
    + split; [done|congruence].
    + intros t' b' Hin. destruct (Hm t' b') as (i' & Ei' & Hb); [by right|]. exists i'.
      split; [|done]. rewrite lookup_delete_ne; [done|]. intros [= ->]. apply Hni.
      by apply (list_elem_of_fmap_2 fst) in Hin.
  - intros Hq. exfalso. clear - Hq. by induction es.
Qed.

Lemma HandleProcessDeInit_bounds pid d s s' :
  in_devices sys d = true -> bounds_ok s -> HandleProcessDeInit sys pid d s = Some s' -> bounds_ok s'.
Proof.
  intros Hd C. unfold HandleProcessDeInit, stop_process.
  destruct (TaskStore.extractTaskIdsWithBound _ _ _) as [es store] eqn:E.
  apply extract_facts in E as (Hn & F & Hm & _).
  intros (s5 & E5 & [= <-])%bind_Some. apply (free_entries_bounds _ _ _ _ _ (flat (taskInfoStore s)))
    in E5 as [C5 T5]; [|done..].
  destruct (ReleaseAll_tables d pid s5) as [B T]. unfold bounds_ok, covers. simpl.
  rewrite B, T, T5. simpl. rewrite F. exact C5.
Qed.

Lemma perform_bounds q s s' : bounds_ok s -> perform sys q s = Some s' -> bounds_ok s'.
Proof.
  intros C. destruct q; simpl; intros Hq.
  - apply fmap_Some in Hq as (x & E & ->). by eapply same_tables_bounds; [eapply HandleAllocate_tables|].
  - apply fmap_Some in Hq as (x & E & ->). by eapply same_tables_bounds; [eapply HandleDeallocate_tables|].
  - apply fmap_Some in Hq as (x & E & ->).
    by eapply same_tables_bounds; [eapply HandleInferenceRequest_tables|].
  - apply fmap_Some in Hq as (x & E & ->). by eapply TaskInit_bounds.
  - by eapply TaskDeInit_bounds.
  - injection Hq as <-. eapply same_tables_bounds; [apply HandleDMA_tables|done].
  - by eapply same_tables_bounds; [eapply with_scheduler_tables|].
  - injection Hq as <-. eapply same_tables_bounds; [|done]. unfold DecrementPendingDMA. by case_match.
  - unfold onClientDisconnected in Hq. apply bind_Some in Hq as (s1 & E & [= <-]).
    apply (foldl_option _ (fun s s' => bounds_ok s -> bounds_ok s')) in E as (s0 & [= <-] & R); [by apply R|auto..].
    intros s0 d s2 (Hd0 & Hd1)%elem_of_seqZ E0 C0. eapply HandleProcessDeInit_bounds; [|done..].
    unfold in_devices. apply andb_true_iff. split; [by apply Z.leb_le|apply Z.ltb_lt; lia].
Qed.

Lemma new_service_bounds (q : Q) mems : bounds_ok (new_service sys q mems).
Proof.
  intros d row _ El. simpl in El. apply lookup_replicate in El as [-> _]. split_and!; try done.
  intros b c (Hb & (-> & _)%lookup_replicate)%count_at_lookup. by vm_compute.
Qed.

Lemma performs_bounds l s s' : bounds_ok s -> performs sys l s = Some s' -> bounds_ok s'.
Proof.
  revert s. induction l as [|q l IH]; intros s C; simpl; [by intros [= <-]|].
  intros (s1 & E & Hq)%bind_Some. eapply IH; [|exact Hq]. by eapply perform_bounds.
Qed.

End Bounds.
