(* ===== verification/DxrtServiceSched.v ===== *)
(** * The service: what it needs of the scheduler

    The entries of one process and the notifications that a task has no request left,
    over the calls the service makes, whatever the policy and the devices do. *)

From Stdlib Require Import ZArith Lia.
From S2P Require Import Prelude AllocatorClass MemoryService Scheduler SchedulerSpec SchedulerInv SchedulerCredit.
From S2P Require Import SchedulerCalls DxrtService.
Import DxrtService.

(** ** The scheduler: entries and notifications *)

Section Sched.
Context {Q : Type} `{!Scheduler.Policy Q}.
Context (env : Scheduler.environment).
Implicit Types (x : Scheduler.sched Q) (p r t d : Z).

Definition drains (evs : list Scheduler.event) : list (Z * Z) := omap drained_of evs.

Lemma drains_app l1 l2 : drains (l1 ++ l2) = drains l1 ++ drains l2.
Proof. apply omap_app. Qed.

(** Entries only disappear or change state, and no task is reported as drained. *)
Definition calm x x' : Prop :=
  table_le x x' /\ exists evs, Scheduler.trace x' = Scheduler.trace x ++ evs /\ drains evs = [].

Lemma calm_trans x1 x2 x3 : calm x1 x2 -> calm x2 x3 -> calm x1 x3.
Proof.
  intros [T1 (l1 & E1 & D1)] [T2 (l2 & E2 & D2)]. split; [by eapply table_le_trans|].
  exists (l1 ++ l2). by rewrite E2, E1, drains_app, D1, D2, app_assoc.
Qed.

Lemma calm_same x x' :
  Scheduler.reqs x' = Scheduler.reqs x -> Scheduler.trace x' = Scheduler.trace x -> calm x x'.
Proof.
  intros E1 E2. split; [|exists []; by rewrite app_nil_r].
  apply table_le_entry. intros. unfold Scheduler.entry. by rewrite E1.
Qed.

Lemma calm_reject d p r st x : calm x (Scheduler.reject d p r st x).
Proof.
  destruct (reject_fields d p r st x) as (_ & _ & Et & _). split; [|exists []; by rewrite app_nil_r].
  intros p' r' e'. rewrite entry_reject. destruct (decide _); [done|]. eauto.
Qed.

Lemma calm_set_entry p r e st dv x :
  Scheduler.entry p r x = Some e -> calm x (Scheduler.set_entry p r (Scheduler.mkEntry (Scheduler.data e) st dv) x).
Proof.
  intros E. split; [|exists []; by rewrite app_nil_r].
  eapply table_le_upd; [exact E|]. intros. apply entry_set_entry.
Qed.

Lemma schedule_fuel_calm n d x x' :
  Scheduler.schedule_fuel env n d x = Scheduler.Ret x' -> calm x x'.
Proof.
  revert x. induction n as [|n IH]; intros x; [done|]. simpl.
  destruct (Scheduler.pol_pop d (Scheduler.queue x)) as [[[p r]|] q]; [|intros [= <-]; by apply calm_same].
  unfold Scheduler.doInference. change (Scheduler.reqs (Scheduler.set_queue q x)) with (Scheduler.reqs x).
  destruct (Scheduler.reqs x !! p) as [m|] eqn:Em; [|intros E%IH; eapply calm_trans; [|exact E]; by apply calm_same].
  destruct (m !! r) as [e|] eqn:Ee; [|intros E%IH; eapply calm_trans; [|exact E]; by apply calm_same].
  pose proof (entry_lookup p r x m e Em Ee) as Hen. cbv zeta.
  destruct (Scheduler.has_listener env && _).
  { intros E%IH. eapply calm_trans; [|exact E]. by apply (calm_trans _ (Scheduler.tick (Scheduler.set_queue q x)));
      [apply calm_same|apply calm_reject]. }
  set (x1 := if Scheduler.has_listener env then _ else _).
  assert (calm x x1) as C1 by (unfold x1; destruct (Scheduler.has_listener env); by apply calm_same).
  assert (Scheduler.entry p r x1 = Some e) as En1 by (unfold x1; by destruct (Scheduler.has_listener env)).
  clearbody x1. destruct (Scheduler.isBlocked _ _ _).
  { intros E%IH. eapply calm_trans; [exact C1|]. eapply calm_trans; [|exact E].
    apply (calm_trans _ (Scheduler.tick x1)); [by apply calm_same|apply calm_reject]. }
  set (sent := Scheduler.emit _ _). assert (calm x1 sent) as C2.
  { apply (calm_trans _ (Scheduler.set_entry p r (Scheduler.mkEntry (Scheduler.data e) Scheduler.RUNNING d) x1));
      [by apply calm_set_entry|]. split; [by apply table_le_entry|]. by eexists. }
  assert (Scheduler.entry p r sent = Some (Scheduler.mkEntry (Scheduler.data e) Scheduler.RUNNING d)) as En2.
  { etransitivity; [exact (entry_set_entry p r _ x1 p r)|]. by rewrite decide_True. }
  clearbody sent. destruct (_ || _).
  - intros [= <-]. eapply calm_trans; [exact C1|]. eapply calm_trans; [exact C2|].
    eapply calm_trans; [exact (calm_set_entry p r _ Scheduler.PENDING (-1) sent En2)|]. by apply calm_same.
  - destruct (_ =? 0); [|done]. intros [= <-]. by eapply calm_trans.
Qed.

Lemma calm_flush x : calm x (Scheduler.flush env x).
Proof.
  unfold Scheduler.flush, Scheduler.to_listener. destruct (Scheduler.has_listener env); [|by apply calm_same].
  split; [by apply table_le_entry|]. eexists. split; [done|]. unfold drains.
  induction (Scheduler.pendingErrorCallbacks x) as [|cb l IH]; [done|exact IH].
Qed.

Lemma AddScheduler_calm packet d x x' :
  Scheduler.AddScheduler env packet d x = Scheduler.Ret x' ->
  calm (Scheduler.set_entry (i32 (Scheduler.proc_id packet)) (i32 (Scheduler.req_id packet))
          (Scheduler.mkEntry packet Scheduler.PENDING (-1)) x) x'.
Proof.
  unfold Scheduler.AddScheduler. destruct (negb _); [done|].
  match goal with |- context [Scheduler.set_queue ?q ?y] => set (x3 := Scheduler.set_queue q y) end.
  set (x1 := Scheduler.set_entry _ _ _ x). assert (calm x1 x3) as C by by apply calm_same.
  clearbody x3. cbv zeta. unfold Scheduler.obind.
  destruct (_ <? _); [|intros [= <-]; eapply calm_trans; [exact C|]; apply calm_flush].
  destruct (Scheduler.schedule env d x3) as [x4| | |] eqn:E; try done. intros [= <-].
  apply schedule_fuel_calm in E. eapply calm_trans; [exact C|]. eapply calm_trans; [exact E|]. apply calm_flush.
Qed.

Lemma task_drained_spec p t x :
  Scheduler.task_drained p t x = true <->
  forall r e, Scheduler.entry p r x = Some e -> Scheduler.task_id (Scheduler.data e) <> u32 t.
Proof.
  unfold Scheduler.task_drained, Scheduler.entry. destruct (Scheduler.reqs x !! p) as [m|]; simpl; [|done].
  rewrite forallb_forall. split.
  - intros F r e E Ht. specialize (F (r, e)). rewrite <- list_elem_of_In, elem_of_map_to_list in F.
    specialize (F E). simpl in F. bool_facts. done.
  - intros F [r e]. rewrite <- list_elem_of_In, elem_of_map_to_list. intros E. simpl.
    apply negb_true_iff, Z.eqb_neq. by eapply F.
Qed.

(** Entries of the process only disappear or change state. *)
Definition own_le p x x' : Prop :=
  forall r e', Scheduler.entry p r x' = Some e' ->
    exists e, Scheduler.entry p r x = Some e /\ Scheduler.data e' = Scheduler.data e.

Lemma task_drained_le p t x x' :
  own_le p x x' -> Scheduler.task_drained p t x = true -> Scheduler.task_drained p t x' = true.
Proof.
  rewrite !task_drained_spec. intros T D r e' E. destruct (T r e' E) as (e & E0 & ->). by eapply D.
Qed.

Lemma calm_le p x x' : calm x x' -> own_le p x x'.
Proof. intros [T _] r e'. apply T. Qed.

Lemma own_le_trans p x1 x2 x3 : own_le p x1 x2 -> own_le p x2 x3 -> own_le p x1 x3.
Proof.
  intros T1 T2 r e E. destruct (T2 r e E) as (e2 & E2 & ->).
  destruct (T1 r e2 E2) as (e1 & E1 & ->). by exists e1.
Qed.

Lemma calm_listener l x : drains l = [] -> calm x (Scheduler.to_listener env l x).
Proof.
  intros D. unfold Scheduler.to_listener. destruct (Scheduler.has_listener env); [|by apply calm_same].
  split; [by apply table_le_entry|]. by exists l.
Qed.

(** [FinishJobs] reports at most the task of the request; it has no entry left then. *)
Lemma FinishJobs_found p r e d resp x x' :
  p = i32 (Scheduler.rs_proc_id resp) -> r = i32 (Scheduler.rs_req_id resp) ->
  Scheduler.entry p r x = Some e -> Scheduler.FinishJobs env d resp x = Scheduler.Ret x' ->
  let t := i32 (Scheduler.task_id (Scheduler.data e)) in
  table_le x x' /\ exists evs (b : bool), Scheduler.trace x' = Scheduler.trace x ++ evs /\
    drains evs = (if b then [(p, t)] else []) /\
    (b = true -> Scheduler.task_drained p t x' = true) /\
    (Scheduler.has_listener env = true ->
     (forall r' e', Scheduler.entry p r' x = Some e' -> r' <> r ->
        Scheduler.task_id (Scheduler.data e') <> u32 t) -> b = true).
Proof.
  intros -> -> En. unfold Scheduler.FinishJobs. destruct (negb _); [done|]. cbv zeta.
  set (p := i32 (Scheduler.rs_proc_id resp)) in *. set (r := i32 (Scheduler.rs_req_id resp)) in *.
  set (x1 := if 0 <? _ then _ else x).
  assert (Scheduler.reqs x1 = Scheduler.reqs x /\ Scheduler.trace x1 = Scheduler.trace x) as [E1 E2]
    by (unfold x1; by destruct (0 <? _)).
  clearbody x1. unfold Scheduler.entry in En. rewrite <- E1 in En.
  destruct (Scheduler.reqs x1 !! p) as [m|] eqn:Em; [|done]. simpl in En. rewrite En.
  set (t := i32 (Scheduler.task_id (Scheduler.data e))).
  set (x3 := Scheduler.erase_entry p r _). set (b := Scheduler.has_listener env && _).
  assert (Scheduler.trace x3 = Scheduler.trace x /\ forall p' r', Scheduler.entry p' r' x3 =
    if decide ((p', r') = (p, r)) then None else Scheduler.entry p' r' x) as [E3 E4].
  { unfold x3. match goal with |- context [Scheduler.erase_entry p r ?y] => 
      destruct (erase_entry_fields p r y) as (_ & _ & _ & Et & _);
      pose proof (entry_erase_entry p r y) as Ee end.
    split; [by rewrite Et|]. intros p' r'. rewrite Ee. unfold Scheduler.entry. simpl. by rewrite E1. }
  clearbody x3. unfold Scheduler.obind. destruct (Scheduler.schedule env d x3) as [x4| | |] eqn:E; try done.
  apply schedule_fuel_calm in E. pose proof (calm_trans _ _ _ E (calm_flush x4)) as C5.
  set (x5 := Scheduler.flush env x4) in *. clearbody x5. intros [= <-].
  destruct C5 as [T5 (l5 & Et5 & D5)].
  assert (table_le x x3) as T3 by (intros p' r' e'; rewrite E4; destruct (decide _); [done|eauto]).
  set (x6 := if b then _ else x5). assert (Scheduler.reqs x6 = Scheduler.reqs x5 /\
    exists l6, Scheduler.trace x6 = Scheduler.trace x5 ++ l6 /\ drains l6 = if b then [(p, t)] else []) as [E6 (l6 & Et6 & D6)].
  { unfold x6, b. unfold Scheduler.to_listener. destruct (Scheduler.has_listener env); simpl.
    - destruct (Scheduler.task_drained p t x3); (split; [done|]);
        [by eexists|exists []; by rewrite app_nil_r].
    - split; [done|]. exists []. by rewrite app_nil_r. }
  clearbody x6. set (x7 := if bool_decide _ then x6 else _).
  assert (calm x6 x7) as [T7 (l7 & Et7 & D7)]
    by (unfold x7; destruct (bool_decide _); [by apply calm_same|by apply calm_listener]).
  clearbody x7. assert (table_le x3 x7) as T37.
  { eapply table_le_trans; [exact T5|]. eapply table_le_trans; [|exact T7].
    apply table_le_entry. intros. unfold Scheduler.entry. by rewrite E6. }
  split; [by eapply table_le_trans|]. exists (l5 ++ l6 ++ l7), b. split_and!.
  - by rewrite Et7, Et6, Et5, E3, !app_assoc.
  - rewrite !drains_app, D5, D6, D7. by rewrite app_nil_r.
  - intros [_ Hd]%andb_true_iff. eapply task_drained_le; [|exact Hd]. intros r' e'. apply T37.
  - intros Hl Ho. unfold b. rewrite Hl. simpl. apply task_drained_spec. intros r' e'. rewrite E4.
    destruct (decide _); [done|]. intros Ee Ht. eapply Ho; [done|congruence|done].
Qed.

Lemma FinishJobs_missing d resp x x' :
  Scheduler.entry (i32 (Scheduler.rs_proc_id resp)) (i32 (Scheduler.rs_req_id resp)) x = None ->
  Scheduler.FinishJobs env d resp x = Scheduler.Ret x' -> calm x x'.
Proof.
  unfold Scheduler.entry, Scheduler.FinishJobs. intros En. destruct (negb _); [done|]. cbv zeta.
  set (x1 := if 0 <? _ then _ else x).
  assert (Scheduler.reqs x1 = Scheduler.reqs x /\ Scheduler.trace x1 = Scheduler.trace x) as [E1 E2]
    by (unfold x1; by destruct (0 <? _)).
  clearbody x1. rewrite <- E1 in En. destruct (Scheduler.reqs x1 !! _) as [m|]; simpl in En; [rewrite En|];
    intros E%schedule_fuel_calm; (eapply calm_trans; [|exact E]); by apply calm_same.
Qed.

(** ** The calls that stop requests *)

(** Rewriting the entries of one process. *)
Lemma own_le_insert p p' m m' lp x :
  Scheduler.reqs x !! p' = Some m ->
  (forall r e', m' !! r = Some e' -> exists e, m !! r = Some e /\ Scheduler.data e' = Scheduler.data e) ->
  own_le p x (Scheduler.set_loadsProc lp (Scheduler.set_reqs (<[p' := m']> (Scheduler.reqs x)) x)).
Proof.
  intros E Hm r e'. unfold Scheduler.entry. simpl. destruct (decide (p = p')) as [->|Hp].
  - rewrite lookup_insert_eq, E. simpl. apply Hm.
  - rewrite lookup_insert_ne by done. eauto.
Qed.

Lemma stop_requests_le sel p p' m x :
  Scheduler.reqs x !! p' = Some m -> own_le p x (Scheduler.stop_requests sel p' m x).
Proof.
  intros E. eapply own_le_insert; [done|]. intros r e' (e & ? & ? & _)%stop_entries_shrinks. eauto.
Qed.

Lemma StopTaskInference_le p p' d t x : own_le p x (Scheduler.StopTaskInference p' d t x).
Proof.
  unfold Scheduler.StopTaskInference. destruct (Scheduler.reqs x !! p') eqn:E; [|intros r e; eauto].
  by apply stop_requests_le.
Qed.

Lemma StopAll_le p p' d x : own_le p x (Scheduler.StopAllInferenceForProcess p' d x).
Proof.
  unfold Scheduler.StopAllInferenceForProcess. destruct (Scheduler.reqs x !! p') as [m|] eqn:E; [|intros r e; eauto].
  pose proof (stop_requests_le (fun _ => true) p p' m x E) as T.
  destruct (decide _); [|done]. eapply own_le_trans; [exact T|]. intros r e'. unfold Scheduler.entry. simpl.
  destruct (decide (p = p')) as [->|]; [by rewrite lookup_delete_eq|].
  rewrite lookup_delete_ne by done. eauto.
Qed.

Lemma ClearRunning_le p p' d x : own_le p x (Scheduler.ClearRunningRequests p' d x).
Proof.
  unfold Scheduler.ClearRunningRequests. destruct (Scheduler.reqs x !! p') as [m|] eqn:E; [|intros r e; eauto].
  eapply (own_le_insert p p' m _ (Scheduler.loadsProc x)); [done|].
  intros r e'. rewrite lookup_fmap. intros (e & -> & E')%fmap_Some. exists e. split; [done|]. subst e'.
  by destruct (_ && _).
Qed.

Lemma foldl_StopTask_le p p' d (es : list (Z * Z)) x :
  own_le p x (foldl (fun x tb => Scheduler.StopTaskInference p' d tb.1 x) x es).
Proof.
  revert x. induction es as [|tb es IH]; intros x; [intros r e; eauto|]. simpl.
  eapply own_le_trans; [apply StopTaskInference_le|apply IH].
Qed.

(** Every entry of the process is cancelled. *)
Definition cancelled_all p x : Prop :=
  forall r e, Scheduler.entry p r x = Some e -> Scheduler.state e = Scheduler.CANCELLED.
Definition cancelled (e : Scheduler.RequestEntry) : Scheduler.RequestEntry :=
  Scheduler.mkEntry (Scheduler.data e) Scheduler.CANCELLED (Scheduler.deviceId e).

Lemma StopAll_entry p d x r e :
  Scheduler.entry p r x = Some e ->
  Scheduler.entry p r (Scheduler.StopAllInferenceForProcess p d x) =
    match Scheduler.state e with Scheduler.PENDING => None | _ => Some (cancelled e) end.
Proof.
  unfold Scheduler.entry, Scheduler.StopAllInferenceForProcess.
  destruct (Scheduler.reqs x !! p) as [m|] eqn:E; [|done]. simpl. intros Er.
  assert (Scheduler.stop_entries (fun _ => true) m !! r =
    match Scheduler.state e with Scheduler.PENDING => None | _ => Some (cancelled e) end) as S.
  { unfold Scheduler.stop_entries. rewrite lookup_omap, Er. simpl. unfold cancelled.
    destruct (Scheduler.state e) eqn:Es; [done..|]. simpl. f_equal. destruct e. simpl in *. congruence. }
  destruct (decide _) as [Z|]; simpl.
  - rewrite lookup_delete_eq. rewrite Z, lookup_empty in S. by rewrite <- S.
  - by rewrite lookup_insert_eq.
Qed.

Lemma StopAll_cancelled p d x : cancelled_all p (Scheduler.StopAllInferenceForProcess p d x).
Proof.
  intros r e' E. destruct (StopAll_le p p d x r e' E) as (e & E0 & _).
  rewrite (StopAll_entry p d x r e E0) in E. destruct (Scheduler.state e); by simplify_eq.
Qed.

Lemma StopTask_cancelled p d t x r e :
  Scheduler.state e = Scheduler.CANCELLED -> Scheduler.entry p r x = Some e ->
  Scheduler.entry p r (Scheduler.StopTaskInference p d t x) = Some e.
Proof.
  intros Es. unfold Scheduler.entry, Scheduler.StopTaskInference.
  destruct (Scheduler.reqs x !! p) as [m|] eqn:E; [|done]. simpl. intros Er.
  rewrite lookup_insert_eq. simpl. unfold Scheduler.stop_entries. rewrite lookup_omap, Er. simpl.
  rewrite Es. by destruct (_ =? _).
Qed.

Lemma ClearRunning_cancelled p d x r e :
  Scheduler.state e = Scheduler.CANCELLED -> Scheduler.entry p r x = Some e ->
  Scheduler.entry p r (Scheduler.ClearRunningRequests p d x) = Some e.
Proof.
  intros Es. unfold Scheduler.entry, Scheduler.ClearRunningRequests.
  destruct (Scheduler.reqs x !! p) as [m|] eqn:E; [|done]. simpl. intros Er.
  rewrite lookup_insert_eq. simpl. rewrite lookup_fmap, Er. simpl. by rewrite Es.
Qed.

Lemma foldl_StopTask_cancelled p d (es : list (Z * Z)) x r e :
  Scheduler.state e = Scheduler.CANCELLED -> Scheduler.entry p r x = Some e ->
  Scheduler.entry p r (foldl (fun x tb => Scheduler.StopTaskInference p d tb.1 x) x es) = Some e.
Proof.
  intros Es. revert x. induction es as [|tb es IH]; intros x E; [done|]. simpl. apply IH.
  by apply StopTask_cancelled.
Qed.

(** The whole sequence the end of a process makes. *)
Definition stopped p d (es : list (Z * Z)) x : Scheduler.sched Q :=
  Scheduler.ClearRunningRequests p d
    (foldl (fun x tb => Scheduler.StopTaskInference p d tb.1 x)
       (Scheduler.StopAllInferenceForProcess p d x) es).

Lemma stopped_le p p' d es x : own_le p x (stopped p' d es x).
Proof.
  eapply own_le_trans; [apply StopAll_le|]. eapply own_le_trans; [apply foldl_StopTask_le|].
  apply ClearRunning_le.
Qed.

Lemma stopped_entry p d es x r e :
  Scheduler.entry p r x = Some e -> Scheduler.state e <> Scheduler.PENDING ->
  Scheduler.entry p r (stopped p d es x) = Some (cancelled e).
Proof.
  intros E Es. apply ClearRunning_cancelled; [done|]. apply foldl_StopTask_cancelled; [done|].
  rewrite (StopAll_entry p d x r e E). by destruct (Scheduler.state e).
Qed.

Lemma stopped_cancelled p d es x : cancelled_all p (stopped p d es x).
Proof.
  intros r e E. destruct (own_le_trans _ _ _ _ (foldl_StopTask_le p p d es _)
    (ClearRunning_le p p d _) r e E) as (e0 & E0 & _).
  pose proof (StopAll_cancelled p d x r e0 E0) as Es.
  pose proof (foldl_StopTask_cancelled p d es _ r e0 Es E0) as E1.
  pose proof (ClearRunning_cancelled p d _ r e0 Es E1) as E2. unfold stopped in E. by simplify_eq.
Qed.

Lemma elem_of_running p t x :
  t ∈ Scheduler.GetRunningTaskIds p x <->
  exists r e, Scheduler.entry p r x = Some e /\ Scheduler.state e = Scheduler.RUNNING /\
    i32 (Scheduler.task_id (Scheduler.data e)) = t.
Proof.
  unfold Scheduler.GetRunningTaskIds, Scheduler.entry. destruct (Scheduler.reqs x !! p) as [m|]; simpl.
  - rewrite elem_of_asc, elem_of_list_to_set. rewrite list_elem_of_In, in_map_iff. split.
    + intros ([r e] & Ht & (Hin & Hr)%filter_In). exists r, e. apply list_elem_of_In, elem_of_map_to_list in Hin.
      apply bool_decide_eq_true in Hr. done.
    + intros (r & e & E & Hr & Ht). exists (r, e). split; [done|]. apply filter_In. split.
      * by apply list_elem_of_In, elem_of_map_to_list.
      * by apply bool_decide_eq_true.
  - split; [by intros ?%not_elem_of_nil|]. by intros (? & ? & ? & _).
Qed.

Lemma cancelled_none_running p x : cancelled_all p x -> Scheduler.GetRunningTaskIds p x = [].
Proof.
  intros C. apply elem_of_nil_inv. intros t (r & e & E & Hr & _)%elem_of_running.
  specialize (C r e E). congruence.
Qed.

End Sched.
