(* ===== verification/DxrtServiceFree.v ===== *)
(** * The service: the memory of tasks

    What each request does to the blocks of a task: the notifications of the scheduler
    that a task has no request left, the end of a process on a device, and the
    requests of other processes. *)

From Stdlib Require Import ZArith Lia.
From S2P Require Import Prelude AllocatorClass MemoryService Scheduler SchedulerSpec SchedulerCredit.
From S2P Require Import IpcServer DeviceTables DxrtService DxrtServiceInv DxrtServiceBounds DxrtServiceSched.
Import DxrtService MemFd.

(** ** The memory of a task *)

Section Memory.
Context {A : Type} `{!AllocOps A}.
Implicit Types (m : MemoryService.service A) (pid d t : Z).

Definition blocks_of pid t m : option (gset Z) := MemoryService.tasks m !! pid ≫= (.!! t).

Lemma DeallocateTask_blocks pid t m x pid' t' :
  MemoryService.DeallocateTask pid t m = Some x ->
  blocks_of pid' t' x.2 = if decide ((pid', t') = (pid, t)) then None else blocks_of pid' t' m.
Proof.
  assert (forall tm ts, ts !! pid = Some tm ->
    MemoryService.erase_task pid t tm ts !! pid' ≫= (.!! t') =
    if decide ((pid', t') = (pid, t)) then None else ts !! pid' ≫= (.!! t')) as L.
  { intros tm ts E. unfold MemoryService.erase_task. destruct (decide (pid' = pid)) as [->|Hp].
    - assert ((if decide (delete t tm = ∅) then delete pid ts else <[pid:=delete t tm]> ts) !! pid ≫= (.!! t')
        = delete t tm !! t') as ->.
      { case_decide as Z; [by rewrite lookup_delete_eq, Z|by rewrite lookup_insert_eq]. }
      rewrite E. simpl. case_decide as Z; [injection Z as ->; apply lookup_delete_eq|].
      apply lookup_delete_ne. congruence.
    - rewrite (decide_False (P := (pid', t') = (pid, t))) by congruence.
      case_decide; [by rewrite lookup_delete_ne by done|by rewrite lookup_insert_ne by done]. }
  unfold MemoryService.DeallocateTask, blocks_of.
  destruct (MemoryService.tasks m !! pid) as [tm|] eqn:E.
  - destruct (tm !! t) as [S|] eqn:Et.
    + destruct (decide (S = ∅)); [intros Hq; injection Hq as <-; by apply L|].
      intros (m' & _ & Hq)%bind_Some. injection Hq as <-. by apply L.
    + intros [= <-]. simpl. case_decide as Z; [injection Z as -> ->; by rewrite E|done].
  - intros [= <-]. simpl. case_decide as Z; [injection Z as -> ->; by rewrite E|done].
Qed.

(** The other operations, of another process. *)
Lemma track_task_blocks pid t a m pid' t' :
  pid' <> pid -> blocks_of pid' t' (MemoryService.track_task pid t a m) = blocks_of pid' t' m.
Proof. intros. unfold blocks_of. simpl. by rewrite lookup_insert_ne. Qed.

Lemma allocate_with_blocks alloc track size m x pid' t' :
  (forall a m, blocks_of pid' t' (track a m) = blocks_of pid' t' m) ->
  MemoryService.allocate_with alloc track size m = Some x -> blocks_of pid' t' x.2 = blocks_of pid' t' m.
Proof.
  intros Ht. unfold MemoryService.allocate_with. destruct (MemoryService.too_fragmented _ _); [by intros [= <-]|].
  intros ([r m'] & _ & [= <-])%bind_Some. simpl. destruct (_ =? _); [done|]. by rewrite Ht.
Qed.

Lemma allocation_blocks t fm size pid m x pid' t' :
  pid' <> pid -> allocation t fm size pid m = Some x -> blocks_of pid' t' x.2 = blocks_of pid' t' m.
Proof.
  intros Hp. unfold allocation.
  destruct (negb _), fm; apply allocate_with_blocks; intros; (done || by apply track_task_blocks).
Qed.

Lemma DeallocateAddress_blocks a pid m x pid' t' :
  pid' <> pid -> MemoryService.DeallocateAddress a pid m = Some x -> blocks_of pid' t' x.2 = blocks_of pid' t' m.
Proof.
  intros Hp. unfold MemoryService.DeallocateAddress, blocks_of.
  destruct (decide _); [by intros (m' & _ & [= <-])%bind_Some|].
  destruct (MemoryService.tasks m !! pid) as [tm|] eqn:E; [|by intros [= <-]].
  destruct (MemoryService.task_of a tm) as [[t S]|]; [|by intros [= <-]].
  intros (m' & _ & [= <-])%bind_Some. simpl. case_decide; [|by rewrite lookup_insert_ne].
  unfold MemoryService.erase_task. case_decide; [by rewrite lookup_delete_ne|by rewrite lookup_insert_ne].
Qed.

Lemma OptimizeMemory_tasks m m' :
  MemoryService.OptimizeMemory m = Some m' -> MemoryService.tasks m' = MemoryService.tasks m.
Proof.
  unfold MemoryService.OptimizeMemory. case_match; [|by intros [= <-]].
  by intros (x & _ & [= <-])%bind_Some.
Qed.

End Memory.

(** ** The service *)

Section Free.
Context {A Q : Type} `{!AllocOps A} `{!Scheduler.Policy Q}.
Context (sys : system).
Implicit Types (s : service A Q) (pid d t b : Z).

(** The blocks device [d] holds for the task. *)
Definition holds s d pid t : option (gset Z) := memoryServices s !! d ≫= blocks_of pid t.

Lemma holds_put s d m d' pid t :
  holds (put_memory d m s) d' pid t = if decide (d' = d) then blocks_of pid t m else holds s d' pid t.
Proof.
  unfold holds. simpl. case_decide as E; [subst; by rewrite lookup_insert_eq|by rewrite lookup_insert_ne].
Qed.

Lemma holds_put_same s d m m' d' pid t :
  memoryServices s !! d = Some m -> blocks_of pid t m' = blocks_of pid t m ->
  holds (put_memory d m' s) d' pid t = holds s d' pid t.
Proof. intros E Hb. rewrite holds_put. case_decide as E'; [subst|done]. unfold holds. by rewrite E. Qed.

(** Only the memory of the task changes, and the record that it is to be freed. *)
Lemma onTaskDrained_frame p t s s' :
  onTaskDrained p t s = Some s' ->
  scheduler s' = scheduler s /\
  forall p' t', (p', t') <> (p, t) ->
    pendingTaskFree s' !! (p', t') = pendingTaskFree s !! (p', t') /\
    forall d', holds s' d' p' t' = holds s d' p' t'.
Proof.
  unfold onTaskDrained. destruct (pendingTaskFree s !! (p, t)) as [d|] eqn:E; [|by intros [= <-]].
  destruct (GetMemoryService _ _) as [m|] eqn:Em; intros Hq.
  - apply bind_Some in Hq as (x & Ex & Hq). destruct x as [ok m']. injection Hq as <-.
    split; [done|]. intros p' t' Hn. simpl. rewrite lookup_delete_ne by congruence. split; [done|].
    intros d'. etransitivity; [apply (holds_put_same _ d m m'); [done|]|done].
    pose proof (DeallocateTask_blocks _ _ _ _ p' t' Ex) as B. simpl in B. by rewrite decide_False in B.
  - injection Hq as <-. split; [done|]. intros p' t' Hn. simpl.
    by rewrite lookup_delete_ne by congruence.
Qed.

(** The task that is drained loses its memory on the device recorded for it. *)
Lemma onTaskDrained_frees p t d s s' :
  pendingTaskFree s !! (p, t) = Some d -> onTaskDrained p t s = Some s' -> holds s' d p t = None.
Proof.
  unfold onTaskDrained. intros ->. destruct (GetMemoryService _ _) as [m|] eqn:Em; intros Hq.
  - apply bind_Some in Hq as (x & Ex & Hq). destruct x as [ok m']. injection Hq as <-.
    rewrite holds_put, decide_True by done.
    pose proof (DeallocateTask_blocks _ _ _ _ p t Ex) as B. simpl in B. by rewrite decide_True in B.
  - injection Hq as <-. unfold holds. simpl. unfold GetMemoryService in Em. simpl in Em. by rewrite Em.
Qed.

(** A call of the scheduler that reports no task, or one. *)
Lemma with_scheduler_none x evs s s' :
  Scheduler.trace x = Scheduler.trace (scheduler s) ++ evs -> drains evs = [] ->
  with_scheduler (Scheduler.Ret x) s = Some s' -> s' = set_scheduler x s.
Proof.
  intros E D. unfold with_scheduler. rewrite E, drop_app_length. unfold drains in D. rewrite D.
  by intros [= <-].
Qed.

Lemma with_scheduler_one x evs p t s s' :
  Scheduler.trace x = Scheduler.trace (scheduler s) ++ evs -> drains evs = [(p, t)] ->
  with_scheduler (Scheduler.Ret x) s = Some s' -> onTaskDrained p t (set_scheduler x s) = Some s'.
Proof.
  intros E D. unfold with_scheduler. rewrite E, drop_app_length. unfold drains in D. rewrite D. done.
Qed.


(** ** The end of a process on a device *)

(** Fields the helpers of the end of a process leave alone. *)
Definition same_core s s' : Prop :=
  scheduler s' = scheduler s /\ pendingTaskFree s' = pendingTaskFree s /\
  memoryServices s' = memoryServices s /\ taskInfoStore s' = taskInfoStore s.

Lemma DeleteBound_core d b s s' : DeleteBound sys d b s = Some s' -> same_core s s'.
Proof.
  unfold DeleteBound. intros (c & _ & (x & _ & Hq)%bind_Some)%bind_Some. destruct x as [r c'].
  by injection Hq as <-.
Qed.

Lemma AddBound_core d b s x : AddBound sys d b s = Some x -> same_core s x.2.
Proof.
  unfold AddBound. intros (c & _ & (y & _ & Hq)%bind_Some)%bind_Some. destruct y as [r c'].
  by injection Hq as <-.
Qed.

Lemma ReleaseSharedMemoryHandle_core fd s : same_core s (ReleaseSharedMemoryHandle fd s).
Proof. unfold ReleaseSharedMemoryHandle. by destruct (0 <=? fd). Qed.

Lemma same_core_trans s1 s2 s3 : same_core s1 s2 -> same_core s2 s3 -> same_core s1 s3.
Proof. intros (? & ? & ? & ?) (? & ? & ? & ?). split_and!; congruence. Qed.

Lemma ReleaseAll_core d pid s : same_core s (ReleaseAllSharedMemoryHandlesForProcess d pid s).
Proof.
  unfold ReleaseAllSharedMemoryHandlesForProcess.
  destruct (sharedMemoryHandles s !! (d, pid)) as [hm|]; [|done].
  assert (forall l s0, same_core s0 (foldl (fun s k => match hm !! k with
    | Some h => ReleaseSharedMemoryHandle (h_fd h) s | None => s end) s0 l)) as F.
  { induction l as [|k l IH]; intros s0; [done|]. simpl. eapply same_core_trans; [|apply IH].
    destruct (hm !! k); [apply ReleaseSharedMemoryHandle_core|done]. }
  eapply same_core_trans; [|apply F]. done.
Qed.

Lemma same_core_holds s s' : same_core s s' -> forall d pid t, holds s' d pid t = holds s d pid t.
Proof. intros (_ & _ & E & _) d pid t. unfold holds. by rewrite E. Qed.

Lemma free_entry_spec running pid d tb s s' :
  free_entry sys running pid d s tb = Some s' ->
  scheduler s' = scheduler s /\ pendingTaskFree s' = pendingTaskFree s /\
  taskInfoStore s' = taskInfoStore s /\ forall d' p' t', holds s' d' p' t' =
    if decide (d' = d /\ (p', t') = (pid, tb.1) /\ tb.1 ∉ running) then None else holds s d' p' t'.
Proof.
  unfold free_entry. intros (s1 & E1 & E2)%bind_Some.
  assert (same_core s1 s') as C
    by (destruct (in_devices sys d); [by eapply DeleteBound_core|by injection E2 as <-]).
  assert (scheduler s1 = scheduler s /\ pendingTaskFree s1 = pendingTaskFree s /\
    taskInfoStore s1 = taskInfoStore s /\ forall d' p' t', holds s1 d' p' t' =
    if decide (d' = d /\ (p', t') = (pid, tb.1) /\ tb.1 ∉ running) then None else holds s d' p' t') as (H1 & H2 & H3 & H4).
  { destruct (GetMemoryService d s) as [m|] eqn:Em.
    - case_bool_decide as Hr.
      + injection E1 as <-. split_and!; [done..|]. intros. by rewrite decide_False by tauto.
      + apply bind_Some in E1 as (x & Ex & Hq). destruct x as [ok m']. injection Hq as <-.
        split_and!; [done..|]. intros d' p' t'.
        pose proof (DeallocateTask_blocks _ _ _ _ p' t' Ex) as B. simpl in B.
        rewrite holds_put. destruct (decide (d' = d)) as [->|].
        * rewrite B. repeat case_decide; try tauto. unfold holds. unfold GetMemoryService in Em. by rewrite Em.
        * by rewrite decide_False by tauto.
    - injection E1 as <-. split_and!; [done..|]. intros d' p' t'. case_decide as Z; [|done].
      destruct Z as (-> & _). unfold holds. unfold GetMemoryService in Em. by rewrite Em. }
  destruct (C) as (C1 & C2 & _ & C4). split_and!; [congruence..|]. intros. by rewrite (same_core_holds _ _ C).
Qed.

Lemma if_either {B} (P P' R : Prop) `{!Decision P, !Decision P', !Decision R} (x : option B) :
  (R <-> P \/ P') ->
  (if decide P then None else if decide P' then None else x) = if decide R then None else x.
Proof. intros E. repeat case_decide; tauto. Qed.

Lemma free_entries_spec running pid d es s s' :
  foldl (fun o tb => s ← o; free_entry sys running pid d s tb) (Some s) es = Some s' ->
  scheduler s' = scheduler s /\ pendingTaskFree s' = pendingTaskFree s /\
  taskInfoStore s' = taskInfoStore s /\ forall d' p' t', holds s' d' p' t' =
    if decide (d' = d /\ p' = pid /\ t' ∈ es.*1 /\ t' ∉ running) then None else holds s d' p' t'.
Proof.
  revert s. induction es as [|tb es IH]; intros s; simpl.
  { intros [= <-]. split_and!; [done..|]. intros. rewrite decide_False; [done|].
    intros (_ & _ & ?%not_elem_of_nil & _). done. }
  destruct (free_entry sys running pid d s tb) as [s1|] eqn:E1.
  - intros (H1 & H2 & H3 & H4)%IH. apply free_entry_spec in E1 as (F1 & F2 & F3 & F4).
    split_and!; [congruence..|]. intros d' p' t'. rewrite H4, F4.
    apply if_either. rewrite elem_of_cons. split; [|intros [?|(? & [= -> ->] & ?)]; tauto].
    intros (-> & -> & [->|?] & ?); tauto.
  - intros Hq. exfalso. clear - Hq. by induction es.
Qed.

(** What the end of process [pid] on device [d] does. *)
Record ended pid d s s' : Prop := {
  en_sched : exists es, scheduler s' = stopped pid d es (scheduler s);
  en_pending p' t' : pendingTaskFree s' !! (p', t') =
    if decide (p' = pid /\ t' ∈ Scheduler.GetRunningTaskIds pid (scheduler s)) then Some d
    else pendingTaskFree s !! (p', t');
  en_tasks : exists ts, flat (taskInfoStore s') = forget pid d ts (flat (taskInfoStore s));
  en_holds d' p' t' : holds s' d' p' t' =
    if decide (d' = d /\ p' = pid /\ is_Some (flat (taskInfoStore s) !! (pid, d, t')) /\
               t' ∉ Scheduler.GetRunningTaskIds pid (scheduler s))
    then None else holds s d' p' t'
}.

Lemma pending_insert pid d (ts : list Z) m p' t' :
  foldl (fun m t => <[(pid, t) := d]> m) m ts !! (p', t') =
  if decide (p' = pid /\ t' ∈ ts) then Some d else (m : gmap (Z * Z) Z) !! (p', t').
Proof.
  revert m. induction ts as [|t ts IH]; intros m; simpl.
  - rewrite decide_False; [done|]. by intros [_ ?%not_elem_of_nil].
  - rewrite IH. destruct (decide (p' = pid /\ t' ∈ t :: ts)) as [[-> [->|Hin]%elem_of_cons]|Hn].
    + case_decide; [done|]. apply lookup_insert_eq.
    + by rewrite decide_True.
    + rewrite elem_of_cons in Hn. rewrite decide_False by tauto.
      apply lookup_insert_ne. intros [= <- <-]. tauto.
Qed.

Lemma HandleProcessDeInit_ended pid d s s' :
  HandleProcessDeInit sys pid d s = Some s' -> ended pid d s s'.
Proof.
  unfold HandleProcessDeInit, stop_process.
  destruct (TaskStore.extractTaskIdsWithBound _ _ _) as [es store] eqn:E.
  apply extract_facts in E as (_ & F & Hm & Hm').
  intros (s5 & E5 & [= <-])%bind_Some.
  apply free_entries_spec in E5 as (S5 & P5 & T5 & H5).
  destruct (ReleaseAll_core d pid s5) as (S6 & P6 & M6 & T6). split.
  - exists es. simpl. by rewrite S6, S5.
  - intros p' t'. simpl. rewrite P6, P5. apply pending_insert.
  - exists es.*1. simpl. rewrite T6, T5. exact F.
  - intros d' p' t'.
    assert (holds (set_pidSet (pidSet (ReleaseAllSharedMemoryHandlesForProcess d pid s5) ∖ {[pid]})
      (ReleaseAllSharedMemoryHandlesForProcess d pid s5)) d' p' t' = holds s5 d' p' t') as ->
      by (unfold holds; simpl; by rewrite M6).
    rewrite H5. assert (t' ∈ es.*1 <-> is_Some (flat (taskInfoStore s) !! (pid, d, t'))) as Hes.
    { split.
      - intros ([t b] & -> & Hin)%list_elem_of_fmap. destruct (Hm t b Hin) as (i & Ei & _). by eexists.
      - intros [i Ei]. exact (list_elem_of_fmap_2 fst _ _ (Hm' t' i Ei)). }
    repeat case_decide; try done; tauto.
Qed.


(** ** The requests of other processes *)

(** Nothing of process [pid] changes, but for the entries that go. *)
Definition still pid s s' : Prop :=
  own_le pid (scheduler s) (scheduler s') /\
  forall t, pendingTaskFree s' !! (pid, t) = pendingTaskFree s !! (pid, t) /\
    forall d, holds s' d pid t = holds s d pid t.

Lemma own_le_refl pid (x : Scheduler.sched Q) : own_le pid x x.
Proof. intros r e; eauto. Qed.

Lemma still_trans pid s1 s2 s3 : still pid s1 s2 -> still pid s2 s3 -> still pid s1 s3.
Proof.
  intros [T1 H1] [T2 H2]. split; [by eapply own_le_trans|]. intros t.
  destruct (H1 t) as [E1 F1], (H2 t) as [E2 F2]. split; [congruence|]. intros d. by rewrite F2.
Qed.

Lemma same_core_still pid s s' : same_core s s' -> still pid s s'.
Proof.
  intros C. pose proof (same_core_holds _ _ C) as Hh. destruct C as (E1 & E2 & _).
  split; [rewrite E1; apply own_le_refl|]. intros t. by rewrite E2.
Qed.

Lemma still_refl pid s : still pid s s.
Proof. by apply same_core_still. Qed.

Lemma put_memory_still pid d m m' s :
  GetMemoryService d s = Some m -> (forall t, blocks_of pid t m' = blocks_of pid t m) ->
  still pid s (put_memory d m' s).
Proof.
  intros E Hb. split; [apply own_le_refl|]. intros t. split; [done|]. intros d'.
  by apply (holds_put_same s d m m').
Qed.

Lemma HandleAllocate_still pid p' d t size fm s x :
  p' <> pid -> HandleAllocate sys p' d t size fm s = Some x -> still pid s x.2.
Proof.
  intros Hp. unfold HandleAllocate. destruct (GetMemoryService d s) as [m|] eqn:Em.
  2: { intros Hq. injection Hq as <-. apply still_refl. }
  intros (y & Ey & Hq)%bind_Some. destruct y as [off m1].
  assert (forall t', blocks_of pid t' m1 = blocks_of pid t' m) as B
    by (intros t'; by apply (allocation_blocks _ _ _ _ _ _ pid t' (not_eq_sym Hp) Ey)).
  pose proof (put_memory_still pid d m m1 s Em B) as S1.
  destruct (off =? _); [by injection Hq as <-|].
  destruct (CreateSharedMemory _ _ _) as [[c|i] f].
  - apply bind_Some in Hq as (z & Ez & Hq). destruct z as [ok m2]. injection Hq as <-. simpl.
    eapply still_trans; [exact S1|].
    eapply still_trans; [by apply (same_core_still pid _ (tick (set_memfdService f (put_memory d m1 s))))|].
    eapply (put_memory_still pid d m1 m2); [by apply lookup_insert_eq|].
    intros t'. by apply (DeallocateAddress_blocks _ _ _ _ pid t' (not_eq_sym Hp) Ez).
  - injection Hq as <-. simpl. eapply still_trans; [exact S1|]. apply same_core_still.
    by destruct (_ =? -1).
Qed.

Lemma HandleDeallocate_still pid p' d a s x :
  p' <> pid -> HandleDeallocate sys p' d a s = Some x -> still pid s x.2.
Proof.
  intros Hp. unfold HandleDeallocate. destruct (GetMemoryService d s) as [m|] eqn:Em.
  2: { intros Hq. injection Hq as <-. apply still_refl. }
  destruct (match TryResolveSharedMemoryHandle d p' a s with Some _ => _ | None => _ end)
    as [offset s1] eqn:E1.
  assert (same_core s s1) as C.
  { unfold TryResolveSharedMemoryHandle in E1. destruct (sharedMemoryHandles s !! (d, p')) as [hm|]; simpl in E1.
    - destruct (hm !! a) as [h|]; simpl in E1; injection E1 as _ <-; [|done].
      eapply same_core_trans; [|apply ReleaseSharedMemoryHandle_core]. done.
    - by injection E1 as _ <-. }
  intros (y & Ey & Hq)%bind_Some. destruct y as [ok m']. injection Hq as <-. simpl.
  eapply still_trans; [apply same_core_still, C|]. apply (put_memory_still pid d m m').
  - unfold GetMemoryService in *. destruct C as (_ & _ & -> & _). done.
  - intros t'. by apply (DeallocateAddress_blocks _ _ _ _ pid t' (not_eq_sym Hp) Ey).
Qed.

Lemma set_scheduler_still pid x s : own_le pid (scheduler s) x -> still pid s (set_scheduler x s).
Proof. intros T. by split. Qed.

Lemma HandleInferenceRequest_still pid p' d t r s x :
  p' <> pid -> in_i32 p' ->
  HandleInferenceRequest sys p' d (inferenceRequest p' t r) s = Some x -> still pid s x.2.
Proof.
  intros Hp Hi. unfold HandleInferenceRequest. intros Hq.
  repeat case_match; try (injection Hq as <-; apply still_refl); try done.
  apply bind_Some in Hq as (s' & E & Hq). injection Hq as <-. simpl.
  destruct (Scheduler.AddScheduler _ _ _ _) as [y| | |] eqn:Ea; try done.
  apply AddScheduler_calm in Ea as [T (evs & Et & D)].
  apply (with_scheduler_none y evs) in E; [|done..]. subst s'. apply set_scheduler_still.
  intros r' e' Ee. destruct (T pid r' e' Ee) as (e & Ee' & Hd). exists e. split; [|done].
  rewrite entry_set_entry in Ee'. rewrite decide_False in Ee'; [done|]. intros [= Hpid _]. apply Hp.
  rewrite Hpid. simpl. rewrite swrap_uwrap by done. symmetry. apply swrap_small; [done|].
  exact Hi.
Qed.

Lemma TaskInit_still pid p' d t b size config s x :
  TaskInit sys p' d t b size config s = Some x -> still pid s x.2.
Proof.
  unfold TaskInit. destruct (negb _); [intros Hq; injection Hq as <-; apply still_refl|].
  destruct (GetMemoryService d s) as [m|] eqn:Em; [|intros Hq; injection Hq as <-; apply still_refl].
  intros (m1 & E1 & Hq)%bind_Some. set (s1 := put_memory d m1 s) in *.
  assert (still pid s s1) as S1.
  { apply (put_memory_still pid d m m1 s Em). intros t'. unfold blocks_of.
    destruct (_ <? _); [by rewrite (OptimizeMemory_tasks _ _ E1)|by injection E1 as <-]. }
  clearbody s1. clear E1. revert Hq. destruct (_ <? _); [intros Hq; by injection Hq as <-|].
  destruct (deviceBlocked _ _ _); intros Hq; [by injection Hq as <-|].
  apply bind_Some in Hq as (c & _ & Hq). apply bind_Some in Hq as (can & _ & Hq).
  destruct (negb can); [by injection Hq as <-|]. apply bind_Some in Hq as (y & Ea & Hq).
  apply AddBound_core in Ea. destruct y as [r s2]. pose proof (same_core_still pid _ _ Ea) as S2.
  pose proof (still_trans _ _ _ _ S1 S2) as S. simpl in S. destruct (negb _); [by injection Hq as <-|].
  destruct (TaskStore.addTask _ _ _ _ _) as [[|] store].
  - injection Hq as <-. eapply still_trans; [exact S|]. split; [apply own_le_refl|done].
  - apply bind_Some in Hq as (s3 & E3 & Hq). injection Hq as <-. eapply still_trans; [exact S|].
    by eapply same_core_still, DeleteBound_core.
Qed.

Lemma TaskDeInit_still pid p' d t s s' : TaskDeInit sys d t p' s = Some s' -> still pid s s'.
Proof.
  unfold TaskDeInit. destruct (TaskStore.removeTask p' d t (taskInfoStore s)) as [[b|] store].
  2: { intros Hq. injection Hq as <-. apply still_refl. }
  set (s2 := set_scheduler _ _). assert (still pid s s2) as S2.
  { split; [|done]. apply StopTaskInference_le. }
  clearbody s2. destruct (in_devices sys d); intros Hq.
  - eapply still_trans; [exact S2|]. by eapply same_core_still, DeleteBound_core.
  - by injection Hq as <-.
Qed.

Lemma ended_still pid p' d s s' : p' <> pid -> ended p' d s s' -> still pid s s'.
Proof.
  intros Hp [(es & Es) Ep _ Eh]. split; [rewrite Es; apply stopped_le|]. intros t. split.
  - rewrite Ep. rewrite decide_False; [done|]. naive_solver.
  - intros d'. rewrite Eh. rewrite decide_False; [done|]. naive_solver.
Qed.

Lemma onClientDisconnected_still pid p' s s' :
  p' <> pid -> onClientDisconnected sys p' s = Some s' -> still pid s s'.
Proof.
  intros Hp. unfold onClientDisconnected. intros (s1 & E & Hq)%bind_Some. injection Hq as <-.
  apply (foldl_option _ (still pid)) in E as (s0 & [= <-] & S);
    [|apply still_refl|apply still_trans|].
  - eapply still_trans; [exact S|]. by apply same_core_still.
  - intros s0 d s2 _ E0. eapply ended_still; [done|]. by apply HandleProcessDeInit_ended.
Qed.

End Free.
