(* ===== verification/DxrtServiceThms.v ===== *)
(** * The service: properties

    Bounds against tasks, the memory of a process that ends while its requests run, the
    devices after the first, and the transfers the service lets through. *)

From Stdlib Require Import ZArith Lia.
From S2P Require Import Prelude AllocatorClass Memory MemoryService Scheduler SchedulerSpec SchedulerCredit.
From S2P Require Import MemoryInstance SchedPolicies IpcServer DeviceTables DxrtService DxrtServiceInv.
From S2P Require Import DxrtServiceBounds DxrtServiceSched DxrtServiceFree.
Import DxrtService MemFd.

Section Kept.
Context {A Q : Type} `{!AllocOps A} `{!Scheduler.Policy Q}.
Context (sys : system).
Implicit Types (s : service A Q) (pid d t : Z).

(** The client a request comes from. *)
Definition process_of (q : request) : option Z :=
  match q with
  | Allocate pid _ _ _ _ | FreeBuffer pid _ _ | Inference pid _ _ _ | TaskInitRequest pid _ _ _ _ _
  | TaskDeInitRequest pid _ _ | DMARequest _ pid _ _ _ _ _ | Disconnected pid => Some pid
  | Response _ _ | DMACompleted => None
  end.

(** A request of another process, or a response of a device. *)
Definition others pid (q : request) : Prop :=
  match process_of q with Some p => in_i32 p /\ p <> pid | None => True end.

(** The blocks stay, and device [d] is to free them, as long as an entry is left. *)
Definition kept pid t d (B : option (gset Z)) s : Prop :=
  (pendingTaskFree s !! (pid, t) = Some d /\ holds s d pid t = B) \/
  Scheduler.task_drained pid t (scheduler s) = true.

Lemma still_kept pid t d B s s' : still pid s s' -> kept pid t d B s -> kept pid t d B s'.
Proof.
  intros [T Hs] [[E <-]|D]; [left|right].
  - destruct (Hs t) as [-> F]. by rewrite F.
  - by eapply task_drained_le.
Qed.

(** A response frees the memory of a task only with the last entry of the task. *)
Lemma device_response_kept pid t d B d0 resp s s' :
  device_response sys d0 resp s = Some s' -> kept pid t d B s -> kept pid t d B s'.
Proof.
  unfold device_response. intros E K.
  destruct (Scheduler.FinishJobs _ _ _ _) as [x| | |] eqn:Ef; try done.
  destruct (Scheduler.entry (i32 (Scheduler.rs_proc_id resp)) (i32 (Scheduler.rs_req_id resp)) (scheduler s))
    as [e|] eqn:En.
  - destruct (FinishJobs_found _ _ _ _ _ _ _ _ eq_refl eq_refl En Ef) as (T & evs & b & Et & D & Hd & _).
    assert (own_le pid (scheduler s) x) as Tp by (intros r e'; apply T).
    destruct b.
    + eapply (with_scheduler_one x evs) in E; [|done..].
      apply onTaskDrained_frame in E as [Es Hf]. simpl in Es.
      destruct (decide ((pid, t) = (i32 (Scheduler.rs_proc_id resp), i32 (Scheduler.task_id (Scheduler.data e))))) as [Z|Hn].
      * right. rewrite Es. injection Z as -> ->. by apply Hd.
      * destruct (Hf pid t Hn) as [F1 F2]. destruct K as [[K1 K2]|K].
        -- left. rewrite F1, F2. done.
        -- right. rewrite Es. by eapply task_drained_le.
    + eapply (with_scheduler_none x evs) in E; [|done..]. subst s'.
      eapply still_kept; [|exact K]. by apply set_scheduler_still.
  - apply FinishJobs_missing in Ef as [T (evs & Et & D)]; [|done].
    eapply (with_scheduler_none x evs) in E; [|done..]. subst s'.
    eapply still_kept; [|exact K]. apply set_scheduler_still. intros r e'. apply T.
Qed.

Lemma perform_kept pid t d B q s s' :
  others pid q -> perform sys q s = Some s' -> kept pid t d B s -> kept pid t d B s'.
Proof.
  intros O E. destruct q; simpl in *.
  8: { injection E as <-. apply still_kept, same_core_still. unfold DecrementPendingDMA. by case_match. }
  7: by apply device_response_kept with (1 := E).
  all: destruct O as [Hi Hp]; apply still_kept.
  - apply fmap_Some in E as (x & E & ->). by eapply HandleAllocate_still.
  - apply fmap_Some in E as (x & E & ->). by eapply HandleDeallocate_still.
  - apply fmap_Some in E as (x & E & ->). by eapply HandleInferenceRequest_still.
  - apply fmap_Some in E as (x & E & ->). by eapply TaskInit_still.
  - by eapply TaskDeInit_still.
  - injection E as <-. apply same_core_still. unfold HandleDMA. repeat case_match; done.
  - by eapply onClientDisconnected_still.
Qed.

Lemma performs_kept pid t d B l s s' :
  Forall (others pid) l -> performs sys l s = Some s' -> kept pid t d B s -> kept pid t d B s'.
Proof.
  intros O. revert s. induction O as [|q l O _ IH]; intros s; simpl; [by intros [= <-]|].
  intros (s1 & E & E')%bind_Some K. eapply IH; [done|]. by eapply perform_kept.
Qed.

(** The response to the last request of a task that is to be freed. *)
Lemma device_response_frees pid t d d0 resp r e s s' :
  pendingTaskFree s !! (pid, t) = Some d ->
  Scheduler.entry pid r (scheduler s) = Some e ->
  i32 (Scheduler.rs_proc_id resp) = pid -> i32 (Scheduler.rs_req_id resp) = r ->
  i32 (Scheduler.task_id (Scheduler.data e)) = t ->
  (forall r' e', Scheduler.entry pid r' (scheduler s) = Some e' -> r' <> r ->
     Scheduler.task_id (Scheduler.data e') <> u32 t) ->
  device_response sys d0 resp s = Some s' -> holds s' d pid t = None.
Proof.
  unfold device_response. intros Hp En <- <- <- Ho E.
  destruct (Scheduler.FinishJobs _ _ _ _) as [x| | |] eqn:Ef; try done.
  destruct (FinishJobs_found _ _ _ _ _ _ _ _ eq_refl eq_refl En Ef) as (T & evs & b & Et & D & _ & Hb).
  rewrite (Hb eq_refl Ho) in D. eapply (with_scheduler_one x evs) in E; [|done..].
  by eapply onTaskDrained_frees; [|exact E].
Qed.

(** ** The devices after the first *)

(** What the end of the process on the first device leaves for the others. *)
Record doomed pid d t r (c : Scheduler.RequestEntry) (L : list Z) s : Prop := {
  dm_all : cancelled_all pid (scheduler s);
  dm_entry : Scheduler.entry pid r (scheduler s) = Some c;
  dm_pending : pendingTaskFree s !! (pid, t) = Some 0;
  dm_memory : holds s d pid t = None \/
              (d ∈ L /\ is_Some (flat (taskInfoStore s) !! (pid, d, t)))
}.

Lemma doomed_step pid d t r c d0 L s s' :
  Scheduler.state c = Scheduler.CANCELLED ->
  doomed pid d t r c (d0 :: L) s -> ended pid d0 s s' -> doomed pid d t r c L s'.
Proof.
  intros Hc [C E P M] [(es & Es) Ep (ts & Et) Eh].
  pose proof (cancelled_none_running pid _ C) as R. split.
  - rewrite Es. apply stopped_cancelled.
  - rewrite Es. rewrite (stopped_entry pid d0 es _ r c E) by congruence.
    f_equal. destruct c. simpl in Hc. by subst.
  - rewrite Ep, R. rewrite decide_False; [done|]. intros [_ ?%not_elem_of_nil]. done.
  - destruct M as [M|[Hin Hf]].
    + left. rewrite Eh, M. by case_decide.
    + apply elem_of_cons in Hin as [->|Hin].
      * left. rewrite Eh, R, decide_True; [done|]. split_and!; [done..|apply not_elem_of_nil].
      * destruct (decide (d = d0)) as [->|Hne].
        -- left. rewrite Eh, R, decide_True; [done|]. split_and!; [done..|apply not_elem_of_nil].
        -- right. split; [done|]. rewrite Et, forget_lookup, decide_False; [done|].
           intros [[= ->] _]. done.
Qed.

Lemma fold_None {X Y} (f : X -> Y -> option Y) l :
  foldl (fun o x => y ← o; f x y) None l = None.
Proof. by induction l. Qed.

(** Once the process ended on the first device nothing of it runs, and what is kept
    for the responses stays kept while it ends on the others. *)
Lemma kept_later pid t B L s s' :
  0 ∉ L -> cancelled_all pid (scheduler s) ->
  foldl (fun o d => s ← o; HandleProcessDeInit sys pid d s) (Some s) L = Some s' ->
  kept pid t 0 B s -> kept pid t 0 B s'.
Proof.
  revert s. induction L as [|d L IH]; intros s Hd C; simpl; [by intros [= <-]|].
  apply not_elem_of_cons in Hd as [Hne Hd].
  destruct (HandleProcessDeInit sys pid d s) as [s1|] eqn:E; [|by rewrite fold_None].
  apply HandleProcessDeInit_ended in E as [(es & Es) Ep _ Eh].
  intros Hq K. apply (IH s1 Hd); [rewrite Es; apply stopped_cancelled|done|].
  destruct K as [[K1 K2]|K].
  - left. rewrite Ep, Eh, (cancelled_none_running pid _ C). rewrite !decide_False; [done|..].
    + by intros [? _].
    + by intros [_ ?%not_elem_of_nil].
  - right. rewrite Es. eapply task_drained_le; [apply stopped_le|done].
Qed.

Lemma doomed_end pid d t r c L s s' :
  Scheduler.state c = Scheduler.CANCELLED ->
  doomed pid d t r c L s ->
  foldl (fun o d => s ← o; HandleProcessDeInit sys pid d s) (Some s) L = Some s' ->
  doomed pid d t r c [] s'.
Proof.
  intros Hc. revert s. induction L as [|d0 L IH]; intros s D; simpl; [by intros [= <-]|].
  destruct (HandleProcessDeInit sys pid d0 s) as [s1|] eqn:E; [|by rewrite fold_None].
  apply IH. eapply doomed_step; [done|done|]. by eapply HandleProcessDeInit_ended.
Qed.

(** The end of a client: the first device, then the others. *)
Lemma onClientDisconnected_first pid s s' :
  onClientDisconnected sys pid s = Some s' -> 0 < devices sys ->
  exists s1 s2, ended pid 0 s s1 /\
    foldl (fun o d => s ← o; HandleProcessDeInit sys pid d s) (Some s1)
      (seqZ 1 (devices sys - 1)) = Some s2 /\
    s' = set_pidSet (pidSet s2 ∖ {[pid]}) s2.
Proof.
  intros (s2 & E & Hq)%bind_Some Hd. injection Hq as <-.
  rewrite (seqZ_cons 0) in E by done. simpl in E.
  destruct (HandleProcessDeInit sys pid 0 s) as [s1|] eqn:E1; [|by rewrite fold_None in E].
  exists s1, s2. split; [by eapply HandleProcessDeInit_ended|]. by rewrite Z.sub_1_r.
Qed.

(** The device of a registered task other than the first: its memory goes at once. *)
Lemma later_device_freed pid d t r s s' e i :
  onClientDisconnected sys pid s = Some s' -> 1 <= d < devices sys ->
  flat (taskInfoStore s) !! (pid, d, t) = Some i ->
  Scheduler.entry pid r (scheduler s) = Some e -> Scheduler.state e = Scheduler.RUNNING ->
  i32 (Scheduler.task_id (Scheduler.data e)) = t ->
  holds s' d pid t = None /\ Scheduler.entry pid r (scheduler s') = Some (cancelled e) /\
  pendingTaskFree s' !! (pid, t) = Some 0.
Proof.
  intros E Hd Ef Ee Hr Ht.
  destruct (onClientDisconnected_first pid s s' E) as (s1 & s2 & [(es & Es) Ep (ts & Et) Eh] & E2 & ->);
    [lia|].
  apply (doomed_end pid d t r (cancelled e)) in E2 as [_ E2 P2 M2]; [|done|].
  - split; [|by split]. destruct M2 as [M2|[?%not_elem_of_nil _]]; done.
  - split.
    + rewrite Es. apply stopped_cancelled.
    + rewrite Es. apply stopped_entry; [done|by rewrite Hr].
    + rewrite Ep, decide_True; [done|]. split; [done|]. apply elem_of_running. eauto.
    + right. split; [apply elem_of_seqZ; lia|]. rewrite Et, forget_lookup, decide_False; [by eexists|].
      intros [[= ?] _]. lia.
Qed.

End Kept.

(** ** A concrete service *)

Definition ex_system : system := {|
  devices := 2;
  mem_addr := fun d => (d + 1) * 2 ^ 32;
  deviceBlocked := fun _ _ => false;
  boundCommand := fun _ _ _ _ => 0;
  osCreate := fun n _ => Mapped (10 + Z.of_nat n) (2 ^ 40 + Z.of_nat n * 2 ^ 20);
  dmaChannels := fun _ => 3;
  npuRunReq := fun _ _ _ => 0
|}.

Definition ex_config : IpcServer.TaskStaticConfig :=
  IpcServer.mkConfig 0 0 0 0 0 0 0 64 64 0 0 [0; 0; 0] 0.
Definition ex_meminfo : Memory.meminfo := Memory.mkMeminfo 0 0 0 0.
Definition ex_request (r : Z) : Scheduler.request_acc :=
  Scheduler.mkReq r 0 ex_meminfo ex_meminfo 0 0 0 0 0 0 [] 0 0 0 0 0 0 0 0 0.
Definition ex_response (p r : Z) : Scheduler.response :=
  Scheduler.mkResp r 100 0 0 0 0 p 0 0 0 0 0 0 0.

Definition ex_new : service Memory.memory Fifo.fifo :=
  new_service ex_system (Fifo.new 2)
    (<[0 := MemoryService.new_service 0 1048576 0]> {[1 := MemoryService.new_service 0 1048576 1]}).

(** Process 7 has task 3 on device 0 and task 4 on device 1; both run. *)
Definition ex_calls : list request :=
  [TaskInitRequest 7 0 3 0 4096 ex_config; Allocate 7 0 3 4096 false; Inference 7 0 3 (ex_request 1);
   TaskInitRequest 7 1 4 0 4096 ex_config; Allocate 7 1 4 8192 false; Inference 7 1 4 (ex_request 2)].
Definition ex_running : service Memory.memory Fifo.fifo :=
  Eval vm_compute in default ex_new (performs ex_system ex_calls ex_new).

(** Process 7 ends; process 8 then uses device 0. *)
Definition ex_disconnected : service Memory.memory Fifo.fifo :=
  Eval vm_compute in default ex_new (onClientDisconnected ex_system 7 ex_running).
Definition ex_others : list request :=
  [TaskInitRequest 8 0 5 0 4096 ex_config; Allocate 8 0 5 4096 false; Inference 8 0 5 (ex_request 1);
   Response 0 (ex_response 8 1)].
Definition ex_later : service Memory.memory Fifo.fifo :=
  Eval vm_compute in default ex_new (performs ex_system ex_others ex_disconnected).
Definition ex_drained : service Memory.memory Fifo.fifo :=
  Eval vm_compute in default ex_new (device_response ex_system 0 (ex_response 7 1) ex_later).

(** ** Properties *)

(** C18. When a client ends (the process is ended on every device in turn) while one of
    its tasks runs: the memory the task has on the first device survives every later
    request of other processes and every response of a device, until no request of the
    task is left, and is freed by the response to the last one.  This is so for the
    first device only: what a registered task that runs holds on another device is
    freed at once, while its request, now cancelled, is still with the device. *)
Theorem running_memory_kept {A Q} `{!AllocOps A} `{!Scheduler.Policy Q} (sys : system)
    (pid t : Z) (s s1 : service A Q) :
  0 < devices sys -> t ∈ Scheduler.GetRunningTaskIds pid (scheduler s) ->
  onClientDisconnected sys pid s = Some s1 ->
  (forall l s2, Forall (others pid) l -> performs sys l s1 = Some s2 ->
     Scheduler.task_drained pid t (scheduler s2) = false ->
     holds s2 0 pid t = holds s 0 pid t /\
     forall d0 resp r e s3,
       Scheduler.entry pid r (scheduler s2) = Some e -> Scheduler.task_id (Scheduler.data e) = u32 t ->
       (forall r' e', Scheduler.entry pid r' (scheduler s2) = Some e' -> r' <> r ->
          Scheduler.task_id (Scheduler.data e') <> u32 t) ->
       i32 (Scheduler.rs_proc_id resp) = pid -> i32 (Scheduler.rs_req_id resp) = r ->
       device_response sys d0 resp s2 = Some s3 -> holds s3 0 pid t = None) /\
  (forall d r e i, 1 <= d < devices sys -> flat (taskInfoStore s) !! (pid, d, t) = Some i ->
     Scheduler.entry pid r (scheduler s) = Some e -> Scheduler.state e = Scheduler.RUNNING ->
     i32 (Scheduler.task_id (Scheduler.data e)) = t ->
     holds s1 d pid t = None /\ Scheduler.entry pid r (scheduler s1) = Some (cancelled e)).
Proof.
  intros Hd Ht E. split.
  - intros l s2 O E2 D.
    destruct (onClientDisconnected_first sys pid s s1 E Hd) as (s0 & s4 & [(es & Es) Ep _ Eh] & E4 & E1).
    assert (kept pid t 0 (holds s 0 pid t) s1) as K.
    { rewrite E1. apply (kept_later sys pid t _ (seqZ 1 (devices sys - 1)) s0 s4); [|..|done|].
      - rewrite elem_of_seqZ. lia.
      - rewrite Es. apply stopped_cancelled.
      - left. rewrite Ep, decide_True by done. rewrite Eh, decide_False by tauto. done. }
    destruct (performs_kept sys pid t 0 _ l s1 s2 O E2 K) as [[K1 K2]|K2]; [|congruence].
    split; [done|]. intros d0 resp r e s3 Ee Het Ho Hp Hr E3.
    eapply (device_response_frees sys pid t 0 d0 resp r e s2); try done.
    rewrite Het, swrap_uwrap by done. apply elem_of_running in Ht as (r0 & e0 & _ & _ & <-).
    apply swrap_small; [done|]. by apply swrap_range.
  - intros d r e i Hd1 Hi Ee Hr Het.
    by destruct (later_device_freed sys pid d t r s s1 e i E Hd1 Hi Ee Hr Het) as (H1 & H2 & _).
Qed.

Lemma running_memory_kept_witness :
  holds ex_later 0 7 3 = Some {[0]} /\ holds ex_later 0 7 3 = holds ex_running 0 7 3 /\
  holds ex_drained 0 7 3 = None.
Proof.
  destruct (running_memory_kept ex_system 7 3 ex_running ex_disconnected) as [H _].
  - vm_compute. reflexivity.
  - assert (Scheduler.GetRunningTaskIds 7 (scheduler ex_running) = [3; 4]) as -> by (vm_compute; reflexivity). left.
  - vm_compute. reflexivity.
  - destruct (H ex_others ex_later) as [E F].
    { repeat constructor; vm_compute; congruence. }
    { vm_compute. reflexivity. }
    { vm_compute. reflexivity. }
    split; [vm_compute; reflexivity|]. split; [exact E|].
    apply (F 0 (ex_response 7 1) 1
      (Scheduler.mkEntry (inferenceRequest 7 3 (ex_request 1)) Scheduler.CANCELLED 0)).
    + vm_compute. reflexivity.
    + reflexivity.
    + intros r' e' Er Hne. assert (Scheduler.reqs (scheduler ex_later) !! 7 =
        Some (<[1 := Scheduler.mkEntry (inferenceRequest 7 3 (ex_request 1)) Scheduler.CANCELLED 0]>
               {[2 := Scheduler.mkEntry (inferenceRequest 7 4 (ex_request 2)) Scheduler.CANCELLED 1]})) as Em
        by (vm_compute; reflexivity).
      unfold Scheduler.entry in Er. rewrite Em in Er. simpl in Er.
      rewrite lookup_insert_ne in Er by done.
      apply lookup_singleton_Some in Er as [_ <-]. vm_compute. discriminate.
    + reflexivity.
    + reflexivity.
    + vm_compute. reflexivity.
Defined.

(** After any requests, no device has fewer counts of a bound than registered tasks
    that use it, nor more if the driver accepts to delete bounds, and at most three
    bounds are counted. *)
Theorem bounds_match_tasks {A Q} `{!AllocOps A} `{!Scheduler.Policy Q} (sys : system) (q : Q) mems
    (l : list request) (s : service A Q) (d b c : Z) (row : list Z) :
  performs sys l (new_service sys q mems) = Some s ->
  in_devices sys d = true -> boundCounts s !! Z.to_nat d = Some row ->
  BoundManager.count_at b row = Some c ->
  uses d b (flat (taskInfoStore s)) <= c /\
  (deletes_accepted sys -> c = uses d b (flat (taskInfoStore s))) /\
  BoundManager.GetBoundTypeCount row <= 3.
Proof.
  intros E Hd El Hc. pose proof (performs_bounds sys l _ s (new_service_bounds sys q mems) E) as B.
  destruct (B d row Hd El) as (_ & H3 & Hr). destruct (Hr b c Hc) as [[_ H1] H2]. by split_and!.
Qed.

Lemma bounds_match_tasks_witness :
  uses 0 0 (flat (taskInfoStore ex_running)) = 1 /\ 1 <= 1 /\
  BoundManager.GetBoundTypeCount [1; 0; 0; 0; 0; 0; 0] <= 3.
Proof.
  destruct (bounds_match_tasks ex_system (Fifo.new 2)
    (<[0 := MemoryService.new_service 0 1048576 0]> {[1 := MemoryService.new_service 0 1048576 1]})
    ex_calls ex_running 0 0 1 [1; 0; 0; 0; 0; 0; 0]) as (H1 & H2 & H3).
  - vm_compute. reflexivity.
  - reflexivity.
  - vm_compute. reflexivity.
  - reflexivity.
  - pose proof (H2 (fun _ _ _ => eq_refl)) as E. rewrite <- E in H1.
    split; [symmetry; exact E|]. split; [exact H1|exact H3].
Defined.

(** When a client disconnects, a task that runs on a device other than the first
    loses its memory there at once, while its request is still with the device; the
    memory kept for later is that of device 0. *)
Theorem later_devices_freed_early {A Q} `{!AllocOps A} `{!Scheduler.Policy Q} (sys : system)
    (pid d t r : Z) (s s' : service A Q) e i :
  onClientDisconnected sys pid s = Some s' -> 1 <= d < devices sys ->
  flat (taskInfoStore s) !! (pid, d, t) = Some i ->
  Scheduler.entry pid r (scheduler s) = Some e -> Scheduler.state e = Scheduler.RUNNING ->
  i32 (Scheduler.task_id (Scheduler.data e)) = t ->
  holds s' d pid t = None /\ Scheduler.entry pid r (scheduler s') = Some (cancelled e) /\
  pendingTaskFree s' !! (pid, t) = Some 0.
Proof. apply later_device_freed. Qed.

Lemma later_devices_freed_early_witness :
  holds ex_running 1 7 4 = Some {[0]} /\ holds ex_disconnected 1 7 4 = None /\
  Scheduler.entry 7 2 (scheduler ex_disconnected) =
    Some (Scheduler.mkEntry (inferenceRequest 7 4 (ex_request 2)) Scheduler.CANCELLED 1).
Proof.
  split; [vm_compute; reflexivity|].
  destruct (later_devices_freed_early ex_system 7 1 4 2 ex_running ex_disconnected
    (Scheduler.mkEntry (inferenceRequest 7 4 (ex_request 2)) Scheduler.RUNNING 1)
    (TaskStore.mkTaskInfo 0 4096 ex_config)) as (H1 & H2 & _).
  - vm_compute. reflexivity.
  - simpl. lia.
  - vm_compute. reflexivity.
  - vm_compute. reflexivity.
  - reflexivity.
  - reflexivity.
  - split; [exact H1|exact H2].
Defined.

(** A transfer the service lets through lies in the block of shared memory it names,
    unless the end of the range passes the largest 64-bit number: then the range may
    start before the block. *)
Theorem dma_range {A Q} (sys : system) (s : service A Q) (rd : bool)
    (pid seq d bk off size : Z) (h : SharedMemHandle) :
  TryGetSharedMemoryHandle d pid (u64 bk) s = Some h ->
  0 < h_ptr h -> 0 <= h_size h -> h_ptr h + h_size h < 2 ^ 64 ->
  (forall x s', 0 <= off -> 0 < size -> off + size < 2 ^ 64 ->
     HandleDMA sys rd pid seq d bk off size s = (0, Some x, s') ->
     dma_ptr x = h_ptr h + off /\ h_ptr h <= dma_ptr x /\ dma_ptr x + size <= h_ptr h + h_size h) /\
  (forall k, 0 < k <= h_ptr h -> k < 2 ^ 32 -> in_devices sys d = true -> recoveryInProgress s = false ->
     exists x s', HandleDMA sys rd pid seq d bk (2 ^ 64 - k) k s = (0, Some x, s') /\
       dma_ptr x = h_ptr h - k /\ dma_size x = k).
Proof.
  intros E Hp Hz Hh. unfold HandleDMA. rewrite E. split.
  - intros x s' Ho Hs Hw. destruct (size =? 0); [done|]. destruct (negb _); [done|].
    destruct (recoveryInProgress s); [done|]. destruct (h_ptr h =? 0); [done|]. simpl.
    rewrite (uwrap_small 64 (off + size)) by lia.
    destruct (Z.ltb_spec (h_size h) (off + size)) as [|Hle]; [done|].
    intros Hq. injection Hq as <- _. simpl. rewrite uwrap_small by lia. lia.
  - intros k Hk Hk2 -> ->. destruct (Z.eqb_spec k 0); [lia|]. simpl.
    destruct (Z.eqb_spec (h_ptr h) 0); [lia|]. simpl.
    replace (2 ^ 64 - k + k) with (2 ^ 64) by lia. change (u64 (2 ^ 64)) with 0.
    destruct (Z.ltb_spec (h_size h) 0); [lia|]. eexists _, _. split; [reflexivity|]. simpl. split.
    + unfold uwrap. replace (h_ptr h + (2 ^ 64 - k)) with (h_ptr h - k + 1 * 2 ^ 64) by lia.
      rewrite Z_mod_plus_full. apply Z.mod_small. lia.
    + apply uwrap_small. lia.
Qed.

Definition ex_handle : SharedMemHandle := mkHandle 11 (2 ^ 40 + 2 ^ 20) 4096 0.

Lemma dma_range_witness :
  (exists x s', HandleDMA ex_system true 7 1 0 1 4000 96 ex_running = (0, Some x, s') /\
     dma_ptr x + 96 <= h_ptr ex_handle + 4096) /\
  exists x s', HandleDMA ex_system true 7 1 0 1 (2 ^ 64 - 512) 512 ex_running = (0, Some x, s') /\
    dma_ptr x = h_ptr ex_handle - 512.
Proof.
  destruct (dma_range ex_system ex_running true 7 1 0 1 4000 96 ex_handle) as [H1 _].
  - vm_compute. reflexivity.
  - reflexivity.
  - discriminate.
  - reflexivity.
  - destruct (dma_range ex_system ex_running true 7 1 0 1 0 0 ex_handle) as [_ H2];
      [vm_compute; reflexivity|reflexivity|discriminate|reflexivity|]. split.
    + eexists _, _. split; [vm_compute; reflexivity|]. eapply (H1 _ _); [lia|lia|lia|vm_compute; reflexivity].
    + destruct (H2 512) as (x & s' & E & Hx & _); [simpl; lia|lia|reflexivity|vm_compute; reflexivity|].
      exists x, s'. by split.
Defined.
