(* ===== verification/ServiceRecovery.v ===== *)
(** * The recovery of a device in the service

    The threads of the service that meet when a device fails: the response threads and the event
    thread of each device (class [DeviceDispatcher], lib/device_pool/device_dispatcher.cpp), the
    thread that handles the requests of the clients, here its DMA requests, the threads that do
    the transfers ([ServiceDevice], dxrt_service/service_device.cpp), and the counter and the
    flag they share ([DxrtServiceV2], dxrt_service/dxrt_service_v2.cpp).

    A step is an access to shared state or a call of the driver; a call that blocks is two steps.
    What the driver answers, the handle a DMA request resolves to and whether the time limit of the
    wait has passed are arguments of the action.  The service is past its constructor, so that
    callbacks and adapter are set.  Log messages, usage timers and dump files are left out. *)

From Stdlib Require Import ZArith Lia.
From S2P Require Import Prelude Scheduler DxrtService.

Module ServiceRecovery.
Import DxrtService.

(** ** The driver *)

Definition kResponseChannels : Z := 3.
Definition ENODATA : Z := 61.

Definition DXRT_EVENT_ERROR : Z := 1.
Definition DXRT_EVENT_NOTIFY_THROT : Z := 2.
Definition DXRT_EVENT_RECOVERY : Z := 3.
Definition DX_RECOVERY_STARTED : Z := 1.
Definition DX_RECOVERY_DONE : Z := 2.
Definition DX_RECOVERY_FW_HANG : Z := 3.
Definition DX_RECOVERY_PERM_FAIL : Z := 4.
Definition DX_RECOVERY_REASON_LINK_FLAP : Z := 1.
Definition DX_RECOVERY_REASON_CPU_RESET : Z := 3.
Definition ERR_NONE : Z := 0.
Definition ERR_PCIE_DMA_CH0_ABORT : Z := 400.

(** [dxrt_response_t] and [dx_pcie_dev_event_t]; the parts of the union are read for their types only. *)
Record response := mkResponse { req_id : Z; status : Z; proc_id : Z; dma_ch : Z }.
Record event := mkEvent { event_type : Z; err_code : Z; action_ : Z; reason : Z }.

Inductive server_err := S_ERR_DEVICE_EVENT_FAULT | S_ERR_DEVICE_RESPONSE_FAULT | S_ERR_NEED_DEV_RECOVERY.

Definition IsDriverOwnedRecoveryReason (r : Z) : bool :=
  (r =? DX_RECOVERY_REASON_LINK_FLAP) || (r =? DX_RECOVERY_REASON_CPU_RESET).

(** On an unsigned code: DMA failures, a timeout of the firmware, aborted channels. *)
Definition isRecoverable (code : Z) : bool :=
  ((100 <=? code) && (code <? 200)) || (code =? 300) || ((400 <=? code) && (code <? 500)).

(** ** What the threads do to the outside *)

Inductive call :=
| Got (r : response) | Respond (r : response) | Dump
| Notify (e : server_err) (code : Z) | Throttle
| SetRecovery (b : bool) | Waited (ok : bool) | Recovery | Recovered (ret : Z) | Identified (ret : Z) | ClearAllLoad
| Refused (code : Z) | Completed (x : dma) (ret : Z) | Sent (ret : Z).
Inductive thread := TEvent (d : Z) | TChannel (d c : Z) | THandler | TWorker (i : nat).
#[export] Instance thread_eq_dec : EqDecision thread.
Proof. solve_decision. Defined.

(** ** The points of the threads *)

(** [RecoveryBroadcastAndWait] *)
Inductive pause := PFlag | PBroadcast | PWait.

(** [EventLoop] and [TriggerRecovery] *)
Inductive epoint :=
| ETop | EPoll
| EPause (code : Z) (p : pause) | ECommand (ok : bool) | EInCommand (ok : bool) | EIdentify | EResume | EClear
| EFailed                                         (** about to abort *)
| EFatal | EInFatal                               (** an error without recovery *)
| EQuit                                           (** about to end the process *)
| EEnd.
Record ethread := mkEvents { e_at : epoint; driverOwnedRecoveryActive : bool }.

(** [ResponseLoop] *)
Inductive cpoint := CTop | CWait | CGot (r : response) | CFault (r : response) | CAssert (r : response) | CEnd.

(** A DMA request of a client. *)
Inductive kind := Write | Read | FaultRead.
Record request := mkRequest { o_kind : kind; o_pid : Z; o_seq : Z; o_dev : Z; o_offset : Z; o_size : Z }.

(** [HandleDMAWrite], [HandleDMARead] and, from [HFault] on, [HandleDMAReadWithFaultInjection]. *)
Inductive hpoint :=
| HIdle | HCheck (o : request) | HChecked (o : request) | HCount (o : request) (x : dma) | HPush (o : request) (x : dma)
| HFault (o : request) | HFaultRead (o : request) | HFaultPause (o : request) (rc : Z) (p : pause)
| HFaultCommand (rc : Z) | HFaultInCommand (rc : Z) | HFaultResume (rc : Z) | HFaultClear (rc : Z).

(** A thread of [_readHandlerQueue] or [_writeHandlerQueue]. *)
Inductive wpoint := WIdle | WTransfer (x : dma) | WDone (x : dma) (ret : Z) | WReply (x : dma) (ret : Z).
Record worker := mkWorker { w_dev : Z; w_read : bool; w_at : wpoint }.

Inductive fate := Running | Exited | Aborted.
#[export] Instance fate_eq_dec : EqDecision fate.
Proof. solve_decision. Defined.

(** [queue]: the queues of all devices. *)
Record state := mkState {
  events : Z -> ethread; channels : Z -> Z -> cpoint; stop : Z -> bool; isBlocked : Z -> bool;
  recoveryInProgress : bool; pendingDmaOperations : Z;
  handler : hpoint; queue : list (Z * dma); workers : list worker;
  trace : list (thread * call); fate_ : fate
}.

Definition set_event (d : Z) (t : ethread) (s : state) : state :=
  mkState (fun d' => if d' =? d then t else events s d') (channels s) (stop s) (isBlocked s) (recoveryInProgress s)
    (pendingDmaOperations s) (handler s) (queue s) (workers s) (trace s) (fate_ s).
Definition set_channel (d c : Z) (p : cpoint) (s : state) : state :=
  mkState (events s) (fun d' c' => if (d' =? d) && (c' =? c) then p else channels s d' c') (stop s) (isBlocked s)
    (recoveryInProgress s) (pendingDmaOperations s) (handler s) (queue s) (workers s) (trace s) (fate_ s).
Definition set_stop (d : Z) (s : state) : state :=
  mkState (events s) (channels s) (fun d' => (d' =? d) || stop s d') (isBlocked s) (recoveryInProgress s)
    (pendingDmaOperations s) (handler s) (queue s) (workers s) (trace s) (fate_ s).
Definition set_blocked (d : Z) (s : state) : state :=
  mkState (events s) (channels s) (stop s) (fun d' => (d' =? d) || isBlocked s d') (recoveryInProgress s)
    (pendingDmaOperations s) (handler s) (queue s) (workers s) (trace s) (fate_ s).
Definition set_recovery (b : bool) (s : state) : state :=
  mkState (events s) (channels s) (stop s) (isBlocked s) b (pendingDmaOperations s) (handler s) (queue s) (workers s)
    (trace s) (fate_ s).
Definition set_pending (n : Z) (s : state) : state :=
  mkState (events s) (channels s) (stop s) (isBlocked s) (recoveryInProgress s) n (handler s) (queue s) (workers s)
    (trace s) (fate_ s).
Definition set_handler (p : hpoint) (s : state) : state :=
  mkState (events s) (channels s) (stop s) (isBlocked s) (recoveryInProgress s) (pendingDmaOperations s) p (queue s)
    (workers s) (trace s) (fate_ s).
Definition set_queue (q : list (Z * dma)) (s : state) : state :=
  mkState (events s) (channels s) (stop s) (isBlocked s) (recoveryInProgress s) (pendingDmaOperations s) (handler s) q
    (workers s) (trace s) (fate_ s).
Definition set_worker (i : nat) (w : worker) (s : state) : state :=
  mkState (events s) (channels s) (stop s) (isBlocked s) (recoveryInProgress s) (pendingDmaOperations s) (handler s)
    (queue s) (<[i := w]> (workers s)) (trace s) (fate_ s).
Definition say (t : thread) (c : call) (s : state) : state :=
  mkState (events s) (channels s) (stop s) (isBlocked s) (recoveryInProgress s) (pendingDmaOperations s) (handler s)
    (queue s) (workers s) (trace s ++ [(t, c)]) (fate_ s).
Definition set_fate (f : fate) (s : state) : state :=
  mkState (events s) (channels s) (stop s) (isBlocked s) (recoveryInProgress s) (pendingDmaOperations s) (handler s)
    (queue s) (workers s) (trace s) f.

(** ** [RecoveryBroadcastAndWait] *)

(** The next point, or whether the transfers came to their end; [None] while the wait goes on. *)
Definition pause_step (t : thread) (code : Z) (timeout : bool) (p : pause) (s : state) : option ((pause + bool) * state) :=
  match p with
  | PFlag => Some (inl PBroadcast, say t (SetRecovery true) (set_recovery true s))
  | PBroadcast => Some (inl PWait, say t (Notify S_ERR_DEVICE_EVENT_FAULT code) s)
  | PWait =>
      if (0 <? pendingDmaOperations s) && negb timeout then None
      else let ok := pendingDmaOperations s =? 0 in Some (inr ok, say t (Waited ok) s)
  end.

(** ** [EventLoop] *)

(** An event: where the thread goes on, its flag, and what it tells. *)
Definition handle_event (active : bool) (ev : event) : epoint * bool * list call :=
  if event_type ev =? DXRT_EVENT_RECOVERY then
    if (action_ ev =? DX_RECOVERY_FW_HANG) || (action_ ev =? DX_RECOVERY_PERM_FAIL) then
      (EQuit, active, [Notify S_ERR_DEVICE_EVENT_FAULT (reason ev)])
    else if IsDriverOwnedRecoveryReason (reason ev) then
      let active := if action_ ev =? DX_RECOVERY_STARTED then true else if action_ ev =? DX_RECOVERY_DONE then false else active in
      if action_ ev =? DX_RECOVERY_STARTED then (EQuit, active, [Notify S_ERR_NEED_DEV_RECOVERY (reason ev)])
      else (ETop, active, [])
    else (ETop, active, [])
  else if (event_type ev =? DXRT_EVENT_ERROR) && negb (err_code ev =? ERR_NONE) then
    if isRecoverable (err_code ev) then
      if active then (EQuit, active, [Notify S_ERR_DEVICE_EVENT_FAULT (err_code ev)])
      else (EPause (err_code ev) PFlag, active, [])
    else (EFatal, active, [Notify S_ERR_DEVICE_EVENT_FAULT (err_code ev)])
  else if event_type ev =? DXRT_EVENT_NOTIFY_THROT then (ETop, active, [Throttle])
  else (ETop, active, []).

Definition says (t : thread) (l : list call) (s : state) : state := foldl (fun s c => say t c s) s l.

(** The driver answers the poll of device [d]. *)
Definition Poll (d ret : Z) (ev : event) (s : state) : state :=
  let t := events s d in
  if negb (ret =? 0) then set_event d (mkEvents ETop (driverOwnedRecoveryActive t)) s
  else
    let '(p, active, l) := handle_event (driverOwnedRecoveryActive t) ev in
    set_event d (mkEvents p active) (says (TEvent d) l s).

(** A step at any other point; [ret] answers a command of the driver. *)
Definition event_step (d : Z) (timeout : bool) (ret : Z) (s : state) : option state :=
  let t := events s d in
  let me := TEvent d in
  let goto p s := set_event d (mkEvents p (driverOwnedRecoveryActive t)) s in
  match e_at t with
  | ETop => Some (goto (if stop s d then EEnd else EPoll) s)
  | EPoll | EEnd => None
  | EPause code p =>
      '(x, s) ← pause_step me code timeout p s;
      Some (goto (match x with inl p => EPause code p | inr ok => ECommand ok end) s)
  | ECommand ok => Some (goto (EInCommand ok) (say me Recovery s))
  | EInCommand _ => Some (goto (if ret <? 0 then EFailed else EIdentify) (say me (Recovered ret) s))
  | EIdentify => Some (goto (if negb (ret =? 0) then EFailed else EResume) (say me (Identified ret) s))
  | EResume => Some (goto EClear (say me ClearAllLoad s))
  | EClear => Some (goto EQuit (say me (SetRecovery false) (set_recovery false s)))
  | EFailed => Some (goto EEnd (set_fate Aborted s))
  | EFatal => Some (goto EInFatal (say me Recovery s))
  | EInFatal => Some (goto EEnd (set_fate Aborted s))
  | EQuit => Some (goto EEnd (set_fate Exited s))
  end.

(** ** [ResponseLoop] *)

(** What is passed on to the scheduler. *)
Definition deliverable (r : response) : bool :=
  (status r =? 0) && ((0 <=? dma_ch r) && (dma_ch r <? kResponseChannels)) && (0 <? i32 (proc_id r)).

(** The driver answers the wait of a channel. *)
Definition Answer (d c ret : Z) (r : response) (s : state) : state :=
  if ret =? - ENODATA then set_channel d c CTop s
  else if negb (ret =? 0) then set_channel d c CTop s
  else set_channel d c (CGot r) (say (TChannel d c) (Got r) s).

Definition channel_step (d c : Z) (s : state) : option state :=
  let me := TChannel d c in
  match channels s d c with
  | CTop => Some (set_channel d c (if stop s d then CEnd else CWait) s)
  | CWait | CEnd => None
  | CGot r =>
      if stop s d then Some (set_channel d c CTop s)
      else if negb (status r =? 0) then
        if isRecoverable (u32 (status r)) then Some (set_channel d c CEnd (set_blocked d s))
        else Some (set_channel d c (CFault r) (say me Dump s))
      else if negb ((0 <=? dma_ch r) && (dma_ch r <? kResponseChannels)) then Some (set_channel d c CTop s)
      else if i32 (proc_id r) =? 0 then Some (set_channel d c CTop s)
      else if i32 (proc_id r) <? 0 then Some (set_channel d c CTop s)
      else Some (set_channel d c CTop (say me (Respond r) s))
  | CFault r => Some (set_channel d c (CAssert r) (set_blocked d (set_stop d s)))
  | CAssert r => Some (set_channel d c CEnd (set_fate Aborted (say me (Notify S_ERR_DEVICE_RESPONSE_FAULT (u32 (status r))) s)))
  end.

(** ** The DMA requests of the clients *)

Section Service.
(** [_devices.size()] *)
Context (devices : Z).

Definition valid_device (d : Z) : bool := (0 <=? d) && (d <? devices).

Definition is_read_of (k : kind) : bool := match k with Write => false | _ => true end.

(** The transfer of a request whose block has the handle [h]. *)
Definition resolve (o : request) (h : option SharedMemHandle) : option dma :=
  match h with
  | None => None
  | Some h =>
      if (h_ptr h =? 0) || (h_size h <? u64 (o_offset o + o_size o)) then None
      else Some (mkDma (is_read_of (o_kind o)) (u64 (h_ptr h + o_offset o))
                   (u32 (u64 (physAddrOffset h + o_offset o))) (u32 (o_size o)) (o_pid o) (o_seq o))
  end.

Definition refuse (code : Z) (s : state) : state := set_handler HIdle (say THandler (Refused code) s).

(** A request comes: the tests in front of the flag. *)
Definition Handle (o : request) (s : state) : state :=
  match o_kind o with
  | FaultRead =>
      if o_size o =? 0 then set_handler HIdle (say THandler (Sent 0) s)
      else if negb (valid_device (o_dev o)) then set_handler HIdle (say THandler (Sent (- EINVAL)) s)
      else set_handler (HFault o) s
  | _ =>
      if o_size o =? 0 then refuse 0 s
      else if negb (valid_device (o_dev o)) then refuse (- EINVAL) s
      else set_handler (HCheck o) s
  end.

(** A step of the handler; [h]: what [TryGetSharedMemoryHandle] finds, [ret]: an answer of the driver. *)
Definition handler_step (h : option SharedMemHandle) (timeout : bool) (ret : Z) (s : state) : option state :=
  match handler s with
  | HIdle => None
  | HCheck o => Some (if recoveryInProgress s then refuse (- Scheduler.EAGAIN) s else set_handler (HChecked o) s)
  | HChecked o => Some (match resolve o h with Some x => set_handler (HCount o x) s | None => refuse (- EINVAL) s end)
  | HCount o x => Some (set_handler (HPush o x) (set_pending (pendingDmaOperations s + 1) s))
  | HPush o x => Some (set_handler HIdle (set_queue (queue s ++ [(o_dev o, x)]) s))
  | HFault o =>
      Some (match resolve o h with
            | Some x => set_handler (HFaultRead o) s
            | None => set_handler HIdle (say THandler (Sent (- EINVAL)) s)
            end)
  | HFaultRead o =>
      Some (if negb (ret =? 0) then set_handler (HFaultPause o ret PFlag) s
            else set_handler HIdle (say THandler (Sent 0) s))
  | HFaultPause o rc p =>
      '(x, s) ← pause_step THandler ERR_PCIE_DMA_CH0_ABORT timeout p s;
      Some (set_handler (match x with inl p => HFaultPause o rc p | inr _ => HFaultCommand rc end) s)
  | HFaultCommand rc => Some (set_handler (HFaultInCommand rc) (say THandler Recovery s))
  | HFaultInCommand rc => Some (set_handler (HFaultResume rc) (say THandler (Recovered ret) s))
  | HFaultResume rc => Some (set_handler (HFaultClear rc) (say THandler ClearAllLoad s))
  | HFaultClear rc => Some (set_handler HIdle (say THandler (Sent rc) (say THandler (SetRecovery false) (set_recovery false s))))
  end.

(** ** The transfers *)

(** The first item of the queue of a worker. *)
Definition for_worker (w : worker) (x : Z * dma) : Prop := x.1 = w_dev w /\ is_read x.2 = w_read w.
#[export] Instance for_worker_dec w x : Decision (for_worker w x).
Proof. apply _. Defined.

Definition at_ (w : worker) (p : wpoint) : worker := mkWorker (w_dev w) (w_read w) p.

(** A step of a worker; [ret]: the answer to the transfer. *)
Definition worker_step (i : nat) (ret : Z) (s : state) : option state :=
  w ← workers s !! i;
  match w_at w with
  | WIdle =>
      '(j, x) ← list_find (for_worker w) (queue s);
      Some (set_worker i (at_ w (WTransfer x.2)) (set_queue (delete j (queue s)) s))
  | WTransfer x => Some (set_worker i (at_ w (WDone x ret)) s)
  | WDone x r =>
      let n := pendingDmaOperations s in
      Some (set_worker i (at_ w (WReply x r)) (set_pending (if 0 <? n then n - 1 else n) s))
  | WReply x r => Some (set_worker i (at_ w WIdle) (say (TWorker i) (Completed x r) s))
  end.

(** ** Steps *)

Inductive action :=
| APoll (d ret : Z) (ev : event) | AEvent (d : Z) (timeout : bool) (ret : Z)
| AAnswer (d c ret : Z) (r : response) | AChannel (d c : Z)
| ARequest (o : request) | AHandler (h : option SharedMemHandle) (timeout : bool) (ret : Z)
| AWorker (i : nat) (ret : Z) | AStop (d : Z).

Definition act (a : action) (s : state) : option state :=
  guard (fate_ s = Running);;
  match a with
  | APoll d ret ev =>
      match e_at (events s d) with EPoll => guard (valid_device d = true);; Some (Poll d ret ev s) | _ => None end
  | AEvent d timeout ret => guard (valid_device d = true);; event_step d timeout ret s
  | AAnswer d c ret r =>
      match channels s d c with CWait => guard (valid_device d = true);; Some (Answer d c ret r s) | _ => None end
  | AChannel d c => guard (valid_device d = true /\ 0 <= c < kResponseChannels);; channel_step d c s
  | ARequest o => match handler s with HIdle => Some (Handle o s) | _ => None end
  | AHandler h timeout ret => handler_step h timeout ret s
  | AWorker i ret => worker_step i ret s
  | AStop d => Some (set_stop d s)
  end.

Fixpoint acts (l : list action) (s : state) : option state :=
  match l with [] => Some s | a :: l => s' ← act a s; acts l s' end.

(** Four threads read and two write, for each device. *)
Definition device_workers (d : Z) : list worker :=
  replicate 4 (mkWorker d true WIdle) ++ replicate 2 (mkWorker d false WIdle).
Definition init : state :=
  mkState (fun _ => mkEvents ETop false) (fun _ _ => CTop) (fun _ => false) (fun _ => false) false 0 HIdle []
    (mjoin ((fun d => device_workers (Z.of_nat d)) <$> seq 0 (Z.to_nat devices))) [] Running.

End Service.

End ServiceRecovery.

(** * The recovery of a device in the service: theorems *)
Module ServiceRecoveryThms.
Import DxrtService ServiceRecovery.

Section Thms.
Context (devices : Z).

(** An invariant of the steps holds in every run. *)
Lemma runs_keep (P : state -> Prop) l s s' :
  (forall a s s', P s -> act devices a s = Some s' -> P s') -> P s -> acts devices l s = Some s' -> P s'.
Proof.
  intros Hstep. revert s. induction l as [|a l IH]; intros s Hs E; [by injection E as <-|].
  cbn in E. destruct (act devices a s) as [s1|] eqn:E1; [|done]. eapply IH; [|exact E]. by eapply Hstep.
Qed.

(** The parts of the state that a run's other parts do not touch. *)
Definition dma_part (s : state) : bool * Z * hpoint * list (Z * dma) * list worker :=
  (recoveryInProgress s, pendingDmaOperations s, handler s, queue s, workers s).

Lemma dma_part_says t l s : dma_part (says t l s) = dma_part s.
Proof. unfold says. revert s. induction l as [|c l IH]; intros s; [done|]. cbn. by rewrite IH. Qed.

Lemma Poll_dma d ret ev s : dma_part (Poll d ret ev s) = dma_part s.
Proof.
  unfold Poll. destruct (negb _); [done|]. destruct (handle_event _ _) as [[p a] l].
  exact (dma_part_says (TEvent d) l s).
Qed.

Lemma channel_dma d c s s' : channel_step d c s = Some s' -> dma_part s' = dma_part s.
Proof. unfold channel_step. intros E. split_hyp E; try done; by injection E as <-. Qed.

Lemma Answer_dma d c ret r s : dma_part (Answer d c ret r s) = dma_part s.
Proof. unfold Answer. by split_goal. Qed.

(** ** The counter *)

Definition busy (w : worker) : bool := match w_at w with WTransfer _ | WDone _ _ => true | _ => false end.
Definition pushing (h : hpoint) : bool := match h with HPush _ _ => true | _ => false end.
(** The transfers that were accepted and are not over. *)
Definition accepted (s : state) : Z :=
  Z.b2z (pushing (handler s)) + Z.of_nat (length (queue s)) + countb busy (workers s).
Definition exact (s : state) : Prop := pendingDmaOperations s = accepted s.

Lemma exact_same s s' : dma_part s' = dma_part s -> exact s -> exact s'.
Proof. unfold dma_part, exact, accepted. intros [= _ E2 E3 E4 E5] H. by rewrite E2, E3, E4, E5. Qed.

Lemma pause_step_part t code timeout p s x s' :
  pause_step t code timeout p s = Some (x, s') ->
  pendingDmaOperations s' = pendingDmaOperations s /\ handler s' = handler s /\ queue s' = queue s /\ workers s' = workers s.
Proof. unfold pause_step. intros E. destruct p; split_hyp E; try done; by injection E as _ <-. Qed.

Lemma event_part d timeout ret s s' :
  event_step d timeout ret s = Some s' ->
  pendingDmaOperations s' = pendingDmaOperations s /\ handler s' = handler s /\ queue s' = queue s /\ workers s' = workers s.
Proof.
  unfold event_step. intros E. destruct (e_at (events s d)); try done; try (by injection E as <-).
  destruct (pause_step _ _ _ _ _) as [[x s1]|] eqn:Ep; [|done]. injection E as <-. by apply pause_step_part in Ep.
Qed.

Lemma exact_part s s' :
  pendingDmaOperations s' = pendingDmaOperations s /\ handler s' = handler s /\ queue s' = queue s /\ workers s' = workers s ->
  exact s -> exact s'.
Proof. intros (E1 & E2 & E3 & E4). unfold exact, accepted. by rewrite E1, E2, E3, E4. Qed.

(** Only what the counter counts is pushed. *)
Lemma exact_handler h p (s : state) :
  handler s = h -> pushing h = false -> pushing p = false -> exact s -> exact (set_handler p s).
Proof. intros <- Hh Hp. unfold exact, accepted. cbn. by rewrite Hh, Hp. Qed.

Lemma exact_Handle o s : handler s = HIdle -> exact s -> exact (Handle devices o s).
Proof. intros Eh H. unfold Handle, refuse. split_goal; (eapply (exact_handler HIdle); [exact Eh|done|done|exact H]). Qed.

Lemma exact_handler_step h timeout ret s s' : handler_step h timeout ret s = Some s' -> exact s -> exact s'.
Proof.
  unfold handler_step, refuse. intros E H. destruct (handler s) as [|o|o|o x|o x|o|o|o rc p|rc|rc|rc|rc] eqn:Eh; try done.
  - injection E as <-. destruct (recoveryInProgress s); (eapply (exact_handler (HCheck o)); [exact Eh|done|done|exact H]).
  - injection E as <-. destruct (resolve o h); (eapply (exact_handler (HChecked o)); [exact Eh|done|done|exact H]).
  - injection E as <-. unfold exact, accepted in *. cbn. rewrite Eh in H. cbn in H. lia.
  - injection E as <-. unfold exact, accepted in *. cbn. rewrite Eh in H. cbn in H. rewrite length_app. cbn. lia.
  - injection E as <-. destruct (resolve o h); (eapply (exact_handler (HFault o)); [exact Eh|done|done|exact H]).
  - injection E as <-. destruct (negb _); (eapply (exact_handler (HFaultRead o)); [exact Eh|done|done|exact H]).
  - destruct (pause_step _ _ _ _ _) as [[x s1]|] eqn:Ep; [|done]. injection E as <-. apply pause_step_part in Ep.
    pose proof (exact_part _ _ Ep H) as H1. destruct Ep as (_ & Eh1 & _). rewrite Eh in Eh1.
    destruct x; (eapply (exact_handler (HFaultPause o rc p)); [exact Eh1|done|done|exact H1]).
  - injection E as <-. eapply (exact_handler (HFaultCommand rc)); [exact Eh|done|done|exact H].
  - injection E as <-. eapply (exact_handler (HFaultInCommand rc)); [exact Eh|done|done|exact H].
  - injection E as <-. eapply (exact_handler (HFaultResume rc)); [exact Eh|done|done|exact H].
  - injection E as <-. eapply (exact_handler (HFaultClear rc)); [exact Eh|done|done|exact H].
Qed.

Lemma exact_worker_step i ret s s' : worker_step i ret s = Some s' -> exact s -> exact s'.
Proof.
  unfold worker_step. intros E H. destruct (workers s !! i) as [w|] eqn:Ew; [|done]. cbn [mbind option_bind] in E.
  unfold exact, accepted in *. destruct (w_at w) as [|x|x r|x r] eqn:Ea.
  - destruct (list_find (for_worker w) (queue s)) as [[j x]|] eqn:Ef; [|done]. cbn in E. injection E as <-. cbn.
    rewrite (countb_insert _ _ _ w) by done. unfold busy at 2 3. rewrite Ea. cbn.
    apply list_find_Some in Ef as (Ej & _). rewrite length_delete by (by eexists). apply lookup_lt_Some in Ej. lia.
  - injection E as <-. cbn. rewrite (countb_insert _ _ _ w) by done. unfold busy at 2 3. rewrite Ea. cbn. lia.
  - injection E as <-. cbn. rewrite (countb_insert _ _ _ w) by done. unfold busy at 2 3. rewrite Ea. cbn.
    assert (0 < countb busy (workers s)) by (eapply (countb_pos _ _ w); [by eapply list_elem_of_lookup_2|unfold busy; by rewrite Ea]).
    assert (0 <= Z.b2z (pushing (handler s))) by (by destruct (pushing _)).
    destruct (Z.ltb_spec 0 (pendingDmaOperations s)); lia.
  - injection E as <-. cbn. rewrite (countb_insert _ _ _ w) by done. unfold busy at 2 3. rewrite Ea. cbn. lia.
Qed.

Lemma exact_act a s s' : exact s -> act devices a s = Some s' -> exact s'.
Proof.
  intros H E. unfold act in E. apply guard_Some in E as [_ E]. destruct a as [d ret ev|d timeout ret|d c ret r|d c|o|h timeout ret|i ret|d].
  - destruct (e_at _); try done. apply guard_Some in E as [_ [= <-]]. by eapply exact_same; [apply Poll_dma|].
  - apply guard_Some in E as [_ E]. by eapply exact_part; [by eapply event_part|].
  - destruct (channels s d c); try done. apply guard_Some in E as [_ [= <-]]. by eapply exact_same; [apply Answer_dma|].
  - apply guard_Some in E as [_ E]. by eapply exact_same; [by eapply channel_dma|].
  - destruct (handler s) eqn:Eh; try done. injection E as <-. by apply exact_Handle.
  - by eapply exact_handler_step.
  - by eapply exact_worker_step.
  - by injection E as <-.
Qed.

Lemma init_workers_idle w : w ∈ workers (init devices) -> w_at w = WIdle.
Proof.
  unfold init. cbn [workers]. intros Hw. apply list_elem_of_join in Hw as (l & Hw & Hl). apply list_elem_of_fmap in Hl as (d & -> & _).
  unfold device_workers in Hw. apply elem_of_app in Hw as [Hw|Hw]; apply elem_of_replicate_inv in Hw; by subst.
Qed.

Lemma exact_init : exact (init devices).
Proof.
  unfold exact, accepted. cbn [pendingDmaOperations handler queue init pushing Z.b2z length Z.of_nat].
  rewrite countb_zero; [done|]. intros w Hw. apply init_workers_idle in Hw. unfold busy. by rewrite Hw.
Qed.

(** The counter of the pending transfers is what it says, in every interleaving; so the guard against its underflow never acts. *)
Theorem dma_counter_exact l s : acts devices l (init devices) = Some s -> pendingDmaOperations s = accepted s.
Proof. apply (runs_keep exact); [intros a s1 s2; apply exact_act|apply exact_init]. Qed.

(** ** The flag *)

(** What a step tells, and the flag after it. *)
Definition tells (s s' : state) (l : list (thread * call)) : Prop :=
  trace s' = trace s ++ l /\
  ((recoveryInProgress s' = recoveryInProgress s /\ forall t b, (t, SetRecovery b) ∉ l) \/
   (exists t, (t, SetRecovery (recoveryInProgress s')) ∈ l /\ forall t' b, (t', SetRecovery b) ∈ l -> b = recoveryInProgress s')).

Lemma tells_nothing s s' : trace s' = trace s -> recoveryInProgress s' = recoveryInProgress s -> tells s s' [].
Proof. intros E1 E2. split; [by rewrite app_nil_r|]. left. split; [done|]. intros t b H. by apply elem_of_nil in H. Qed.

Lemma tells_one s s' t c :
  trace s' = trace s ++ [(t, c)] -> recoveryInProgress s' = recoveryInProgress s -> (forall b, c <> SetRecovery b) -> tells s s' [(t, c)].
Proof. intros E1 E2 H. split; [done|]. left. split; [done|]. intros t' b Hin. apply list_elem_of_singleton in Hin as [= _ <-]. by eapply H. Qed.

Lemma tells_set s s' t b : trace s' = trace s ++ [(t, SetRecovery b)] -> recoveryInProgress s' = b -> tells s s' [(t, SetRecovery b)].
Proof.
  intros E1 E2. split; [done|]. right. exists t. rewrite E2. split; [by left|].
  intros t' b' Hin. by apply list_elem_of_singleton in Hin as [= _ <-].
Qed.

Ltac tell := first [by eexists; apply tells_nothing|by eexists; eapply tells_one|by eexists; eapply tells_set].

Lemma pause_tells t code timeout p s x s' : pause_step t code timeout p s = Some (x, s') -> exists l, tells s s' l.
Proof. unfold pause_step. intros E. destruct p; [|  |destruct (_ && _); [done|]]; injection E as _ <-; tell. Qed.

Lemma Poll_tells d ret ev s : exists l, tells s (Poll d ret ev s) l.
Proof.
  unfold Poll. destruct (negb _); [tell|]. unfold handle_event. split_goal;
    repeat match goal with H : (_, _, _) = (_, _, _) |- _ => injection H as <- <- <- end; tell.
Qed.

Lemma event_tells d timeout ret s s' : event_step d timeout ret s = Some s' -> exists l, tells s s' l.
Proof.
  unfold event_step. intros E. destruct (e_at (events s d)); try done; try (injection E as <-; tell).
  destruct (pause_step _ _ _ _ _) as [[x s1]|] eqn:Ep; [|done]. injection E as <-. by apply pause_tells in Ep.
Qed.

Lemma Answer_tells d c ret r s : exists l, tells s (Answer d c ret r s) l.
Proof. unfold Answer. split_goal; tell. Qed.

Lemma channel_tells d c s s' : channel_step d c s = Some s' -> exists l, tells s s' l.
Proof. unfold channel_step. intros E. split_hyp E; try done; injection E as <-; tell. Qed.

Lemma Handle_tells o s : exists l, tells s (Handle devices o s) l.
Proof. unfold Handle, refuse. split_goal; tell. Qed.

Lemma handler_tells h timeout ret s s' : handler_step h timeout ret s = Some s' -> exists l, tells s s' l.
Proof.
  unfold handler_step, refuse. intros E. destruct (handler s) as [|o|o|o x|o x|o|o|o rc p|rc|rc|rc|rc] eqn:Eh; try done;
    try (injection E as <-; split_goal; tell).
  - destruct (pause_step _ _ _ _ _) as [[x s1]|] eqn:Ep; [|done]. injection E as <-. by apply pause_tells in Ep.
  - injection E as <-. exists [(THandler, SetRecovery false); (THandler, Sent rc)]. split; [cbn; by rewrite <- app_assoc|].
    right. exists THandler. cbn. split; [by left|]. intros t b Hin.
    apply elem_of_cons in Hin as [[= _ <-]|Hin]; [done|]. by apply list_elem_of_singleton in Hin.
Qed.

Lemma worker_tells i ret s s' : worker_step i ret s = Some s' -> exists l, tells s s' l.
Proof.
  unfold worker_step. intros E. destruct (workers s !! i) as [w|]; [|done]. cbn [mbind option_bind] in E.
  destruct (w_at w); [destruct (list_find _ _) as [[j x]|]; [|done]; cbn in E| | |]; injection E as <-; tell.
Qed.

Lemma act_tells a s s' : act devices a s = Some s' -> exists l, tells s s' l.
Proof.
  intros E. unfold act in E. apply guard_Some in E as [_ E]. destruct a as [d ret ev|d timeout ret|d c ret r|d c|o|h timeout ret|i ret|d].
  - destruct (e_at _); try done. apply guard_Some in E as [_ [= <-]]. apply Poll_tells.
  - apply guard_Some in E as [_ E]. by eapply event_tells.
  - destruct (channels s d c); try done. apply guard_Some in E as [_ [= <-]]. apply Answer_tells.
  - apply guard_Some in E as [_ E]. by eapply channel_tells.
  - destruct (handler s) eqn:Eh; try done. injection E as <-. apply Handle_tells.
  - by eapply handler_tells.
  - by eapply worker_tells.
  - injection E as <-. tell.
Qed.

Lemma acts_trace l s s' : acts devices l s = Some s' -> exists k, trace s' = trace s ++ k.
Proof.
  revert s. induction l as [|a l IH]; intros s E; [injection E as <-; exists []; by rewrite app_nil_r|].
  cbn in E. destruct (act devices a s) as [s1|] eqn:E1; [|done]. destruct (act_tells _ _ _ E1) as (k1 & Ek & _).
  destruct (IH _ E) as (k2 & ->). exists (k1 ++ k2). by rewrite Ek, app_assoc.
Qed.

(** No recovery has been called over. *)
Definition unresumed (s : state) : Prop := forall t, (t, SetRecovery false) ∉ trace s.
Definition flagged (s : state) : Prop :=
  unresumed s -> (exists t, (t, SetRecovery true) ∈ trace s) -> recoveryInProgress s = true.

Lemma unresumed_before s s' k : trace s' = trace s ++ k -> unresumed s' -> unresumed s.
Proof. intros E H t Ht. apply (H t). rewrite E. apply elem_of_app. by left. Qed.

Lemma flagged_act a s s' : flagged s -> act devices a s = Some s' -> flagged s'.
Proof.
  intros H E. destruct (act_tells _ _ _ E) as (k & Ek & [[Ef Hn]|(t & Ht & Hb)]).
  - intros Hu [t' Ht']. rewrite Ef. apply H; [by eapply unresumed_before|]. exists t'.
    rewrite Ek in Ht'. apply elem_of_app in Ht' as [?|Hk]; [done|]. by destruct (Hn _ _ Hk).
  - intros Hu _. destruct (recoveryInProgress s') eqn:Er; [done|]. destruct (Hu t). rewrite Ek. apply elem_of_app. by right.
Qed.

(** A thread that waits has told that it set the flag. *)
Definition paused (s : state) : Prop :=
  (forall d code, e_at (events s d) = EPause code PBroadcast \/ e_at (events s d) = EPause code PWait -> (TEvent d, SetRecovery true) ∈ trace s) /\
  (forall o rc, handler s = HFaultPause o rc PBroadcast \/ handler s = HFaultPause o rc PWait -> (THandler, SetRecovery true) ∈ trace s).

Lemma paused_same s s' k :
  trace s' = trace s ++ k -> (forall d, e_at (events s' d) = e_at (events s d) \/ forall code p, e_at (events s' d) = EPause code p -> p = PFlag) ->
  (handler s' = handler s \/ forall o rc p, handler s' = HFaultPause o rc p -> p = PFlag) -> paused s -> paused s'.
Proof.
  intros Ek He Hh [H1 H2]. split.
  - intros d code Hp. rewrite Ek. apply elem_of_app. left. destruct (He d) as [Ed|Hd]; [rewrite Ed in Hp; by eapply H1|].
    by destruct Hp as [Hp|Hp]; apply Hd in Hp.
  - intros o rc Hp. rewrite Ek. apply elem_of_app. left. destruct Hh as [Eh|Hd]; [rewrite Eh in Hp; by eapply H2|].
    by destruct Hp as [Hp|Hp]; apply Hd in Hp.
Qed.

Lemma says_parts t l s : events (says t l s) = events s /\ handler (says t l s) = handler s.
Proof. unfold says. revert s. induction l as [|c l IH]; intros s; [done|]. apply (IH (say t c s)). Qed.

Lemma handle_event_point active ev p a l :
  handle_event active ev = (p, a, l) ->
  (p = ETop /\ (l = [] \/ l = [Throttle])) \/ (p = EQuit /\ exists e code, l = [Notify e code]) \/
  (exists code, p = EPause code PFlag /\ isRecoverable code = true /\ l = []) \/
  (exists code, p = EFatal /\ isRecoverable code = false /\ l = [Notify S_ERR_DEVICE_EVENT_FAULT code]).
Proof.
  unfold handle_event. intros E. split_hyp E; injection E as <- <- <-;
    first [by left; split; auto|by right; left; eauto|by right; right; left; eauto|by right; right; right; eauto].
Qed.

Lemma paused_Poll d ret ev s : paused s -> paused (Poll d ret ev s).
Proof.
  destruct (Poll_tells d ret ev s) as (k & Ek & _). apply (paused_same _ _ k Ek).
  - intros d'. unfold Poll. destruct (negb _).
    + cbn. destruct (d' =? d); [by right|by left].
    + destruct (handle_event _ _) as [[p a] l] eqn:Eh. cbn. rewrite (proj1 (says_parts _ _ _)). destruct (d' =? d); [right|by left]. cbn.
      apply handle_event_point in Eh as [[-> _]|[[-> _]|[(c & -> & _)|(c & -> & _)]]]; intros code q; try done. by intros [= _ <-].
  - left. unfold Poll. destruct (negb _); [done|]. destruct (handle_event _ _) as [[p a] l]. apply (says_parts (TEvent d) l s).
Qed.

Lemma pause_step_events t code timeout p s x s' : pause_step t code timeout p s = Some (x, s') -> events s' = events s.
Proof. unfold pause_step. intros E. destruct p; split_hyp E; try done; by injection E as _ <-. Qed.

(** After its first step a thread in the pause has told. *)
Lemma pause_step_told t code timeout p s q s' :
  pause_step t code timeout p s = Some (inl q, s') -> (p = PFlag \/ (t, SetRecovery true) ∈ trace s) -> (t, SetRecovery true) ∈ trace s'.
Proof.
  unfold pause_step. intros E H. destruct p; [| |destruct (_ && _); [done|by injection E]]; injection E as _ <-; cbn;
    apply elem_of_app; [right; by left|]. destruct H as [H|H]; [done|by left].
Qed.

Lemma paused_event d timeout ret s s' : event_step d timeout ret s = Some s' -> paused s -> paused s'.
Proof.
  intros E H. destruct (event_tells _ _ _ _ _ E) as (k & Ek & _). unfold event_step in E.
  destruct (e_at (events s d)) as [| |code p|ok|ok| | | | | | | |] eqn:Ep; try done;
    try (injection E as <-; apply (paused_same s _ k Ek); [|by left|done]; intros d'; cbn; destruct (d' =? d); [right|by left]; cbn; split_goal; done).
  destruct (pause_step _ _ _ _ _) as [[x s1]|] eqn:Es; [|done]. injection E as <-. pose proof (pause_step_events _ _ _ _ _ _ _ Es) as Ee.
  pose proof (pause_step_part _ _ _ _ _ _ _ Es) as (_ & Eh & _). destruct x as [q|ok].
  - assert ((TEvent d, SetRecovery true) ∈ trace s1) as Ht.
    { eapply pause_step_told; [exact Es|]. destruct p; [by left|right; apply (proj1 H d code); rewrite Ep; auto..]. }
    destruct H as [H1 H2]. cbn in Ek. split.
    + intros d' c. cbn. destruct (Z.eqb_spec d' d) as [->|]; [intros _; exact Ht|]. rewrite Ee. intros Hp.
      rewrite Ek. apply elem_of_app. left. by eapply H1.
    + intros o rc Hp. cbn in *. rewrite Eh in Hp. rewrite Ek. apply elem_of_app. left. by eapply H2.
  - apply (paused_same s _ k Ek); [|by left|done]. intros d'. cbn. destruct (d' =? d); [by right|left; by rewrite Ee].
Qed.

Lemma paused_handler h timeout ret s s' : handler_step h timeout ret s = Some s' -> paused s -> paused s'.
Proof.
  intros E H. destruct (handler_tells _ _ _ _ _ E) as (k & Ek & _). unfold handler_step, refuse in E.
  destruct (handler s) as [|o|o|o x|o x|o|o|o rc p|rc|rc|rc|rc] eqn:Eh; try done;
    try (injection E as <-; apply (paused_same s _ k Ek);
      [intros d'; left; by split_goal|right; intros o' rc' p'; split_goal; cbn; try done; by intros [= _ _ <-]|done]).
  destruct (pause_step _ _ _ _ _) as [[x s1]|] eqn:Es; [|done]. injection E as <-. pose proof (pause_step_events _ _ _ _ _ _ _ Es) as Ee.
  destruct x as [q|ok].
  - assert ((THandler, SetRecovery true) ∈ trace s1) as Ht.
    { eapply pause_step_told; [exact Es|]. destruct p; [by left|right; apply (proj2 H o rc); rewrite Eh; auto..]. }
    split; [|intros o' rc' _; exact Ht]. intros d' c. cbn. rewrite Ee. intros Hp. cbn in Ek. rewrite Ek. apply elem_of_app. left. by eapply (proj1 H).
  - apply (paused_same s _ k Ek); [intros d'; left; cbn; by rewrite Ee|by right|done].
Qed.

Lemma paused_act a s s' : paused s -> act devices a s = Some s' -> paused s'.
Proof.
  intros H E. pose proof E as Et. apply act_tells in Et as (k & Ek & _). unfold act in E. apply guard_Some in E as [_ E].
  destruct a as [d ret ev|d timeout ret|d c ret r|d c|o|h timeout ret|i ret|d].
  - destruct (e_at _); try done. apply guard_Some in E as [_ [= <-]]. by apply paused_Poll.
  - apply guard_Some in E as [_ E]. by eapply paused_event.
  - destruct (channels s d c); try done. apply guard_Some in E as [_ [= <-]].
    apply (paused_same s _ k Ek); [intros d'; left|left|done]; unfold Answer; by split_goal.
  - apply guard_Some in E as [_ E]. apply (paused_same s _ k Ek); [intros d'; left|left|done];
      unfold channel_step in E; split_hyp E; try done; by injection E as <-.
  - destruct (handler s) eqn:Eh; try done. injection E as <-.
    apply (paused_same s _ k Ek); [intros d'; left|right; intros o' rc p|done]; unfold Handle, refuse; split_goal; done.
  - by eapply paused_handler.
  - apply (paused_same s _ k Ek); [intros d'; left|left|done]; unfold worker_step in E;
      (destruct (workers s !! i) as [w|]; [|done]); cbn [mbind option_bind] in E;
      (destruct (w_at w); [destruct (list_find _ _) as [[j x]|]; [|done]; cbn in E| | |]); by injection E as <-.
  - injection E as <-. by apply (paused_same s _ k Ek); [intros d'; left|left|].
Qed.

(** ** The rest during a recovery *)

(** The handler has read the flag and not yet handed over. *)
Definition past_check (h : hpoint) : bool := match h with HChecked _ | HCount _ _ | HPush _ _ => true | _ => false end.

Record quiet (s : state) : Prop := {
  q_flag : recoveryInProgress s = true;
  q_none : pendingDmaOperations s = 0;
  q_handler : past_check (handler s) = false;
  q_exact : exact s
}.

Lemma quiet_idle s : quiet s -> queue s = [] /\ forall w, w ∈ workers s -> busy w = false.
Proof.
  intros [_ Hn _ He]. unfold exact, accepted in He. pose proof (countb_nonneg busy (workers s)).
  assert (0 <= Z.b2z (pushing (handler s))) by (by destruct (pushing _)). split; [destruct (queue s); [done|cbn in *; lia]|].
  intros w Hw. destruct (busy w) eqn:Eb; [|done]. pose proof (countb_pos busy _ w Hw Eb). lia.
Qed.

Lemma quiet_handler h timeout ret s s' :
  quiet s -> handler_step h timeout ret s = Some s' -> pendingDmaOperations s' = 0 /\ past_check (handler s') = false.
Proof.
  intros [Hf Hn Hp _] E. unfold handler_step, refuse in E. destruct (handler s) as [|o|o|o x|o x|o|o|o rc p|rc|rc|rc|rc] eqn:Eh; try done;
    try (injection E as <-; split_goal; done).
  destruct (pause_step _ _ _ _ _) as [[x s1]|] eqn:Ep; [|done]. injection E as <-. apply pause_step_part in Ep as (Ep & _).
  split; [by rewrite <- Hn|by destruct x].
Qed.

Lemma quiet_worker i ret s s' :
  quiet s -> worker_step i ret s = Some s' -> pendingDmaOperations s' = 0 /\ past_check (handler s') = false.
Proof.
  intros Hq E. destruct (quiet_idle _ Hq) as [Hqu Hb]. destruct Hq as [_ Hn Hp _]. unfold worker_step in E.
  destruct (workers s !! i) as [w|] eqn:Ew; [|done]. cbn [mbind option_bind] in E.
  specialize (Hb w ltac:(by eapply list_elem_of_lookup_2)). unfold busy in Hb. rewrite Hqu in E.
  destruct (w_at w); try done. by injection E as <-.
Qed.

Lemma quiet_act a s s' : quiet s -> act devices a s = Some s' -> unresumed s' -> quiet s'.
Proof.
  intros Hq E Hu. destruct (act_tells _ _ _ E) as (k & Ek & Hk).
  assert (pendingDmaOperations s' = 0 /\ past_check (handler s') = false) as [Hn Hp].
  { pose proof Hq as [_ Hn Hp _]. unfold act in E. apply guard_Some in E as [_ E].
    destruct a as [d ret ev|d timeout ret|d c ret r|d c|o|h timeout ret|i ret|d].
    - destruct (e_at _); try done. apply guard_Some in E as [_ [= <-]].
      pose proof (Poll_dma d ret ev s) as Ed. injection Ed as _ E2 E3 _ _. by rewrite E2, E3.
    - apply guard_Some in E as [_ E]. apply event_part in E as (E2 & E3 & _). by rewrite E2, E3.
    - destruct (channels s d c); try done. apply guard_Some in E as [_ [= <-]].
      pose proof (Answer_dma d c ret r s) as Ed. injection Ed as _ E2 E3 _ _. by rewrite E2, E3.
    - apply guard_Some in E as [_ E]. apply channel_dma in E. injection E as _ E2 E3 _ _. by rewrite E2, E3.
    - destruct (handler s) eqn:Eh; try done. injection E as <-. unfold Handle, refuse. split_goal; done.
    - by eapply quiet_handler.
    - by eapply quiet_worker.
    - by injection E as <-. }
  constructor; [|done|done|by eapply exact_act; [apply q_exact|]].
  destruct Hk as [[Ef _]|(t & Ht & _)]; [by rewrite Ef; apply q_flag|].
  destruct (recoveryInProgress s') eqn:Er; [done|]. destruct (Hu t). rewrite Ek. apply elem_of_app. by right.
Qed.

Lemma quiet_acts l s s' : quiet s -> acts devices l s = Some s' -> unresumed s' -> quiet s'.
Proof.
  revert s. induction l as [|a l IH]; intros s Hq E Hu; [by injection E as <-|].
  cbn in E. destruct (act devices a s) as [s1|] eqn:E1; [|done]. destruct (acts_trace _ _ _ E) as (k & Ek).
  eapply IH; [|exact E|exact Hu]. eapply quiet_act; [exact Hq|exact E1|]. by eapply unresumed_before.
Qed.

(** C19. When the wait of a recovery ends with success while the handler of the requests is not between its look at the flag and
    the queue of the transfers, then, until some recovery is called over, no transfer is counted, queued or running,
    on any device, whatever the threads do: the driver gets the command on a quiet system, but for the
    read with fault injection, which is not counted. *)
Theorem recovery_quiet d code timeout ret l1 s0 s1 l2 s2 :
  acts devices l1 (init devices) = Some s0 -> e_at (events s0 d) = EPause code PWait ->
  act devices (AEvent d timeout ret) s0 = Some s1 -> e_at (events s1 d) = ECommand true ->
  past_check (handler s0) = false -> acts devices l2 s1 = Some s2 -> unresumed s2 ->
  pendingDmaOperations s2 = 0 /\ queue s2 = [] /\ (forall w x, w ∈ workers s2 -> w_at w <> WTransfer x).
Proof.
  intros E0 Ep E1 Ec Hh E2 Hu.
  assert (exact s0) as Hx by (eapply (runs_keep exact); [intros a s s'; apply exact_act|apply exact_init|exact E0]).
  assert (flagged s0) as Hf.
  { eapply (runs_keep flagged); [intros a s s'; apply flagged_act| |exact E0]. intros _ [t Ht]. by apply elem_of_nil in Ht. }
  assert (paused s0) as [Hp _].
  { eapply (runs_keep paused); [intros a s s'; apply paused_act| |exact E0]. split; [intros d' c [H|H]; done|intros o rc [H|H]; done]. }
  destruct (acts_trace _ _ _ E2) as (k2 & Ek2). destruct (act_tells _ _ _ E1) as (k1 & Ek1 & _).
  pose proof (unresumed_before _ _ _ Ek2 Hu) as Hu1. pose proof (unresumed_before _ _ _ Ek1 Hu1) as Hu0.
  assert (quiet s1) as Hq.
  { specialize (Hf Hu0 ltac:(eexists; by apply (Hp d code); right)). pose proof (exact_act _ _ _ Hx E1) as Hx1.
    unfold act in E1. apply guard_Some in E1 as [_ E1]. apply guard_Some in E1 as [_ E1]. unfold event_step in E1. rewrite Ep in E1.
    unfold pause_step in E1. destruct (_ && _); [done|]. injection E1 as <-. cbn in Ec. rewrite Z.eqb_refl in Ec. cbn in Ec.
    destruct (Z.eqb_spec (pendingDmaOperations s0) 0) as [En|]; [|by injection Ec]. by constructor. }
  pose proof (quiet_acts _ _ _ Hq E2 Hu) as Hq2. destruct (quiet_idle _ Hq2) as [H1 H2].
  split; [by apply q_none|]. split; [done|]. intros w x Hw Hx2. specialize (H2 w Hw). unfold busy in H2. by rewrite Hx2 in H2.
Qed.

(** ** The protocol *)

Definition is_throttle (c : call) : bool := match c with Throttle => true | _ => false end.
(** What a thread told, without the notices of throttling. *)
Definition history (t : thread) (s : state) : list call :=
  omap (fun x => if decide (x.1 = t) then if is_throttle x.2 then None else Some x.2 else None) (trace s).

(** The calls of a recovery: [ret] and [r] are the answers to the command and to the identification. *)
Definition recovery_calls (code : Z) (ok : bool) (ret r : Z) : list call :=
  [SetRecovery true; Notify S_ERR_DEVICE_EVENT_FAULT code; Waited ok; Recovery; Recovered ret; Identified r; ClearAllLoad;
   SetRecovery false].

(** The first [n] calls of a recovery whose answers are as [P] says. *)
Definition in_recovery (n : nat) (P : Z -> Z -> Prop) (h : list call) : Prop :=
  exists code ok ret r, h = take n (recovery_calls code ok ret r) /\ isRecoverable code = true /\ P ret r.
Definition any (_ _ : Z) : Prop := True.
Definition answered (ret _ : Z) : Prop := 0 <= ret.
Definition identified (ret r : Z) : Prop := 0 <= ret /\ r = 0.

(** What the event thread of a device may have told; a recovery goes on only after good answers. *)
Inductive protocol : list call -> Prop :=
| p_recovery n h : (n <= 5)%nat -> in_recovery n any h -> protocol h
| p_answered h : in_recovery 6 answered h -> protocol h
| p_identified n h : in_recovery n identified h -> protocol h
| p_notified e code : protocol [Notify e code]
| p_fatal code : isRecoverable code = false -> protocol [Notify S_ERR_DEVICE_EVENT_FAULT code; Recovery].

(** At each point of the event thread. *)
Definition told (p : epoint) (h : list call) : Prop :=
  match p with
  | ETop | EPoll => h = []
  | EPause code q =>
      isRecoverable code = true /\
      h = match q with PFlag => [] | PBroadcast => [SetRecovery true] | PWait => [SetRecovery true; Notify S_ERR_DEVICE_EVENT_FAULT code] end
  | ECommand _ => in_recovery 3 any h
  | EInCommand _ => in_recovery 4 any h
  | EIdentify => in_recovery 5 answered h
  | EResume => in_recovery 6 identified h
  | EClear => in_recovery 7 identified h
  | EFatal => exists code, isRecoverable code = false /\ h = [Notify S_ERR_DEVICE_EVENT_FAULT code]
  | EFailed | EInFatal | EQuit | EEnd => protocol h
  end.

Lemma history_say t t' c s :
  history t (say t' c s) = history t s ++ (if decide (t' = t) then if is_throttle c then [] else [c] else []).
Proof.
  unfold history. cbn [trace say]. rewrite omap_app. f_equal. cbn. destruct (decide (t' = t)); [|done]. by destruct (is_throttle c).
Qed.

Lemma told_protocol p h : told p h -> protocol h.
Proof.
  assert (protocol []) as Hnil by (apply (p_recovery 0); [lia|by exists 300, true, 0, 0]).
  destruct p as [| |code q|ok|ok| | | | | | | |]; cbn; try done; try (by intros ->); try (intros H; eapply p_recovery; [|exact H]; lia);
    try (intros H; by eapply p_identified).
  - intros [Hc ->]. destruct q; [done| |]; [apply (p_recovery 1)|apply (p_recovery 2)]; try lia; by exists code, true, 0, 0.
  - intros (code & ok & ret & r & -> & Hc & Ha). apply (p_recovery 5); [lia|]. by exists code, ok, ret, r.
  - intros (code & Hc & ->). apply p_notified.
Qed.

Definition follows (s : state) : Prop := forall d, told (e_at (events s d)) (history (TEvent d) s).

Lemma follows_other s s' :
  (forall d, events s' d = events s d /\ history (TEvent d) s' = history (TEvent d) s) -> follows s -> follows s'.
Proof. intros H Hf d. destruct (H d) as [-> ->]. apply Hf. Qed.

(** The thread of one device moves. *)
Lemma follows_one d s s' t :
  (forall d', events s' d' = if d' =? d then t else events s d') ->
  (forall d', d' <> d -> history (TEvent d') s' = history (TEvent d') s) ->
  told (e_at t) (history (TEvent d) s') -> follows s -> follows s'.
Proof.
  intros He Hh Ht Hf d'. rewrite He. destruct (Z.eqb_spec d' d) as [->|Hn]; [done|]. rewrite Hh by done. apply Hf.
Qed.

Lemma history_set_event t d x s : history t (set_event d x s) = history t s.
Proof. done. Qed.

Lemma history_say_other d d' c s : d' <> d -> history (TEvent d') (say (TEvent d) c s) = history (TEvent d') s.
Proof. intros Hn. rewrite history_say, decide_False by congruence. apply app_nil_r. Qed.

Lemma history_say_own t c s : is_throttle c = false -> history t (say t c s) = history t s ++ [c].
Proof. intros Hc. by rewrite history_say, decide_True, Hc. Qed.

Lemma history_say_thread d t c s : t <> TEvent d -> history (TEvent d) (say t c s) = history (TEvent d) s.
Proof. intros Hn. rewrite history_say, decide_False by done. apply app_nil_r. Qed.

Lemma follows_Poll d ret ev s : e_at (events s d) = EPoll -> follows s -> follows (Poll d ret ev s).
Proof.
  intros Ep Hf. pose proof (Hf d) as Hd. rewrite Ep in Hd. cbn in Hd. unfold Poll. destruct (negb _).
  { by eapply (follows_one d s _ (mkEvents ETop _)); [| | |exact Hf]. }
  destruct (handle_event _ _) as [[p b] l] eqn:Eh. apply (follows_one d s _ (mkEvents p b)); [| | |exact Hf].
  - intros d'. cbn. by rewrite (proj1 (says_parts _ _ _)).
  - intros d' Hn. rewrite history_set_event. apply handle_event_point in Eh as
      [[_ [-> | ->]]|[[_ (e & c & ->)]|[(c & _ & _ & ->)|(c & _ & _ & ->)]]]; cbn [says foldl]; try done; by apply history_say_other.
  - rewrite history_set_event. cbn [e_at]. apply handle_event_point in Eh as
      [[-> [-> | ->]]|[[-> (e & c & ->)]|[(c & -> & Hc & ->)|(c & -> & Hc & ->)]]]; cbn [says foldl told].
    + done.
    + by rewrite history_say, decide_True, app_nil_r by done.
    + rewrite history_say_own, Hd by done. apply p_notified.
    + done.
    + rewrite history_say_own, Hd by done. by exists c.
Qed.

Lemma pause_step_history d code timeout p s x s' :
  pause_step (TEvent d) code timeout p s = Some (x, s') -> told (EPause code p) (history (TEvent d) s) ->
  told (match x with inl p => EPause code p | inr ok => ECommand ok end) (history (TEvent d) s') /\
  (forall d', d' <> d -> history (TEvent d') s' = history (TEvent d') s).
Proof.
  unfold pause_step. intros E [Hc Hh]. destruct p; [| |destruct (_ && _); [done|]]; injection E as <- <-;
    (split; [|intros d' Hn; by rewrite history_say_other]); cbn [told]; rewrite history_say_own by done;
    [change (history (TEvent d) (set_recovery true s)) with (history (TEvent d) s)| |]; rewrite Hh; cbn [app]; try done.
  by exists code, (pendingDmaOperations s =? 0), 0, 0.
Qed.

(** One more call of a recovery. *)
Ltac one_more H :=
  let code := fresh "code" in let ok := fresh "ok" in let r1 := fresh "r1" in let r2 := fresh "r2" in
  destruct H as (code & ok & r1 & r2 & -> & ? & ?).

Lemma follows_event d timeout ret s s' : event_step d timeout ret s = Some s' -> follows s -> follows s'.
Proof.
  unfold event_step. intros E Hf. pose proof (Hf d) as Hd. destruct (events s d) as [p b]. cbn [e_at driverOwnedRecoveryActive] in *.
  destruct p as [| |code p|ok|ok| | | | | | | |]; try done.
  2: { destruct (pause_step _ _ _ _ _) as [[x s1]|] eqn:Es; [|done]. injection E as <-.
    destruct (pause_step_history _ _ _ _ _ _ _ Es Hd) as [Ht Ho].
    eapply (follows_one d s _ (mkEvents _ b)); [|exact Ho|exact Ht|exact Hf]. intros d'. cbn. by rewrite (pause_step_events _ _ _ _ _ _ _ Es). }
  all: injection E as <-; eapply (follows_one d s _ (mkEvents _ b)); [intros d'; reflexivity| | |exact Hf];
    [intros d' Hn; rewrite history_set_event; try rewrite history_say_other by done; done|rewrite history_set_event; cbn [told e_at] in *].
  - destruct (stop s d); [by apply (told_protocol ETop)|done].
  - rewrite history_say_own by done. one_more Hd. by exists code, ok0, r1, r2.
  - rewrite history_say_own by done. one_more Hd. destruct (Z.ltb_spec ret 0); cbn [told].
    + eapply (p_recovery 5); [lia|]. by exists code, ok0, ret, r2.
    + by exists code, ok0, ret, r2.
  - rewrite history_say_own by done. one_more Hd. destruct (Z.eqb_spec ret 0); cbn [negb told].
    + by exists code, ok, r1, ret.
    + apply p_answered. by exists code, ok, r1, ret.
  - rewrite history_say_own by done. one_more Hd. by exists code, ok, r1, r2.
  - change (history (TEvent d) (say (TEvent d) (SetRecovery false) (set_recovery false s))) with
      (history (TEvent d) (say (TEvent d) (SetRecovery false) s)). rewrite history_say_own by done. one_more Hd.
    apply (p_identified 8). by exists code, ok, r1, r2.
  - exact Hd.
  - rewrite history_say_own by done. destruct Hd as (code & Hc & ->). by apply p_fatal.
  - exact Hd.
  - exact Hd.
Qed.

(** A step of another thread. *)
Ltac elsewhere :=
  intros d'; split; [by cbn|unfold history; cbn [trace set_channel set_handler set_blocked set_stop set_fate set_worker set_recovery
    set_pending set_queue say]; rewrite ?omap_app; cbn [omap list_omap fst snd]; rewrite ?decide_False by done; by rewrite ?app_nil_r].

Lemma handler_elsewhere h timeout ret s s' :
  handler_step h timeout ret s = Some s' -> forall d, events s' d = events s d /\ history (TEvent d) s' = history (TEvent d) s.
Proof.
  unfold handler_step, refuse. intros E. destruct (handler s) as [|o|o|o x|o x|o|o|o rc p|rc|rc|rc|rc] eqn:Eh; try done;
    try (injection E as <-; split_goal; elsewhere).
  unfold pause_step in E. destruct p; [| |destruct (_ && _); [done|]]; injection E as <-; elsewhere.
Qed.

Lemma follows_act a s s' : follows s -> act devices a s = Some s' -> follows s'.
Proof.
  intros H E. unfold act in E. apply guard_Some in E as [_ E]. destruct a as [d ret ev|d timeout ret|d c ret r|d c|o|h timeout ret|i ret|d].
  - destruct (e_at (events s d)) eqn:Ep; try done. apply guard_Some in E as [_ [= <-]]. by apply follows_Poll.
  - apply guard_Some in E as [_ E]. by eapply follows_event.
  - destruct (channels s d c); try done. apply guard_Some in E as [_ [= <-]]. eapply follows_other; [|exact H]. unfold Answer. split_goal; elsewhere.
  - apply guard_Some in E as [_ E]. eapply follows_other; [|exact H]. unfold channel_step in E. split_hyp E; try done; injection E as <-; elsewhere.
  - destruct (handler s) eqn:Eh; try done. injection E as <-. eapply follows_other; [|exact H]. unfold Handle, refuse. split_goal; elsewhere.
  - eapply follows_other; [by eapply handler_elsewhere|exact H].
  - eapply follows_other; [|exact H]. unfold worker_step in E. destruct (workers s !! i) as [w|]; [|done]. cbn [mbind option_bind] in E.
    destruct (w_at w); [destruct (list_find _ _) as [[j x]|]; [|done]; cbn in E| | |]; injection E as <-; elsewhere.
  - injection E as <-. eapply follows_other; [|exact H]. elsewhere.
Qed.

(** C21. Whatever the driver answers and the other threads do, the event thread of a device keeps to the protocol: before it gives the
    command of a recovery it has set the flag, told the clients and ended the wait, only on an error that can be recovered; it
    identifies the device only after a good answer to the command and calls the recovery over only after a good identification; it
    does so once; and an error without recovery is told before the command.  In particular a thread that was told of a recovery
    of the driver itself never gives a command. *)
Theorem recovery_protocol l s d :
  acts devices l (init devices) = Some s ->
  protocol (history (TEvent d) s) /\
  (forall code, Notify S_ERR_NEED_DEV_RECOVERY code ∈ history (TEvent d) s -> Recovery ∉ history (TEvent d) s).
Proof.
  intros E. assert (protocol (history (TEvent d) s)) as Hp.
  { eapply (told_protocol (e_at (events s d))), (runs_keep follows); [intros a s1 s2; apply follows_act| |exact E]. by intros d'. }
  split; [done|]. intros code. destruct Hp as [n h _ Hn|h Hn|n h Hn|e c|c _].
  1-3: destruct Hn as (c & ok & ret & r & -> & _); intros Hin; exfalso; apply elem_of_take in Hin as (i & Hi & _);
    do 8 (destruct i as [|i]; [done|]); by destruct i.
  - intros _ Hin. by apply list_elem_of_singleton in Hin.
  - intros Hin. exfalso. apply elem_of_cons in Hin as [Hin|Hin]; [done|]. by apply list_elem_of_singleton in Hin.
Qed.

(** The flag of a recovery of the driver is never set when it is read: the thread that sets it ends the process. *)
Definition never_active (s : state) : Prop :=
  forall d, driverOwnedRecoveryActive (events s d) = true -> e_at (events s d) = EQuit \/ e_at (events s d) = EEnd.

Lemma handle_event_active ev p a l : handle_event false ev = (p, a, l) -> a = true -> p = EQuit.
Proof. unfold handle_event. intros E. split_hyp E; injection E as <- <- <-; done. Qed.

Lemma never_active_act a s s' : never_active s -> act devices a s = Some s' -> never_active s'.
Proof.
  intros H E. unfold act in E. apply guard_Some in E as [_ E].
  assert (forall d t s1, events s1 = events s -> (driverOwnedRecoveryActive t = true -> e_at t = EQuit \/ e_at t = EEnd) -> never_active (set_event d t s1)) as Hset.
  { intros d t s1 Ee Ht d'. cbn. destruct (d' =? d); [done|]. rewrite Ee. apply H. }
  destruct a as [d ret ev|d timeout ret|d c ret r|d c|o|h timeout ret|i ret|d].
  - destruct (e_at (events s d)) eqn:Ep; try done. apply guard_Some in E as [_ [= <-]]. specialize (H d). rewrite Ep in H.
    assert (driverOwnedRecoveryActive (events s d) = false) as Ef by (destruct (driverOwnedRecoveryActive _); [|done]; by destruct H).
    unfold Poll. rewrite Ef. destruct (negb _); [by apply Hset|]. destruct (handle_event _ _) as [[p b] l] eqn:Eh.
    apply Hset; [apply says_parts|]. cbn. left. by eapply handle_event_active.
  - apply guard_Some in E as [_ E]. unfold event_step in E. specialize (H d).
    destruct (events s d) as [p b]. cbn [e_at driverOwnedRecoveryActive] in *. destruct p; try done;
      try (injection E as <-; apply Hset; [done|]; cbn; intros Hb; by destruct (H Hb)).
    + destruct (pause_step _ _ _ _ _) as [[x s1]|] eqn:Es; [|done]. injection E as <-.
      apply Hset; [by eapply pause_step_events|]. cbn. intros Hb. by destruct (H Hb).
    + injection E as <-. apply Hset; [done|]. by right.
  - destruct (channels s d c); try done. apply guard_Some in E as [_ [= <-]]. unfold Answer. by split_goal.
  - apply guard_Some in E as [_ E]. unfold channel_step in E. split_hyp E; try done; by injection E as <-.
  - destruct (handler s) eqn:Eh; try done. injection E as <-. unfold Handle, refuse. by split_goal.
  - pose proof (handler_elsewhere _ _ _ _ _ E) as He. intros d. rewrite (proj1 (He d)). apply H.
  - unfold worker_step in E. destruct (workers s !! i) as [w|]; [|done]. cbn [mbind option_bind] in E.
    destruct (w_at w); [destruct (list_find _ _) as [[j x]|]; [|done]; cbn in E| | |]; by injection E as <-.
  - by injection E as <-.
Qed.

Theorem driver_owned_branch_dead l s d :
  acts devices l (init devices) = Some s -> e_at (events s d) = EPoll -> driverOwnedRecoveryActive (events s d) = false.
Proof.
  intros E Ep. assert (never_active s) as H by (eapply (runs_keep never_active); [intros a s1 s2; apply never_active_act| |exact E]; by intros ?).
  specialize (H d). rewrite Ep in H. destruct (driverOwnedRecoveryActive _); [|done]. by destruct H.
Qed.

(** ** The responses *)

Definition response_of (c : call) : option response := match c with Got r => Some r | _ => None end.
Definition passed_of (c : call) : option response := match c with Respond r => Some r | _ => None end.
(** The responses the driver gave to a channel, and those that went on to the scheduler. *)
Definition got (d c : Z) (s : state) : list response := omap response_of (history (TChannel d c) s).
Definition passed (d c : Z) (s : state) : list response := omap passed_of (history (TChannel d c) s).

(** The responses the thread is done with. *)
Definition in_hand (p : cpoint) : list response := match p with CGot r => [r] | _ => [] end.
Definition deliver (l : list response) : list response := filter (fun r => deliverable r = true) l.

Definition ordered (s : state) : Prop :=
  forall d c, exists g, got d c s = g ++ in_hand (channels s d c) /\ passed d c s `prefix_of` deliver g /\
    (stop s d = false -> passed d c s = deliver g).

Lemma got_same d c s s' : history (TChannel d c) s' = history (TChannel d c) s -> got d c s' = got d c s /\ passed d c s' = passed d c s.
Proof. intros E. unfold got, passed. by rewrite E. Qed.

(** The channel [d], [c] goes on, with what it told; the others do not move. *)
Lemma ordered_channel d c p k s s' :
  channels s' = channels (set_channel d c p s) -> stop s' = stop s ->
  (forall d' c', history (TChannel d' c') s' = history (TChannel d' c') s ++ (if decide (d' = d /\ c' = c) then k else [])) ->
  (forall g, got d c s = g ++ in_hand (channels s d c) -> passed d c s `prefix_of` deliver g -> (stop s d = false -> passed d c s = deliver g) ->
     exists g', g ++ in_hand (channels s d c) ++ omap response_of k = g' ++ in_hand p /\
       passed d c s ++ omap passed_of k `prefix_of` deliver g' /\ (stop s d = false -> passed d c s ++ omap passed_of k = deliver g')) ->
  ordered s -> ordered s'.
Proof.
  intros Ec Es Hh Hg Ho d' c'. destruct (Ho d' c') as (g & E1 & E2 & E3). rewrite Ec, Es. unfold got, passed in *. rewrite Hh, !omap_app. cbn.
  destruct (decide (d' = d /\ c' = c)) as [[-> ->]|Hn].
  - rewrite !Z.eqb_refl. cbn. destruct (Hg g E1 E2 E3) as (g' & F1 & F2 & F3). exists g'. rewrite E1, <- app_assoc. by split_and!.
  - assert ((d' =? d) && (c' =? c) = false) as -> by (apply andb_false_iff; rewrite !Z.eqb_neq; destruct (decide (d' = d)); naive_solver).
    exists g. by rewrite !app_nil_r.
Qed.

Lemma deliver_snoc g r : deliver (g ++ [r]) = deliver g ++ (if deliverable r then [r] else []).
Proof. unfold deliver. rewrite filter_app, filter_cons, filter_nil. by destruct (deliverable r). Qed.

Lemma ordered_other s s' :
  channels s' = channels s -> (forall d, stop s' d = false -> stop s d = false) ->
  (forall d c, history (TChannel d c) s' = history (TChannel d c) s) -> ordered s -> ordered s'.
Proof.
  intros Ec Es Hh Ho d c. destruct (got_same d c s s' (Hh d c)) as [-> ->]. rewrite Ec. destruct (Ho d c) as (g & E1 & E2 & E3).
  exists g. split_and!; [done..|]. intros Hs. by apply E3, Es.
Qed.

Lemma history_say_channel d c x s d' c' :
  is_throttle x = false -> history (TChannel d' c') (say (TChannel d c) x s) =
    history (TChannel d' c') s ++ (if decide (d' = d /\ c' = c) then [x] else []).
Proof.
  intros Hx. rewrite history_say, Hx. f_equal. destruct (decide (d' = d /\ c' = c)) as [[-> ->]|Hn]; [by rewrite decide_True|].
  rewrite decide_False; [done|]. intros [= -> ->]. by apply Hn.
Qed.

Lemma ordered_Answer d c ret r s : channels s d c = CWait -> ordered s -> ordered (Answer d c ret r s).
Proof.
  intros Ec. unfold Answer. destruct (_ =? _); [|destruct (negb _)].
  1-2: apply (ordered_channel d c CTop []); [done|done|intros d' c'; by destruct (decide _); rewrite app_nil_r|];
    rewrite Ec; cbn; intros g _ H1 H2; exists g; rewrite !app_nil_r; done.
  apply (ordered_channel d c (CGot r) [Got r]); [done|done| |].
  - intros d' c'. by apply (history_say_channel d c (Got r)).
  - rewrite Ec. cbn. intros g _ H1 H2. exists g. by rewrite !app_nil_r.
Qed.

(** A channel goes on without a call. *)
Lemma ordered_silent d c p q s :
  channels s d c = q -> in_hand p = [] ->
  (forall r, q = CGot r -> deliverable r = false \/ stop s d = true) -> ordered s -> ordered (set_channel d c p s).
Proof.
  intros Ec Hp Hr. apply (ordered_channel d c p []); [done|done|intros d' c'; by destruct (decide _); rewrite app_nil_r|].
  rewrite Ec, Hp. cbn. intros g _ H1 H2. exists (g ++ in_hand q). rewrite !app_nil_r. split; [done|].
  destruct q as [| |r|r|r|]; cbn [in_hand]; rewrite ?app_nil_r; try done. rewrite deliver_snoc.
  split; [by apply prefix_app_r|]. intros Hs. rewrite (H2 Hs). destruct (Hr r eq_refl) as [->|Ht]; [by rewrite app_nil_r|congruence].
Qed.

(** A channel goes on with a call that passes a response on, or none. *)
Lemma ordered_call d c p q x s :
  channels s d c = q -> in_hand p = [] -> is_throttle x = false -> response_of x = None ->
  match q with CGot r => stop s d = false /\ passed_of x = (if deliverable r then Some r else None) | _ => passed_of x = None end ->
  ordered s -> ordered (set_channel d c p (say (TChannel d c) x s)).
Proof.
  intros Ec Hp Hx Hg Hr. apply (ordered_channel d c p [x]); [done|done|intros d' c'; by apply (history_say_channel d c x)|].
  rewrite Ec, Hp. cbn. intros g _ H1 H2. exists (g ++ in_hand q). rewrite Hg. cbn. rewrite !app_nil_r. split; [done|].
  destruct q as [| |r|r|r|]; cbn [in_hand]; [..|destruct Hr as [Hs Hr]| | |]; rewrite Hr, ?app_nil_r; try done. rewrite deliver_snoc.
  rewrite (H2 Hs). by destruct (deliverable r).
Qed.

Lemma ordered_channel_step d c s s' : channel_step d c s = Some s' -> ordered s -> ordered s'.
Proof.
  unfold channel_step. intros E Ho. destruct (channels s d c) as [| |r|r|r|] eqn:Ec; try done.
  - injection E as <-. apply (ordered_silent d c _ CTop); [done|by destruct (stop s d)|done|done].
  - destruct (stop s d) eqn:Es.
    { injection E as <-. apply (ordered_silent d c _ (CGot r)); [done|done|by right|done]. }
    assert (forall p, in_hand p = [] -> deliverable r = false -> ordered (set_channel d c p s)) as Hdrop
      by (intros p Hp Hr; apply (ordered_silent d c _ (CGot r)); [done|done|intros r' [= <-]; by left|done]).
    unfold deliverable in Hdrop. destruct (status r =? 0) eqn:E0; cbn [negb] in E.
    + destruct ((0 <=? dma_ch r) && _) eqn:E1; cbn [negb] in E; [|injection E as <-; by apply Hdrop].
      destruct (Z.eqb_spec (i32 (proc_id r)) 0) as [E2|E2].
      { injection E as <-. apply Hdrop; [done|]. rewrite E2. done. }
      destruct (Z.ltb_spec (i32 (proc_id r)) 0) as [E3|E3].
      { injection E as <-. apply Hdrop; [done|]. apply Z.ltb_ge. lia. }
      injection E as <-. apply (ordered_call d c _ (CGot r)); try done. split; [done|]. unfold deliverable. rewrite E0, E1.
      by rewrite (proj2 (Z.ltb_lt _ _)) by lia.
    + destruct (isRecoverable _); injection E as <-.
      * eapply ordered_other; [| | |apply (Hdrop CEnd); done]; done.
      * apply (ordered_call d c _ (CGot r)); try done. split; [done|]. unfold deliverable. by rewrite E0.
  - injection E as <-. eapply ordered_other; [| | |apply (ordered_silent d c (CAssert r) (CFault r)); [exact Ec|done|done|exact Ho]]; [done| |done].
    intros d'. cbn. by intros [_ ?]%orb_false_iff.
  - injection E as <-. eapply ordered_other; [| | |apply (ordered_call d c CEnd (CAssert r) (Notify S_ERR_DEVICE_RESPONSE_FAULT (u32 (status r))));
      [exact Ec|done|done|done|done|exact Ho]]; done.
Qed.

(** A step of a thread that is no response thread. *)
Ltac no_channel :=
  eapply ordered_other; [| | |eassumption];
    [done|done|intros d' c'; unfold history; cbn [trace set_event set_handler set_blocked set_stop set_fate set_worker set_recovery
      set_pending set_queue say]; rewrite ?omap_app; cbn [omap list_omap fst snd]; rewrite ?decide_False by done; by rewrite ?app_nil_r].

Lemma ordered_pause t code timeout p s x s' :
  (forall d c, t <> TChannel d c) -> pause_step t code timeout p s = Some (x, s') -> ordered s -> ordered s'.
Proof.
  unfold pause_step. intros Ht E Ho. destruct p; [| |destruct (_ && _); [done|]]; injection E as _ <-; no_channel.
Qed.

Lemma ordered_says d l s : ordered s -> ordered (says (TEvent d) l s).
Proof. unfold says. revert s. induction l as [|c l IH]; intros s Ho; [done|]. cbn. apply IH. no_channel. Qed.

Lemma ordered_act a s s' : ordered s -> act devices a s = Some s' -> ordered s'.
Proof.
  intros H E. unfold act in E. apply guard_Some in E as [_ E].
  destruct a as [d ret ev|d timeout ret|d c ret r|d c|o|h timeout ret|i ret|d].
  - destruct (e_at (events s d)) eqn:Ep; try done. apply guard_Some in E as [_ [= <-]]. unfold Poll.
    destruct (negb _); [by no_channel|]. destruct (handle_event _ _) as [[p b] l].
    pose proof (ordered_says d l s H) as H1. clear H. no_channel.
  - apply guard_Some in E as [_ E]. unfold event_step in E. destruct (e_at (events s d)); try done; try (injection E as <-; no_channel).
    destruct (pause_step _ _ _ _ _) as [[x s1]|] eqn:Es; [|done]. injection E as <-.
    apply ordered_pause in Es; [|done|done]. clear H. no_channel.
  - destruct (channels s d c) eqn:Ec; try done. apply guard_Some in E as [_ [= <-]]. by apply ordered_Answer.
  - apply guard_Some in E as [_ E]. by eapply ordered_channel_step.
  - destruct (handler s) eqn:Eh; try done. injection E as <-. unfold Handle, refuse. split_goal; no_channel.
  - unfold handler_step, refuse in E. destruct (handler s) as [|o|o|o x|o x|o|o|o rc p|rc|rc|rc|rc]; try done;
      try (injection E as <-; split_goal; no_channel).
    destruct (pause_step _ _ _ _ _) as [[x s1]|] eqn:Es; [|done]. injection E as <-.
    apply ordered_pause in Es; [|done|done]. clear H. no_channel.
  - unfold worker_step in E. destruct (workers s !! i) as [w|]; [|done]. cbn [mbind option_bind] in E.
    destruct (w_at w); [destruct (list_find _ _) as [[j x]|]; [|done]; cbn in E| | |]; injection E as <-; no_channel.
  - injection E as <-. apply (ordered_other s); [done| |done|exact H]. intros d'. cbn. by intros [_ ?]%orb_false_iff.
Qed.

(** C22. The responses of a channel go to the scheduler in the order in which the driver gave them, each one once, and only those that
    may: with status 0, a channel of the device and a process; and while the threads of the device are not told to stop, none
    of these is missing but the one the thread has in hand, in every interleaving. *)
Theorem responses_passed_on l s d c :
  acts devices l (init devices) = Some s ->
  exists g, got d c s = g ++ in_hand (channels s d c) /\ passed d c s `prefix_of` deliver g /\
    (stop s d = false -> passed d c s = deliver g).
Proof.
  intros E. assert (ordered s) as H by (eapply (runs_keep ordered); [intros a s1 s2; apply ordered_act| |exact E]; by exists []).
  apply H.
Qed.

(** ** A recovery comes to its end *)

Definition in_trouble (p : epoint) : bool := match p with ETop | EPoll | EEnd => false | _ => true end.
(** The steps the thread has at most to the end of the process. *)
Definition rank (p : epoint) : nat :=
  match p with
  | ETop | EPoll | EEnd => 0
  | EPause _ PFlag => 9 | EPause _ PBroadcast => 8 | EPause _ PWait => 7 | ECommand _ => 6 | EInCommand _ => 5 | EIdentify => 4
  | EResume => 3 | EClear => 2 | EFatal => 2 | EInFatal => 1 | EFailed => 1 | EQuit => 1
  end.
Definition own (d : Z) (a : action) : bool := match a with AEvent d' _ _ => d' =? d | _ => false end.

Lemma event_step_rank d timeout ret s s' :
  in_trouble (e_at (events s d)) = true -> event_step d timeout ret s = Some s' ->
  fate_ s' <> Running \/ (in_trouble (e_at (events s' d)) = true /\ (rank (e_at (events s' d)) < rank (e_at (events s d)))%nat).
Proof.
  unfold event_step. intros Hi E. destruct (events s d) as [p b] eqn:Ee. cbn [e_at driverOwnedRecoveryActive] in *. destruct p as [| |code p|ok|ok| | | | | | | |]; try done.
  - destruct (pause_step _ _ _ _ _) as [[x s1]|] eqn:Es; [|done]. injection E as <-. right. cbn. rewrite Z.eqb_refl. cbn.
    unfold pause_step in Es. destruct p; [| |destruct (_ && _); [done|]]; injection Es as <- _; cbn; split; try done; lia.
  - injection E as <-. right. cbn. rewrite Z.eqb_refl. cbn. split; [done|lia].
  - injection E as <-. right. cbn. rewrite Z.eqb_refl. cbn. destruct (ret <? 0); cbn; split; try done; lia.
  - injection E as <-. right. cbn. rewrite Z.eqb_refl. cbn. destruct (negb _); cbn; split; try done; lia.
  - injection E as <-. right. cbn. rewrite Z.eqb_refl. cbn. split; [done|lia].
  - injection E as <-. right. cbn. rewrite Z.eqb_refl. cbn. split; [done|lia].
  - injection E as <-. by left.
  - injection E as <-. right. cbn. rewrite Z.eqb_refl. cbn. split; [done|lia].
  - injection E as <-. by left.
  - injection E as <-. by left.
Qed.

Lemma other_event a d s s' :
  own d a = false -> in_trouble (e_at (events s d)) = true -> act devices a s = Some s' -> events s' d = events s d.
Proof.
  intros Ho Hi E. unfold act in E. apply guard_Some in E as [_ E].
  destruct a as [d' ret ev|d' timeout ret|d' c ret r|d' c|o|h timeout ret|i ret|d'].
  - destruct (Z.eqb_spec d d') as [->|Hn]; [by destruct (e_at (events s d'))|].
    destruct (e_at (events s d')); try done. apply guard_Some in E as [_ [= <-]]. unfold Poll.
    apply Z.eqb_neq in Hn. destruct (negb _); [cbn; by rewrite Hn|]. destruct (handle_event _ _) as [[p b] l]. cbn. rewrite Hn. by rewrite (proj1 (says_parts _ _ _)).
  - cbn in Ho. rewrite Z.eqb_sym in Ho. apply guard_Some in E as [_ E]. unfold event_step in E.
    destruct (e_at (events s d')); try done; try (injection E as <-; cbn; by rewrite Ho).
    destruct (pause_step _ _ _ _ _) as [[x s1]|] eqn:Es; [|done]. injection E as <-. cbn. rewrite Ho. by rewrite (pause_step_events _ _ _ _ _ _ _ Es).
  - destruct (channels s d' c); try done. apply guard_Some in E as [_ [= <-]]. unfold Answer. by split_goal.
  - apply guard_Some in E as [_ E]. unfold channel_step in E. split_hyp E; try done; by injection E as <-.
  - destruct (handler s); try done. injection E as <-. unfold Handle, refuse. by split_goal.
  - by apply (handler_elsewhere _ _ _ _ _ E).
  - unfold worker_step in E. destruct (workers s !! i) as [w|]; [|done]. cbn [mbind option_bind] in E.
    destruct (w_at w); [destruct (list_find _ _) as [[j x]|]; [|done]; cbn in E| | |]; by injection E as <-.
  - by injection E as <-.
Qed.

(** C23. An event thread that has to deal with a failure ends the process: none of its steps ever waits for another thread, the wait
    for the transfers apart, which ends with its time limit at the latest, and after at most nine of them the process is over,
    whatever the other threads do in between. *)
Theorem recovery_ends l s s' d :
  valid_device devices d = true -> in_trouble (e_at (events s d)) = true -> acts devices l s = Some s' ->
  fate_ s' <> Running \/
  ((countb (own d) l <= 8) /\ exists s2, act devices (AEvent d true 0) s' = Some s2).
Proof.
  intros Hv Hi E.
  assert (fate_ s' <> Running \/ (in_trouble (e_at (events s' d)) = true /\ countb (own d) l + Z.of_nat (rank (e_at (events s' d))) <= Z.of_nat (rank (e_at (events s d))))) as H.
  { revert s Hi E. induction l as [|a l IH]; intros s Hi E; [injection E as <-; right; split; [done|change (countb (own d) []) with 0; lia]|].
    cbn in E. destruct (act devices a s) as [s1|] eqn:E1; [|done]. rewrite countb_cons.
    assert (fate_ s1 <> Running \/ (in_trouble (e_at (events s1 d)) = true /\ Z.b2z (own d a) + Z.of_nat (rank (e_at (events s1 d))) <= Z.of_nat (rank (e_at (events s d))))) as [Hf|[Hi1 Hr]].
    { destruct (own d a) eqn:Eo; [|right; rewrite (other_event _ _ _ _ Eo Hi E1); split; [done|cbn [Z.b2z]; lia]].
      destruct a as [| d' timeout ret| | | | | |]; try done. cbn in Eo. apply Z.eqb_eq in Eo as ->. unfold act in E1. apply guard_Some in E1 as [_ E1].
      apply guard_Some in E1 as [_ E1]. destruct (event_step_rank _ _ _ _ _ Hi E1) as [?|[? ?]]; [by left|right]. split; [done|cbn [Z.b2z]; lia]. }
    - left. destruct l as [|b l]; [by injection E as <-|]. cbn in E. destruct (act devices b s1) as [s2|] eqn:E2; [|done].
      unfold act in E2. by apply guard_Some in E2 as [? _].
    - destruct (IH _ Hi1 E) as [?|[? ?]]; [by left|right; split; [done|lia]]. }
  destruct H as [H|[Hi' Hr]]; [by left|]. destruct (decide (fate_ s' = Running)) as [Hf|]; [right|by left].
  split.
  - assert (1 <= Z.of_nat (rank (e_at (events s' d)))) by (destruct (e_at (events s' d)) as [| |c []|?|?| | | | | | | |]; cbn; try done; lia).
    assert (Z.of_nat (rank (e_at (events s d))) <= 9) by (destruct (e_at (events s d)) as [| |c []|?|?| | | | | | | |]; cbn; lia). lia.
  - unfold act. rewrite Hf, Hv. cbn. unfold event_step. destruct (e_at (events s' d)) as [| |c p|?|?| | | | | | | |] eqn:Ep; try done; try by eexists.
    destruct p; cbn; rewrite ?andb_false_r; by eexists.
Qed.

End Thms.

(** ** The handler, undisturbed *)

Lemma act_handler n h timeout ret s : fate_ s = Running -> act n (AHandler h timeout ret) s = handler_step h timeout ret s.
Proof. intros Hf. unfold act. by rewrite Hf. Qed.

(** Run to its end at once the handler of a DMA request does what [HandleDMA] of [DxrtService] says. *)
Lemma handler_is_HandleDMA {A Q} `{!AllocOps A} `{!Scheduler.Policy Q} (sys : system) (v : service A Q) o block s :
  o_kind o <> FaultRead -> handler s = HIdle -> fate_ s = Running ->
  recoveryInProgress s = DxrtService.recoveryInProgress v -> pendingDmaOperations s = DxrtService.pendingDmaOperations v ->
  let '(code, x, v') := HandleDMA sys (is_read_of (o_kind o)) (o_pid o) (o_seq o) (o_dev o) block (o_offset o) (o_size o) v in
  let h := TryGetSharedMemoryHandle (o_dev o) (o_pid o) (u64 block) v in
  exists n s', acts (devices sys) (ARequest o :: replicate n (AHandler h false 0)) s = Some s' /\ handler s' = HIdle /\
    pendingDmaOperations s' = DxrtService.pendingDmaOperations v' /\
    match x with
    | Some x => code = 0 /\ queue s' = queue s ++ [(o_dev o, x)] /\ trace s' = trace s
    | None => queue s' = queue s /\ trace s' = trace s ++ [(THandler, Refused code)]
    end.
Proof.
  intros Hk Hh Hf Er Ep. unfold HandleDMA. change (in_devices sys (o_dev o)) with (valid_device (devices sys) (o_dev o)).
  assert (act (devices sys) (ARequest o) s = Some (if o_size o =? 0 then refuse 0 s else if negb (valid_device (devices sys) (o_dev o)) then refuse (- EINVAL) s
    else set_handler (HCheck o) s)) as E0 by (unfold act; rewrite Hf, Hh; cbn; unfold Handle; by destruct (o_kind o)).
  destruct (o_size o =? 0); [exists 0%nat; cbn [acts replicate]; rewrite E0; by eexists|].
  destruct (negb _); [exists 0%nat; cbn [acts replicate]; rewrite E0; by eexists|].
  rewrite <- Er. destruct (recoveryInProgress s) eqn:Ef.
  { exists 1%nat. cbn [acts replicate]. rewrite E0. cbn [mbind option_bind]. unfold act. cbn. rewrite Hf. cbn. rewrite Ef. by eexists. }
  set (h := TryGetSharedMemoryHandle (o_dev o) (o_pid o) (u64 block) v). set (s1 := set_handler (HCheck o) s) in *.
  assert (act (devices sys) (AHandler h false 0) s1 = Some (set_handler (HChecked o) s1)) as E1
    by (rewrite act_handler by done; cbn; by rewrite Ef).
  assert (act (devices sys) (AHandler h false 0) (set_handler (HChecked o) s1) =
    Some (match resolve o h with Some x => set_handler (HCount o x) s1 | None => refuse (- EINVAL) s1 end)) as E2
    by (rewrite act_handler by done; cbn; by destruct (resolve o h)).
  unfold resolve in E2. destruct h as [h|]; [destruct (_ || _)|].
  - exists 2%nat. cbn [acts replicate]. rewrite E0. cbn [mbind option_bind]. rewrite E1. cbn [mbind option_bind]. rewrite E2. by eexists.
  - exists 4%nat. cbn [acts replicate]. rewrite E0. cbn [mbind option_bind]. rewrite E1. cbn [mbind option_bind]. rewrite E2.
    cbn [mbind option_bind]. rewrite act_handler by done. cbn [handler_step handler set_handler mbind option_bind].
    rewrite act_handler by done. cbn [handler_step handler set_handler mbind option_bind]. eexists. split; [done|]. cbn. by rewrite Ep.
  - exists 2%nat. cbn [acts replicate]. rewrite E0. cbn [mbind option_bind]. rewrite E1. cbn [mbind option_bind]. rewrite E2. by eexists.
Qed.
End ServiceRecoveryThms.

(** * The recovery of a device in the service: runs *)
Module ServiceRecoveryRuns.
Import DxrtService ServiceRecovery ServiceRecoveryThms.

Definition after (devices : Z) (l : list action) : state := default (init devices) (acts devices l (init devices)).

Definition demo_request : request := mkRequest Read 77 1 0 0 4096.
Definition demo_handle : SharedMemHandle := mkHandle 5 4096 8192 0.
Definition aborted : event := mkEvent 1 400 0 0.
(** A step of the event thread of device [d]. *)
Definition ev (d : Z) : action := AEvent d false 0.
Definition hd : action := AHandler (Some demo_handle) false 0.

(** C20. The wait of a recovery can end with success and the driver get the command, and still a transfer to the same device starts
    before the command is over: a request that had read the flag before it was set is counted after the wait. *)
Theorem recovery_overlap :
  exists l s i w x, acts 1 l (init 1) = Some s /\ e_at (events s 0) = EInCommand true /\
    workers s !! i = Some w /\ w_dev w = 0 /\ w_at w = WTransfer x.
Proof.
  exists [ev 0; APoll 0 0 aborted; ARequest demo_request; hd; ev 0; ev 0; ev 0; ev 0; hd; hd; hd; AWorker 0 0].
  eexists _, 0%nat, _, _. split; [vm_compute; reflexivity|]. by repeat split.
Qed.

(** The end of the recovery of one device ends the process while another device is in its command. *)
Theorem recovery_of_another_device_cut_off :
  exists l s, acts 2 l (init 2) = Some s /\ fate_ s = Exited /\ e_at (events s 0) = EInCommand true.
Proof.
  exists [ev 0; ev 1; APoll 0 0 aborted; APoll 1 0 aborted; ev 0; ev 0; ev 0; ev 0; ev 1; ev 1; ev 1; ev 1; ev 1; ev 1; ev 1; ev 1; ev 1].
  eexists. split; [vm_compute; reflexivity|]. by split.
Qed.

Definition to_wait : list action := [ev 0; APoll 0 0 aborted; ev 0; ev 0].
Definition refused : list action := [ev 0; ARequest demo_request; hd].

Lemma recovery_quiet_witness :
  pendingDmaOperations (after 1 (to_wait ++ ev 0 :: refused)) = 0 /\ queue (after 1 (to_wait ++ ev 0 :: refused)) = [] /\
  (forall w x, w ∈ workers (after 1 (to_wait ++ ev 0 :: refused)) -> w_at w <> WTransfer x).
Proof.
  apply (recovery_quiet 1 0 400 false 0 to_wait (after 1 to_wait) (after 1 (to_wait ++ [ev 0])) refused).
  - vm_compute. reflexivity.
  - reflexivity.
  - vm_compute. reflexivity.
  - reflexivity.
  - reflexivity.
  - vm_compute. reflexivity.
  - intros t Ht. vm_compute in Ht. repeat (apply elem_of_cons in Ht as [Ht|Ht]; [discriminate|]). by apply elem_of_nil in Ht.
Defined.

Definition recovered : list action := to_wait ++ [ev 0; ev 0; ev 0; ev 0; ev 0; ev 0; ev 0].
Lemma recovery_protocol_witness :
  fate_ (after 1 recovered) = Exited /\ history (TEvent 0) (after 1 recovered) = recovery_calls 400 true 0 0 /\
  protocol (history (TEvent 0) (after 1 recovered)) /\
  (forall code, Notify S_ERR_NEED_DEV_RECOVERY code ∈ history (TEvent 0) (after 1 recovered) -> Recovery ∉ history (TEvent 0) (after 1 recovered)).
Proof.
  split; [vm_compute; reflexivity|]. split; [vm_compute; reflexivity|].
  apply (recovery_protocol 1 recovered (after 1 recovered) 0). vm_compute. reflexivity.
Defined.

Lemma recovery_ends_witness :
  fate_ (after 1 (to_wait ++ refused)) <> Running \/
  (countb (own 0) refused <= 8 /\ exists s2, act 1 (AEvent 0 true 0) (after 1 (to_wait ++ refused)) = Some s2).
Proof.
  apply (recovery_ends 1 refused (after 1 to_wait)).
  - reflexivity.
  - reflexivity.
  - vm_compute. reflexivity.
Defined.

Definition answers : list action :=
  [AChannel 0 1; AAnswer 0 1 0 (mkResponse 5 0 77 1); AChannel 0 1; AChannel 0 1; AAnswer 0 1 0 (mkResponse 6 0 0 1); AChannel 0 1;
   AChannel 0 1; AAnswer 0 1 0 (mkResponse 7 0 77 1)].
Lemma responses_passed_on_witness :
  passed 0 1 (after 1 answers) = [mkResponse 5 0 77 1] /\
  exists g, got 0 1 (after 1 answers) = g ++ in_hand (channels (after 1 answers) 0 1) /\ passed 0 1 (after 1 answers) `prefix_of` deliver g /\
    (stop (after 1 answers) 0 = false -> passed 0 1 (after 1 answers) = deliver g).
Proof.
  split; [vm_compute; reflexivity|]. apply (responses_passed_on 1 answers (after 1 answers) 0 1). vm_compute. reflexivity.
Defined.

End ServiceRecoveryRuns.
